(* ===== verification/_CoqProject ===== *)
-Q . S2P
Prelude.v
Io.v
Apf.v
Channel.v
Mps.v
Codec.v
Float.v
Control.v
Relay.v
Message.v
GoTime.v
Rollout.v
Sorting.v
Settings.v
GoStrings.v
GoNet.v
Sha256.v
Dbtx.v
Rules.v
RuleResolve.v
Incident.v
AlertStore.v
AlertStoreInv.v
AlertCounts.v
AlertClaims.v
AlertQueue.v
Ledger.v
LedgerInv.v
LedgerClaims.v
Admission.v
Renewal.v
Backfill.v
Effect.v
Purge.v
PurgeClaims.v
Coverage.v
Telemetry.v
ProxyTrust.v
ApiWorld.v
Budget.v
Accounts.v
AccountClaims.v
Console.v
ConsoleClaims.v
Sessions.v
SessionClaims.v
RuleDelivery.v
RuleAdmin.v
RuleAdminClaims.v
Connections.v
ConnectionClaims.v
AlertIntake.v
Authority.v
AuthorityClaims.v
GoText.v
Seconds.v
Updates.v
UpdateClaims.v
Series.v
SeriesClaims.v
Charts.v
ChartClaims.v
