(* ===== verification/Prelude.v ===== *)
(** * OpenGate server: a verification library

    OpenGate is a remote-management server: agents and Intel AMT devices connect
    to it, technicians reach machines through its relay, and it evaluates
    monitoring rules and keeps the alerts they raise.  This library models the
    parts of the Go server ([src/server/internal]) that carry its own logic and
    proves what makes each correct.

    ** The parts and the files that model them

    - Intel AMT ([amt/transport]).  A device speaks APF over one connection.
      [Apf]: the framing and parsing of messages and the writers ([apf.go],
      [apf_messages.go], [apf_write.go]).  [Channel]: one forwarded channel, its
      inbox, its window and its end ([mps_channel.go]).  [Mps]: a connection's
      channels and pending opens as a heap of channels and one-slot reply
      channels, the message handlers, the handshake as a state and error monad,
      and the table of connected devices ([mps_conn.go], [mps_handlers.go],
      [mps_handshake.go], [mps.go]).  Callers of [OpenChannel], owners of channels,
      [Close] and the message loop interleave as steps of [mps_step], each one
      critical section of the connection or of a channel; the handlers, run whole,
      are proved to be runs of these steps.
    - The wire protocol ([protocol]).  [Codec]: frames and the binary handshake
      ([codec.go], [types.go]).  [Control]: the control envelope, its
      hand-written encoder field by field and the reflection encoder its struct
      tags describe, over any msgpack encoder (class [Encoder]).
    - The relay ([relay]).  [Relay]: sessions joined by token, as goroutines that
      step between critical sections ([relay.go], [inprocess_registry.go]).
      [Message]: pooled message buffers and the bounded read ([message.go]).
    - Rules ([rules], [settings]).  [Settings]: the tenancy ladder
      ([settings.go]).  [Rules]: definitions, their validation, cost and loading
      ([catalogue*.go], [cost.go]).  [RuleResolve]: customers' bindings, which
      apply to a machine, the rule they resolve to, and clamping on upgrade
      ([binding.go], [resolve.go], [clamp.go]).  [Rollout]: stages, populations
      and the gate ([rollout.go], [stage.go], [gate.go]).
    - Alerts ([alerts], [dbtx]).  [Incident]: alerts, rooms, their lifecycle and
      budgets ([types.go], [incident.go], [limits.go]).  [AlertStore]: the tables
      with every statement of the store as a function on them, composed into
      transactions as the code composes them ([postgres*.go], [room.go],
      [queue.go]).  [AlertStoreInv], [AlertCounts], [AlertClaims], [AlertQueue]:
      what the store keeps and promises.
    - Certificates ([certledger], [cert], [devicecert], [agentapi]).  [Ledger]: the
      table of issued certificates and the index over it, their operations
      interleaved step by step ([store.go], [upkeep.go]); [LedgerInv] and
      [LedgerClaims] prove what the two keep.  [Admission]: the trust set, the
      standing of a certificate, the handshake and whom the server admits
      ([trust.go], [classify.go], [handshaker.go], [admission.go]).  [Renewal]:
      issuing, enrolling and renewing ([issue_device.go], [cert_issue.go],
      [issuer.go], [renewal.go]).
    - The master keys ([authority], [cmd/opengate-authority], [cert]).  [Authority]:
      the phases of a rotation and the files each leaves ([layout.go]), their staging
      and inspection ([stage.go], [inspect.go]), the cluster's secrets as calls that
      fail, take effect late or race ([secrets.go]), the commands over them
      ([main.go]) and the loading of what they leave ([trust.go], [trust_files.go],
      [cert_ca.go], [cross.go], [cert.go]); [AuthorityClaims] proves what they keep.
    - Agent updates ([updater], [api], [osutil]).  [Updates]: signing keys, manifests
      and their paths, the release feed, publishing, pushing and acknowledging, as
      programs over files, rows and streams that fail ([signing.go], [manifest.go],
      [github.go], [postgres.go], [handlers_updates.go], [normalize.go],
      [conn_guard.go]); [UpdateClaims] proves what they keep.
    - The agents' data ([agentapi]).  [Backfill]: the scheduler of backfill slots
      ([backfill_scheduler.go]).  [Telemetry]: the accounting of one connection's
      telemetry and what it stores ([conn_telemetry.go], [conn_accounting.go],
      [conn_backfill.go], [vitals.go], [alert_breach.go]).  [Coverage]: which rules
      run where ([conn_coverage.go], [rules/postgres_coverage.go]).  [Connections]:
      the table of connections, the gate on a device's status, and connections
      accepted, served, replaced, retired and released as goroutines over shared
      objects ([server_connection.go], [server.go], [conn_restricted.go],
      [deregister.go], the dispatch of [conn.go]); [ConnectionClaims] proves what
      they keep.  [AlertIntake]: an alert a machine sends, from its checks to the
      store of [AlertStore] ([conn_alerts.go]).
    - Rules on their way to machines.  [RuleDelivery]: the rules a machine is sent,
      through an interface that any provider of rules implements
      ([alert_rules.go], [alert_rules_catalogue.go]).  [RuleAdmin]: pacing, stopping
      and tuning a rule, from the handler through the tables to the connected
      machines ([handlers_rules_*.go], [postgres_rollout.go],
      [postgres_bindings.go]); [RuleAdminClaims] proves what they keep.
    - Erasure ([lifecycle]).  [Purge]: jobs, the deny-list, the stages, starting and
      resuming, the sweep for orphans, as programs over calls that may fail or stop
      at any point; [PurgeClaims] proves what they keep.
    - Series and charts ([telemetry], [api]).  [Series]: samples as exposition text
      under the server's labels, selectors scoped to a tenant, queries, deletions and
      the reading of answers ([vm*.go]); [SeriesClaims] proves what they promise.
      [Charts]: the grid of a chart, the series laid onto it, a machine's chart, the
      badges and the bands of a fleet, over the interface [MetricsReader]
      ([metrics_grid.go], [metrics_assemble.go], [handlers_device_metrics.go],
      [handlers_device_summary.go]); [ChartClaims] proves what they promise, for any
      reader that keeps tenants apart, and that the client of [Series] does.
    - The HTTP API ([api], [auth], [session], [usecase], [updater]).  [ApiWorld]: the
      rows its handlers reach, each statement a function on them, and pools of
      handlers that interleave call by call.  [ProxyTrust]: whom a request counts
      against ([proxytrust.go], [ratelimit.go]).  [Accounts]: registration, login,
      users and groups ([handlers_auth.go], [handlers_users.go],
      [handlers_security_group*.go]).  [Console]: the sealed cookie and the sign-in
      behind it ([session_cookie.go], [handlers_console_session.go],
      [middleware.go]).  [Sessions]: remote sessions, the relay's door and enrolment
      ([handlers_sessions.go], [handlers_relay.go], [handlers_enrollment.go],
      [usecase/session.go], [session/sweeper.go]).  [AccountClaims],
      [ConsoleClaims] and [SessionClaims] prove what they keep, with [Budget] for
      counters that are checked before they are spent.
    - Shared: [Prelude] (results, machine integers, bytes, generic lemmas), [Io]
      (readers and writers that fail), [Float] (Go's float64), [GoTime] (instants),
      [GoStrings], [GoText], [GoNet] and [Sha256] (what the code uses of Go's strings,
      base64, addresses and hashes), [Seconds] (durations as float64 seconds), [Sorting] (stable sorts), [Dbtx] (the tenant of a
      context and the row policy), [Effect] (programs over calls).

    ** How code is translated

    A fallible Go function is a function to [result]; a panic is an error value
    of its own where the code could raise one.  Integers are [Z] with wrap-around
    written out where the width matters.  Maps are [gmap]s, a nil map [None]
    where the code distinguishes it.  Shared objects (channels, sessions, reply
    channels) live in a heap by location.  Concurrent code is a step relation
    over threads whose steps are the critical sections; executable interpreters
    of the same steps evaluate the witnesses.  Handlers that call a database are
    programs ([Effect]) whose calls interleave with those of others, each statement
    being one step.  Code outside [src] is a parameter: the msgpack encoder, the YAML
    decoder and digest of a pack, Postgres's text length and random ids, the float
    conversions Go leaves to the machine, X.509 and PEM, key generation, Ed25519,
    JSON, the JWT
    library, password hashing, the parser of mail addresses, the resolver of a
    cluster, the token bucket of a rate limiter, Unicode case, gzip, the parser of
    uuids, the printing and parsing of floats.

    ** What the theorems show

    - Framing reads whole messages within fixed bounds, writers and readers are
      inverse, parsers index nothing outside the payload ([Apf], [Codec]).
    - Flow control never overruns the window it granted; an open is answered or
      abandoned, never lost; whatever critical sections interleave, no goroutine
      blocks on an answer and the maps stay well formed; no handler of an open
      connection panics ([Channel], [Mps]).
    - The hand-written control encoder emits exactly what the reflection encoder
      would, and loses nothing ([Control]).
    - A relay session ends once, a pipe joins the two sides of one token, the
      count is right at rest ([Relay]); a message read is exact and bounded
      ([Message]).
    - A pack that loads is valid ([Rules]); resolution is isolated between
      customers, independent of storage order, within bounds, explained by the
      binding that decided it, and unchanged by clamping ([RuleResolve]).
    - A rollout moves one stage at a time and only forward on a clean gate, and
      completes when the gate stays clean ([Rollout]).
    - The alert store keeps one open room per key and one alert per identity,
      its counters are exact, its budget holds, tenants are isolated, every alert
      worth a look finds its room, moves follow the lifecycle, and reading the
      queue's pages to the end stops and gives every room once ([AlertClaims],
      [AlertQueue]).
    - The index of certificates follows its table however their operations
      interleave, and a superseded certificate stays so ([LedgerClaims]); admission
      and renewal decide exactly as stated ([Admission], [Renewal]).
    - A rotation of the master key loads at every phase with the roles its table
      gives, a certificate's standing follows the phase, adopting a key never loses
      it, and staging copies exactly the volume's files ([AuthorityClaims]).
    - A machine is sent only updates that the server's key signed, a manifest's path
      never leaves its folder, and a restart keeps the signing keys
      ([UpdateClaims]).
    - Backfill slots keep their caps ([Backfill]); the telemetry messages ingested are
      those persisted, dropped, buffered or in flight, up to the windows counted twice
      and the summaries not counted, both stated, and what is stored is within the vocabulary ([Telemetry]); the table of unsupported rules follows the reports
      ([Coverage]).
    - A purge that is reported complete has the evidence for it, whatever failed or
      stopped; resuming takes every job to complete, or to pending while series await
      compaction, when no call fails; a purged device stays out ([PurgeClaims]).
    - Opening a session does exactly what is stated on every branch, a session is
      ended only by its holder or an administrator, and a browser joins only the
      session it holds; the certificates a token enrols exceed what it permits by no
      more than the requests that overlap and the increments that are lost; logins
      that fail, at the API and at the console, are bounded; the administrator's flag
      follows the group and, one request at a time, a group keeps its last member; a
      request is served under a cookie only within the two limits of its session; a
      console session stays alive while it is used; forgetting idle buckets changes no answer
      ([SessionClaims], [AccountClaims], [ConsoleClaims], [ProxyTrust]).
    - A device that reconnects is never marked offline by the connection it
      replaced; at rest the table, the count and the goroutines agree, and no gate
      is left held ([ConnectionClaims]).  Every alert a machine sends is counted as
      dropped, failed or stored, and one that passes the checks reaches the room its
      rule asks for ([AlertIntake]).
    - A machine is sent exactly the rules its rollout gives it ([RuleDelivery]); the
      tables of rollouts and bindings stay well formed under any interleaving of
      the handlers, and a stop that is answered is in the table and, where the scope
      was read and the push went out, with the connected machines of the customer
      ([RuleAdminClaims]).
    - A selector reads back as the metric and the matchers it was made of with the
      tenant's first, samples read back as they were written, and no read or deletion
      for one tenant reaches another's series ([SeriesClaims]); a chart has at most
      the points asked for, each the last sample of its bucket, and its handlers read
      their caller's tenant alone ([ChartClaims]).
    - Theorems and examples that state a defect say so in their comment: the
      connection count that leaks, the slot released for another connection, the
      tenants the relay refuses, the purged tenant readmitted, the late heartbeat,
      the stop that a failed read lifts, the master key that a racing initialisation
      overwrites, the retirement that cannot be loaded, the acknowledgement that
      comes before its row, the demotions that race, the allowance two renewals pass
      together, the customer shown the bands of its whole tenant, the matchers joined
      by or that escape the tenant's.

    Loops with fuel come with a theorem that the fuel given is enough:
    [chan_write] (one turn per packet), [ReadMessageFrom] (one turn per chunk),
    [read_pages] (more pages than rooms; it answers [None] when they do not do),
    [runes] and [lastHop] (one turn per byte).  [messageLoop] and [drain] take as
    fuel the number of messages, or of batches before cancellation, and
    [runControlLoop] any number of frames, which is the machine's to choose.
    [pem_certs] turns once per byte of its data, of which a block takes several.

    ** Not modelled

    TLS, QUIC, HTTP and the generated API; msgpack and YAML themselves; X.509; the
    time-series database itself and the client of WS-Management; the stores and
    handlers whose operations are single statements; the copying of relayed
    bytes; process wiring; the browser and the Rust agent.  Transactions of the
    alert store run one after the other: the code serialises the writers of one
    room by row locks. *)
From Stdlib Require Export Init.Byte Strings.Byte ZArith Lia.
From stdpp Require Export base gmap strings countable option sorting.
From stdpp Require Export list.

#[global] Open Scope Z_scope.
#[global] Arguments String.list_byte_of_string s%_string_scope.

Create HintDb opengate.

(** ** Results: Go's [(value, error)] pairs

    A fallible Go function is a function to [result E A]; stdpp's [x ← e; k]
    notation is the early return on a non-nil error. *)

Inductive result (E A : Type) : Type :=
  | Ok (a : A)
  | Err (e : E).
Arguments Ok {E A} a.
Arguments Err {E A} e.

#[global] Instance result_ret E : MRet (result E) := λ A a, Ok a.
#[global] Instance result_bind E : MBind (result E) :=
  λ A B f r, match r with Ok a => f a | Err e => Err e end.
#[global] Instance result_fmap E : FMap (result E) :=
  λ A B f r, match r with Ok a => Ok (f a) | Err e => Err e end.
#[global] Instance result_eq_dec {E A} `{!EqDecision E, !EqDecision A} :
  EqDecision (result E A).
Proof. solve_decision. Defined.

Definition is_ok {E A} (r : result E A) : bool :=
  match r with Ok _ => true | Err _ => false end.

Lemma bind_Ok {E A B} (f : A → result E B) (r : result E A) b :
  r ≫= f = Ok b ↔ ∃ a, r = Ok a ∧ f a = Ok b.
Proof.
  destruct r as [a|e]; cbn; split; [by eauto | | done |].
  - by intros (? & [= <-] & ?).
  - by intros (? & ? & ?).
Qed.

Lemma bind_Err {E A B} (f : A → result E B) (r : result E A) e :
  r ≫= f = Err e ↔ r = Err e ∨ ∃ a, r = Ok a ∧ f a = Err e.
Proof.
  destruct r as [a|e']; cbn; split.
  - intros ?. right. by eauto.
  - intros [?|(? & [= <-] & ?)]; done.
  - intros [= ->]. by left.
  - intros [[= ->]|(? & ? & ?)]; done.
Qed.

(** ** Machine integers

    Go's [uint32], [uint64] and [int64] (and [int], 64 bits wide on the
    server's targets) are [Z] with the wrap-around written out. *)

Definition u8_max : Z := 255.
Definition u16_max : Z := 65535.
Definition u32_max : Z := 4294967295.
Definition i64_max : Z := 9223372036854775807.
Definition i64_min : Z := -9223372036854775808.

Definition u16 (z : Z) : Z := z `mod` 65536.
Definition u32 (z : Z) : Z := z `mod` 4294967296.
Definition u64 (z : Z) : Z := z `mod` 18446744073709551616.
Definition i64 (z : Z) : Z :=
  (z + 9223372036854775808) `mod` 18446744073709551616 - 9223372036854775808.

Definition is_u16 (z : Z) : Prop := 0 ≤ z < 65536.
Definition is_u32 (z : Z) : Prop := 0 ≤ z < 4294967296.
Definition is_u64 (z : Z) : Prop := 0 ≤ z < 18446744073709551616.
Definition is_i64 (z : Z) : Prop := -9223372036854775808 ≤ z < 9223372036854775808.

Lemma u32_id z : is_u32 z → u32 z = z.
Proof. apply Z.mod_small. Qed.
Lemma u64_id z : is_u64 z → u64 z = z.
Proof. apply Z.mod_small. Qed.
Lemma i64_id z : is_i64 z → i64 z = z.
Proof. unfold is_i64, i64. intros ?. rewrite Z.mod_small; lia. Qed.
Lemma u32_range z : is_u32 (u32 z).
Proof. apply Z.mod_pos_bound. lia. Qed.
Lemma u64_range z : is_u64 (u64 z).
Proof. apply Z.mod_pos_bound. lia. Qed.

(** ** Bytes *)

#[global] Instance byte_eq_decision : EqDecision byte := byte_eq_dec.

(** [uint8(z)]: the low eight bits. *)
#[global] Instance byte_countable : Countable byte.
Proof. apply (inj_countable Byte.to_N Byte.of_N). by intros []. Defined.

Definition byte_of_Z (z : Z) : byte :=
  default x00 (Byte.of_N (Z.to_N (z `mod` 256))).
Definition Z_of_byte (b : byte) : Z := Z.of_N (Byte.to_N b).

Lemma Z_of_byte_range b : 0 ≤ Z_of_byte b < 256.
Proof. unfold Z_of_byte. pose proof (Byte.to_N_bounded b). lia. Qed.

Lemma Z_of_byte_of_Z z : Z_of_byte (byte_of_Z z) = z `mod` 256.
Proof.
  unfold Z_of_byte, byte_of_Z.
  pose proof (Z.mod_pos_bound z 256 ltac:(lia)) as Hb.
  destruct (Byte.of_N (Z.to_N (z `mod` 256))) as [b|] eqn:E; cbn.
  - apply Byte.to_of_N in E. rewrite E. lia.
  - exfalso. pose proof (Byte.of_N_None_iff (Z.to_N (z `mod` 256))) as [HN _].
    specialize (HN E). lia.
Qed.

Lemma byte_of_Z_of_byte b : byte_of_Z (Z_of_byte b) = b.
Proof.
  unfold byte_of_Z. rewrite Z.mod_small by apply Z_of_byte_range.
  unfold Z_of_byte. by rewrite N2Z.id, Byte.of_to_N.
Qed.

Lemma Z_of_byte_inj b1 b2 : Z_of_byte b1 = Z_of_byte b2 → b1 = b2.
Proof. intros H. by rewrite <- (byte_of_Z_of_byte b1), H, byte_of_Z_of_byte. Qed.

(** A Go string is a byte sequence. *)
Abbreviation bytes := (list byte).
Definition lit (s : string) : bytes := String.list_byte_of_string s.
#[global] Arguments lit s%_string_scope.

(** [len(x)] as Go's [int]. *)
Definition blen {A} (l : list A) : Z := Z.of_nat (length l).

Lemma blen_nonneg {A} (l : list A) : 0 ≤ blen l.
Proof. unfold blen. lia. Qed.
Lemma blen_nil {A} : blen (@nil A) = 0.
Proof. reflexivity. Qed.
Lemma blen_cons {A} (x : A) l : blen (x :: l) = 1 + blen l.
Proof. unfold blen. cbn [length]. lia. Qed.
Lemma blen_app {A} (l k : list A) : blen (l ++ k) = blen l + blen k.
Proof. unfold blen. rewrite length_app. lia. Qed.

(** ** Big-endian words: [binary.BigEndian.PutUint32] and [Uint32] *)

Definition be32 (v : Z) : bytes :=
  [byte_of_Z (v `div` 16777216); byte_of_Z (v `div` 65536);
   byte_of_Z (v `div` 256); byte_of_Z v].

(** [Uint32] reads the first four bytes of a slice; on a shorter slice Go
    panics, which is [None] here. *)
Definition get_be32 (l : bytes) : option Z :=
  match l with
  | b0 :: b1 :: b2 :: b3 :: _ =>
      Some (Z_of_byte b0 * 16777216 + Z_of_byte b1 * 65536
            + Z_of_byte b2 * 256 + Z_of_byte b3)
  | _ => None
  end.

Lemma be32_length v : length (be32 v) = 4%nat.
Proof. reflexivity. Qed.

Lemma get_be32_be32 v rest : get_be32 (be32 v ++ rest) = Some (u32 v).
Proof.
  unfold be32, get_be32, u32. cbn [app]. rewrite !Z_of_byte_of_Z. f_equal.
  Z.to_euclidean_division_equations. lia.
Qed.

Lemma get_be32_range l v : get_be32 l = Some v → is_u32 v.
Proof.
  destruct l as [|b0 [|b1 [|b2 [|b3 l]]]]; cbn; intros; simplify_eq.
  pose proof (Z_of_byte_range b0). pose proof (Z_of_byte_range b1).
  pose proof (Z_of_byte_range b2). pose proof (Z_of_byte_range b3).
  unfold is_u32. lia.
Qed.

Lemma be32_get_be32 l v rest :
  length l = 4%nat → get_be32 (l ++ rest) = Some v → be32 v = l.
Proof.
  destruct l as [|b0 [|b1 [|b2 [|b3 [|]]]]]; cbn; intros ? H; simplify_eq.
  pose proof (Z_of_byte_range b0). pose proof (Z_of_byte_range b1).
  pose proof (Z_of_byte_range b2). pose proof (Z_of_byte_range b3).
  unfold be32. repeat f_equal; apply Z_of_byte_inj; rewrite Z_of_byte_of_Z;
    Z.to_euclidean_division_equations; lia.
Qed.

#[global] Arguments be32 v : simpl never.
#[global] Arguments get_be32 l : simpl never.
#[global] Arguments byte_of_Z z : simpl never.
#[global] Arguments Z_of_byte b : simpl never.
#[global] Arguments blen {A} l : simpl never.

(** ** Counting the entries of a map *)

Definition count_where {K A} `{Countable K} (f : A → bool) (m : gmap K A) : nat :=
  size (filter (λ kv, f kv.2 = true) m).

Section count_where.
Context {K A : Type} `{Countable K} (f : A → bool).
Implicit Types m : gmap K A.

Lemma count_where_empty : count_where f (∅ : gmap K A) = 0%nat.
Proof. unfold count_where. rewrite map_filter_empty. apply map_size_empty. Qed.

Lemma count_where_new m k x :
  m !! k = None → count_where f (<[k := x]> m) = ((if f x then 1 else 0) + count_where f m)%nat.
Proof.
  intros Hk. unfold count_where. rewrite map_filter_insert; cbn. destruct (f x) eqn:E.
  - rewrite decide_True by done. apply map_size_insert_None, map_lookup_filter_None. by left.
  - rewrite decide_False by done. by rewrite delete_id.
Qed.

Lemma count_where_insert m k x y :
  m !! k = Some y →
  (count_where f (<[k := x]> m) + (if f y then 1 else 0) =
   (if f x then 1 else 0) + count_where f m)%nat.
Proof.
  intros Hk. rewrite <- (insert_delete_id m k y Hk) at 2. rewrite <- (insert_delete_eq m k x).
  rewrite !count_where_new by apply lookup_delete_eq. lia.
Qed.

Lemma count_where_delete m k y :
  m !! k = Some y →
  (count_where f (delete k m) + (if f y then 1 else 0) = count_where f m)%nat.
Proof.
  intros Hk. rewrite <- (insert_delete_id m k y Hk) at 2.
  rewrite count_where_new by apply lookup_delete_eq. lia.
Qed.

Lemma count_where_le m : (count_where f m ≤ size m)%nat.
Proof.
  unfold count_where. apply map_subseteq_size, map_filter_subseteq.
Qed.
End count_where.
#[global] Arguments count_where {K A _ _} f m : simpl never.

(** ** The first element a loop returns on *)

Lemma find_split {A} (f : A → bool) l x :
  List.find f l = Some x →
  ∃ before after, l = before ++ x :: after ∧ f x = true ∧ ∀ y, y ∈ before → f y = false.
Proof.
  induction l as [|a l IH]; cbn; [done|]. destruct (f a) eqn:E.
  - intros [= <-]. exists [], l. split_and!; auto. by intros y ?%elem_of_nil.
  - intros (b & after & -> & Hx & Hb)%IH. exists (a :: b), after. split_and!; auto.
    intros y [->|?]%elem_of_cons; auto.
Qed.

Lemma find_None {A} (f : A → bool) l :
  List.find f l = None ↔ ∀ x, x ∈ l → f x = false.
Proof.
  induction l as [|a l IH]; cbn.
  - split; [|done]. by intros _ x ?%elem_of_nil.
  - destruct (f a) eqn:E; [split; [done|]; intros H; rewrite H in E; [done|by left]|].
    rewrite IH. split.
    + intros H x [->|?]%elem_of_cons; auto.
    + intros H x Hx. apply H. by right.
Qed.

(** ** Counting does not depend on the order *)

Lemma filter_length_Permutation {A} (f : A → bool) l k :
  Permutation l k → length (List.filter f l) = length (List.filter f k).
Proof.
  induction 1 as [|x l k _ IH|x y l|l k m _ IH1 _ IH2]; cbn; try congruence.
  - destruct (f x); cbn; congruence.
  - by destruct (f x), (f y).
Qed.
