(* ===== verification/Io.v ===== *)
(** * Go's [io] and [net.Conn], as far as the server's codecs use them

    A [reader] is the bytes a connection will still deliver and the error it
    reports once they are gone; a [netconn] pairs the incoming side with what
    was sent and an oracle deciding which writes fail and how far they got. *)
From S2P Require Import Prelude.

Inductive io_err :=
  | EOF                     (* io.EOF *)
  | UnexpectedEOF           (* io.ErrUnexpectedEOF *)
  | ErrClosed               (* net.ErrClosed *)
  | OtherIO (code : Z).     (* a timeout, a reset, ... *)

#[global] Instance io_err_eq_dec : EqDecision io_err.
Proof. solve_decision. Defined.

Record reader := mk_reader { rd_bytes : bytes; rd_end : io_err }.

(** [io.ReadFull]: exactly [n] bytes, [io.EOF] when none was there, and
    [io.ErrUnexpectedEOF] when the stream ended in between. *)
Definition read_full (r : reader) (n : nat) : result io_err (bytes * reader) :=
  if decide (n ≤ length (rd_bytes r))%nat
  then Ok (take n (rd_bytes r), mk_reader (drop n (rd_bytes r)) (rd_end r))
  else Err (match rd_end r with
            | EOF => if decide (rd_bytes r = []) then EOF else UnexpectedEOF
            | e => e
            end).

(** The same stream with more bytes behind it. *)
Definition extend (r : reader) (ext : bytes) : reader :=
  mk_reader (rd_bytes r ++ ext) (rd_end r).

Record netconn := mk_netconn {
  nc_in : reader;
  nc_sent : bytes;
  nc_writes : nat;
  nc_fault : nat → option (nat * io_err);
}.

(** [Conn.Write]: all of [buf], or a prefix of it and an error. *)
Definition net_write (c : netconn) (buf : bytes) : netconn * option io_err :=
  let put b := mk_netconn (nc_in c) (nc_sent c ++ b) (S (nc_writes c)) (nc_fault c) in
  match nc_fault c (nc_writes c) with
  | None => (put buf, None)
  | Some (k, e) => (put (take k buf), Some e)
  end.

Definition set_in (c : netconn) (r : reader) : netconn :=
  mk_netconn r (nc_sent c) (nc_writes c) (nc_fault c).

(** A connection none of whose writes fails. *)
Definition sound_conn (c : netconn) : Prop := ∀ n, nc_fault c n = None.

Lemma read_full_Ok r n b r' :
  read_full r n = Ok (b, r') ↔
  rd_bytes r = b ++ rd_bytes r' ∧ length b = n ∧ rd_end r' = rd_end r.
Proof.
  unfold read_full. case_decide as Hn; split.
  - intros [= <- <-]; cbn. rewrite take_drop, length_take. repeat split; lia.
  - intros (Hb & <- & He). destruct r as [l e], r' as [l' e']; cbn in *; subst.
    by rewrite take_app_length, drop_app_length.
  - done.
  - intros (Hb & <- & He). rewrite Hb, length_app in Hn. lia.
Qed.

Lemma read_full_app b rest e :
  read_full (mk_reader (b ++ rest) e) (length b) = Ok (b, mk_reader rest e).
Proof. by apply read_full_Ok. Qed.

Lemma read_full_extend r n b r' ext :
  read_full r n = Ok (b, r') → read_full (extend r ext) n = Ok (b, extend r' ext).
Proof.
  rewrite !read_full_Ok. unfold extend; cbn. intros (-> & ? & ?).
  by rewrite (assoc_L (++)).
Qed.

Lemma read_full_short r n e :
  read_full r n = Err e → (length (rd_bytes r) < n)%nat.
Proof. unfold read_full. case_decide; [done | lia]. Qed.

Lemma extend_nil r : extend r [] = r.
Proof. destruct r. unfold extend; cbn. by rewrite app_nil_r. Qed.

Lemma net_write_sound c buf :
  sound_conn c →
  net_write c buf =
  (mk_netconn (nc_in c) (nc_sent c ++ buf) (S (nc_writes c)) (nc_fault c), None).
Proof. intros H. unfold net_write. by rewrite H. Qed.

Lemma net_write_keeps_sound c buf :
  sound_conn c → sound_conn (net_write c buf).1.
Proof. intros H n. unfold net_write. by destruct (nc_fault c (nc_writes c)) as [[??]|]; cbn. Qed.

#[export] Hint Resolve net_write_keeps_sound : opengate.
