(* ===== verification/Apf.v ===== *)
(** * The APF wire codec of the AMT presence server

    [src/server/internal/amt/transport/apf.go], [apf_messages.go] and
    [apf_write.go]: framing ([ReadMessage]), the payload parsers and the
    writers.  A slice expression or index out of range is the error [Panic], so
    that its absence is a theorem.  Errors wrapped with [%w] keep the identity
    of the wrapped error; the text around it is dropped. *)
From S2P Require Import Prelude Io.

(** ** Constants *)

Definition APFDisconnect := 1.
Definition APFServiceRequest := 5.
Definition APFServiceAccept := 6.
Definition APFUserAuthRequest := 50.
Definition APFUserAuthSuccess := 52.
Definition APFUserAuthFailure := 51.
Definition APFGlobalRequest := 80.
Definition APFRequestSuccess := 81.
Definition APFRequestFailure := 82.
Definition APFChannelOpen := 90.
Definition APFChannelOpenConfirm := 91.
Definition APFChannelOpenFailure := 92.
Definition APFChannelWindowAdj := 93.
Definition APFChannelData := 94.
Definition APFChannelClose := 97.
Definition APFProtocolVersion := 192.
Definition APFKeepaliveRequest := 208.
Definition APFKeepaliveReply := 209.
Definition APFKeepaliveOptionsRequest := 210.
Definition APFKeepaliveOptionsReply := 211.

Definition ServiceAuth : bytes := lit "auth@amt.intel.com".
Definition ServicePFwd : bytes := lit "pfwd@amt.intel.com".

Definition DefaultWindowSize := 32768.
Definition DefaultMaxPacketSize := 32768.
Definition maxAPFStringLen := 256.
Definition maxAPFPayload := 16 * 1024 * 1024.

Inductive apf_err :=
  | ErrMessageTooShort
  | ErrUnknownMessageType (t : Z)
  | ErrStringTooLong (label : string) (n : Z)
  | ErrDataTooLarge (n : Z)
  | ErrIO (e : io_err)
  | Panic.

#[global] Instance apf_err_eq_dec : EqDecision apf_err.
Proof. solve_decision. Defined.

(** ** Go slices *)

(** [data[lo:hi]] *)
Definition slice (data : bytes) (lo hi : Z) : result apf_err bytes :=
  if bool_decide (0 ≤ lo ∧ lo ≤ hi ∧ hi ≤ blen data)
  then Ok (take (Z.to_nat (hi - lo)) (drop (Z.to_nat lo) data))
  else Err Panic.

(** [binary.BigEndian.Uint32(data)] *)
Definition Uint32 (data : bytes) : result apf_err Z :=
  match get_be32 data with Some v => Ok v | None => Err Panic end.

(** [binary.BigEndian.Uint32(data[off:])] *)
Definition uint32_at (data : bytes) (off : Z) : result apf_err Z :=
  tail ← slice data off (blen data); Uint32 tail.

(** [io.ReadFull(r, make([]byte, n))] with the error of this package *)
Definition readFixed (r : reader) (n : Z) : result apf_err (bytes * reader) :=
  match read_full r (Z.to_nat n) with
  | Ok x => Ok x
  | Err e => Err (ErrIO e)
  end.

(** ** Framing *)

Definition readAPFString (r : reader) (label : string) (trailing : Z) :
    result apf_err (bytes * reader) :=
  '(lenBuf, r) ← readFixed r 4;
  strLen ← Uint32 lenBuf;
  if bool_decide (maxAPFStringLen < strLen) then Err (ErrStringTooLong label strLen) else
  '(body, r) ← readFixed r (strLen + trailing);
  Ok (lenBuf ++ body, r).

Definition readStringMsg (r : reader) := readAPFString r "service name"%string 0.

(** [for range n]: the segments in order, appended. *)
Fixpoint readSegments (n : nat) (label : string) (trailing : Z) (r : reader) :
    result apf_err (bytes * reader) :=
  match n with
  | O => Ok ([], r)
  | S n =>
      '(seg, r) ← readAPFString r label trailing;
      '(rest, r) ← readSegments n label trailing r;
      Ok (seg ++ rest, r)
  end.

Definition readUserAuthRequest (r : reader) := readSegments 3 "auth string"%string 0 r.

Definition readForwardData (r : reader) := readAPFString r "forward address"%string 4.

Definition readGlobalRequest (r : reader) : result apf_err (bytes * reader) :=
  '(buf, r) ← readAPFString r "request name"%string 1;
  strLen ← Uint32 buf;
  reqName ← slice buf 4 (4 + strLen);
  if bool_decide (reqName = lit "tcpip-forward" ∨ reqName = lit "cancel-tcpip-forward")
  then '(extra, r) ← readForwardData r; Ok (buf ++ extra, r)
  else Ok (buf, r).

Definition readChannelOpenExtra (r : reader) := readSegments 2 "address"%string 4 r.

Definition readChannelOpen (r : reader) : result apf_err (bytes * reader) :=
  '(buf, r) ← readAPFString r "channel type"%string 12;
  strLen ← Uint32 buf;
  chType ← slice buf 4 (4 + strLen);
  if bool_decide (chType = lit "direct-tcpip" ∨ chType = lit "forwarded-tcpip")
  then '(extra, r) ← readChannelOpenExtra r; Ok (buf ++ extra, r)
  else Ok (buf, r).

Definition maxChannelData : Z := 1048576.

Definition readChannelData (r : reader) : result apf_err (bytes * reader) :=
  '(header, r) ← readFixed r 8;
  dataLen ← uint32_at header 4;
  if bool_decide (maxChannelData < dataLen) then Err (ErrDataTooLarge dataLen) else
  '(body, r) ← readFixed r dataLen;
  Ok (header ++ body, r).

Definition readDisconnect (r : reader) := readFixed r 4.
Definition readProtocolVersion (r : reader) := readFixed r 28.

Definition readMessageBody (r : reader) (msgType : Z) : result apf_err (bytes * reader) :=
  if bool_decide (msgType = APFServiceRequest ∨ msgType = APFServiceAccept)
    then readStringMsg r
  else if bool_decide (msgType = APFUserAuthRequest) then readUserAuthRequest r
  else if bool_decide (msgType = APFGlobalRequest) then readGlobalRequest r
  else if bool_decide (msgType = APFChannelOpen) then readChannelOpen r
  else if bool_decide (msgType = APFChannelData) then readChannelData r
  else if bool_decide (msgType = APFChannelClose) then readFixed r 4
  else if bool_decide (msgType = APFChannelWindowAdj) then readFixed r 8
  else if bool_decide (msgType = APFProtocolVersion) then readProtocolVersion r
  else if bool_decide (msgType = APFKeepaliveRequest ∨ msgType = APFKeepaliveReply)
    then readFixed r 4
  else if bool_decide (msgType = APFKeepaliveOptionsRequest ∨
                       msgType = APFKeepaliveOptionsReply)
    then readFixed r 8
  else if bool_decide (msgType = APFDisconnect) then readDisconnect r
  else if bool_decide (msgType = APFUserAuthSuccess ∨ msgType = APFUserAuthFailure ∨
                       msgType = APFRequestSuccess ∨ msgType = APFRequestFailure)
    then Ok ([], r)
  else if bool_decide (msgType = APFChannelOpenConfirm) then readFixed r 16
  else if bool_decide (msgType = APFChannelOpenFailure) then readFixed r 8
  else Err (ErrUnknownMessageType msgType).

Definition ReadMessage (r : reader) : result apf_err (Z * bytes * reader) :=
  '(tb, r) ← readFixed r 1;
  match tb with
  | [b] =>
      '(payload, r) ← readMessageBody r (Z_of_byte b);
      Ok (Z_of_byte b, payload, r)
  | _ => Err Panic
  end.

(** ** Payload parsers *)

Definition readString (data : bytes) (offset : Z) : result apf_err (bytes * Z) :=
  if bool_decide (blen data < offset + 4) then Err ErrMessageTooShort else
  length ← uint32_at data offset;
  let offset := offset + 4 in
  if bool_decide (blen data < offset + length) then Err ErrMessageTooShort else
  s ← slice data offset (offset + length);
  Ok (s, offset + length).

Record ServiceRequest := { sr_ServiceName : bytes }.

Definition ParseServiceRequest (data : bytes) : result apf_err ServiceRequest :=
  '(name, _) ← readString data 0;
  Ok {| sr_ServiceName := name |}.

Record UserAuthRequest := {
  ua_Username : bytes;
  ua_ServiceName : bytes;
  ua_MethodName : bytes;
}.

Definition ParseUserAuthRequest (data : bytes) : result apf_err UserAuthRequest :=
  '(username, off) ← readString data 0;
  '(service, off) ← readString data off;
  '(method, _) ← readString data off;
  Ok {| ua_Username := username; ua_ServiceName := service; ua_MethodName := method |}.

Record GlobalRequest := {
  gr_RequestName : bytes;
  gr_WantReply : bool;
  gr_Data : bytes;
}.

Definition ParseGlobalRequest (data : bytes) : result apf_err GlobalRequest :=
  '(name, off) ← readString data 0;
  if bool_decide (blen data ≤ off) then Err ErrMessageTooShort else
  flag ← slice data off (off + 1);
  rest ← slice data (off + 1) (blen data);
  Ok {| gr_RequestName := name;
        gr_WantReply := bool_decide (flag ≠ [x00]);
        gr_Data := rest |}.

Record ChannelOpen := {
  co_ChannelType : bytes;
  co_SenderChannel : Z;
  co_InitialWindowSz : Z;
  co_MaxPacketSz : Z;
  co_Data : bytes;
}.

Definition ParseChannelOpen (data : bytes) : result apf_err ChannelOpen :=
  '(chType, off) ← readString data 0;
  if bool_decide (blen data < off + 12) then Err ErrMessageTooShort else
  sender ← uint32_at data off;
  window ← uint32_at data (off + 4);
  maxPkt ← uint32_at data (off + 8);
  rest ← slice data (off + 12) (blen data);
  Ok {| co_ChannelType := chType; co_SenderChannel := sender;
        co_InitialWindowSz := window; co_MaxPacketSz := maxPkt; co_Data := rest |}.

Record ChannelData := { cd_RecipientChannel : Z; cd_Data : bytes }.

Definition ParseChannelData (data : bytes) : result apf_err ChannelData :=
  if bool_decide (blen data < 4) then Err ErrMessageTooShort else
  ch ← uint32_at data 0;
  '(str, _) ← readString data 4;
  Ok {| cd_RecipientChannel := ch; cd_Data := str |}.

Record ProtocolVersion := {
  pv_MajorVersion : Z;
  pv_MinorVersion : Z;
  pv_Trigger : Z;
  pv_UUID : bytes;
}.

Definition ParseProtocolVersion (data : bytes) : result apf_err ProtocolVersion :=
  if bool_decide (blen data < 28) then Err ErrMessageTooShort else
  major ← uint32_at data 0;
  minor ← uint32_at data 4;
  trigger ← uint32_at data 8;
  raw ← slice data 12 28;
  Ok {| pv_MajorVersion := major; pv_MinorVersion := minor; pv_Trigger := trigger;
        pv_UUID := raw |}.

Record KeepaliveRequest := { ka_Cookie : Z }.

Definition ParseKeepaliveRequest (data : bytes) : result apf_err KeepaliveRequest :=
  if bool_decide (blen data < 4) then Err ErrMessageTooShort else
  cookie ← Uint32 data;
  Ok {| ka_Cookie := cookie |}.

Record KeepaliveOptions := { ko_Interval : Z; ko_Timeout : Z }.

Definition ParseKeepaliveOptions (data : bytes) : result apf_err KeepaliveOptions :=
  if bool_decide (blen data < 8) then Err ErrMessageTooShort else
  interval ← uint32_at data 0;
  timeout ← uint32_at data 4;
  Ok {| ko_Interval := interval; ko_Timeout := timeout |}.

(** A [[16]byte] array is the list of its sixteen bytes. *)
Definition ReorderIntelGUID (raw : bytes) : bytes :=
  match raw with
  | r0 :: r1 :: r2 :: r3 :: r4 :: r5 :: r6 :: r7 :: tail =>
      [r3; r2; r1; r0; r5; r4; r7; r6] ++ tail
  | _ => raw
  end.

Definition ParseForwardData (data : bytes) : result apf_err (bytes * Z) :=
  '(addr, off) ← readString data 0;
  if bool_decide (blen data < off + 4) then Err ErrMessageTooShort else
  port ← uint32_at data off;
  Ok (addr, port).

(** ** Writers: the connection afterwards, and the error of the write *)

Definition lift_io (p : netconn * option io_err) : netconn * option apf_err :=
  (p.1, ErrIO <$> p.2).

Definition writeUint32Msg (w : netconn) (msgType : Z) (fields : list Z) :
    netconn * option apf_err :=
  lift_io (net_write w (byte_of_Z msgType :: concat (be32 <$> fields))).

Definition writeStringMsg (w : netconn) (msgType : Z) (s : bytes) :
    netconn * option apf_err :=
  if bool_decide (maxAPFStringLen < blen s)
  then (w, Some (ErrStringTooLong "string"%string (blen s)))
  else lift_io (net_write w (byte_of_Z msgType :: be32 (blen s) ++ s)).

Definition WriteServiceAccept w (serviceName : bytes) :=
  writeStringMsg w APFServiceAccept serviceName.
Definition WriteUserAuthSuccess w := lift_io (net_write w [byte_of_Z APFUserAuthSuccess]).
Definition WriteRequestSuccess w := lift_io (net_write w [byte_of_Z APFRequestSuccess]).
Definition WriteChannelOpenConfirm w (recipientCh senderCh windowSz maxPacket : Z) :=
  writeUint32Msg w APFChannelOpenConfirm [recipientCh; senderCh; windowSz; maxPacket].

Definition WriteChannelData (w : netconn) (recipientCh : Z) (data : bytes) :
    netconn * option apf_err :=
  if bool_decide (maxAPFPayload < blen data)
  then (w, Some (ErrDataTooLarge (blen data)))
  else lift_io (net_write w
         (byte_of_Z APFChannelData :: be32 recipientCh ++ be32 (blen data) ++ data)).

Definition WriteChannelClose w (recipientCh : Z) :=
  writeUint32Msg w APFChannelClose [recipientCh].
Definition WriteChannelWindowAdj w (recipientCh bytesToAdd : Z) :=
  writeUint32Msg w APFChannelWindowAdj [recipientCh; bytesToAdd].
Definition WriteDisconnect w (reasonCode : Z) := writeUint32Msg w APFDisconnect [reasonCode].

Definition WriteProtocolVersion (w : netconn) (major minor trigger : Z) :
    netconn * option apf_err :=
  lift_io (net_write w (byte_of_Z APFProtocolVersion ::
    be32 major ++ be32 minor ++ be32 trigger ++ replicate 16 x00)).

Definition WriteKeepaliveRequest w (cookie : Z) := writeUint32Msg w APFKeepaliveRequest [cookie].
Definition WriteKeepaliveReply w (cookie : Z) := writeUint32Msg w APFKeepaliveReply [cookie].
Definition WriteKeepaliveOptionsRequest w (interval timeout : Z) :=
  writeUint32Msg w APFKeepaliveOptionsRequest [interval; timeout].

(** [encodeAPFString] and [writeChannelOpenDirect] of [mps_conn.go] *)
Definition encodeAPFString (s : bytes) : bytes :=
  let s := if bool_decide (maxAPFStringLen < blen s)
           then take (Z.to_nat maxAPFStringLen) s else s in
  be32 (blen s) ++ s.

Definition writeChannelOpenDirect (w : netconn) (senderCh : Z) (addr : bytes) (port : Z) :
    netconn * option apf_err :=
  let chType := lit "direct-tcpip" in
  lift_io (net_write w
    (byte_of_Z APFChannelOpen :: be32 (blen chType) ++ chType ++ be32 senderCh ++
     be32 DefaultWindowSize ++ be32 DefaultMaxPacketSize ++ encodeAPFString addr ++
     be32 port ++ encodeAPFString (lit "0.0.0.0") ++ be32 0)).

(** ** Slices within bounds *)

Lemma slice_Ok data lo hi s :
  slice data lo hi = Ok s →
  ∃ pre post, data = pre ++ s ++ post ∧ blen pre = lo ∧ blen s = hi - lo.
Proof.
  unfold slice. case_bool_decide as H; [|done]. intros [= <-].
  exists (take (Z.to_nat lo) data), (drop (Z.to_nat (hi - lo)) (drop (Z.to_nat lo) data)).
  rewrite take_drop, take_drop. unfold blen in *.
  rewrite !length_take, length_drop. split; [done | lia].
Qed.

Lemma slice_app pre s post lo hi :
  lo = blen pre → hi = blen pre + blen s → slice (pre ++ s ++ post) lo hi = Ok s.
Proof.
  intros -> ->. unfold slice. rewrite bool_decide_true by (rewrite !blen_app; unfold blen; lia).
  replace (blen pre + blen s - blen pre) with (blen s) by lia.
  unfold blen. by rewrite !Nat2Z.id, drop_app_length, take_app_length.
Qed.

Lemma slice_tail pre s lo :
  lo = blen pre → slice (pre ++ s) lo (blen (pre ++ s)) = Ok s.
Proof. intros ->. rewrite <- (app_nil_r s) at 1. apply slice_app; rewrite ?blen_app; lia. Qed.

Lemma slice_total data lo hi :
  0 ≤ lo → lo ≤ hi → hi ≤ blen data → ∃ s, slice data lo hi = Ok s ∧ blen s = hi - lo.
Proof.
  intros. unfold slice. rewrite bool_decide_true by lia. eexists; split; [done|].
  unfold blen in *. rewrite length_take, length_drop. lia.
Qed.

Lemma Uint32_Ok data v : Uint32 data = Ok v → is_u32 v.
Proof. unfold Uint32. destruct (get_be32 data) eqn:E; [|done]. intros [= <-]. by eapply get_be32_range. Qed.

Lemma Uint32_total data : 4 ≤ blen data → ∃ v, Uint32 data = Ok v.
Proof.
  unfold blen, Uint32. destruct data as [|b0 [|b1 [|b2 [|b3 l]]]]; cbn [length]; try lia.
  unfold get_be32. eauto.
Qed.

Lemma Uint32_be32 v rest : is_u32 v → Uint32 (be32 v ++ rest) = Ok v.
Proof. intros. unfold Uint32. by rewrite (get_be32_be32 v rest), u32_id. Qed.

Lemma uint32_at_total data off :
  0 ≤ off → off + 4 ≤ blen data → ∃ v, uint32_at data off = Ok v ∧ is_u32 v.
Proof.
  intros. unfold uint32_at.
  destruct (slice_total data off (blen data)) as (s & -> & Hs); [lia..|]. cbn.
  destruct (Uint32_total s) as [v Hv]; [lia|]. rewrite Hv. eauto using Uint32_Ok.
Qed.

Lemma uint32_at_app pre v post off :
  is_u32 v → off = blen pre → uint32_at (pre ++ be32 v ++ post) off = Ok v.
Proof.
  intros Hv ->. unfold uint32_at. rewrite slice_tail by done. cbn. by apply Uint32_be32.
Qed.

Lemma uint32_at_eq data pre v post off :
  data = pre ++ be32 v ++ post → is_u32 v → off = blen pre → uint32_at data off = Ok v.
Proof. intros -> Hv ->. by apply uint32_at_app. Qed.

(** ** Readers that consume exactly what they return

    [framed n f]: whatever the stream, [f] returns the bytes it consumed, at
    most [n] of them; its answer does not change when more bytes follow, unless
    it failed because the stream ended; and it never panics. *)

Definition io_error (e : apf_err) : Prop := ∃ i, e = ErrIO i.

Definition framed (n : Z) (f : reader → result apf_err (bytes * reader)) : Prop :=
  ∀ r, match f r with
       | Ok (p, r') =>
           rd_bytes r = p ++ rd_bytes r' ∧ rd_end r' = rd_end r ∧ blen p ≤ n ∧
           ∀ ext, f (extend r ext) = Ok (p, extend r' ext)
       | Err e => e ≠ Panic ∧ (io_error e ∨ ∀ ext, f (extend r ext) = Err e)
       end.

Lemma framed_weaken n m f : n ≤ m → framed n f → framed m f.
Proof.
  intros ? H r. specialize (H r). destruct (f r) as [[p r']|e]; [|done].
  destruct H as (?&?&?&?). repeat split; auto; lia.
Qed.

Lemma framed_ret : framed 0 (λ r, Ok ([], r)).
Proof. intros r; cbn. rewrite blen_nil. split_and!; auto; lia. Qed.

Lemma framed_fail n e : e ≠ Panic → framed n (λ _, Err e).
Proof. intros ? r; cbn. auto. Qed.

Lemma readFixed_framed n : 0 ≤ n → framed n (λ r, readFixed r n).
Proof.
  intros Hn r. unfold readFixed.
  destruct (read_full r (Z.to_nat n)) as [[p r']|e] eqn:E; cbn.
  - pose proof E as E'. apply read_full_Ok in E' as (Hb & Hl & He).
    split_and!; auto; [unfold blen; lia|].
    intros ext. by erewrite read_full_extend.
  - split; [done|]. left. by eexists.
Qed.

Lemma readFixed_Ok r n p r' : 0 ≤ n → readFixed r n = Ok (p, r') → blen p = n.
Proof.
  unfold readFixed. destruct (read_full r (Z.to_nat n)) as [[??]|] eqn:E; [|done].
  intros ? [= -> ->]. apply read_full_Ok in E. unfold blen. lia.
Qed.

(** Sequencing: the second reader may look at what the first one returned. *)
Lemma framed_bind n m f g :
  framed n f →
  (∀ r p r', f r = Ok (p, r') → framed m (g p)) →
  framed (n + m) (λ r, '(p, r) ← f r; '(q, r) ← g p r; Ok (p ++ q, r)).
Proof.
  intros Hf Hg r. specialize (Hf r). destruct (f r) as [[p r1]|e] eqn:Ef; cbn.
  - destruct Hf as (Hb & He & Hn & Hx). specialize (Hg _ _ _ Ef r1).
    destruct (g p r1) as [[q r2]|e] eqn:Eg; cbn.
    + destruct Hg as (Hb' & He' & Hn' & Hx'). split_and!.
      * by rewrite Hb, Hb', (assoc_L (++)).
      * congruence.
      * rewrite blen_app. lia.
      * intros ext. rewrite Hx. cbn. by rewrite Hx'.
    + destruct Hg as [? [?|Hx']]; [by auto|]. split; [done|]. right.
      intros ext. rewrite Hx. cbn. by rewrite Hx'.
  - destruct Hf as [? [?|Hx]]; [by auto|]. split; [done|]. right.
    intros ext. by rewrite Hx.
Qed.

(** Two readers with the same answers are framed alike. *)
Lemma framed_ext n f g : (∀ r, g r = f r) → framed n f → framed n g.
Proof.
  intros Heq Hf r. specialize (Hf r). rewrite (Heq r).
  destruct (f r) as [[p r']|e].
  - destruct Hf as (?&?&?&?). split_and!; auto. intros. by rewrite Heq.
  - destruct Hf as [? [?|?]]; split; auto. right. intros. by rewrite Heq.
Qed.

Lemma readAPFString_framed label trailing :
  0 ≤ trailing → framed (260 + trailing) (λ r, readAPFString r label trailing).
Proof.
  intros Ht.
  apply (framed_ext _ (λ r, '(p, r) ← readFixed r 4;
    '(q, r) ← (λ p r, strLen ← Uint32 p;
                if bool_decide (maxAPFStringLen < strLen)
                then Err (ErrStringTooLong label strLen)
                else readFixed r (strLen + trailing)) p r;
    Ok (p ++ q, r))).
  { intros r. unfold readAPFString. destruct (readFixed r 4) as [[p r']|]; [|done]. cbn.
    destruct (Uint32 p); [|done]. cbn. by case_bool_decide. }
  replace (260 + trailing) with (4 + (256 + trailing)) by lia.
  apply framed_bind; [by apply readFixed_framed|].
  intros r p r' Hp. apply readFixed_Ok in Hp; [|lia].
  destruct (Uint32_total p) as [v Hv]; [lia|]. rewrite Hv; cbn.
  apply Uint32_Ok in Hv. unfold is_u32, maxAPFStringLen in *. case_bool_decide.
  - by apply framed_fail.
  - eapply framed_weaken; [|apply readFixed_framed]; lia.
Qed.

(** What a successful [readAPFString] returned: the length, the string, the tail. *)
Lemma readAPFString_Ok r label trailing p r' :
  0 ≤ trailing → readAPFString r label trailing = Ok (p, r') →
  ∃ s t, p = be32 (blen s) ++ s ++ t ∧ blen s ≤ maxAPFStringLen ∧ blen t = trailing.
Proof.
  intros Ht. unfold readAPFString.
  destruct (readFixed r 4) as [[lb r1]|] eqn:E1; [|done]. cbn.
  destruct (Uint32 lb) as [v|] eqn:Ev; [|done]. cbn. case_bool_decide as Hm; [done|].
  destruct (readFixed r1 (v + trailing)) as [[body r2]|] eqn:E2; [|done]. cbn.
  intros [= <- <-]. apply readFixed_Ok in E1; [|lia].
  pose proof (Uint32_Ok _ _ Ev) as Hv. unfold is_u32 in Hv.
  apply readFixed_Ok in E2; [|lia].
  exists (take (Z.to_nat v) body), (drop (Z.to_nat v) body). rewrite take_drop.
  assert (blen (take (Z.to_nat v) body) = v) as Hl
    by (unfold blen in *; rewrite length_take; lia).
  rewrite Hl. unfold Uint32 in Ev.
  destruct (get_be32 lb) as [v'|] eqn:Eg; [|done]. injection Ev as ->.
  rewrite (be32_get_be32 lb v []) by (rewrite ?app_nil_r; unfold blen in *; auto; lia).
  split_and!; auto; [lia|]. unfold blen in *. rewrite length_drop. lia.
Qed.

Lemma readSegments_framed n label trailing :
  0 ≤ trailing → framed (Z.of_nat n * (260 + trailing)) (readSegments n label trailing).
Proof.
  intros Ht. induction n as [|n IH]; [apply framed_ret|].
  replace (Z.of_nat (S n) * (260 + trailing))
    with ((260 + trailing) + Z.of_nat n * (260 + trailing)) by lia.
  apply (framed_bind _ _ _ (λ _, readSegments n label trailing));
    auto using readAPFString_framed.
Qed.

(** A named request: the string's value decides whether more is read. *)
Lemma named_framed label trailing n (names : list bytes) more :
  0 ≤ trailing → 0 ≤ n → framed n more →
  framed (260 + trailing + n) (λ r,
    '(buf, r) ← readAPFString r label trailing;
    strLen ← Uint32 buf;
    name ← slice buf 4 (4 + strLen);
    if bool_decide (name ∈ names)
    then '(extra, r) ← more r; Ok (buf ++ extra, r)
    else Ok (buf, r)).
Proof.
  intros Ht Hn0 Hmore.
  apply (framed_ext _ (λ r, '(p, r) ← readAPFString r label trailing;
    '(q, r) ← (λ p r, strLen ← Uint32 p; name ← slice p 4 (4 + strLen);
                if bool_decide (name ∈ names) then more r else Ok ([], r)) p r;
    Ok (p ++ q, r))).
  { intros r. destruct (readAPFString r label trailing) as [[p r']|]; [|done]. cbn.
    destruct (Uint32 p) as [v|]; [|done]. cbn.
    destruct (slice p 4 (4 + v)); [|done]. cbn.
    case_bool_decide; cbn; [done|]. by rewrite app_nil_r. }
  apply framed_bind; [by apply readAPFString_framed|].
  intros r p r' Hp. apply readAPFString_Ok in Hp as (s & t & -> & Hs & Htl); [|done].
  rewrite Uint32_be32 by (unfold is_u32, maxAPFStringLen in *; pose proof (blen_nonneg s); lia).
  cbn. rewrite slice_app by done. cbn. case_bool_decide; [done|].
  eapply framed_weaken; [|apply framed_ret]. lia.
Qed.

Lemma decide_two_names (x a b : bytes) :
  bool_decide (x = a ∨ x = b) = bool_decide (x ∈ [a; b]).
Proof. apply bool_decide_ext. rewrite !elem_of_cons. pose proof (not_elem_of_nil x). tauto. Qed.

Lemma readGlobalRequest_framed : framed 525 readGlobalRequest.
Proof.
  eapply framed_ext; [|apply (named_framed "request name" 1 264
    [lit "tcpip-forward"; lit "cancel-tcpip-forward"] readForwardData); [lia..|]].
  - intros r. unfold readGlobalRequest.
    destruct (readAPFString r _ 1) as [[p r']|]; [|done]. cbn.
    destruct (Uint32 p) as [v|]; [|done]. cbn.
    destruct (slice p 4 (4 + v)); [|done]. cbn. by rewrite decide_two_names.
  - apply (readAPFString_framed "forward address" 4). lia.
Qed.

Lemma readChannelOpen_framed : framed 800 readChannelOpen.
Proof.
  eapply framed_ext; [|apply (named_framed "channel type" 12 528
    [lit "direct-tcpip"; lit "forwarded-tcpip"] readChannelOpenExtra); [lia..|]].
  - intros r. unfold readChannelOpen.
    destruct (readAPFString r _ 12) as [[p r']|]; [|done]. cbn.
    destruct (Uint32 p) as [v|]; [|done]. cbn.
    destruct (slice p 4 (4 + v)); [|done]. cbn. by rewrite decide_two_names.
  - apply (readSegments_framed 2 "address" 4). lia.
Qed.

Lemma readChannelData_framed : framed (8 + maxChannelData) readChannelData.
Proof.
  apply (framed_ext _ (λ r, '(p, r) ← readFixed r 8;
    '(q, r) ← (λ p r, dataLen ← uint32_at p 4;
                if bool_decide (maxChannelData < dataLen)
                then Err (ErrDataTooLarge dataLen) else readFixed r dataLen) p r;
    Ok (p ++ q, r))).
  { intros r. unfold readChannelData. destruct (readFixed r 8) as [[p r']|]; [|done]. cbn.
    destruct (uint32_at p 4); [|done]. cbn. by case_bool_decide. }
  apply framed_bind; [by apply readFixed_framed|].
  intros r p r' Hp. apply readFixed_Ok in Hp; [|lia].
  destruct (uint32_at_total p 4) as (v & -> & Hv); [lia..|]. cbn.
  unfold is_u32 in Hv. case_bool_decide.
  - by apply framed_fail.
  - eapply framed_weaken; [|apply readFixed_framed]; lia.
Qed.

Definition maxMessageBody : Z := 8 + maxChannelData.

Lemma readMessageBody_framed t : framed maxMessageBody (λ r, readMessageBody r t).
Proof.
  unfold readMessageBody, readStringMsg, readUserAuthRequest, readDisconnect, readProtocolVersion.
  assert (∀ n, 0 ≤ n → n ≤ 28 → framed maxMessageBody (λ r, readFixed r n)) as Hfix.
  { intros n ??. eapply framed_weaken; [|by apply readFixed_framed].
    unfold maxMessageBody, maxChannelData. lia. }
  repeat case_bool_decide; try (apply Hfix; lia).
  - eapply framed_weaken; [|by apply readAPFString_framed]. done.
  - eapply framed_weaken; [|by apply (readSegments_framed 3)]. done.
  - eapply framed_weaken; [|apply readGlobalRequest_framed]. done.
  - eapply framed_weaken; [|apply readChannelOpen_framed]. done.
  - apply readChannelData_framed.
  - eapply framed_weaken; [|apply framed_ret]. done.
  - by apply framed_fail.
Qed.

(** The reader of one whole message, as the bytes it consumed. *)
Definition read_frame (r : reader) : result apf_err (bytes * reader) :=
  '(t, p, r) ← ReadMessage r; Ok (byte_of_Z t :: p, r).

Lemma read_frame_framed : framed (1 + maxMessageBody) read_frame.
Proof.
  apply (framed_ext _ (λ r, '(p, r) ← readFixed r 1;
    '(q, r) ← (λ p r, match p with
                      | [b] => readMessageBody r (Z_of_byte b)
                      | _ => Err Panic end) p r;
    Ok (p ++ q, r))).
  { intros r. unfold read_frame, ReadMessage.
    destruct (readFixed r 1) as [[[|b [|]] r']|]; try done. cbn.
    destruct (readMessageBody r' (Z_of_byte b)) as [[p r2]|]; [|done]. cbn.
    by rewrite byte_of_Z_of_byte. }
  apply framed_bind; [by apply readFixed_framed|].
  intros r p r' Hp. apply readFixed_Ok in Hp; [|lia].
  destruct p as [|b [|b' p]]; unfold blen in Hp; cbn [length] in Hp; try lia.
  apply readMessageBody_framed.
Qed.

Lemma ReadMessage_frame r t p r' :
  ReadMessage r = Ok (t, p, r') →
  read_frame r = Ok (byte_of_Z t :: p, r') ∧ 0 ≤ t < 256.
Proof.
  intros H. unfold read_frame. rewrite H. split; [done|]. revert H. unfold ReadMessage.
  destruct (readFixed r 1) as [[[|b [|]] r1]|]; try done. cbn.
  destruct (readMessageBody r1 (Z_of_byte b)) as [[q r2]|]; [|done]. cbn.
  intros [= <- _ _]. apply Z_of_byte_range.
Qed.

Lemma read_frame_Err r e : read_frame r = Err e ↔ ReadMessage r = Err e.
Proof.
  unfold read_frame. destruct (ReadMessage r) as [[[t p] r']|e']; cbn; split; congruence.
Qed.

Lemma byte_of_Z_inj t1 t2 :
  0 ≤ t1 < 256 → 0 ≤ t2 < 256 → byte_of_Z t1 = byte_of_Z t2 → t1 = t2.
Proof.
  intros ?? H. apply (f_equal Z_of_byte) in H.
  rewrite !Z_of_byte_of_Z, !Z.mod_small in H; auto.
Qed.

(** ** Parsers on well-formed payloads *)

Definition is_apf_string (s : bytes) : Prop := blen s ≤ maxAPFStringLen.

Lemma is_apf_string_u32 s : is_apf_string s → is_u32 (blen s).
Proof. unfold is_apf_string, is_u32, maxAPFStringLen. pose proof (blen_nonneg s). lia. Qed.

Lemma blen_be32 v : blen (be32 v) = 4.
Proof. reflexivity. Qed.

Lemma readString_app pre s post off :
  is_u32 (blen s) → off = blen pre →
  readString (pre ++ be32 (blen s) ++ s ++ post) off = Ok (s, off + 4 + blen s).
Proof.
  intros Hs ->. unfold readString.
  rewrite bool_decide_false by (rewrite !blen_app, blen_be32; pose proof (blen_nonneg s);
    pose proof (blen_nonneg post); lia).
  rewrite uint32_at_app by done. cbn -[blen].
  rewrite bool_decide_false by (rewrite !blen_app, blen_be32; pose proof (blen_nonneg post); lia).
  rewrite (assoc_L (++)), slice_app by (rewrite !blen_app, ?blen_be32; lia). done.
Qed.

Lemma readString_total data off :
  0 ≤ off →
  readString data off = Err ErrMessageTooShort ∨
  ∃ s, readString data off = Ok (s, off + 4 + blen s) ∧ off + 4 + blen s ≤ blen data.
Proof.
  intros Hoff. unfold readString. case_bool_decide; [by left|].
  destruct (uint32_at_total data off) as (v & -> & Hv); [lia..|]. cbn -[blen].
  unfold is_u32 in Hv. case_bool_decide; [by left|].
  destruct (slice_total data (off + 4) (off + 4 + v)) as (s & -> & Hs); [lia..|].
  right. exists s. cbn -[blen]. split; [f_equal; f_equal; lia | lia].
Qed.

(** Step a parser: split on the next [readString], index or slice. *)
Ltac parse_step :=
  match goal with
  | |- context [readString ?d ?o] =>
      destruct (readString_total d o) as [->|(?s & -> & ?)];
        [pose proof (@blen_nonneg byte); lia | |]
  | |- context [uint32_at ?d ?o] =>
      destruct (uint32_at_total d o) as (?v & -> & ?); [lia.. |]
  | |- context [slice ?d ?lo ?hi] =>
      destruct (slice_total d lo hi) as (?x & -> & ?); [lia.. |]
  | |- context [Uint32 ?d] => destruct (Uint32_total d) as [?v ->]; [lia |]
  | |- context [bool_decide ?P] => destruct (bool_decide_reflect P)
  end; cbn -[blen readString uint32_at slice Uint32].

Ltac parse_all :=
  repeat (parse_step; try done;
          repeat match goal with s : list byte |- _ =>
            lazymatch goal with
            | _ : 0 ≤ blen s |- _ => fail
            | _ => pose proof (blen_nonneg s)
            end end).

Lemma ParseServiceRequest_total data : ParseServiceRequest data ≠ Err Panic.
Proof. unfold ParseServiceRequest. parse_all. Qed.
Lemma ParseUserAuthRequest_total data : ParseUserAuthRequest data ≠ Err Panic.
Proof. unfold ParseUserAuthRequest. parse_all. Qed.
Lemma ParseGlobalRequest_total data : ParseGlobalRequest data ≠ Err Panic.
Proof. unfold ParseGlobalRequest. parse_all. Qed.
Lemma ParseChannelOpen_total data : ParseChannelOpen data ≠ Err Panic.
Proof. unfold ParseChannelOpen. parse_all. Qed.
Lemma ParseChannelData_total data : ParseChannelData data ≠ Err Panic.
Proof. unfold ParseChannelData. parse_all. Qed.
Lemma ParseProtocolVersion_total data : ParseProtocolVersion data ≠ Err Panic.
Proof. unfold ParseProtocolVersion. parse_all. Qed.
Lemma ParseKeepaliveRequest_total data : ParseKeepaliveRequest data ≠ Err Panic.
Proof. unfold ParseKeepaliveRequest. parse_all. Qed.
Lemma ParseKeepaliveOptions_total data : ParseKeepaliveOptions data ≠ Err Panic.
Proof. unfold ParseKeepaliveOptions. parse_all. Qed.
Lemma ParseForwardData_total data : ParseForwardData data ≠ Err Panic.
Proof. unfold ParseForwardData. parse_all. Qed.

(** ** What framing guarantees the parsers *)

Lemma readSegments_Ok n label r p r' :
  readSegments n label 0 r = Ok (p, r') →
  ∃ ss, length ss = n ∧ Forall is_apf_string ss ∧
        p = concat ((λ s, be32 (blen s) ++ s) <$> ss).
Proof.
  revert r p r'. induction n as [|n IH]; intros r p r'; cbn -[readAPFString].
  - intros [= <- <-]. by exists [].
  - destruct (readAPFString r label 0) as [[seg r1]|] eqn:E1; [|done]. cbn.
    destruct (readSegments n label 0 r1) as [[rest r2]|] eqn:E2; [|done]. cbn.
    intros [= <- <-].
    apply readAPFString_Ok in E1 as (s & t & -> & Hs & Ht); [|done].
    apply IH in E2 as (ss & <- & Hss & ->).
    destruct t; [|by unfold blen in Ht; cbn in Ht; lia].
    exists (s :: ss). split_and!; [done | by constructor | cbn].
    by rewrite app_nil_r.
Qed.

(** Payloads that start with a string and carry at least [n] bytes behind it. *)
Definition string_headed (n : Z) (p : bytes) : Prop :=
  ∃ s t, p = be32 (blen s) ++ s ++ t ∧ is_apf_string s ∧ n ≤ blen t.

Lemma named_headed label trailing names more r p r' :
  0 ≤ trailing →
  ('(buf, r) ← readAPFString r label trailing;
    strLen ← Uint32 buf;
    name ← slice buf 4 (4 + strLen);
    if bool_decide (name ∈ (names : list bytes))
    then '(extra, r) ← more r; Ok (buf ++ extra, r)
    else Ok (buf, r)) = Ok (p, r') → string_headed trailing p.
Proof.
  intros Ht. destruct (readAPFString r label trailing) as [[buf r1]|] eqn:E; [|done]. cbn.
  apply readAPFString_Ok in E as (s & t & -> & Hs & Hl); [|done].
  rewrite Uint32_be32 by by apply is_apf_string_u32. cbn.
  rewrite slice_app by done. cbn. case_bool_decide.
  - destruct (more r1) as [[extra r2]|]; [|done]. cbn. intros [= <- <-].
    exists s, (t ++ extra). rewrite <- !(assoc_L (++)). split_and!; auto.
    rewrite blen_app. pose proof (blen_nonneg extra). lia.
  - intros [= <- <-]. exists s, t. split_and!; auto. lia.
Qed.

Lemma readString_at data pre s post off :
  data = pre ++ be32 (blen s) ++ s ++ post → is_u32 (blen s) → off = blen pre →
  readString data off = Ok (s, off + 4 + blen s).
Proof. intros -> Hs ->. by apply readString_app. Qed.

Lemma readString_headed n p :
  string_headed n p → ∃ s, readString p 0 = Ok (s, 4 + blen s) ∧ 4 + blen s + n ≤ blen p.
Proof.
  intros (s & t & -> & Hs & Ht). exists s.
  rewrite (readString_at _ [] s t) by auto using is_apf_string_u32.
  split; [done|]. rewrite !blen_app, blen_be32. lia.
Qed.

Lemma ParseServiceRequest_headed p : string_headed 0 p → is_ok (ParseServiceRequest p) = true.
Proof. intros (s & Hs & _)%readString_headed. unfold ParseServiceRequest. by rewrite Hs. Qed.

Lemma ParseUserAuthRequest_app a b c :
  is_apf_string a → is_apf_string b → is_apf_string c →
  ParseUserAuthRequest ((be32 (blen a) ++ a) ++ (be32 (blen b) ++ b) ++ (be32 (blen c) ++ c)) =
  Ok {| ua_Username := a; ua_ServiceName := b; ua_MethodName := c |}.
Proof.
  intros. unfold ParseUserAuthRequest.
  rewrite (readString_at _ [] a ((be32 (blen b) ++ b) ++ be32 (blen c) ++ c))
    by (rewrite <- ?(assoc_L (++)); auto using is_apf_string_u32). cbn -[blen readString].
  rewrite (readString_at _ (be32 (blen a) ++ a) b (be32 (blen c) ++ c))
    by (rewrite <- ?(assoc_L (++)), ?blen_app, ?blen_be32; auto using is_apf_string_u32; lia).
  cbn -[blen readString].
  rewrite (readString_at _ ((be32 (blen a) ++ a) ++ be32 (blen b) ++ b) c [])
    by (rewrite <- ?(assoc_L (++)), ?app_nil_r, ?blen_app, ?blen_be32;
        auto using is_apf_string_u32; lia).
  done.
Qed.

Lemma ParseGlobalRequest_headed p : string_headed 1 p → is_ok (ParseGlobalRequest p) = true.
Proof.
  intros (s & Hs & Hl)%readString_headed. pose proof (blen_nonneg s).
  unfold ParseGlobalRequest. rewrite Hs. cbn -[blen slice]. parse_all. lia.
Qed.

Lemma ParseChannelOpen_headed p : string_headed 12 p → is_ok (ParseChannelOpen p) = true.
Proof.
  intros (s & Hs & Hl)%readString_headed. pose proof (blen_nonneg s).
  unfold ParseChannelOpen. rewrite Hs. cbn -[blen slice uint32_at]. parse_all. lia.
Qed.

Lemma ParseChannelData_app ch data :
  is_u32 ch → is_u32 (blen data) →
  ParseChannelData (be32 ch ++ be32 (blen data) ++ data) =
  Ok {| cd_RecipientChannel := ch; cd_Data := data |}.
Proof.
  intros. unfold ParseChannelData. rewrite bool_decide_false.
  2: { rewrite !blen_app, !blen_be32. pose proof (blen_nonneg data). lia. }
  rewrite (uint32_at_eq _ [] ch (be32 (blen data) ++ data)) by done.
  cbn -[readString]. rewrite (readString_at _ (be32 ch) data []); auto.
  by rewrite app_nil_r.
Qed.

Lemma readChannelData_Ok r p r' :
  readChannelData r = Ok (p, r') →
  ∃ ch data, p = be32 ch ++ be32 (blen data) ++ data ∧ is_u32 ch ∧ is_u32 (blen data).
Proof.
  unfold readChannelData. destruct (readFixed r 8) as [[h r1]|] eqn:E1; [|done]. cbn.
  apply readFixed_Ok in E1; [|lia].
  destruct h as [|h0 [|h1 [|h2 [|h3 h']]]]; unfold blen in E1; cbn [length] in E1; try lia.
  replace (h0 :: h1 :: h2 :: h3 :: h') with ([h0; h1; h2; h3] ++ h') by done.
  unfold uint32_at. rewrite slice_tail by done. cbn.
  unfold Uint32. destruct (get_be32 h') as [v|] eqn:Ev; [|done]. cbn.
  case_bool_decide; [done|].
  destruct (readFixed r1 v) as [[body r2]|] eqn:E2; [|done]. cbn. intros [= <- <-].
  pose proof (get_be32_range _ _ Ev) as Hv. apply readFixed_Ok in E2; [|unfold is_u32 in *; lia].
  destruct (get_be32 [h0; h1; h2; h3]) as [ch|] eqn:Ech; [|done].
  exists ch, body. rewrite E2.
  rewrite (be32_get_be32 [h0; h1; h2; h3] ch []), (be32_get_be32 h' v [])
    by (rewrite ?app_nil_r; auto; lia).
  split_and!; eauto using get_be32_range.
Qed.

Lemma readGlobalRequest_headed r p r' :
  readGlobalRequest r = Ok (p, r') → string_headed 1 p.
Proof.
  intros H. apply (named_headed "request name" 1
    [lit "tcpip-forward"; lit "cancel-tcpip-forward"] readForwardData r p r'); [lia|].
  rewrite <- H. unfold readGlobalRequest.
  destruct (readAPFString r _ 1) as [[q ?]|]; [|done]. cbn.
  destruct (Uint32 q) as [v|]; [|done]. cbn. destruct (slice q 4 _); [|done]. cbn.
  by rewrite decide_two_names.
Qed.

Lemma readChannelOpen_headed r p r' :
  readChannelOpen r = Ok (p, r') → string_headed 12 p.
Proof.
  intros H. apply (named_headed "channel type" 12
    [lit "direct-tcpip"; lit "forwarded-tcpip"] readChannelOpenExtra r p r'); [lia|].
  rewrite <- H. unfold readChannelOpen.
  destruct (readAPFString r _ 12) as [[q ?]|]; [|done]. cbn.
  destruct (Uint32 q) as [v|]; [|done]. cbn. destruct (slice q 4 _); [|done]. cbn.
  by rewrite decide_two_names.
Qed.

Lemma readMessageBody_parses t r p r' :
  readMessageBody r t = Ok (p, r') →
  (t = APFServiceRequest → is_ok (ParseServiceRequest p) = true) ∧
  (t = APFUserAuthRequest → is_ok (ParseUserAuthRequest p) = true) ∧
  (t = APFGlobalRequest → is_ok (ParseGlobalRequest p) = true) ∧
  (t = APFChannelOpen → is_ok (ParseChannelOpen p) = true) ∧
  (t = APFChannelData → is_ok (ParseChannelData p) = true) ∧
  (t = APFProtocolVersion → is_ok (ParseProtocolVersion p) = true) ∧
  (t = APFKeepaliveRequest → is_ok (ParseKeepaliveRequest p) = true) ∧
  (t = APFKeepaliveOptionsReply → is_ok (ParseKeepaliveOptions p) = true).
Proof.
  intros H. split_and!; intros ->.
  - change (readAPFString r "service name" 0 = Ok (p, r')) in H.
    apply readAPFString_Ok in H as (s & t & -> & Hs & Ht); [|done].
    apply ParseServiceRequest_headed. exists s, t. split_and!; auto. lia.
  - change (readSegments 3 "auth string" 0 r = Ok (p, r')) in H.
    apply readSegments_Ok in H as ([|a [|b [|c [|]]]] & Hl & Hss & ->); try done.
    rewrite !Forall_cons_iff in Hss. destruct Hss as (?&?&?&_). cbn -[blen].
    rewrite app_nil_r. by rewrite ParseUserAuthRequest_app.
  - eapply ParseGlobalRequest_headed, readGlobalRequest_headed. exact H.
  - eapply ParseChannelOpen_headed, readChannelOpen_headed. exact H.
  - change (readChannelData r = Ok (p, r')) in H.
    apply readChannelData_Ok in H as (ch & data & -> & ? & ?).
    by rewrite ParseChannelData_app.
  - apply (readFixed_Ok r 28) in H; [|lia]. unfold ParseProtocolVersion. parse_all. lia.
  - apply (readFixed_Ok r 4) in H; [|lia]. unfold ParseKeepaliveRequest. parse_all. lia.
  - apply (readFixed_Ok r 8) in H; [|lia]. unfold ParseKeepaliveOptions. parse_all. lia.
Qed.

(** ** Reading back what the writers send *)

Lemma readFixed_app b rest e n :
  n = blen b → readFixed (mk_reader (b ++ rest) e) n = Ok (b, mk_reader rest e).
Proof.
  intros ->. unfold readFixed. replace (Z.to_nat (blen b)) with (length b)
    by (unfold blen; lia). by rewrite read_full_app.
Qed.

Lemma ReadMessage_cons t body rest e p :
  0 ≤ t < 256 →
  (∀ rest, readMessageBody (mk_reader (body ++ rest) e) t = Ok (p, mk_reader rest e)) →
  ReadMessage (mk_reader ((byte_of_Z t :: body) ++ rest) e) = Ok (t, p, mk_reader rest e).
Proof.
  intros Ht Hb. unfold ReadMessage.
  change ((byte_of_Z t :: body) ++ rest) with ([byte_of_Z t] ++ (body ++ rest)).
  rewrite readFixed_app by done. cbn -[readMessageBody].
  rewrite Z_of_byte_of_Z, Z.mod_small by lia. by rewrite Hb.
Qed.

Lemma readAPFString_app label trailing s t rest e :
  is_apf_string s → blen t = trailing →
  readAPFString (mk_reader ((be32 (blen s) ++ s ++ t) ++ rest) e) label trailing =
  Ok (be32 (blen s) ++ s ++ t, mk_reader rest e).
Proof.
  intros Hs <-. unfold readAPFString. rewrite <- (assoc_L (++)).
  rewrite readFixed_app by done. cbn -[Uint32 readFixed].
  rewrite <- (app_nil_r (be32 (blen s))) at 1.
  rewrite Uint32_be32 by auto using is_apf_string_u32. cbn -[readFixed].
  rewrite bool_decide_false by (unfold is_apf_string in *; lia).
  rewrite readFixed_app by (rewrite blen_app; lia). done.
Qed.

Lemma concat_be32_blen fields : blen (concat (be32 <$> fields)) = 4 * Z.of_nat (length fields).
Proof.
  induction fields as [|v fs IH]; [done|]. cbn -[blen]. rewrite blen_app, IH, blen_be32. lia.
Qed.

Lemma readMessageBody_fixed t n body rest e :
  (∀ r, readMessageBody r t = readFixed r n) → blen body = n →
  readMessageBody (mk_reader (body ++ rest) e) t = Ok (body, mk_reader rest e).
Proof. intros -> <-. by apply readFixed_app. Qed.

(** [frame] is one complete message of type [t] with payload [p]. *)
Definition is_frame (frame : bytes) (t : Z) (p : bytes) : Prop :=
  ∀ rest e, ReadMessage (mk_reader (frame ++ rest) e) = Ok (t, p, mk_reader rest e).

(** [w'] is [w] after sending the one message [(t, p)]. *)
Definition sends (w : netconn) (w' : netconn * option apf_err) (t : Z) (p : bytes) : Prop :=
  ∃ frame, w' = (mk_netconn (nc_in w) (nc_sent w ++ frame) (S (nc_writes w)) (nc_fault w), None)
           ∧ is_frame frame t p.

Lemma sends_fixed w t n body :
  sound_conn w → 0 ≤ t < 256 →
  (∀ r, readMessageBody r t = readFixed r n) → blen body = n →
  sends w (lift_io (net_write w (byte_of_Z t :: body))) t body.
Proof.
  intros Hw Ht Hr Hn. rewrite net_write_sound by done.
  exists (byte_of_Z t :: body). split; [done|]. intros rest e.
  apply ReadMessage_cons; [done|]. intros. by apply (readMessageBody_fixed t n).
Qed.

Lemma sends_uint32 w t fields :
  sound_conn w → 0 ≤ t < 256 →
  (∀ r, readMessageBody r t = readFixed r (4 * Z.of_nat (length fields))) →
  sends w (writeUint32Msg w t fields) t (concat (be32 <$> fields)).
Proof. intros. eapply sends_fixed; eauto using concat_be32_blen. Qed.

Lemma sends_string w t s :
  sound_conn w → 0 ≤ t < 256 → (∀ r, readMessageBody r t = readStringMsg r) →
  is_apf_string s → sends w (writeStringMsg w t s) t (be32 (blen s) ++ s).
Proof.
  intros Hw Ht Hr Hs. unfold writeStringMsg.
  rewrite bool_decide_false by (unfold is_apf_string in *; lia).
  rewrite net_write_sound by done. exists (byte_of_Z t :: be32 (blen s) ++ s).
  split; [done|]. intros rest e. apply ReadMessage_cons; [done|]. intros rest'.
  rewrite Hr. pose proof (readAPFString_app "service name" 0 s [] rest' e Hs eq_refl) as H.
  rewrite app_nil_r in H. exact H.
Qed.

Lemma sends_channel_data w ch data :
  sound_conn w → is_u32 ch → blen data ≤ maxChannelData →
  sends w (WriteChannelData w ch data) APFChannelData (be32 ch ++ be32 (blen data) ++ data).
Proof.
  intros Hw Hch Hd. pose proof (blen_nonneg data). unfold maxChannelData in Hd.
  unfold WriteChannelData. rewrite bool_decide_false by (unfold maxAPFPayload; lia).
  rewrite net_write_sound by done. eexists; split; [done|].
  intros rest e. apply ReadMessage_cons; [done|]. intros rest'.
  change (readChannelData (mk_reader ((be32 ch ++ be32 (blen data) ++ data) ++ rest') e) =
          Ok (be32 ch ++ be32 (blen data) ++ data, mk_reader rest' e)).
  unfold readChannelData. rewrite !(assoc_L (++)). rewrite <- !(assoc_L (++) _ data).
  rewrite readFixed_app by (rewrite blen_app, !blen_be32; done). cbn -[uint32_at readFixed].
  rewrite (uint32_at_eq _ (be32 ch) (blen data) [])
    by (rewrite ?app_nil_r; unfold is_u32; auto; lia).
  cbn -[readFixed]. rewrite bool_decide_false by (unfold maxChannelData; lia).
  by rewrite readFixed_app.
Qed.

Lemma encodeAPFString_string s :
  ∃ s', encodeAPFString s = be32 (blen s') ++ s' ∧ is_apf_string s' ∧ s' `prefix_of` s ∧
        (is_apf_string s → s' = s).
Proof.
  unfold encodeAPFString. case_bool_decide as H.
  - exists (take (Z.to_nat maxAPFStringLen) s). split_and!; auto.
    + unfold is_apf_string, blen, maxAPFStringLen. rewrite length_take. lia.
    + apply prefix_take.
    + unfold is_apf_string. intros. lia.
  - exists s. split_and!; auto. unfold is_apf_string. lia.
Qed.

Lemma readChannelOpen_direct h a o rest e :
  blen h = 12 → is_apf_string a → is_apf_string o →
  let ty := lit "direct-tcpip" in
  ∀ pa po, blen pa = 4 → blen po = 4 →
  let extra := (be32 (blen a) ++ a ++ pa) ++ (be32 (blen o) ++ o ++ po) in
  readChannelOpen (mk_reader (((be32 (blen ty) ++ ty ++ h) ++ extra) ++ rest) e) =
  Ok ((be32 (blen ty) ++ ty ++ h) ++ extra, mk_reader rest e).
Proof.
  intros Hh Ha Ho ty pa po Hpa Hpo extra. unfold readChannelOpen.
  rewrite <- (assoc_L (++) (be32 (blen ty) ++ ty ++ h)).
  rewrite readAPFString_app by done. cbn -[Uint32 slice readChannelOpenExtra ty].
  rewrite Uint32_be32 by done. cbn -[slice readChannelOpenExtra ty].
  rewrite slice_app by done. cbn -[readChannelOpenExtra ty].
  rewrite bool_decide_true by by left.
  unfold readChannelOpenExtra, readSegments, extra. rewrite <- (assoc_L (++) (be32 (blen a) ++ a ++ pa)).
  rewrite readAPFString_app by done. cbn -[readAPFString ty].
  rewrite readAPFString_app by done. cbn -[ty]. by rewrite app_nil_r.
Qed.

Lemma ParseServiceRequest_app s :
  is_apf_string s → ParseServiceRequest (be32 (blen s) ++ s) = Ok {| sr_ServiceName := s |}.
Proof.
  intros. unfold ParseServiceRequest.
  rewrite (readString_at _ [] s []) by (rewrite ?app_nil_r; auto using is_apf_string_u32). done.
Qed.

Lemma ParseKeepaliveRequest_be32 c :
  is_u32 c → ParseKeepaliveRequest (concat (be32 <$> [c])) = Ok {| ka_Cookie := c |}.
Proof.
  intros. unfold ParseKeepaliveRequest. cbn -[Uint32 blen].
  rewrite bool_decide_false by done. by rewrite Uint32_be32.
Qed.

Lemma ParseKeepaliveOptions_be32 i t :
  is_u32 i → is_u32 t →
  ParseKeepaliveOptions (concat (be32 <$> [i; t])) = Ok {| ko_Interval := i; ko_Timeout := t |}.
Proof.
  intros. unfold ParseKeepaliveOptions. cbn -[uint32_at blen]. rewrite app_nil_r.
  rewrite bool_decide_false by done.
  rewrite (uint32_at_eq _ [] i (be32 t) 0) by done. cbn -[uint32_at].
  rewrite (uint32_at_eq _ (be32 i) t []) by (rewrite ?app_nil_r; done). done.
Qed.

Lemma ParseProtocolVersion_app a b c g :
  is_u32 a → is_u32 b → is_u32 c → blen g = 16 →
  ParseProtocolVersion (be32 a ++ be32 b ++ be32 c ++ g) =
  Ok {| pv_MajorVersion := a; pv_MinorVersion := b; pv_Trigger := c; pv_UUID := g |}.
Proof.
  intros ??? Hg. unfold ParseProtocolVersion.
  rewrite bool_decide_false by (rewrite !blen_app, !blen_be32; lia).
  rewrite (uint32_at_eq _ [] a (be32 b ++ be32 c ++ g) 0) by done. cbn -[uint32_at slice].
  rewrite (uint32_at_eq _ (be32 a) b (be32 c ++ g) 4) by done. cbn -[uint32_at slice].
  rewrite (uint32_at_eq _ (be32 a ++ be32 b) c g 8) by (rewrite ?(assoc_L (++)); done).
  cbn -[slice]. rewrite !(assoc_L (++)). rewrite <- (app_nil_r g), (assoc_L (++)).
  rewrite <- (assoc_L (++) ((be32 a ++ be32 b) ++ be32 c)), slice_app; [by rewrite app_nil_r | done |].
  rewrite !blen_app, !blen_be32. lia.
Qed.

(** ** Claims *)

(** C12: framing is exact, bounded and incremental.  Whatever the device sends,
    a successful [ReadMessage] has consumed exactly the type byte and the
    payload it returns, at most 1 MiB + 8 bytes of payload, and keeps its answer
    when more bytes follow; a failure never is an out-of-range access, and
    unless the stream ended early it does not depend on what follows. *)
Theorem ReadMessage_framing r :
  match ReadMessage r with
  | Ok (t, p, r') =>
      rd_bytes r = byte_of_Z t :: p ++ rd_bytes r' ∧ rd_end r' = rd_end r ∧
      blen p ≤ 1048584 ∧
      ∀ ext, ReadMessage (extend r ext) = Ok (t, p, extend r' ext)
  | Err e => e ≠ Panic ∧ (io_error e ∨ ∀ ext, ReadMessage (extend r ext) = Err e)
  end.
Proof.
  destruct (ReadMessage r) as [[[t p] r']|e] eqn:E.
  - apply ReadMessage_frame in E as [E Ht]. pose proof (read_frame_framed r) as H.
    rewrite E in H. destruct H as (? & ? & Hl & Hx).
    rewrite blen_cons in Hl. split_and!; auto; [unfold maxMessageBody, maxChannelData in Hl; lia|].
    intros ext. specialize (Hx ext). unfold read_frame in Hx.
    destruct (ReadMessage (extend r ext)) as [[[t2 p2] r2]|] eqn:E2; [|done]. cbn in Hx.
    apply ReadMessage_frame in E2 as [_ Ht2]. injection Hx as Hb -> ->.
    by rewrite (byte_of_Z_inj t2 t).
  - apply read_frame_Err in E. pose proof (read_frame_framed r) as H. rewrite E in H.
    destruct H as [? [?|Hx]]; split; auto. right. intros ext. by apply read_frame_Err.
Qed.

(** A message cut short is an I/O error, never another message: every
    proper prefix of a frame makes [ReadMessage] report that the stream ended. *)
Theorem ReadMessage_incomplete s ext e t p r' :
  ReadMessage (mk_reader (s ++ ext) e) = Ok (t, p, r') → blen s < 1 + blen p →
  ∃ i, ReadMessage (mk_reader s e) = Err (ErrIO i).
Proof.
  intros H Hlt. pose proof (read_frame_framed (mk_reader s e)) as Hf.
  apply ReadMessage_frame in H as [H _].
  destruct (read_frame (mk_reader s e)) as [[q r2]|e2] eqn:E.
  - destruct Hf as (Hb & _ & _ & Hx). specialize (Hx ext). unfold extend in Hx; cbn in Hx, Hb.
    rewrite Hx in H. injection H as -> _. apply (f_equal blen) in Hb.
    rewrite blen_app, blen_cons in Hb. pose proof (blen_nonneg (rd_bytes r2)). lia.
  - destruct Hf as [_ [[i ->]|Hx]].
    + exists i. by apply read_frame_Err.
    + specialize (Hx ext). unfold extend in Hx; cbn in Hx. by rewrite Hx in H.
Qed.

Lemma ReadMessage_incomplete_witness :
  ∃ i, ReadMessage (mk_reader [x61; x00] EOF) = Err (ErrIO i).
Proof.
  apply (ReadMessage_incomplete [x61; x00] [x00; x00; x07] EOF APFChannelClose
           [x00; x00; x00; x07] (mk_reader [] EOF)); reflexivity.
Defined.

(** A payload that framing accepted is never "too short" for its parser:
    service, user-auth, global and channel-open requests, channel data, the
    protocol version and the keepalive messages all parse. *)
Theorem framed_payloads_parse r t p r' :
  ReadMessage r = Ok (t, p, r') →
  (t = APFServiceRequest → is_ok (ParseServiceRequest p) = true) ∧
  (t = APFUserAuthRequest → is_ok (ParseUserAuthRequest p) = true) ∧
  (t = APFGlobalRequest → is_ok (ParseGlobalRequest p) = true) ∧
  (t = APFChannelOpen → is_ok (ParseChannelOpen p) = true) ∧
  (t = APFChannelData → is_ok (ParseChannelData p) = true) ∧
  (t = APFProtocolVersion → is_ok (ParseProtocolVersion p) = true) ∧
  (t = APFKeepaliveRequest → is_ok (ParseKeepaliveRequest p) = true) ∧
  (t = APFKeepaliveOptionsReply → is_ok (ParseKeepaliveOptions p) = true).
Proof.
  unfold ReadMessage. destruct (readFixed r 1) as [[[|b [|]] r1]|]; try done. cbn -[readMessageBody].
  destruct (readMessageBody r1 (Z_of_byte b)) as [[q r2]|] eqn:E; [|done]. cbn.
  intros [= <- <- <-]. by eapply readMessageBody_parses.
Qed.

Lemma framed_payloads_parse_witness :
  is_ok (ParseKeepaliveRequest [x00; x00; x00; x2a]) = true.
Proof.
  apply (framed_payloads_parse (mk_reader [xd0; x00; x00; x00; x2a] EOF)
           APFKeepaliveRequest [x00; x00; x00; x2a] (mk_reader [] EOF)); reflexivity.
Defined.

(** The parsers index no byte outside the payload, whatever it holds. *)
Theorem parsers_never_panic data :
  ParseServiceRequest data ≠ Err Panic ∧ ParseUserAuthRequest data ≠ Err Panic ∧
  ParseGlobalRequest data ≠ Err Panic ∧ ParseChannelOpen data ≠ Err Panic ∧
  ParseChannelData data ≠ Err Panic ∧ ParseProtocolVersion data ≠ Err Panic ∧
  ParseKeepaliveRequest data ≠ Err Panic ∧ ParseKeepaliveOptions data ≠ Err Panic ∧
  ParseForwardData data ≠ Err Panic.
Proof.
  split_and!; [apply ParseServiceRequest_total | apply ParseUserAuthRequest_total
    | apply ParseGlobalRequest_total | apply ParseChannelOpen_total | apply ParseChannelData_total
    | apply ParseProtocolVersion_total | apply ParseKeepaliveRequest_total
    | apply ParseKeepaliveOptions_total | apply ParseForwardData_total].
Qed.

(** What the server writes, the codec reads back.  On a connection whose
    writes succeed each writer sends one frame that [ReadMessage] returns with
    the writer's type and fields, and the matching parser recovers the fields. *)
Theorem writers_read_back w s data ch x y z :
  sound_conn w → is_apf_string s → blen data ≤ maxChannelData →
  is_u32 ch → is_u32 x → is_u32 y → is_u32 z →
  (sends w (WriteServiceAccept w s) APFServiceAccept (be32 (blen s) ++ s) ∧
   ParseServiceRequest (be32 (blen s) ++ s) = Ok {| sr_ServiceName := s |}) ∧
  (sends w (WriteChannelData w ch data) APFChannelData (be32 ch ++ be32 (blen data) ++ data) ∧
   ParseChannelData (be32 ch ++ be32 (blen data) ++ data) =
     Ok {| cd_RecipientChannel := ch; cd_Data := data |}) ∧
  sends w (WriteChannelOpenConfirm w ch x y z) APFChannelOpenConfirm
    (concat (be32 <$> [ch; x; y; z])) ∧
  sends w (WriteChannelClose w ch) APFChannelClose (concat (be32 <$> [ch])) ∧
  sends w (WriteChannelWindowAdj w ch x) APFChannelWindowAdj (concat (be32 <$> [ch; x])) ∧
  sends w (WriteDisconnect w x) APFDisconnect (concat (be32 <$> [x])) ∧
  (sends w (WriteProtocolVersion w x y z) APFProtocolVersion
     (be32 x ++ be32 y ++ be32 z ++ replicate 16 x00) ∧
   ParseProtocolVersion (be32 x ++ be32 y ++ be32 z ++ replicate 16 x00) =
     Ok {| pv_MajorVersion := x; pv_MinorVersion := y; pv_Trigger := z;
           pv_UUID := replicate 16 x00 |}) ∧
  (sends w (WriteKeepaliveRequest w x) APFKeepaliveRequest (concat (be32 <$> [x])) ∧
   sends w (WriteKeepaliveReply w x) APFKeepaliveReply (concat (be32 <$> [x])) ∧
   ParseKeepaliveRequest (concat (be32 <$> [x])) = Ok {| ka_Cookie := x |}) ∧
  (sends w (WriteKeepaliveOptionsRequest w x y) APFKeepaliveOptionsRequest
     (concat (be32 <$> [x; y])) ∧
   ParseKeepaliveOptions (concat (be32 <$> [x; y])) =
     Ok {| ko_Interval := x; ko_Timeout := y |}).
Proof.
  intros Hw Hs Hd Hch Hx Hy Hz.
  assert (is_u32 (blen data)) by (pose proof (blen_nonneg data); unfold is_u32, maxChannelData in *; lia).
  split_and!; try (by apply sends_uint32).
  - by apply sends_string.
  - by apply ParseServiceRequest_app.
  - by apply sends_channel_data.
  - by apply ParseChannelData_app.
  - by apply (sends_fixed w APFProtocolVersion 28).
  - by apply ParseProtocolVersion_app.
  - by apply ParseKeepaliveRequest_be32.
  - by apply ParseKeepaliveOptions_be32.
Qed.

Definition witness_conn : netconn := mk_netconn (mk_reader [] EOF) [] 0 (λ _, None).

Lemma writers_read_back_witness :
  sends witness_conn (WriteKeepaliveReply witness_conn 7) APFKeepaliveReply
    (concat (be32 <$> [7])).
Proof.
  refine (proj1 (proj2 (proj1 (proj2 (proj2 (proj2 (proj2 (proj2 (proj2 (proj2
    (writers_read_back witness_conn (lit "auth@amt.intel.com") [x01] 3 7 8 9
       _ _ _ _ _ _ _))))))))))); [by intros n | vm_compute; discriminate .. | | | |];
  unfold is_u32; lia.
Defined.

(** The channel-open the server sends parses as the direct-tcpip open it
    means, for every target address: an address over 256 bytes is cut, and the
    frame stays well formed. *)
Theorem open_direct_read_back w senderCh addr port :
  sound_conn w → is_u32 senderCh → is_u16 port →
  ∃ p a, sends w (writeChannelOpenDirect w senderCh addr port) APFChannelOpen p ∧
         a `prefix_of` addr ∧ (is_apf_string addr → a = addr) ∧
         ParseChannelOpen p =
           Ok {| co_ChannelType := lit "direct-tcpip"; co_SenderChannel := senderCh;
                 co_InitialWindowSz := DefaultWindowSize; co_MaxPacketSz := DefaultMaxPacketSize;
                 co_Data := (be32 (blen a) ++ a ++ be32 port) ++
                            be32 7 ++ lit "0.0.0.0" ++ be32 0 |}.
Proof.
  intros Hw Hch Hport. destruct (encodeAPFString_string addr) as (a & Ea & Ha & Hpre & Hid).
  set (ty := lit "direct-tcpip"). set (org := lit "0.0.0.0").
  set (h := be32 senderCh ++ be32 DefaultWindowSize ++ be32 DefaultMaxPacketSize).
  set (extra := (be32 (blen a) ++ a ++ be32 port) ++ (be32 (blen org) ++ org ++ be32 0)).
  exists ((be32 (blen ty) ++ ty ++ h) ++ extra), a. split_and!; auto.
  - unfold writeChannelOpenDirect. rewrite net_write_sound by done. rewrite Ea.
    eexists; split; [reflexivity|]. intros rest e.
    assert (∀ l, be32 (blen ty) ++ ty ++ be32 senderCh ++ be32 DefaultWindowSize ++
      be32 DefaultMaxPacketSize ++ (be32 (blen a) ++ a) ++ be32 port ++ l =
      (be32 (blen ty) ++ ty ++ h) ++ (be32 (blen a) ++ a ++ be32 port) ++ l) as Heq.
    { intros l. unfold h. by rewrite <- !(assoc_L (++)). }
    fold ty. rewrite Heq. apply ReadMessage_cons; [done|]. intros rest'.
    exact (readChannelOpen_direct h a org rest' e eq_refl Ha ltac:(done) (be32 port) (be32 0)
             eq_refl eq_refl).
  - unfold ParseChannelOpen.
    rewrite (readString_at _ [] ty (h ++ extra)) by (rewrite <- ?(assoc_L (++)); done).
    cbn -[blen uint32_at slice ty extra Z.add].
    rewrite bool_decide_false by (rewrite !blen_app; pose proof (blen_nonneg extra);
      change (blen (be32 (blen ty))) with 4; change (blen h) with 12; lia).
    rewrite (uint32_at_eq _ (be32 (blen ty) ++ ty) senderCh
      ((be32 DefaultWindowSize ++ be32 DefaultMaxPacketSize) ++ extra) (0 + 4 + blen ty))
      by (unfold h; rewrite <- ?(assoc_L (++)); done). cbn -[blen uint32_at slice ty extra Z.add].
    rewrite (uint32_at_eq _ ((be32 (blen ty) ++ ty) ++ be32 senderCh) DefaultWindowSize
      (be32 DefaultMaxPacketSize ++ extra) (0 + 4 + blen ty + 4))
      by (unfold h; rewrite <- ?(assoc_L (++)); done). cbn -[blen uint32_at slice ty extra Z.add].
    rewrite (uint32_at_eq _ (((be32 (blen ty) ++ ty) ++ be32 senderCh) ++ be32 DefaultWindowSize)
      DefaultMaxPacketSize extra (0 + 4 + blen ty + 8))
      by (unfold h; rewrite <- ?(assoc_L (++)); done). cbn -[blen uint32_at slice ty extra Z.add].
    by rewrite slice_tail.
Qed.

Lemma open_direct_read_back_witness :
  ∃ p a, sends witness_conn (writeChannelOpenDirect witness_conn 0 (lit "127.0.0.1") 16992)
           APFChannelOpen p ∧
         a `prefix_of` lit "127.0.0.1" ∧ (is_apf_string (lit "127.0.0.1") → a = lit "127.0.0.1") ∧
         ParseChannelOpen p =
           Ok {| co_ChannelType := lit "direct-tcpip"; co_SenderChannel := 0;
                 co_InitialWindowSz := DefaultWindowSize; co_MaxPacketSz := DefaultMaxPacketSize;
                 co_Data := (be32 (blen a) ++ a ++ be32 16992) ++
                            be32 7 ++ lit "0.0.0.0" ++ be32 0 |}.
Proof.
  apply (open_direct_read_back witness_conn 0 (lit "127.0.0.1") 16992).
  - by intros n.
  - unfold is_u32; lia.
  - unfold is_u16; lia.
Defined.
