(* ===== verification/Channel.v ===== *)
(** * APF channels: the byte stream, its window and its packets

    [src/server/internal/amt/transport/mps_channel.go].  Each method is one
    critical section over the [Channel] record; the [io] effects it asks for
    afterwards (a window adjust, a close) are returned beside it.  The blocking
    loop of [Read] is the function of one iteration, whose [Blocks] outcome is
    the receive on [ready]. *)
From S2P Require Import Prelude Io Apf.

Inductive chan_err :=
  | ChClosed              (* net.ErrClosed *)
  | ChEOF                 (* io.EOF: the device closed it *)
  | ErrWindowExceeded.

#[global] Instance chan_err_eq_dec : EqDecision chan_err.
Proof. solve_decision. Defined.

Record Channel := mk_channel {
  ch_LocalID : Z;
  ch_RemoteID : Z;
  ch_Type : bytes;
  ch_discard : bool;
  ch_sendWindow : Z;
  ch_inbox : bytes;
  ch_unacked : Z;
  ch_err : option chan_err;
  ch_ready : bool;            (* the one-slot wake-up channel holds a token *)
}.

Definition newChannel (local remote : Z) (chType : bytes) (window : Z) : Channel :=
  mk_channel local remote chType false window [] 0 None false.

Definition with_discard (ch : Channel) : Channel :=
  mk_channel (ch_LocalID ch) (ch_RemoteID ch) (ch_Type ch) true (ch_sendWindow ch)
    (ch_inbox ch) (ch_unacked ch) (ch_err ch) (ch_ready ch).

Definition with_inbox (ch : Channel) (inbox : bytes) : Channel :=
  mk_channel (ch_LocalID ch) (ch_RemoteID ch) (ch_Type ch) (ch_discard ch) (ch_sendWindow ch)
    inbox (ch_unacked ch) (ch_err ch) (ch_ready ch).

Definition with_unacked (ch : Channel) (n : Z) : Channel :=
  mk_channel (ch_LocalID ch) (ch_RemoteID ch) (ch_Type ch) (ch_discard ch) (ch_sendWindow ch)
    (ch_inbox ch) n (ch_err ch) (ch_ready ch).

(** [select { case ch.ready <- struct{}{}: default: }] *)
Definition signal (ch : Channel) : Channel :=
  mk_channel (ch_LocalID ch) (ch_RemoteID ch) (ch_Type ch) (ch_discard ch) (ch_sendWindow ch)
    (ch_inbox ch) (ch_unacked ch) (ch_err ch) true.

Definition set_err (ch : Channel) (e : chan_err) : Channel :=
  mk_channel (ch_LocalID ch) (ch_RemoteID ch) (ch_Type ch) (ch_discard ch) (ch_sendWindow ch)
    (ch_inbox ch) (ch_unacked ch) (Some e) (ch_ready ch).

(** [handleWindowAdj]'s update: [ch.sendWindow += int64(bytesToAdd)] *)
Definition add_window (ch : Channel) (n : Z) : Channel :=
  mk_channel (ch_LocalID ch) (ch_RemoteID ch) (ch_Type ch) (ch_discard ch)
    (i64 (ch_sendWindow ch + n)) (ch_inbox ch) (ch_unacked ch) (ch_err ch) (ch_ready ch).

Definition takeAdjust (ch : Channel) (n : Z) : Channel * Z :=
  let unacked := ch_unacked ch + n in
  if bool_decide (unacked < DefaultWindowSize `div` 2)
  then (with_unacked ch unacked, 0)
  else (with_unacked ch 0, Z.min unacked u32_max).

Definition deliver (ch : Channel) (data : bytes) : Channel * result chan_err Z :=
  if ch_discard ch
  then let '(ch, adjust) := takeAdjust ch (blen data) in (ch, Ok adjust)
  else match ch_err ch with
       | Some _ => (ch, Ok 0)
       | None =>
           if bool_decide (DefaultWindowSize < blen (ch_inbox ch) + blen data)
           then (ch, Err ErrWindowExceeded)
           else (signal (with_inbox ch (ch_inbox ch ++ data)), Ok 0)
       end.

(** [end]: the channel afterwards, and whether this call ended it. *)
Definition chan_end (ch : Channel) (e : chan_err) : Channel * bool :=
  match ch_err ch with
  | Some _ => (ch, false)
  | None => (signal (set_err ch e), true)
  end.

(** [ended] *)
Definition chan_ended (ch : Channel) : option chan_err :=
  match ch_err ch with Some _ => Some ChClosed | None => None end.

Inductive read_outcome :=
  | ReadData (data : bytes) (adjust : Z)   (* then [reopenWindow(adjust)] *)
  | ReadErr (e : chan_err)
  | Blocks.                                (* [<-ch.ready], then again *)

(** One turn of [Read]'s loop with a buffer of [n] bytes. *)
Definition chan_read (ch : Channel) (n : nat) : Channel * read_outcome :=
  match ch_inbox ch with
  | _ :: _ =>
      let data := take n (ch_inbox ch) in
      let ch' := with_inbox ch (drop n (ch_inbox ch)) in
      match ch_err ch with
      | None => let '(ch', adjust) := takeAdjust ch' (blen data) in (ch', ReadData data adjust)
      | Some _ => (ch', ReadData data 0)
      end
  | [] =>
      match ch_err ch with
      | Some e => (ch, ReadErr e)
      | None => (ch, Blocks)
      end
  end.

(** [reopenWindow]: a zero adjust sends nothing, and a failed write is logged. *)
Definition reopenWindow (w : netconn) (ch : Channel) (adjust : Z) : netconn :=
  if bool_decide (adjust = 0) then w else (WriteChannelWindowAdj w (ch_RemoteID ch) adjust).1.

Inductive write_err :=
  | WEnded (e : chan_err)
  | WApf (e : apf_err).

(** [Write]: [chs i] is the channel as the [i]-th turn finds it, since it may
    be ended by another goroutine while the loop runs.  [None] is running out of
    fuel, which [chan_write_terminates] excludes for [S (length p)]. *)
Fixpoint chan_write_loop (fuel : nat) (w : netconn) (chs : nat → Channel) (i : nat)
    (p : bytes) (written : Z) : option (netconn * Z * option write_err) :=
  match fuel with
  | O => None
  | S fuel =>
      if bool_decide (written < blen p) then
        match chan_ended (chs i) with
        | Some e => Some (w, written, Some (WEnded e))
        | None =>
            let stop := Z.min (written + DefaultMaxPacketSize) (blen p) in
            let packet := take (Z.to_nat (stop - written)) (drop (Z.to_nat written) p) in
            match WriteChannelData w (ch_RemoteID (chs i)) packet with
            | (w, Some e) => Some (w, written, Some (WApf e))
            | (w, None) => chan_write_loop fuel w chs (S i) p stop
            end
        end
      else Some (w, written, None)
  end.

Definition chan_write (w : netconn) (chs : nat → Channel) (p : bytes) :=
  chan_write_loop (S (length p)) w chs 0 p 0.

(** ** Flow control against a device that respects its window

    [fl_credit] is what the device may still send; a read's window adjust
    reopens it.  [fl_in] and [fl_out] are the history of the stream. *)

Record flow := mk_flow {
  fl_ch : Channel;
  fl_credit : Z;
  fl_in : bytes;
  fl_out : bytes;
}.

Inductive flow_step : flow → flow → Prop :=
  | flow_deliver ch ch' credit i o data adjust :
      blen data ≤ credit →
      deliver ch data = (ch', Ok adjust) →
      flow_step (mk_flow ch credit i o)
                (mk_flow ch' (credit - blen data + adjust) (i ++ data) o)
  | flow_read ch ch' credit i o n data adjust :
      chan_read ch n = (ch', ReadData data adjust) →
      flow_step (mk_flow ch credit i o)
                (mk_flow ch' (credit + adjust) i (o ++ data)).

Definition flow_init (ch : Channel) : flow := mk_flow ch DefaultWindowSize [] [].

(** A fresh channel of either kind. *)
Definition fresh_channel (ch : Channel) : Prop :=
  ch_inbox ch = [] ∧ ch_unacked ch = 0 ∧ ch_err ch = None.

Definition flow_inv (f : flow) : Prop :=
  ch_err (fl_ch f) = None ∧
  0 ≤ ch_unacked (fl_ch f) < DefaultWindowSize `div` 2 ∧
  fl_credit f + blen (ch_inbox (fl_ch f)) + ch_unacked (fl_ch f) = DefaultWindowSize ∧
  0 ≤ fl_credit f ∧
  (ch_discard (fl_ch f) = false → fl_in f = fl_out f ++ ch_inbox (fl_ch f)) ∧
  (ch_discard (fl_ch f) = true → ch_inbox (fl_ch f) = []).

Lemma takeAdjust_spec ch n ch' adjust :
  takeAdjust ch n = (ch', adjust) → 0 ≤ ch_unacked ch < DefaultWindowSize `div` 2 →
  0 ≤ n ≤ DefaultWindowSize →
  ch' = with_unacked ch (ch_unacked ch') ∧ ch_unacked ch' + adjust = ch_unacked ch + n ∧
  0 ≤ ch_unacked ch' < DefaultWindowSize `div` 2 ∧ 0 ≤ adjust.
Proof.
  change (DefaultWindowSize `div` 2) with 16384. unfold DefaultWindowSize. intros H Hu Hn.
  unfold takeAdjust in H. change (DefaultWindowSize `div` 2) with 16384 in H.
  unfold u32_max in H. case_bool_decide; injection H as <- <-; cbn -[Z.min]; split_and!;
    auto; try lia.
Qed.

(** Delivering what the device may send is never refused. *)
Lemma flow_inv_deliver f data :
  flow_inv f → blen data ≤ fl_credit f → ∃ ch' adjust, deliver (fl_ch f) data = (ch', Ok adjust).
Proof.
  intros (He & Hu & Hc & Hc0 & _) Hd. unfold deliver.
  destruct (ch_discard (fl_ch f)); [destruct (takeAdjust _ _); eauto|]. rewrite He.
  rewrite bool_decide_false by lia. eauto.
Qed.

Lemma flow_inv_init ch : fresh_channel ch → flow_inv (flow_init ch).
Proof.
  intros (Hi & Hu & He). unfold flow_inv, flow_init; cbn -[Z.div]. rewrite Hi, Hu, He.
  by split_and!.
Qed.

Lemma flow_inv_deliver_step ch ch' credit i o data adjust :
  flow_inv (mk_flow ch credit i o) → blen data ≤ credit → deliver ch data = (ch', Ok adjust) →
  flow_inv (mk_flow ch' (credit - blen data + adjust) (i ++ data) o).
Proof.
  intros (He & Hu & Hc & Hc0 & Hin & Hd) Hcr Hdel; cbn -[Z.div] in *.
  pose proof (blen_nonneg data). pose proof (blen_nonneg (ch_inbox ch)).
  unfold deliver in Hdel. destruct (ch_discard ch) eqn:Edisc.
  - destruct (takeAdjust ch (blen data)) as [c a] eqn:Et. injection Hdel as <- <-.
    apply takeAdjust_spec in Et as (-> & Hsum & Hu' & Ha); [|done|lia].
    specialize (Hd eq_refl). rewrite Hd, ?blen_nil in *.
    cbn -[Z.div] in *. split_and!; auto; cbn -[Z.div]; try lia; rewrite ?Hd, ?blen_nil; try lia.
    by rewrite Edisc.
  - rewrite He in Hdel. case_bool_decide; [done|]. injection Hdel as <- <-.
    unfold flow_inv; cbn -[Z.div]. rewrite blen_app. split_and!; auto; try lia.
    + intros _. by rewrite Hin, (assoc_L (++)).
    + congruence.
Qed.

Lemma flow_inv_read_step ch ch' credit i o n data adjust :
  flow_inv (mk_flow ch credit i o) → chan_read ch n = (ch', ReadData data adjust) →
  flow_inv (mk_flow ch' (credit + adjust) i (o ++ data)).
Proof.
  intros (He & Hu & Hc & Hc0 & Hin & Hd) Hr; cbn -[Z.div] in *.
  unfold chan_read in Hr. destruct (ch_inbox ch) as [|b l] eqn:Ei; [by rewrite He in Hr|].
  rewrite He in Hr.
  pose proof (blen_nonneg (drop n (b :: l))). pose proof (blen_nonneg (take n (b :: l))).
  assert (blen (b :: l) = blen (take n (b :: l)) + blen (drop n (b :: l))) as Hlen
    by (by rewrite <- blen_app, take_drop).
  destruct (takeAdjust _ _) as [c a] eqn:Et. injection Hr as <- <- <-.
  apply takeAdjust_spec in Et as (-> & Hsum & Hu' & Ha); [|done|lia].
  unfold flow_inv; cbn -[Z.div take drop] in *. split_and!; auto; try lia.
  - intros Hnd. rewrite Hin by done. by rewrite <- (assoc_L (++)), take_drop.
  - intros Hdisc. specialize (Hd Hdisc). done.
Qed.

Lemma flow_inv_reachable f g : flow_inv f → rtc flow_step f g → flow_inv g.
Proof.
  intros Hf. induction 1 as [|f h g Hs _ IH]; [done|]. apply IH. destruct Hs.
  - by eapply flow_inv_deliver_step.
  - by eapply flow_inv_read_step.
Qed.

(** ** Packets *)

Definition data_frame (remote : Z) (packet : bytes) : bytes :=
  byte_of_Z APFChannelData :: be32 remote ++ be32 (blen packet) ++ packet.

Lemma data_frame_is_frame remote packet :
  is_u32 remote → blen packet ≤ DefaultMaxPacketSize →
  is_frame (data_frame remote packet) APFChannelData (be32 remote ++ be32 (blen packet) ++ packet).
Proof.
  intros Hr Hp.
  destruct (sends_channel_data witness_conn remote packet) as (fr & Heq & Hf).
  - by intros ?.
  - done.
  - unfold maxChannelData, DefaultMaxPacketSize in *. lia.
  - unfold WriteChannelData in Heq. rewrite bool_decide_false in Heq
      by (unfold maxAPFPayload, DefaultMaxPacketSize in *; lia).
    cbn -[be32 byte_of_Z app] in Heq. injection Heq as Heq. by rewrite <- Heq in Hf.
Qed.

Definition packet_ok (packet : bytes) : Prop := 0 < blen packet ≤ DefaultMaxPacketSize.

(** What [n] bytes of [p] written as packets, and then perhaps a torn frame,
    leave on the wire. *)
Definition wrote (w w' : netconn) (remote : Z) (p : bytes) (n m : Z) (torn : bytes) : Prop :=
  ∃ packets, concat packets = take (Z.to_nat (m - n)) (drop (Z.to_nat n) p) ∧
    Forall packet_ok packets ∧
    nc_sent w' = nc_sent w ++ concat (data_frame remote <$> packets) ++ torn.

Lemma chan_write_loop_spec fuel w chs i p n remote :
  (length p < Z.to_nat n + fuel)%nat → 0 ≤ n ≤ blen p → (∀ j, ch_RemoteID (chs j) = remote) →
  ∃ w' m err torn, chan_write_loop fuel w chs i p n = Some (w', m, err) ∧ n ≤ m ≤ blen p ∧
    wrote w w' remote p n m torn ∧ (err = None → m = blen p ∧ torn = []) ∧
    (sound_conn w → (∀ j, chan_ended (chs j) = None) → err = None ∧ sound_conn w').
Proof.
  intros Hf Hn Hr. revert w i n Hf Hn. induction fuel as [|fuel IH]; intros w i n Hf Hn.
  { unfold blen in Hn. lia. }
  assert (∀ n, wrote w w remote p n n []) as Hnone.
  { intros k. exists []. rewrite Z.sub_diag. split_and!; [done|constructor|].
    by rewrite app_nil_r. }
  cbn -[DefaultMaxPacketSize Z.min]. case_bool_decide as Hlt.
  2: { exists w, n, None, []. split_and!; auto; try lia. split; [lia | done]. }
  destruct (chan_ended (chs i)) as [e|] eqn:He.
  { exists w, n, (Some (WEnded e)), []. split_and!; auto; try lia; [done|].
    intros _ Hopen. by rewrite Hopen in He. }
  set (stop := Z.min (n + DefaultMaxPacketSize) (blen p)).
  set (packet := take (Z.to_nat (stop - n)) (drop (Z.to_nat n) p)).
  assert (n < stop ≤ blen p ∧ stop ≤ n + DefaultMaxPacketSize) as Hstop
    by (unfold stop, DefaultMaxPacketSize; lia).
  assert (blen packet = stop - n) as Hlen.
  { unfold packet, blen in *. rewrite length_take, length_drop. lia. }
  unfold WriteChannelData. rewrite bool_decide_false
    by (rewrite Hlen; unfold maxAPFPayload, DefaultMaxPacketSize in *; lia).
  rewrite Hr. fold (data_frame remote packet). unfold net_write.
  destruct (nc_fault w (nc_writes w)) as [[k e]|] eqn:Ef; cbn -[take].
  - eexists _, n, _, (take k (data_frame remote packet)). split_and!; [done|lia..| |done|].
    + exists []. rewrite Z.sub_diag. split_and!; [done|constructor|done].
    + intros Hs. by rewrite Hs in Ef.
  - set (w1 := mk_netconn _ _ _ _).
    destruct (IH w1 (S i) stop) as (w' & m & err & torn & -> & Hm & Hw & Herr & Hsound);
      [lia..|].
    exists w', m, err, torn. split_and!; auto; [lia.. |].
    destruct Hw as (packets & Hc & Hok & Hsent). exists (packet :: packets). split_and!.
    + cbn. rewrite Hc. unfold packet.
      rewrite <- (take_drop (Z.to_nat (stop - n)) (take (Z.to_nat (m - n)) (drop (Z.to_nat n) p))).
      rewrite take_take, Nat.min_l by lia. f_equal.
      rewrite skipn_firstn_comm, drop_drop. f_equal; [|f_equal]; lia.
    + constructor; [|done]. unfold packet_ok. lia.
    + rewrite Hsent. unfold w1. cbn. by rewrite <- !(assoc_L (++)).
Qed.

Lemma chan_write_terminates w chs p remote :
  (∀ j, ch_RemoteID (chs j) = remote) →
  ∃ w' m err torn, chan_write w chs p = Some (w', m, err) ∧ 0 ≤ m ≤ blen p ∧
    wrote w w' remote p 0 m torn ∧ (err = None → m = blen p ∧ torn = []) ∧
    (sound_conn w → (∀ j, chan_ended (chs j) = None) → err = None ∧ sound_conn w').
Proof.
  intros Hr. pose proof (blen_nonneg p).
  apply chan_write_loop_spec; [lia | lia | done].
Qed.

(** ** Claims *)

(** Flow control is sound.  As long as the device sends no more than the
    window it was given, delivering its data on a channel of either kind is
    never refused for exceeding the window; the bytes the application has read
    and the bytes still buffered are exactly the bytes delivered, in order; and
    a device is never starved: with nothing left to read it may send more than
    half a window. *)
Theorem window_flow_sound ch f data :
  fresh_channel ch → rtc flow_step (flow_init ch) f → blen data ≤ fl_credit f →
  (∃ ch' adjust, deliver (fl_ch f) data = (ch', Ok adjust)) ∧
  (ch_discard (fl_ch f) = false → fl_in f = fl_out f ++ ch_inbox (fl_ch f)) ∧
  (ch_inbox (fl_ch f) = [] → DefaultWindowSize `div` 2 < fl_credit f) ∧
  blen (ch_inbox (fl_ch f)) ≤ DefaultWindowSize.
Proof.
  intros Hfresh Hreach Hd.
  pose proof (flow_inv_reachable _ _ (flow_inv_init _ Hfresh) Hreach) as Hinv.
  split; [by apply flow_inv_deliver|].
  destruct Hinv as (_ & Hu & Hc & Hc0 & Hin & _). split_and!; [done| |lia].
  intros Hempty. rewrite Hempty, blen_nil in Hc.
  change (DefaultWindowSize `div` 2) with 16384 in *. unfold DefaultWindowSize in *. lia.
Qed.

Lemma window_flow_sound_witness :
  let ch := newChannel 0 5 (lit "direct-tcpip") 32768 in
  (∃ ch' adjust, deliver ch [x01; x02] = (ch', Ok adjust)) ∧
  (ch_discard ch = false → [] = [] ++ ch_inbox ch) ∧
  (ch_inbox ch = [] → DefaultWindowSize `div` 2 < DefaultWindowSize) ∧
  blen (ch_inbox ch) ≤ DefaultWindowSize.
Proof.
  intros ch. apply (window_flow_sound ch (flow_init ch) [x01; x02]).
  - repeat split.
  - constructor.
  - vm_compute. discriminate.
Defined.

(** [Write] always returns, and sends exactly what it reports.  Whatever
    fails or ends meanwhile, the packets on the wire carry, in order and each at
    most 32 KiB, exactly the prefix of [p] it counted as written (a torn frame
    can follow only with an error); on an open channel over a working
    connection it writes all of [p]. *)
Theorem chan_write_exact w chs p remote :
  (∀ j, ch_RemoteID (chs j) = remote) →
  ∃ w' n err packets torn,
    chan_write w chs p = Some (w', n, err) ∧ 0 ≤ n ≤ blen p ∧
    concat packets = take (Z.to_nat n) p ∧ Forall packet_ok packets ∧
    nc_sent w' = nc_sent w ++ concat (data_frame remote <$> packets) ++ torn ∧
    (err = None → n = blen p ∧ torn = []) ∧
    (sound_conn w → (∀ j, chan_ended (chs j) = None) → err = None).
Proof.
  intros Hr. destruct (chan_write_terminates w chs p remote Hr)
    as (w' & n & err & torn & Hw & Hn & (packets & Hc & Hok & Hs) & Herr & Hsound).
  exists w', n, err, packets, torn. rewrite Z.sub_0_r in Hc. split_and!; auto; try lia.
  intros. by apply Hsound.
Qed.

Lemma chan_write_exact_witness :
  let ch := newChannel 0 5 (lit "direct-tcpip") 32768 in
  ∃ w' n err packets torn,
    chan_write witness_conn (λ _, ch) [x01; x02; x03] = Some (w', n, err) ∧ 0 ≤ n ≤ 3 ∧
    concat packets = take (Z.to_nat n) [x01; x02; x03] ∧ Forall packet_ok packets ∧
    nc_sent w' = nc_sent witness_conn ++ concat (data_frame 5 <$> packets) ++ torn ∧
    (err = None → n = 3 ∧ torn = []) ∧
    (sound_conn witness_conn → (∀ j : nat, chan_ended ch = None) → err = None).
Proof.
  intros ch. apply (chan_write_exact witness_conn (λ _, ch) [x01; x02; x03] 5).
  reflexivity.
Defined.

(** [Write] does not consult the device's window.  A channel whose send
    credits are spent ([sendWindow = 0]) still sends every byte of [p]: the
    credits that window adjusts add up are read by nothing. *)
Theorem chan_write_ignores_window ch p :
  ch_err ch = None → ch_sendWindow ch = 0 →
  ∃ w' packets,
    chan_write witness_conn (λ _, ch) p = Some (w', blen p, None) ∧
    concat packets = p ∧ nc_sent w' = concat (data_frame (ch_RemoteID ch) <$> packets).
Proof.
  intros He _. destruct (chan_write_terminates witness_conn (λ _, ch) p (ch_RemoteID ch))
    as (w' & n & err & torn & Hw & Hn & (packets & Hc & _ & Hs) & Herr & Hsound); [done|].
  destruct Hsound as [-> _]; [by intros ? | by intros; unfold chan_ended; rewrite He|].
  destruct (Herr eq_refl) as [-> ->]. exists w', packets. split_and!; auto.
  - rewrite Hc, Z.sub_0_r. cbn. unfold blen. by rewrite Nat2Z.id, take_ge.
  - rewrite Hs. cbn. by rewrite app_nil_r.
Qed.

Lemma chan_write_ignores_window_witness :
  let ch := newChannel 0 5 (lit "direct-tcpip") 0 in
  ∃ w' packets,
    chan_write witness_conn (λ _, ch) [x01] = Some (w', 1, None) ∧
    concat packets = [x01] ∧ nc_sent w' = concat (data_frame 5 <$> packets).
Proof.
  intros ch. apply (chan_write_ignores_window ch [x01]); reflexivity.
Defined.

(** A channel ends once and is drained afterwards.  The first [end] fixes
    the reason, every later one is refused without changing the channel; then
    writes fail with [net.ErrClosed], and reads hand out what was buffered
    without reopening the window before they report the reason. *)
Theorem chan_end_once ch e e' n :
  ch_err ch = None →
  let ch1 := (chan_end ch e).1 in
  chan_end ch e = (ch1, true) ∧ chan_end ch1 e' = (ch1, false) ∧
  chan_ended ch1 = Some ChClosed ∧ ch_inbox ch1 = ch_inbox ch ∧
  match ch_inbox ch with
  | [] => chan_read ch1 n = (ch1, ReadErr e)
  | _ :: _ => ∃ ch2, chan_read ch1 n = (ch2, ReadData (take n (ch_inbox ch)) 0) ∧
                     ch_inbox ch2 = drop n (ch_inbox ch) ∧ ch_err ch2 = Some e
  end.
Proof.
  intros He. unfold chan_end, chan_ended, chan_read. rewrite He. cbn.
  split_and!; auto. destruct (ch_inbox ch); [done|]. by eexists.
Qed.

Lemma chan_end_once_witness :
  let ch := newChannel 0 5 (lit "direct-tcpip") 0 in
  chan_read (chan_end ch ChEOF).1 4 = ((chan_end ch ChEOF).1, ReadErr ChEOF).
Proof.
  intros ch. refine (proj2 (proj2 (proj2 (proj2 (chan_end_once ch ChEOF ChClosed 4 _))))).
  reflexivity.
Defined.
