(* ===== verification/Mps.v ===== *)
(** * CIRA connections of the AMT presence server

    [src/server/internal/amt/transport/mps_conn.go], [mps_handlers.go],
    [mps_handshake.go] and the registration part of [mps.go].

    Channels are pointers shared between the connection's map and the callers
    of [OpenChannel], so they live in a heap [cn_heap] and the map holds their
    locations; a Go map field that [Close] sets to nil is an [option].  Reply
    channels have capacity one: [cn_replies] is each one's buffer, and sending
    on a full one is the outcome [HBlocked]. *)
From S2P Require Import Prelude Io Apf Channel.

Inductive open_err :=
  | OClosed                      (* net.ErrClosed *)
  | ORejected (reason : Z)
  | OTimedOut                    (* errOpenTimedOut *)
  | OCtx                         (* ctx.Err() *)
  | OWrite (e : apf_err).

Inductive openReply :=
  | ReplyChannel (loc : nat)
  | ReplyErr (e : open_err).

#[global] Instance open_err_eq_dec : EqDecision open_err.
Proof. solve_decision. Defined.
#[global] Instance openReply_eq_dec : EqDecision openReply.
Proof. solve_decision. Defined.

Record Conn := mk_conn {
  cn_BoundPorts : list (bytes * Z);
  cn_net : netconn;
  cn_heap : gmap nat Channel;
  cn_fresh : nat;                             (* next free location *)
  cn_channels : option (gmap Z nat);
  cn_opening : option (gmap Z nat);
  cn_replies : gmap nat (option openReply);
  cn_closed : bool;
  cn_nextChanID : Z;
}.

Definition set_net (c : Conn) (w : netconn) : Conn :=
  mk_conn (cn_BoundPorts c) w (cn_heap c) (cn_fresh c) (cn_channels c) (cn_opening c)
    (cn_replies c) (cn_closed c) (cn_nextChanID c).
Definition set_ports (c : Conn) (ps : list (bytes * Z)) : Conn :=
  mk_conn ps (cn_net c) (cn_heap c) (cn_fresh c) (cn_channels c) (cn_opening c)
    (cn_replies c) (cn_closed c) (cn_nextChanID c).
Definition set_heap (c : Conn) (h : gmap nat Channel) : Conn :=
  mk_conn (cn_BoundPorts c) (cn_net c) h (cn_fresh c) (cn_channels c) (cn_opening c)
    (cn_replies c) (cn_closed c) (cn_nextChanID c).
Definition set_channels (c : Conn) (m : option (gmap Z nat)) : Conn :=
  mk_conn (cn_BoundPorts c) (cn_net c) (cn_heap c) (cn_fresh c) m (cn_opening c)
    (cn_replies c) (cn_closed c) (cn_nextChanID c).
Definition set_opening (c : Conn) (m : option (gmap Z nat)) : Conn :=
  mk_conn (cn_BoundPorts c) (cn_net c) (cn_heap c) (cn_fresh c) (cn_channels c) m
    (cn_replies c) (cn_closed c) (cn_nextChanID c).
Definition set_replies (c : Conn) (m : gmap nat (option openReply)) : Conn :=
  mk_conn (cn_BoundPorts c) (cn_net c) (cn_heap c) (cn_fresh c) (cn_channels c) (cn_opening c)
    m (cn_closed c) (cn_nextChanID c).

(** [handleConn]'s [&Conn{...}]: the channel map made, the opening map nil. *)
Definition new_conn (w : netconn) : Conn := mk_conn [] w ∅ 0 (Some ∅) None ∅ false 0.

Inductive handler_err :=
  | HApf (e : apf_err)
  | HEOF                         (* io.EOF: clean disconnect *)
  | HPanic                       (* assignment to an entry of a nil map *)
  | HBlocked.                    (* send on a full reply channel *)

(** ** Channels of a connection *)

(** [channel]: reading a nil map finds nothing. *)
Definition conn_channel (c : Conn) (localCh : Z) : option (nat * Channel) :=
  loc ← cn_channels c ≫= (.!! localCh);
  ch ← cn_heap c !! loc;
  Some (loc, ch).

Definition forget (c : Conn) (localCh : Z) : Conn :=
  set_channels c (delete localCh <$> cn_channels c).

Definition upd_chan (c : Conn) (loc : nat) (ch : Channel) : Conn :=
  set_heap c (<[loc := ch]> (cn_heap c)).

Definition conn_write (c : Conn) (f : netconn → netconn * option apf_err) :
    Conn * option handler_err :=
  let '(w, e) := f (cn_net c) in (set_net c w, HApf <$> e).

(** Sending on a reply channel of capacity one. *)
Definition send_reply (c : Conn) (rid : nat) (r : openReply) : Conn * option handler_err :=
  match cn_replies c !! rid with
  | Some None => (set_replies c (<[rid := Some r]> (cn_replies c)), None)
  | _ => (c, Some HBlocked)
  end.

(** [Channel.Close]: ends the channel, forgets it, tells the device. *)
Definition Channel_Close (c : Conn) (loc : nat) : Conn * option handler_err :=
  match cn_heap c !! loc with
  | None => (c, Some HPanic)
  | Some ch =>
      match chan_end ch ChClosed with
      | (_, false) => (c, None)
      | (ch, true) =>
          conn_write (forget (upd_chan c loc ch) (ch_LocalID ch))
            (λ w, WriteChannelClose w (ch_RemoteID ch))
      end
  end.

(** ** Opening a channel *)

(** The first critical section of [OpenChannel]: an id and a reply channel. *)
Definition open_begin (c : Conn) : result open_err (Conn * Z * nat) :=
  if cn_closed c then Err OClosed else
  let localCh := cn_nextChanID c in
  let rid := cn_fresh c in
  let opening := default ∅ (cn_opening c) in
  Ok (mk_conn (cn_BoundPorts c) (cn_net c) (cn_heap c) (S rid) (cn_channels c)
        (Some (<[localCh := rid]> opening)) (<[rid := None]> (cn_replies c)) (cn_closed c)
        (u32 (localCh + 1)), localCh, rid).

(** [abandonOpen]'s critical section, its poll of the reply channel with the
    channel it finds there, and the close of that channel. *)
Definition abandon_delete (c : Conn) (localCh : Z) : Conn :=
  set_opening c (delete localCh <$> cn_opening c).

Definition poll_reply (c : Conn) (rid : nat) : Conn * option nat :=
  match cn_replies c !! rid with
  | Some (Some r) =>
      (set_replies c (<[rid := None]> (cn_replies c)),
       match r with ReplyChannel loc => Some loc | ReplyErr _ => None end)
  | _ => (c, None)
  end.

Definition abandon_poll (c : Conn) (rid : nat) : Conn :=
  match poll_reply c rid with
  | (c, Some loc) => (Channel_Close c loc).1
  | (c, None) => c
  end.

Definition abandonOpen (c : Conn) (localCh : Z) (rid : nat) : Conn :=
  abandon_poll (abandon_delete c localCh) rid.

(** [OpenChannel] up to the wait: the open message is on the wire, or the open
    is abandoned with the write error. *)
Definition open_send (c : Conn) (addr : bytes) (port : Z) : Conn * result open_err (Z * nat) :=
  match open_begin c with
  | Err e => (c, Err e)
  | Ok (c, localCh, rid) =>
      match writeChannelOpenDirect (cn_net c) localCh addr port with
      | (w, None) => (set_net c w, Ok (localCh, rid))
      | (w, Some e) => (abandonOpen (set_net c w) localCh rid, Err (OWrite e))
      end
  end.

(** The [select] after it: the reply, the context or the timer. *)
Inductive wait_event := WReply | WCtx | WTimer.

Definition open_wait (c : Conn) (localCh : Z) (rid : nat) (ev : wait_event) :
    Conn * option (result open_err nat) :=
  match ev with
  | WReply =>
      match cn_replies c !! rid with
      | Some (Some r) =>
          (set_replies c (<[rid := None]> (cn_replies c)),
           Some (match r with ReplyChannel loc => Ok loc | ReplyErr e => Err e end))
      | _ => (c, None)          (* not ready *)
      end
  | WCtx => (abandonOpen c localCh rid, Some (Err OCtx))
  | WTimer => (abandonOpen c localCh rid, Some (Err OTimedOut))
  end.

Inductive confirm_action :=
  | CloseIt (remoteCh : Z)
  | ReplyWith (rid : nat) (r : openReply).

(** [confirmOpen]'s critical section. *)
Definition confirm_lock (c : Conn) (payload : bytes) :
    result handler_err (Conn * confirm_action) :=
  if bool_decide (blen payload < 12) then Err (HApf ErrMessageTooShort) else
  match uint32_at payload 0, uint32_at payload 4, uint32_at payload 8 with
  | Ok localCh, Ok remoteCh, Ok window =>
      let waiting := cn_opening c ≫= (.!! localCh) in
      let c := set_opening c (delete localCh <$> cn_opening c) in
      match waiting with
      | None => Ok (c, CloseIt remoteCh)
      | Some rid =>
          match cn_channels c with
          | None => Err HPanic
          | Some m =>
              let loc := cn_fresh c in
              let ch := newChannel localCh remoteCh (lit "direct-tcpip") window in
              Ok (mk_conn (cn_BoundPorts c) (cn_net c) (<[loc := ch]> (cn_heap c)) (S loc)
                    (Some (<[localCh := loc]> m)) (cn_opening c) (cn_replies c) (cn_closed c)
                    (cn_nextChanID c), ReplyWith rid (ReplyChannel loc))
          end
      end
  | _, _, _ => Err HPanic
  end.

Definition run_action (c : Conn) (a : confirm_action) : Conn * option handler_err :=
  match a with
  | CloseIt remoteCh => conn_write c (λ w, WriteChannelClose w remoteCh)
  | ReplyWith rid r => send_reply c rid r
  end.

Definition confirmOpen (c : Conn) (payload : bytes) : Conn * option handler_err :=
  match confirm_lock c payload with
  | Err e => (c, Some e)
  | Ok (c, a) => run_action c a
  end.

(** [refuseOpen]'s critical section. *)
Definition refuse_lock (c : Conn) (payload : bytes) :
    result handler_err (Conn * option (nat * openReply)) :=
  if bool_decide (blen payload < 8) then Err (HApf ErrMessageTooShort) else
  match uint32_at payload 0, uint32_at payload 4 with
  | Ok localCh, Ok reason =>
      let waiting := cn_opening c ≫= (.!! localCh) in
      Ok (set_opening c (delete localCh <$> cn_opening c),
          (λ rid, (rid, ReplyErr (ORejected reason))) <$> waiting)
  | _, _ => Err HPanic
  end.

Definition refuseOpen (c : Conn) (payload : bytes) : Conn * option handler_err :=
  match refuse_lock c payload with
  | Err e => (c, Some e)
  | Ok (c, None) => (c, None)
  | Ok (c, Some (rid, r)) => send_reply c rid r
  end.

(** [Conn.Close]: the critical section, then every channel ended and every
    waiting open answered.  The sends are left to [close_sends]. *)
Definition close_lock (c : Conn) : Conn * list nat * list nat :=
  (mk_conn (cn_BoundPorts c) (cn_net c) (cn_heap c) (cn_fresh c) None None (cn_replies c) true
     (cn_nextChanID c),
   snd <$> map_to_list (default ∅ (cn_channels c)),
   snd <$> map_to_list (default ∅ (cn_opening c))).

Definition end_all (c : Conn) (locs : list nat) : Conn :=
  foldr (λ loc c, match cn_heap c !! loc with
                  | Some ch => upd_chan c loc (chan_end ch ChClosed).1
                  | None => c
                  end) c locs.

Definition close_sends (c : Conn) (rids : list nat) : Conn * option handler_err :=
  foldr (λ rid ce, match ce with
                   | (c, None) => send_reply c rid (ReplyErr OClosed)
                   | (c, Some e) => (c, Some e)
                   end) (c, None) rids.

Definition Conn_Close (c : Conn) : Conn * option handler_err :=
  let '(c, chans, rids) := close_lock c in close_sends (end_all c chans) rids.

(** ** Message handlers *)

Definition recordBoundPort (c : Conn) (gr : GlobalRequest) : Conn :=
  if bool_decide (gr_RequestName gr ≠ lit "tcpip-forward" ∨ gr_Data gr = []) then c else
  match ParseForwardData (gr_Data gr) with
  | Err _ => c
  | Ok (addr, port) => set_ports c (cn_BoundPorts c ++ [(addr, port)])
  end.

Definition handleWindowAdj (c : Conn) (payload : bytes) : Conn * option handler_err :=
  if bool_decide (blen payload < 8) then (c, Some (HApf ErrMessageTooShort)) else
  match uint32_at payload 0, uint32_at payload 4 with
  | Ok recipientCh, Ok bytesToAdd =>
      match conn_channel c recipientCh with
      | Some (loc, ch) => (upd_chan c loc (add_window ch bytesToAdd), None)
      | None => (c, None)
      end
  | _, _ => (c, Some (HApf Panic))
  end.

(** [handleChannelOpen]'s critical section; the write to a nil map panics. *)
Definition accept_lock (c : Conn) (co : ChannelOpen) : result handler_err (Conn * Z) :=
  match cn_channels c with
  | None => Err HPanic
  | Some m =>
      let localCh := cn_nextChanID c in
      let loc := cn_fresh c in
      let ch := with_discard (newChannel localCh (co_SenderChannel co) (co_ChannelType co)
                                (co_InitialWindowSz co)) in
      Ok (mk_conn (cn_BoundPorts c) (cn_net c) (<[loc := ch]> (cn_heap c)) (S loc)
            (Some (<[localCh := loc]> m)) (cn_opening c) (cn_replies c) (cn_closed c)
            (u32 (localCh + 1)), localCh)
  end.

Definition handleChannelOpen (c : Conn) (payload : bytes) : Conn * option handler_err :=
  match ParseChannelOpen payload with
  | Err e => (c, Some (HApf e))
  | Ok co =>
      match accept_lock c co with
      | Err e => (c, Some e)
      | Ok (c, localCh) =>
          conn_write c (λ w, WriteChannelOpenConfirm w (co_SenderChannel co) localCh
                               DefaultWindowSize DefaultMaxPacketSize)
      end
  end.

Definition handleChannelData (c : Conn) (payload : bytes) : Conn * option handler_err :=
  match ParseChannelData payload with
  | Err e => (c, Some (HApf e))
  | Ok cd =>
      match conn_channel c (cd_RecipientChannel cd) with
      | None => (c, None)
      | Some (loc, ch) =>
          match deliver ch (cd_Data cd) with
          | (ch, Err e) =>
              let ch := (chan_end ch e).1 in
              conn_write (forget (upd_chan c loc ch) (ch_LocalID ch))
                (λ w, WriteChannelClose w (ch_RemoteID ch))
          | (ch, Ok adjust) =>
              let c := upd_chan c loc ch in
              if bool_decide (0 < adjust)
              then conn_write c (λ w, WriteChannelWindowAdj w (ch_RemoteID ch) adjust)
              else (c, None)
          end
      end
  end.

Definition handleChannelClose (c : Conn) (localCh : Z) : Conn * option handler_err :=
  match conn_channel c localCh with
  | None => (c, None)
  | Some (loc, ch) =>
      let c := forget c localCh in
      let ch := (chan_end ch ChEOF).1 in
      conn_write (upd_chan c loc ch) (λ w, WriteChannelClose w (ch_RemoteID ch))
  end.

Definition handleMessage (c : Conn) (msgType : Z) (payload : bytes) :
    Conn * option handler_err :=
  if bool_decide (msgType = APFGlobalRequest) then
    match ParseGlobalRequest payload with
    | Err e => (c, Some (HApf e))
    | Ok gr =>
        let c := recordBoundPort c gr in
        if gr_WantReply gr then conn_write c WriteRequestSuccess else (c, None)
    end
  else if bool_decide (msgType = APFChannelOpen) then handleChannelOpen c payload
  else if bool_decide (msgType = APFChannelOpenConfirm) then confirmOpen c payload
  else if bool_decide (msgType = APFChannelOpenFailure) then refuseOpen c payload
  else if bool_decide (msgType = APFChannelData) then handleChannelData c payload
  else if bool_decide (msgType = APFChannelClose) then
    if bool_decide (blen payload < 4) then (c, Some (HApf ErrMessageTooShort)) else
    match Uint32 payload with
    | Ok ch => handleChannelClose c ch
    | Err e => (c, Some (HApf e))
    end
  else if bool_decide (msgType = APFChannelWindowAdj) then handleWindowAdj c payload
  else if bool_decide (msgType = APFKeepaliveRequest) then
    match ParseKeepaliveRequest payload with
    | Err e => (c, Some (HApf e))
    | Ok ka => conn_write c (λ w, WriteKeepaliveReply w (ka_Cookie ka))
    end
  else if bool_decide (msgType = APFKeepaliveReply) then (c, None)
  else if bool_decide (msgType = APFKeepaliveOptionsReply) then (c, None)
  else if bool_decide (msgType = APFDisconnect) then (c, Some HEOF)
  else (c, None).

(** [messageLoop]: [fuel] messages at most; the context never ends first.  The
    third component is how many messages were handled without an error. *)
Inductive loop_end :=
  | LoopRead (e : apf_err)
  | LoopHandler (e : handler_err)
  | LoopFuel.

Fixpoint messageLoop (fuel : nat) (c : Conn) : Conn * loop_end :=
  match fuel with
  | O => (c, LoopFuel)
  | S fuel =>
      match ReadMessage (nc_in (cn_net c)) with
      | Err e => (c, LoopRead e)
      | Ok (t, payload, r) =>
          match handleMessage (set_net c (set_in (cn_net c) r)) t payload with
          | (c, Some e) => (c, LoopHandler e)
          | (c, None) => messageLoop fuel c
          end
      end
  end.

(** ** Handshake: a state and error monad over the connection *)

Inductive hs_err :=
  | HSApf (e : apf_err)
  | HSDeadline (e : io_err)
  | HSUnexpectedType (t : Z)
  | HSWrongService (name : bytes).

Definition connM (A : Type) : Type := Conn → Conn * result hs_err A.

#[global] Instance connM_ret : MRet connM := λ A a c, (c, Ok a).
#[global] Instance connM_bind : MBind connM := λ A B f m c,
  match m c with
  | (c, Ok a) => f a c
  | (c, Err e) => (c, Err e)
  end.

Definition hs_fail {A} (e : hs_err) : connM A := λ c, (c, Err e).
Definition hs_lift {A} (r : result apf_err A) : connM A :=
  λ c, (c, match r with Ok a => Ok a | Err e => Err (HSApf e) end).
Definition hs_read : connM (Z * bytes) := λ c,
  match ReadMessage (nc_in (cn_net c)) with
  | Ok (t, p, r) => (set_net c (set_in (cn_net c) r), Ok (t, p))
  | Err e => (c, Err (HSApf e))
  end.
Definition hs_write (f : netconn → netconn * option apf_err) : connM unit := λ c,
  let '(w, e) := f (cn_net c) in
  (set_net c w, match e with None => Ok tt | Some e => Err (HSApf e) end).
Definition hs_expect (expected : Z) : connM bytes :=
  '(t, payload) ← hs_read;
  if bool_decide (t = expected) then mret payload else hs_fail (HSUnexpectedType t).

Definition expectServiceRequest (expected : bytes) : connM unit :=
  payload ← hs_expect APFServiceRequest;
  sr ← hs_lift (ParseServiceRequest payload);
  if bool_decide (sr_ServiceName sr = expected)
  then hs_write (λ w, WriteServiceAccept w expected)
  else hs_fail (HSWrongService (sr_ServiceName sr)).

Definition hsExchangeVersion : connM bytes :=
  payload ← hs_expect APFProtocolVersion;
  pv ← hs_lift (ParseProtocolVersion payload);
  _ ← hs_write (λ w, WriteProtocolVersion w 1 0 0);
  mret (ReorderIntelGUID (pv_UUID pv)).

Definition hsAuthService : connM unit :=
  _ ← expectServiceRequest ServiceAuth;
  payload ← hs_expect APFUserAuthRequest;
  _ ← hs_lift (ParseUserAuthRequest payload);
  hs_write WriteUserAuthSuccess.

(** The end of [hsPfwdService], the branch [handleMessage] has too. *)
Definition hs_reply (gr : GlobalRequest) : connM unit := λ c,
  let c := recordBoundPort c gr in
  if gr_WantReply gr then hs_write WriteRequestSuccess c else (c, Ok tt).

Definition hsPfwdService : connM unit :=
  _ ← expectServiceRequest ServicePFwd;
  payload ← hs_expect APFGlobalRequest;
  gr ← hs_lift (ParseGlobalRequest payload);
  hs_reply gr.

(** [handshake]: [deadline] is the error of the first [SetDeadline], if any. *)
Definition handshake (deadline : option io_err) : connM bytes :=
  match deadline with
  | Some e => hs_fail (HSDeadline e)
  | None =>
      amtUUID ← hsExchangeVersion;
      _ ← hsAuthService;
      _ ← hsPfwdService;
      mret amtUUID
  end.

(** ** Registration: the server's connections by AMT UUID

    A connection is a handle; what the database stores of it is whether its
    row is online. *)

Record Server := mk_server {
  sv_conns : gmap Z nat;         (* sync.Map: UUID to connection *)
  sv_count : Z;
  sv_linked : gmap nat (Z * Z);  (* connection to device and tenant *)
  sv_online : gmap Z bool;       (* AMT device rows *)
}.

Section registration.
(** [ResolveBySystemUUID] and whether the [Upsert] succeeds: the database. *)
Context (resolve : Z → option (Z * Z)) (upsert_ok : Z → bool) (set_status_ok : Z → bool).

(** [linked]: the device id of a linked connection is not [uuid.Nil]. *)
Definition linked (s : Server) (mc : nat) : bool :=
  match sv_linked s !! mc with
  | Some (deviceID, _) => bool_decide (deviceID ≠ 0)
  | None => false
  end.

Definition linkConn (s : Server) (mc : nat) (amtUUID : Z) : Server * bool :=
  if linked s mc then (s, true) else
  match resolve amtUUID with
  | None => (s, false)
  | Some (deviceID, tenantID) =>
      if upsert_ok amtUUID
      then (mk_server (sv_conns s) (sv_count s) (<[mc := (deviceID, tenantID)]> (sv_linked s))
              (<[amtUUID := true]> (sv_online s)), true)
      else (s, false)
  end.

Definition registerConn (s : Server) (mc : nat) (amtUUID : Z) : Server :=
  (linkConn (mk_server (<[amtUUID := mc]> (sv_conns s)) (sv_count s + 1) (sv_linked s)
               (sv_online s)) mc amtUUID).1.

Definition unregisterConn (s : Server) (mc : nat) (amtUUID : Z) : Server :=
  mk_server (delete amtUUID (sv_conns s)) (sv_count s - 1) (sv_linked s)
    (if linked s mc && set_status_ok amtUUID
     then <[amtUUID := false]> (sv_online s) else sv_online s).

Definition GetConn (s : Server) (amtUUID : Z) : option nat := sv_conns s !! amtUUID.
End registration.

(** ** Opens, answers and abandonment interleaved

    The message loop, the callers of [OpenChannel], the owners of channels and
    [Close] run on their own goroutines; each step is one critical section of the
    connection's mutex or of a channel's, or one operation on a reply channel.
    [sy_pending] holds the answers a goroutine is about to send, and [sy_openers]
    the callers still inside [OpenChannel].  What a goroutine does to a channel,
    to the map of channels, to the ports and to the wire is not tied to its place
    in its code: any such section may run at any time, so an end and the forget
    that follows it may have anything between them. *)

Inductive opener :=
  | OWaiting (localCh : Z)       (* in the select *)
  | OLeaving.                    (* abandonOpen, before its poll *)

Record sys := mk_sys {
  sy_conn : Conn;
  sy_pending : list (nat * openReply);
  sy_openers : gmap nat opener;
}.

(** One critical section of a channel's mutex: [end], [deliver], [Read], or the
    window adjust of [handleWindowAdj]. *)
Inductive chan_section (ch : Channel) : Channel → Prop :=
  | SecEnd e : chan_section ch (chan_end ch e).1
  | SecDeliver data : chan_section ch (deliver ch data).1
  | SecWindow n : chan_section ch (add_window ch n)
  | SecRead n : chan_section ch (chan_read ch n).1.

Inductive mps_step : sys → sys → Prop :=
  | StepOpen c c' l rid ps os :
      open_begin c = Ok (c', l, rid) →
      mps_step (mk_sys c ps os) (mk_sys c' ps (<[rid := OWaiting l]> os))
  | StepConfirm c c' a ps os payload :
      confirm_lock c payload = Ok (c', a) →
      mps_step (mk_sys c ps os)
        (mk_sys c' (match a with ReplyWith rid r => (rid, r) :: ps | CloseIt _ => ps end) os)
  | StepRefuse c c' a ps os payload :
      refuse_lock c payload = Ok (c', a) →
      mps_step (mk_sys c ps os) (mk_sys c' (match a with Some x => x :: ps | None => ps end) os)
  | StepSend c c' rid r ps1 ps2 os :
      send_reply c rid r = (c', None) →
      mps_step (mk_sys c (ps1 ++ (rid, r) :: ps2) os) (mk_sys c' (ps1 ++ ps2) os)
  | StepTake c c' l rid ps os res :
      os !! rid = Some (OWaiting l) → open_wait c l rid WReply = (c', Some res) →
      mps_step (mk_sys c ps os) (mk_sys c' ps (delete rid os))
  | StepGiveUp c l rid ps os :
      os !! rid = Some (OWaiting l) →
      mps_step (mk_sys c ps os) (mk_sys (abandon_delete c l) ps (<[rid := OLeaving]> os))
  | StepLeave c rid ps os :
      os !! rid = Some OLeaving →
      mps_step (mk_sys c ps os) (mk_sys (poll_reply c rid).1 ps (delete rid os))
  | StepClose c c' chans rids ps os :
      close_lock c = (c', chans, rids) →
      mps_step (mk_sys c ps os) (mk_sys c' (((., ReplyErr OClosed) <$> rids) ++ ps) os)
  | StepAccept c c' co l ps os :
      accept_lock c co = Ok (c', l) →
      mps_step (mk_sys c ps os) (mk_sys c' ps os)
  | StepChannel c loc ch ch' ps os :
      cn_heap c !! loc = Some ch → chan_section ch ch' →
      mps_step (mk_sys c ps os) (mk_sys (upd_chan c loc ch') ps os)
  | StepForget c l ps os :
      mps_step (mk_sys c ps os) (mk_sys (forget c l) ps os)
  | StepPorts c gr ps os :
      mps_step (mk_sys c ps os) (mk_sys (recordBoundPort c gr) ps os)
  | StepNet c w ps os :
      mps_step (mk_sys c ps os) (mk_sys (set_net c w) ps os).

Inductive mps_reachable : sys → Prop :=
  | mps_init w : mps_reachable (mk_sys (new_conn w) [] ∅)
  | mps_next s s' : mps_reachable s → mps_step s s' → mps_reachable s'.

Definition opening_of (c : Conn) : gmap Z nat := default ∅ (cn_opening c).
Definition channels_of (c : Conn) : gmap Z nat := default ∅ (cn_channels c).

(** What the maps of a connection promise: no map of channels exactly once
    closed, no map of opens then, and every entry a channel of its own id that
    has [P]. *)
Record maps_ok (P : Channel → Prop) (c : Conn) : Prop := {
  wf_channels : cn_channels c = None ↔ cn_closed c = true;
  wf_opening : cn_closed c = true → cn_opening c = None;
  wf_live : ∀ l loc, channels_of c !! l = Some loc →
    ∃ ch, cn_heap c !! loc = Some ch ∧ ch_LocalID ch = l ∧ P ch;
  wf_heap : ∀ loc, is_Some (cn_heap c !! loc) → (loc < cn_fresh c)%nat;
}.

(** Between two critical sections an entry may have ended already; between two
    handlers that run whole it is live. *)
Definition any_chan (ch : Channel) : Prop := True.
Definition live_chan (ch : Channel) : Prop := ch_err ch = None.
Abbreviation conn_maps := (maps_ok any_chan).
Abbreviation conn_wf := (maps_ok live_chan).

(** An answer about to be sent has an empty buffer to go to, and no open that
    is still waiting to be answered shares it. *)
Record replies_inv (c : Conn) (ps : list (nat * openReply)) : Prop := {
  ri_nodup : NoDup ps.*1;
  ri_pending : ∀ rid, rid ∈ ps.*1 → cn_replies c !! rid = Some None;
  ri_opening : ∀ l rid, opening_of c !! l = Some rid →
    cn_replies c !! rid = Some None ∧ rid ∉ ps.*1;
  ri_inj : ∀ l l' rid, opening_of c !! l = Some rid → opening_of c !! l' = Some rid → l = l';
  ri_fresh : ∀ rid, is_Some (cn_replies c !! rid) → (rid < cn_fresh c)%nat;
}.

(** What an open relies on: it is in [opening], or its answer is on the way or
    in its buffer. *)
Definition attended (s : sys) (l : Z) (rid : nat) : Prop :=
  opening_of (sy_conn s) !! l = Some rid ∨ rid ∈ (sy_pending s).*1 ∨
  ∃ r, cn_replies (sy_conn s) !! rid = Some (Some r).

Record openers_inv (s : sys) : Prop := {
  oi_attended : ∀ rid l, sy_openers s !! rid = Some (OWaiting l) → attended s l rid;
  oi_distinct : ∀ rid rid' l, sy_openers s !! rid = Some (OWaiting l) →
    sy_openers s !! rid' = Some (OWaiting l) → rid = rid';
  oi_fresh : ∀ rid, is_Some (sy_openers s !! rid) → (rid < cn_fresh (sy_conn s))%nat;
}.

(** Steps none of which reuses the id of an open still waiting, as 2{^32} opens
    on one connection would. *)
Definition mps_step_fresh (s s' : sys) : Prop :=
  mps_step s s' ∧
  ∀ rid, sy_openers s !! rid ≠ Some (OWaiting (cn_nextChanID (sy_conn s))).

Inductive mps_reachable_fresh : sys → Prop :=
  | mps_fresh_init w : mps_reachable_fresh (mk_sys (new_conn w) [] ∅)
  | mps_fresh_next s s' :
      mps_reachable_fresh s → mps_step_fresh s s' → mps_reachable_fresh s'.

(** ** What the handlers leave alone *)

(** [c'] is [c] after a handler that answers no open. *)
Record keeps_opens (c c' : Conn) : Prop := {
  ko_opening : cn_opening c' = cn_opening c;
  ko_replies : cn_replies c' = cn_replies c;
  ko_closed : cn_closed c' = cn_closed c;
  ko_fresh : (cn_fresh c ≤ cn_fresh c')%nat;
}.

Lemma keeps_opens_refl c : keeps_opens c c.
Proof. by constructor. Qed.

Lemma keeps_opens_trans c1 c2 c3 : keeps_opens c1 c2 → keeps_opens c2 c3 → keeps_opens c1 c3.
Proof. intros [] []. constructor; (congruence || lia). Qed.

Lemma conn_write_eq c f : conn_write c f = (set_net c (f (cn_net c)).1, HApf <$> (f (cn_net c)).2).
Proof. unfold conn_write. by destruct (f (cn_net c)). Qed.

Lemma recordBoundPort_keeps c gr : keeps_opens c (recordBoundPort c gr).
Proof.
  unfold recordBoundPort. case_bool_decide; [apply keeps_opens_refl|].
  destruct (ParseForwardData _) as [[??]|]; [by constructor | apply keeps_opens_refl].
Qed.

Lemma upd_chan_keeps c loc ch : keeps_opens c (upd_chan c loc ch).
Proof. by constructor. Qed.

Lemma forget_keeps c l : keeps_opens c (forget c l).
Proof. by constructor. Qed.

Lemma accept_lock_keeps c co c' l : accept_lock c co = Ok (c', l) → keeps_opens c c'.
Proof.
  unfold accept_lock. destruct (cn_channels c); [|done]. intros [= <- <-].
  constructor; cbn; (done || lia).
Qed.

(** Split a handler on the next test, parse or lookup. *)
Ltac handler_step :=
  first [ case_bool_decide
        | match goal with
          | |- context [match ?x with _ => _ end] =>
              lazymatch x with
              | context [match _ with _ => _ end] => fail
              | _ => destruct x eqn:?
              end
          end ]; simplify_eq/=.

(** ** The invariants hold *)

Lemma replies_inv_frame c c' ps : keeps_opens c c' → replies_inv c ps → replies_inv c' ps.
Proof.
  intros [Ho Hr _ Hf] []. unfold opening_of in *. constructor; unfold opening_of; rewrite ?Ho, ?Hr; auto.
  intros rid H. apply ri_fresh0 in H. lia.
Qed.

Lemma opening_delete c l :
  opening_of (set_opening c (delete l <$> cn_opening c)) = delete l (opening_of c).
Proof. unfold opening_of; cbn. destruct (cn_opening c); cbn; [done | by rewrite delete_empty]. Qed.

Lemma replies_inv_drop c ps l :
  replies_inv c ps → replies_inv (set_opening c (delete l <$> cn_opening c)) ps.
Proof.
  intros []. constructor; rewrite ?opening_delete; auto.
  - intros l' rid [_ ?]%lookup_delete_Some. eauto.
  - intros l1 l2 rid [_ ?]%lookup_delete_Some [_ ?]%lookup_delete_Some. eauto.
Qed.

(** An open moves from [opening] to the answers about to be sent. *)
Lemma replies_inv_answer c ps l rid r :
  opening_of c !! l = Some rid → replies_inv c ps →
  replies_inv (set_opening c (delete l <$> cn_opening c)) ((rid, r) :: ps).
Proof.
  intros Hl [Hn Hp Ho Hi Hf]. destruct (Ho _ _ Hl) as [He Hnot].
  constructor; rewrite ?opening_delete; cbn; auto.
  - by constructor.
  - intros rid' [->|?]%elem_of_cons; auto.
  - intros l' rid' [Hne Hl']%lookup_delete_Some. destruct (Ho _ _ Hl') as [? ?]. split; [done|].
    rewrite not_elem_of_cons. split; [|done]. intros ->. eauto.
  - intros l1 l2 rid' [_ ?]%lookup_delete_Some [_ ?]%lookup_delete_Some. eauto.
Qed.

Lemma replies_inv_close c ps :
  replies_inv c ps →
  replies_inv (close_lock c).1.1 (((., ReplyErr OClosed) <$> (close_lock c).2) ++ ps).
Proof.
  intros [Hn Hp Ho Hi Hf]. unfold close_lock; cbn.
  assert ((((., ReplyErr OClosed) <$> (map_to_list (opening_of c)).*2) ++ ps).*1 =
          (map_to_list (opening_of c)).*2 ++ ps.*1) as E.
  { rewrite fmap_app. f_equal. rewrite <- list_fmap_compose.
    rewrite (list_fmap_ext _ id); [by rewrite list_fmap_id | done]. }
  fold (opening_of c).
  assert (∀ rid, rid ∈ (map_to_list (opening_of c)).*2 →
            ∃ l, opening_of c !! l = Some rid) as Hin.
  { intros rid ([l rid'] & -> & H%elem_of_map_to_list)%list_elem_of_fmap. by exists l. }
  constructor; cbn; rewrite ?E; auto.
  - apply NoDup_app. split_and!; [|by intros rid (l & Hl)%Hin; destruct (Ho _ _ Hl)|done].
    apply NoDup_fmap_2_strong; [|apply NoDup_map_to_list].
    intros [l1 r1] [l2 r2] H1%elem_of_map_to_list H2%elem_of_map_to_list ?; simplify_eq/=.
    f_equal. eauto.
  - intros rid [(l & Hl)%Hin|?]%elem_of_app; [by destruct (Ho _ _ Hl) | auto].
  - intros l rid. unfold opening_of; cbn. by rewrite lookup_empty.
  - intros l l' rid. unfold opening_of; cbn. by rewrite lookup_empty.
Qed.

Lemma open_begin_inv c c' l rid :
  open_begin c = Ok (c', l, rid) →
  l = cn_nextChanID c ∧ rid = cn_fresh c ∧ cn_closed c = false ∧ cn_closed c' = false ∧
  cn_fresh c' = S rid ∧ cn_channels c' = cn_channels c ∧ cn_heap c' = cn_heap c ∧
  opening_of c' = <[l := rid]> (opening_of c) ∧ cn_replies c' = <[rid := None]> (cn_replies c).
Proof. unfold open_begin. destruct (cn_closed c) eqn:E; [done|]. by intros [= <- <- <-]. Qed.

Lemma replies_inv_open c c' l rid ps :
  open_begin c = Ok (c', l, rid) → replies_inv c ps → replies_inv c' ps.
Proof.
  intros (-> & -> & _ & _ & Hf' & _ & _ & Ho' & Hr')%open_begin_inv [Hn Hp Ho Hi Hf].
  assert (∀ rid, cn_replies c !! rid = Some None → rid ≠ cn_fresh c) as Hlt.
  { intros rid H ->. specialize (Hf (cn_fresh c) ltac:(by rewrite H)). lia. }
  constructor; rewrite ?Hr', ?Ho'; auto.
  - intros rid Hrid. rewrite lookup_insert_ne; [auto|]. symmetry. auto.
  - intros l rid [[<- <-]|[? Hl]]%lookup_insert_Some.
    + rewrite lookup_insert_eq. split; [done|]. intros Hin. by apply (Hlt _ (Hp _ Hin)).
    + destruct (Ho _ _ Hl). rewrite lookup_insert_ne; [auto|]. symmetry. auto.
  - intros l1 l2 rid [[<- E]|[? H1]]%lookup_insert_Some [[<- E']|[? H2]]%lookup_insert_Some; auto; subst.
    + by destruct (Hlt _ (proj1 (Ho _ _ H2))).
    + by destruct (Hlt _ (proj1 (Ho _ _ H1))).
    + eauto.
  - intros rid [x [[<- _]|[? H]]%lookup_insert_Some]; [lia|].
    specialize (Hf rid ltac:(by rewrite H)). lia.
Qed.

Lemma confirm_lock_inv c payload c' a :
  confirm_lock c payload = Ok (c', a) →
  ∃ l c1, c1 = set_opening c (delete l <$> cn_opening c) ∧
  match a with
  | CloseIt _ => opening_of c !! l = None ∧ c' = c1
  | ReplyWith rid r => opening_of c !! l = Some rid ∧ r = ReplyChannel (cn_fresh c) ∧
      ∃ m remote window, cn_channels c = Some m ∧
      cn_channels c' = Some (<[l := cn_fresh c]> m) ∧
      cn_heap c' = <[cn_fresh c := newChannel l remote (lit "direct-tcpip") window]> (cn_heap c) ∧
      cn_fresh c' = S (cn_fresh c) ∧ cn_closed c' = cn_closed c ∧
      cn_opening c' = cn_opening c1 ∧ cn_replies c' = cn_replies c
  end.
Proof.
  unfold confirm_lock, opening_of. case_bool_decide; [done|].
  destruct (uint32_at payload 0) as [l|], (uint32_at payload 4) as [remote|],
    (uint32_at payload 8) as [window|]; try done.
  intros H1. exists l. eexists; split; [done|]. revert H1.
  destruct (cn_opening c) as [o|] eqn:Eo; cbn; [|intros [= <- <-]; by rewrite lookup_empty].
  destruct (o !! l) as [rid|] eqn:El; [|by intros [= <- <-]].
  destruct (cn_channels c) as [m|] eqn:Em; [|done]. intros [= <- <-]; cbn.
  split_and!; auto. by exists m, remote, window.
Qed.

Lemma refuse_lock_inv c payload c' a :
  refuse_lock c payload = Ok (c', a) →
  ∃ l, c' = set_opening c (delete l <$> cn_opening c) ∧
  match a with
  | None => opening_of c !! l = None
  | Some (rid, r) => opening_of c !! l = Some rid
  end.
Proof.
  unfold refuse_lock, opening_of. case_bool_decide; [done|].
  destruct (uint32_at payload 0) as [l|], (uint32_at payload 4) as [reason|]; try done.
  intros [= <- <-]. exists l. split; [done|].
  destruct (cn_opening c) as [o|]; cbn; [|by rewrite lookup_empty]. by destruct (o !! l).
Qed.

Lemma send_reply_inv c rid r c' :
  send_reply c rid r = (c', None) →
  cn_replies c !! rid = Some None ∧ c' = set_replies c (<[rid := Some r]> (cn_replies c)).
Proof. unfold send_reply. destruct (cn_replies c !! rid) as [[|]|]; by intros [= <-]. Qed.

Lemma replies_inv_send c rid r c' ps1 ps2 :
  send_reply c rid r = (c', None) → replies_inv c (ps1 ++ (rid, r) :: ps2) →
  replies_inv c' (ps1 ++ ps2).
Proof.
  intros [He ->]%send_reply_inv [Hn Hp Ho Hi Hf].
  rewrite fmap_app, fmap_cons in *; cbn in *.
  assert ((rid ∉ (ps1 ++ ps2).*1) ∧ NoDup (ps1 ++ ps2).*1) as [Hout Hnd].
  { rewrite fmap_app. apply NoDup_cons. by rewrite Permutation_middle. }
  constructor; cbn; auto.
  - intros rid' Hin. rewrite lookup_insert_ne by (intros ->; done).
    apply Hp. rewrite fmap_app, elem_of_app in Hin. rewrite elem_of_app, elem_of_cons. tauto.
  - intros l rid' Hl. destruct (Ho l rid' Hl) as [? Hnot]. rewrite fmap_app.
    rewrite elem_of_app, elem_of_cons in Hnot. rewrite elem_of_app.
    rewrite lookup_insert_ne by (intros ->; tauto). tauto.
  - intros rid' [x [[<- _]|[? H]]%lookup_insert_Some]; eauto.
Qed.

(** Taking an answer out of its buffer, or finding none. *)
Lemma replies_inv_empty c rid x ps :
  cn_replies c !! rid = Some x → replies_inv c ps →
  replies_inv (set_replies c (<[rid := None]> (cn_replies c))) ps.
Proof.
  intros Hx [Hn Hp Ho Hi Hf]. constructor; cbn; auto.
  - intros rid' Hin. destruct (decide (rid = rid')) as [<-|];
      [by rewrite lookup_insert_eq | rewrite lookup_insert_ne; auto].
  - intros l rid' Hl. destruct (Ho l rid' Hl). destruct (decide (rid = rid')) as [<-|];
      [by rewrite lookup_insert_eq | rewrite lookup_insert_ne; auto].
  - intros rid' [y [[<- _]|[? H]]%lookup_insert_Some]; eauto.
Qed.

Lemma replies_inv_poll c rid ps : replies_inv c ps → replies_inv (poll_reply c rid).1 ps.
Proof.
  intros H. unfold poll_reply. destruct (cn_replies c !! rid) as [[r|]|] eqn:E; auto.
  by eapply replies_inv_empty.
Qed.

Lemma open_wait_reply c l rid c' res :
  open_wait c l rid WReply = (c', Some res) →
  ∃ r, cn_replies c !! rid = Some (Some r) ∧
       c' = set_replies c (<[rid := None]> (cn_replies c)).
Proof. cbn. destruct (cn_replies c !! rid) as [[r|]|]; intros [=]; subst; eauto. Qed.

Lemma replies_inv_step s s' :
  mps_step s s' → replies_inv (sy_conn s) (sy_pending s) →
  replies_inv (sy_conn s') (sy_pending s').
Proof.
  destruct 1 as [c c' l rid ps os H|c c' a ps os p H|c c' a ps os p H|c c' rid r ps1 ps2 os H
    |c c' l rid ps os res _ H|c l rid ps os _|c rid ps os _|c c' chans rids ps os H
    |c c' co l ps os H|c loc ch ch' ps os Hloc H|c l ps os|c gr ps os|c w ps os]; cbn; intros Hinv.
  - by eapply replies_inv_open.
  - apply confirm_lock_inv in H as (l & c1 & -> & H). destruct a as [remote|rid r].
    + destruct H as [_ ->]. by apply replies_inv_drop.
    + destruct H as (Hl & -> & m & remote & window & _ & _ & _ & Hf & Hcl & Ho & Hr).
      eapply replies_inv_frame; [|by apply (replies_inv_answer c ps l)].
      constructor; cbn; auto. lia.
  - apply refuse_lock_inv in H as (l & -> & H). destruct a as [[rid r]|].
    + by apply replies_inv_answer.
    + by apply replies_inv_drop.
  - by eapply replies_inv_send.
  - apply open_wait_reply in H as (r & Hr & ->). by eapply replies_inv_empty.
  - by apply replies_inv_drop.
  - by apply replies_inv_poll.
  - apply replies_inv_close in Hinv. by rewrite H in Hinv.
  - eapply replies_inv_frame; [|done]. by eapply accept_lock_keeps.
  - by eapply replies_inv_frame; [apply upd_chan_keeps|].
  - by eapply replies_inv_frame; [apply forget_keeps|].
  - by eapply replies_inv_frame; [apply recordBoundPort_keeps|].
  - eapply replies_inv_frame; [|done]. by constructor.
Qed.

(** *** Well-formed connections *)

Lemma maps_ok_frame P c c' :
  maps_ok P c → cn_channels c' = cn_channels c → cn_closed c' = cn_closed c →
  (cn_opening c = None → cn_opening c' = None ∨ cn_closed c = false) →
  cn_heap c' = cn_heap c → (cn_fresh c ≤ cn_fresh c')%nat → maps_ok P c'.
Proof.
  intros [Hc Ho Hl Hh] Ec Ecl Eo Eh Ef. unfold channels_of in *.
  constructor; unfold channels_of; rewrite ?Ec, ?Ecl, ?Eh; auto.
  - intros H. destruct (Eo (Ho H)); congruence.
  - intros loc H. apply Hh in H. lia.
Qed.

(** A channel in the map keeps its identity while its stream changes. *)
Lemma maps_ok_upd (P : Channel → Prop) c loc ch ch' :
  maps_ok P c → cn_heap c !! loc = Some ch →
  ch_LocalID ch' = ch_LocalID ch → (P ch → P ch') → maps_ok P (upd_chan c loc ch').
Proof.
  intros [Hc Ho Hl Hh] Hloc Eid HP.
  constructor; cbn; auto.
  - intros l' loc' (ch1 & H1 & H2 & H3)%Hl. destruct (decide (loc = loc')) as [<-|].
    + rewrite lookup_insert_eq. simplify_eq. eauto.
    + rewrite lookup_insert_ne by done. eauto.
  - intros loc' [x [[<- _]|[_ H]]%lookup_insert_Some]; eauto.
Qed.

(** A channel that ended leaves the map, under its own id. *)
Lemma maps_ok_end P c l loc ch ch' :
  maps_ok P c → cn_heap c !! loc = Some ch → ch_LocalID ch = l →
  maps_ok P (forget (upd_chan c loc ch') l).
Proof.
  intros [Hc Ho Hl Hh] Hloc <-. unfold channels_of in *.
  constructor; cbn; auto.
  - rewrite fmap_None. auto.
  - unfold channels_of; cbn. intros l loc' H.
    destruct (cn_channels c) as [m|]; cbn in *; [|by rewrite lookup_empty in H].
    apply lookup_delete_Some in H as [Hne H]. destruct (Hl _ _ H) as (ch1 & H1 & H2 & H3).
    rewrite lookup_insert_ne by (intros <-; simplify_eq). eauto.
  - intros loc' [x [[<- _]|[_ H]]%lookup_insert_Some]; eauto.
Qed.

Lemma maps_ok_forget P c l : maps_ok P c → maps_ok P (forget c l).
Proof.
  intros [Hc Ho Hl Hh]. unfold channels_of in *. constructor; cbn; auto.
  - rewrite fmap_None. auto.
  - unfold channels_of; cbn. intros l' loc H.
    destruct (cn_channels c) as [m|]; cbn in *; [|by rewrite lookup_empty in H].
    apply lookup_delete_Some in H as [_ H]. eauto.
Qed.

Lemma maps_ok_new (P : Channel → Prop) c l loc ch m c' :
  maps_ok P c → cn_channels c = Some m → loc = cn_fresh c → ch_LocalID ch = l → P ch →
  cn_channels c' = Some (<[l := loc]> m) → cn_heap c' = <[loc := ch]> (cn_heap c) →
  cn_fresh c' = S loc → cn_closed c' = cn_closed c → maps_ok P c'.
Proof.
  intros [Hc Ho Hl Hh] Em -> <- HP Ec Eh Ef Ecl. unfold channels_of in *. rewrite Em in *.
  assert (cn_closed c = false) as Hopen by (destruct (cn_closed c); [by discriminate (proj2 Hc eq_refl) | done]).
  constructor; unfold channels_of; rewrite ?Ec, ?Ecl, ?Eh, ?Hopen; cbn; [done..| |].
  - intros l loc' [[<- <-]|[_ H]]%lookup_insert_Some.
    + rewrite lookup_insert_eq. eauto.
    + destruct (Hl _ _ H) as (ch1 & H1 & H2 & H3). exists ch1.
      rewrite lookup_insert_ne; [done|]. intros <-. specialize (Hh (cn_fresh c) ltac:(by rewrite H1)). lia.
  - intros loc' [x [[<- _]|[_ H]]%lookup_insert_Some]; [lia|].
    specialize (Hh loc' ltac:(by rewrite H)). lia.
Qed.

Lemma conn_channel_Some c l loc ch :
  conn_channel c l = Some (loc, ch) → channels_of c !! l = Some loc ∧ cn_heap c !! loc = Some ch.
Proof.
  unfold conn_channel, channels_of. destruct (cn_channels c) as [m|]; [cbn|done].
  destruct (m !! l) as [loc'|]; [cbn|done]. destruct (cn_heap c !! loc') eqn:E; [cbn|done].
  by intros [= <- <-].
Qed.

Lemma conn_channel_wf c l loc ch :
  conn_wf c → conn_channel c l = Some (loc, ch) →
  cn_heap c !! loc = Some ch ∧ ch_LocalID ch = l ∧ ch_err ch = None.
Proof.
  intros Hwf [Hl Hh]%conn_channel_Some. destruct (wf_live _ c Hwf l loc Hl) as (ch' & ? & ? & ?).
  by simplify_eq.
Qed.

Lemma deliver_same ch data ch' res :
  deliver ch data = (ch', res) → ch_LocalID ch' = ch_LocalID ch ∧ ch_err ch' = ch_err ch.
Proof.
  unfold deliver, takeAdjust. destruct (ch_discard ch), (ch_err ch) eqn:?;
    repeat case_bool_decide; intros; simplify_eq/=; auto.
Qed.

Lemma chan_end_id ch e : ch_LocalID (chan_end ch e).1 = ch_LocalID ch.
Proof. unfold chan_end. by destruct (ch_err ch). Qed.

Lemma chan_section_id ch ch' : chan_section ch ch' → ch_LocalID ch' = ch_LocalID ch.
Proof.
  destruct 1 as [e|data|n|n]; [apply chan_end_id| |done|].
  - destruct (deliver ch data) as [ch' res] eqn:E. by destruct (deliver_same _ _ _ _ E).
  - unfold chan_read, takeAdjust. by repeat handler_step.
Qed.

Lemma maps_ok_net P c w : maps_ok P c → maps_ok P (set_net c w).
Proof. intros H. apply (maps_ok_frame P c); auto. Qed.

Lemma maps_ok_write P c f : maps_ok P c → maps_ok P (conn_write c f).1.
Proof. rewrite conn_write_eq. apply maps_ok_net. Qed.

Lemma maps_ok_drop P c l : maps_ok P c → maps_ok P (set_opening c (delete l <$> cn_opening c)).
Proof. intros H. apply (maps_ok_frame P c); cbn; auto. intros ->. by left. Qed.

Lemma maps_ok_replies P c m : maps_ok P c → maps_ok P (set_replies c m).
Proof. intros H. apply (maps_ok_frame P c); auto. Qed.

#[local] Hint Resolve maps_ok_net maps_ok_write maps_ok_drop maps_ok_replies : opengate.

Lemma maps_ok_poll P c rid : maps_ok P c → maps_ok P (poll_reply c rid).1.
Proof.
  intros H. unfold poll_reply. destruct (cn_replies c !! rid) as [[r|]|]; cbn; auto with opengate.
Qed.

Lemma maps_ok_confirm (P : Channel → Prop) c p c' a :
  (∀ l remote window, P (newChannel l remote (lit "direct-tcpip") window)) →
  maps_ok P c → confirm_lock c p = Ok (c', a) → maps_ok P c'.
Proof.
  intros HP Hwf (l & c1 & -> & H)%confirm_lock_inv. destruct a as [remote|rid r].
  - destruct H as [_ ->]. auto with opengate.
  - destruct H as (Hl & -> & m & remote & window & Hm & Hc & Hh & Hf & Hcl & Ho & Hr).
    by apply (maps_ok_new P c l (cn_fresh c) (newChannel l remote (lit "direct-tcpip") window) m).
Qed.

Lemma maps_ok_open P c c' l rid : maps_ok P c → open_begin c = Ok (c', l, rid) → maps_ok P c'.
Proof.
  intros Hwf (-> & -> & Hcl & Hcl' & Hf & Hc & Hh & _)%open_begin_inv.
  apply (maps_ok_frame P c); auto; [by rewrite Hcl, Hcl' | lia].
Qed.

Lemma maps_ok_accept (P : Channel → Prop) c co c' l :
  (∀ l remote t window, P (with_discard (newChannel l remote t window))) →
  maps_ok P c → accept_lock c co = Ok (c', l) → maps_ok P c'.
Proof.
  intros HP H. unfold accept_lock. destruct (cn_channels c) as [m|] eqn:Em; [|done].
  intros [= <- <-]. by apply (maps_ok_new P c (cn_nextChanID c) (cn_fresh c)
    (with_discard (newChannel (cn_nextChanID c) (co_SenderChannel co) (co_ChannelType co)
       (co_InitialWindowSz co))) m).
Qed.

Lemma conn_wf_handleChannelOpen c p : conn_wf c → conn_wf (handleChannelOpen c p).1.
Proof.
  intros H. unfold handleChannelOpen. destruct (ParseChannelOpen p) as [co|]; [|done].
  destruct (accept_lock c co) as [[c' l]|] eqn:E; [|done]. apply maps_ok_write.
  by eapply maps_ok_accept.
Qed.

Lemma conn_wf_handleChannelData c p : conn_wf c → conn_wf (handleChannelData c p).1.
Proof.
  intros H. unfold handleChannelData. destruct (ParseChannelData p) as [cd|]; [|done].
  destruct (conn_channel c _) as [[loc ch]|] eqn:Ec; [|done].
  destruct (conn_channel_wf _ _ _ _ H Ec) as (Hh & Hid & He).
  destruct (deliver ch (cd_Data cd)) as [ch' [adj|e]] eqn:Ed;
    apply deliver_same in Ed as [Eid Eerr].
  - assert (conn_wf (upd_chan c loc ch'))
      by (eapply maps_ok_upd; [done..|]; unfold live_chan; congruence).
    case_bool_decide; cbn; auto with opengate.
  - apply maps_ok_write. rewrite chan_end_id, Eid. by eapply maps_ok_end.
Qed.

Lemma forget_upd c loc ch l : upd_chan (forget c l) loc ch = forget (upd_chan c loc ch) l.
Proof. done. Qed.

Lemma conn_wf_handleChannelClose c l : conn_wf c → conn_wf (handleChannelClose c l).1.
Proof.
  intros H. unfold handleChannelClose.
  destruct (conn_channel c _) as [[loc ch]|] eqn:Ec; [|done].
  destruct (conn_channel_wf _ _ _ _ H Ec) as (Hh & Hid & He).
  apply maps_ok_write. rewrite forget_upd. by eapply maps_ok_end.
Qed.

Lemma maps_ok_ports P c gr : maps_ok P c → maps_ok P (recordBoundPort c gr).
Proof.
  intros H. unfold recordBoundPort. case_bool_decide; [done|].
  destruct (ParseForwardData _) as [[??]|]; [|done]. by apply (maps_ok_frame P c); auto.
Qed.

Lemma maps_ok_send P c rid r : maps_ok P c → maps_ok P (send_reply c rid r).1.
Proof. intros H. unfold send_reply. destruct (cn_replies c !! rid) as [[|]|]; cbn; auto with opengate. Qed.

Lemma conn_wf_handleWindowAdj c p : conn_wf c → conn_wf (handleWindowAdj c p).1.
Proof.
  intros H. unfold handleWindowAdj. case_bool_decide; [done|].
  destruct (uint32_at p 0), (uint32_at p 4); try done.
  destruct (conn_channel c _) as [[loc ch]|] eqn:Ec; [|done].
  apply conn_channel_Some in Ec as [_ Hh]. by eapply maps_ok_upd.
Qed.

Lemma conn_wf_handleMessage c t p : conn_wf c → conn_wf (handleMessage c t p).1.
Proof.
  intros H. unfold handleMessage. repeat case_bool_decide; try done.
  - destruct (ParseGlobalRequest p) as [gr|]; [|done]. pose proof (maps_ok_ports _ c gr H).
    destruct (gr_WantReply gr); cbn; auto with opengate.
  - by apply conn_wf_handleChannelOpen.
  - unfold confirmOpen. destruct (confirm_lock c p) as [[c' a]|] eqn:E; [|done].
    apply (maps_ok_confirm live_chan) in E; [|done..]. destruct a; cbn; auto using maps_ok_send with opengate.
  - unfold refuseOpen. destruct (refuse_lock c p) as [[c' a]|] eqn:E; [|done].
    apply refuse_lock_inv in E as (l & -> & _).
    destruct a as [[rid r]|]; cbn; auto using maps_ok_send with opengate.
  - by apply conn_wf_handleChannelData.
  - destruct (Uint32 p); [by apply conn_wf_handleChannelClose | done].
  - by apply conn_wf_handleWindowAdj.
  - destruct (ParseKeepaliveRequest p); cbn; auto with opengate.
Qed.

Lemma maps_ok_close P c : maps_ok P c → maps_ok P (close_lock c).1.1.
Proof.
  intros [Hc Ho Hl Hh]. by constructor; cbn.
Qed.

Lemma conn_maps_step s s' : mps_step s s' → conn_maps (sy_conn s) → conn_maps (sy_conn s').
Proof.
  destruct 1 as [c c' l rid ps os H|c c' a ps os p H|c c' a ps os p H|c c' rid r ps1 ps2 os H
    |c c' l rid ps os res _ H|c l rid ps os _|c rid ps os _|c c' chans rids ps os H
    |c c' co l ps os H|c loc ch ch' ps os Hloc H|c l ps os|c gr ps os|c w ps os]; cbn; intros Hinv.
  - by eapply maps_ok_open.
  - by eapply maps_ok_confirm.
  - apply refuse_lock_inv in H as (l & -> & _). auto with opengate.
  - apply send_reply_inv in H as [_ ->]. auto with opengate.
  - apply open_wait_reply in H as (r & _ & ->). auto with opengate.
  - unfold abandon_delete. auto with opengate.
  - by apply maps_ok_poll.
  - apply maps_ok_close in Hinv. by rewrite H in Hinv.
  - by eapply maps_ok_accept.
  - apply chan_section_id in H. by eapply maps_ok_upd.
  - by apply maps_ok_forget.
  - by apply maps_ok_ports.
  - auto with opengate.
Qed.

(** *** Attended opens *)

Lemma attended_keeps c c' ps ps' os os' l rid :
  keeps_opens c c' → ps'.*1 = ps.*1 →
  attended (mk_sys c ps os) l rid → attended (mk_sys c' ps' os') l rid.
Proof.
  intros [Ho Hr _ _] Hps. unfold attended, opening_of; cbn. by rewrite Ho, Hr, Hps.
Qed.

Lemma openers_inv_open c c' l rid ps os :
  open_begin c = Ok (c', l, rid) →
  (∀ r, os !! r ≠ Some (OWaiting (cn_nextChanID c))) →
  openers_inv (mk_sys c ps os) → openers_inv (mk_sys c' ps (<[rid := OWaiting l]> os)).
Proof.
  intros (-> & -> & _ & _ & Hf & _ & _ & Ho & Hr)%open_begin_inv Hnew [Ha Hd Hfr].
  assert (∀ r x, os !! r = Some x → r ≠ cn_fresh c) as Hlt.
  { intros r x H ->. specialize (Hfr (cn_fresh c) (mk_is_Some _ _ H)). cbn in Hfr. lia. }
  constructor; cbn.
  - intros r l [[<- [= <-]]|[_ H]]%lookup_insert_Some; [left; cbn; by rewrite Ho, lookup_insert_eq|].
    destruct (Ha _ _ H) as [E|[E|[x E]]]; cbn in E.
    + left; cbn. rewrite Ho, lookup_insert_ne; [done|]. intros <-. by apply (Hnew r).
    + by right; left.
    + right; right. exists x. cbn. rewrite Hr, lookup_insert_ne; [done|]. symmetry. by eapply Hlt.
  - intros r r' l [[<- [= <-]]|[_ H]]%lookup_insert_Some
      [[<- E]|[_ H']]%lookup_insert_Some; auto.
    + by destruct (Hnew r').
    + injection E as <-. by destruct (Hnew r).
    + by eapply Hd.
  - intros r [x [[<- _]|[_ H]]%lookup_insert_Some]; [lia|].
    specialize (Hfr r (mk_is_Some _ _ H)). cbn in Hfr. lia.
Qed.

(** The same openers after a step that moves their attention along. *)
Lemma openers_inv_mono c ps os c' ps' :
  openers_inv (mk_sys c ps os) →
  (∀ l rid, os !! rid = Some (OWaiting l) → attended (mk_sys c ps os) l rid →
            attended (mk_sys c' ps' os) l rid) →
  (cn_fresh c ≤ cn_fresh c')%nat →
  openers_inv (mk_sys c' ps' os).
Proof.
  intros [Ha Hd Hf] Hm Hle. constructor; cbn in *; auto.
  intros rid H. apply Hf in H. lia.
Qed.

(** A caller stops waiting. *)
Lemma openers_inv_leave c ps os c' rid x os' :
  openers_inv (mk_sys c ps os) → os !! rid = Some x →
  (os' = delete rid os ∨ os' = <[rid := OLeaving]> os) →
  (∀ l rid', rid' ≠ rid → os !! rid' = Some (OWaiting l) →
     attended (mk_sys c ps os) l rid' → attended (mk_sys c' ps os') l rid') →
  (cn_fresh c ≤ cn_fresh c')%nat → openers_inv (mk_sys c' ps os').
Proof.
  intros [Ha Hd Hf] Hx Hos Hm Hle.
  assert (∀ r l, os' !! r = Some (OWaiting l) → r ≠ rid ∧ os !! r = Some (OWaiting l)) as Hin.
  { intros r l H. destruct Hos as [->| ->].
    - apply lookup_delete_Some in H as [? ?]. auto.
    - apply lookup_insert_Some in H as [[_ ?]|[? ?]]; [done|auto]. }
  constructor; cbn.
  - intros r l [Hne H]%Hin. by apply Hm; [| |apply Ha].
  - intros r r' l [_ H]%Hin [_ H']%Hin. by eapply Hd.
  - intros r [y H]. specialize (Hf r). cbn in Hf. eapply Nat.lt_le_trans; [apply Hf|done].
    destruct Hos as [->| ->].
    + apply lookup_delete_Some in H as [_ H]. by rewrite H.
    + apply lookup_insert_Some in H as [[<- _]|[_ H]]; [by rewrite Hx | by rewrite H].
Qed.

Lemma attended_drop c ps os os' l l' rid :
  l ≠ l' → attended (mk_sys c ps os) l rid →
  attended (mk_sys (set_opening c (delete l' <$> cn_opening c)) ps os') l rid.
Proof.
  intros Hne. unfold attended; cbn [sy_conn sy_pending]. rewrite opening_delete.
  rewrite lookup_delete_ne by done. done.
Qed.

Lemma attended_set c ps os os' l rid rid' x :
  rid ≠ rid' → attended (mk_sys c ps os) l rid →
  attended (mk_sys (set_replies c (<[rid' := x]> (cn_replies c))) ps os') l rid.
Proof. intros Hne. unfold attended; cbn. by rewrite lookup_insert_ne by done. Qed.

Lemma poll_reply_cases c rid :
  (poll_reply c rid).1 = c ∨
  (poll_reply c rid).1 = set_replies c (<[rid := None]> (cn_replies c)).
Proof. unfold poll_reply. destruct (cn_replies c !! rid) as [[r|]|]; auto. Qed.

(** A message for [l] that found nobody waiting changes nobody's standing; one
    that found [rid] moves it to the answers about to be sent. *)
Lemma attended_nobody c ps os l l' rid :
  opening_of c !! l = None → attended (mk_sys c ps os) l' rid →
  attended (mk_sys (set_opening c (delete l <$> cn_opening c)) ps os) l' rid.
Proof.
  intros Hl Hatt. destruct (decide (l' = l)) as [->|]; [|by apply (attended_drop c ps os)].
  destruct Hatt as [E|E]; [by cbn in E; rewrite Hl in E | by right].
Qed.

Lemma attended_answer c ps os l l' rid rid' r :
  opening_of c !! l = Some rid → attended (mk_sys c ps os) l' rid' →
  attended (mk_sys (set_opening c (delete l <$> cn_opening c)) ((rid, r) :: ps) os) l' rid'.
Proof.
  intros Hl Hatt. destruct (decide (l' = l)) as [->|Hne].
  - destruct Hatt as [E|[E|E]]; cbn in E; [|by right; left; cbn; right|by right; right].
    right; left; cbn. rewrite Hl in E. injection E as <-. left.
  - apply (attended_drop c ps os os l' l rid' Hne) in Hatt as [E|[E|E]];
      [by left|by right; left; cbn; right|by right; right].
Qed.

Lemma attended_send c ps1 ps2 os l rid rid' r :
  cn_replies c !! rid = Some None → attended (mk_sys c (ps1 ++ (rid, r) :: ps2) os) l rid' →
  attended (mk_sys (set_replies c (<[rid := Some r]> (cn_replies c))) (ps1 ++ ps2) os) l rid'.
Proof.
  intros He [E|[E|[x E]]]; cbn in E; [by left| |].
  - destruct (decide (rid' = rid)) as [->|].
    + right; right; exists r; cbn. by rewrite lookup_insert_eq.
    + right; left; cbn. rewrite fmap_app in *. rewrite elem_of_app in *. cbn in E.
      rewrite elem_of_cons in E. tauto.
  - right; right. exists x. cbn. rewrite lookup_insert_ne; [done|]. intros ->. congruence.
Qed.

Lemma attended_close c ps os l rid :
  attended (mk_sys c ps os) l rid →
  attended (mk_sys (close_lock c).1.1
    (((., ReplyErr OClosed) <$> (close_lock c).2) ++ ps) os) l rid.
Proof.
  intros [E|[E|E]]; cbn in E; [| |by right; right];
    right; left; cbn; rewrite fmap_app, elem_of_app; [left|by right].
  apply list_elem_of_fmap. exists (rid, ReplyErr OClosed). split; [done|].
  apply list_elem_of_fmap. exists rid. split; [done|].
  apply list_elem_of_fmap. exists (l, rid). split; [done|]. by apply elem_of_map_to_list.
Qed.

Lemma openers_inv_keeps c c' ps os :
  keeps_opens c c' → openers_inv (mk_sys c ps os) → openers_inv (mk_sys c' ps os).
Proof.
  intros Hk Hinv. eapply openers_inv_mono; [done| |apply Hk]. intros. by eapply attended_keeps.
Qed.

Lemma openers_inv_step s s' :
  mps_step_fresh s s' → openers_inv s → openers_inv s'.
Proof.
  intros [Hs Hnew]. revert Hnew.
  destruct Hs as [c c' l rid ps os H|c c' a ps os p H|c c' a ps os p H|c c' rid r ps1 ps2 os H
    |c c' l rid ps os res Hw H|c l rid ps os Hw|c rid ps os Hw|c c' chans rids ps os H
    |c c' co l ps os H|c loc ch ch' ps os Hloc H|c l ps os|c gr ps os|c w ps os]; cbn; intros Hnew Hinv.
  - by eapply openers_inv_open.
  - apply confirm_lock_inv in H as (l & c1 & -> & H). destruct a as [remote|rid r].
    + destruct H as [Hl ->]. eapply openers_inv_mono; eauto using attended_nobody.
    + destruct H as (Hl & -> & m & remote & window & _ & _ & _ & Hf & Hcl & Ho & Hr).
      eapply (openers_inv_keeps (set_opening c (delete l <$> cn_opening c)));
        [constructor; cbn; (done || lia)|].
      eapply openers_inv_mono; eauto using attended_answer.
  - apply refuse_lock_inv in H as (l & -> & H).
    destruct a as [[rid r]|]; eapply openers_inv_mono; eauto using attended_answer, attended_nobody.
  - apply send_reply_inv in H as [He ->]. eapply openers_inv_mono; eauto using attended_send.
  - apply open_wait_reply in H as (r & Hr & ->).
    eapply openers_inv_leave; [done|done|by left| |done]. intros. by eapply attended_set.
  - eapply openers_inv_leave; [done|done|by right| |done]. intros l' rid' Hne Hl' Hatt.
    apply (attended_drop c ps os); [|done]. intros ->. by eapply Hne, (oi_distinct _ Hinv).
  - eapply openers_inv_leave; [done|done|by left| |by destruct (poll_reply_cases c rid) as [->| ->]].
    intros l' rid' Hne _ Hatt.
    destruct (poll_reply_cases c rid) as [->| ->]; [done | by eapply attended_set].
  - replace c' with (close_lock c).1.1 by by rewrite H. replace rids with (close_lock c).2 by by rewrite H.
    eapply openers_inv_mono; eauto using attended_close.
  - eapply openers_inv_keeps; [|done]. by eapply accept_lock_keeps.
  - by eapply openers_inv_keeps; [apply upd_chan_keeps|].
  - by eapply openers_inv_keeps; [apply forget_keeps|].
  - by eapply openers_inv_keeps; [apply recordBoundPort_keeps|].
  - eapply openers_inv_keeps; [|done]. by constructor.
Qed.

(** *** No handler panics *)

Definition sane_err (e : option handler_err) : Prop := e ≠ Some HPanic ∧ e ≠ Some (HApf Panic).

Lemma lift_io_sane p : sane_err (HApf <$> (lift_io p).2).
Proof. unfold lift_io. by destruct p as [w [e|]]. Qed.

Lemma lift_io_not_blocked p : HApf <$> (lift_io p).2 ≠ Some HBlocked.
Proof. unfold lift_io. by destruct p as [w [e|]]. Qed.

Lemma parse_sane {A} (r : result apf_err A) e : r ≠ Err Panic → r = Err e → sane_err (Some (HApf e)).
Proof. intros H ->. split; congruence. Qed.

Lemma send_reply_sane c rid r : sane_err (send_reply c rid r).2.
Proof. unfold send_reply. by destruct (cn_replies c !! rid) as [[|]|]. Qed.

#[local] Hint Resolve lift_io_sane send_reply_sane : opengate.

Lemma confirm_lock_sane c p e :
  conn_wf c → confirm_lock c p = Err e → e = HApf ErrMessageTooShort.
Proof.
  intros Hwf. unfold confirm_lock. case_bool_decide; [by intros [= <-]|].
  destruct (uint32_at_total p 0) as (l & -> & _); [lia..|].
  destruct (uint32_at_total p 4) as (rem & -> & _); [lia..|].
  destruct (uint32_at_total p 8) as (win & -> & _); [lia..|].
  destruct (cn_opening c ≫= (.!! l)) as [rid|] eqn:E; [|done].
  cbn. destruct (cn_channels c) eqn:Em; [done|]. apply (wf_channels _ c Hwf), (wf_opening _ c Hwf) in Em.
  by rewrite Em in E.
Qed.

Lemma handleMessage_sane c t p :
  conn_wf c → cn_closed c = false → sane_err (handleMessage c t p).2.
Proof.
  intros Hwf Hopen. unfold handleMessage. repeat case_bool_decide; try done.
  - pose proof (ParseGlobalRequest_total p). destruct (ParseGlobalRequest p) as [gr|] eqn:E;
      [|by eapply parse_sane]. destruct (gr_WantReply gr); [|done].
    rewrite conn_write_eq. apply lift_io_sane.
  - unfold handleChannelOpen. pose proof (ParseChannelOpen_total p).
    destruct (ParseChannelOpen p) as [co|] eqn:E; [|by eapply parse_sane].
    unfold accept_lock. destruct (cn_channels c) eqn:Em; [|apply (wf_channels _ c Hwf) in Em; congruence].
    rewrite conn_write_eq. apply lift_io_sane.
  - unfold confirmOpen. destruct (confirm_lock c p) as [[c' a]|e] eqn:E;
      [|apply confirm_lock_sane in E; [by subst|done]].
    destruct a; [cbn [run_action]; rewrite conn_write_eq; apply lift_io_sane | apply send_reply_sane].
  - unfold refuseOpen, refuse_lock. case_bool_decide; [done|].
    destruct (uint32_at_total p 0) as (l & -> & _); [lia..|].
    destruct (uint32_at_total p 4) as (rem & -> & _); [lia..|].
    destruct (cn_opening c ≫= (.!! l)); cbn; [apply send_reply_sane | done].
  - unfold handleChannelData. pose proof (ParseChannelData_total p).
    destruct (ParseChannelData p) as [cd|] eqn:E; [|by eapply parse_sane].
    destruct (conn_channel c _) as [[loc ch]|]; [|done].
    destruct (deliver ch _) as [ch' [adj|e]]; [case_bool_decide; [|done]|];
      rewrite conn_write_eq; apply lift_io_sane.
  - destruct (Uint32_total p) as [v ->]; [lia|]. unfold handleChannelClose.
    destruct (conn_channel c v) as [[loc ch]|]; [|done]. rewrite conn_write_eq. apply lift_io_sane.
  - unfold handleWindowAdj. case_bool_decide; [done|].
    destruct (uint32_at_total p 0) as (l & -> & _); [lia..|].
    destruct (uint32_at_total p 4) as (rem & -> & _); [lia..|].
    by destruct (conn_channel c l) as [[loc ch]|].
  - pose proof (ParseKeepaliveRequest_total p).
    destruct (ParseKeepaliveRequest p) as [ka|] eqn:E; [|by eapply parse_sane].
    rewrite conn_write_eq. apply lift_io_sane.
Qed.

Lemma maps_ok_init P w : maps_ok P (new_conn w).
Proof.
  constructor; cbn; try done.
  intros loc [x Hx]. by rewrite lookup_empty in Hx.
Qed.

Lemma replies_inv_init w : replies_inv (new_conn w) [].
Proof.
  constructor; cbn; [constructor | by intros rid ?%elem_of_nil | done | done |].
  intros rid [x Hx]. by rewrite lookup_empty in Hx.
Qed.

Lemma reachable_inv s :
  mps_reachable s → conn_maps (sy_conn s) ∧ replies_inv (sy_conn s) (sy_pending s).
Proof.
  induction 1 as [w|s s' _ [IH1 IH2] Hs].
  - split; [apply maps_ok_init | apply replies_inv_init].
  - split; [by eapply conn_maps_step | by eapply replies_inv_step].
Qed.

Lemma reachable_fresh_reachable s : mps_reachable_fresh s → mps_reachable s.
Proof. induction 1 as [|s s' _ IH [Hs _]]; [apply mps_init | by eapply mps_next]. Qed.

Lemma reachable_fresh_inv s : mps_reachable_fresh s → openers_inv s.
Proof.
  induction 1 as [w|s s' _ IH Hs]; [|by eapply openers_inv_step].
  constructor; cbn; [done | done |]. intros rid [x Hx]. by rewrite lookup_empty in Hx.
Qed.

(** *** The handlers are sequences of steps

    A handler, [Channel.Close] and [Close], run whole, are runs of [mps_step]; from
    a reachable state none of them blocks. *)

Lemma net_step c f ps os : rtc mps_step (mk_sys c ps os) (mk_sys (conn_write c f).1 ps os).
Proof. rewrite conn_write_eq. apply rtc_once, StepNet. Qed.

Lemma chan_step c loc ch ch' ps os :
  cn_heap c !! loc = Some ch → chan_section ch ch' →
  rtc mps_step (mk_sys c ps os) (mk_sys (upd_chan c loc ch') ps os).
Proof. intros. by eapply rtc_once, StepChannel. Qed.

Lemma forget_step c l ps os : rtc mps_step (mk_sys c ps os) (mk_sys (forget c l) ps os).
Proof. apply rtc_once, StepForget. Qed.

Lemma Channel_Close_steps c loc ps os :
  rtc mps_step (mk_sys c ps os) (mk_sys (Channel_Close c loc).1 ps os).
Proof.
  unfold Channel_Close. destruct (cn_heap c !! loc) as [ch|] eqn:E; [|done].
  pose proof (SecEnd ch ChClosed) as H. destruct (chan_end ch ChClosed) as [ch' []]; [|done].
  etrans; [by eapply chan_step|]. etrans; [apply forget_step | apply net_step].
Qed.

Lemma send_ready c ps1 rid r ps2 :
  replies_inv c (ps1 ++ (rid, r) :: ps2) → ∃ c', send_reply c rid r = (c', None).
Proof.
  intros H. unfold send_reply. rewrite (ri_pending _ _ H); [by eexists|].
  rewrite fmap_app, elem_of_app, fmap_cons. right. left.
Qed.

Lemma handleChannelOpen_steps c p ps os :
  rtc mps_step (mk_sys c ps os) (mk_sys (handleChannelOpen c p).1 ps os).
Proof.
  unfold handleChannelOpen. destruct (ParseChannelOpen p) as [co|]; [|done].
  destruct (accept_lock c co) as [[c' l]|] eqn:E; [|done].
  eapply rtc_l; [by eapply StepAccept | apply net_step].
Qed.

Lemma handleChannelData_steps c p ps os :
  rtc mps_step (mk_sys c ps os) (mk_sys (handleChannelData c p).1 ps os).
Proof.
  unfold handleChannelData. destruct (ParseChannelData p) as [cd|]; [|done].
  destruct (conn_channel c _) as [[loc ch]|] eqn:Ec; [|done].
  apply conn_channel_Some in Ec as [_ Hh]. pose proof (SecDeliver ch (cd_Data cd)) as H.
  destruct (deliver ch (cd_Data cd)) as [ch' [adj|e]]; cbn in H.
  - etrans; [by eapply chan_step|]. case_bool_decide; [apply net_step | done].
  - replace (upd_chan c loc (chan_end ch' e).1) with
      (upd_chan (upd_chan c loc ch') loc (chan_end ch' e).1)
      by (unfold upd_chan, set_heap; cbn; by rewrite insert_insert_eq).
    etrans; [by eapply chan_step|]. etrans; [|etrans; [apply forget_step | apply net_step]].
    eapply chan_step; [cbn; by rewrite lookup_insert_eq | constructor].
Qed.

Lemma handleChannelClose_steps c l ps os :
  rtc mps_step (mk_sys c ps os) (mk_sys (handleChannelClose c l).1 ps os).
Proof.
  unfold handleChannelClose. destruct (conn_channel c _) as [[loc ch]|] eqn:Ec; [|done].
  apply conn_channel_Some in Ec as [_ Hh].
  etrans; [apply (forget_step _ l)|]. etrans; [|apply net_step].
  eapply chan_step; [exact Hh | constructor].
Qed.

Lemma handleWindowAdj_steps c p ps os :
  rtc mps_step (mk_sys c ps os) (mk_sys (handleWindowAdj c p).1 ps os).
Proof.
  unfold handleWindowAdj. case_bool_decide; [done|].
  destruct (uint32_at p 0), (uint32_at p 4); try done.
  destruct (conn_channel c _) as [[loc ch]|] eqn:Ec; [|done].
  apply conn_channel_Some in Ec as [_ Hh]. eapply chan_step; [done | constructor].
Qed.

(** A confirm or a refusal: the critical section, then the answer it owes. *)
Lemma answer_steps c c1 ps os rid r :
  mps_step (mk_sys c ps os) (mk_sys c1 ((rid, r) :: ps) os) → replies_inv c ps →
  (send_reply c1 rid r).2 = None ∧
  rtc mps_step (mk_sys c ps os) (mk_sys (send_reply c1 rid r).1 ps os).
Proof.
  intros Hs Hinv. pose proof (replies_inv_step _ _ Hs Hinv) as H1.
  destruct (send_ready c1 [] rid r ps H1) as [c2 E]. rewrite E. split; [done|].
  eapply rtc_l; [exact Hs|]. by apply rtc_once, (StepSend c1 c2 rid r [] ps os).
Qed.

Lemma confirmOpen_steps c p ps os :
  replies_inv c ps → (confirmOpen c p).2 ≠ Some HBlocked ∧
  rtc mps_step (mk_sys c ps os) (mk_sys (confirmOpen c p).1 ps os).
Proof.
  intros Hinv. unfold confirmOpen.
  destruct (confirm_lock c p) as [[c1 [remote|rid r]]|e] eqn:E.
  - cbn [run_action]. split; [rewrite conn_write_eq; apply lift_io_not_blocked|].
    eapply rtc_l; [by eapply StepConfirm | apply net_step].
  - cbn [run_action]. destruct (answer_steps c c1 ps os rid r) as [-> ?]; [by eapply (StepConfirm c c1 (ReplyWith rid r))|done|done].
  - split; [|done]. revert E. unfold confirm_lock. repeat handler_step; congruence.
Qed.

Lemma refuseOpen_steps c p ps os :
  replies_inv c ps → (refuseOpen c p).2 ≠ Some HBlocked ∧
  rtc mps_step (mk_sys c ps os) (mk_sys (refuseOpen c p).1 ps os).
Proof.
  intros Hinv. unfold refuseOpen.
  destruct (refuse_lock c p) as [[c1 [[rid r]|]]|e] eqn:E.
  - destruct (answer_steps c c1 ps os rid r) as [-> ?]; [by eapply (StepRefuse c c1 (Some (rid, r)))|done|done].
  - split; [done|]. eapply rtc_once. by eapply (StepRefuse c c1 None).
  - split; [|done]. revert E. unfold refuse_lock. repeat handler_step; congruence.
Qed.

Lemma handleMessage_steps c t p ps os :
  replies_inv c ps → (handleMessage c t p).2 ≠ Some HBlocked ∧
  rtc mps_step (mk_sys c ps os) (mk_sys (handleMessage c t p).1 ps os).
Proof.
  intros Hinv. unfold handleMessage. repeat case_bool_decide; try done.
  - destruct (ParseGlobalRequest p) as [gr|]; [|done]. split.
    + destruct (gr_WantReply gr); [|done]. rewrite conn_write_eq. apply lift_io_not_blocked.
    + eapply rtc_l; [apply (StepPorts c gr)|]. destruct (gr_WantReply gr); [apply net_step | done].
  - split; [|apply handleChannelOpen_steps]. unfold handleChannelOpen, accept_lock.
    repeat (handler_step; rewrite ?conn_write_eq; cbn); try done; apply lift_io_not_blocked.
  - by apply confirmOpen_steps.
  - by apply refuseOpen_steps.
  - split; [|apply handleChannelData_steps]. unfold handleChannelData.
    repeat (handler_step; rewrite ?conn_write_eq; cbn); try done; apply lift_io_not_blocked.
  - destruct (Uint32 p) as [l|]; [|done]. split; [|apply handleChannelClose_steps].
    unfold handleChannelClose.
    repeat (handler_step; rewrite ?conn_write_eq; cbn); try done; apply lift_io_not_blocked.
  - split; [|apply handleWindowAdj_steps]. unfold handleWindowAdj. by repeat handler_step.
  - destruct (ParseKeepaliveRequest p) as [ka|]; [|done]. split; [|apply net_step].
    rewrite conn_write_eq. apply lift_io_not_blocked.
Qed.

Lemma end_all_steps c locs ps os :
  rtc mps_step (mk_sys c ps os) (mk_sys (end_all c locs) ps os).
Proof.
  induction locs as [|loc locs IH]; [done|]. etrans; [exact IH|].
  unfold end_all; cbn [foldr]; fold (end_all c locs).
  destruct (cn_heap (end_all c locs) !! loc) as [ch|] eqn:E; [|done].
  eapply chan_step; [done | constructor].
Qed.

Lemma steps_replies s s' :
  rtc mps_step s s' → replies_inv (sy_conn s) (sy_pending s) →
  replies_inv (sy_conn s') (sy_pending s').
Proof. induction 1; eauto using replies_inv_step. Qed.

Lemma close_sends_steps c rids ps os pre :
  replies_inv c (pre ++ ((., ReplyErr OClosed) <$> rids) ++ ps) →
  (close_sends c rids).2 = None ∧
  rtc mps_step (mk_sys c (pre ++ ((., ReplyErr OClosed) <$> rids) ++ ps) os)
               (mk_sys (close_sends c rids).1 (pre ++ ps) os).
Proof.
  revert pre. induction rids as [|rid rids IH]; intros pre Hinv; [done|].
  destruct (IH (pre ++ [(rid, ReplyErr OClosed)])) as [E Hr].
  { by rewrite <- (assoc_L (++)). }
  rewrite <- !(assoc_L (++)) in Hr. pose proof (steps_replies _ _ Hr Hinv) as H1.
  cbn [close_sends foldr]. fold (close_sends c rids).
  destruct (close_sends c rids) as [c1 e1]; cbn in E, Hr, H1; subst e1.
  destruct (send_ready c1 pre rid (ReplyErr OClosed) ps H1) as [c2 E2]. rewrite E2.
  split; [done|]. eapply rtc_r; [exact Hr|]. by apply StepSend.
Qed.

Lemma Conn_Close_steps c ps os :
  replies_inv c ps → (Conn_Close c).2 = None ∧
  rtc mps_step (mk_sys c ps os) (mk_sys (Conn_Close c).1 ps os).
Proof.
  intros Hinv. unfold Conn_Close. destruct (close_lock c) as [[c1 chans] rids] eqn:E.
  pose proof (StepClose c c1 chans rids ps os E) as Hs.
  pose proof (rtc_l _ _ _ _ Hs (end_all_steps c1 chans _ os)) as Hr.
  destruct (close_sends_steps (end_all c1 chans) rids ps os []) as [Hn Hc].
  - exact (steps_replies _ _ Hr Hinv).
  - split; [done|]. etrans; [exact Hr | exact Hc].
Qed.

Lemma reachable_steps s s' : mps_reachable s → rtc mps_step s s' → mps_reachable s'.
Proof. intros H. induction 1; eauto using mps_next. Qed.

(** *** The handshake: what it read and what it wrote *)

Lemma hs_bind_Ok {A B} (m : connM A) (f : A → connM B) c c' b :
  (m ≫= f) c = (c', Ok b) ↔ ∃ c1 a, m c = (c1, Ok a) ∧ f a c1 = (c', Ok b).
Proof.
  unfold mbind, connM_bind. destruct (m c) as [c1 [a|e]]; split.
  - eauto.
  - by intros (? & ? & [= <- <-] & ?).
  - done.
  - by intros (? & ? & [=] & ?).
Qed.

(** [c'] is [c] with [inb] read off the connection and [outb] written to it. *)
Record moved (c c' : Conn) (inb outb : bytes) : Prop := {
  mv_in : rd_bytes (nc_in (cn_net c)) = inb ++ rd_bytes (nc_in (cn_net c'));
  mv_out : nc_sent (cn_net c') = nc_sent (cn_net c) ++ outb;
  mv_rest : c' = set_net c (cn_net c');
}.

Lemma moved_trans c1 c2 c3 i1 i2 o1 o2 :
  moved c1 c2 i1 o1 → moved c2 c3 i2 o2 → moved c1 c3 (i1 ++ i2) (o1 ++ o2).
Proof.
  intros [Hi1 Ho1 Hr1] [Hi2 Ho2 Hr2]. constructor.
  - by rewrite Hi1, Hi2, (assoc_L (++)).
  - by rewrite Ho2, Ho1, (assoc_L (++)).
  - rewrite Hr2 at 1. rewrite Hr1. done.
Qed.

Lemma moved_nil c : moved c c [] [].
Proof. constructor; [done | by rewrite app_nil_r | by destruct c]. Qed.

Lemma hs_expect_Ok t c c' p :
  hs_expect t c = (c', Ok p) → moved c c' (byte_of_Z t :: p) [].
Proof.
  unfold hs_expect. rewrite hs_bind_Ok. intros (c1 & [t' p'] & H & H').
  unfold hs_read in H. destruct (ReadMessage (nc_in (cn_net c))) as [[[t1 p1] r1]|] eqn:E; [|done].
  injection H as <- <- <-. case_bool_decide; [|done]. injection H' as <- <-. subst t1.
  apply ReadMessage_frame in E as [E _]. pose proof (read_frame_framed (nc_in (cn_net c))) as Hf.
  rewrite E in Hf. destruct Hf as (Hb & _). constructor; cbn; [done | by rewrite app_nil_r | done].
Qed.

Lemma hs_write_Ok buf c c' x :
  hs_write (λ w, lift_io (net_write w buf)) c = (c', Ok x) → moved c c' [] buf.
Proof.
  unfold hs_write, lift_io, net_write.
  destruct (nc_fault (cn_net c) (nc_writes (cn_net c))) as [[k e]|]; cbn; [done|].
  intros [= <- _]. by constructor.
Qed.

Lemma hs_lift_Ok {A} (r : result apf_err A) c c' a :
  hs_lift r c = (c', Ok a) → r = Ok a ∧ c' = c.
Proof. unfold hs_lift. destruct r; intros [=]; by subst. Qed.

Definition frame_of (t : Z) (p : bytes) : bytes := byte_of_Z t :: p.

Lemma expectServiceRequest_Ok name c c' :
  blen name ≤ maxAPFStringLen →
  expectServiceRequest name c = (c', Ok tt) →
  ∃ p, ParseServiceRequest p = Ok {| sr_ServiceName := name |} ∧
       moved c c' (frame_of APFServiceRequest p)
         (frame_of APFServiceAccept (be32 (blen name) ++ name)).
Proof.
  intros Hname. unfold expectServiceRequest. rewrite hs_bind_Ok.
  intros (c1 & p & H1%hs_expect_Ok & H). apply hs_bind_Ok in H as (c2 & sr & [Hp ->]%hs_lift_Ok & H).
  case_bool_decide as Hn; [|done]. exists p. destruct sr as [n]; cbn in Hn; subst n. split; [done|].
  unfold WriteServiceAccept, writeStringMsg in H. rewrite bool_decide_false in H by lia.
  apply hs_write_Ok in H. rewrite <- (app_nil_r (frame_of _ p)). exact (moved_trans _ _ _ _ _ _ _ H1 H).
Qed.

Lemma handshake_inv c c' u :
  handshake None c = (c', Ok u) →
  ∃ p1 p2 p3 p4 p5 pv gr,
    ParseProtocolVersion p1 = Ok pv ∧ u = ReorderIntelGUID (pv_UUID pv) ∧
    ParseServiceRequest p2 = Ok {| sr_ServiceName := ServiceAuth |} ∧
    is_ok (ParseUserAuthRequest p3) = true ∧
    ParseServiceRequest p4 = Ok {| sr_ServiceName := ServicePFwd |} ∧
    ParseGlobalRequest p5 = Ok gr ∧
    ∃ c1, moved c c1
      (frame_of APFProtocolVersion p1 ++ frame_of APFServiceRequest p2 ++
       frame_of APFUserAuthRequest p3 ++ frame_of APFServiceRequest p4 ++
       frame_of APFGlobalRequest p5)
      (frame_of APFProtocolVersion (be32 1 ++ be32 0 ++ be32 0 ++ replicate 16 x00) ++
       frame_of APFServiceAccept (be32 (blen ServiceAuth) ++ ServiceAuth) ++
       frame_of APFUserAuthSuccess [] ++
       frame_of APFServiceAccept (be32 (blen ServicePFwd) ++ ServicePFwd)) ∧
    moved (recordBoundPort c1 gr) c' []
      (if gr_WantReply gr then frame_of APFRequestSuccess [] else []).
Proof.
  unfold handshake. rewrite hs_bind_Ok. intros (d1 & g & H1 & H).
  apply hs_bind_Ok in H as (d2 & [] & H2 & H). apply hs_bind_Ok in H as (d3 & [] & H3 & [= <- <-]).
  apply hs_bind_Ok in H1 as (e1 & p1 & M1%hs_expect_Ok & H1).
  apply hs_bind_Ok in H1 as (e2 & pv & [P1 ->]%hs_lift_Ok & H1).
  apply hs_bind_Ok in H1 as (e3 & [] & M2%hs_write_Ok & [= <- <-]).
  apply hs_bind_Ok in H2 as (e4 & [] & (p2 & P2 & M3)%expectServiceRequest_Ok & H2); [|done].
  apply hs_bind_Ok in H2 as (e5 & p3 & M4%hs_expect_Ok & H2).
  apply hs_bind_Ok in H2 as (e6 & ua & [P3 ->]%hs_lift_Ok & M5%hs_write_Ok).
  apply hs_bind_Ok in H3 as (e7 & [] & (p4 & P4 & M6)%expectServiceRequest_Ok & H3); [|done].
  apply hs_bind_Ok in H3 as (e8 & p5 & M7%hs_expect_Ok & H3).
  apply hs_bind_Ok in H3 as (e9 & gr & [P5 ->]%hs_lift_Ok & H3).
  exists p1, p2, p3, p4, p5, pv, gr. rewrite P3. split_and!; auto. exists e8. split.
  - pose proof (moved_trans _ _ _ _ _ _ _ M1 (moved_trans _ _ _ _ _ _ _ M2
      (moved_trans _ _ _ _ _ _ _ M3 (moved_trans _ _ _ _ _ _ _ M4 (moved_trans _ _ _ _ _ _ _ M5
      (moved_trans _ _ _ _ _ _ _ M6 M7)))))) as HM.
    rewrite !app_nil_l, app_nil_r in HM. exact HM.
  - unfold hs_reply in H3. destruct (gr_WantReply gr).
    + by apply hs_write_Ok in H3.
    + injection H3 as <-. apply moved_nil.
Qed.

Definition at_stream (c : Conn) (s : bytes) (e : io_err) : Prop :=
  sound_conn (cn_net c) ∧ nc_in (cn_net c) = mk_reader s e.

Lemma hs_expect_frame f t p rest e c :
  is_frame f t p → at_stream c (f ++ rest) e →
  ∃ c', hs_expect t c = (c', Ok p) ∧ at_stream c' rest e.
Proof.
  intros Hf [Hs Hin]. unfold hs_expect, mbind, connM_bind, hs_read. rewrite Hin, Hf.
  rewrite bool_decide_true by done. eexists. split; [done|]. split; [exact Hs | done].
Qed.

Lemma hs_write_sound buf c s e :
  at_stream c s e →
  ∃ c', hs_write (λ w, lift_io (net_write w buf)) c = (c', Ok tt) ∧ at_stream c' s e.
Proof.
  intros [Hs Hin]. unfold hs_write. rewrite net_write_sound by done. cbn.
  eexists. split; [done|]. split; [exact Hs | done].
Qed.

Lemma expectServiceRequest_frame f name p rest e c :
  blen name ≤ maxAPFStringLen → is_frame f APFServiceRequest p →
  ParseServiceRequest p = Ok {| sr_ServiceName := name |} → at_stream c (f ++ rest) e →
  ∃ c', expectServiceRequest name c = (c', Ok tt) ∧ at_stream c' rest e.
Proof.
  intros Hn Hf Hp Hc. destruct (hs_expect_frame _ _ _ _ _ _ Hf Hc) as (c1 & E1 & H1).
  destruct (hs_write_sound (frame_of APFServiceAccept (be32 (blen name) ++ name)) c1 _ _ H1)
    as (c2 & E2 & H2).
  exists c2. split; [|done]. unfold expectServiceRequest. apply hs_bind_Ok. exists c1, p. split; [done|].
  apply hs_bind_Ok. eexists c1, _. split; [unfold hs_lift; by rewrite Hp|].
  rewrite bool_decide_true by done. unfold WriteServiceAccept, writeStringMsg.
  rewrite bool_decide_false by lia. exact E2.
Qed.

Lemma recordBoundPort_net c gr : cn_net (recordBoundPort c gr) = cn_net c.
Proof.
  unfold recordBoundPort. case_bool_decide; [done|]. by destruct (ParseForwardData _) as [[??]|].
Qed.

(** ** Claims *)

(** C32: no goroutine blocks on an open's answer.  In every state that the
    critical sections of the message loop, of the callers of [OpenChannel], of the
    owners of channels and of [Close] can reach, in any interleaving (an end and
    the forget that follows it included), every answer about to be sent has its
    one-slot buffer to itself; the channel map is nil exactly when the connection is
    closed, and the map of opens is nil then; and every entry of the channel map is a
    channel of its own id.  From
    such a state a whole [handleMessage], [Channel.Close] or [Close] is a run of
    those sections, and neither the handler nor [Close] blocks. *)
Theorem reply_send_never_blocks s :
  mps_reachable s →
  (∀ rid r, (rid, r) ∈ sy_pending s → ∃ c', send_reply (sy_conn s) rid r = (c', None)) ∧
  conn_maps (sy_conn s) ∧
  (∀ t payload, let '(c', e) := handleMessage (sy_conn s) t payload in
     e ≠ Some HBlocked ∧ mps_reachable (mk_sys c' (sy_pending s) (sy_openers s))) ∧
  (∀ loc, let '(c', _) := Channel_Close (sy_conn s) loc in
     mps_reachable (mk_sys c' (sy_pending s) (sy_openers s))) ∧
  (let '(c', e) := Conn_Close (sy_conn s) in
     e = None ∧ mps_reachable (mk_sys c' (sy_pending s) (sy_openers s))).
Proof.
  intros Hr. destruct (reachable_inv s Hr) as [Hwf Hinv]. destruct s as [c ps os]; cbn [sy_conn sy_pending sy_openers] in *.
  split_and!; [|done|..].
  - intros rid r [ps1 [ps2 ->]]%list_elem_of_split. by eapply send_ready.
  - intros t p. destruct (handleMessage_steps c t p ps os Hinv) as [He Hs].
    destruct (handleMessage c t p). split; [done | by eapply reachable_steps].
  - intros loc. pose proof (Channel_Close_steps c loc ps os) as Hs.
    destruct (Channel_Close c loc). by eapply reachable_steps.
  - destruct (Conn_Close_steps c ps os Hinv) as [He Hs].
    destruct (Conn_Close c). split; [done | by eapply reachable_steps].
Qed.

(** An open is never forgotten.  While a caller waits in [OpenChannel], its
    id is still in [opening], or its answer is about to be sent or already in its
    buffer; in particular once the connection is closed and the answers are
    sent, every waiting caller has one. *)
Theorem open_attended s rid l :
  mps_reachable_fresh s → sy_openers s !! rid = Some (OWaiting l) →
  attended s l rid ∧
  (cn_closed (sy_conn s) = true → sy_pending s = [] →
   ∃ r, cn_replies (sy_conn s) !! rid = Some (Some r)).
Proof.
  intros Hr Hw. pose proof (oi_attended s (reachable_fresh_inv s Hr) rid l Hw) as Hatt.
  split; [done|]. intros Hcl Hp. destruct Hatt as [E|[E|E]]; [| |done].
  - destruct (reachable_inv s (reachable_fresh_reachable s Hr)) as [Hwf _].
    unfold opening_of in E. by rewrite (wf_opening _ _ Hwf Hcl) in E.
  - rewrite Hp in E. by apply elem_of_nil in E.
Qed.

(** Whatever message the device sends, an open connection's handler
    returns without a nil-map write or an out-of-range access, and keeps the
    connection well formed: each map entry is the live channel of its own id. *)
Theorem handleMessage_safe c t payload :
  conn_wf c → cn_closed c = false →
  conn_wf (handleMessage c t payload).1 ∧ sane_err (handleMessage c t payload).2.
Proof. intros. split; [by apply conn_wf_handleMessage | by apply handleMessage_sane]. Qed.

(** Channel data reaches the channel it names and no other: the addressed
    stream grows by exactly the data, every other channel, both maps and the
    wire are untouched. *)
Theorem channel_data_routed c loc ch data :
  conn_channel c (ch_LocalID ch) = Some (loc, ch) →
  is_u32 (ch_LocalID ch) → is_u32 (blen data) → ch_discard ch = false → ch_err ch = None →
  blen (ch_inbox ch) + blen data ≤ DefaultWindowSize →
  ∃ ch', handleMessage c APFChannelData (be32 (ch_LocalID ch) ++ be32 (blen data) ++ data) =
    (upd_chan c loc ch', None) ∧
    ch_inbox ch' = ch_inbox ch ++ data ∧ ch_err ch' = None ∧ ch_LocalID ch' = ch_LocalID ch ∧
    ∀ loc', loc' ≠ loc → cn_heap (upd_chan c loc ch') !! loc' = cn_heap c !! loc'.
Proof.
  intros Hch Hid Hlen Hd He Hroom.
  exists (signal (with_inbox ch (ch_inbox ch ++ data))). split_and!; auto.
  - change (handleMessage c APFChannelData ?p) with (handleChannelData c p).
    unfold handleChannelData. rewrite ParseChannelData_app by done. cbn [cd_RecipientChannel cd_Data].
    rewrite Hch. unfold deliver. rewrite Hd, He, bool_decide_false by lia. done.
  - intros loc' Hne. cbn. by rewrite lookup_insert_ne.
Qed.

(** A device that completes the handshake sent the protocol version, the
    auth service request, the user auth, the port-forward service request and a
    global request, in that order and nothing in between, and was sent exactly
    the matching answers; its identity is the reordered GUID it announced. *)
Theorem handshake_sound c c' u :
  handshake None c = (c', Ok u) →
  ∃ p1 p2 p3 p4 p5 pv gr,
    rd_bytes (nc_in (cn_net c)) =
      (frame_of APFProtocolVersion p1 ++ frame_of APFServiceRequest p2 ++
       frame_of APFUserAuthRequest p3 ++ frame_of APFServiceRequest p4 ++
       frame_of APFGlobalRequest p5) ++ rd_bytes (nc_in (cn_net c')) ∧
    ParseProtocolVersion p1 = Ok pv ∧ u = ReorderIntelGUID (pv_UUID pv) ∧
    ParseServiceRequest p2 = Ok {| sr_ServiceName := ServiceAuth |} ∧
    is_ok (ParseUserAuthRequest p3) = true ∧
    ParseServiceRequest p4 = Ok {| sr_ServiceName := ServicePFwd |} ∧
    ParseGlobalRequest p5 = Ok gr ∧
    nc_sent (cn_net c') = nc_sent (cn_net c) ++
      (frame_of APFProtocolVersion (be32 1 ++ be32 0 ++ be32 0 ++ replicate 16 x00) ++
       frame_of APFServiceAccept (be32 (blen ServiceAuth) ++ ServiceAuth) ++
       frame_of APFUserAuthSuccess [] ++
       frame_of APFServiceAccept (be32 (blen ServicePFwd) ++ ServicePFwd)) ++
      (if gr_WantReply gr then frame_of APFRequestSuccess [] else []) ∧
    c' = set_net (recordBoundPort c gr) (cn_net c').
Proof.
  intros (p1 & p2 & p3 & p4 & p5 & pv & gr & ? & ? & ? & ? & ? & ? & c1 & [M1 M2 M3] & [N1 N2 N3])
    %handshake_inv.
  rewrite recordBoundPort_net, app_nil_l in *. rewrite <- N1.
  exists p1, p2, p3, p4, p5, pv, gr. split_and!; auto.
  - rewrite N2, M2, <- !(assoc_L (++)). done.
  - rewrite N3 at 1. rewrite M3. unfold recordBoundPort. case_bool_decide; [done|].
    by destruct (ParseForwardData _) as [[??]|].
Qed.

(** Conversely a device that sends these five messages over a connection
    whose writes succeed completes the handshake, and the server has read
    nothing past them. *)
Theorem handshake_complete c f1 f2 f3 f4 f5 p1 p2 p3 p4 p5 pv ua gr rest e :
  sound_conn (cn_net c) →
  nc_in (cn_net c) = mk_reader (f1 ++ f2 ++ f3 ++ f4 ++ f5 ++ rest) e →
  is_frame f1 APFProtocolVersion p1 → ParseProtocolVersion p1 = Ok pv →
  is_frame f2 APFServiceRequest p2 →
  ParseServiceRequest p2 = Ok {| sr_ServiceName := ServiceAuth |} →
  is_frame f3 APFUserAuthRequest p3 → ParseUserAuthRequest p3 = Ok ua →
  is_frame f4 APFServiceRequest p4 →
  ParseServiceRequest p4 = Ok {| sr_ServiceName := ServicePFwd |} →
  is_frame f5 APFGlobalRequest p5 → ParseGlobalRequest p5 = Ok gr →
  ∃ c', handshake None c = (c', Ok (ReorderIntelGUID (pv_UUID pv))) ∧
        nc_in (cn_net c') = mk_reader rest e.
Proof.
  intros Hs Hin F1 P1 F2 P2 F3 P3 F4 P4 F5 P5.
  destruct (hs_expect_frame _ _ _ _ _ c F1 (conj Hs Hin)) as (c1 & E1 & S1).
  destruct (hs_write_sound (frame_of APFProtocolVersion
    (be32 1 ++ be32 0 ++ be32 0 ++ replicate 16 x00)) c1 _ _ S1) as (c2 & E2 & S2).
  destruct (expectServiceRequest_frame _ ServiceAuth _ _ _ c2 ltac:(done) F2 P2 S2) as (c3 & E3 & S3).
  destruct (hs_expect_frame _ _ _ _ _ c3 F3 S3) as (c4 & E4 & S4).
  destruct (hs_write_sound [byte_of_Z APFUserAuthSuccess] c4 _ _ S4) as (c5 & E5 & S5).
  destruct (expectServiceRequest_frame _ ServicePFwd _ _ _ c5 ltac:(done) F4 P4 S5) as (c6 & E6 & S6).
  destruct (hs_expect_frame _ _ _ _ _ c6 F5 S6) as (c7 & E7 & S7).
  assert (∃ c', hs_reply gr c7 = (c', Ok tt) ∧ at_stream c' rest e) as (c8 & E8 & [_ S8]).
  { unfold hs_reply. assert (at_stream (recordBoundPort c7 gr) rest e) as H
      by (unfold at_stream; by rewrite recordBoundPort_net).
    destruct (gr_WantReply gr); [by apply hs_write_sound | eauto]. }
  exists c8. split; [|done]. unfold handshake. apply hs_bind_Ok. exists c2, (ReorderIntelGUID (pv_UUID pv)).
  split; [|apply hs_bind_Ok; exists c5, tt; split; [|apply hs_bind_Ok; exists c8, tt; split; [|done]]].
  - apply hs_bind_Ok. exists c1, p1. split; [done|]. apply hs_bind_Ok. exists c1, pv.
    split; [unfold hs_lift; by rewrite P1|]. apply hs_bind_Ok. by exists c2, tt.
  - apply hs_bind_Ok. exists c3, tt. split; [done|]. apply hs_bind_Ok. exists c4, p3. split; [done|].
    apply hs_bind_Ok. exists c4, ua. split; [unfold hs_lift; by rewrite P3 | done].
  - apply hs_bind_Ok. exists c6, tt. split; [done|]. apply hs_bind_Ok. exists c7, p5. split; [done|].
    apply hs_bind_Ok. exists c7, gr. split; [unfold hs_lift; by rewrite P5 | done].
Qed.

(** A confirm that races the caller giving up leaves a live channel nobody
    owns: the loop has taken the open but not yet sent its answer when
    [abandonOpen] polls the empty buffer, so the channel stays in the map, not
    ended, with no caller left to close it. *)
Theorem abandon_race_leaks :
  ∃ s loc ch, mps_reachable s ∧ sy_pending s = [] ∧ sy_openers s = ∅ ∧
    cn_closed (sy_conn s) = false ∧ conn_channel (sy_conn s) 0 = Some (loc, ch) ∧
    ch_err ch = None ∧ ch_discard ch = false ∧ ch_Type ch = lit "direct-tcpip".
Proof.
  set (c0 := new_conn witness_conn).
  destruct (open_begin c0) as [[[c1 l] rid]|] eqn:E1; [|by vm_compute in E1].
  set (p := be32 0 ++ be32 5 ++ be32 32768 ++ be32 32768).
  assert (l = 0) as -> by (vm_compute in E1; congruence).
  assert (rid = 0%nat) as -> by (vm_compute in E1; congruence).
  assert (∃ c2, confirm_lock c1 p = Ok (c2, ReplyWith 0%nat (ReplyChannel 1%nat))) as [c2 E2].
  { injection E1 as <-. eexists. vm_compute. reflexivity. }
  set (c3 := abandon_delete c2 0). set (c4 := (poll_reply c3 0%nat).1).
  assert (∃ c5, send_reply c4 0%nat (ReplyChannel 1%nat) = (c5, None)) as [c5 E5].
  { injection E1 as <-. vm_compute in E2. injection E2 as <-. eexists. vm_compute. reflexivity. }
  exists (mk_sys c5 [] ∅), 1%nat, (newChannel 0 5 (lit "direct-tcpip") 32768). split.
  - pose proof (mps_next _ _ (mps_init witness_conn) (StepOpen _ _ _ _ [] ∅ E1)) as R1.
    pose proof (mps_next _ _ R1 (StepConfirm _ _ _ _ _ _ E2)) as R2.
    pose proof (mps_next _ _ R2 (StepGiveUp _ 0 0%nat _ _ (lookup_insert_eq _ _ _))) as R3.
    pose proof (mps_next _ _ R3 (StepLeave _ 0%nat _ _ (lookup_insert_eq _ _ _))) as R4.
    pose proof (mps_next _ _ R4 (StepSend _ _ _ _ [] [] _ E5)) as R5.
    by replace (delete 0%nat (<[0%nat:=OLeaving]> (<[0%nat:=OWaiting 0]> (∅ : gmap nat opener))))
      with (∅ : gmap nat opener) in R5 by (by vm_compute).
  - injection E1 as <-. vm_compute in E2. injection E2 as <-. vm_compute in E5. injection E5 as <-.
    by vm_compute.
Qed.

(** A device that reconnects before its old connection is gone drops out of
    the registry: unregistering the old connection deletes the entry of the new
    one and marks the row offline, while one connection is still counted. *)
Theorem unregister_drops_reconnected resolve upsert_ok set_status_ok u old new device tenant s :
  old ≠ new → resolve u = Some (device, tenant) → device ≠ 0 →
  upsert_ok u = true → set_status_ok u = true →
  linked s old = false → linked s new = false →
  let s1 := registerConn resolve upsert_ok s old u in
  let s2 := registerConn resolve upsert_ok s1 new u in
  let s3 := unregisterConn set_status_ok s2 old u in
  GetConn s1 u = Some old ∧ GetConn s2 u = Some new ∧
  GetConn s3 u = None ∧ sv_online s3 !! u = Some false ∧ sv_count s3 = sv_count s + 1.
Proof.
  intros Hne Hr Hd Hu Hs Ho Hn s1 s2 s3.
  assert (s1 = mk_server (<[u := old]> (sv_conns s)) (sv_count s + 1)
    (<[old := (device, tenant)]> (sv_linked s)) (<[u := true]> (sv_online s))) as E1.
  { unfold s1, registerConn, linkConn. change (linked (mk_server _ _ _ _) old) with (linked s old).
    by rewrite Ho, Hr, Hu. }
  assert (linked s1 new = false) as Hn1.
  { rewrite E1. unfold linked; cbn. rewrite lookup_insert_ne by done. exact Hn. }
  assert (s2 = mk_server (<[u := new]> (sv_conns s1)) (sv_count s1 + 1)
    (<[new := (device, tenant)]> (sv_linked s1)) (<[u := true]> (sv_online s1))) as E2.
  { unfold s2, registerConn, linkConn. change (linked (mk_server _ _ _ _) new) with (linked s1 new).
    by rewrite Hn1, Hr, Hu. }
  assert (linked s2 old = true) as Ho2.
  { rewrite E2, E1. unfold linked; cbn. rewrite lookup_insert_ne, lookup_insert_eq by done.
    by rewrite bool_decide_true. }
  unfold s3, unregisterConn, GetConn. rewrite Ho2, Hs. rewrite E2, E1; cbn.
  rewrite !lookup_insert_eq, lookup_delete_eq. split_and!; auto. lia.
Qed.

(** ** Witnesses *)

Definition open_conn : Conn := (open_send (new_conn witness_conn) (lit "127.0.0.1") 16992).1.

(** One caller waiting, its confirm handled by the loop but not sent yet. *)
Definition pending_sys : sys :=
  match open_begin (new_conn witness_conn) with
  | Ok (c, l, rid) =>
      match confirm_lock c (be32 0 ++ be32 5 ++ be32 32768 ++ be32 32768) with
      | Ok (c, ReplyWith rid r) => mk_sys c [(rid, r)] {[ rid := OWaiting l ]}
      | _ => mk_sys c [] ∅
      end
  | Err _ => mk_sys (new_conn witness_conn) [] ∅
  end.

Lemma pending_sys_reachable : mps_reachable_fresh pending_sys.
Proof.
  set (s0 := mk_sys (new_conn witness_conn) [] ∅).
  set (s1 := match open_begin (new_conn witness_conn) with
             | Ok (c, l, rid) => mk_sys c [] {[ rid := OWaiting l ]}
             | Err _ => s0 end).
  assert (mps_step_fresh s0 s1) as H1.
  { split; [by apply StepOpen | by intros rid]. }
  apply (mps_fresh_next s1).
  { exact (mps_fresh_next s0 s1 (mps_fresh_init witness_conn) H1). }
  split.
  - exact (StepConfirm (sy_conn s1) (sy_conn pending_sys) (ReplyWith 0%nat (ReplyChannel 1%nat)) []
             {[ 0%nat := OWaiting 0 ]} (be32 0 ++ be32 5 ++ be32 32768 ++ be32 32768) eq_refl).
  - intros rid. cbn. destruct (decide (rid = 0%nat)) as [->|];
      [by rewrite lookup_insert_eq | by rewrite lookup_insert_ne].
Qed.

Lemma reply_send_never_blocks_witness :
  ∃ c', send_reply (sy_conn pending_sys) 0%nat (ReplyChannel 1%nat) = (c', None).
Proof.
  apply (reply_send_never_blocks pending_sys).
  - apply reachable_fresh_reachable, pending_sys_reachable.
  - apply elem_of_cons. by left.
Defined.

Lemma open_attended_witness : attended pending_sys 0 0%nat.
Proof. apply open_attended; [apply pending_sys_reachable | reflexivity]. Defined.

Lemma handleMessage_safe_witness :
  conn_wf (handleMessage (new_conn witness_conn) APFKeepaliveRequest [x00; x00; x00; x2a]).1.
Proof.
  apply (handleMessage_safe (new_conn witness_conn) APFKeepaliveRequest [x00; x00; x00; x2a]);
    [apply maps_ok_init | reflexivity].
Defined.

Definition routed_conn : Conn := sy_conn pending_sys.

Lemma channel_data_routed_witness :
  ∃ ch', (handleMessage routed_conn APFChannelData (be32 0 ++ be32 2 ++ [x41; x42])) =
    (upd_chan routed_conn 1%nat ch', None) ∧ ch_inbox ch' = [x41; x42].
Proof.
  edestruct (channel_data_routed routed_conn 1%nat
    (newChannel 0 5 (lit "direct-tcpip") 32768) [x41; x42]) as (ch' & H1 & H2 & _);
    [vm_compute; reflexivity | vm_compute; intuition congruence.. | reflexivity | reflexivity
    | vm_compute; discriminate |].
  exists ch'. split; [exact H1 | exact H2].
Defined.

(** A device's five handshake messages. *)
Definition apf_string (s : bytes) : bytes := be32 (blen s) ++ s.
Definition hs_p1 : bytes := be32 1 ++ be32 0 ++ be32 0 ++ replicate 16 x11.
Definition hs_p3 : bytes := apf_string (lit "admin") ++ apf_string (lit "pfwd") ++ apf_string (lit "none").
Definition hs_p5 : bytes :=
  apf_string (lit "tcpip-forward") ++ [x01] ++ apf_string (lit "0.0.0.0") ++ be32 16992.

Definition device_conn : Conn :=
  new_conn (mk_netconn (mk_reader
    (frame_of APFProtocolVersion hs_p1 ++ frame_of APFServiceRequest (apf_string ServiceAuth) ++
     frame_of APFUserAuthRequest hs_p3 ++ frame_of APFServiceRequest (apf_string ServicePFwd) ++
     frame_of APFGlobalRequest hs_p5 ++ []) EOF) [] 0 (λ _, None)).

Lemma handshake_sound_witness :
  match handshake None device_conn with
  | (c', Ok u) => ∃ p1 rest, rd_bytes (nc_in (cn_net device_conn)) = frame_of APFProtocolVersion p1 ++ rest
  | _ => False
  end.
Proof.
  destruct (handshake None device_conn) as [c' [u|]] eqn:E;
    [|vm_compute in E; congruence].
  destruct (handshake_sound device_conn c' u E) as (p1 & p2 & p3 & p4 & p5 & pv & gr & H & _).
  eexists p1, _. rewrite H, <- (assoc_L (++)). reflexivity.
Defined.

Lemma handshake_complete_witness :
  ∃ c', handshake None device_conn = (c', Ok (replicate 16 x11)) ∧
        nc_in (cn_net c') = mk_reader [] EOF.
Proof.
  refine (handshake_complete device_conn _ _ _ _ _ hs_p1 (apf_string ServiceAuth) hs_p3
    (apf_string ServicePFwd) hs_p5
    {| pv_MajorVersion := 1; pv_MinorVersion := 0; pv_Trigger := 0; pv_UUID := replicate 16 x11 |}
    {| ua_Username := lit "admin"; ua_ServiceName := lit "pfwd"; ua_MethodName := lit "none" |}
    {| gr_RequestName := lit "tcpip-forward"; gr_WantReply := true;
       gr_Data := apf_string (lit "0.0.0.0") ++ be32 16992 |}
    [] EOF (λ n, eq_refl) eq_refl _ _ _ _ _ _ _ _ _ _);
    first [ intros rest e; vm_compute; destruct e; reflexivity | vm_compute; reflexivity ].
Defined.

Lemma unregister_drops_reconnected_witness :
  let s0 := mk_server ∅ 0 ∅ ∅ in
  let reg := registerConn (λ _, Some (7, 9)) (λ _, true) in
  GetConn (unregisterConn (λ _, true) (reg (reg s0 1%nat 42) 2%nat 42) 1%nat 42) 42 = None.
Proof.
  refine (proj1 (proj2 (proj2 (unregister_drops_reconnected (λ _, Some (7, 9)) (λ _, true)
    (λ _, true) 42 1%nat 2%nat 7 9 (mk_server ∅ 0 ∅ ∅) _ _ _ _ _ _ _)))); (done || reflexivity).
Defined.
