(* ===== verification/Codec.v ===== *)
(** * The agent wire protocol: frames and handshake messages

    [src/server/internal/protocol/codec.go] (framing and handshake) and the
    constants, [GenerateSessionToken] and [RedactToken] of [types.go].  A frame
    is a type byte, a big-endian length and a payload; pings and pongs are the
    type byte alone. *)
From S2P Require Import Prelude Io.

Definition FrameControl := x01.
Definition FrameDesktop := x02.
Definition FrameTerminal := x03.
Definition FrameFile := x04.
Definition FramePing := x05.
Definition FramePong := x06.

Definition MsgServerHello := x10.
Definition MsgAgentHello := x11.
Definition MsgSkipAuth := x14.
Definition MsgExpectHash := x15.

Definition MaxFrameSize : Z := 16 * 1024 * 1024.

Inductive frame_err :=
  | ErrFrameTooLarge (n : Z)
  | ErrUnknownFrameType (t : byte)
  | ErrIncompleteFrame (e : io_err)
  | FrameIO (e : io_err).

#[global] Instance frame_err_eq_dec : EqDecision frame_err.
Proof. solve_decision. Defined.

Definition is_bare (t : byte) : bool := bool_decide (t = FramePing ∨ t = FramePong).
Definition has_payload (t : byte) : bool :=
  bool_decide (t = FrameControl ∨ t = FrameDesktop ∨ t = FrameTerminal ∨ t = FrameFile).

Definition frame_io (p : netconn * option io_err) : netconn * option frame_err :=
  (p.1, FrameIO <$> p.2).

Definition WriteFrame (w : netconn) (frameType : byte) (payload : bytes) :
    netconn * option frame_err :=
  if is_bare frameType then frame_io (net_write w [frameType])
  else if bool_decide (MaxFrameSize < blen payload)
  then (w, Some (ErrFrameTooLarge (blen payload)))
  else
    match net_write w (frameType :: be32 (u32 (blen payload))) with
    | (w, Some e) => (w, Some (FrameIO e))
    | (w, None) => if bool_decide (0 < blen payload) then frame_io (net_write w payload) else (w, None)
    end.

(** [io.ReadFull] with the error of [ReadFrame] around it. *)
Definition read_or {E} (f : io_err → E) (r : reader) (n : nat) : result E (bytes * reader) :=
  match read_full r n with
  | Ok x => Ok x
  | Err e => Err (f e)
  end.

Definition ReadFrame (r : reader) : result frame_err (byte * bytes * reader) :=
  '(typeBuf, r) ← read_or FrameIO r 1;
  match typeBuf with
  | [frameType] =>
      if is_bare frameType then Ok (frameType, [], r)
      else if negb (has_payload frameType) then Err (ErrUnknownFrameType frameType)
      else
        '(lengthBuf, r) ← read_or ErrIncompleteFrame r 4;
        let length := default 0 (get_be32 lengthBuf) in   (* of four bytes *)
        if bool_decide (MaxFrameSize < length) then Err (ErrFrameTooLarge length)
        else if bool_decide (0 < length)
        then '(payload, r) ← read_or ErrIncompleteFrame r (Z.to_nat length);
             Ok (frameType, payload, r)
        else Ok (frameType, [], r)
  | _ => Err (FrameIO UnexpectedEOF)
  end.

(** ** Handshake messages *)

Inductive hello_err :=
  | EmptyHandshake
  | UnknownHandshake (t : byte)
  | HelloLength (n : Z)
  | HelloType (t : byte).

Definition EncodeHandshake (msgType : byte) (payload : bytes) : bytes := msgType :: payload.

(** A fixed-size Go array copied into its slot: its bytes, cut or zero-filled. *)
Definition fit (n : nat) (b : bytes) : bytes := take n b ++ replicate (n - length b) x00.

Definition EncodeServerHello (nonce certHash : bytes) : bytes :=
  MsgServerHello :: fit 32 nonce ++ fit 48 certHash.
Definition EncodeAgentHello (nonce agentCertHash : bytes) : bytes :=
  MsgAgentHello :: fit 32 nonce ++ fit 48 agentCertHash.
Definition EncodeSkipAuth (cachedCertHash : bytes) : bytes :=
  MsgSkipAuth :: fit 48 cachedCertHash.

Definition DecodeHandshakeType (data : bytes) : result hello_err byte :=
  match data with
  | [] => Err EmptyHandshake
  | msgType :: _ =>
      if bool_decide (msgType = MsgServerHello ∨ msgType = MsgAgentHello ∨
                      msgType = MsgSkipAuth ∨ msgType = MsgExpectHash)
      then Ok msgType else Err (UnknownHandshake msgType)
  end.

Definition DecodeServerHello (data : bytes) : result hello_err (bytes * bytes) :=
  if bool_decide (blen data ≠ 81) then Err (HelloLength (blen data)) else
  match data with
  | t :: rest =>
      if bool_decide (t ≠ MsgServerHello) then Err (HelloType t)
      else Ok (take 32 rest, take 48 (drop 32 rest))
  | [] => Err EmptyHandshake
  end.

(** ** Session tokens *)

(** [encoding/hex]: two lower-case digits a byte. *)
Definition hex_digit (n : Z) : byte :=
  if bool_decide (n < 10) then byte_of_Z (48 + n) else byte_of_Z (87 + n).
Definition hex_encode (b : bytes) : bytes :=
  b ≫= λ x, [hex_digit (Z_of_byte x `div` 16); hex_digit (Z_of_byte x `mod` 16)].

(** [rand.Read] filled the 32 bytes [buf]. *)
Definition GenerateSessionToken (buf : bytes) : bytes := hex_encode (fit 32 buf).

Definition RedactToken (token : bytes) : bytes :=
  if bool_decide (blen token ≤ 8) then lit "***" else take 8 token ++ lit "...".

(** ** The frame a type and payload stand for *)

Definition frame_ok (t : byte) (p : bytes) : Prop :=
  (is_bare t = true ∧ p = []) ∨ (has_payload t = true ∧ blen p ≤ MaxFrameSize).

Definition encode_frame (t : byte) (p : bytes) : bytes :=
  if is_bare t then [t] else t :: be32 (blen p) ++ p.

(** Everything a reader yields, frame by frame, and how it stopped.  Each frame
    takes at least one byte, so the stream's length is enough fuel. *)
Fixpoint read_frames (fuel : nat) (r : reader) : list (byte * bytes) * option frame_err :=
  match fuel with
  | O => ([], None)
  | S fuel =>
      match ReadFrame r with
      | Err e => ([], Some e)
      | Ok (t, p, r) => let '(fs, e) := read_frames fuel r in ((t, p) :: fs, e)
      end
  end.

Fixpoint write_frames (w : netconn) (fs : list (byte * bytes)) : netconn * option frame_err :=
  match fs with
  | [] => (w, None)
  | (t, p) :: fs =>
      match WriteFrame w t p with
      | (w, Some e) => (w, Some e)
      | (w, None) => write_frames w fs
      end
  end.

(** ** Lemmas *)

Lemma is_bare_no_payload t : is_bare t = true → has_payload t = false.
Proof. unfold is_bare, has_payload. rewrite bool_decide_eq_true, bool_decide_eq_false. by intros [-> | ->]; vm_compute; intuition. Qed.

Lemma payload_not_bare t : has_payload t = true → is_bare t = false.
Proof. destruct (is_bare t) eqn:E; [|done]. by rewrite is_bare_no_payload. Qed.

Lemma read_or_Ok {E} (f : io_err → E) r n b r' :
  read_or f r n = Ok (b, r') ↔
  rd_bytes r = b ++ rd_bytes r' ∧ length b = n ∧ rd_end r' = rd_end r.
Proof.
  rewrite <- read_full_Ok. unfold read_or. destruct (read_full r n) as [x|]; split; congruence.
Qed.

Lemma MaxFrameSize_u32 n : 0 ≤ n ≤ MaxFrameSize → is_u32 n.
Proof. unfold MaxFrameSize, is_u32. lia. Qed.

Lemma reader_ext r r' : rd_bytes r = rd_bytes r' → rd_end r = rd_end r' → r = r'.
Proof. destruct r, r'; cbn. congruence. Qed.

Lemma blen_zero {A} (l : list A) : ¬ 0 < Z.of_nat (length l) → l = [].
Proof. destruct l; cbn; [done|lia]. Qed.

Lemma encode_frame_payload t p : has_payload t = true → encode_frame t p = t :: be32 (blen p) ++ p.
Proof. intros H. unfold encode_frame. by rewrite payload_not_bare. Qed.

Lemma ReadFrame_iff r t p r' :
  ReadFrame r = Ok (t, p, r') ↔
  frame_ok t p ∧ rd_bytes r = encode_frame t p ++ rd_bytes r' ∧ rd_end r' = rd_end r.
Proof.
  unfold ReadFrame, frame_ok. rewrite bind_Ok. split.
  - intros ([tb r1] & (Hb & Hl & He)%read_or_Ok & H). destruct tb as [|ft [|]]; try done.
    destruct (is_bare ft) eqn:Eb; [injection H as <- <- <-; split; [by left|]; unfold encode_frame; by rewrite Eb|].
    destruct (has_payload ft) eqn:Ep; [cbn [negb] in H|done].
    apply bind_Ok in H as ([lb r2] & (Hb2 & Hl2 & He2)%read_or_Ok & H).
    destruct (get_be32 lb) as [n|] eqn:En; [|by destruct lb as [|?[|?[|?[|?[]]]]]].
    pose proof (get_be32_range _ _ En) as Hn. unfold is_u32 in Hn.
    assert (be32 n = lb) as Hlb by (apply (be32_get_be32 lb n []); [done | by rewrite app_nil_r]).
    cbn in H. destruct (decide (MaxFrameSize < n)); [by rewrite bool_decide_true in H|].
    rewrite bool_decide_false in H by done. case_bool_decide.
    + apply bind_Ok in H as ([pl r3] & (Hb3 & Hl3 & He3)%read_or_Ok & [= <- <- <-]).
      assert (blen pl = n) as Hpl by (unfold blen; lia).
      rewrite encode_frame_payload, Hpl, Hlb by done. split_and!; [right; split; [done|lia]| |congruence].
      rewrite Hb, Hb2, Hb3. cbn. by rewrite <- (assoc_L (++)).
    + injection H as <- <- <-. assert (n = 0) as -> by lia.
      rewrite encode_frame_payload by done. change (blen []) with 0. rewrite Hlb, app_nil_r.
      split_and!; [right; done| |congruence]. by rewrite Hb, Hb2.
  - intros ([[Hb ->]|[Hp Hlen]] & Hr & He).
    + unfold encode_frame in Hr. rewrite Hb in Hr. eexists ([t], r'). split; [by apply read_or_Ok|].
      by rewrite Hb.
    + rewrite encode_frame_payload in Hr by done. pose proof (blen_nonneg p).
      exists ([t], mk_reader (be32 (blen p) ++ p ++ rd_bytes r') (rd_end r)).
      split; [apply read_or_Ok; split_and!; try done; rewrite Hr; cbn; by rewrite <- (assoc_L (++))|].
      rewrite payload_not_bare, Hp by done. cbn [negb]. apply bind_Ok.
      exists (be32 (blen p), mk_reader (p ++ rd_bytes r') (rd_end r)).
      split; [by apply read_or_Ok|].
      rewrite <- (app_nil_r (be32 (blen p))), get_be32_be32. cbn.
      rewrite u32_id by (by apply MaxFrameSize_u32). rewrite bool_decide_false by lia. case_bool_decide as Hpos.
      * apply bind_Ok. exists (p, r'). split; [|done].
        apply read_or_Ok. cbn. split_and!; auto. unfold blen. lia.
      * assert (p = []) as -> by (by apply blen_zero). by rewrite (reader_ext r' (mk_reader ([] ++ rd_bytes r') (rd_end r))).
Qed.

Lemma encode_frame_nonempty t p : (0 < length (encode_frame t p))%nat.
Proof. unfold encode_frame. destruct (is_bare t); cbn; lia. Qed.

Lemma WriteFrame_sound w t p :
  sound_conn w → frame_ok t p →
  ∃ w', WriteFrame w t p = (w', None) ∧ sound_conn w' ∧ nc_in w' = nc_in w ∧
        nc_sent w' = nc_sent w ++ encode_frame t p.
Proof.
  intros Hw Hok. unfold WriteFrame, encode_frame. destruct (is_bare t) eqn:Eb.
  - rewrite net_write_sound by done. by eexists.
  - destruct Hok as [[? _]|[Hp Hlen]]; [congruence|]. rewrite bool_decide_false by lia.
    pose proof (blen_nonneg p). rewrite u32_id by (by apply MaxFrameSize_u32).
    rewrite net_write_sound by done. case_bool_decide.
    + rewrite net_write_sound by done. cbn. eexists. split_and!; [done..|].
      by rewrite <- (assoc_L (++)).
    + assert (p = []) as -> by (by apply blen_zero). rewrite app_nil_r. by eexists.
Qed.

Lemma write_frames_sound w fs :
  sound_conn w → Forall (λ f, frame_ok f.1 f.2) fs →
  ∃ w', write_frames w fs = (w', None) ∧ sound_conn w' ∧ nc_in w' = nc_in w ∧
        nc_sent w' = nc_sent w ++ concat ((λ f, encode_frame f.1 f.2) <$> fs).
Proof.
  revert w. induction fs as [|[t p] fs IH]; intros w Hw.
  - eexists. split_and!; try done. by rewrite app_nil_r.
  - intros [Hok Hfs]%Forall_cons_iff. cbn in Hok.
    destruct (WriteFrame_sound w t p Hw Hok) as (w1 & E1 & Hw1 & Hi1 & Hs1).
    destruct (IH w1 Hw1 Hfs) as (w2 & E2 & Hw2 & Hi2 & Hs2).
    exists w2. cbn. rewrite E1. split_and!; [done|done|congruence|].
    by rewrite Hs2, Hs1, <- (assoc_L (++)).
Qed.

Lemma read_frames_concat fs fuel :
  Forall (λ f, frame_ok f.1 f.2) fs → (length fs < fuel)%nat →
  read_frames fuel (mk_reader (concat ((λ f, encode_frame f.1 f.2) <$> fs)) EOF) =
  (fs, Some (FrameIO EOF)).
Proof.
  revert fuel. induction fs as [|[t p] fs IH]; intros [|fuel] Hfs Hfuel; cbn in Hfuel; [lia|done|lia|].
  apply Forall_cons_iff in Hfs as [Hok Hfs]. cbn in Hok. cbn [fmap list_fmap concat].
  cbn [read_frames].
  assert (ReadFrame (mk_reader (encode_frame t p ++ concat ((λ f, encode_frame f.1 f.2) <$> fs)) EOF) =
    Ok (t, p, mk_reader (concat ((λ f, encode_frame f.1 f.2) <$> fs)) EOF)) as E
    by (by apply ReadFrame_iff).
  cbn [fst snd] in *. rewrite E, IH by (done || lia). done.
Qed.

Lemma read_or_short {E} (f : io_err → E) r n :
  (length (rd_bytes r) < n)%nat → ∃ e, read_or f r n = Err (f e).
Proof. intros H. unfold read_or, read_full. rewrite decide_False by lia. by eexists. Qed.

Lemma read_or_take {E} (f : io_err → E) b rest e n :
  length b = n → read_or f (mk_reader (b ++ rest) e) n = Ok (b, mk_reader rest e).
Proof. intros H. by apply read_or_Ok. Qed.

Lemma ReadFrame_cut t p s ext e :
  frame_ok t p → encode_frame t p = s ++ ext → ext ≠ [] → s ≠ [] →
  ∃ i, ReadFrame (mk_reader s e) = Err (ErrIncompleteFrame i).
Proof.
  intros Hok Hs Hext Hne. destruct s as [|t' s]; [done|].
  assert (is_bare t = false) as Hb.
  { destruct (is_bare t) eqn:E; [|done]. unfold encode_frame in Hs. rewrite E in Hs.
    injection Hs as _ Hs. by destruct s, ext. }
  destruct Hok as [[? _]|[Hp Hlen]]; [congruence|].
  rewrite encode_frame_payload in Hs by done.
  pose proof (f_equal (hd x00) Hs) as Ht. cbn in Ht. subst t'. apply (f_equal (@tl byte)) in Hs.
  cbn [tl app] in Hs.
  unfold ReadFrame. rewrite (read_or_take FrameIO [t] s) by done. cbn [mbind result_bind].
  rewrite Hb, Hp. cbn [negb].
  destruct (decide (length s < 4)%nat) as [Hlt|Hge].
  { by destruct (read_or_short ErrIncompleteFrame (mk_reader s e) 4 Hlt) as [i ->]; exists i. }
  assert (s = be32 (blen p) ++ drop 4 s ∧ p = drop 4 s ++ ext) as [Es Epl].
  { pose proof (f_equal (take 4) Hs) as H1. pose proof (f_equal (drop 4) Hs) as H2.
    rewrite (take_app_le (be32 _)), (take_ge (be32 _)), take_app_le in H1 by (rewrite ?be32_length; lia).
    rewrite (drop_app_le (be32 _)), (drop_ge (be32 _)), drop_app_le in H2 by (rewrite ?be32_length; lia).
    split; [by rewrite H1, take_drop | exact H2]. }
  rewrite Es, (read_or_take ErrIncompleteFrame (be32 (blen p))) by apply be32_length.
  cbn [mbind result_bind].
  assert (get_be32 (be32 (blen p)) = Some (u32 (blen p))) as ->
    by (rewrite <- (app_nil_r (be32 (blen p))); apply get_be32_be32). cbn [default].
  pose proof (blen_nonneg p). rewrite u32_id by (by apply MaxFrameSize_u32).
  cbn [default id].
  rewrite bool_decide_false by lia.
  assert (length (drop 4 s) < length p)%nat as Hshort.
  { rewrite Epl, length_app. destruct ext; [done|cbn; lia]. }
  rewrite bool_decide_true by (unfold blen; lia).
  destruct (read_or_short ErrIncompleteFrame (mk_reader (drop 4 s) e) (Z.to_nat (blen p))) as [i ->];
    [unfold blen; cbn; lia|]. by exists i.
Qed.

Lemma fit_id n b : length b = n → fit n b = b.
Proof. intros <-. unfold fit. by rewrite take_ge, Nat.sub_diag, app_nil_r. Qed.

Lemma fit_length n b : length (fit n b) = n.
Proof. unfold fit. rewrite length_app, length_take, length_replicate. lia. Qed.

Lemma hex_digit_inj a b : 0 ≤ a < 16 → 0 ≤ b < 16 → hex_digit a = hex_digit b → a = b.
Proof.
  intros Ha Hb. unfold hex_digit.
  repeat case_bool_decide; intros Heq%(f_equal Z_of_byte);
    rewrite !Z_of_byte_of_Z, !Z.mod_small in Heq by lia; lia.
Qed.

Lemma hex_encode_length b : length (hex_encode b) = (2 * length b)%nat.
Proof. induction b as [|x b IH]; [done|]. unfold hex_encode in *. cbn in *. rewrite IH. lia. Qed.

Lemma hex_encode_inj a b : hex_encode a = hex_encode b → a = b.
Proof.
  revert b. induction a as [|x a IH]; intros [|y b]; try done. unfold hex_encode. cbn [mbind list_bind].
  intros [= H1 H2 H3].
  pose proof (Z_of_byte_range x). pose proof (Z_of_byte_range y).
  apply hex_digit_inj in H1; [|Z.to_euclidean_division_equations; lia..].
  apply hex_digit_inj in H2; [|Z.to_euclidean_division_equations; lia..].
  f_equal; [|by apply IH]. apply Z_of_byte_inj.
  rewrite (Z.div_mod (Z_of_byte x) 16), (Z.div_mod (Z_of_byte y) 16); lia.
Qed.

(** ** Claims *)

(** C34: [ReadFrame] accepts exactly the canonical encodings: it returns a frame
    if and only if the stream starts with that frame's one encoding, of a known
    type and at most 16 MiB, and leaves precisely what follows it. *)
Theorem ReadFrame_canonical r t p r' :
  ReadFrame r = Ok (t, p, r') ↔
  frame_ok t p ∧ rd_bytes r = encode_frame t p ++ rd_bytes r' ∧ rd_end r' = rd_end r.
Proof. apply ReadFrame_iff. Qed.

(** Any sequence of frames written over a connection whose writes succeed
    is read back frame for frame, and the reader then sees the end of the stream
    at a frame boundary. *)
Theorem frames_round_trip w fs :
  sound_conn w → nc_sent w = [] → Forall (λ f, frame_ok f.1 f.2) fs →
  ∃ w', write_frames w fs = (w', None) ∧
    read_frames (S (length fs)) (mk_reader (nc_sent w') EOF) = (fs, Some (FrameIO EOF)).
Proof.
  intros Hw H0 Hfs. destruct (write_frames_sound w fs Hw Hfs) as (w' & E & _ & _ & Hs).
  exists w'. split; [done|]. rewrite Hs, H0. by apply read_frames_concat; [|lia].
Qed.

Lemma frames_round_trip_witness :
  let w := mk_netconn (mk_reader [] EOF) [] 0 (λ _, None) in
  let fs := [(FrameControl, lit "abc"); (FramePing, []); (FrameFile, [])] in
  ∃ w', write_frames w fs = (w', None) ∧
    read_frames 4 (mk_reader (nc_sent w') EOF) = (fs, Some (FrameIO EOF)).
Proof.
  intros w fs. apply (frames_round_trip w fs); [by intros n | reflexivity |].
  unfold fs. rewrite !Forall_cons_iff. split_and!; [| | |constructor];
    first [by left | right; split; [reflexivity|vm_compute; discriminate]].
Defined.

(** A frame cut short is reported as incomplete, never as another frame or
    as a clean end of the stream. *)
Theorem ReadFrame_truncated t p s ext e :
  frame_ok t p → encode_frame t p = s ++ ext → ext ≠ [] → s ≠ [] →
  ∃ i, ReadFrame (mk_reader s e) = Err (ErrIncompleteFrame i).
Proof. apply ReadFrame_cut. Qed.

Lemma ReadFrame_truncated_witness :
  ∃ i, ReadFrame (mk_reader [x01; x00; x00; x00; x02; x41] EOF) = Err (ErrIncompleteFrame i).
Proof.
  apply (ReadFrame_truncated FrameControl [x41; x42] [x01; x00; x00; x00; x02; x41] [x42] EOF);
    [right; split; [reflexivity | vm_compute; discriminate] | reflexivity | discriminate | discriminate].
Defined.

(** [DecodeServerHello] is the inverse of [EncodeServerHello]: data decodes
    to a nonce and a hash if and only if it is their encoding. *)
Theorem ServerHello_round_trip data nonce certHash :
  DecodeServerHello data = Ok (nonce, certHash) ↔
  length nonce = 32%nat ∧ length certHash = 48%nat ∧ data = EncodeServerHello nonce certHash.
Proof.
  unfold DecodeServerHello, EncodeServerHello. split.
  - case_bool_decide as Hlen; [done|]. destruct data as [|t rest]; [done|].
    case_bool_decide as Ht; [done|]. intros [= <- <-]. subst t.
    assert (length rest = 80%nat) as Hr by (unfold blen in Hlen; cbn in Hlen; lia).
    rewrite !length_take, length_drop. split_and!; [lia..|].
    rewrite !fit_id by (rewrite ?length_take, ?length_drop; lia).
    rewrite (take_ge (drop 32 rest)) by (rewrite length_drop; lia). by rewrite take_drop.
  - intros (Hn & Hc & ->). rewrite !fit_id by done.
    rewrite bool_decide_false by (unfold blen; cbn; rewrite length_app; lia).
    rewrite bool_decide_false by (intros H; by apply H).
    rewrite (take_app_le nonce certHash), (take_ge nonce) by lia.
    rewrite drop_app_le, (drop_ge nonce) by lia. by rewrite take_ge by (cbn; lia).
Qed.

(** Session tokens are 64 characters and distinct for distinct random
    bytes, and a redacted token shows at most the first eight of them. *)
Theorem session_token_opaque a b :
  length (GenerateSessionToken a) = 64%nat ∧
  (length a = 32%nat → length b = 32%nat →
   GenerateSessionToken a = GenerateSessionToken b → a = b) ∧
  RedactToken (GenerateSessionToken a) = take 8 (GenerateSessionToken a) ++ lit "...".
Proof.
  assert (length (GenerateSessionToken a) = 64%nat) as Hl
    by (unfold GenerateSessionToken; by rewrite hex_encode_length, fit_length).
  split_and!; [done| |].
  - intros Ha Hb. unfold GenerateSessionToken. rewrite !fit_id by done. apply hex_encode_inj.
  - unfold RedactToken. rewrite bool_decide_false; [done|]. unfold blen. rewrite Hl. lia.
Qed.
