(* ===== verification/Float.v ===== *)
(** * Go's float64

    An IEEE 754 binary64 as the Standard Library specifies it ([SpecFloat]): the
    comparisons of Go, which are all false on a NaN, and the conversions the
    server uses.  The lemmas need no arithmetic, only that comparison is
    reflexive and antisymmetric off NaN. *)
From S2P Require Import Prelude.
From Stdlib Require Export Floats.SpecFloat.

Definition float64 : Type := spec_float.

#[global] Instance float64_eq_dec : EqDecision float64.
Proof. unfold float64. solve_decision. Defined.

Definition fprec : Z := 53.
Definition femax : Z := 1024.

Definition f_zero : float64 := S754_zero false.

(** Go's [<], [<=] and [==] on float64. *)
Definition f_lt (a b : float64) : bool := SFltb a b.
Definition f_le (a b : float64) : bool := SFleb a b.
Definition f_eq (a b : float64) : bool := SFeqb a b.

Definition is_nan (a : float64) : bool := match a with S754_nan => true | _ => false end.

(** [f != 0]: a NaN is not equal to zero. *)
Definition float_ne0 (a : float64) : bool := negb (f_eq a f_zero).

(** [float64(n)] of an integer, rounded to nearest. *)
Definition f_of_Z (n : Z) : float64 := binary_normalize fprec femax n 0 false.

(** The integer part, towards zero; [None] for infinities and NaN. *)
Definition f_trunc (a : float64) : option Z :=
  match a with
  | S754_zero _ => Some 0
  | S754_finite s m e =>
      let v := Z.shiftl (Zpos m) e in Some (if s then - v else v)
  | _ => None
  end.

(** [uint32(f)]: the integer part where it fits; what the machine leaves there
    otherwise is up to the implementation, [other]. *)
Definition f_to_u32 (other : float64 → Z) (a : float64) : Z :=
  match f_trunc a with
  | Some v => if bool_decide (0 ≤ v ≤ u32_max) then v else u32 (other a)
  | None => u32 (other a)
  end.

Lemma f_compare_refl a : is_nan a = false → SFcompare a a = Some Eq.
Proof.
  destruct a as [s|s| |s m e]; cbn; [done| |done|].
  - by destruct s.
  - intros _. rewrite Z.compare_refl. destruct s; by rewrite Pos.compare_refl.
Qed.

Lemma f_compare_flip a b : SFcompare b a = CompOpp <$> SFcompare a b.
Proof.
  destruct a as [[]|[]| |[] m e], b as [[]|[]| |[] m' e']; cbn; try done;
    rewrite (Z.compare_antisym e e'); destruct (e ?= e') eqn:E; cbn; try done;
    change (Pos.compare_cont Eq m' m) with (m' ?= m)%positive;
    change (Pos.compare_cont Eq m m') with (m ?= m')%positive;
    rewrite (Pos.compare_antisym m m'); by destruct (m ?= m')%positive.
Qed.

Lemma f_compare_total a b :
  is_nan a = false → is_nan b = false → ∃ c, SFcompare a b = Some c.
Proof. destruct a as [[]|[]| |[] m e], b as [[]|[]| |[] m' e']; cbn; try done; eauto; by destruct (_ ?= _); eauto. Qed.

Lemma f_le_refl a : is_nan a = false → f_le a a = true.
Proof. intros H. unfold f_le, SFleb. by rewrite f_compare_refl. Qed.

(** Off NaN, not below is at least. *)
Lemma f_not_lt a b :
  is_nan a = false → is_nan b = false → f_lt a b = false → f_le b a = true.
Proof.
  intros Ha Hb. unfold f_lt, f_le, SFltb, SFleb. rewrite (f_compare_flip a b).
  destruct (f_compare_total a b Ha Hb) as [[] ->]; done.
Qed.

Lemma f_le_not_nan a b : f_le a b = true → is_nan a = false ∧ is_nan b = false.
Proof. unfold f_le, SFleb. destruct a as [[]|[]| |[] m e], b as [[]|[]| |[] m' e']; done. Qed.

Lemma f_lt_not_le a b : f_le a b = true → f_lt b a = false.
Proof. unfold f_lt, f_le, SFltb, SFleb. rewrite (f_compare_flip a b). by destruct (SFcompare a b) as [[]|]. Qed.

(** ** Arithmetic the server does on floats *)

Definition f_one : float64 := S754_finite false 4503599627370496 (-52).
Definition f_mul (a b : float64) : float64 := SFmul fprec femax a b.
Definition f_div (a b : float64) : float64 := SFdiv fprec femax a b.
Definition f_add (a b : float64) : float64 := SFadd fprec femax a b.

(** The built-in [max] and [min]: a NaN operand is the result, and the zeros are
    ordered by their sign. *)
Definition f_max (a b : float64) : float64 :=
  if is_nan a || is_nan b then S754_nan
  else if f_lt a b then b
  else match a, b with S754_zero true, S754_zero _ => b | _, _ => a end.
Definition f_min (a b : float64) : float64 :=
  if is_nan a || is_nan b then S754_nan
  else if f_lt b a then b
  else match a, b with S754_zero false, S754_zero _ => b | _, _ => a end.

(** [math.Ceil] *)
Definition f_ceil (a : float64) : float64 :=
  match a with
  | S754_finite s m e =>
      if bool_decide (0 ≤ e) then a
      else
        let p := 2 ^ (- e) in
        let z := if s then - (Zpos m `div` p) else (Zpos m + p - 1) `div` p in
        if bool_decide (z = 0) then S754_zero s else f_of_Z z
  | _ => a
  end.
