(* ===== verification/Control.v ===== *)
(** * The control-plane envelope and its hand-written encoder

    [ControlMessage] and the structs it carries
    ([src/server/internal/protocol/control.go], [types.go]) and
    [control_encode.go], which writes a message field by field instead of through
    the msgpack library's reflection.  The library's encoder is an interface, the
    class [Encoder] over an abstract encoder state; the theorems hold for every
    instance.  Strings and byte slices are [bytes], and a Go pointer is an
    [option]. *)
From S2P Require Import Prelude Float.

Record FamilyAnomalyRate := mk_far {
  far_Family : bytes;
  far_Rate : float64;
}.

Record MetricDim := mk_md {
  md_Name : bytes;
  md_Avg : float64;
}.

Record HealthSummary := mk_hs {
  hs_TS : Z;
  hs_TenantID : bytes;
  hs_NodeAnomalyRate : float64;
  hs_PerFamilyRates : list FamilyAnomalyRate;
  hs_RecentBitmask : bytes;
  hs_SamplerVersion : bytes;
  hs_ModelVersion : bytes;
}.

Record AlertBreach := mk_ab {
  ab_RuleID : bytes;
  ab_Metric : bytes;
  ab_Value : float64;
}.

Record RuleTerm := mk_rt {
  rt_Metric : bytes;
  rt_Comparator : bytes;
  rt_Threshold : float64;
  rt_Clear : float64;
  rt_Predicate : bytes;
  rt_WindowSecs : Z;
}.

Record ThresholdRule := mk_tr {
  tr_ID : bytes;
  tr_Version : Z;
  tr_Severity : bytes;
  tr_Metric : bytes;
  tr_Comparator : bytes;
  tr_Threshold : float64;
  tr_Clear : float64;
  tr_SustainSecs : Z;
  tr_Predicate : bytes;
  tr_WindowSecs : Z;
  tr_All : list RuleTerm;
}.

Record RuleCoverage := mk_rc {
  rc_RuleID : bytes;
  rc_State : bytes;
}.

Record BackfillSample := mk_bs {
  bs_Name : bytes;
  bs_TS : Z;
  bs_Value : float64;
}.

Record HistoryPoint := mk_hp {
  hp_TS : Z;
  hp_Value : float64;
}.

Record Permissions := mk_pm {
  pm_Desktop : bool;
  pm_Terminal : bool;
  pm_FileRead : bool;
  pm_FileWrite : bool;
  pm_Input : bool;
}.

Record FileEntry := mk_fe {
  fe_Name : bytes;
  fe_IsDir : bool;
  fe_Size : Z;
  fe_Modified : Z;
}.

Record NetworkInterface := mk_ni {
  ni_Name : bytes;
  ni_MAC : bytes;
  ni_IPv4 : list bytes;
  ni_IPv6 : list bytes;
}.

Record LogEntry := mk_le {
  le_Timestamp : bytes;
  le_Level : bytes;
  le_Target : bytes;
  le_Message : bytes;
}.

Record DiscoveredPort := mk_dp {
  dp_Proto : bytes;
  dp_Port : Z;
  dp_Process : bytes;
}.

Record DiscoveredService := mk_ds {
  ds_Name : bytes;
  ds_State : bytes;
}.

Record DiscoveredDbEngine := mk_dd {
  dd_Engine : bytes;
  dd_Version : bytes;
  dd_Port : Z;
}.

Record DiscoveredContainer := mk_dc {
  dc_Runtime : bytes;
  dc_Image : bytes;
  dc_Name : bytes;
  dc_State : bytes;
}.

Record DiscoveredPackage := mk_dk {
  dk_Name : bytes;
  dk_Version : bytes;
}.

Record ControlMessage := mk_control {
  cm_Type : bytes;
  cm_Capabilities : list bytes;
  cm_Hostname : bytes;
  cm_OS : bytes;
  cm_Arch : bytes;
  cm_Timestamp : Z;
  cm_TS : Z;
  cm_TenantID : bytes;
  cm_NodeAnomalyRate : float64;
  cm_PerFamilyRates : list FamilyAnomalyRate;
  cm_RecentBitmask : bytes;
  cm_SamplerVersion : bytes;
  cm_ModelVersion : bytes;
  cm_Dims : list MetricDim;
  cm_SinceTS : Z;
  cm_Limit : Z;
  cm_Summaries : list HealthSummary;
  cm_Breaches : list AlertBreach;
  cm_AlertRules : list ThresholdRule;
  cm_RuleCoverage : list RuleCoverage;
  cm_DeviceHourlyCeiling : Z;
  cm_PendingSamples : Z;
  cm_OldestTS : Z;
  cm_Rate : Z;
  cm_Deadline : Z;
  cm_RetryAfter : Z;
  cm_Tier : bytes;
  cm_BackfillSamples : list BackfillSample;
  cm_Cursor : Z;
  cm_Dim : bytes;
  cm_FromTS : Z;
  cm_ToTS : Z;
  cm_MaxPoints : Z;
  cm_HistoryPoints : list HistoryPoint;
  cm_Truncated : option bool;
  cm_Token : bytes;
  cm_RelayURL : bytes;
  cm_Reason : bytes;
  cm_Permissions : option Permissions;
  cm_IceServers : list bytes;
  cm_Version : bytes;
  cm_URL : bytes;
  cm_SHA256 : bytes;
  cm_Signature : bytes;
  cm_Success : option bool;
  cm_AckError : bytes;
  cm_SDP : bytes;
  cm_Candidate : bytes;
  cm_Mid : bytes;
  cm_Received : Z;
  cm_X : Z;
  cm_Y : Z;
  cm_Button : bytes;
  cm_Pressed : option bool;
  cm_Key : bytes;
  cm_Cols : Z;
  cm_Rows : Z;
  cm_Path : bytes;
  cm_Entries : list FileEntry;
  cm_More : bool;
  cm_TotalSize : Z;
  cm_Text : bytes;
  cm_Sender : bytes;
  cm_CPUModel : bytes;
  cm_CPUCores : Z;
  cm_RAMTotalMB : Z;
  cm_DiskTotalMB : Z;
  cm_DiskFreeMB : Z;
  cm_NetworkInterfaces : list NetworkInterface;
  cm_SystemUUID : bytes;
  cm_AMTAvailable : option bool;
  cm_AMTVersion : bytes;
  cm_LogLevel : bytes;
  cm_TimeFrom : bytes;
  cm_TimeTo : bytes;
  cm_Search : bytes;
  cm_LogOffset : Z;
  cm_LogLimit : Z;
  cm_Source : bytes;
  cm_Unit : bytes;
  cm_LogEntries : list LogEntry;
  cm_TotalCount : Z;
  cm_HasMore : option bool;
  cm_AvailableUnits : list bytes;
  cm_Ports : list DiscoveredPort;
  cm_Services : list DiscoveredService;
  cm_DBEngines : list DiscoveredDbEngine;
  cm_Containers : list DiscoveredContainer;
  cm_Packages : list DiscoveredPackage;
  cm_Enabled : option bool;
  cm_AlertID : bytes;
  cm_RuleID : bytes;
  cm_RuleVersion : Z;
  cm_Severity : option bytes;
  cm_Metric : bytes;
  cm_Value : option float64;
  cm_WindowStartTS : Z;
  cm_WindowEndTS : Z;
  cm_ObservedTS : Z;
  cm_Backfilled : option bool;
  cm_EvidenceCodec : bytes;
  cm_Evidence : bytes;
  cm_CSR : bytes;
  cm_Cert : bytes;
  cm_CABundle : bytes;
  cm_ReceivedScreen : Z;
  cm_ReceivedFiles : Z;
}.

(** What the code hands to [enc.Encode] as [any]: a slice or a struct pointer. *)
Inductive anyval :=
  | VStrings (v : list bytes)
  | VFamilyAnomalyRate (v : list FamilyAnomalyRate)
  | VMetricDim (v : list MetricDim)
  | VHealthSummary (v : list HealthSummary)
  | VAlertBreach (v : list AlertBreach)
  | VThresholdRule (v : list ThresholdRule)
  | VRuleCoverage (v : list RuleCoverage)
  | VBackfillSample (v : list BackfillSample)
  | VHistoryPoint (v : list HistoryPoint)
  | VPermissions (v : option Permissions)
  | VFileEntry (v : list FileEntry)
  | VNetworkInterface (v : list NetworkInterface)
  | VLogEntry (v : list LogEntry)
  | VDiscoveredPort (v : list DiscoveredPort)
  | VDiscoveredService (v : list DiscoveredService)
  | VDiscoveredDbEngine (v : list DiscoveredDbEngine)
  | VDiscoveredContainer (v : list DiscoveredContainer)
  | VDiscoveredPackage (v : list DiscoveredPackage).

Inductive enc_err (E : Type) :=
  | EncErr (e : E)               (* the encoder's own error *)
  | NilDeref.                    (* [*p] of a nil pointer *)
Arguments EncErr {E} e.
Arguments NilDeref {E}.

(** What [EncodeMsgpack] asks of [msgpack.Encoder]. *)
Class Encoder (St E : Type) := {
  EncodeMapLen : St → nat → result E St;
  EncodeString : St → bytes → result E St;
  EncodeInt64 : St → Z → result E St;
  EncodeUint16 : St → Z → result E St;
  EncodeUint32 : St → Z → result E St;
  EncodeUint64 : St → Z → result E St;
  EncodeFloat64 : St → float64 → result E St;
  EncodeBool : St → bool → result E St;
  EncodeBytes : St → bytes → result E St;
  EncodeNil : St → result E St;
  Encode : St → anyval → result E St;
}.

(** The typed emptiness tests of [controlFieldPresence]. *)
Definition len_ne {A} (l : list A) : bool := match l with [] => false | _ => true end.
Definition num_ne0 (n : Z) : bool := negb (n =? 0).
Definition not_nil {A} (p : option A) : bool := match p with Some _ => true | None => false end.

Definition controlFieldCount : nat := 107.

Definition controlFieldPresence (m : ControlMessage) : list bool := [
  true;
  len_ne (cm_Capabilities m);
  len_ne (cm_Hostname m);
  len_ne (cm_OS m);
  len_ne (cm_Arch m);
  num_ne0 (cm_Timestamp m);
  num_ne0 (cm_TS m);
  len_ne (cm_TenantID m);
  float_ne0 (cm_NodeAnomalyRate m);
  len_ne (cm_PerFamilyRates m);
  len_ne (cm_RecentBitmask m);
  len_ne (cm_SamplerVersion m);
  len_ne (cm_ModelVersion m);
  len_ne (cm_Dims m);
  num_ne0 (cm_SinceTS m);
  num_ne0 (cm_Limit m);
  len_ne (cm_Summaries m);
  len_ne (cm_Breaches m);
  len_ne (cm_AlertRules m);
  len_ne (cm_RuleCoverage m);
  num_ne0 (cm_DeviceHourlyCeiling m);
  num_ne0 (cm_PendingSamples m);
  num_ne0 (cm_OldestTS m);
  num_ne0 (cm_Rate m);
  num_ne0 (cm_Deadline m);
  num_ne0 (cm_RetryAfter m);
  len_ne (cm_Tier m);
  len_ne (cm_BackfillSamples m);
  num_ne0 (cm_Cursor m);
  len_ne (cm_Dim m);
  num_ne0 (cm_FromTS m);
  num_ne0 (cm_ToTS m);
  num_ne0 (cm_MaxPoints m);
  len_ne (cm_HistoryPoints m);
  not_nil (cm_Truncated m);
  len_ne (cm_Token m);
  len_ne (cm_RelayURL m);
  len_ne (cm_Reason m);
  not_nil (cm_Permissions m);
  len_ne (cm_IceServers m);
  len_ne (cm_Version m);
  len_ne (cm_URL m);
  len_ne (cm_SHA256 m);
  len_ne (cm_Signature m);
  not_nil (cm_Success m);
  len_ne (cm_AckError m);
  len_ne (cm_SDP m);
  len_ne (cm_Candidate m);
  len_ne (cm_Mid m);
  num_ne0 (cm_Received m);
  num_ne0 (cm_X m);
  num_ne0 (cm_Y m);
  len_ne (cm_Button m);
  not_nil (cm_Pressed m);
  len_ne (cm_Key m);
  num_ne0 (cm_Cols m);
  num_ne0 (cm_Rows m);
  len_ne (cm_Path m);
  len_ne (cm_Entries m);
  cm_More m;
  num_ne0 (cm_TotalSize m);
  len_ne (cm_Text m);
  len_ne (cm_Sender m);
  len_ne (cm_CPUModel m);
  num_ne0 (cm_CPUCores m);
  num_ne0 (cm_RAMTotalMB m);
  num_ne0 (cm_DiskTotalMB m);
  num_ne0 (cm_DiskFreeMB m);
  len_ne (cm_NetworkInterfaces m);
  len_ne (cm_SystemUUID m);
  not_nil (cm_AMTAvailable m);
  len_ne (cm_AMTVersion m);
  len_ne (cm_LogLevel m);
  len_ne (cm_TimeFrom m);
  len_ne (cm_TimeTo m);
  len_ne (cm_Search m);
  num_ne0 (cm_LogOffset m);
  num_ne0 (cm_LogLimit m);
  len_ne (cm_Source m);
  len_ne (cm_Unit m);
  len_ne (cm_LogEntries m);
  num_ne0 (cm_TotalCount m);
  not_nil (cm_HasMore m);
  len_ne (cm_AvailableUnits m);
  len_ne (cm_Ports m);
  len_ne (cm_Services m);
  len_ne (cm_DBEngines m);
  len_ne (cm_Containers m);
  len_ne (cm_Packages m);
  not_nil (cm_Enabled m);
  len_ne (cm_AlertID m);
  len_ne (cm_RuleID m);
  num_ne0 (cm_RuleVersion m);
  not_nil (cm_Severity m);
  len_ne (cm_Metric m);
  not_nil (cm_Value m);
  num_ne0 (cm_WindowStartTS m);
  num_ne0 (cm_WindowEndTS m);
  num_ne0 (cm_ObservedTS m);
  not_nil (cm_Backfilled m);
  len_ne (cm_EvidenceCodec m);
  len_ne (cm_Evidence m);
  len_ne (cm_CSR m);
  len_ne (cm_Cert m);
  len_ne (cm_CABundle m);
  num_ne0 (cm_ReceivedScreen m);
  num_ne0 (cm_ReceivedFiles m)
].

Section encode.
Context {St E : Type} `{!Encoder St E}.

Definition call (r : result E St) : result (enc_err E) St :=
  match r with Ok s => Ok s | Err e => Err (EncErr e) end.
Definition deref {A} (p : option A) : result (enc_err E) A :=
  match p with Some v => Ok v | None => Err NilDeref end.

Definition putString (enc : St) (key val : bytes) : result (enc_err E) St :=
  enc ← call (EncodeString enc key); call (EncodeString enc val).
Definition putInt64 (enc : St) (key : bytes) (val : Z) : result (enc_err E) St :=
  enc ← call (EncodeString enc key); call (EncodeInt64 enc val).
Definition putUint16 (enc : St) (key : bytes) (val : Z) : result (enc_err E) St :=
  enc ← call (EncodeString enc key); call (EncodeUint16 enc val).
Definition putUint32 (enc : St) (key : bytes) (val : Z) : result (enc_err E) St :=
  enc ← call (EncodeString enc key); call (EncodeUint32 enc val).
Definition putUint64 (enc : St) (key : bytes) (val : Z) : result (enc_err E) St :=
  enc ← call (EncodeString enc key); call (EncodeUint64 enc val).
Definition putFloat64 (enc : St) (key : bytes) (val : float64) : result (enc_err E) St :=
  enc ← call (EncodeString enc key); call (EncodeFloat64 enc val).
Definition putBool (enc : St) (key : bytes) (val : bool) : result (enc_err E) St :=
  enc ← call (EncodeString enc key); call (EncodeBool enc val).
Definition putBytes (enc : St) (key val : bytes) : result (enc_err E) St :=
  enc ← call (EncodeString enc key); call (EncodeBytes enc val).
Definition putValue (enc : St) (key : bytes) (val : anyval) : result (enc_err E) St :=
  enc ← call (EncodeString enc key); call (Encode enc val).


Definition encodeEnvelopeField (m : ControlMessage) (enc : St) (i : Z) : result (enc_err E) St :=
  match i with
  | 0 => putString enc (lit "type") (cm_Type m)
  | 1 => putValue enc (lit "capabilities") (VStrings (cm_Capabilities m))
  | 2 => putString enc (lit "hostname") (cm_Hostname m)
  | 3 => putString enc (lit "os") (cm_OS m)
  | 4 => putString enc (lit "arch") (cm_Arch m)
  | 5 => putInt64 enc (lit "timestamp") (cm_Timestamp m)
  | 6 => putInt64 enc (lit "ts") (cm_TS m)
  | 7 => putString enc (lit "tenant_id") (cm_TenantID m)
  | _ => Ok enc
  end.

Definition encodeTelemetryField (m : ControlMessage) (enc : St) (i : Z) : result (enc_err E) St :=
  match i with
  | 8 => putFloat64 enc (lit "node_anomaly_rate") (cm_NodeAnomalyRate m)
  | 9 => putValue enc (lit "per_family_rates") (VFamilyAnomalyRate (cm_PerFamilyRates m))
  | 10 => putBytes enc (lit "recent_bitmask") (cm_RecentBitmask m)
  | 11 => putString enc (lit "sampler_ver") (cm_SamplerVersion m)
  | 12 => putString enc (lit "model_ver") (cm_ModelVersion m)
  | 13 => putValue enc (lit "dims") (VMetricDim (cm_Dims m))
  | 14 => putInt64 enc (lit "since_ts") (cm_SinceTS m)
  | 15 => putUint32 enc (lit "limit") (cm_Limit m)
  | 16 => putValue enc (lit "summaries") (VHealthSummary (cm_Summaries m))
  | 17 => putValue enc (lit "breaches") (VAlertBreach (cm_Breaches m))
  | 18 => putValue enc (lit "rules") (VThresholdRule (cm_AlertRules m))
  | 19 => putValue enc (lit "rule_coverage") (VRuleCoverage (cm_RuleCoverage m))
  | 20 => putUint32 enc (lit "device_hourly_ceiling") (cm_DeviceHourlyCeiling m)
  | 21 => putUint64 enc (lit "pending_samples") (cm_PendingSamples m)
  | 22 => putInt64 enc (lit "oldest_ts") (cm_OldestTS m)
  | 23 => putUint32 enc (lit "rate") (cm_Rate m)
  | 24 => putInt64 enc (lit "deadline") (cm_Deadline m)
  | 25 => putUint32 enc (lit "retry_after") (cm_RetryAfter m)
  | 26 => putString enc (lit "tier") (cm_Tier m)
  | 27 => putValue enc (lit "samples") (VBackfillSample (cm_BackfillSamples m))
  | 28 => putInt64 enc (lit "cursor") (cm_Cursor m)
  | 29 => putString enc (lit "dim") (cm_Dim m)
  | 30 => putInt64 enc (lit "from_ts") (cm_FromTS m)
  | 31 => putInt64 enc (lit "to_ts") (cm_ToTS m)
  | 32 => putUint32 enc (lit "max_points") (cm_MaxPoints m)
  | 33 => putValue enc (lit "points") (VHistoryPoint (cm_HistoryPoints m))
  | 34 => v ← deref (cm_Truncated m); putBool enc (lit "truncated") v
  | _ => Ok enc
  end.

Definition encodeSessionField (m : ControlMessage) (enc : St) (i : Z) : result (enc_err E) St :=
  match i with
  | 35 => putString enc (lit "token") (cm_Token m)
  | 36 => putString enc (lit "relay_url") (cm_RelayURL m)
  | 37 => putString enc (lit "reason") (cm_Reason m)
  | 38 => putValue enc (lit "permissions") (VPermissions (cm_Permissions m))
  | 39 => putValue enc (lit "ice_servers") (VStrings (cm_IceServers m))
  | 40 => putString enc (lit "version") (cm_Version m)
  | 41 => putString enc (lit "url") (cm_URL m)
  | 42 => putString enc (lit "sha256") (cm_SHA256 m)
  | 43 => putString enc (lit "signature") (cm_Signature m)
  | 44 => v ← deref (cm_Success m); putBool enc (lit "success") v
  | 45 => putString enc (lit "error") (cm_AckError m)
  | _ => Ok enc
  end.

Definition encodeInteractionField (m : ControlMessage) (enc : St) (i : Z) : result (enc_err E) St :=
  match i with
  | 46 => putString enc (lit "sdp") (cm_SDP m)
  | 47 => putString enc (lit "candidate") (cm_Candidate m)
  | 48 => putString enc (lit "mid") (cm_Mid m)
  | 49 => putUint64 enc (lit "received") (cm_Received m)
  | 50 => putUint16 enc (lit "x") (cm_X m)
  | 51 => putUint16 enc (lit "y") (cm_Y m)
  | 52 => putString enc (lit "button") (cm_Button m)
  | 53 => v ← deref (cm_Pressed m); putBool enc (lit "pressed") v
  | 54 => putString enc (lit "key") (cm_Key m)
  | 55 => putUint16 enc (lit "cols") (cm_Cols m)
  | 56 => putUint16 enc (lit "rows") (cm_Rows m)
  | 57 => putString enc (lit "path") (cm_Path m)
  | 58 => putValue enc (lit "entries") (VFileEntry (cm_Entries m))
  | 59 => putBool enc (lit "more") (cm_More m)
  | 60 => putUint64 enc (lit "total_size") (cm_TotalSize m)
  | 61 => putString enc (lit "text") (cm_Text m)
  | 62 => putString enc (lit "sender") (cm_Sender m)
  | _ => Ok enc
  end.

Definition encodeHardwareField (m : ControlMessage) (enc : St) (i : Z) : result (enc_err E) St :=
  match i with
  | 63 => putString enc (lit "cpu_model") (cm_CPUModel m)
  | 64 => putUint32 enc (lit "cpu_cores") (cm_CPUCores m)
  | 65 => putUint64 enc (lit "ram_total_mb") (cm_RAMTotalMB m)
  | 66 => putUint64 enc (lit "disk_total_mb") (cm_DiskTotalMB m)
  | 67 => putUint64 enc (lit "disk_free_mb") (cm_DiskFreeMB m)
  | 68 => putValue enc (lit "network_interfaces") (VNetworkInterface (cm_NetworkInterfaces m))
  | 69 => putString enc (lit "system_uuid") (cm_SystemUUID m)
  | 70 => v ← deref (cm_AMTAvailable m); putBool enc (lit "amt_available") v
  | 71 => putString enc (lit "amt_version") (cm_AMTVersion m)
  | _ => Ok enc
  end.

Definition encodeInventoryField (m : ControlMessage) (enc : St) (i : Z) : result (enc_err E) St :=
  match i with
  | 72 => putString enc (lit "log_level") (cm_LogLevel m)
  | 73 => putString enc (lit "time_from") (cm_TimeFrom m)
  | 74 => putString enc (lit "time_to") (cm_TimeTo m)
  | 75 => putString enc (lit "search") (cm_Search m)
  | 76 => putUint32 enc (lit "log_offset") (cm_LogOffset m)
  | 77 => putUint32 enc (lit "log_limit") (cm_LogLimit m)
  | 78 => putString enc (lit "source") (cm_Source m)
  | 79 => putString enc (lit "unit") (cm_Unit m)
  | 80 => putValue enc (lit "log_entries") (VLogEntry (cm_LogEntries m))
  | 81 => putUint32 enc (lit "total_count") (cm_TotalCount m)
  | 82 => v ← deref (cm_HasMore m); putBool enc (lit "has_more") v
  | 83 => putValue enc (lit "available_units") (VStrings (cm_AvailableUnits m))
  | 84 => putValue enc (lit "ports") (VDiscoveredPort (cm_Ports m))
  | 85 => putValue enc (lit "services") (VDiscoveredService (cm_Services m))
  | 86 => putValue enc (lit "db_engines") (VDiscoveredDbEngine (cm_DBEngines m))
  | 87 => putValue enc (lit "containers") (VDiscoveredContainer (cm_Containers m))
  | 88 => putValue enc (lit "packages") (VDiscoveredPackage (cm_Packages m))
  | _ => Ok enc
  end.

Definition encodeAlertField (m : ControlMessage) (enc : St) (i : Z) : result (enc_err E) St :=
  match i with
  | 89 => v ← deref (cm_Enabled m); putBool enc (lit "enabled") v
  | 90 => putString enc (lit "alert_id") (cm_AlertID m)
  | 91 => putString enc (lit "rule_id") (cm_RuleID m)
  | 92 => putUint32 enc (lit "rule_version") (cm_RuleVersion m)
  | 93 => v ← deref (cm_Severity m); putString enc (lit "severity") v
  | 94 => putString enc (lit "metric") (cm_Metric m)
  | 95 => v ← deref (cm_Value m); putFloat64 enc (lit "value") v
  | 96 => putInt64 enc (lit "window_start_ts") (cm_WindowStartTS m)
  | 97 => putInt64 enc (lit "window_end_ts") (cm_WindowEndTS m)
  | 98 => putInt64 enc (lit "observed_ts") (cm_ObservedTS m)
  | 99 => v ← deref (cm_Backfilled m); putBool enc (lit "backfilled") v
  | 100 => putString enc (lit "evidence_codec") (cm_EvidenceCodec m)
  | 101 => putBytes enc (lit "evidence") (cm_Evidence m)
  | _ => Ok enc
  end.

Definition encodeCertificateField (m : ControlMessage) (enc : St) (i : Z) : result (enc_err E) St :=
  match i with
  | 102 => putBytes enc (lit "csr") (cm_CSR m)
  | 103 => putBytes enc (lit "cert") (cm_Cert m)
  | 104 => putString enc (lit "ca_bundle") (cm_CABundle m)
  | _ => Ok enc
  end.

Definition encodeChannelCountField (m : ControlMessage) (enc : St) (i : Z) : result (enc_err E) St :=
  match i with
  | 105 => putUint64 enc (lit "received_screen") (cm_ReceivedScreen m)
  | 106 => putUint64 enc (lit "received_files") (cm_ReceivedFiles m)
  | _ => Ok enc
  end.

Definition encodeControlField (m : ControlMessage) (enc : St) (i : Z) : result (enc_err E) St :=
  if i <=? 7 then encodeEnvelopeField m enc i else
  if i <=? 34 then encodeTelemetryField m enc i else
  if i <=? 45 then encodeSessionField m enc i else
  if i <=? 62 then encodeInteractionField m enc i else
  if i <=? 71 then encodeHardwareField m enc i else
  if i <=? 88 then encodeInventoryField m enc i else
  if i <=? 101 then encodeAlertField m enc i else
  if i <=? 104 then encodeCertificateField m enc i else
  if i <=? 106 then encodeChannelCountField m enc i else
  Ok enc.

(** [for i, ok := range present]: the fields present, at their index. *)
Fixpoint encode_present (m : ControlMessage) (enc : St) (i : Z) (present : list bool) :
    result (enc_err E) St :=
  match present with
  | [] => Ok enc
  | ok :: present =>
      if ok
      then enc ← encodeControlField m enc i; encode_present m enc (i + 1) present
      else encode_present m enc (i + 1) present
  end.

Definition EncodeMsgpack (m : ControlMessage) (enc : St) : result (enc_err E) St :=
  let present := controlFieldPresence m in
  let n := length (filter (λ ok, ok = true) present) in
  enc ← call (EncodeMapLen enc n);
  encode_present m enc 0 present.
End encode.

(** ** The reference: what the struct tags ask for

    A field is its key, whether its tag says [omitempty], and its value of the
    Go type the struct declares; reflection writes the fields in declaration
    order, each through the encoder method of its type, and leaves out an
    [omitempty] field that is empty. *)

Inductive fval :=
  | FString (v : bytes)
  | FInt64 (v : Z)
  | FUint16 (v : Z)
  | FUint32 (v : Z)
  | FUint64 (v : Z)
  | FFloat64 (v : float64)
  | FBool (v : bool)
  | FBytes (v : bytes)
  | FValue (v : anyval) (len : nat)
  | FPtrBool (p : option bool)
  | FPtrFloat64 (p : option float64)
  | FPtrString (p : option bytes)
  | FPtrPermissions (p : option Permissions).

Record field := mk_field {
  f_key : bytes;
  f_omitempty : bool;
  f_val : fval;
}.

Definition empty_val (v : fval) : bool :=
  match v with
  | FString b | FBytes b => negb (len_ne b)
  | FInt64 n | FUint16 n | FUint32 n | FUint64 n => n =? 0
  | FFloat64 f => negb (float_ne0 f)
  | FBool b => negb b
  | FValue _ len => (len =? 0)%nat
  | FPtrBool p => negb (not_nil p)
  | FPtrFloat64 p => negb (not_nil p)
  | FPtrString p => negb (not_nil p)
  | FPtrPermissions p => negb (not_nil p)
  end.

Definition emitted (f : field) : bool := negb (f_omitempty f && empty_val (f_val f)).

Section reference.
Context {St E : Type} `{!Encoder St E}.

Definition encode_val (enc : St) (v : fval) : result E St :=
  match v with
  | FString b => EncodeString enc b
  | FInt64 n => EncodeInt64 enc n
  | FUint16 n => EncodeUint16 enc n
  | FUint32 n => EncodeUint32 enc n
  | FUint64 n => EncodeUint64 enc n
  | FFloat64 f => EncodeFloat64 enc f
  | FBool b => EncodeBool enc b
  | FBytes b => EncodeBytes enc b
  | FValue a _ => Encode enc a
  | FPtrBool (Some b) => EncodeBool enc b
  | FPtrFloat64 (Some f) => EncodeFloat64 enc f
  | FPtrString (Some b) => EncodeString enc b
  | FPtrPermissions (Some p) => Encode enc (VPermissions (Some p))
  | _ => EncodeNil enc
  end.

Definition encode_field (enc : St) (f : field) : result E St :=
  enc ← EncodeString enc (f_key f); encode_val enc (f_val f).

Fixpoint encode_fields (enc : St) (fs : list field) : result E St :=
  match fs with
  | [] => Ok enc
  | f :: fs => enc ← encode_field enc f; encode_fields enc fs
  end.

Definition reflect_encode (fs : list field) (enc : St) : result E St :=
  let out := filter (λ f, emitted f = true) fs in
  enc ← EncodeMapLen enc (length out); encode_fields enc out.
End reference.


(** The struct's fields in declaration order, each with its msgpack tag. *)
Definition control_fields (m : ControlMessage) : list field := [
  mk_field (lit "type") false (FString (cm_Type m));
  mk_field (lit "capabilities") true (FValue (VStrings (cm_Capabilities m)) (length (cm_Capabilities m)));
  mk_field (lit "hostname") true (FString (cm_Hostname m));
  mk_field (lit "os") true (FString (cm_OS m));
  mk_field (lit "arch") true (FString (cm_Arch m));
  mk_field (lit "timestamp") true (FInt64 (cm_Timestamp m));
  mk_field (lit "ts") true (FInt64 (cm_TS m));
  mk_field (lit "tenant_id") true (FString (cm_TenantID m));
  mk_field (lit "node_anomaly_rate") true (FFloat64 (cm_NodeAnomalyRate m));
  mk_field (lit "per_family_rates") true (FValue (VFamilyAnomalyRate (cm_PerFamilyRates m)) (length (cm_PerFamilyRates m)));
  mk_field (lit "recent_bitmask") true (FBytes (cm_RecentBitmask m));
  mk_field (lit "sampler_ver") true (FString (cm_SamplerVersion m));
  mk_field (lit "model_ver") true (FString (cm_ModelVersion m));
  mk_field (lit "dims") true (FValue (VMetricDim (cm_Dims m)) (length (cm_Dims m)));
  mk_field (lit "since_ts") true (FInt64 (cm_SinceTS m));
  mk_field (lit "limit") true (FUint32 (cm_Limit m));
  mk_field (lit "summaries") true (FValue (VHealthSummary (cm_Summaries m)) (length (cm_Summaries m)));
  mk_field (lit "breaches") true (FValue (VAlertBreach (cm_Breaches m)) (length (cm_Breaches m)));
  mk_field (lit "rules") true (FValue (VThresholdRule (cm_AlertRules m)) (length (cm_AlertRules m)));
  mk_field (lit "rule_coverage") true (FValue (VRuleCoverage (cm_RuleCoverage m)) (length (cm_RuleCoverage m)));
  mk_field (lit "device_hourly_ceiling") true (FUint32 (cm_DeviceHourlyCeiling m));
  mk_field (lit "pending_samples") true (FUint64 (cm_PendingSamples m));
  mk_field (lit "oldest_ts") true (FInt64 (cm_OldestTS m));
  mk_field (lit "rate") true (FUint32 (cm_Rate m));
  mk_field (lit "deadline") true (FInt64 (cm_Deadline m));
  mk_field (lit "retry_after") true (FUint32 (cm_RetryAfter m));
  mk_field (lit "tier") true (FString (cm_Tier m));
  mk_field (lit "samples") true (FValue (VBackfillSample (cm_BackfillSamples m)) (length (cm_BackfillSamples m)));
  mk_field (lit "cursor") true (FInt64 (cm_Cursor m));
  mk_field (lit "dim") true (FString (cm_Dim m));
  mk_field (lit "from_ts") true (FInt64 (cm_FromTS m));
  mk_field (lit "to_ts") true (FInt64 (cm_ToTS m));
  mk_field (lit "max_points") true (FUint32 (cm_MaxPoints m));
  mk_field (lit "points") true (FValue (VHistoryPoint (cm_HistoryPoints m)) (length (cm_HistoryPoints m)));
  mk_field (lit "truncated") true (FPtrBool (cm_Truncated m));
  mk_field (lit "token") true (FString (cm_Token m));
  mk_field (lit "relay_url") true (FString (cm_RelayURL m));
  mk_field (lit "reason") true (FString (cm_Reason m));
  mk_field (lit "permissions") true (FPtrPermissions (cm_Permissions m));
  mk_field (lit "ice_servers") true (FValue (VStrings (cm_IceServers m)) (length (cm_IceServers m)));
  mk_field (lit "version") true (FString (cm_Version m));
  mk_field (lit "url") true (FString (cm_URL m));
  mk_field (lit "sha256") true (FString (cm_SHA256 m));
  mk_field (lit "signature") true (FString (cm_Signature m));
  mk_field (lit "success") true (FPtrBool (cm_Success m));
  mk_field (lit "error") true (FString (cm_AckError m));
  mk_field (lit "sdp") true (FString (cm_SDP m));
  mk_field (lit "candidate") true (FString (cm_Candidate m));
  mk_field (lit "mid") true (FString (cm_Mid m));
  mk_field (lit "received") true (FUint64 (cm_Received m));
  mk_field (lit "x") true (FUint16 (cm_X m));
  mk_field (lit "y") true (FUint16 (cm_Y m));
  mk_field (lit "button") true (FString (cm_Button m));
  mk_field (lit "pressed") true (FPtrBool (cm_Pressed m));
  mk_field (lit "key") true (FString (cm_Key m));
  mk_field (lit "cols") true (FUint16 (cm_Cols m));
  mk_field (lit "rows") true (FUint16 (cm_Rows m));
  mk_field (lit "path") true (FString (cm_Path m));
  mk_field (lit "entries") true (FValue (VFileEntry (cm_Entries m)) (length (cm_Entries m)));
  mk_field (lit "more") true (FBool (cm_More m));
  mk_field (lit "total_size") true (FUint64 (cm_TotalSize m));
  mk_field (lit "text") true (FString (cm_Text m));
  mk_field (lit "sender") true (FString (cm_Sender m));
  mk_field (lit "cpu_model") true (FString (cm_CPUModel m));
  mk_field (lit "cpu_cores") true (FUint32 (cm_CPUCores m));
  mk_field (lit "ram_total_mb") true (FUint64 (cm_RAMTotalMB m));
  mk_field (lit "disk_total_mb") true (FUint64 (cm_DiskTotalMB m));
  mk_field (lit "disk_free_mb") true (FUint64 (cm_DiskFreeMB m));
  mk_field (lit "network_interfaces") true (FValue (VNetworkInterface (cm_NetworkInterfaces m)) (length (cm_NetworkInterfaces m)));
  mk_field (lit "system_uuid") true (FString (cm_SystemUUID m));
  mk_field (lit "amt_available") true (FPtrBool (cm_AMTAvailable m));
  mk_field (lit "amt_version") true (FString (cm_AMTVersion m));
  mk_field (lit "log_level") true (FString (cm_LogLevel m));
  mk_field (lit "time_from") true (FString (cm_TimeFrom m));
  mk_field (lit "time_to") true (FString (cm_TimeTo m));
  mk_field (lit "search") true (FString (cm_Search m));
  mk_field (lit "log_offset") true (FUint32 (cm_LogOffset m));
  mk_field (lit "log_limit") true (FUint32 (cm_LogLimit m));
  mk_field (lit "source") true (FString (cm_Source m));
  mk_field (lit "unit") true (FString (cm_Unit m));
  mk_field (lit "log_entries") true (FValue (VLogEntry (cm_LogEntries m)) (length (cm_LogEntries m)));
  mk_field (lit "total_count") true (FUint32 (cm_TotalCount m));
  mk_field (lit "has_more") true (FPtrBool (cm_HasMore m));
  mk_field (lit "available_units") true (FValue (VStrings (cm_AvailableUnits m)) (length (cm_AvailableUnits m)));
  mk_field (lit "ports") true (FValue (VDiscoveredPort (cm_Ports m)) (length (cm_Ports m)));
  mk_field (lit "services") true (FValue (VDiscoveredService (cm_Services m)) (length (cm_Services m)));
  mk_field (lit "db_engines") true (FValue (VDiscoveredDbEngine (cm_DBEngines m)) (length (cm_DBEngines m)));
  mk_field (lit "containers") true (FValue (VDiscoveredContainer (cm_Containers m)) (length (cm_Containers m)));
  mk_field (lit "packages") true (FValue (VDiscoveredPackage (cm_Packages m)) (length (cm_Packages m)));
  mk_field (lit "enabled") true (FPtrBool (cm_Enabled m));
  mk_field (lit "alert_id") true (FString (cm_AlertID m));
  mk_field (lit "rule_id") true (FString (cm_RuleID m));
  mk_field (lit "rule_version") true (FUint32 (cm_RuleVersion m));
  mk_field (lit "severity") true (FPtrString (cm_Severity m));
  mk_field (lit "metric") true (FString (cm_Metric m));
  mk_field (lit "value") true (FPtrFloat64 (cm_Value m));
  mk_field (lit "window_start_ts") true (FInt64 (cm_WindowStartTS m));
  mk_field (lit "window_end_ts") true (FInt64 (cm_WindowEndTS m));
  mk_field (lit "observed_ts") true (FInt64 (cm_ObservedTS m));
  mk_field (lit "backfilled") true (FPtrBool (cm_Backfilled m));
  mk_field (lit "evidence_codec") true (FString (cm_EvidenceCodec m));
  mk_field (lit "evidence") true (FBytes (cm_Evidence m));
  mk_field (lit "csr") true (FBytes (cm_CSR m));
  mk_field (lit "cert") true (FBytes (cm_Cert m));
  mk_field (lit "ca_bundle") true (FString (cm_CABundle m));
  mk_field (lit "received_screen") true (FUint64 (cm_ReceivedScreen m));
  mk_field (lit "received_files") true (FUint64 (cm_ReceivedFiles m))
].

(** An encoder that only writes down its calls, each with its argument. *)
Inductive enc_call :=
  | CMapLen (n : nat)
  | CString (v : bytes)
  | CInt64 (v : Z)
  | CUint16 (v : Z)
  | CUint32 (v : Z)
  | CUint64 (v : Z)
  | CFloat64 (v : float64)
  | CBool (v : bool)
  | CBytes (v : bytes)
  | CNil
  | CValue (v : anyval).

#[global] Instance log_encoder : Encoder (list enc_call) Empty_set := {|
  EncodeMapLen s n := Ok (s ++ [CMapLen n]);
  EncodeString s v := Ok (s ++ [CString v]);
  EncodeInt64 s v := Ok (s ++ [CInt64 v]);
  EncodeUint16 s v := Ok (s ++ [CUint16 v]);
  EncodeUint32 s v := Ok (s ++ [CUint32 v]);
  EncodeUint64 s v := Ok (s ++ [CUint64 v]);
  EncodeFloat64 s v := Ok (s ++ [CFloat64 v]);
  EncodeBool s v := Ok (s ++ [CBool v]);
  EncodeBytes s v := Ok (s ++ [CBytes v]);
  EncodeNil s := Ok (s ++ [CNil]);
  Encode s v := Ok (s ++ [CValue v]);
|}.

Definition log_val (v : fval) : enc_call :=
  match v with
  | FString b => CString b
  | FInt64 n => CInt64 n
  | FUint16 n => CUint16 n
  | FUint32 n => CUint32 n
  | FUint64 n => CUint64 n
  | FFloat64 f => CFloat64 f
  | FBool b => CBool b
  | FBytes b => CBytes b
  | FValue a _ => CValue a
  | FPtrBool (Some b) => CBool b
  | FPtrFloat64 (Some f) => CFloat64 f
  | FPtrString (Some b) => CString b
  | FPtrPermissions (Some p) => CValue (VPermissions (Some p))
  | _ => CNil
  end.

(** The map on the wire: the entries of a message, key and value call. *)
Definition wire_entries (m : ControlMessage) : list (bytes * enc_call) :=
  (λ f, (f_key f, log_val (f_val f))) <$> filter (λ f, emitted f = true) (control_fields m).

(** What a receiver sees of field [i]: its value, or its absence. *)
Definition wire_view (f : field) : option enc_call :=
  if emitted f then Some (log_val (f_val f)) else None.

Definition control_keys : list bytes := f_key <$> control_fields
  (mk_control [] [] [] [] [] 0 0 [] f_zero [] [] [] [] [] 0 0 [] [] [] [] 0 0 0 0 0 0 [] [] 0 [] 0 0 0 []
     None [] [] [] None [] [] [] [] [] None [] [] [] [] 0 0 0 [] None [] 0 0 [] [] false 0 [] [] [] 0
     0 0 0 [] [] None [] [] [] [] [] 0 0 [] [] [] 0 None [] [] [] [] [] [] None [] [] 0 None [] None
     0 0 0 None [] [] [] [] [] 0 0).

(** ** Lemmas *)

Section equivalence.
Context {St E : Type} `{!Encoder St E}.

(** The presence bit and the case of field [i] do what its tag asks. *)
Definition field_agrees (m : ControlMessage) (i : Z) (ok : bool) (f : field) : Prop :=
  ok = emitted f ∧ (ok = true → ∀ enc, encodeControlField m enc i = call (encode_field enc f)).

Fixpoint fields_agree (m : ControlMessage) (i : Z) (present : list bool) (fs : list field) : Prop :=
  match present, fs with
  | [], [] => True
  | ok :: present, f :: fs => field_agrees m i ok f ∧ fields_agree m (i + 1) present fs
  | _, _ => False
  end.

Lemma call_bind (r : result E St) (k : St → result E St) :
  call (r ≫= k) = (call r ≫= λ s, call (k s)).
Proof. by destruct r. Qed.

Lemma encode_present_fields m present fs i enc :
  fields_agree m i present fs →
  length (filter (λ ok, ok = true) present) = length (filter (λ f, emitted f = true) fs) ∧
  encode_present m enc i present =
    call (encode_fields enc (filter (λ f, emitted f = true) fs)).
Proof.
  revert i enc fs. induction present as [|ok present IH]; intros i enc [|f fs]; cbn [fields_agree];
    [done|done|done|]. intros [[Hok Hf] H]. rewrite !filter_cons, <- Hok. cbn [encode_present].
  destruct ok; [rewrite !decide_True by done|rewrite !decide_False by done; by apply IH].
  destruct (IH (i + 1) enc fs H) as [Hlen _]. cbn [length encode_fields]. split; [by rewrite Hlen|].
  rewrite Hf, call_bind by done. destruct (call (encode_field enc f)); cbn [mbind result_bind]; [|done].
  by apply IH.
Qed.

Lemma call_field enc key (r : St → result E St) :
  call (s ← EncodeString enc key; r s) = (s ← call (EncodeString enc key); call (r s)).
Proof. by destruct (EncodeString enc key). Qed.

Lemma len_ne_length {A} (l : list A) : len_ne l = negb (length l =? 0)%nat.
Proof. by destruct l. Qed.

Lemma control_fields_agree m : fields_agree m 0 (controlFieldPresence m) (control_fields m).
Proof.
  destruct m. unfold controlFieldPresence, control_fields. cbn [fields_agree].
  repeat match goal with |- _ ∧ _ => split end. 108: done.
  all: unfold field_agrees, emitted; cbn [f_omitempty f_val f_key empty_val andb negb].
  all: split; [first [reflexivity | by rewrite negb_involutive | apply len_ne_length]|].
  all: intros Hok enc; unfold encode_field; rewrite call_field; cbn [f_key f_val encode_val].
  all: first [reflexivity
    | cbv in Hok; match type of Hok with match ?p with _ => _ end = _ =>
        destruct p; [reflexivity|done] end].
Qed.

Lemma EncodeMsgpack_reflect m enc :
  EncodeMsgpack m enc = call (reflect_encode (control_fields m) enc).
Proof.
  unfold EncodeMsgpack, reflect_encode.
  destruct (encode_present_fields m _ _ 0 enc (control_fields_agree m)) as [-> _].
  rewrite call_bind. destruct (call (EncodeMapLen _ _)) as [s|]; cbn [mbind result_bind]; [|done].
  by apply encode_present_fields, control_fields_agree.
Qed.
End equivalence.

Lemma log_field s f : encode_field s f = Ok (s ++ [CString (f_key f); log_val (f_val f)]).
Proof.
  unfold encode_field. cbn [EncodeString log_encoder mbind result_bind].
  replace (s ++ [CString (f_key f); log_val (f_val f)])
    with ((s ++ [CString (f_key f)]) ++ [log_val (f_val f)]) by by rewrite <- (assoc_L (++)).
  by destruct (f_val f) as [| | | | | | | | |[]|[]|[]|[]].
Qed.

Definition entry_calls (e : bytes * enc_call) : list enc_call := [CString e.1; e.2].

Lemma log_fields s fs :
  encode_fields s fs = Ok (s ++ concat (entry_calls <$> ((λ f, (f_key f, log_val (f_val f))) <$> fs))).
Proof.
  revert s. induction fs as [|f fs IH]; intros s; cbn [encode_fields]; [by rewrite app_nil_r|].
  rewrite log_field. cbn [mbind result_bind]. rewrite IH. cbn. by rewrite <- (assoc_L (++)).
Qed.

Lemma EncodeMsgpack_log m :
  EncodeMsgpack m [] =
  Ok (CMapLen (length (wire_entries m)) :: concat (entry_calls <$> wire_entries m)).
Proof.
  rewrite EncodeMsgpack_reflect. unfold reflect_encode. cbn [EncodeMapLen log_encoder mbind result_bind].
  rewrite log_fields. cbn [app call]. unfold wire_entries. by rewrite length_fmap.
Qed.

Lemma entry_calls_inj l k : concat (entry_calls <$> l) = concat (entry_calls <$> k) → l = k.
Proof.
  revert k. induction l as [|[a b] l IH]; intros [|[c d] k]; cbn; try done.
  intros [= -> -> H]. f_equal. by apply IH.
Qed.

Lemma control_keys_all m : f_key <$> control_fields m = control_keys.
Proof. reflexivity. Qed.

Lemma control_keys_NoDup : NoDup control_keys.
Proof. apply (bool_decide_unpack _). vm_compute. exact I. Qed.

(** With distinct keys the entries determine each field's view, position by
    position: two lists of fields under the same keys. *)
Lemma entries_views (l k : list field) :
  NoDup (f_key <$> l) → f_key <$> l = f_key <$> k →
  (λ f, (f_key f, log_val (f_val f))) <$> filter (λ f, emitted f = true) l =
  (λ f, (f_key f, log_val (f_val f))) <$> filter (λ f, emitted f = true) k →
  wire_view <$> l = wire_view <$> k.
Proof.
  revert k. induction l as [|f l IH]; intros [|g k] Hnd Hk; try done.
  cbn [fmap list_fmap] in Hnd, Hk. apply NoDup_cons in Hnd as [Hf Hnd]. injection Hk as Hfg Hk.
  rewrite !filter_cons. cbn [fmap list_fmap]. unfold wire_view at 1 3.
  assert (∀ (h : field) (q : list field), f_key h ∉ f_key <$> q →
    ∀ v, (f_key h, v) ∉ (λ f, (f_key f, log_val (f_val f))) <$> filter (λ f, emitted f = true) q) as Hnot.
  { intros h q Hq v (x & Hx & [_ Hin]%list_elem_of_filter)%list_elem_of_fmap. apply Hq.
    apply list_elem_of_fmap. exists x. split; [by injection Hx|done]. }
  assert (f_key g ∉ f_key <$> k) as Hg by (by rewrite <- Hfg, <- Hk).
  destruct (emitted f), (emitted g);
    rewrite ?decide_True, ?decide_False by done; rewrite ?fmap_cons; intros H.
  - injection H as _ Hv H. f_equal; [by f_equal | by apply IH].
  - exfalso. rewrite Hfg in H. apply (Hnot g k Hg (log_val (f_val f))). rewrite <- H. left.
  - exfalso. apply (Hnot f l Hf (log_val (f_val g))). rewrite Hfg, H. left.
  - f_equal. by apply IH.
Qed.

Lemma NoDup_fmap_filter {A B} (g : A → B) (P : A → Prop) `{!∀ x, Decision (P x)} (l : list A) :
  NoDup (g <$> l) → NoDup (g <$> filter P l).
Proof.
  induction l as [|x l IH]; [done|]. rewrite fmap_cons, filter_cons. intros [Hx Hnd]%NoDup_cons.
  case_decide; [|auto]. rewrite fmap_cons. constructor; [|auto].
  intros (y & Hy & [_ Hin]%list_elem_of_filter)%list_elem_of_fmap. apply Hx.
  apply list_elem_of_fmap. eauto.
Qed.

(** ** Claims *)

(** C2: the hand-written encoder is the reflection encoder.  For every msgpack
    encoder and every message it makes the calls the struct tags ask for, in
    declaration order, with the map length they need, and fails exactly when one
    of those calls does; no pointer is dereferenced while nil. *)
Theorem EncodeMsgpack_matches_tags {St E} `{!Encoder St E} m enc :
  EncodeMsgpack m enc =
  match reflect_encode (control_fields m) enc with
  | Ok s => Ok s
  | Err e => Err (EncErr e)
  end.
Proof. apply EncodeMsgpack_reflect. Qed.

(** The envelope loses nothing: two messages written with the same calls
    have, field by field, the same value or the same absence, and the map
    announces exactly as many entries as it holds, under distinct keys. *)
Theorem control_wire_faithful m1 m2 :
  (EncodeMsgpack m1 [] = EncodeMsgpack m2 [] →
   wire_view <$> control_fields m1 = wire_view <$> control_fields m2) ∧
  EncodeMsgpack m1 [] =
    Ok (CMapLen (length (wire_entries m1)) :: concat (entry_calls <$> wire_entries m1)) ∧
  NoDup (wire_entries m1).*1.
Proof.
  split_and!.
  - rewrite !EncodeMsgpack_log. intros H.
    assert (concat (entry_calls <$> wire_entries m1) = concat (entry_calls <$> wire_entries m2)) as H'
      by congruence.
    apply entry_calls_inj in H'. apply entries_views; [by rewrite control_keys_all; apply control_keys_NoDup
      | by rewrite !control_keys_all | exact H'].
  - apply EncodeMsgpack_log.
  - unfold wire_entries. rewrite <- list_fmap_compose. cbn [compose fst].
    apply (NoDup_fmap_filter f_key (λ f, emitted f = true) (control_fields m1)).
    rewrite control_keys_all. apply control_keys_NoDup.
Qed.
