(* ===== verification/Relay.v ===== *)
(** * The session relay

    [src/server/internal/relay/relay.go] and [inprocess_registry.go].  A session
    pairs an agent and a browser that register under the same token; a pipe
    forwards between them until one side hangs up, [End] stops it, or the session
    is released unpaired.

    Sessions are shared by every goroutine that looked their token up, so they
    live in a heap; each goroutine is a [thread] at one of its synchronisation
    points, and [relay_step] runs one critical section, map operation or atomic
    update of one thread.  The copying of messages is the thread [TPipe], which
    may leave its [select] at any time. *)
From S2P Require Import Prelude.

Definition token : Type := bytes.
Definition conn : Type := nat.
Definition loc : Type := nat.

Inductive side := SideAgent | SideBrowser.

#[global] Instance side_eq_dec : EqDecision side.
Proof. solve_decision. Defined.

Inductive relay_err := ErrDuplicateSide | ErrSessionNotFound.

Record session := mk_session {
  s_agent : option conn;
  s_browser : option conn;
  s_ready : bool;                (* the channel is closed *)
  s_done : bool;                 (* the channel is closed *)
  s_started : bool;
  s_piping : bool;
  s_released : bool;
  s_endReason : bytes;
  s_cancelled : bool;            (* the pipe's context is cancelled *)
}.

Definition newSession : session := mk_session None None false false false false false [] false.

Record relay := mk_relay {
  r_sessions : gmap token loc;
  r_heap : gmap loc session;
  r_count : Z;
  r_started : Z;
  r_registry : gmap token bytes;
  r_serverID : bytes;
  r_ended : list (token * loc);      (* calls of OnSessionEnd, and for which session *)
  r_closed : list (conn * bytes);    (* conns closed, each with the reason it was told *)
}.

Definition set_sessions (r : relay) m :=
  mk_relay m (r_heap r) (r_count r) (r_started r) (r_registry r) (r_serverID r) (r_ended r) (r_closed r).
Definition set_session (r : relay) (l : loc) (s : session) :=
  mk_relay (r_sessions r) (<[l := s]> (r_heap r)) (r_count r) (r_started r) (r_registry r)
    (r_serverID r) (r_ended r) (r_closed r).
Definition set_count (r : relay) n :=
  mk_relay (r_sessions r) (r_heap r) n (r_started r) (r_registry r) (r_serverID r) (r_ended r) (r_closed r).
Definition set_registry (r : relay) m :=
  mk_relay (r_sessions r) (r_heap r) (r_count r) (r_started r) m (r_serverID r) (r_ended r) (r_closed r).

Definition NewRelay (serverID : bytes) : relay := mk_relay ∅ ∅ 0 0 ∅ serverID [] [].

(** ** Session methods *)

Definition setSide (s : session) (sd : side) (c : conn) : result relay_err session :=
  match sd with
  | SideAgent =>
      match s_agent s with
      | Some _ => Err ErrDuplicateSide
      | None => Ok (mk_session (Some c) (s_browser s) (s_ready s) (s_done s) (s_started s)
                      (s_piping s) (s_released s) (s_endReason s) (s_cancelled s))
      end
  | SideBrowser =>
      match s_browser s with
      | Some _ => Err ErrDuplicateSide
      | None => Ok (mk_session (s_agent s) (Some c) (s_ready s) (s_done s) (s_started s)
                      (s_piping s) (s_released s) (s_endReason s) (s_cancelled s))
      end
  end.

Definition with_started (s : session) : session :=
  mk_session (s_agent s) (s_browser s) (s_ready s) (s_done s) true (s_piping s) (s_released s)
    (s_endReason s) (s_cancelled s).
Definition with_piping (s : session) : session :=
  mk_session (s_agent s) (s_browser s) true (s_done s) (s_started s) true (s_released s)
    (s_endReason s) (s_cancelled s).
Definition with_released (s : session) : session :=
  mk_session (s_agent s) (s_browser s) (s_ready s) (s_done s) (s_started s) (s_piping s) true
    (s_endReason s) (s_cancelled s).
Definition with_reason (s : session) (reason : bytes) : session :=
  mk_session (s_agent s) (s_browser s) (s_ready s) (s_done s) (s_started s) (s_piping s)
    (s_released s) reason (s_cancelled s).
Definition with_cancelled (s : session) : session :=
  mk_session (s_agent s) (s_browser s) (s_ready s) (s_done s) (s_started s) (s_piping s)
    (s_released s) (s_endReason s) true.

(** [end]: closing the channel is once. *)
Definition session_end (s : session) : session :=
  mk_session (s_agent s) (s_browser s) (s_ready s) true (s_started s) (s_piping s) (s_released s)
    (s_endReason s) (s_cancelled s).

(** [closeSides]: what each present conn is told. *)
Definition closeSides (r : relay) (s : session) (conns : list (option conn)) : relay :=
  mk_relay (r_sessions r) (r_heap r) (r_count r) (r_started r) (r_registry r) (r_serverID r)
    (r_ended r) (r_closed r ++ ((., s_endReason s) <$> omap id conns)).

(** ** The registry *)

(** [InProcessRegistry.SaveSession] keeps an existing entry. *)
Definition SaveSession (r : relay) (tok : token) : relay :=
  match r_registry r !! tok with
  | Some _ => r
  | None => set_registry r (<[tok := r_serverID r]> (r_registry r))
  end.
Definition DeleteSession (r : relay) (tok : token) : relay :=
  set_registry r (delete tok (r_registry r)).

(** ** Goroutines and their critical sections *)

Inductive action :=
  | ADelete                      (* sessions.Delete(token) *)
  | ACompareAndDelete            (* sessions.CompareAndDelete(token, val) *)
  | ACount                       (* count.Add(-1) *)
  | ARegistry                    (* registry.DeleteSession *)
  | ANotify                      (* OnSessionEnd *)
  | AClose (conns : list (option conn))
  | ACloseBoth                   (* closeSides(s.agent, s.browser) *)
  | AEnd.                        (* s.end() *)

#[global] Instance action_eq_dec : EqDecision action.
Proof. solve_decision. Defined.

Inductive thread :=
  | TRegister (tok : token) (l : loc) (c : conn) (sd : side)  (* has loaded the session *)
  | TMeta (tok : token) (l : loc)                             (* first side: SaveSession next *)
  | TStart (tok : token) (l : loc)                            (* startPipeIfReady next *)
  | TPipe (tok : token) (l : loc)                             (* pipe's select *)
  | TEnd (tok : token) (l : loc) (reason : bytes)             (* End has loaded the session *)
  | TStop (tok : token) (l : loc)                             (* End: stop() next *)
  | TRelease (tok : token) (l : loc)                          (* release next *)
  | TTeardown (tok : token) (l : loc) (acts : list action).

Definition fresh_loc (r : relay) : loc := fresh (map_to_list (r_heap r)).*1.

(** [Register]'s [LoadOrStore]. *)
Definition load_or_store (r : relay) (tok : token) : relay * loc :=
  match r_sessions r !! tok with
  | Some l => (r, l)
  | None =>
      let l := fresh_loc r in
      (mk_relay (<[tok := l]> (r_sessions r)) (<[l := newSession]> (r_heap r)) (r_count r)
         (r_started r) (r_registry r) (r_serverID r) (r_ended r) (r_closed r), l)
  end.

(** [Register]'s critical section: [setSide] and [markStarted]. *)
Definition register_lock (r : relay) (tok : token) (l : loc) (c : conn) (sd : side) :
    relay * list thread :=
  match r_heap r !! l with
  | None => (r, [])
  | Some s =>
      match setSide s sd c with
      | Err _ => (r, [])
      | Ok s =>
          if s_started s then (set_session r l s, [TStart tok l])
          else (mk_relay (r_sessions r) (<[l := with_started s]> (r_heap r)) (r_count r + 1)
                  (r_started r + 1) (r_registry r) (r_serverID r) (r_ended r) (r_closed r),
                [TMeta tok l])
      end
  end.

Definition startPipeIfReady (r : relay) (tok : token) (l : loc) : relay * list thread :=
  match r_heap r !! l with
  | None => (r, [])
  | Some s =>
      if s_piping s || s_released s then (r, []) else
      match s_agent s, s_browser s with
      | Some _, Some _ => (set_session r l (with_piping s), [TPipe tok l])
      | _, _ => (r, [])
      end
  end.

(** [End]'s critical section. *)
Definition end_lock (r : relay) (tok : token) (l : loc) (reason : bytes) : relay * list thread :=
  match r_heap r !! l with
  | None => (r, [])
  | Some s =>
      if s_released s || negb (bool_decide (s_endReason s = [])) then (r, [])
      else (set_session r l (with_reason s reason),
            if s_piping s then [TStop tok l] else [TRelease tok l])
  end.

(** [release]'s critical section and the work it leaves to do. *)
Definition release_acts (s : session) : list action :=
  [ACompareAndDelete] ++ (if s_started s then [ACount] else []) ++
  [ARegistry; ANotify; AClose [s_agent s; s_browser s]; AEnd].

Definition release_lock (r : relay) (tok : token) (l : loc) : relay * list thread :=
  match r_heap r !! l with
  | None => (r, [])
  | Some s =>
      if s_piping s || s_released s then (r, [])
      else (set_session r l (with_released s),
            [TTeardown tok l (release_acts s)])
  end.

(** [pipe]'s deferred teardown. *)
Definition pipe_teardown : list action := [ADelete; ACount; ARegistry; ANotify; ACloseBoth; AEnd].

Definition run_act (r : relay) (tok : token) (l : loc) (a : action) : relay :=
  match a with
  | ADelete => set_sessions r (delete tok (r_sessions r))
  | ACompareAndDelete =>
      if bool_decide (r_sessions r !! tok = Some l)
      then set_sessions r (delete tok (r_sessions r)) else r
  | ACount => set_count r (r_count r - 1)
  | ARegistry => DeleteSession r tok
  | ANotify => mk_relay (r_sessions r) (r_heap r) (r_count r) (r_started r) (r_registry r)
                 (r_serverID r) (r_ended r ++ [(tok, l)]) (r_closed r)
  | AClose conns =>
      match r_heap r !! l with Some s => closeSides r s conns | None => r end
  | ACloseBoth =>
      match r_heap r !! l with Some s => closeSides r s [s_agent s; s_browser s] | None => r end
  | AEnd =>
      match r_heap r !! l with Some s => set_session r l (session_end s) | None => r end
  end.

(** One step of one thread, with the threads it becomes. *)
Inductive thread_step : relay → thread → relay → list thread → Prop :=
  | StRegister r tok l c sd r' ts :
      register_lock r tok l c sd = (r', ts) → thread_step r (TRegister tok l c sd) r' ts
  | StMeta r tok l : thread_step r (TMeta tok l) (SaveSession r tok) [TStart tok l]
  | StStart r tok l r' ts :
      startPipeIfReady r tok l = (r', ts) → thread_step r (TStart tok l) r' ts
  | StPipe r tok l : thread_step r (TPipe tok l) r [TTeardown tok l pipe_teardown]
  | StEnd r tok l reason r' ts :
      end_lock r tok l reason = (r', ts) → thread_step r (TEnd tok l reason) r' ts
  | StStop r tok l s :
      r_heap r !! l = Some s → thread_step r (TStop tok l) (set_session r l (with_cancelled s)) []
  | StRelease r tok l r' ts :
      release_lock r tok l = (r', ts) → thread_step r (TRelease tok l) r' ts
  | StAct r tok l a acts :
      thread_step r (TTeardown tok l (a :: acts)) (run_act r tok l a) [TTeardown tok l acts]
  | StDone r tok l : thread_step r (TTeardown tok l []) r [].

(** The relay, its goroutines, the token each session was made for, and the
    registrations so far. *)
Record rsys := mk_rsys {
  rs_relay : relay;
  rs_threads : list thread;
  rs_tok : gmap loc token;
  rs_log : list (token * side * conn);
}.

Inductive relay_step : rsys → rsys → Prop :=
  | RStart r ts tk lg tok c sd r' l :                       (* Register is called *)
      load_or_store r tok = (r', l) →
      relay_step (mk_rsys r ts tk lg)
        (mk_rsys r' (TRegister tok l c sd :: ts) (<[l := tok]> tk) ((tok, sd, c) :: lg))
  | REnd r ts tk lg tok l reason :                          (* End finds the session *)
      r_sessions r !! tok = Some l →
      relay_step (mk_rsys r ts tk lg) (mk_rsys r (TEnd tok l reason :: ts) tk lg)
  | RUnregister r ts tk lg tok l :                          (* Unregister finds it *)
      r_sessions r !! tok = Some l →
      relay_step (mk_rsys r ts tk lg) (mk_rsys r (TRelease tok l :: ts) tk lg)
  | RThread r ts1 t ts2 tk lg r' ts :
      thread_step r t r' ts →
      relay_step (mk_rsys r (ts1 ++ t :: ts2) tk lg) (mk_rsys r' (ts1 ++ ts ++ ts2) tk lg).

Inductive relay_reachable (id : bytes) : rsys → Prop :=
  | relay_init : relay_reachable id (mk_rsys (NewRelay id) [] ∅ [])
  | relay_next s s' : relay_reachable id s → relay_step s s' → relay_reachable id s'.

Definition ActiveSessionCount (r : relay) : Z := r_count r.
Definition ActiveTokens (r : relay) : list token := (map_to_list (r_sessions r)).*1.

(** ** Running a schedule

    The step relation as a function of a schedule: a call arriving, or one step
    of the thread at an index. *)

Inductive cmd :=
  | CRegister (tok : token) (c : conn) (sd : side)
  | CEnd (tok : token) (reason : bytes)
  | CUnregister (tok : token)
  | CRun (i : nat).

Definition run_thread (r : relay) (t : thread) : relay * list thread :=
  match t with
  | TRegister tok l c sd => register_lock r tok l c sd
  | TMeta tok l => (SaveSession r tok, [TStart tok l])
  | TStart tok l => startPipeIfReady r tok l
  | TPipe tok l => (r, [TTeardown tok l pipe_teardown])
  | TEnd tok l reason => end_lock r tok l reason
  | TStop tok l =>
      match r_heap r !! l with
      | Some s => (set_session r l (with_cancelled s), [])
      | None => (r, [t])
      end
  | TRelease tok l => release_lock r tok l
  | TTeardown tok l (a :: acts) => (run_act r tok l a, [TTeardown tok l acts])
  | TTeardown tok l [] => (r, [])
  end.

Definition exec (s : rsys) (c : cmd) : option rsys :=
  let '(mk_rsys r ts tk lg) := s in
  match c with
  | CRegister tok c sd =>
      let '(r', l) := load_or_store r tok in
      Some (mk_rsys r' (TRegister tok l c sd :: ts) (<[l := tok]> tk) ((tok, sd, c) :: lg))
  | CEnd tok reason =>
      l ← r_sessions r !! tok; Some (mk_rsys r (TEnd tok l reason :: ts) tk lg)
  | CUnregister tok =>
      l ← r_sessions r !! tok; Some (mk_rsys r (TRelease tok l :: ts) tk lg)
  | CRun i =>
      t ← ts !! i;
      match t with
      | TStop _ l => if r_heap r !! l is Some _ then
          let '(r', ts') := run_thread r t in
          Some (mk_rsys r' (take i ts ++ ts' ++ drop (S i) ts) tk lg) else None
      | _ => let '(r', ts') := run_thread r t in
             Some (mk_rsys r' (take i ts ++ ts' ++ drop (S i) ts) tk lg)
      end
  end.

Fixpoint run (s : rsys) (cs : list cmd) : option rsys :=
  match cs with
  | [] => Some s
  | c :: cs => s ← exec s c; run s cs
  end.

(** ** Invariants *)

Definition idle (s : session) : Prop := s_piping s = false ∧ s_released s = false.

Definition thread_loc (t : thread) : loc :=
  match t with
  | TRegister _ l _ _ | TMeta _ l | TStart _ l | TPipe _ l | TEnd _ l _ | TStop _ l
  | TRelease _ l | TTeardown _ l _ => l
  end.
Definition thread_tok (t : thread) : token :=
  match t with
  | TRegister tok _ _ _ | TMeta tok _ | TStart tok _ | TPipe tok _ | TEnd tok _ _ | TStop tok _
  | TRelease tok _ | TTeardown tok _ _ => tok
  end.

(** What a thread still has to do to its session: the teardown's actions. *)
Definition thread_acts (t : thread) : list action :=
  match t with
  | TPipe _ _ => pipe_teardown
  | TTeardown _ _ acts => acts
  | _ => []
  end.

Definition occurs (P : action → bool) (acts : list action) : nat :=
  length (filter (λ a, P a = true) acts).

Definition is_notify (a : action) : bool := bool_decide (a = ANotify).
Definition is_count (a : action) : bool := bool_decide (a = ACount).
Definition is_delete (a : action) : bool := bool_decide (a = ADelete ∨ a = ACompareAndDelete).

(** How many of these actions the threads still owe session [l]. *)
Definition owes (P : action → bool) (l : loc) (t : thread) : nat :=
  if bool_decide (thread_loc t = l) then occurs P (thread_acts t) else 0.
Definition owed (P : action → bool) (l : loc) (ts : list thread) : nat :=
  sum_list_with (owes P l) ts.
Definition owed_any (P : action → bool) (ts : list thread) : nat :=
  sum_list_with (λ t, occurs P (thread_acts t)) ts.

Definition notified (r : relay) (l : loc) : nat := length (filter (λ e, e.2 = l) (r_ended r)).

Record session_inv (r : relay) (ts : list thread) (tk : gmap loc token)
    (lg : list (token * side * conn)) (l : loc) (s : session) : Prop := {
  si_exclusive : s_piping s && s_released s = false;
  si_notify : (notified r l + owed is_notify l ts = if s_piping s || s_released s then 1 else 0)%nat;
  si_delete : (owed is_delete l ts ≤ 1)%nat;
  si_idle_delete : idle s → owed is_delete l ts = 0%nat;
  si_held : ∀ tok, tk !! l = Some tok →
    r_sessions r !! tok = Some l ↔ idle s ∨ owed is_delete l ts = 1%nat;
  si_agent : ∀ c, s_agent s = Some c → ∃ tok, tk !! l = Some tok ∧ (tok, SideAgent, c) ∈ lg;
  si_browser : ∀ c, s_browser s = Some c → ∃ tok, tk !! l = Some tok ∧ (tok, SideBrowser, c) ∈ lg;
  si_started : is_Some (s_agent s) ∨ is_Some (s_browser s) → s_started s = true;
  si_piped : s_piping s = true → s_started s = true;
  si_waiting : idle s → s_started s = false →
    ∃ tok c sd, TRegister tok l c sd ∈ ts;
}.

Record relay_inv (s : rsys) : Prop := {
  rv_thread : ∀ t, t ∈ rs_threads s →
    rs_tok s !! thread_loc t = Some (thread_tok t) ∧ is_Some (r_heap (rs_relay s) !! thread_loc t);
  rv_register : ∀ tok l c sd, TRegister tok l c sd ∈ rs_threads s → (tok, sd, c) ∈ rs_log s;
  rv_session : ∀ l x, r_heap (rs_relay s) !! l = Some x →
    session_inv (rs_relay s) (rs_threads s) (rs_tok s) (rs_log s) l x;
  rv_map : ∀ tok l, r_sessions (rs_relay s) !! tok = Some l →
    rs_tok s !! l = Some tok ∧ is_Some (r_heap (rs_relay s) !! l);
  rv_dom : dom (rs_tok s) = dom (r_heap (rs_relay s));
  rv_ended : ∀ l, r_heap (rs_relay s) !! l = None → notified (rs_relay s) l = 0%nat;
}.

Lemma owed_app P l ts1 ts2 : owed P l (ts1 ++ ts2) = (owed P l ts1 + owed P l ts2)%nat.
Proof. apply sum_list_with_app. Qed.
Lemma owed_cons P l t ts : owed P l (t :: ts) = (owes P l t + owed P l ts)%nat.
Proof. done. Qed.
Lemma owed_nil P l : owed P l [] = 0%nat.
Proof. done. Qed.

Lemma owes_quiet P l t : thread_acts t = [] → owes P l t = 0%nat.
Proof. unfold owes. intros ->. by case_bool_decide. Qed.

Lemma owes_other P l t : thread_loc t ≠ l → owes P l t = 0%nat.
Proof. unfold owes. intros H. by rewrite bool_decide_false. Qed.

Lemma owed_other P l ts : (∀ t, t ∈ ts → thread_loc t ≠ l) → owed P l ts = 0%nat.
Proof.
  induction ts as [|t ts IH]; intros H; [done|]. rewrite owed_cons, owes_other, IH; [done| |].
  - intros t' Ht. apply H. by right.
  - apply H. by left.
Qed.

Lemma occurs_cons P a acts : occurs P (a :: acts) = ((if P a then 1 else 0) + occurs P acts)%nat.
Proof. unfold occurs. rewrite filter_cons. by destruct (P a). Qed.

#[local] Arguments occurs P acts : simpl never.
#[local] Arguments notified r l : simpl never.
#[local] Arguments owed P l ts : simpl never.
#[local] Arguments release_acts s : simpl never.

Lemma pipe_owes :
  occurs is_notify pipe_teardown = 1%nat ∧ occurs is_delete pipe_teardown = 1%nat ∧
  occurs is_count pipe_teardown = 1%nat.
Proof. done. Qed.

Lemma release_owes s :
  occurs is_notify (release_acts s) = 1%nat ∧ occurs is_delete (release_acts s) = 1%nat ∧
  occurs is_count (release_acts s) = (if s_started s then 1 else 0)%nat.
Proof. unfold release_acts. by destruct (s_started s). Qed.

Lemma notified_same r r' l : r_ended r' = r_ended r → notified r' l = notified r l.
Proof. unfold notified. by intros ->. Qed.

(** A session no thread step of another session touches. *)
Lemma session_inv_frame r r' ts ts' tk tk' lg lg' l s :
  session_inv r ts tk lg l s →
  notified r' l = notified r l →
  owed is_notify l ts' = owed is_notify l ts → owed is_delete l ts' = owed is_delete l ts →
  (∀ tok, tk' !! l = Some tok →
     tk !! l = Some tok ∧ (r_sessions r' !! tok = Some l ↔ r_sessions r !! tok = Some l)) →
  (∀ tok, tk !! l = Some tok → tk' !! l = Some tok) →
  (∀ x, x ∈ lg → x ∈ lg') →
  (∀ tok c sd, TRegister tok l c sd ∈ ts → TRegister tok l c sd ∈ ts' ∨ s_started s = true) →
  session_inv r' ts' tk' lg' l s.
Proof.
  intros [] Hn Ho Hd Htk Htk' Hlg Hts. constructor; rewrite ?Hn, ?Ho, ?Hd; auto.
  - intros tok [Ht ->]%Htk. auto.
  - intros c (tok & ? & ?)%si_agent0. eauto.
  - intros c (tok & ? & ?)%si_browser0. eauto.
  - intros Hi Hs. destruct (si_waiting0 Hi Hs) as (tok & c & sd & [H|H]%Hts); [eauto|congruence].
Qed.

(** A step of one thread touches its own session only. *)
Lemma relay_inv_thread r ts1 t ts2 tk lg r' ts s s' :
  relay_inv (mk_rsys r (ts1 ++ t :: ts2) tk lg) →
  r_heap r !! thread_loc t = Some s →
  (∀ t', t' ∈ ts → thread_loc t' = thread_loc t ∧ thread_tok t' = thread_tok t ∧
                   ∀ tok l c sd, t' ≠ TRegister tok l c sd) →
  r_heap r' = <[thread_loc t := s']> (r_heap r) →
  (∀ l, l ≠ thread_loc t → notified r' l = notified r l) →
  (∀ tok l, r_sessions r' !! tok = Some l → r_sessions r !! tok = Some l) →
  (∀ tok l, l ≠ thread_loc t → r_sessions r !! tok = Some l → r_sessions r' !! tok = Some l) →
  session_inv r' (ts1 ++ ts ++ ts2) tk lg (thread_loc t) s' →
  relay_inv (mk_rsys r' (ts1 ++ ts ++ ts2) tk lg).
Proof.
  intros [Ht Hreg Hs Hm Hd He] Hl Hts Hheap Hn Hsub Hsup Hs'. cbn in *.
  assert (∀ t', t' ∈ ts1 ++ ts ++ ts2 → t' ∈ ts ∨ t' ∈ ts1 ++ t :: ts2) as Hin.
  { intros t'. rewrite !elem_of_app, elem_of_cons. tauto. }
  assert (∀ l, is_Some (r_heap r !! l) → is_Some (r_heap r' !! l)) as Hgrow.
  { intros l' H. rewrite Hheap. destruct (decide (thread_loc t = l')) as [<-|];
      [by rewrite lookup_insert_eq | by rewrite lookup_insert_ne]. }
  constructor; cbn.
  - intros t' [H|H]%Hin; [|destruct (Ht t' H); auto].
    destruct (Hts t' H) as (-> & -> & _). destruct (Ht t) as [? ?]; [|by auto].
    rewrite elem_of_app, elem_of_cons. auto.
  - intros tok l c sd [H|H]%Hin; [|eauto]. destruct (Hts _ H) as (_ & _ & Hnot). by destruct (Hnot tok l c sd).
  - intros l x Hx. rewrite Hheap in Hx. apply lookup_insert_Some in Hx as [[<- <-]|[Hne Hx]]; [done|].
    apply (session_inv_frame r r' (ts1 ++ t :: ts2) _ tk tk lg lg); auto.
    + rewrite !owed_app, owed_cons, (owes_other _ _ t), (owed_other _ _ ts); auto.
      intros t' [-> _]%Hts. done.
    + rewrite !owed_app, owed_cons, (owes_other _ _ t), (owed_other _ _ ts); auto.
      intros t' [-> _]%Hts. done.
    + intros tok Htok. split; [done|]. split; auto.
    + intros tok c sd H. left. rewrite elem_of_app, elem_of_cons in H. rewrite !elem_of_app.
      destruct H as [?|[<-|?]]; auto. done.
  - intros tok l [? ?]%Hsub%Hm. auto.
  - rewrite Hheap, dom_insert_lookup_L; [done|]. by rewrite Hl.
  - intros l. rewrite Hheap, lookup_insert_None. intros [? ?]. rewrite Hn by done. auto.
Qed.

(** The session of a stepping thread, when its teardown is not involved. *)
Lemma session_inv_quiet r ts1 t ts2 tk lg r' ts s s' :
  session_inv r (ts1 ++ t :: ts2) tk lg (thread_loc t) s →
  thread_acts t = [] → (∀ t', t' ∈ ts → thread_acts t' = []) →
  r_sessions r' = r_sessions r → r_ended r' = r_ended r →
  s_piping s' = s_piping s → s_released s' = s_released s →
  (∀ c, s_agent s' = Some c → s_agent s = Some c ∨
        ∃ tok, tk !! thread_loc t = Some tok ∧ (tok, SideAgent, c) ∈ lg) →
  (∀ c, s_browser s' = Some c → s_browser s = Some c ∨
        ∃ tok, tk !! thread_loc t = Some tok ∧ (tok, SideBrowser, c) ∈ lg) →
  (s_started s' = true ∨
   s_started s' = s_started s ∧ s_agent s' = s_agent s ∧ s_browser s' = s_browser s ∧
   ∀ tok l c sd, t ≠ TRegister tok l c sd) →
  session_inv r' (ts1 ++ ts ++ ts2) tk lg (thread_loc t) s'.
Proof.
  intros [] Hq Hqs Es Ee Ep Er Ha Hb Hst. unfold idle in *.
  assert (∀ P l, owed P l (ts1 ++ ts ++ ts2) = owed P l (ts1 ++ t :: ts2)) as Ho.
  { intros P l. rewrite !owed_app, owed_cons, owes_quiet by done. f_equal.
    replace (owed P l ts) with 0%nat; [done|]. clear -Hqs. induction ts as [|x ts IH]; [done|].
    rewrite owed_cons, owes_quiet, <- IH; [done| |]; intros; apply Hqs; by constructor. }
  constructor; unfold idle, notified; rewrite ?Ho, ?Ep, ?Er, ?Es, ?Ee; auto.
  - intros c [?|?]%Ha; auto.
  - intros c [?|?]%Hb; auto.
  - destruct Hst as [?|(-> & -> & -> & _)]; auto.
  - destruct Hst as [?|(-> & _)]; auto.
  - intros Hi Hf. destruct Hst as [?|(Hsame & _ & _ & Hnr)]; [congruence|].
    destruct (si_waiting0 Hi) as (tok & c & sd & H); [congruence|].
    exists tok, c, sd. rewrite elem_of_app, elem_of_cons in H. rewrite !elem_of_app.
    destruct H as [?|[Heq|?]]; auto. by destruct (Hnr tok (thread_loc t) c sd).
Qed.

(** A thread that disappears without touching anything. *)
Lemma relay_inv_drop r ts1 t ts2 tk lg ts :
  relay_inv (mk_rsys r (ts1 ++ t :: ts2) tk lg) →
  thread_acts t = [] → (∀ t', t' ∈ ts → thread_acts t' = []) →
  (∀ t', t' ∈ ts → thread_loc t' = thread_loc t ∧ thread_tok t' = thread_tok t ∧
                   ∀ tok l c sd, t' ≠ TRegister tok l c sd) →
  (∀ s, r_heap r !! thread_loc t = Some s → s_started s = true ∨
        ∀ tok l c sd, t ≠ TRegister tok l c sd) →
  relay_inv (mk_rsys r (ts1 ++ ts ++ ts2) tk lg).
Proof.
  intros Hinv Hq Hqs Hts Hst. destruct (rv_thread _ Hinv t) as [Htok [s Hs]].
  { cbn. rewrite elem_of_app, elem_of_cons. auto. }
  cbn in Hs. eapply (relay_inv_thread r ts1 t ts2 tk lg r ts s s Hinv); auto.
  - by rewrite insert_id.
  - eapply session_inv_quiet; [by apply (rv_session _ Hinv)|..]; auto.
    destruct (Hst s Hs); auto.
Qed.

Definition claimed (s : session) : nat := if s_piping s || s_released s then 1 else 0.

Lemma claimed_idle s : idle s ↔ claimed s = 0%nat.
Proof. unfold idle, claimed. destruct (s_piping s), (s_released s); cbn; intuition congruence. Qed.

(** The session of a thread that starts or carries on a teardown: the
    notifications owed, and the map entry, follow the actions left to do. *)
Lemma session_inv_work r ts1 t ts2 tk lg r' t' s s' :
  session_inv r (ts1 ++ t :: ts2) tk lg (thread_loc t) s →
  thread_loc t' = thread_loc t → (∀ tok l c sd, t ≠ TRegister tok l c sd) →
  s_agent s' = s_agent s → s_browser s' = s_browser s → s_started s' = s_started s →
  s_piping s' && s_released s' = false → (s_piping s' = true → s_started s = true) →
  (claimed s ≤ claimed s')%nat →
  (notified r' (thread_loc t) + occurs is_notify (thread_acts t') + claimed s =
   notified r (thread_loc t) + occurs is_notify (thread_acts t) + claimed s')%nat →
  (occurs is_delete (thread_acts t') + claimed s = occurs is_delete (thread_acts t) + claimed s' ∧
   r_sessions r' = r_sessions r ∨
   occurs is_delete (thread_acts t) = 1 ∧ occurs is_delete (thread_acts t') = 0 ∧
   claimed s' = claimed s ∧
   ∀ tok, tk !! thread_loc t = Some tok → r_sessions r' !! tok = None)%nat →
  session_inv r' (ts1 ++ [t'] ++ ts2) tk lg (thread_loc t) s'.
Proof.
  intros [] Hl Hnr Ea Eb Es Hex Hpi Hle Hn Hd.
  assert (∀ P, (owed P (thread_loc t) (ts1 ++ [t'] ++ ts2) + occurs P (thread_acts t) =
                owed P (thread_loc t) (ts1 ++ t :: ts2) + occurs P (thread_acts t'))%nat) as Ho.
  { intros P. rewrite !owed_app, !owed_cons, owed_nil. unfold owes.
    rewrite !bool_decide_true by done. lia. }
  pose proof (Ho is_notify). pose proof (Ho is_delete) as Hod.
  fold (claimed s) in *. pose proof (claimed_idle s). pose proof (claimed_idle s').
  assert (claimed s ≤ 1 ∧ claimed s' ≤ 1)%nat by (unfold claimed; by destruct (_ || _), (_ || _); cbn; lia).
  assert (owed is_delete (thread_loc t) (ts1 ++ t :: ts2) + occurs is_delete (thread_acts t') ≥
          occurs is_delete (thread_acts t))%nat by lia.
  constructor; rewrite ?Ea, ?Eb, ?Es; auto; fold (claimed s').
  - lia.
  - destruct Hd as [[? _]|?]; [|lia]. destruct (decide (claimed s = 0)%nat); [|lia].
    rewrite si_idle_delete0 in * by tauto. lia.
  - intros Hi. assert (claimed s' = 0)%nat by tauto. assert (claimed s = 0%nat) by lia.
    rewrite si_idle_delete0 in * by tauto. destruct Hd as [[? _]|(? & ? & _)]; lia.
  - intros tok Htok. destruct Hd as [[Hd ->]|(Hd & Hd' & Hc & Hm)].
    + rewrite (si_held0 tok Htok). destruct (decide (claimed s = 0)%nat) as [Hz|Hz].
      * rewrite si_idle_delete0 in * by tauto. destruct (decide (claimed s' = 0)%nat); [tauto|].
        assert (owed is_delete (thread_loc t) (ts1 ++ [t'] ++ ts2) = 1)%nat by lia. tauto.
      * assert (owed is_delete (thread_loc t) (ts1 ++ [t'] ++ ts2) =
                owed is_delete (thread_loc t) (ts1 ++ t :: ts2))%nat as -> by lia.
        assert (claimed s' ≠ 0)%nat by lia. tauto.
    + rewrite (Hm tok Htok). assert (owed is_delete (thread_loc t) (ts1 ++ [t'] ++ ts2) = 0)%nat by lia.
      split; [done|]. intros [Hi|]; [|lia]. assert (claimed s = 0)%nat by (rewrite <- Hc; tauto).
      rewrite si_idle_delete0 in * by tauto. lia.
  - intros Hi Hst. destruct (si_waiting0) as (tok & c & sd & H'); [|congruence|].
    { assert (claimed s' = 0)%nat by tauto. assert (claimed s = 0%nat) by lia. tauto. }
    exists tok, c, sd. rewrite elem_of_app, elem_of_cons in H'. rewrite !elem_of_app.
    destruct H' as [?|[Heq|?]]; auto. by destruct (Hnr tok (thread_loc t) c sd).
Qed.

Lemma relay_inv_self r ts1 t ts2 tk lg :
  relay_inv (mk_rsys r (ts1 ++ t :: ts2) tk lg) →
  tk !! thread_loc t = Some (thread_tok t) ∧
  ∃ s, r_heap r !! thread_loc t = Some s ∧
       session_inv r (ts1 ++ t :: ts2) tk lg (thread_loc t) s.
Proof.
  intros Hinv. destruct (rv_thread _ Hinv t) as [Htok [s Hs]].
  { cbn. rewrite elem_of_app, elem_of_cons. auto. }
  split; [done|]. exists s. split; [done|]. by apply (rv_session _ Hinv).
Qed.

Lemma relay_inv_register r ts1 tok l c sd ts2 tk lg r' ts :
  relay_inv (mk_rsys r (ts1 ++ TRegister tok l c sd :: ts2) tk lg) →
  register_lock r tok l c sd = (r', ts) → relay_inv (mk_rsys r' (ts1 ++ ts ++ ts2) tk lg).
Proof.
  intros Hinv. destruct (relay_inv_self _ _ _ _ _ _ Hinv) as (Htok & s & Hs & Hsi). cbn in Htok, Hs.
  assert ((tok, sd, c) ∈ lg) as Hlog.
  { apply (rv_register _ Hinv tok l c sd). cbn. rewrite elem_of_app, elem_of_cons. auto. }
  unfold register_lock. rewrite Hs. destruct (setSide s sd c) as [s1|e] eqn:Eset.
  - assert (s_piping s1 = s_piping s ∧ s_released s1 = s_released s ∧ s_started s1 = s_started s ∧
      (∀ c', s_agent s1 = Some c' → s_agent s = Some c' ∨
         ∃ tok, tk !! l = Some tok ∧ (tok, SideAgent, c') ∈ lg) ∧
      (∀ c', s_browser s1 = Some c' → s_browser s = Some c' ∨
         ∃ tok, tk !! l = Some tok ∧ (tok, SideBrowser, c') ∈ lg)) as (Ep & Er & Est & Ha & Hb).
    { destruct sd; cbn in Eset; [destruct (s_agent s)|destruct (s_browser s)]; try done;
        injection Eset as <-; cbn; split_and!; auto; intros c' [= <-]; eauto. }
    destruct (s_started s1) eqn:E1; intros [= <- <-].
    + eapply (relay_inv_thread r ts1 (TRegister tok l c sd) ts2 tk lg _ _ s s1); eauto.
      * by intros t' ->%list_elem_of_singleton.
      * eapply session_inv_quiet; cbn; eauto. by intros t' ->%list_elem_of_singleton.
    + eapply (relay_inv_thread r ts1 (TRegister tok l c sd) ts2 tk lg _ _ s (with_started s1)); eauto.
      * by intros t' ->%list_elem_of_singleton.
      * eapply session_inv_quiet; cbn; eauto. by intros t' ->%list_elem_of_singleton.
  - intros [= <- <-]. apply (relay_inv_drop r ts1 (TRegister tok l c sd) ts2 tk lg []); auto.
    + by intros t' ?%elem_of_nil.
    + by intros t' ?%elem_of_nil.
    + cbn. intros s' Hs'. left. simplify_eq. apply (si_started _ _ _ _ _ _ Hsi).
      destruct sd; cbn in Eset; [destruct (s_agent s)|destruct (s_browser s)]; try done; eauto.
Qed.

(** A step to one thread of the same session. *)
Lemma relay_inv_one r ts1 t ts2 tk lg r' t' s s' :
  relay_inv (mk_rsys r (ts1 ++ t :: ts2) tk lg) →
  r_heap r !! thread_loc t = Some s →
  thread_loc t' = thread_loc t → thread_tok t' = thread_tok t →
  (∀ tok l c sd, t' ≠ TRegister tok l c sd) →
  r_heap r' = <[thread_loc t := s']> (r_heap r) →
  (∀ l, l ≠ thread_loc t → notified r' l = notified r l) →
  (r_sessions r' = r_sessions r ∨
   r_sessions r' = delete (thread_tok t) (r_sessions r) ∧
   r_sessions r !! thread_tok t = Some (thread_loc t)) →
  session_inv r' (ts1 ++ [t'] ++ ts2) tk lg (thread_loc t) s' →
  relay_inv (mk_rsys r' (ts1 ++ [t'] ++ ts2) tk lg).
Proof.
  intros Hinv Hs Hl Htk Hnr Hh Hn Hss Hsi.
  eapply relay_inv_thread; [done|done| |done|done| | |done].
  - by intros t'' ->%list_elem_of_singleton.
  - intros tok l. destruct Hss as [->|[-> _]]; [done|]. by intros [_ ?]%lookup_delete_Some.
  - intros tok l Hne Htok. destruct Hss as [->|[-> Hown]]; [done|]. apply lookup_delete_Some.
    split; [|done]. intros <-. congruence.
Qed.

Lemma relay_inv_start r ts1 tok l ts2 tk lg r' ts :
  relay_inv (mk_rsys r (ts1 ++ TStart tok l :: ts2) tk lg) →
  startPipeIfReady r tok l = (r', ts) → relay_inv (mk_rsys r' (ts1 ++ ts ++ ts2) tk lg).
Proof.
  intros Hinv. destruct (relay_inv_self _ _ _ _ _ _ Hinv) as (Htok & s & Hs & Hsi). cbn in Htok, Hs.
  assert (relay_inv (mk_rsys r (ts1 ++ [] ++ ts2) tk lg)) as Hdrop.
  { apply (relay_inv_drop r ts1 (TStart tok l) ts2 tk lg []); auto; by intros t' ?%elem_of_nil. }
  unfold startPipeIfReady. rewrite Hs. destruct (s_piping s || s_released s) eqn:Eidle; [by intros [= <- <-]|].
  destruct (s_agent s) as [a|] eqn:Ea, (s_browser s) as [b|] eqn:Eb; try (by intros [= <- <-]).
  intros [= <- <-]. eapply (relay_inv_one r ts1 (TStart tok l) ts2 tk lg _ _ s (with_piping s)); auto.
  eapply (session_inv_work r ts1 (TStart tok l)); eauto; unfold claimed; rewrite ?Eidle; cbn.
  - by apply orb_false_elim in Eidle as [_ ->].
  - intros _. apply (si_started _ _ _ _ _ _ Hsi). rewrite Ea. eauto.
  - lia.
  - destruct pipe_owes as [-> _]. change (occurs _ []) with 0%nat.
    rewrite (notified_same r) by done. lia.
  - left. destruct pipe_owes as (_ & -> & _). done.
Qed.

Lemma relay_inv_release r ts1 tok l ts2 tk lg r' ts :
  relay_inv (mk_rsys r (ts1 ++ TRelease tok l :: ts2) tk lg) →
  release_lock r tok l = (r', ts) → relay_inv (mk_rsys r' (ts1 ++ ts ++ ts2) tk lg).
Proof.
  intros Hinv. destruct (relay_inv_self _ _ _ _ _ _ Hinv) as (Htok & s & Hs & Hsi). cbn in Htok, Hs.
  assert (relay_inv (mk_rsys r (ts1 ++ [] ++ ts2) tk lg)) as Hdrop.
  { apply (relay_inv_drop r ts1 (TRelease tok l) ts2 tk lg []); auto; by intros t' ?%elem_of_nil. }
  unfold release_lock. rewrite Hs. destruct (s_piping s || s_released s) eqn:Eidle; [by intros [= <- <-]|].
  intros [= <- <-].
  eapply (relay_inv_one r ts1 (TRelease tok l) ts2 tk lg _ _ s (with_released s)); auto.
  eapply (session_inv_work r ts1 (TRelease tok l)); eauto; unfold claimed; rewrite ?Eidle; cbn.
  - by apply orb_false_elim in Eidle as [-> _].
  - by apply orb_false_elim in Eidle as [-> _].
  - rewrite orb_true_r. lia.
  - rewrite orb_true_r. destruct (release_owes s) as [-> _].
    change (occurs _ []) with 0%nat. rewrite (notified_same r) by done. lia.
  - left. rewrite orb_true_r. destruct (release_owes s) as (_ & -> & _). done.
Qed.

(** Steps that touch neither the claim on the session nor the teardown. *)
Lemma relay_inv_mild r ts1 t ts2 tk lg r' ts s s' :
  relay_inv (mk_rsys r (ts1 ++ t :: ts2) tk lg) →
  r_heap r !! thread_loc t = Some s → thread_acts t = [] →
  (∀ tok l c sd, t ≠ TRegister tok l c sd) →
  (∀ t', t' ∈ ts → thread_loc t' = thread_loc t ∧ thread_tok t' = thread_tok t ∧ thread_acts t' = [] ∧
                   ∀ tok l c sd, t' ≠ TRegister tok l c sd) →
  r_heap r' = <[thread_loc t := s']> (r_heap r) →
  r_ended r' = r_ended r → r_sessions r' = r_sessions r →
  s_piping s' = s_piping s → s_released s' = s_released s → s_started s' = s_started s →
  s_agent s' = s_agent s → s_browser s' = s_browser s →
  relay_inv (mk_rsys r' (ts1 ++ ts ++ ts2) tk lg).
Proof.
  intros Hinv Hs Hq Hnr Hts Hh He Hss Ep Er Est Ea Eb.
  eapply (relay_inv_thread r ts1 t ts2 tk lg r' ts s s'); auto.
  - intros t' (? & ? & ? & ?)%Hts. auto.
  - intros l _. unfold notified. by rewrite He.
  - by rewrite Hss.
  - by rewrite Hss.
  - eapply session_inv_quiet; [by apply (rv_session _ Hinv)|..]; rewrite ?Ea, ?Eb; auto.
    by intros t' (? & ? & ? & ?)%Hts.
Qed.

Lemma relay_inv_end r ts1 tok l reason ts2 tk lg r' ts :
  relay_inv (mk_rsys r (ts1 ++ TEnd tok l reason :: ts2) tk lg) →
  end_lock r tok l reason = (r', ts) → relay_inv (mk_rsys r' (ts1 ++ ts ++ ts2) tk lg).
Proof.
  intros Hinv. destruct (relay_inv_self _ _ _ _ _ _ Hinv) as (Htok & s & Hs & Hsi). cbn in Htok, Hs.
  unfold end_lock. rewrite Hs. destruct (s_released s || _).
  - intros [= <- <-]. apply (relay_inv_drop r ts1 (TEnd tok l reason) ts2 tk lg []); auto;
      by intros t' ?%elem_of_nil.
  - intros [= <- <-].
    eapply (relay_inv_mild r ts1 (TEnd tok l reason) ts2 tk lg _ _ s (with_reason s reason)); auto.
    intros t' Ht'. destruct (s_piping s); apply list_elem_of_singleton in Ht' as ->; auto.
Qed.

Lemma relay_inv_meta r ts1 tok l ts2 tk lg :
  relay_inv (mk_rsys r (ts1 ++ TMeta tok l :: ts2) tk lg) →
  relay_inv (mk_rsys (SaveSession r tok) (ts1 ++ [TStart tok l] ++ ts2) tk lg).
Proof.
  intros Hinv. destruct (relay_inv_self _ _ _ _ _ _ Hinv) as (Htok & s & Hs & Hsi). cbn in Htok, Hs.
  eapply (relay_inv_mild r ts1 (TMeta tok l) ts2 tk lg _ _ s s); auto; unfold SaveSession;
    try (by destruct (r_registry r !! tok)).
  - by intros t' ->%list_elem_of_singleton.
  - cbn. rewrite (insert_id (r_heap r)) by done. by destruct (r_registry r !! tok).
Qed.

Lemma owed_self P ts1 t ts2 :
  owed P (thread_loc t) (ts1 ++ t :: ts2) =
  (occurs P (thread_acts t) + owed P (thread_loc t) (ts1 ++ ts2))%nat.
Proof. rewrite !owed_app, owed_cons. unfold owes at 1. rewrite bool_decide_true by done. lia. Qed.

(** A thread about to take the session out of the map owes it alone. *)
Lemma delete_pending r ts1 tok l a acts ts2 tk lg s :
  session_inv r (ts1 ++ TTeardown tok l (a :: acts) :: ts2) tk lg l s → is_delete a = true →
  owed is_delete l (ts1 ++ TTeardown tok l (a :: acts) :: ts2) = 1%nat ∧
  occurs is_delete acts = 0%nat.
Proof.
  intros Hsi Ha. pose proof (si_delete _ _ _ _ _ _ Hsi) as Hle. revert Hle.
  pose proof (owed_self is_delete ts1 (TTeardown tok l (a :: acts)) ts2) as H.
  cbn [thread_acts thread_loc] in H. rewrite H, occurs_cons, Ha. lia.
Qed.

Lemma notified_log r tok l l' :
  notified (run_act r tok l ANotify) l' =
  (notified r l' + if bool_decide (l = l') then 1 else 0)%nat.
Proof.
  unfold notified; cbn. rewrite filter_app, length_app, filter_cons. cbn.
  case_bool_decide; [rewrite decide_True by done|rewrite decide_False by done]; done.
Qed.

Lemma relay_inv_notify r ts1 tok l acts ts2 tk lg s :
  relay_inv (mk_rsys r (ts1 ++ TTeardown tok l (ANotify :: acts) :: ts2) tk lg) →
  r_heap r !! l = Some s →
  relay_inv (mk_rsys (run_act r tok l ANotify) (ts1 ++ [TTeardown tok l acts] ++ ts2) tk lg).
Proof.
  intros Hinv Hs. set (t := TTeardown tok l (ANotify :: acts)) in *.
  pose proof (rv_session _ Hinv l s Hs) as Hsi. cbn in Hsi.
  apply (relay_inv_one r ts1 t ts2 tk lg _ (TTeardown tok l acts) s s); auto.
  - cbn. by rewrite insert_id.
  - intros l' Hne. rewrite notified_log, bool_decide_false by (cbn in Hne; congruence). lia.
  - apply (session_inv_work r ts1 t ts2 tk lg _ _ s); auto.
    + by apply (si_exclusive _ _ _ _ _ _ Hsi).
    + by apply (si_piped _ _ _ _ _ _ Hsi).
    + subst t. cbn [thread_acts thread_loc]. rewrite notified_log, bool_decide_true by done.
      rewrite occurs_cons. change (is_notify ANotify) with true. cbn. lia.
Qed.

Lemma relay_inv_act r ts1 tok l a acts ts2 tk lg :
  relay_inv (mk_rsys r (ts1 ++ TTeardown tok l (a :: acts) :: ts2) tk lg) →
  relay_inv (mk_rsys (run_act r tok l a) (ts1 ++ [TTeardown tok l acts] ++ ts2) tk lg).
Proof.
  intros Hinv. destruct (relay_inv_self _ _ _ _ _ _ Hinv) as (Htok & s & Hs & Hsi). cbn in Htok, Hs.
  set (t := TTeardown tok l (a :: acts)) in *.
  assert (is_delete a = true → r_sessions r !! tok = Some l) as Hown.
  { intros Ha. apply (si_held _ _ _ _ _ _ Hsi tok Htok). right. by eapply delete_pending. }
  assert (∀ s' r', r_heap r' = <[l := s']> (r_heap r) →
    s_agent s' = s_agent s → s_browser s' = s_browser s → s_started s' = s_started s →
    s_piping s' = s_piping s → s_released s' = s_released s →
    r_ended r' = r_ended r → is_notify a = false →
    (r_sessions r' = r_sessions r ∧ is_delete a = false ∨
     r_sessions r' = delete tok (r_sessions r) ∧ is_delete a = true) →
    relay_inv (mk_rsys r' (ts1 ++ [TTeardown tok l acts] ++ ts2) tk lg)) as Hstep.
  { intros s' r' Hh Ea Eb Est Ep Er Ee Hn Hd.
    eapply (relay_inv_one r ts1 t ts2 tk lg r' (TTeardown tok l acts) s s'); auto.
    - intros l' _. by apply notified_same.
    - destruct Hd as [[? _]|[? Hd]]; auto.
    - assert (claimed s' = claimed s) as Hc by (unfold claimed; by rewrite Ep, Er).
      eapply (session_inv_work r ts1 t); eauto; rewrite ?Hc; cbn [t thread_acts thread_loc];
        rewrite ?occurs_cons, ?Hn, ?(notified_same r r' l Ee); auto with lia.
      + by rewrite Ep, Er, (si_exclusive _ _ _ _ _ _ Hsi).
      + rewrite Ep. apply (si_piped _ _ _ _ _ _ Hsi).
      + destruct Hd as [[-> Hd]|[-> Hd]]; rewrite Hd; [left; split; [lia|done]|right].
        destruct (delete_pending _ _ _ _ _ _ _ _ _ _ Hsi Hd) as [_ ->].
        split_and!; [lia|done|done|]. intros tok' Htok'. simplify_eq. apply lookup_delete_eq. }
  assert (r_heap r = <[l := s]> (r_heap r)) as Hsame by (by rewrite insert_id).
  destruct a; cbn [run_act].
  - apply (Hstep s); auto.
  - rewrite bool_decide_true by (by apply Hown). apply (Hstep s); auto.
  - apply (Hstep s); auto.
  - apply (Hstep s); auto.
  - by apply (relay_inv_notify r ts1 tok l acts ts2 tk lg s).
  - rewrite Hs. apply (Hstep s); auto.
  - rewrite Hs. apply (Hstep s); auto.
  - rewrite Hs. apply (Hstep (session_end s)); auto.
Qed.

Lemma thread_step_inv r ts1 t ts2 tk lg r' ts :
  relay_inv (mk_rsys r (ts1 ++ t :: ts2) tk lg) → thread_step r t r' ts →
  relay_inv (mk_rsys r' (ts1 ++ ts ++ ts2) tk lg).
Proof.
  intros Hinv Hst. destruct (relay_inv_self _ _ _ _ _ _ Hinv) as (Htok & s & Hs & Hsi).
  destruct Hst as [r tok l c sd r' ts H|r tok l|r tok l r' ts H|r tok l|r tok l reason r' ts H
    |r tok l s' H|r tok l r' ts H|r tok l a acts|r tok l]; cbn in Htok, Hs.
  - by eapply relay_inv_register.
  - by apply relay_inv_meta.
  - by eapply relay_inv_start.
  - eapply (relay_inv_one r ts1 (TPipe tok l) ts2 tk lg r (TTeardown tok l pipe_teardown) s s); auto.
    { cbn. by rewrite insert_id. }
    eapply (session_inv_work r ts1 (TPipe tok l)); eauto;
      [by apply (si_exclusive _ _ _ _ _ _ Hsi) | by apply (si_piped _ _ _ _ _ _ Hsi)].
  - by eapply relay_inv_end.
  - eapply (relay_inv_mild r ts1 (TStop tok l) ts2 tk lg _ [] s' (with_cancelled s')); auto.
    by intros t' ?%elem_of_nil.
  - by eapply relay_inv_release.
  - by apply relay_inv_act.
  - apply (relay_inv_drop r ts1 (TTeardown tok l []) ts2 tk lg []); auto; by intros t' ?%elem_of_nil.
Qed.

(** A thread joins that owes nothing yet. *)
Lemma relay_inv_join r ts tk lg t lg' :
  relay_inv (mk_rsys r ts tk lg) → thread_acts t = [] →
  tk !! thread_loc t = Some (thread_tok t) → is_Some (r_heap r !! thread_loc t) →
  (∀ x, x ∈ lg → x ∈ lg') →
  (∀ tok l c sd, t = TRegister tok l c sd → (tok, sd, c) ∈ lg') →
  relay_inv (mk_rsys r (t :: ts) tk lg').
Proof.
  intros [Ht Hreg Hs Hm Hd He] Hq Htk Hl Hlg Hnew. constructor; cbn in *; auto.
  - intros t' [->|?]%elem_of_cons; auto.
  - intros tok l c sd [Heq|?]%elem_of_cons; eauto.
  - intros l x Hx. apply (session_inv_frame r r ts _ tk tk lg lg'); auto.
    + rewrite owed_cons, owes_quiet by done. done.
    + rewrite owed_cons, owes_quiet by done. done.
    + intros tok c sd ?. left. by right.
Qed.

Lemma fresh_loc_free r : r_heap r !! fresh_loc r = None.
Proof.
  apply eq_None_not_Some. intros [s Hs]. apply (infinite_is_fresh (map_to_list (r_heap r)).*1).
  apply list_elem_of_fmap. exists (fresh_loc r, s). split; [done|]. by apply elem_of_map_to_list.
Qed.

Lemma relay_inv_load r ts tk lg tok c sd r' l :
  relay_inv (mk_rsys r ts tk lg) → load_or_store r tok = (r', l) →
  relay_inv (mk_rsys r' (TRegister tok l c sd :: ts) (<[l := tok]> tk) ((tok, sd, c) :: lg)).
Proof.
  intros Hinv. unfold load_or_store. destruct (r_sessions r !! tok) as [l0|] eqn:E.
  - intros [= <- <-]. destruct (rv_map _ Hinv _ _ E) as [Htk Hl]. cbn in Htk, Hl.
    rewrite insert_id by done. apply (relay_inv_join r ts tk lg); cbn; auto.
    + intros x ?. by right.
    + intros ???? [= <- <- <- <-]. by left.
  - intros [= <- <-]. pose proof (fresh_loc_free r) as Hf. set (l := fresh_loc r) in *.
    destruct Hinv as [Ht Hreg Hs Hm Hd He]. cbn in *.
    assert (tk !! l = None) as Htkl by (apply not_elem_of_dom; rewrite Hd; by apply not_elem_of_dom).
    assert (∀ t, t ∈ ts → thread_loc t ≠ l) as Hnot.
    { intros t Htt Heq. destruct (Ht t Htt) as [_ [x Hx]]. congruence. }
    constructor; cbn.
    + intros t [->|Htt]%elem_of_cons; cbn; [by rewrite !lookup_insert_eq|].
      specialize (Hnot t Htt). rewrite !lookup_insert_ne by congruence. auto.
    + intros tok' l' c' sd' [[= -> -> -> ->]|H]%elem_of_cons; [by left|]. right. eauto.
    + intros l' x [[<- <-]|[Hne Hx]]%lookup_insert_Some.
      * constructor; cbn; try done; rewrite ?owed_cons, ?owes_quiet, ?owed_other by done.
        -- by rewrite (notified_same r), (He l Hf).
        -- lia.
        -- done.
        -- intros tok' Htok'. rewrite lookup_insert_eq in Htok'. injection Htok' as <-.
           rewrite lookup_insert_eq. split; [by left|done].
        -- by intros [[? ?]|[? ?]].
        -- intros _ _. exists tok, c, sd. by left.
      * apply (session_inv_frame r _ ts _ tk _ lg _); cbn; auto.
        -- rewrite owed_cons, owes_quiet by done. done.
        -- rewrite owed_cons, owes_quiet by done. done.
        -- intros tok' Htok'. rewrite lookup_insert_ne in Htok' by done. split; [done|].
           destruct (decide (tok = tok')) as [<-|]; [|by rewrite lookup_insert_ne].
           rewrite lookup_insert_eq, E. split; congruence.
        -- intros tok' Htok'. by rewrite lookup_insert_ne.
        -- intros y ?. by right.
        -- intros ???. left. by right.
    + intros tok' l' [[<- <-]|[Hne H]]%lookup_insert_Some.
      * by rewrite !lookup_insert_eq.
      * destruct (Hm _ _ H) as [? [x Hx]]. rewrite !lookup_insert_ne by congruence. eauto.
    + rewrite !dom_insert_L. congruence.
    + intros l' [Hl' _]%lookup_insert_None. rewrite (notified_same r) by done. auto.
Qed.

Lemma relay_step_inv s s' : relay_step s s' → relay_inv s → relay_inv s'.
Proof.
  destruct 1 as [r ts tk lg tok c sd r' l H|r ts tk lg tok l reason H|r ts tk lg tok l H
    |r ts1 t ts2 tk lg r' ts H]; intros Hinv.
  - by eapply relay_inv_load.
  - destruct (rv_map _ Hinv _ _ H). by apply (relay_inv_join r ts tk lg).
  - destruct (rv_map _ Hinv _ _ H). by apply (relay_inv_join r ts tk lg).
  - by eapply thread_step_inv.
Qed.

Lemma relay_init_inv id : relay_inv (mk_rsys (NewRelay id) [] ∅ []).
Proof.
  constructor; cbn.
  - by intros t ?%elem_of_nil.
  - by intros ???? ?%elem_of_nil.
  - intros l x. by rewrite lookup_empty.
  - intros tok l. by rewrite lookup_empty.
  - by rewrite !dom_empty_L.
  - done.
Qed.

Lemma relay_reachable_inv id s : relay_reachable id s → relay_inv s.
Proof.
  induction 1 as [|s s' _ IH Hs]; [apply relay_init_inv | by eapply relay_step_inv].
Qed.

(** ** Counting *)

(** A session that is counted and not claimed by a pipe or a release. *)
Definition counted (x : session) : bool :=
  s_started x && negb (s_piping x) && negb (s_released x).

(** Executions in which no session is released before its first side is set. *)
Definition no_early_release (s : rsys) : Prop :=
  ∀ l x, r_heap (rs_relay s) !! l = Some x → s_released x = true → s_started x = true.

Inductive relay_calm (id : bytes) : rsys → Prop :=
  | calm_init : relay_calm id (mk_rsys (NewRelay id) [] ∅ [])
  | calm_next s s' : relay_calm id s → relay_step s s' → no_early_release s' → relay_calm id s'.

Definition count_inv (r : relay) (ts : list thread) : Prop :=
  r_count r = Z.of_nat (count_where counted (r_heap r)) + Z.of_nat (owed_any is_count ts).

Lemma owed_any_app P ts1 ts2 : owed_any P (ts1 ++ ts2) = (owed_any P ts1 + owed_any P ts2)%nat.
Proof. apply sum_list_with_app. Qed.

Lemma owed_any_cons P t ts : owed_any P (t :: ts) = (occurs P (thread_acts t) + owed_any P ts)%nat.
Proof. done. Qed.

#[local] Arguments owed_any P ts : simpl never.

(** What a step adds to the count, to the counted sessions and to the
    decrements owed must balance. *)
Lemma count_inv_step r ts1 t ts2 r' ts s s' :
  count_inv r (ts1 ++ t :: ts2) → r_heap r !! thread_loc t = Some s →
  r_heap r' = <[thread_loc t := s']> (r_heap r) →
  r_count r' + (if counted s then 1 else 0) + Z.of_nat (occurs is_count (thread_acts t)) =
  r_count r + (if counted s' then 1 else 0) + Z.of_nat (owed_any is_count ts) →
  count_inv r' (ts1 ++ ts ++ ts2).
Proof.
  unfold count_inv. intros Hc Hs Hh Hb. rewrite Hh.
  pose proof (count_where_insert counted (r_heap r) (thread_loc t) s' s Hs).
  rewrite !owed_any_app, ?owed_any_cons in *. destruct (counted s), (counted s'); lia.
Qed.

Lemma count_inv_same r ts1 t ts2 r' ts s s' :
  count_inv r (ts1 ++ t :: ts2) → r_heap r !! thread_loc t = Some s →
  r_heap r' = <[thread_loc t := s']> (r_heap r) → r_count r' = r_count r →
  counted s' = counted s → owed_any is_count ts = occurs is_count (thread_acts t) →
  count_inv r' (ts1 ++ ts ++ ts2).
Proof.
  intros Hc Hs Hh Ec Es Ho. eapply count_inv_step; [done|done|done|]. rewrite Ec, Es, Ho. lia.
Qed.

Lemma count_inv_act r ts1 tok l a acts ts2 s :
  count_inv r (ts1 ++ TTeardown tok l (a :: acts) :: ts2) → r_heap r !! l = Some s →
  count_inv (run_act r tok l a) (ts1 ++ [TTeardown tok l acts] ++ ts2).
Proof.
  intros Hc Hs. assert (∀ s' r', r_heap r' = <[l := s']> (r_heap r) → counted s' = counted s →
    r_count r' = r_count r - (if is_count a then 1 else 0) →
    count_inv r' (ts1 ++ [TTeardown tok l acts] ++ ts2)) as Hstep.
  { intros s' r' Hh Es Ec.
    apply (count_inv_step r ts1 (TTeardown tok l (a :: acts)) ts2 r' _ s s'); auto.
    rewrite Ec, Es, owed_any_cons. cbn [thread_acts]. rewrite occurs_cons.
    change (owed_any is_count []) with 0%nat. destruct (is_count a); lia. }
  assert (r_heap r = <[l := s]> (r_heap r)) as Hsame by (by rewrite insert_id).
  destruct a; cbn [run_act]; try (case_bool_decide); rewrite ?Hs;
    first [apply (Hstep s); [done|done|] | apply (Hstep (session_end s)); [done|done|]];
    unfold is_count; rewrite ?bool_decide_true, ?bool_decide_false by done; cbn; lia.
Qed.

Lemma setSide_keeps s sd c s1 :
  setSide s sd c = Ok s1 →
  s_started s1 = s_started s ∧ s_piping s1 = s_piping s ∧ s_released s1 = s_released s.
Proof. destruct sd; cbn; [destruct (s_agent s)|destruct (s_browser s)]; intros [=]; by subst. Qed.

Lemma count_inv_register r ts1 tok l c sd ts2 tk lg r' ts :
  relay_inv (mk_rsys r (ts1 ++ TRegister tok l c sd :: ts2) tk lg) →
  no_early_release (mk_rsys r (ts1 ++ TRegister tok l c sd :: ts2) tk lg) →
  count_inv r (ts1 ++ TRegister tok l c sd :: ts2) →
  register_lock r tok l c sd = (r', ts) → count_inv r' (ts1 ++ ts ++ ts2).
Proof.
  intros Hinv Hcalm Hc. destruct (relay_inv_self _ _ _ _ _ _ Hinv) as (_ & s & Hs & Hsi). cbn in Hs.
  unfold register_lock. rewrite Hs. destruct (setSide s sd c) as [s1|e] eqn:Eset.
  - apply setSide_keeps in Eset as (E1 & E2 & E3). destruct (s_started s1) eqn:Est; intros [= <- <-].
    + apply (count_inv_same r ts1 (TRegister tok l c sd) ts2 _ _ s s1); auto.
      unfold counted. by rewrite Est, <- E1, E2, E3.
    + apply (count_inv_step r ts1 (TRegister tok l c sd) ts2 _ _ s (with_started s1)); auto.
      assert (counted s = false) as -> by (unfold counted; by rewrite <- E1).
      assert (s_released s = false) as Hr.
      { destruct (s_released s) eqn:Er; [|done]. specialize (Hcalm l s Hs Er). congruence. }
      assert (s_piping s = false) as Hp.
      { destruct (s_piping s) eqn:Ep; [|done]. pose proof (si_piped _ _ _ _ _ _ Hsi Ep). congruence. }
      assert (counted (with_started s1) = true) as -> by (unfold counted; cbn; by rewrite E2, E3, Hr, Hp).
      cbn. change (owed_any is_count [TMeta tok l]) with 0%nat. change (occurs is_count []) with 0%nat. lia.
  - intros [= <- <-].
    apply (count_inv_same r ts1 (TRegister tok l c sd) ts2 _ [] s s); auto. cbn. by rewrite insert_id.
Qed.

Lemma count_inv_thread r ts1 t ts2 tk lg r' ts :
  relay_inv (mk_rsys r (ts1 ++ t :: ts2) tk lg) →
  no_early_release (mk_rsys r (ts1 ++ t :: ts2) tk lg) →
  count_inv r (ts1 ++ t :: ts2) → thread_step r t r' ts → count_inv r' (ts1 ++ ts ++ ts2).
Proof.
  intros Hinv Hcalm Hc Hst. destruct (relay_inv_self _ _ _ _ _ _ Hinv) as (Htok & s & Hs & Hsi).
  assert (∀ ts, owed_any is_count ts = occurs is_count (thread_acts t) →
                count_inv r (ts1 ++ ts ++ ts2)) as Hdrop.
  { intros ts' Ho. apply (count_inv_same r ts1 t ts2 r ts' s s); auto. by rewrite insert_id. }
  destruct Hst as [r tok l c sd r' ts H|r tok l|r tok l r' ts H|r tok l|r tok l reason r' ts H
    |r tok l s' H|r tok l r' ts H|r tok l a acts|r tok l]; cbn in Htok, Hs.
  - by eapply count_inv_register.
  - apply (count_inv_same r ts1 (TMeta tok l) ts2 _ _ s s); auto; unfold SaveSession;
      destruct (r_registry r !! tok); cbn; by rewrite ?insert_id.
  - unfold startPipeIfReady in H. rewrite Hs in H.
    destruct (s_piping s || s_released s) eqn:Eidle; [injection H as <- <-; by apply Hdrop|].
    destruct (s_agent s) as [a|] eqn:Ea, (s_browser s) as [b|] eqn:Eb; injection H as <- <-;
      try (by apply Hdrop).
    apply (count_inv_step r ts1 (TStart tok l) ts2 _ _ s (with_piping s)); auto.
    apply orb_false_elim in Eidle as [Ep Er].
    assert (counted s = true) as ->.
    { unfold counted. rewrite Ep, Er, (si_started _ _ _ _ _ _ Hsi) by (rewrite Ea; eauto). done. }
    assert (counted (with_piping s) = false) as -> by (unfold counted; cbn; by rewrite andb_false_r).
    rewrite owed_any_cons. cbn [thread_acts]. destruct pipe_owes as (_ & _ & ->). cbn.
    change (occurs is_count []) with 0%nat. change (owed_any is_count []) with 0%nat. lia.
  - by apply Hdrop.
  - unfold end_lock in H. rewrite Hs in H. destruct (s_released s || _); injection H as <- <-;
      [by apply Hdrop|].
    apply (count_inv_same r ts1 (TEnd tok l reason) ts2 _ _ s (with_reason s reason)); auto.
    by destruct (s_piping s).
  - by apply (count_inv_same r ts1 (TStop tok l) ts2 _ [] s' (with_cancelled s')).
  - unfold release_lock in H. rewrite Hs in H.
    destruct (s_piping s || s_released s) eqn:Eidle; injection H as <- <-; [by apply Hdrop|].
    apply (count_inv_step r ts1 (TRelease tok l) ts2 _ _ s (with_released s)); auto.
    apply orb_false_elim in Eidle as [Ep Er].
    assert (counted s = s_started s) as -> by (unfold counted; rewrite Ep, Er; by rewrite !andb_true_r).
    assert (counted (with_released s) = false) as -> by (unfold counted; cbn; by rewrite andb_false_r).
    rewrite owed_any_cons. cbn [thread_acts]. destruct (release_owes s) as (_ & _ & ->). cbn.
    change (occurs is_count []) with 0%nat. change (owed_any is_count []) with 0%nat.
    destruct (s_started s); lia.
  - by eapply count_inv_act.
  - by apply Hdrop.
Qed.

Lemma relay_calm_inv id s :
  relay_calm id s →
  relay_inv s ∧ no_early_release s ∧ count_inv (rs_relay s) (rs_threads s).
Proof.
  induction 1 as [|s s' _ (IH1 & IH2 & IH3) Hs Hcalm].
  - split_and!; [apply relay_init_inv | by intros l x |].
    unfold count_inv. cbn. by rewrite count_where_empty.
  - split_and!; [by eapply relay_step_inv | done |]. clear Hcalm.
    destruct Hs as [r ts tk lg tok c sd r' l H|r ts tk lg tok l reason H|r ts tk lg tok l H
      |r ts1 t ts2 tk lg r' ts H]; cbn in *; [|done|done|by eapply count_inv_thread].
    unfold load_or_store in H. destruct (r_sessions r !! tok); injection H as <- <-; [done|].
    unfold count_inv in *. cbn in *. rewrite count_where_new by apply fresh_loc_free. done.
Qed.

(** With every goroutine finished, the sessions held are the idle ones. *)
Lemma rest_sessions s :
  relay_inv s → rs_threads s = [] →
  size (r_sessions (rs_relay s)) = count_where counted (r_heap (rs_relay s)).
Proof.
  intros [_ _ Hs Hm Hd _] Hts. destruct s as [r ts tk lg]; cbn in *. subst ts.
  unfold count_where. rewrite <- !length_map_to_list. rewrite <- (length_fmap snd), <- (length_fmap fst (map_to_list _)).
  apply Permutation_length, NoDup_Permutation.
  - apply NoDup_fmap_2_strong; [|apply NoDup_map_to_list].
    intros [t1 l1] [t2 l2] [H1 _]%elem_of_map_to_list%Hm [H2 _]%elem_of_map_to_list%Hm E; cbn in *.
    congruence.
  - apply NoDup_fst_map_to_list.
  - intros l. rewrite !list_elem_of_fmap. split.
    + intros ([tok l'] & -> & H%elem_of_map_to_list). cbn. destruct (Hm _ _ H) as [Htk [x Hx]].
      exists (l', x). split; [done|]. apply elem_of_map_to_list, map_lookup_filter_Some.
      split; [done|]. cbn. pose proof (Hs l' x Hx) as Hsi.
      destruct (proj1 (si_held _ _ _ _ _ _ Hsi tok Htk) H) as [Hi|]; [|done].
      destruct (s_started x) eqn:Est.
      * unfold counted. destruct Hi as [-> ->]. by rewrite Est.
      * by destruct (si_waiting _ _ _ _ _ _ Hsi Hi Est) as (? & ? & ? & ?%elem_of_nil).
    + intros ([l' x] & -> & [Hx Hcx]%elem_of_map_to_list%map_lookup_filter_Some). cbn in *.
      assert (is_Some (tk !! l')) as [tok Htok] by (apply elem_of_dom; rewrite Hd; by apply elem_of_dom).
      exists (tok, l'). split; [done|]. apply elem_of_map_to_list.
      apply (si_held _ _ _ _ _ _ (Hs l' x Hx) tok Htok). left.
      unfold counted in Hcx. unfold idle. destruct (s_started x), (s_piping x), (s_released x); done.
Qed.

(** *** Schedules are executions *)

Lemma run_thread_sound r t r' ts :
  run_thread r t = (r', ts) →
  thread_step r t r' ts ∨ (∃ tok l, t = TStop tok l ∧ r_heap r !! l = None).
Proof.
  destruct t as [tok l c sd|tok l|tok l|tok l|tok l reason|tok l|tok l|tok l [|a acts]]; cbn.
  - intros H. left. by constructor.
  - intros [= <- <-]. left. constructor.
  - intros H. left. by constructor.
  - intros [= <- <-]. left. constructor.
  - intros H. left. by constructor.
  - destruct (r_heap r !! l) as [s|] eqn:E; [|eauto]. intros [= <- <-]. left. by constructor.
  - intros H. left. by constructor.
  - intros [= <- <-]. left. constructor.
  - intros [= <- <-]. left. constructor.
Qed.

Lemma exec_sound s c s' : exec s c = Some s' → relay_step s s'.
Proof.
  destruct s as [r ts tk lg]. destruct c as [tok c sd|tok reason|tok|i]; cbn.
  - destruct (load_or_store r tok) as [r' l] eqn:E. intros [= <-]. by constructor.
  - destruct (r_sessions r !! tok) eqn:E; cbn; [|done]. intros [= <-]. by constructor.
  - destruct (r_sessions r !! tok) eqn:E; cbn; [|done]. intros [= <-]. by constructor.
  - destruct (ts !! i) as [t|] eqn:Et; cbn; [|done].
    assert (ts = take i ts ++ t :: drop (S i) ts) as Hts by (by rewrite take_drop_middle).
    destruct (run_thread r t) as [r' ts'] eqn:E. intros H.
    destruct (run_thread_sound _ _ _ _ E) as [Hst|(tok & l & -> & Hl)]; [|by rewrite Hl in H].
    assert (s' = mk_rsys r' (take i ts ++ ts' ++ drop (S i) ts) tk lg) as ->.
    { destruct t; try congruence. destruct (r_heap r !! l); congruence. }
    rewrite Hts at 1. by constructor.
Qed.

Lemma run_reachable id s cs s' :
  relay_reachable id s → run s cs = Some s' → relay_reachable id s'.
Proof.
  revert s. induction cs as [|c cs IH]; intros s Hr; cbn; [by intros [= <-]|].
  destruct (exec s c) as [s1|] eqn:E; cbn; [|done]. apply IH.
  eapply relay_next; [done|]. by eapply exec_sound.
Qed.

(** An executable form of [no_early_release]. *)
Definition calm_state (s : rsys) : bool :=
  forallb (λ kx, negb (s_released kx.2) || s_started kx.2) (map_to_list (r_heap (rs_relay s))).

Lemma calm_state_sound s : calm_state s = true → no_early_release s.
Proof.
  unfold calm_state. rewrite forallb_forall. intros H l x Hx Hr.
  specialize (H (l, x)). cbn in H. rewrite Hr in H. cbn in H. apply H.
  apply list_elem_of_In. by apply elem_of_map_to_list.
Qed.

Fixpoint run_calm (s : rsys) (cs : list cmd) : option rsys :=
  match cs with
  | [] => Some s
  | c :: cs => s ← exec s c; if calm_state s then run_calm s cs else None
  end.

Lemma run_calm_reachable id s cs s' :
  relay_calm id s → run_calm s cs = Some s' → relay_calm id s'.
Proof.
  revert s. induction cs as [|c cs IH]; intros s Hr; cbn; [by intros [= <-]|].
  destruct (exec s c) as [s1|] eqn:E; cbn; [|done]. destruct (calm_state s1) eqn:Ec; [|done].
  apply IH. eapply calm_next; [done|by eapply exec_sound|by apply calm_state_sound].
Qed.

(** ** Claims *)

(** C3: a session ends once.  However registrations, ends, releases and pipe
    exits interleave, a session is never both piped and released, and
    [OnSessionEnd] fires at most once for it, never while it is still waiting for
    a peer. *)
Theorem session_ends_once id s l x :
  relay_reachable id s → r_heap (rs_relay s) !! l = Some x →
  s_piping x && s_released x = false ∧
  (notified (rs_relay s) l ≤ 1)%nat ∧ (idle x → notified (rs_relay s) l = 0%nat).
Proof.
  intros Hr Hx. pose proof (rv_session _ (relay_reachable_inv id s Hr) l x Hx) as Hsi.
  split; [by apply (si_exclusive _ _ _ _ _ _ Hsi)|].
  pose proof (si_notify _ _ _ _ _ _ Hsi) as Hn. split.
  - destruct (s_piping x || s_released x); lia.
  - intros [Hp Hr']. rewrite Hp, Hr' in Hn. cbn in Hn. lia.
Qed.

(** C18: a pipe joins only the two sides of one token: whatever conns a session
    holds, both were registered under the same token, each for the side it
    holds. *)
Theorem pipe_joins_one_token id s l x a b :
  relay_reachable id s → r_heap (rs_relay s) !! l = Some x →
  s_agent x = Some a → s_browser x = Some b →
  ∃ tok, (tok, SideAgent, a) ∈ rs_log s ∧ (tok, SideBrowser, b) ∈ rs_log s.
Proof.
  intros Hr Hx Ha Hb. pose proof (rv_session _ (relay_reachable_inv id s Hr) l x Hx) as Hsi.
  destruct (si_agent _ _ _ _ _ _ Hsi a Ha) as (tok & Htk & H1).
  destruct (si_browser _ _ _ _ _ _ Hsi b Hb) as (tok' & Htk' & H2).
  exists tok. simplify_eq. done.
Qed.

(** The active count is right at rest: once every goroutine has finished,
    and provided no session was released before its first side was set, the
    count is the number of sessions the relay still holds, so a drained relay
    counts zero. *)
Theorem active_count_at_rest id s :
  relay_calm id s → rs_threads s = [] →
  ActiveSessionCount (rs_relay s) = Z.of_nat (length (ActiveTokens (rs_relay s))).
Proof.
  intros (Hinv & _ & Hc)%relay_calm_inv Hts. unfold count_inv in Hc. rewrite Hts in Hc.
  unfold ActiveSessionCount, ActiveTokens.
  rewrite Hc, length_fmap, length_map_to_list, (rest_sessions s Hinv Hts).
  change (owed_any is_count []) with 0%nat. lia.
Qed.

(** A session released between being stored and its first side being set
    leaks a count: its registration still counts it, nobody is left to discount
    it, and the idle relay, holding no session, never drains to zero. *)
Theorem early_release_leaks_count id :
  ∃ s, relay_reachable id s ∧ rs_threads s = [] ∧ r_sessions (rs_relay s) = ∅ ∧
       ActiveSessionCount (rs_relay s) = 1.
Proof.
  set (tok := lit "t"). set (s0 := mk_rsys (NewRelay id) [] ∅ []).
  assert (∃ s, run s0 [CRegister tok 7%nat SideAgent; CUnregister tok; CRun 0%nat; CRun 1%nat;
    CRun 1%nat; CRun 1%nat; CRun 0%nat; CRun 0%nat; CRun 0%nat; CRun 0%nat; CRun 0%nat; CRun 0%nat] = Some s ∧
    rs_threads s = [] ∧ r_sessions (rs_relay s) = ∅ ∧ ActiveSessionCount (rs_relay s) = 1)
    as (s & Hrun & Hts & Hss & Hc).
  { eexists. split; [vm_compute; reflexivity|]. vm_compute. auto. }
  exists s. split_and!; auto. eapply run_reachable; [apply relay_init|exact Hrun].
Qed.

(** ** Witnesses *)

(** An agent and a browser register under one token and start a pipe. *)
Definition paired : list cmd :=
  [CRegister (lit "t") 1%nat SideAgent; CRun 0%nat; CRun 0%nat; CRun 0%nat;
   CRegister (lit "t") 2%nat SideBrowser; CRun 0%nat; CRun 0%nat].
(** The pipe leaves its select and tears the session down. *)
Definition torn_down : list cmd := paired ++ replicate 8 (CRun 0%nat).

Definition relay0 : rsys := mk_rsys (NewRelay (lit "local")) [] ∅ [].
Definition paired_sys : rsys := default relay0 (run relay0 paired).
Definition ended_sys : rsys := default relay0 (run_calm relay0 torn_down).

Lemma session_ends_once_witness :
  (notified (rs_relay ended_sys) 0%nat ≤ 1)%nat ∧ notified (rs_relay ended_sys) 0%nat = 1%nat.
Proof.
  split; [|vm_compute; reflexivity].
  assert (∃ x, r_heap (rs_relay ended_sys) !! 0%nat = Some x) as [x Hx]
    by (eexists; vm_compute; reflexivity).
  eapply (session_ends_once (lit "local") ended_sys 0%nat x); [|exact Hx].
  eapply (run_reachable _ relay0 torn_down); [apply relay_init|vm_compute; reflexivity].
Defined.

Lemma pipe_joins_one_token_witness :
  ∃ tok, (tok, SideAgent, 1%nat) ∈ rs_log paired_sys ∧ (tok, SideBrowser, 2%nat) ∈ rs_log paired_sys.
Proof.
  assert (∃ x, r_heap (rs_relay paired_sys) !! 0%nat = Some x ∧ s_agent x = Some 1%nat ∧
               s_browser x = Some 2%nat) as (x & Hx & Ha & Hb)
    by (eexists; vm_compute; auto).
  eapply (pipe_joins_one_token (lit "local") paired_sys 0%nat x); [|exact Hx|exact Ha|exact Hb].
  eapply (run_reachable _ relay0 paired); [apply relay_init|vm_compute; reflexivity].
Defined.

Lemma active_count_at_rest_witness : ActiveSessionCount (rs_relay ended_sys) = 0.
Proof.
  rewrite (active_count_at_rest (lit "local") ended_sys); [vm_compute; reflexivity| |vm_compute; reflexivity].
  eapply (run_calm_reachable _ relay0 torn_down); [apply calm_init|vm_compute; reflexivity].
Defined.
