(* ===== verification/Message.v ===== *)
(** * Relay messages and their pooled buffers

    [src/server/internal/relay/message.go]: [ReadMessageFrom] reads one message
    of unknown length into the smallest buffer class that holds it.  The reader
    is the sequence of chunks its [Read] calls see and the error it ends with,
    which it may return together with its last bytes or on its own; a buffer is
    the bytes read so far, and the pools are the log of their [Get]s and [Put]s. *)
From S2P Require Import Prelude Io.

Definition MaxMessageSize : Z := 4 * 1048576.

Definition messageClasses : list Z := [65536; 262144; 1048576; MaxMessageSize].

Inductive msg_err :=
  | ErrMessageTooLarge
  | MsgRead (e : io_err).

Inductive pool_op := PGet (class : nat) | PPut (class : nat).

#[global] Instance pool_op_eq_dec : EqDecision pool_op.
Proof. solve_decision. Defined.

Record chunk_reader := mk_chunks {
  cr_chunks : list bytes;
  cr_err : io_err;
  cr_eager : bool;               (* the error comes with the last bytes *)
}.

(** [Read] into [room] bytes of buffer: the bytes, the error, the reader after. *)
Definition chunk_read (r : chunk_reader) (room : nat) : bytes * option io_err * chunk_reader :=
  match cr_chunks r with
  | [] => ([], Some (cr_err r), r)
  | ch :: rest =>
      let left := drop room ch in
      match left, rest with
      | [], [] => (ch, if cr_eager r then Some (cr_err r) else None,
                   mk_chunks [] (cr_err r) (cr_eager r))
      | [], _ => (ch, None, mk_chunks rest (cr_err r) (cr_eager r))
      | _, _ => (take room ch, None, mk_chunks (left :: rest) (cr_err r) (cr_eager r))
      end
  end.

(** [len] of a buffer of this class: one byte past the class. *)
Definition class_len (class : nat) : Z := default 0 (messageClasses !! class) + 1.

Record Message := mk_message { m_bytes : bytes; m_class : nat }.

(** The buffer the loop reads into next: the same, the next class's, or none. *)
Definition grow (class : nat) (acc : bytes) (ops : list pool_op) :
    option (nat * list pool_op) :=
  if bool_decide (blen acc = class_len class) then
    if bool_decide (class = length messageClasses - 1)%nat then None
    else Some (S class, ops ++ [PGet (S class); PPut class])
  else Some (class, ops).

Fixpoint read_loop (fuel : nat) (r : chunk_reader) (class : nat) (acc : bytes)
    (ops : list pool_op) : option (result msg_err Message * list pool_op) :=
  match fuel with
  | O => None
  | S fuel =>
      match grow class acc ops with
      | None => Some (Err ErrMessageTooLarge, ops ++ [PPut class])
      | Some (class, ops) =>
          let '(data, e, r) := chunk_read r (Z.to_nat (class_len class - blen acc)) in
          let acc := acc ++ data in
          match e with
          | Some EOF => Some (Ok (mk_message acc class), ops)
          | Some e => Some (Err (MsgRead e), ops ++ [PPut class])
          | None => read_loop fuel r class acc ops
          end
      end
  end.

Definition content (r : chunk_reader) : bytes := concat (cr_chunks r).

(** Every turn takes a byte or a chunk off the reader, but the last. *)
Definition fuel_for (r : chunk_reader) : nat := S (length (content r) + length (cr_chunks r)).

Definition ReadMessageFrom (r : chunk_reader) : option (result msg_err Message * list pool_op) :=
  read_loop (fuel_for r) r 0 [] [PGet 0].

(** Buffers of [class] taken from the pools and not given back. *)
Definition outstanding (ops : list pool_op) (class : nat) : Z :=
  Z.of_nat (length (filter (λ o, o = PGet class) ops)) -
  Z.of_nat (length (filter (λ o, o = PPut class) ops)).

Definition holds_only (ops : list pool_op) (class : option nat) : Prop :=
  ∀ c, outstanding ops c = if bool_decide (Some c = class) then 1 else 0.

(** ** Lemmas *)

Lemma outstanding_app ops ops' c : outstanding (ops ++ ops') c = outstanding ops c + outstanding ops' c.
Proof. unfold outstanding. rewrite !filter_app, !length_app. lia. Qed.

Lemma outstanding_get c c' : outstanding [PGet c] c' = if bool_decide (c = c') then 1 else 0.
Proof.
  unfold outstanding. cbn. case_bool_decide.
  - rewrite decide_True, decide_False by congruence. done.
  - rewrite !decide_False by congruence. done.
Qed.

Lemma outstanding_put c c' : outstanding [PPut c] c' = if bool_decide (c = c') then -1 else 0.
Proof.
  unfold outstanding. cbn. case_bool_decide.
  - rewrite decide_False, decide_True by congruence. done.
  - rewrite !decide_False by congruence. done.
Qed.

Lemma holds_put ops c : holds_only ops (Some c) → holds_only (ops ++ [PPut c]) None.
Proof.
  intros H c'. rewrite outstanding_app, H, outstanding_put.
  repeat case_bool_decide; simplify_eq; done.
Qed.

Lemma holds_move ops c : holds_only ops (Some c) → holds_only (ops ++ [PGet (S c); PPut c]) (Some (S c)).
Proof.
  intros H c'. change [PGet (S c); PPut c] with ([PGet (S c)] ++ [PPut c]).
  rewrite !outstanding_app, H, outstanding_get, outstanding_put.
  repeat case_bool_decide; simplify_eq; lia.
Qed.

Lemma holds_first : holds_only [PGet 0] (Some 0%nat).
Proof. intros c. rewrite outstanding_get. repeat case_bool_decide; congruence. Qed.

Lemma chunk_read_spec r room data e r' :
  (0 < room)%nat → chunk_read r room = (data, e, r') →
  (length data ≤ room)%nat ∧ content r = data ++ content r' ∧ cr_err r' = cr_err r ∧
  match e with
  | Some e => e = cr_err r ∧ content r' = []
  | None => (length (content r') + length (cr_chunks r') <
             length (content r) + length (cr_chunks r))%nat
  end.
Proof.
  intros Hroom. unfold chunk_read, content. destruct r as [[|ch rest] err eager]; cbn.
  { intros [= <- <- <-]. cbn. split_and!; auto; lia. }
  destruct (drop room ch) as [|b left] eqn:Ed.
  - assert (length ch ≤ room)%nat as Hle.
    { apply (f_equal length) in Ed. rewrite length_drop in Ed. cbn in Ed. lia. }
    destruct rest; [destruct eager|]; intros [= <- <- <-]; cbn;
      rewrite ?app_nil_r, ?length_app; split_and!; auto; lia.
  - intros [= <- <- <-]. cbn [cr_chunks cr_err concat].
    assert (ch = take room ch ++ b :: left) as Hch by (by rewrite <- Ed, take_drop).
    assert (length ch = length (take room ch) + S (length left))%nat as Hl
      by (rewrite Hch at 1; rewrite length_app; done).
    rewrite length_take in *. split_and!; auto; [lia| |].
    + rewrite Hch at 1. by rewrite <- (assoc_L (++)).
    + rewrite !length_app. cbn. lia.
Qed.

Lemma class_len_lt class : (class < 4)%nat → 0 < class_len class ≤ MaxMessageSize + 1.
Proof. unfold class_len, MaxMessageSize. do 4 (destruct class as [|class]; [cbn; unfold MaxMessageSize; lia|]). lia. Qed.

Lemma class_len_mono class : (class < 3)%nat → class_len class < class_len (S class).
Proof. unfold class_len. do 3 (destruct class as [|class]; [cbn; unfold MaxMessageSize; lia|]). lia. Qed.

(** What the loop returns for the bytes read so far and the rest to come.  A
    reader that ends with its last bytes can fill the largest buffer's extra byte
    unnoticed. *)
Definition outcome (total : bytes) (err : io_err) (eager : bool) (res : result msg_err Message)
    (ops : list pool_op) : Prop :=
  match res with
  | Ok m => err = EOF ∧ m_bytes m = total ∧
            blen total ≤ MaxMessageSize + (if eager then 1 else 0) ∧
            (m_class m < 4)%nat ∧ blen total ≤ class_len (m_class m) ∧
            holds_only ops (Some (m_class m))
  | Err ErrMessageTooLarge => MaxMessageSize < blen total ∧ holds_only ops None
  | Err (MsgRead e) => e = err ∧ err ≠ EOF ∧ holds_only ops None
  end.

Lemma grow_spec class acc ops :
  (class < 4)%nat → blen acc ≤ class_len class → holds_only ops (Some class) →
  match grow class acc ops with
  | None => class = 3%nat ∧ blen acc = MaxMessageSize + 1
  | Some (class', ops') => (class' < 4)%nat ∧ blen acc < class_len class' ∧ holds_only ops' (Some class')
  end.
Proof.
  intros Hc Hacc Hops. unfold grow. case_bool_decide as He; [|split_and!; auto; lia].
  change (length messageClasses - 1)%nat with 3%nat. case_bool_decide as H3; [by subst|].
  pose proof (class_len_mono class ltac:(lia)). split_and!; [lia|lia|by apply holds_move].
Qed.

Lemma chunk_read_eager r room data e r' :
  (0 < room)%nat → chunk_read r room = (data, Some e, r') → cr_eager r = false →
  data = [].
Proof.
  intros _. unfold chunk_read. destruct r as [[|ch rest] err eager]; cbn; [by intros [= <- _ _]|].
  intros H ->. destruct (drop room ch), rest; done.
Qed.

Lemma chunk_read_keeps r room data e r' : chunk_read r room = (data, e, r') → cr_eager r' = cr_eager r.
Proof.
  unfold chunk_read. destruct (cr_chunks r) as [|ch rest]; [by intros [= _ _ <-]|].
  destruct (drop room ch), rest; by intros [= _ _ <-].
Qed.

Lemma read_loop_outcome fuel r class acc ops :
  (length (content r) + length (cr_chunks r) < fuel)%nat →
  (class < 4)%nat → blen acc ≤ class_len class → holds_only ops (Some class) →
  ∃ res ops', read_loop fuel r class acc ops = Some (res, ops') ∧
    outcome (acc ++ content r) (cr_err r) (cr_eager r) res ops'.
Proof.
  revert r class acc ops. induction fuel as [|fuel IH]; intros r class acc ops Hf Hc Hacc Hops; [lia|].
  cbn [read_loop]. pose proof (grow_spec class acc ops Hc Hacc Hops) as Hg.
  destruct (grow class acc ops) as [[class' ops']|].
  - destruct Hg as (Hc' & Hacc' & Hops').
    set (room := Z.to_nat (class_len class' - blen acc)).
    destruct (chunk_read r room) as [[data e] r'] eqn:Er.
    destruct (chunk_read_spec r room data e r') as (Hlen & Hcont & Herr & He); [lia|done|].
    assert (blen (acc ++ data) ≤ class_len class') as Hfit
      by (rewrite blen_app; unfold blen in *; lia).
    destruct e as [e|].
    + destruct He as [-> Hnil]. rewrite Hcont, Hnil, app_nil_r.
      destruct (decide (cr_err r = EOF)) as [HE|HE].
      * rewrite HE. exists (Ok (mk_message (acc ++ data) class')), ops'. split; [done|].
        cbn. split_and!; auto. pose proof (class_len_lt class' Hc').
        destruct (cr_eager r) eqn:Eeager; [lia|].
        rewrite (chunk_read_eager r room data _ _ ltac:(lia) Er Eeager), app_nil_r. lia.
      * exists (Err (MsgRead (cr_err r))), (ops' ++ [PPut class']).
        split; [by destruct (cr_err r)|]. cbn. split_and!; auto. by apply holds_put.
    + destruct (IH r' class' (acc ++ data) ops') as (res & ops2 & E & H); [lia|done|done|done|].
      exists res, ops2. split; [done|].
      by rewrite Hcont, (assoc_L (++)), <- Herr, <- (chunk_read_keeps _ _ _ _ _ Er).
  - destruct Hg as [-> Hfull]. exists (Err ErrMessageTooLarge), (ops ++ [PPut 3%nat]).
    split; [done|]. cbn. split; [|by apply holds_put]. rewrite blen_app.
    pose proof (blen_nonneg (content r)). lia.
Qed.

(** One chunk that ends with EOF is delivered whole up to the last buffer's
    length, one past the limit. *)
Lemma read_loop_one_chunk fuel ch class acc ops :
  (length ch < fuel)%nat → ch ≠ [] → (class < 4)%nat → blen acc ≤ class_len class →
  blen acc + blen ch ≤ MaxMessageSize + 1 → holds_only ops (Some class) →
  ∃ m ops', read_loop fuel (mk_chunks [ch] EOF true) class acc ops = Some (Ok m, ops') ∧
            m_bytes m = acc ++ ch.
Proof.
  revert ch class acc ops. induction fuel as [|fuel IH];
    intros ch class acc ops Hf Hne Hc Hacc Hsum Hops; [lia|].
  assert (0 < blen ch) as Hpos by (destruct ch; [done|unfold blen; cbn; lia]).
  cbn [read_loop]. pose proof (grow_spec class acc ops Hc Hacc Hops) as Hg.
  destruct (grow class acc ops) as [[class' ops']|]; [|lia]. destruct Hg as (Hc' & Hacc' & Hops').
  set (room := Z.to_nat (class_len class' - blen acc)).
  unfold chunk_read. cbn [cr_chunks cr_err cr_eager].
  destruct (drop room ch) as [|b left] eqn:Ed; [eauto|].
  assert (ch = take room ch ++ b :: left) as Hch by (by rewrite <- Ed, take_drop).
  assert (length (b :: left) = length ch - room)%nat as Hl by (by rewrite <- Ed, length_drop).
  assert (length (take room ch) ≤ room)%nat by (rewrite length_take; lia).
  destruct (IH (b :: left) class' (acc ++ take room ch) ops') as (m & ops2 & E & Hm); auto.
  - cbn in Hl. destruct ch; [done|]. cbn in *. lia.
  - rewrite blen_app. unfold blen in *. lia.
  - rewrite Hch, blen_app in Hsum. rewrite blen_app. lia.
  - exists m, ops2. split; [done|]. by rewrite Hm, <- (assoc_L (++)), <- Hch.
Qed.

(** ** Claims *)

(** [ReadMessageFrom] returns, for every chunking of the stream: the whole
    message when it ends in EOF and fits, the too-large error only when it is
    longer than 4 MiB, the reader's own error otherwise; and it keeps exactly
    the buffer the message is in, giving every other one back to its pool. *)
Theorem ReadMessageFrom_exact r :
  ∃ res ops, ReadMessageFrom r = Some (res, ops) ∧
    outcome (content r) (cr_err r) (cr_eager r) res ops.
Proof.
  unfold ReadMessageFrom, fuel_for.
  apply (read_loop_outcome _ r 0 [] [PGet 0]); [lia|lia| |apply holds_first].
  vm_compute. discriminate.
Qed.

(** One byte slips past the limit: a reader that returns its last bytes
    together with EOF delivers a message of 4 MiB and one byte. *)
Theorem ReadMessageFrom_limit_slips msg :
  blen msg = MaxMessageSize + 1 →
  ∃ m ops, ReadMessageFrom (mk_chunks [msg] EOF true) = Some (Ok m, ops) ∧ m_bytes m = msg.
Proof.
  intros Hlen. unfold ReadMessageFrom, fuel_for, content. cbn [cr_chunks concat]. rewrite app_nil_r.
  apply (read_loop_one_chunk _ msg 0 [] [PGet 0]); [lia| |lia| | |apply holds_first].
  - intros ->. discriminate Hlen.
  - vm_compute. discriminate.
  - rewrite Hlen. vm_compute. discriminate.
Qed.

Lemma ReadMessageFrom_limit_slips_witness :
  ∃ m ops, ReadMessageFrom (mk_chunks [replicate (Z.to_nat (MaxMessageSize + 1)) x00] EOF true) =
    Some (Ok m, ops) ∧ m_bytes m = replicate (Z.to_nat (MaxMessageSize + 1)) x00.
Proof.
  apply (ReadMessageFrom_limit_slips (replicate (Z.to_nat (MaxMessageSize + 1)) x00)).
  unfold blen. rewrite length_replicate. apply Z2Nat.id. vm_compute. discriminate.
Defined.
