(* ===== verification/GoTime.v ===== *)
(** * Go's time

    A [time.Time] is its nanoseconds since the Unix epoch and a [time.Duration]
    nanoseconds in an int64.  [Add] is exact at the instants the server handles,
    [Sub] saturates at the bounds of a duration, and [Before], [After] and
    [Equal] are the order of the instants. *)
From S2P Require Import Prelude.

Abbreviation time := Z (only parsing).
Abbreviation duration := Z (only parsing).

Definition second : duration := 1000000000.
Definition minute : duration := 60 * second.
Definition hour : duration := 60 * minute.

(** [time.Time{}]: the first of January of year 1. *)
Definition zero_time : time := -62135596800 * 1000000000.

(** [now.Sub(t)]: a duration saturates at the bounds of int64. *)
Definition time_sub (now t : time) : duration :=
  Z.max (- 2 ^ 63) (Z.min i64_max (now - t)).

(** [t.Unix()]: whole seconds, towards the past. *)
Definition unix (t : time) : Z := t `div` second.

Definition duration_ok (d : duration) : Prop := is_i64 d.

Lemma time_sub_exact now t : duration_ok (now - t) → time_sub now t = now - t.
Proof. unfold duration_ok, is_i64, time_sub, i64_max. lia. Qed.

Lemma time_sub_ok now t : duration_ok (time_sub now t).
Proof. unfold duration_ok, is_i64, time_sub, i64_max. lia. Qed.

Lemma time_sub_mono now now' t : now ≤ now' → time_sub now t ≤ time_sub now' t.
Proof. unfold time_sub, i64_max. lia. Qed.
