(* ===== verification/Rollout.v ===== *)
(** * Rule rollouts: stages, membership and the gate

    [src/server/internal/rules/rollout.go], [stage.go] and [gate.go].  A rule
    reaches a growing share of a customer's machines; a gate report moves it one
    stage back, an elapsed hold one stage on.  Integers are int64 with their
    wrap-around, a time is its nanoseconds since the epoch. *)
From S2P Require Import Prelude GoTime.

Inductive Stage := StageOff | StageCanary | StageStaged | StageFull.

#[global] Instance Stage_eq_dec : EqDecision Stage.
Proof. solve_decision. Defined.

Definition canaryFloorDevices : Z := 5.
Definition fullPercent : Z := 100.
Definition membershipBuckets : Z := 1000000.

Definition maxCanaryGroupLen : Z := 64.
Definition defaultCanaryPercent : Z := 1.
Definition defaultStagedPercent : Z := 10.
Definition defaultCanaryHold : Z := hour.
Definition defaultStagedHold : Z := 6 * hour.
Definition minStagePercent : Z := 1.
Definition maxStagePercent : Z := 99.
Definition minStageHold : Z := minute.
Definition maxStageHold : Z := 30 * 24 * hour.

Record Rollout := mk_rollout {
  ro_OrganizationID : bytes;
  ro_RuleID : bytes;
  ro_Enabled : bool;
  ro_CanaryGroup : bytes;
  ro_RolloutPercent : Z;
  ro_Kill : bool;
  ro_StageEnteredAt : time;
  ro_CanaryPercent : Z;
  ro_StagedPercent : Z;
  ro_CanaryHold : Z;
  ro_StagedHold : Z;
  ro_UpdatedAt : time;
  ro_UpdatedBy : bytes;
}.

Definition uuid_Nil : bytes := replicate 16 x00.

Definition DefaultRollout (organizationID ruleID : bytes) : Rollout :=
  mk_rollout organizationID ruleID true [] 100 false zero_time defaultCanaryPercent
    defaultStagedPercent defaultCanaryHold defaultStagedHold zero_time [].

Definition paced (r : Rollout) : Rollout :=
  mk_rollout (ro_OrganizationID r) (ro_RuleID r) (ro_Enabled r) (ro_CanaryGroup r)
    (ro_RolloutPercent r) (ro_Kill r) (ro_StageEnteredAt r)
    (if bool_decide (ro_CanaryPercent r = 0) then defaultCanaryPercent else ro_CanaryPercent r)
    (if bool_decide (ro_StagedPercent r = 0) then defaultStagedPercent else ro_StagedPercent r)
    (if bool_decide (ro_CanaryHold r = 0) then defaultCanaryHold else ro_CanaryHold r)
    (if bool_decide (ro_StagedHold r = 0) then defaultStagedHold else ro_StagedHold r)
    (ro_UpdatedAt r) (ro_UpdatedBy r).

Definition Rollout_Stage (r : Rollout) : Stage :=
  if bool_decide (ro_RolloutPercent r ≤ 0) then StageOff
  else if bool_decide (ro_RolloutPercent r < ro_StagedPercent (paced r)) then StageCanary
  else if bool_decide (ro_RolloutPercent r < fullPercent) then StageStaged
  else StageFull.

Definition PercentForStage (r : Rollout) (stage : Stage) : Z :=
  match stage with
  | StageCanary => ro_CanaryPercent (paced r)
  | StageStaged => ro_StagedPercent (paced r)
  | StageFull => fullPercent
  | StageOff => 0
  end.

Definition HoldFor (r : Rollout) (stage : Stage) : Z :=
  match stage with
  | StageCanary => ro_CanaryHold (paced r)
  | StageStaged => ro_StagedHold (paced r)
  | StageOff | StageFull => 0
  end.

Definition Delivers (r : Rollout) : bool := ro_Enabled r && negb (ro_Kill r).

Inductive rollout_err :=
  | RuleIdRequired
  | OrganizationRequired
  | PercentOutOfRange
  | CanaryGroupTooLong
  | PopulationOutOfRange (what : Stage)
  | CanaryNotSmaller
  | HoldOutOfRange (what : Stage).

Definition percent_in_bounds (p : Z) : bool :=
  bool_decide (minStagePercent ≤ p) && bool_decide (p ≤ maxStagePercent).
Definition hold_in_bounds (d : Z) : bool :=
  bool_decide (minStageHold ≤ d) && bool_decide (d ≤ maxStageHold).

Definition validatePace (r : Rollout) : result rollout_err unit :=
  let p := paced r in
  if negb (percent_in_bounds (ro_CanaryPercent p)) then Err (PopulationOutOfRange StageCanary)
  else if negb (percent_in_bounds (ro_StagedPercent p)) then Err (PopulationOutOfRange StageStaged)
  else if bool_decide (ro_StagedPercent p ≤ ro_CanaryPercent p) then Err CanaryNotSmaller
  else if negb (hold_in_bounds (ro_CanaryHold p)) then Err (HoldOutOfRange StageCanary)
  else if negb (hold_in_bounds (ro_StagedHold p)) then Err (HoldOutOfRange StageStaged)
  else Ok tt.

Definition ValidateRollout (r : Rollout) : result rollout_err unit :=
  if bool_decide (ro_RuleID r = []) then Err RuleIdRequired
  else if bool_decide (ro_OrganizationID r = uuid_Nil) then Err OrganizationRequired
  else if bool_decide (ro_RolloutPercent r < 0 ∨ 100 < ro_RolloutPercent r) then Err PercentOutOfRange
  else if bool_decide (maxCanaryGroupLen < blen (ro_CanaryGroup r)) then Err CanaryGroupTooLong
  else validatePace r.

(** ** Stage membership *)

Definition zero_rollout : Rollout := mk_rollout uuid_Nil [] false [] 0 false zero_time 0 0 0 0 zero_time [].
Definition with_percent (r : Rollout) (p : Z) (entered : time) : Rollout :=
  mk_rollout (ro_OrganizationID r) (ro_RuleID r) (ro_Enabled r) (ro_CanaryGroup r) p (ro_Kill r)
    entered (ro_CanaryPercent r) (ro_StagedPercent r) (ro_CanaryHold r) (ro_StagedHold r)
    (ro_UpdatedAt r) (ro_UpdatedBy r).

Definition StageFor (percent : Z) : Stage := Rollout_Stage (with_percent zero_rollout percent zero_time).
Definition PercentFor (stage : Stage) : Z := PercentForStage zero_rollout stage.

Definition StagePopulation (percent fleetSize : Z) : Z :=
  if bool_decide (fleetSize ≤ 0 ∨ percent ≤ 0) then 0
  else if bool_decide (fullPercent ≤ percent) then fleetSize
  else
    let wanted := Z.quot (i64 (i64 (i64 (fleetSize * percent) + fullPercent) - 1)) fullPercent in
    Z.min (Z.max wanted (Z.min canaryFloorDevices fleetSize)) fleetSize.

Definition membershipLimit (percent fleetSize : Z) : Z :=
  if bool_decide (fleetSize ≤ 0)
  then Z.quot (i64 (Z.min (Z.max percent 0) fullPercent * membershipBuckets)) fullPercent
  else Z.quot (i64 (StagePopulation percent fleetSize * membershipBuckets)) fleetSize.

(** [hash/fnv]'s FNV-1a, 64 bits. *)
Definition fnv_offset : Z := 14695981039346656037.
Definition fnv_prime : Z := 1099511628211.
Definition fnv1a (h : Z) (data : bytes) : Z :=
  fold_left (λ h b, u64 (Z.lxor h (Z_of_byte b) * fnv_prime)) data h.

Definition membershipBucket (deviceID ruleID : bytes) : Z :=
  fnv1a (fnv1a (fnv1a fnv_offset deviceID) (lit "/")) ruleID `mod` membershipBuckets.

Definition InStage (deviceID ruleID : bytes) (percent fleetSize : Z) : bool :=
  let limit := membershipLimit percent fleetSize in
  if bool_decide (limit ≤ 0) then false
  else if bool_decide (membershipBuckets ≤ limit) then true
  else bool_decide (membershipBucket deviceID ruleID < limit).

Definition Reaches (r : Rollout) (deviceID : bytes) (fleetSize : Z) : bool :=
  Delivers r && InStage deviceID (ro_RuleID r) (ro_RolloutPercent r) fleetSize.

Definition NeedsFleetSize (rollouts : gmap bytes Rollout) : bool :=
  existsb (λ r, Delivers r &&
                match Rollout_Stage r with
                | StageCanary | StageStaged => true
                | StageOff | StageFull => false
                end) (map_to_list rollouts).*2.

(** ** The gate *)

Record GateReport := mk_report {
  gr_CeilingBreaches : Z;
  gr_ThrottleTrips : Z;
  gr_EvaluationErrors : Z;
}.

Definition Clean (r : GateReport) : bool :=
  bool_decide (gr_CeilingBreaches r = 0) && bool_decide (gr_ThrottleTrips r = 0) &&
  bool_decide (gr_EvaluationErrors r = 0).

Inductive StageAction := StageHold | StageAdvance | StageRevert | StageHalt.

#[global] Instance StageAction_eq_dec : EqDecision StageAction.
Proof. solve_decision. Defined.

Record StageDecision := mk_decision {
  sd_Action : StageAction;
  sd_Stage : Stage;
  sd_Percent : Z;
}.

Definition nextStage (stage : Stage) : Stage :=
  match stage with
  | StageCanary => StageStaged
  | StageStaged => StageFull
  | StageOff | StageFull => stage
  end.

Definition previousStage (stage : Stage) : Stage :=
  match stage with
  | StageFull => StageStaged
  | StageStaged => StageCanary
  | StageOff | StageCanary => stage
  end.

Definition DecideStage (r : Rollout) (report : GateReport) (now : time) : StageDecision :=
  let stage := Rollout_Stage r in
  let hold := mk_decision StageHold stage (ro_RolloutPercent r) in
  if negb (Delivers r) || bool_decide (stage = StageOff) then hold
  else if negb (Clean report) then
    let back := previousStage stage in
    if bool_decide (back = stage) then mk_decision StageHalt stage (ro_RolloutPercent r)
    else mk_decision StageRevert back (PercentForStage r back)
  else if bool_decide (ro_StageEnteredAt r = zero_time) ||
          bool_decide (time_sub now (ro_StageEnteredAt r) < HoldFor r stage) then hold
  else
    let forward := nextStage stage in
    if bool_decide (forward = stage) then hold
    else mk_decision StageAdvance forward (PercentForStage r forward).

Definition Apply (d : StageDecision) (r : Rollout) (now : time) : Rollout :=
  match sd_Action d with
  | StageHold | StageHalt => r
  | StageAdvance | StageRevert => with_percent r (sd_Percent d) now
  end.

(** One evaluation of a stored rollout, and a run of them. *)
Definition evaluate (r : Rollout) (ev : GateReport * time) : Rollout :=
  Apply (DecideStage r ev.1 ev.2) r ev.2.

Definition stage_rank (s : Stage) : Z :=
  match s with StageOff => 0 | StageCanary => 1 | StageStaged => 2 | StageFull => 3 end.

(** ** Lemmas *)

Lemma i64_small n : 0 ≤ n ≤ i64_max → i64 n = n.
Proof. unfold i64_max. intros. apply i64_id. unfold is_i64. lia. Qed.

(** Estates small enough that no product of [stage.go] wraps. *)
Definition fleet_ok (fleetSize : Z) : Prop := fleetSize ≤ 2 ^ 40.

Lemma StagePopulation_eq percent fleetSize :
  0 < percent < 100 → 0 < fleetSize → fleet_ok fleetSize →
  StagePopulation percent fleetSize =
  Z.min (Z.max ((fleetSize * percent + 99) `div` 100) (Z.min 5 fleetSize)) fleetSize.
Proof.
  unfold fleet_ok. intros Hp Hf Hok. assert (0 ≤ fleetSize * percent ≤ 2 ^ 40 * 100) by nia.
  unfold StagePopulation, fullPercent, canaryFloorDevices.
  rewrite bool_decide_false by lia. rewrite bool_decide_false by lia.
  rewrite (i64_small (fleetSize * percent)) by (unfold i64_max; lia).
  rewrite (i64_small (fleetSize * percent + 100)), i64_small by (unfold i64_max; lia).
  rewrite Z.quot_div_nonneg by lia. do 3 f_equal. lia.
Qed.

Lemma StagePopulation_range percent fleetSize :
  fleet_ok fleetSize → 0 ≤ StagePopulation percent fleetSize ≤ Z.max 0 fleetSize.
Proof.
  intros Hok. destruct (decide (fleetSize ≤ 0 ∨ percent ≤ 0)).
  { unfold StagePopulation. rewrite bool_decide_true by done. lia. }
  destruct (decide (100 ≤ percent)).
  { unfold StagePopulation. rewrite bool_decide_false by done. rewrite bool_decide_true by done. lia. }
  rewrite StagePopulation_eq by (done || lia). lia.
Qed.

Lemma StagePopulation_mono p q fleetSize :
  fleet_ok fleetSize → p ≤ q → StagePopulation p fleetSize ≤ StagePopulation q fleetSize.
Proof.
  intros Hok Hpq. pose proof (StagePopulation_range p fleetSize Hok) as Hp.
  pose proof (StagePopulation_range q fleetSize Hok) as Hq.
  destruct (decide (fleetSize ≤ 0)) as [|Hf]; [lia|].
  destruct (decide (p ≤ 0)) as [Hp0|Hp0].
  { replace (StagePopulation p fleetSize) with 0; [lia|].
    unfold StagePopulation. by rewrite bool_decide_true by lia. }
  destruct (decide (100 ≤ q)) as [Hq1|Hq1].
  { replace (StagePopulation q fleetSize) with fleetSize; [lia|].
    unfold StagePopulation, fullPercent. rewrite bool_decide_false by lia.
    by rewrite bool_decide_true by lia. }
  rewrite !StagePopulation_eq by (done || lia).
  assert ((fleetSize * p + 99) `div` 100 ≤ (fleetSize * q + 99) `div` 100)
    by (apply Z.div_le_mono; nia). lia.
Qed.

Lemma membershipLimit_eq percent fleetSize :
  fleet_ok fleetSize →
  membershipLimit percent fleetSize =
  if bool_decide (fleetSize ≤ 0) then Z.min (Z.max percent 0) 100 * 10000
  else (StagePopulation percent fleetSize * 1000000) `div` fleetSize.
Proof.
  intros Hok. pose proof (StagePopulation_range percent fleetSize Hok).
  unfold membershipLimit, membershipBuckets, fullPercent, fleet_ok in *. case_bool_decide.
  - rewrite i64_small by (unfold i64_max; lia). rewrite Z.quot_div_nonneg by lia.
    replace (Z.min (Z.max percent 0) 100 * 1000000) with (Z.min (Z.max percent 0) 100 * 10000 * 100) by lia.
    by apply Z.div_mul.
  - rewrite i64_small by (unfold i64_max; lia). by rewrite Z.quot_div_nonneg by lia.
Qed.

Lemma membershipLimit_mono p q fleetSize :
  fleet_ok fleetSize → p ≤ q → membershipLimit p fleetSize ≤ membershipLimit q fleetSize.
Proof.
  intros Hok Hpq. rewrite !membershipLimit_eq by done. case_bool_decide; [lia|].
  apply Z.div_le_mono; [lia|]. pose proof (StagePopulation_mono p q fleetSize Hok Hpq). lia.
Qed.

Lemma membershipBucket_range d r : 0 ≤ membershipBucket d r < 1000000.
Proof. apply Z.mod_pos_bound. done. Qed.

Lemma InStage_limit d r p n : InStage d r p n = bool_decide (membershipBucket d r < membershipLimit p n).
Proof.
  unfold InStage, membershipBuckets. pose proof (membershipBucket_range d r).
  case_bool_decide; [rewrite bool_decide_false by lia; done|].
  case_bool_decide; [rewrite bool_decide_true by lia; done|done].
Qed.

Lemma ValidateRollout_Ok r :
  ValidateRollout r = Ok tt ↔
  ro_RuleID r ≠ [] ∧ ro_OrganizationID r ≠ uuid_Nil ∧ 0 ≤ ro_RolloutPercent r ≤ 100 ∧
  blen (ro_CanaryGroup r) ≤ maxCanaryGroupLen ∧
  1 ≤ ro_CanaryPercent (paced r) < ro_StagedPercent (paced r) ∧ ro_StagedPercent (paced r) ≤ 99 ∧
  minStageHold ≤ ro_CanaryHold (paced r) ≤ maxStageHold ∧
  minStageHold ≤ ro_StagedHold (paced r) ≤ maxStageHold.
Proof.
  unfold ValidateRollout, validatePace, percent_in_bounds, hold_in_bounds, minStagePercent, maxStagePercent.
  generalize (paced r) as p. intros p. split.
  - intros H. repeat (case_bool_decide; cbn in H; try done). split_and!; auto; lia.
  - intros (? & ? & ? & ? & ? & ? & ? & ?).
    repeat first [rewrite bool_decide_false by (done || lia) | rewrite bool_decide_true by (done || lia)].
    done.
Qed.

(** The stage of a rollout moved to a stage's own population is that stage. *)
Lemma stage_of_percent r st now :
  ValidateRollout r = Ok tt → st ≠ StageOff →
  Rollout_Stage (with_percent r (PercentForStage r st) now) = st ∧
  1 ≤ PercentForStage r st ≤ 100.
Proof.
  intros (_ & _ & _ & _ & Hc & Hs & _)%ValidateRollout_Ok Hst.
  assert (Rollout_Stage (with_percent r (PercentForStage r st) now) =
    let p := PercentForStage r st in
    if bool_decide (p ≤ 0) then StageOff
    else if bool_decide (p < ro_StagedPercent (paced r)) then StageCanary
    else if bool_decide (p < 100) then StageStaged else StageFull) as -> by done.
  cbv zeta. unfold PercentForStage, fullPercent. destruct st; [done|..];
    repeat first [rewrite bool_decide_false by lia | rewrite bool_decide_true by lia]; split; done || lia.
Qed.

Lemma validate_percent r p now :
  ValidateRollout r = Ok tt → 0 ≤ p ≤ 100 → ValidateRollout (with_percent r p now) = Ok tt.
Proof. rewrite !ValidateRollout_Ok. cbn -[blen]. intros (? & ? & _ & ? & ? & ? & ? & ?) Hp. split_and!; auto; lia. Qed.

Lemma previous_not_off st : st ≠ StageOff → previousStage st ≠ StageOff.
Proof. by destruct st. Qed.
Lemma next_not_off st : st ≠ StageOff → nextStage st ≠ StageOff.
Proof. by destruct st. Qed.

(** The four conclusions of [DecideStage] with their guards. *)
Lemma DecideStage_cases r report now :
  let st := Rollout_Stage r in
  let d := DecideStage r report now in
  (d = mk_decision StageHold st (ro_RolloutPercent r)) ∨
  (Delivers r = true ∧ st ≠ StageOff ∧ Clean report = false ∧ previousStage st = st ∧
   d = mk_decision StageHalt st (ro_RolloutPercent r)) ∨
  (Delivers r = true ∧ st ≠ StageOff ∧ Clean report = false ∧ previousStage st ≠ st ∧
   d = mk_decision StageRevert (previousStage st) (PercentForStage r (previousStage st))) ∨
  (Delivers r = true ∧ st ≠ StageOff ∧ Clean report = true ∧ nextStage st ≠ st ∧
   ro_StageEnteredAt r ≠ zero_time ∧ HoldFor r st ≤ time_sub now (ro_StageEnteredAt r) ∧
   d = mk_decision StageAdvance (nextStage st) (PercentForStage r (nextStage st))).
Proof.
  cbv zeta. unfold DecideStage. destruct (Delivers r); cbn [negb orb]; [|by left].
  case_bool_decide; [by left|]. destruct (Clean report); cbn [negb].
  - case_bool_decide; cbn [orb]; [by left|]. case_bool_decide; [by left|].
    case_bool_decide; [by left|]. right; right; right. split_and!; auto; lia.
  - case_bool_decide; [right; left|right; right; left]; auto.
Qed.

Lemma evaluate_cases r report now :
  ValidateRollout r = Ok tt →
  let r' := evaluate r (report, now) in
  ValidateRollout r' = Ok tt ∧ Rollout_Stage r' = sd_Stage (DecideStage r report now) ∧
  ro_RolloutPercent r' = sd_Percent (DecideStage r report now).
Proof.
  intros Hv. cbv zeta. unfold evaluate, Apply. cbn [fst snd].
  destruct (DecideStage_cases r report now) as [->|[(_ & _ & _ & _ & ->)|[(_ & Ho & _ & _ & ->)|
    (_ & Ho & _ & _ & _ & _ & ->)]]]; cbn [sd_Action sd_Stage sd_Percent]; auto.
  - destruct (stage_of_percent r (previousStage (Rollout_Stage r)) now Hv) as [? ?];
      [by apply previous_not_off|]. split_and!; auto. apply validate_percent; [done|lia].
  - destruct (stage_of_percent r (nextStage (Rollout_Stage r)) now Hv) as [? ?];
      [by apply next_not_off|]. split_and!; auto. apply validate_percent; [done|lia].
Qed.

(** A clean evaluation after the longest hold moves one stage on. *)
Lemma evaluate_advances r report (now : time) :
  ValidateRollout r = Ok tt → Delivers r = true → Rollout_Stage r ≠ StageOff →
  Clean report = true → ro_StageEnteredAt r ≠ zero_time →
  ro_StageEnteredAt r + maxStageHold ≤ now →
  let r' := evaluate r (report, now) in
  Rollout_Stage r' = nextStage (Rollout_Stage r) ∧ Delivers r' = true ∧
  (ro_StageEnteredAt r' = now ∨ ro_StageEnteredAt r' = ro_StageEnteredAt r).
Proof.
  intros Hv Hd Ho Hc He Hnow. cbv zeta.
  destruct (evaluate_cases r report now Hv) as (_ & -> & _).
  assert (HoldFor r (Rollout_Stage r) ≤ time_sub now (ro_StageEnteredAt r)) as Hh.
  { apply ValidateRollout_Ok in Hv as (_ & _ & _ & _ & _ & _ & Hch & Hsh).
    unfold HoldFor, time_sub, maxStageHold, i64_max, hour, minute, second in *.
    destruct (Rollout_Stage r); lia. }
  unfold evaluate, DecideStage. cbn [fst snd]. rewrite Hd, Hc. cbn [negb orb].
  rewrite !bool_decide_false by (done || lia). cbn [orb].
  case_bool_decide as Hn; cbn [sd_Stage]; [rewrite Hn|]; split_and!; auto.
Qed.

(** Clean evaluations, each at least the longest hold after the one before. *)
Fixpoint clean_run (since : time) (evs : list (GateReport * time)) : Prop :=
  match evs with
  | [] => True
  | (report, now) :: evs =>
      Clean report = true ∧ since + maxStageHold ≤ now ∧ 0 < now ∧ clean_run now evs
  end.

Lemma clean_run_weaken since since' evs : since' ≤ since → clean_run since evs → clean_run since' evs.
Proof. destruct evs as [|[rep now] evs]; cbn; [done|]. intros ? (? & ? & ? & ?). split_and!; auto. lia. Qed.

Lemma clean_run_rank evs r :
  ValidateRollout r = Ok tt → Delivers r = true → Rollout_Stage r ≠ StageOff →
  ro_StageEnteredAt r ≠ zero_time → clean_run (ro_StageEnteredAt r) evs →
  Z.min 3 (stage_rank (Rollout_Stage r) + Z.of_nat (length evs)) ≤
  stage_rank (Rollout_Stage (fold_left evaluate evs r)).
Proof.
  revert r. induction evs as [|[rep now] evs IH]; intros r Hv Hd Ho He; cbn; [lia|].
  intros (Hc & Hnow & Hpos & Hrun).
  destruct (evaluate_advances r rep now Hv Hd Ho Hc He Hnow) as (Hst & Hd' & He').
  destruct (evaluate_cases r rep now Hv) as (Hv' & _).
  etransitivity; [|apply (IH (evaluate r (rep, now)))]; auto.
  - rewrite Hst. destruct (Rollout_Stage r); [done|cbn -[Z.of_nat Z.min]; lia..].
  - rewrite Hst. by apply next_not_off.
  - destruct He' as [->| ->]; [|done]. unfold zero_time. lia.
  - destruct He' as [->| ->]; [done|]. eapply clean_run_weaken; [|done].
    unfold maxStageHold, hour, minute, second in *. lia.
Qed.

(** ** Claims *)

(** A rollout never loses a machine by growing: a machine in the stage at
    one reach is in it at every larger one; at full reach every machine is in,
    at none no machine is. *)
Theorem InStage_monotone deviceID ruleID p q fleetSize :
  fleet_ok fleetSize → p ≤ q →
  (InStage deviceID ruleID p fleetSize = true → InStage deviceID ruleID q fleetSize = true) ∧
  (100 ≤ q → InStage deviceID ruleID q fleetSize = true) ∧
  (p ≤ 0 → InStage deviceID ruleID p fleetSize = false).
Proof.
  intros Hok Hpq. rewrite !InStage_limit, !bool_decide_eq_true, bool_decide_eq_false.
  pose proof (membershipLimit_mono p q fleetSize Hok Hpq).
  pose proof (membershipBucket_range deviceID ruleID) as Hb. split_and!; [lia| |].
  - intros Hq. rewrite membershipLimit_eq by done. case_bool_decide; [lia|].
    replace (StagePopulation q fleetSize) with fleetSize; [rewrite Z.mul_comm, Z.div_mul; lia|].
    unfold StagePopulation, fullPercent. rewrite bool_decide_false by lia. by rewrite bool_decide_true by lia.
  - intros Hp. rewrite membershipLimit_eq by done. case_bool_decide; [lia|].
    replace (StagePopulation p fleetSize) with 0; [rewrite Z.div_0_l; lia|].
    unfold StagePopulation. by rewrite bool_decide_true by lia.
Qed.

Lemma InStage_monotone_witness :
  InStage (replicate 16 x01) (lit "cpu") 100 12 = true.
Proof. apply (InStage_monotone (replicate 16 x01) (lit "cpu") 1 100 12); vm_compute; congruence. Defined.

(** A partial stage's population: the declared share rounded up, at least
    five machines or the whole estate, never more than the estate, and never
    fewer than a smaller share's. *)
Theorem StagePopulation_bounds p q fleetSize :
  fleet_ok fleetSize → 0 < fleetSize → 0 < p ≤ q → q < 100 →
  let n := StagePopulation p fleetSize in
  fleetSize * p ≤ 100 * n ∧ Z.min canaryFloorDevices fleetSize ≤ n ≤ fleetSize ∧
  (canaryFloorDevices < n → 100 * (n - 1) < fleetSize * p) ∧
  n ≤ StagePopulation q fleetSize.
Proof.
  intros Hok Hf Hp Hq. cbv zeta. pose proof (StagePopulation_mono p q fleetSize Hok ltac:(lia)).
  rewrite StagePopulation_eq in * by (done || lia). unfold canaryFloorDevices.
  assert (fleetSize * p ≤ fleetSize * 100) by nia.
  Z.to_euclidean_division_equations. lia.
Qed.

Lemma StagePopulation_bounds_witness : StagePopulation 10 250 = 25 ∧ 250 * 10 ≤ 100 * StagePopulation 10 250.
Proof.
  split; [reflexivity|]. apply (StagePopulation_bounds 10 10 250); [unfold fleet_ok; lia|lia|lia|lia].
Defined.

(** The reach of the stage before is no larger than the reach now, and of the stage
    after no smaller. *)
Lemma stages_ordered r :
  ValidateRollout r = Ok tt → Rollout_Stage r ≠ StageOff →
  (previousStage (Rollout_Stage r) ≠ Rollout_Stage r → PercentForStage r (previousStage (Rollout_Stage r)) ≤ ro_RolloutPercent r) ∧
  (nextStage (Rollout_Stage r) ≠ Rollout_Stage r → ro_RolloutPercent r ≤ PercentForStage r (nextStage (Rollout_Stage r))).
Proof.
  intros (_ & _ & Hp & _ & Hc & Hs & _)%ValidateRollout_Ok. unfold Rollout_Stage, fullPercent.
  repeat case_bool_decide; cbn [previousStage nextStage PercentForStage]; unfold fullPercent; intros Ho; split; intros; try done; lia.
Qed.

(** C13: one evaluation moves a valid rollout at most one stage, never off, and
    the stored reach reads back as the stage decided; the result is valid again.
    A killed, disabled or off rollout does not move, a tripped gate never raises
    the percentage of machines reached and a clean one never lowers it, and only a
    clean gate whose hold has elapsed advances it. *)
Theorem DecideStage_safe r report now :
  ValidateRollout r = Ok tt →
  let d := DecideStage r report now in
  let r' := evaluate r (report, now) in
  ValidateRollout r' = Ok tt ∧ Rollout_Stage r' = sd_Stage d ∧
  (Delivers r = false ∨ Rollout_Stage r = StageOff → r' = r) ∧
  (Rollout_Stage r ≠ StageOff → Rollout_Stage r' ≠ StageOff) ∧
  Z.abs (stage_rank (Rollout_Stage r') - stage_rank (Rollout_Stage r)) ≤ 1 ∧
  (Clean report = false → stage_rank (Rollout_Stage r') ≤ stage_rank (Rollout_Stage r) ∧
     ro_RolloutPercent r' ≤ ro_RolloutPercent r) ∧
  (Clean report = true → ro_RolloutPercent r ≤ ro_RolloutPercent r') ∧
  (sd_Action d = StageAdvance → Delivers r = true ∧ Clean report = true ∧
     HoldFor r (Rollout_Stage r) ≤ time_sub now (ro_StageEnteredAt r)).
Proof.
  intros Hv. cbv zeta. destruct (evaluate_cases r report now Hv) as (Hv' & Hst & Hpc).
  split; [done|]. split; [done|]. rewrite Hst, Hpc. unfold evaluate, Apply. cbn [fst snd]. pose proof (stages_ordered r Hv) as Hord.
  destruct (DecideStage_cases r report now) as [E|[(Hd & Ho & Hc & Hp & E)|[(Hd & Ho & Hc & Hp & E)|
    (Hd & Ho & Hc & Hn & He & Hh & E)]]]; rewrite E; cbn [sd_Action sd_Stage sd_Percent];
    split_and!; try done; try lia; try (intros [?|?]; congruence);
    try (by intros _); try (destruct (Rollout_Stage r); cbn; (done || lia)); try congruence.
  - intros _. split; [by destruct (Rollout_Stage r)|]. by apply Hord.
  - intros _. by apply Hord.
Qed.

Lemma DecideStage_safe_witness :
  Rollout_Stage (evaluate (DefaultRollout (replicate 16 x01) (lit "cpu")) (mk_report 1 0 0, 0)) = StageStaged.
Proof.
  rewrite (proj1 (proj2 (DecideStage_safe (DefaultRollout (replicate 16 x01) (lit "cpu"))
    (mk_report 1 0 0) 0 ltac:(vm_compute; reflexivity)))). reflexivity.
Defined.

(** A rollout with a quiet gate completes: from any delivering stage, two
    clean evaluations each past the longest hold, or more, leave it at the whole
    estate. *)
Theorem clean_rollout_completes r evs :
  ValidateRollout r = Ok tt → Delivers r = true → Rollout_Stage r ≠ StageOff →
  ro_StageEnteredAt r ≠ zero_time → clean_run (ro_StageEnteredAt r) evs → (2 ≤ length evs)%nat →
  Rollout_Stage (fold_left evaluate evs r) = StageFull.
Proof.
  intros Hv Hd Ho He Hrun Hlen. pose proof (clean_run_rank evs r Hv Hd Ho He Hrun) as H.
  assert (1 ≤ stage_rank (Rollout_Stage r)) by (destruct (Rollout_Stage r); cbn; done || lia).
  destruct (Rollout_Stage (fold_left evaluate evs r)); cbn in H; done || lia.
Qed.

Lemma clean_rollout_completes_witness :
  let r := with_percent (DefaultRollout (replicate 16 x01) (lit "cpu")) 1 1 in
  let quiet := mk_report 0 0 0 in
  Rollout_Stage (fold_left evaluate [(quiet, 1 + maxStageHold); (quiet, 1 + 2 * maxStageHold)] r) = StageFull.
Proof.
  apply (clean_rollout_completes (with_percent (DefaultRollout (replicate 16 x01) (lit "cpu")) 1 1)
    [(mk_report 0 0 0, 1 + maxStageHold); (mk_report 0 0 0, 1 + 2 * maxStageHold)]);
    [reflexivity | reflexivity | discriminate | discriminate | | cbn; lia].
  cbn -[maxStageHold]. unfold maxStageHold, hour, minute, second. split_and!; (reflexivity || lia).
Defined.
