(* ===== verification/Sorting.v ===== *)
(** * Go's [sort] and string order

    [sort.SliceStable] and [sort.Strings] as a stable insertion sort by a
    [less] function: for a strict weak order a stable sort has one result, and
    an insertion sort computes it.  The order of strings is bytewise. *)
From S2P Require Import Prelude.

Section stable_sort.
Context {A : Type} (less : A → A → bool).

Fixpoint insert_by (x : A) (l : list A) : list A :=
  match l with
  | [] => [x]
  | y :: l' => if less y x then y :: insert_by x l' else x :: l
  end.

Definition stable_sort (l : list A) : list A := foldr insert_by [] l.

(** Not after: the order [stable_sort] leaves its result in. *)
Definition not_after (a b : A) : Prop := less b a = false.

Lemma insert_by_Permutation x l : insert_by x l ≡ₚ x :: l.
Proof.
  induction l as [|y l IH]; cbn; [done|]. destruct (less y x); [|done].
  rewrite IH. apply perm_swap.
Qed.

Lemma stable_sort_Permutation l : stable_sort l ≡ₚ l.
Proof. induction l as [|x l IH]; cbn; [done|]. by rewrite insert_by_Permutation, IH. Qed.

Lemma stable_sort_elem x l : x ∈ stable_sort l ↔ x ∈ l.
Proof. by rewrite stable_sort_Permutation. Qed.

(** What a [less] function must be for the sort to mean anything. *)
Class StrictWeak : Prop := {
  sw_asym : ∀ a b, less a b = true → less b a = false;
  sw_trans : ∀ a b c, not_after a b → not_after b c → not_after a c;
}.
Context `{!StrictWeak}.

Lemma insert_by_sorted x l :
  StronglySorted not_after l → StronglySorted not_after (insert_by x l).
Proof.
  induction l as [|y l IH]; cbn; intros Hl; [by repeat constructor|].
  apply StronglySorted_cons in Hl as [Hy Hl]. destruct (less y x) eqn:E.
  - apply StronglySorted_cons. split; [|auto]. rewrite insert_by_Permutation.
    apply Forall_cons. split; [by apply sw_asym|done].
  - apply StronglySorted_cons. split; [|by apply StronglySorted_cons].
    apply Forall_cons. split; [done|]. eapply Forall_impl; [exact Hy|].
    intros z Hz. by eapply sw_trans.
Qed.

Lemma stable_sort_sorted l : StronglySorted not_after (stable_sort l).
Proof. induction l as [|x l IH]; cbn; [constructor|]. by apply insert_by_sorted. Qed.

(** Where no two elements tie, the input's order does not matter. *)
Lemma stable_sort_unique l k :
  (∀ a b, a ∈ l → b ∈ l → not_after a b → not_after b a → a = b) →
  l ≡ₚ k → stable_sort l = stable_sort k.
Proof.
  intros Htie Hp. apply (StronglySorted_unique_strong not_after);
    [|apply stable_sort_sorted..|by rewrite !stable_sort_Permutation].
  intros a b Ha Hb. rewrite stable_sort_elem in Ha, Hb. apply Htie; [done|]. by rewrite Hp.
Qed.
End stable_sort.

(** Go's [<] on strings. *)
Fixpoint string_lt (a b : bytes) : bool :=
  match a, b with
  | [], _ :: _ => true
  | _, [] => false
  | x :: a, y :: b =>
      if Z_of_byte x <? Z_of_byte y then true
      else if Z_of_byte y <? Z_of_byte x then false
      else string_lt a b
  end.

Lemma string_lt_irrefl a : string_lt a a = false.
Proof. induction a as [|x a IH]; cbn; [done|]. by rewrite Z.ltb_irrefl. Qed.

Lemma string_lt_asym a b : string_lt a b = true → string_lt b a = false.
Proof.
  revert b. induction a as [|x a IH]; intros [|y b]; cbn; try done.
  destruct (Z.ltb_spec (Z_of_byte x) (Z_of_byte y)), (Z.ltb_spec (Z_of_byte y) (Z_of_byte x));
    try done; try lia. apply IH.
Qed.

Lemma string_lt_total a b : string_lt a b = false → string_lt b a = false → a = b.
Proof.
  revert b. induction a as [|x a IH]; intros [|y b]; cbn; try done.
  destruct (Z.ltb_spec (Z_of_byte x) (Z_of_byte y)), (Z.ltb_spec (Z_of_byte y) (Z_of_byte x));
    try done. intros ? ?. f_equal; [apply Z_of_byte_inj; lia | by apply IH].
Qed.

Lemma string_lt_trans a b c : string_lt a b = true → string_lt b c = true → string_lt a c = true.
Proof.
  revert b c. induction a as [|x a IH]; intros [|y b] [|z c]; cbn; try done.
  destruct (Z.ltb_spec (Z_of_byte x) (Z_of_byte y)), (Z.ltb_spec (Z_of_byte y) (Z_of_byte x)); try done;
  destruct (Z.ltb_spec (Z_of_byte y) (Z_of_byte z)), (Z.ltb_spec (Z_of_byte z) (Z_of_byte y)); try done;
  destruct (Z.ltb_spec (Z_of_byte x) (Z_of_byte z)), (Z.ltb_spec (Z_of_byte z) (Z_of_byte x));
    try done; try lia; apply IH.
Qed.

(** A total order read as [less] is a strict weak one. *)
Lemma string_lt_cases a b : {string_lt a b = true} + {a = b} + {string_lt b a = true}.
Proof.
  destruct (string_lt a b) eqn:E1; [by left; left|]. destruct (string_lt b a) eqn:E2; [by right|].
  left; right. by apply string_lt_total.
Qed.

#[global] Instance string_lt_weak : StrictWeak string_lt.
Proof.
  constructor; [apply string_lt_asym|]. unfold not_after. intros a b c Hab Hbc.
  destruct (string_lt c a) eqn:E; [|done].
  destruct (string_lt_cases b a) as [[H| ->]|H]; [congruence|congruence|].
  pose proof (string_lt_trans c a b E H). congruence.
Qed.

(** [sort.Strings]. *)
Definition sort_Strings : list bytes → list bytes := stable_sort string_lt.

Lemma sort_Strings_unique l k : l ≡ₚ k → sort_Strings l = sort_Strings k.
Proof.
  apply stable_sort_unique; [apply _|]. intros a b _ _ Hab Hba. by apply string_lt_total.
Qed.
