(* ===== verification/Settings.v ===== *)
(** * Settings along the tenancy ladder

    [src/server/internal/settings/settings.go]: a value set on a machine, its
    site, its customer or its tenant, and the shipped default below them. *)
From S2P Require Import Prelude Codec.

Definition uuid : Type := bytes.
Definition Nil : uuid := replicate 16 x00.

(** [uuid.UUID.String] *)
Definition uuid_String (id : uuid) : bytes :=
  let h := hex_encode id in
  take 8 h ++ lit "-" ++ take 4 (drop 8 h) ++ lit "-" ++ take 4 (drop 12 h) ++ lit "-" ++
  take 4 (drop 16 h) ++ lit "-" ++ drop 20 h.

Inductive Level := LevelDevice | LevelSite | LevelOrganization | LevelTenant | LevelShipped.

#[global] Instance Level_eq_dec : EqDecision Level.
Proof. solve_decision. Defined.

(** The constant's value: narrowest first. *)
Definition level_index (l : Level) : Z :=
  match l with
  | LevelDevice => 0 | LevelSite => 1 | LevelOrganization => 2 | LevelTenant => 3
  | LevelShipped => 4
  end.

Definition Level_String (l : Level) : bytes :=
  match l with
  | LevelDevice => lit "device"
  | LevelSite => lit "site"
  | LevelOrganization => lit "organization"
  | LevelTenant => lit "tenant"
  | LevelShipped => lit "shipped"
  end.

Definition storableLevels : list Level :=
  [LevelDevice; LevelSite; LevelOrganization; LevelTenant].

Record Scope := mk_scope {
  sc_DeviceID : uuid;
  sc_SiteID : uuid;
  sc_OrganizationID : uuid;
  sc_TenantID : uuid;
}.

Definition level_id (s : Scope) (level : Level) : uuid :=
  match level with
  | LevelDevice => sc_DeviceID s
  | LevelSite => sc_SiteID s
  | LevelOrganization => sc_OrganizationID s
  | LevelTenant => sc_TenantID s
  | LevelShipped => Nil
  end.

Definition Key (s : Scope) (level : Level) : uuid * bool :=
  let id := level_id s level in (id, bool_decide (id ≠ Nil)).

#[global] Arguments Key s level : simpl never.

Record Override (T : Type) := mk_override {
  ov_Level : Level;
  ov_ScopeID : uuid;
  ov_Value : T;
}.
Arguments mk_override {T}.
Arguments ov_Level {T}.
Arguments ov_ScopeID {T}.
Arguments ov_Value {T}.

Inductive Direction := NarrowestWins | BroadestWins.

(** The reversed copy, index by index as the code fills it. *)
Definition ladder (direction : Direction) : list Level :=
  match direction with
  | BroadestWins => reverse storableLevels
  | NarrowestWins => storableLevels
  end.

Section resolve.
Context {T : Type}.
Implicit Types (os : list (Override T)) (o : Override T).

Definition on_rung (level : Level) (key : uuid) (o : Override T) : bool :=
  bool_decide (ov_Level o = level) && bool_decide (ov_ScopeID o = key).

(** The loops of [Resolve]: the rungs in order, the overrides in order. *)
Fixpoint resolve_on (scope : Scope) (rungs : list Level) os (shipped : T) : T * Level :=
  match rungs with
  | [] => (shipped, LevelShipped)
  | level :: rungs =>
      let '(key, present) := Key scope level in
      if present then
        match List.find (on_rung level key) os with
        | Some o => (ov_Value o, level)
        | None => resolve_on scope rungs os shipped
        end
      else resolve_on scope rungs os shipped
  end.

Definition Resolve (scope : Scope) os (shipped : T) (direction : Direction) : T * Level :=
  resolve_on scope (ladder direction) os shipped.

(** [o] is filed on this scope's own rung. *)
Definition own (scope : Scope) (o : Override T) : bool :=
  let '(key, present) := Key scope (ov_Level o) in present && bool_decide (ov_ScopeID o = key).

Definition reads_before (direction : Direction) (a b : Level) : Prop :=
  match direction with
  | NarrowestWins => level_index a < level_index b
  | BroadestWins => level_index b < level_index a
  end.

(** ** Lemmas *)

Lemma own_rung scope o : own scope o = true →
  (Key scope (ov_Level o)).2 = true ∧ on_rung (ov_Level o) (Key scope (ov_Level o)).1 o = true.
Proof.
  unfold own, on_rung. destruct (Key scope (ov_Level o)) as [key present]; cbn.
  intros [-> ->]%andb_prop. by rewrite bool_decide_true.
Qed.

Lemma on_rung_own scope level o :
  (Key scope level).2 = true → on_rung level (Key scope level).1 o = true →
  own scope o = true ∧ ov_Level o = level.
Proof.
  unfold own, on_rung. intros Hp [Hl Hk]%andb_prop. apply bool_decide_eq_true in Hl, Hk.
  subst level. destruct (Key scope (ov_Level o)); cbn in *. subst. by rewrite bool_decide_true.
Qed.

Lemma resolve_on_spec scope rungs os shipped v level :
  resolve_on scope rungs os shipped = (v, level) →
  (∃ o before after rungs1 rungs2,
     os = before ++ o :: after ∧ rungs = rungs1 ++ level :: rungs2 ∧
     own scope o = true ∧ ov_Level o = level ∧ ov_Value o = v ∧
     (∀ o', o' ∈ before → own scope o' = true → ov_Level o' ≠ level) ∧
     ∀ o', o' ∈ os → own scope o' = true → ov_Level o' ∉ rungs1) ∨
  (v = shipped ∧ level = LevelShipped ∧
   ∀ o, o ∈ os → own scope o = true → ov_Level o ∉ rungs).
Proof.
  induction rungs as [|rung rungs IH]; cbn [resolve_on].
  { intros [= <- <-]. right. split_and!; auto. intros. by apply not_elem_of_nil. }
  intros H. destruct (Key scope rung) as [key present] eqn:Ek.
  assert ((∃ o, List.find (on_rung rung key) os = Some o ∧ present = true ∧
             (v, level) = (ov_Value o, rung)) ∨
          ((∀ o, o ∈ os → own scope o = true → ov_Level o ≠ rung) ∧
           resolve_on scope rungs os shipped = (v, level))) as [(o & Ho & -> & E)|[Hnone Hrest]].
  { destruct present.
    - destruct (List.find (on_rung rung key) os) as [o|] eqn:E; [left; exists o; by rewrite H|]. right. split; [|done].
      intros o Ho Hown <-. destruct (own_rung scope o Hown) as [_ Hr]. rewrite Ek in Hr.
      cbn in Hr. rewrite (proj1 (find_None _ _) E o Ho) in Hr. done.
    - right. split; [|done]. intros o Ho Hown <-. destruct (own_rung scope o Hown) as [Hp _].
      by rewrite Ek in Hp. }
  - injection E as -> ->. left.
    destruct (find_split _ _ _ Ho) as (before & after & -> & Hr & Hb).
    destruct (on_rung_own scope rung o) as [Hown Hl]; [by rewrite Ek..|].
    exists o, before, after, [], rungs. split_and!; auto.
    + intros o' Ho' Hown' Hl'. destruct (own_rung scope o' Hown') as [_ Hr'].
      rewrite Hl', Ek in Hr'. cbn in Hr'. specialize (Hb o' Ho'). congruence.
    + intros. by apply not_elem_of_nil.
  - destruct (IH Hrest) as [(o & b & a & r1 & r2 & -> & -> & ? & ? & ? & ? & Hn)|(-> & -> & Hn)].
    + left. exists o, b, a, (rung :: r1), r2. split_and!; auto.
      intros o' Ho' Hown'. rewrite not_elem_of_cons. split; [by apply Hnone | by apply Hn].
    + right. split_and!; auto. intros o Ho Hown. rewrite not_elem_of_cons.
      split; [by apply Hnone | by apply Hn].
Qed.
End resolve.

(** [rungs1] comes before [level] on the ladder. *)
Lemma ladder_before direction rungs1 level rungs2 l :
  ladder direction = rungs1 ++ level :: rungs2 →
  (l ∈ rungs1 ↔ l ≠ LevelShipped ∧ reads_before direction l level).
Proof.
  intros H. destruct direction; unfold ladder, storableLevels in H; cbn in H;
    destruct rungs1 as [|a [|b [|c [|d [|? ?]]]]]; cbn in H; simplify_eq;
    rewrite ?elem_of_cons, ?elem_of_nil; destruct l; cbn; split; intros; destruct_or?; destruct_and?;
    try done; try lia; split_and?; try done; try lia; auto.
Qed.

Lemma ladder_all direction l : l ∈ ladder direction ↔ l ≠ LevelShipped.
Proof.
  destruct direction; unfold ladder, storableLevels; cbn; rewrite !elem_of_cons, elem_of_nil;
    destruct l; intuition done.
Qed.

Lemma own_storable {T} scope (o : Override T) : own scope o = true → ov_Level o ≠ LevelShipped.
Proof. unfold own, Key. intros H Hl. rewrite Hl in H. cbn in H. by rewrite bool_decide_false in H. Qed.

Lemma Resolve_spec {T} scope (os : list (Override T)) shipped direction v level :
  Resolve scope os shipped direction = (v, level) →
  (∃ o before after,
     os = before ++ o :: after ∧ own scope o = true ∧ ov_Level o = level ∧ ov_Value o = v ∧
     (∀ o', o' ∈ before → own scope o' = true → ov_Level o' ≠ level) ∧
     ∀ o', o' ∈ os → own scope o' = true → ¬ reads_before direction (ov_Level o') level) ∨
  (v = shipped ∧ level = LevelShipped ∧ ∀ o, o ∈ os → own scope o = false).
Proof.
  intros [(o & b & a & r1 & r2 & E & El & Hown & Hl & Hv & Hb & Hn)|(-> & -> & Hn)]%resolve_on_spec.
  - left. exists o, b, a. split_and!; auto. intros o' Ho' Hown' Hbefore.
    apply (Hn o' Ho' Hown'), (ladder_before direction r1 level r2 _ El).
    split; [by eapply own_storable|done].
  - right. split_and!; auto. intros o Ho. destruct (own scope o) eqn:E; [|done].
    exfalso. apply (Hn o Ho E), ladder_all. by eapply own_storable.
Qed.

(** ** Claims *)

(** [Resolve] reads the ladder.  It returns the first override filed for
    this scope on the first rung, in the direction asked for, that carries one,
    and the shipped value only when none of the scope's rungs does; overrides
    filed for anything else change nothing. *)
Theorem Resolve_reads_ladder {T} scope (os : list (Override T)) shipped direction v level :
  Resolve scope os shipped direction = (v, level) →
  (∃ o before after,
     os = before ++ o :: after ∧ own scope o = true ∧ ov_Level o = level ∧ ov_Value o = v ∧
     (∀ o', o' ∈ before → own scope o' = true → ov_Level o' ≠ level) ∧
     ∀ o', o' ∈ os → own scope o' = true → ¬ reads_before direction (ov_Level o') level) ∨
  (v = shipped ∧ level = LevelShipped ∧ ∀ o, o ∈ os → own scope o = false).
Proof. apply Resolve_spec. Qed.

Lemma Resolve_reads_ladder_witness :
  let scope := mk_scope (replicate 16 x01) Nil (replicate 16 x02) (replicate 16 x03) in
  let os := [mk_override LevelTenant (replicate 16 x03) 30; mk_override LevelDevice (replicate 16 x01) 10] in
  ¬ reads_before NarrowestWins LevelTenant LevelDevice.
Proof.
  intros scope os.
  destruct (Resolve_reads_ladder scope os 0 NarrowestWins 10 LevelDevice) as
    [(o & b & a & E & _ & _ & _ & _ & Hn)|(E & _)]; [reflexivity| |discriminate].
  apply (Hn (mk_override LevelTenant (replicate 16 x03) 30)); [by left|reflexivity].
Defined.
