(* ===== verification/GoStrings.v ===== *)
(** * Go's strings

    [utf8.RuneCountInString] and the conversions between a string and its runes
    (an invalid byte is the replacement rune, one byte wide),
    [strings.TrimSpace] and [strings.ContainsAny]. *)
From S2P Require Import Prelude.

Definition RuneError : Z := 65533.

Definition cont (lo hi b : Z) : bool := bool_decide (lo ≤ b ∧ b ≤ hi).

(** The first rune of a string that is not empty, and its width. *)
Definition DecodeRune (s : bytes) : Z * nat :=
  match Z_of_byte <$> take 4 s with
  | [] => (RuneError, 1%nat)
  | b0 :: rest =>
      if bool_decide (b0 < 128) then (b0, 1%nat)
      else if bool_decide (194 ≤ b0 ∧ b0 ≤ 223) then
        match rest with
        | b1 :: _ => if cont 128 191 b1 then ((b0 - 192) * 64 + (b1 - 128), 2%nat) else (RuneError, 1%nat)
        | _ => (RuneError, 1%nat)
        end
      else if bool_decide (224 ≤ b0 ∧ b0 ≤ 239) then
        match rest with
        | b1 :: b2 :: _ =>
            if cont (if bool_decide (b0 = 224) then 160 else 128) (if bool_decide (b0 = 237) then 159 else 191) b1 &&
               cont 128 191 b2
            then ((b0 - 224) * 4096 + (b1 - 128) * 64 + (b2 - 128), 3%nat) else (RuneError, 1%nat)
        | _ => (RuneError, 1%nat)
        end
      else if bool_decide (240 ≤ b0 ∧ b0 ≤ 244) then
        match rest with
        | b1 :: b2 :: b3 :: _ =>
            if cont (if bool_decide (b0 = 240) then 144 else 128) (if bool_decide (b0 = 244) then 143 else 191) b1 &&
               cont 128 191 b2 && cont 128 191 b3
            then ((b0 - 240) * 262144 + (b1 - 128) * 4096 + (b2 - 128) * 64 + (b3 - 128), 4%nat)
            else (RuneError, 1%nat)
        | _ => (RuneError, 1%nat)
        end
      else (RuneError, 1%nat)
  end.

(** [[]rune(s)], one turn per rune. *)
Fixpoint runes_fuel (fuel : nat) (s : bytes) : list Z :=
  match fuel, s with
  | O, _ | _, [] => []
  | S fuel, _ => let '(r, n) := DecodeRune s in r :: runes_fuel fuel (drop n s)
  end.

Definition runes (s : bytes) : list Z := runes_fuel (length s) s.

Definition RuneCount (s : bytes) : Z := blen (runes s).

(** [string(r)] of a rune; one out of range is the replacement rune. *)
Definition EncodeRune (r : Z) : bytes :=
  let r := if bool_decide (r < 0 ∨ 1114111 < r ∨ (55296 ≤ r ∧ r ≤ 57343)) then RuneError else r in
  byte_of_Z <$>
    (if bool_decide (r < 128) then [r]
     else if bool_decide (r < 2048) then [192 + r `div` 64; 128 + r mod 64]
     else if bool_decide (r < 65536) then [224 + r `div` 4096; 128 + (r `div` 64) mod 64; 128 + r mod 64]
     else [240 + r `div` 262144; 128 + (r `div` 4096) mod 64; 128 + (r `div` 64) mod 64; 128 + r mod 64]).

Definition string_of_runes (l : list Z) : bytes := l ≫= EncodeRune.

(** A rune takes at least a byte, so the fuel is enough. *)
Lemma DecodeRune_width s : (1 ≤ (DecodeRune s).2)%nat.
Proof. unfold DecodeRune. repeat case_match; cbn; lia. Qed.

Lemma runes_fuel_enough fuel fuel' s :
  (length s ≤ fuel)%nat → (length s ≤ fuel')%nat → runes_fuel fuel s = runes_fuel fuel' s.
Proof.
  revert fuel' s. induction fuel as [|fuel IH]; intros [|fuel'] s Hf Hf'.
  - done.
  - by destruct s; [|cbn in Hf; lia].
  - by destruct s; [|cbn in Hf'; lia].
  - destruct s as [|b s]; [done|]. cbn [runes_fuel]. pose proof (DecodeRune_width (b :: s)) as Hw.
    destruct (DecodeRune (b :: s)) as [r n]. cbn in Hw. f_equal. apply IH; rewrite length_drop; cbn in *; lia.
Qed.

Lemma runes_cons s :
  s ≠ [] → runes s = (DecodeRune s).1 :: runes (drop (DecodeRune s).2 s).
Proof.
  intros Hs. unfold runes. destruct s as [|b s]; [done|]. cbn [runes_fuel length].
  pose proof (DecodeRune_width (b :: s)) as Hw. destruct (DecodeRune (b :: s)) as [r n]. cbn [fst snd] in *. f_equal.
  apply runes_fuel_enough; rewrite ?length_drop; cbn; lia.
Qed.

(** ** [strings.TrimSpace]

    The UTF-8 encodings of the runes of Unicode's White_Space property. *)
Definition white_space : list bytes :=
  [[x09]; [x0a]; [x0b]; [x0c]; [x0d]; [x20]; [xc2; x85]; [xc2; xa0]; [xe1; x9a; x80];
   [xe2; x80; xa8]; [xe2; x80; xa9]; [xe2; x80; xaf]; [xe2; x81; x9f]; [xe3; x80; x80]] ++
  ((λ b, [xe2; x80; b]) <$> [x80; x81; x82; x83; x84; x85; x86; x87; x88; x89; x8a]).

(** Drops the encodings in [seps] from the front. *)
Fixpoint trim_left (fuel : nat) (seps : list bytes) (s : bytes) : bytes :=
  match fuel with
  | O => s
  | S fuel =>
      match List.find (λ sep, bool_decide (take (length sep) s = sep)) seps with
      | Some sep => trim_left fuel seps (drop (length sep) s)
      | None => s
      end
  end.

Definition TrimSpace (s : bytes) : bytes :=
  let s := trim_left (length s) white_space s in
  reverse (trim_left (length s) (reverse <$> white_space) (reverse s)).

(** [strings.ContainsAny(s, chars)] for chars of one byte each. *)
Definition ContainsAny (s chars : bytes) : bool := existsb (λ b, bool_decide (b ∈ chars)) s.

(** ** [strings.Cut], [strings.Split] and [strings.TrimSuffix], at one byte *)

(** [None] is [found = false]. *)
Fixpoint Cut (s : bytes) (sep : byte) : option (bytes * bytes) :=
  match s with
  | [] => None
  | b :: s =>
      if bool_decide (b = sep) then Some ([], s)
      else match Cut s sep with Some (before, after) => Some (b :: before, after) | None => None end
  end.

Fixpoint Split (s : bytes) (sep : byte) : list bytes :=
  match s with
  | [] => [[]]
  | b :: s =>
      if bool_decide (b = sep) then [] :: Split s sep
      else match Split s sep with [] => [[b]] | piece :: rest => (b :: piece) :: rest end
  end.

Definition TrimSuffix (s : bytes) (suffix : byte) : bytes :=
  match last s with
  | Some b => if bool_decide (b = suffix) then take (length s - 1) s else s
  | None => s
  end.

(** [strings.IndexByte] and [strings.LastIndexByte]. *)
Fixpoint IndexByte (s : bytes) (c : byte) : option nat :=
  match s with
  | [] => None
  | b :: s => if bool_decide (b = c) then Some 0%nat else S <$> IndexByte s c
  end.

Definition LastIndexByte (s : bytes) (c : byte) : option nat :=
  (λ i, length s - 1 - i)%nat <$> IndexByte (reverse s) c.

Lemma Split_cut s sep :
  Split s sep = match Cut s sep with Some (before, after) => before :: Split after sep | None => [s] end.
Proof.
  induction s as [|b s IH]; cbn; [done|]. case_bool_decide; [done|]. rewrite IH.
  by destruct (Cut s sep) as [[before after]|].
Qed.

Lemma Cut_Some s sep before after :
  Cut s sep = Some (before, after) ↔ s = before ++ sep :: after ∧ sep ∉ before.
Proof.
  revert before after. induction s as [|b s IH]; intros before after; cbn.
  - split; [done|]. intros [Hs _]. by destruct before.
  - case_bool_decide as Hb.
    + subst b. split.
      * intros [= <- <-]. split; [done|]. set_solver.
      * intros [Hs Hn]. destruct before as [|b' before]; cbn in Hs; simplify_eq; [done|]. set_solver.
    + destruct (Cut s sep) as [[x y]|] eqn:E; split.
      * intros [= <- <-]. destruct (proj1 (IH x y) eq_refl) as [-> Hn]. split; [done|]. set_solver.
      * intros [Hs Hn]. destruct before as [|b' before]; cbn in Hs; simplify_eq.
        assert (Some (x, y) = Some (before, after)) as [= -> ->]; [|done].
        apply IH. split; [done|]. set_solver.
      * done.
      * intros [Hs Hn]. destruct before as [|b' before]; cbn in Hs; simplify_eq.
        assert (None = Some (before, after)) as Hx; [|done]. apply IH. split; [done|]. set_solver.
Qed.

Lemma Cut_None s sep : Cut s sep = None ↔ sep ∉ s.
Proof.
  induction s as [|b s IH]; cbn.
  - split; [|done]. intros _ ?%elem_of_nil. done.
  - case_bool_decide; [split; [done|]; set_solver|]. rewrite not_elem_of_cons, <- IH.
    destruct (Cut s sep) as [[]|]; naive_solver.
Qed.

Lemma Cut_length s sep before after : Cut s sep = Some (before, after) → (length after < length s)%nat.
Proof. intros [-> _]%Cut_Some. rewrite length_app. cbn. lia. Qed.

Lemma Split_nonnil s sep : Split s sep ≠ [].
Proof. rewrite Split_cut. by destruct (Cut s sep) as [[]|]. Qed.

(** The last piece of a text that ends in [sep :: piece]. *)
Lemma Split_app s sep piece :
  sep ∉ piece → Split (s ++ sep :: piece) sep = Split s sep ++ [piece].
Proof.
  intros Hn. induction s as [|b s IH]; cbn.
  - rewrite bool_decide_true by done. f_equal. rewrite Split_cut, (proj2 (Cut_None _ _)); done.
  - case_bool_decide; rewrite IH; [done|]. pose proof (Split_nonnil s sep). by destruct (Split s sep).
Qed.

(** ** [base64.RawURLEncoding] *)

Definition base64_alphabet : bytes :=
  lit "ABCDEFGHIJKLMNOPQRSTUVWXYZabcdefghijklmnopqrstuvwxyz0123456789-_".

Definition base64_char (v : Z) : byte := default x00 (base64_alphabet !! Z.to_nat (v `mod` 64)).
Definition base64_value (c : byte) : option Z := Z.of_nat <$> IndexByte base64_alphabet c.

Fixpoint EncodeToString (s : bytes) : bytes :=
  match s with
  | [] => []
  | [a] => let n := Z_of_byte a * 16 in [base64_char (n `div` 64); base64_char n]
  | [a; b] =>
      let n := (Z_of_byte a * 256 + Z_of_byte b) * 4 in
      [base64_char (n `div` 4096); base64_char (n `div` 64); base64_char n]
  | a :: b :: c :: s =>
      let n := Z_of_byte a * 65536 + Z_of_byte b * 256 + Z_of_byte c in
      base64_char (n `div` 262144) :: base64_char (n `div` 4096) :: base64_char (n `div` 64) ::
      base64_char n :: EncodeToString s
  end.

Fixpoint base64_bytes (l : list Z) : option bytes :=
  match l with
  | [] => Some []
  | [_] => None
  | [a; b] => Some [byte_of_Z ((a * 64 + b) `div` 16)]
  | [a; b; c] =>
      let n := a * 4096 + b * 64 + c in Some [byte_of_Z (n `div` 1024); byte_of_Z (n `div` 4)]
  | a :: b :: c :: d :: l =>
      let n := a * 262144 + b * 4096 + c * 64 + d in
      (λ s, byte_of_Z (n `div` 65536) :: byte_of_Z (n `div` 256) :: byte_of_Z n :: s) <$> base64_bytes l
  end.

(** Line breaks are skipped, and the unused bits of a last character are not
    looked at. *)
Definition DecodeString (s : bytes) : option bytes :=
  mapM base64_value (List.filter (λ c, negb (bool_decide (c = x0a ∨ c = x0d))) s) ≫= base64_bytes.

Lemma base64_value_char v : base64_value (base64_char v) = Some (v `mod` 64).
Proof.
  assert (∀ n, (n < 64)%nat → base64_value (default x00 (base64_alphabet !! n)) = Some (Z.of_nat n)) as Hall.
  { intros n Hn. do 64 (destruct n as [|n]; [by vm_compute|]). lia. }
  unfold base64_char. pose proof (Z.mod_pos_bound v 64 ltac:(lia)). rewrite Hall by lia. f_equal. lia.
Qed.

Lemma base64_char_elem v : base64_char v ∈ base64_alphabet.
Proof.
  unfold base64_char. pose proof (Z.mod_pos_bound v 64 ltac:(lia)).
  destruct (lookup_lt_is_Some_2 base64_alphabet (Z.to_nat (v `mod` 64))) as [c Hc];
    [change (length base64_alphabet) with 64%nat; lia|].
  rewrite Hc. by eapply list_elem_of_lookup_2.
Qed.

(** Induction on a text by groups of three bytes. *)
Lemma triples_ind (P : bytes → Prop) :
  P [] → (∀ a, P [a]) → (∀ a b, P [a; b]) → (∀ a b c s, P s → P (a :: b :: c :: s)) → ∀ s, P s.
Proof.
  intros H0 H1 H2 H3. fix rec 1. intros [|a [|b [|c s]]].
  - exact H0.
  - exact (H1 a).
  - exact (H2 a b).
  - exact (H3 a b c s (rec s)).
Qed.

Lemma EncodeToString_elem s c : c ∈ EncodeToString s → c ∈ base64_alphabet.
Proof.
  revert c. induction s as [|a|a b|a b d s IH] using triples_ind; intros c; cbn [EncodeToString];
    rewrite ?elem_of_cons, ?elem_of_nil; intros Hc; destruct_or?; subst; auto using base64_char_elem; done.
Qed.

Lemma EncodeToString_dotless s : x2e ∉ EncodeToString s.
Proof. intros H%EncodeToString_elem. revert H. by apply (bool_decide_eq_false_1 (x2e ∈ base64_alphabet)). Qed.

Lemma DecodeString_Encode s : DecodeString (EncodeToString s) = Some s.
Proof.
  unfold DecodeString.
  assert (List.filter (λ c, negb (bool_decide (c = x0a ∨ c = x0d))) (EncodeToString s) = EncodeToString s) as ->.
  { pose proof (EncodeToString_elem s) as Hs. induction (EncodeToString s) as [|c l IH]; [done|]. cbn [List.filter].
    assert (c ∈ base64_alphabet) as Hc by (apply Hs; set_solver).
    rewrite bool_decide_false; [cbn; f_equal; apply IH; set_solver|].
    intros [->| ->]; revert Hc;
      [by apply (bool_decide_eq_false_1 (x0a ∈ base64_alphabet))|by apply (bool_decide_eq_false_1 (x0d ∈ base64_alphabet))]. }
  assert (∀ a, 0 ≤ Z_of_byte a < 256) as Hr by apply Z_of_byte_range.
  induction s as [|a|a b|a b c s IH] using triples_ind; cbn [EncodeToString mapM]; rewrite ?base64_value_char; cbn.
  - done.
  - specialize (Hr a). rewrite <- (byte_of_Z_of_byte a) at 3. do 3 f_equal.
    Z.to_euclidean_division_equations; lia.
  - pose proof (Hr a). pose proof (Hr b). do 2 f_equal; [|f_equal]; apply Z_of_byte_inj; rewrite Z_of_byte_of_Z;
      Z.to_euclidean_division_equations; lia.
  - destruct (mapM base64_value (EncodeToString s)) as [l|] eqn:E; cbn in *; [|done]. rewrite IH. cbn.
    pose proof (Hr a). pose proof (Hr b). pose proof (Hr c).
    do 2 f_equal; [|f_equal; [|f_equal]]; apply Z_of_byte_inj; rewrite Z_of_byte_of_Z;
      Z.to_euclidean_division_equations; lia.
Qed.
