(* ===== verification/GoNet.v ===== *)
(** * Go's network addresses

    What the server uses of [net] and [net/netip]: splitting a host and a port,
    parsing an address or a range, and whether a range holds an address.  An
    address is its bits, with the zone an IPv6 address may carry. *)
From S2P Require Import Prelude GoStrings.

Inductive Addr :=
  | V4 (bits : Z)
  | V6 (bits : Z) (zone : bytes).

#[global] Instance Addr_eq_dec : EqDecision Addr.
Proof. solve_decision. Defined.
#[global] Instance Addr_countable : Countable Addr.
Proof.
  apply (inj_countable' (λ a, match a with V4 b => inl b | V6 b z => inr (b, z) end)
                        (λ s, match s with inl b => V4 b | inr (b, z) => V6 b z end)).
  by intros [].
Defined.

Definition BitLen (a : Addr) : Z := match a with V4 _ => 32 | V6 _ _ => 128 end.
Definition addr_bits (a : Addr) : Z := match a with V4 b => b | V6 b _ => b end.
Definition withoutZone (a : Addr) : Addr := match a with V4 b => V4 b | V6 b _ => V6 b [] end.
Definition hasZone (a : Addr) : bool := match a with V4 _ => false | V6 _ z => negb (bool_decide (z = [])) end.

(** ** Parsing *)

Definition digit (c : byte) : option Z :=
  let v := Z_of_byte c in if bool_decide (48 ≤ v ≤ 57) then Some (v - 48) else None.

Definition hex_digit (c : byte) : option Z :=
  let v := Z_of_byte c in
  if bool_decide (48 ≤ v ≤ 57) then Some (v - 48)
  else if bool_decide (97 ≤ v ≤ 102) then Some (v - 87)
  else if bool_decide (65 ≤ v ≤ 70) then Some (v - 55) else None.

(** [parseIPv4Fields] after [pos] octets of value [acc]: [val] and [digLen] are
    of the octet under way. *)
Fixpoint ipv4_fields (s : bytes) (pos val digLen acc : Z) : option Z :=
  match s with
  | [] => if bool_decide (pos < 3 ∨ digLen = 0) then None else Some (acc * 256 + val)
  | c :: s =>
      match digit c with
      | Some d =>
          if bool_decide (digLen = 1 ∧ val = 0) then None
          else let val := val * 10 + d in
               if bool_decide (255 < val) then None else ipv4_fields s pos val (digLen + 1) acc
      | None =>
          if negb (bool_decide (c = x2e)) then None
          else if bool_decide (digLen = 0 ∨ pos = 3) then None
          else ipv4_fields s (pos + 1) 0 0 (acc * 256 + val)
      end
  end.

Definition parseIPv4 (s : bytes) : option Z := ipv4_fields s 0 0 0 0.

(** The hexadecimal group at the front, of at most four digits: its value, how
    many digits it has and what follows. *)
Fixpoint hex_group (s : bytes) (off acc : Z) : option (Z * Z * bytes) :=
  match s with
  | [] => Some (acc, off, [])
  | c :: rest =>
      match hex_digit c with
      | Some d => if bool_decide (3 < off) then None else hex_group rest (off + 1) (acc * 16 + d)
      | None => Some (acc, off, s)
      end
  end.

(** The loop of [parseIPv6]: [groups] holds the 16-bit groups read, newest first,
    and [ellipsis] how many were read before the [::]. *)
Fixpoint ipv6_groups (fuel : nat) (s : bytes) (groups : list Z) (ellipsis : option nat) : option (list Z * option nat) :=
  match fuel with
  | O => if bool_decide (s = []) then Some (groups, ellipsis) else None
  | S fuel =>
      '(acc, off, rest) ← hex_group s 0 0;
      if bool_decide (off = 0) then None
      else match rest with
      | x2e :: _ =>
          if bool_decide (ellipsis = None ∧ length groups ≠ 6%nat) || bool_decide (6 < length groups)%nat then None
          else v ← parseIPv4 s; Some (v `mod` 65536 :: v `div` 65536 :: groups, ellipsis)
      | [] => Some (acc :: groups, ellipsis)
      | x3a :: [] => None
      | x3a :: x3a :: rest =>
          match ellipsis with
          | Some _ => None
          | None =>
              let groups := acc :: groups in
              if bool_decide (rest = []) then Some (groups, Some (length groups))
              else ipv6_groups fuel rest groups (Some (length groups))
          end
      | x3a :: rest => ipv6_groups fuel rest (acc :: groups) ellipsis
      | _ => None
      end
  end.

Definition group_bits (l : list Z) : Z := foldl (λ acc g, acc * 65536 + g) 0 l.

Definition parseIPv6 (s : bytes) : option Addr :=
  '(s, zone) ← match Cut s x25 with
               | Some (_, []) => None
               | Some (s, zone) => Some (s, zone)
               | None => Some (s, [])
               end;
  '(newest_first, ellipsis) ←
    match s with
    | [x3a; x3a] => Some ([], Some 0%nat)
    | x3a :: x3a :: s => ipv6_groups 8 s [] (Some 0%nat)
    | s => ipv6_groups 8 s [] None
    end;
  let groups := reverse newest_first in
  match ellipsis with
  | None => if bool_decide (length groups = 8%nat) then Some (V6 (group_bits groups) zone) else None
  | Some e =>
      if bool_decide (length groups < 8)%nat
      then Some (V6 (group_bits (take e groups ++ replicate (8 - length groups) 0 ++ drop e groups)) zone)
      else None
  end.

(** [netip.ParseAddr]: the first of [.], [:] and [%] decides the family. *)
Definition ParseAddr (s : bytes) : option Addr :=
  match List.find (λ c, bool_decide (c = x2e ∨ c = x3a ∨ c = x25)) s with
  | Some x2e => V4 <$> parseIPv4 s
  | Some x3a => parseIPv6 s
  | _ => None
  end.

(** ** Ranges *)

Record Prefix := mk_Prefix { pf_addr : Addr; pf_bits : Z }.

Definition PrefixFrom (a : Addr) (bits : Z) : Prefix := mk_Prefix (withoutZone a) bits.

(** [strconv.Atoi] on digits. *)
Definition Atoi (s : bytes) : option Z :=
  if bool_decide (s = []) then None
  else foldl (λ acc c, a ← acc; d ← digit c; Some (a * 10 + d)) (Some 0) s.

Definition ParsePrefix (s : bytes) : option Prefix :=
  i ← LastIndexByte s x2f;
  a ← ParseAddr (take i s);
  if hasZone a then None
  else let bitsStr := drop (i + 1) s in
       if bool_decide (1 < blen bitsStr) && bool_decide (head bitsStr = Some x30) then None
       else bits ← Atoi bitsStr;
            if bool_decide (BitLen a < bits) then None else Some (PrefixFrom a bits).

(** The address with the bits past the prefix cleared. *)
Definition Masked (p : Prefix) : Prefix :=
  let drop := BitLen (pf_addr p) - pf_bits p in
  let clear b := Z.shiftl (Z.shiftr b drop) drop in
  mk_Prefix (match pf_addr p with V4 b => V4 (clear b) | V6 b z => V6 (clear b) z end) (pf_bits p).

(** [Prefix.Contains]: of one family, without a zone, and equal in the prefix. *)
Definition Contains (p : Prefix) (a : Addr) : bool :=
  negb (hasZone a) && bool_decide (BitLen (pf_addr p) = BitLen a) &&
  bool_decide (Z.shiftr (Z.lxor (addr_bits a) (addr_bits (pf_addr p))) (BitLen a - pf_bits p) = 0).

(** Clearing the host bits of a range changes no answer. *)
Lemma Contains_Masked p a :
  0 ≤ pf_bits p ≤ BitLen (pf_addr p) → Contains (Masked p) a = Contains p a.
Proof.
  assert (∀ x b d, 0 ≤ d → Z.shiftr (Z.lxor x (Z.shiftl (Z.shiftr b d) d)) d = Z.shiftr (Z.lxor x b) d) as Hs.
  { intros x b d Hd. by rewrite !Z.shiftr_lxor, Z.shiftr_shiftl_l, Z.sub_diag, Z.shiftl_0_r. }
  intros Hb. unfold Contains, Masked. destruct p as [[b|b z] bits], a as [b'|b' z'];
    cbn [pf_addr pf_bits addr_bits BitLen] in *; [by rewrite Hs by lia| | |by rewrite Hs by lia];
    by rewrite (bool_decide_false (_ = _ :> Z)), !andb_false_r.
Qed.

(** ** [net.SplitHostPort] *)

Definition SplitHostPort (hostport : bytes) : option (bytes * bytes) :=
  i ← LastIndexByte hostport x3a;
  '(host, j, k) ←
    match hostport with
    | x5b :: _ =>
        e ← IndexByte hostport x5d;
        if bool_decide (S e = i) then Some (take (e - 1) (drop 1 hostport), 1%nat, S e) else None
    | _ => let host := take i hostport in
           if bool_decide (x3a ∈ host) then None else Some (host, 0%nat, 0%nat)
    end;
  if bool_decide (x5b ∈ drop j hostport) || bool_decide (x5d ∈ drop k hostport) then None
  else Some (host, drop (i + 1) hostport).

Example parse_v4 : ParseAddr (lit "10.42.0.7") = Some (V4 170524679).
Proof. by vm_compute. Qed.
Example parse_leading_zero : ParseAddr (lit "10.042.0.7") = None.
Proof. by vm_compute. Qed.
Example parse_v6 :
  ParseAddr (lit "2001:db8::1.2.3.4") = Some (V6 (0x20010db8 * 2 ^ 96 + 0x01020304) []) ∧
  ParseAddr (lit "::") = Some (V6 0 []) ∧ ParseAddr (lit "1::2::3") = None ∧
  ParseAddr (lit "fe80::1%eth0") = Some (V6 (0xfe80 * 2 ^ 112 + 1) (lit "eth0")) ∧
  ParseAddr (lit "1:2:3:4:5:6:7") = None ∧ ParseAddr (lit "1:2:3:4:5:6:7::") = Some (V6 (group_bits [1;2;3;4;5;6;7;0]) []).
Proof. by vm_compute. Qed.
Example prefix_contains :
  (λ p, (Contains p (V4 170524679), Contains p (V4 1), Contains p (V6 170524679 []))) <$> ParsePrefix (lit "10.42.0.0/16") =
  Some (true, false, false).
Proof. by vm_compute. Qed.
Example split_ports :
  SplitHostPort (lit "10.0.0.1:443") = Some (lit "10.0.0.1", lit "443") ∧
  SplitHostPort (lit "[fe80::1]:80") = Some (lit "fe80::1", lit "80") ∧
  SplitHostPort (lit "fe80::1:80") = None ∧ SplitHostPort (lit "host") = None.
Proof. by vm_compute. Qed.
