(* ===== verification/Sha256.v ===== *)
(** * SHA-256 and HMAC

    [crypto/sha256] and [crypto/hmac] as FIPS 180-4 and RFC 2104 define them, over
    32-bit words with their wrap-around written out. *)
From S2P Require Import Prelude.

Definition sha_k : list Z :=
  [1116352408; 1899447441; 3049323471; 3921009573; 961987163; 1508970993; 2453635748; 2870763221;
   3624381080; 310598401; 607225278; 1426881987; 1925078388; 2162078206; 2614888103; 3248222580;
   3835390401; 4022224774; 264347078; 604807628; 770255983; 1249150122; 1555081692; 1996064986;
   2554220882; 2821834349; 2952996808; 3210313671; 3336571891; 3584528711; 113926993; 338241895;
   666307205; 773529912; 1294757372; 1396182291; 1695183700; 1986661051; 2177026350; 2456956037;
   2730485921; 2820302411; 3259730800; 3345764771; 3516065817; 3600352804; 4094571909; 275423344;
   430227734; 506948616; 659060556; 883997877; 958139571; 1322822218; 1537002063; 1747873779;
   1955562222; 2024104815; 2227730452; 2361852424; 2428436474; 2756734187; 3204031479; 3329325298].

Definition sha_init : list Z :=
  [1779033703; 3144134277; 1013904242; 2773480762; 1359893119; 2600822924; 528734635; 1541459225].

Definition rotr (n x : Z) : Z := Z.lor (Z.shiftr x n) (u32 (Z.shiftl x (32 - n))).

(** The message with its padding: a one bit, zeros, and its length in bits. *)
Definition sha_pad (m : bytes) : bytes :=
  let bits := blen m * 8 in
  m ++ [x80] ++ replicate (Z.to_nat ((55 - blen m) `mod` 64)) x00 ++ be32 (bits `div` 4294967296) ++ be32 bits.

(** The first [n] big-endian words. *)
Fixpoint sha_words (n : nat) (l : bytes) : list Z :=
  match n with O => [] | S n => default 0 (get_be32 l) :: sha_words n (drop 4 l) end.

(** The message schedule, newest word first. *)
Fixpoint sha_schedule (n : nat) (w : list Z) : list Z :=
  match n with
  | O => w
  | S n =>
      let at_ i := default 0 (w !! i) in
      let s0 := Z.lxor (Z.lxor (rotr 7 (at_ 14%nat)) (rotr 18 (at_ 14%nat))) (Z.shiftr (at_ 14%nat) 3) in
      let s1 := Z.lxor (Z.lxor (rotr 17 (at_ 1%nat)) (rotr 19 (at_ 1%nat))) (Z.shiftr (at_ 1%nat) 10) in
      sha_schedule n (u32 (at_ 15%nat + s0 + at_ 6%nat + s1) :: w)
  end.

Definition sha_round (st : list Z) (kw : Z * Z) : list Z :=
  match st with
  | [a; b; c; d; e; f; g; h] =>
      let s1 := Z.lxor (Z.lxor (rotr 6 e) (rotr 11 e)) (rotr 25 e) in
      let ch := Z.lxor (Z.land e f) (Z.land (u32_max - e) g) in
      let t1 := h + s1 + ch + kw.1 + kw.2 in
      let s0 := Z.lxor (Z.lxor (rotr 2 a) (rotr 13 a)) (rotr 22 a) in
      let maj := Z.lxor (Z.lxor (Z.land a b) (Z.land a c)) (Z.land b c) in
      [u32 (t1 + s0 + maj); a; b; c; u32 (d + t1); e; f; g]
  | _ => st
  end.

Definition sha_block (st : list Z) (block : bytes) : list Z :=
  let w := reverse (sha_schedule 48 (reverse (sha_words 16 block))) in
  zip_with (λ x y, u32 (x + y)) st (foldl sha_round st (zip sha_k w)).

Fixpoint sha_blocks (fuel : nat) (st : list Z) (m : bytes) : list Z :=
  match fuel with
  | O => st
  | S fuel => if bool_decide (m = []) then st else sha_blocks fuel (sha_block st (take 64 m)) (drop 64 m)
  end.

Definition Sum256 (m : bytes) : bytes :=
  let p := sha_pad m in sha_blocks (length p) sha_init p ≫= be32.

(** HMAC over SHA-256. *)
Definition hmac_sha256 (key m : bytes) : bytes :=
  let key := if bool_decide (64 < blen key) then Sum256 key else key in
  let key := key ++ replicate (64 - length key) x00 in
  let pad x := (λ b, byte_of_Z (Z.lxor (Z_of_byte b) x)) <$> key in
  Sum256 (pad 92 ++ Sum256 (pad 54 ++ m)).

(** The first vector of FIPS 180-4 and the second of RFC 4231. *)
Example sha256_abc :
  take 4 (Sum256 (lit "abc")) = [xba; x78; x16; xbf] ∧ drop 28 (Sum256 (lit "abc")) = [xf2; x00; x15; xad].
Proof. by vm_compute. Qed.
Example hmac_jefe :
  take 4 (hmac_sha256 (lit "Jefe") (lit "what do ya want for nothing?")) = [x5b; xdc; xc1; x46].
Proof. by vm_compute. Qed.

Lemma Sum256_length m : length (Sum256 m) = 32%nat.
Proof.
  unfold Sum256. assert (∀ fuel st m, length st = 8%nat → length (sha_blocks fuel st m) = 8%nat) as Hb.
  { intros fuel. induction fuel as [|fuel IH]; intros st l Hst; cbn [sha_blocks]; [done|]. case_bool_decide; [done|]. apply IH.
    unfold sha_block. rewrite length_zip_with.
    assert (∀ kws st, length st = 8%nat → length (foldl sha_round st kws) = 8%nat) as Hr.
    { intros kws. induction kws as [|kw kws IHk]; intros st' Hs; cbn [foldl]; [done|]. apply IHk. unfold sha_round.
      
      do 8 (destruct st' as [|? st']; [discriminate Hs|]). destruct st'; [reflexivity|discriminate Hs]. }
    rewrite Hr by done. lia. }
  generalize (Hb (length (sha_pad m)) sha_init (sha_pad m) eq_refl).
  generalize (sha_blocks (length (sha_pad m)) sha_init (sha_pad m)) as l. intros l Hl.
  assert (length (l ≫= be32) = (4 * length l)%nat) as ->; [|by rewrite Hl].
  clear Hl. induction l as [|v l IH]; [done|]. rewrite bind_cons, length_app, be32_length, IH. cbn [length]. lia.
Qed.
