(* ===== verification/Dbtx.v ===== *)
(** * The tenant of a request

    [src/server/internal/dbtx/tenant.go]: the tenant and administrator flag a
    context carries into a transaction, and the row policy the database applies
    under them. *)
From S2P Require Import Prelude Settings.

Record Tenant := mk_tenant { TenantID : uuid; IsAdmin : bool }.

Definition DefaultTenantID : uuid := replicate 15 x00 ++ [x02].

Definition TenantFromContext (ctx : option Tenant) : option Tenant :=
  t ← ctx; if bool_decide (TenantID t = Nil) then None else Some t.

Definition WithDefaultTenant (isAdmin : bool) : option Tenant := Some (mk_tenant DefaultTenantID isAdmin).

(** The row policy [app_tenant_visible]. *)
Definition visible (t : Tenant) (tenant : uuid) : bool := IsAdmin t || bool_decide (tenant = TenantID t).
