(* ===== verification/Rules.v ===== *)
(** * The rule catalogue

    [src/server/internal/rules/catalogue.go], [catalogue_validate.go],
    [catalogue_load.go], [cost.go] and the metric vocabulary of
    [protocol/rules.go].  The YAML parser and the digest (JSON and SHA-256) are
    parameters of the loader; a validation error is which check refused, without
    its wording. *)
From S2P Require Import Prelude Float Sorting.
From stdpp Require Import pretty.
#[local] Open Scope Z_scope.

(** ** Vocabularies *)

Definition RuleMetrics : list bytes := lit <$>
  ["cpu.total"; "mem.used_percent"; "disk.used_percent"; "disk.mounts_critical"; "net.rx_bps";
   "net.tx_bps"; "stall.cpu.some"; "stall.mem.some"; "stall.mem.full"; "stall.io.some";
   "stall.io.full"; "disk.await_ms"; "disk.queue_depth"]%string.

Definition RuleMetricAliases : gmap bytes bytes := list_to_map
  [(lit "mem.used", lit "mem.used_percent"); (lit "disk.used", lit "disk.used_percent")].

Definition CanonicalRuleMetric (name : bytes) : option bytes :=
  if bool_decide (name ∈ RuleMetrics) then Some name else RuleMetricAliases !! name.

Definition groupByVocabulary : list bytes := lit <$>
  ["device"; "site"; "organization"; "mount"; "metric"]%string.
Definition evidenceVocabulary : list bytes := lit <$>
  ["vitals"; "top_processes"; "recent_logs"; "inventory"; "correlation"]%string.
Definition comparatorVocabulary : gmap bytes bytes := list_to_map
  [(lit "gt", lit "Gt"); (lit "lt", lit "Lt"); (lit "gte", lit "Gte"); (lit "lte", lit "Lte")].
Definition predicateVocabulary : gmap bytes bytes := list_to_map
  [([], lit "Instant"); (lit "Instant", lit "Instant"); (lit "Rate", lit "Rate");
   (lit "WindowMax", lit "WindowMax"); (lit "WindowMean", lit "WindowMean")].
Definition severityVocabulary : gmap bytes bytes := list_to_map
  [(lit "info", lit "Info"); (lit "warning", lit "Warning"); (lit "critical", lit "Critical")].

Definition RulePredicateInstant : bytes := lit "Instant".
Definition maxRuleIDLen : Z := 64.
Definition minRuleVersion : Z := 1.
Definition maxRuleVersion : Z := u32_max.
Definition KindEvent : bytes := lit "event".

(** ** Definitions *)

Record Bounds := mk_bounds { bd_Min : float64; bd_Max : float64 }.

Definition Contains (b : Bounds) (v : float64) : bool := f_le (bd_Min b) v && f_le v (bd_Max b).

Record Term := mk_term {
  tm_Metric : bytes;
  tm_ComparatorName : bytes;
  tm_Threshold : float64;
  tm_Clear : float64;
  tm_PredicateName : bytes;
  tm_WindowSecs : Z;
}.

Record Definition_ := mk_def {
  df_ID : bytes;
  df_Version : Z;
  df_Kind : bytes;
  df_Severity : bytes;
  df_Summary : bytes;
  df_Metric : bytes;
  df_ComparatorName : bytes;
  df_Threshold : float64;
  df_Clear : float64;
  df_SustainSecs : Z;
  df_PredicateName : bytes;
  df_WindowSecs : Z;
  df_All : list Term;
  df_GroupBy : list bytes;
  df_GroupWindowSecs : Z;
  df_Evidence : list bytes;
  df_CoverageRequires : list bytes;
  df_Tunable : gmap bytes Bounds;
}.

Definition WatchesEvents (d : Definition_) : bool := bool_decide (df_Kind d = KindEvent).

(** A missing key of a Go map of strings reads as the empty string. *)
Definition vocab (m : gmap bytes bytes) (name : bytes) : bytes := default [] (m !! name).

Definition term_Comparator (t : Term) : bytes := vocab comparatorVocabulary (tm_ComparatorName t).
Definition term_Predicate (t : Term) : bytes := vocab predicateVocabulary (tm_PredicateName t).
Definition Comparator (d : Definition_) : bytes := vocab comparatorVocabulary (df_ComparatorName d).
Definition Predicate (d : Definition_) : bytes := vocab predicateVocabulary (df_PredicateName d).
Definition WireSeverity (d : Definition_) : bytes := vocab severityVocabulary (df_Severity d).

(** [ID + "@" + strconv.Itoa(Version)] *)
Definition def_Key (d : Definition_) : bytes := df_ID d ++ lit "@" ++ lit (pretty (df_Version d)).

Definition ShippedParam (d : Definition_) (name : bytes) : option float64 :=
  if bool_decide (name = lit "threshold") then Some (df_Threshold d)
  else if bool_decide (name = lit "clear") then Some (df_Clear d)
  else if bool_decide (name = lit "sustain_secs") then Some (f_of_Z (df_SustainSecs d))
  else if bool_decide (name = lit "window_secs") then Some (f_of_Z (df_WindowSecs d))
  else None.

(** ** Validation *)

Inductive rule_err :=
  | NoID | BadID | BadVersion | NoSummary | BadSeverity
  | BadKind | EventNames | EventTerms | EventTunable
  | BadMetric (term : option nat) | BadComparator (term : option nat) | BadPredicate (term : option nat)
  | NoGroupBy | BadGroupBy (key : bytes) | NoGroupWindow | BadEvidence (kind : bytes)
  | BadCoverage (metric : bytes)
  | NotAParameter (name : bytes) | InvertedBounds (name : bytes) | ShippedOutside (name : bytes).

Definition validRuleID (id : bytes) : bool :=
  forallb (λ b, let n := Z_of_byte b in
                ((97 <=? n) && (n <=? 122)) || ((48 <=? n) && (n <=? 57)) || (n =? 45)) id.

Definition check (ok : bool) (e : rule_err) : result rule_err unit := if ok then Ok tt else Err e.

(** A loop that fails on its first bad element. *)
Fixpoint check_all {A} (ok : A → bool) (e : A → rule_err) (l : list A) : result rule_err unit :=
  match l with
  | [] => Ok tt
  | x :: l => _ ← check (ok x) (e x); check_all ok e l
  end.

Definition validateIdentity (d : Definition_) : result rule_err unit :=
  _ ← check (negb (bool_decide (df_ID d = []))) NoID;
  _ ← check (negb (bool_decide (maxRuleIDLen < blen (df_ID d))) && validRuleID (df_ID d)) BadID;
  _ ← check (negb (bool_decide (df_Version d < minRuleVersion)) &&
             negb (bool_decide (maxRuleVersion < df_Version d))) BadVersion;
  _ ← check (negb (bool_decide (df_Summary d = []))) NoSummary;
  check (bool_decide (is_Some (severityVocabulary !! df_Severity d))) BadSeverity.

Definition validateGrouping (d : Definition_) : result rule_err unit :=
  _ ← check (negb (bool_decide (df_GroupBy d = []))) NoGroupBy;
  _ ← check_all (λ k, bool_decide (k ∈ groupByVocabulary)) BadGroupBy (df_GroupBy d);
  _ ← check (negb (bool_decide (df_GroupWindowSecs d = 0))) NoGroupWindow;
  _ ← check_all (λ k, bool_decide (k ∈ evidenceVocabulary)) BadEvidence (df_Evidence d);
  check_all (λ m, bool_decide (is_Some (CanonicalRuleMetric m))) BadCoverage (df_CoverageRequires d).

Definition validateCondition (term : option nat) (metric comparator predicate : bytes) :
    result rule_err unit :=
  _ ← check (bool_decide (is_Some (CanonicalRuleMetric metric))) (BadMetric term);
  _ ← check (bool_decide (is_Some (comparatorVocabulary !! comparator))) (BadComparator term);
  check (bool_decide (is_Some (predicateVocabulary !! predicate))) (BadPredicate term).

Definition validateEventRule (d : Definition_) : result rule_err unit :=
  _ ← check (bool_decide (df_Metric d = []) && bool_decide (df_ComparatorName d = []) &&
             bool_decide (df_PredicateName d = [])) EventNames;
  _ ← check (bool_decide (df_All d = [])) EventTerms;
  check (bool_decide (df_Tunable d = ∅)) EventTunable.

Fixpoint validateTerms (i : nat) (terms : list Term) : result rule_err unit :=
  match terms with
  | [] => Ok tt
  | t :: terms =>
      _ ← validateCondition (Some i) (tm_Metric t) (tm_ComparatorName t) (tm_PredicateName t);
      validateTerms (S i) terms
  end.

Definition validateWhatItWatches (d : Definition_) : result rule_err unit :=
  if WatchesEvents d then validateEventRule d else
  _ ← check (bool_decide (df_Kind d = [])) BadKind;
  _ ← validateCondition None (df_Metric d) (df_ComparatorName d) (df_PredicateName d);
  validateTerms 0 (df_All d).

Definition sorted_keys {A} (m : gmap bytes A) : list bytes := sort_Strings (map_to_list m).*1.

Definition check_tunable (d : Definition_) (name : bytes) : result rule_err unit :=
  match df_Tunable d !! name with
  | None => Ok tt
  | Some bounds =>
      match ShippedParam d name with
      | None => Err (NotAParameter name)
      | Some shipped =>
          if f_lt (bd_Max bounds) (bd_Min bounds) then Err (InvertedBounds name)
          else check (Contains bounds shipped) (ShippedOutside name)
      end
  end.

Fixpoint check_each (d : Definition_) (names : list bytes) : result rule_err unit :=
  match names with
  | [] => Ok tt
  | n :: names => _ ← check_tunable d n; check_each d names
  end.

Definition validateTunable (d : Definition_) : result rule_err unit :=
  check_each d (sorted_keys (df_Tunable d)).

Definition validateDefinition (d : Definition_) : result rule_err unit :=
  _ ← validateIdentity d;
  _ ← validateWhatItWatches d;
  _ ← validateGrouping d;
  validateTunable d.

(** ** Cost *)

Definition MaxRuleCost : Z := 3600.
Definition MaxCatalogueCost : Z := 20000.

Definition predicateCost (predicate : bytes) (windowSecs : Z) : Z :=
  if bool_decide (predicate = RulePredicateInstant) then 1 else u64 (windowSecs + 1).

Definition saturatingAdd (a b : Z) : Z :=
  let sum := u64 (a + b) in if bool_decide (a ≤ sum) then sum else 18446744073709551615.

Definition RuleCost (d : Definition_) : Z :=
  if WatchesEvents d then 0 else
  fold_left (λ cost t, saturatingAdd cost (predicateCost (term_Predicate t) (tm_WindowSecs t)))
    (df_All d) (predicateCost (Predicate d) (df_WindowSecs d)).

(** ** Loading *)

Record Catalogue := mk_catalogue {
  ct_byID : gmap bytes Definition_;
  ct_order : list bytes;
}.

Definition All (c : Catalogue) : list Definition_ := omap (ct_byID c !!.) (ct_order c).
Definition Lookup (c : Catalogue) (id : bytes) : option Definition_ := ct_byID c !! id.

Section load.
(** The YAML decoder and [Definition.Digest]. *)
Context (parse : bytes → option (list Definition_)) (Digest : Definition_ → option bytes).

Inductive load_err :=
  | ParseFailed | NoRules
  | RuleRefused (i : nat) (e : rule_err)
  | DuplicateKey (key : bytes) | DuplicateID (id : bytes)
  | DigestFailed | DefinitionChanged (key : bytes)
  | RuleTooCostly (key : bytes) (cost : Z)
  | PackTooCostly (total : Z).

Definition parseDefinitions (data : bytes) : result load_err (list Definition_) :=
  match parse data with
  | None => Err ParseFailed
  | Some [] => Err NoRules
  | Some defs => Ok defs
  end.

(** A nil lock skips the check. *)
Definition checkLock (d : Definition_) (lock : option (gmap bytes bytes)) : result load_err unit :=
  match lock with
  | None => Ok tt
  | Some lock =>
      match lock !! def_Key d with
      | None => Ok tt
      | Some want =>
          match Digest d with
          | None => Err DigestFailed
          | Some got => if bool_decide (got ≠ want) then Err (DefinitionChanged (def_Key d)) else Ok tt
          end
      end
  end.

Record load_state := mk_load {
  ld_cat : Catalogue;
  ld_seen : gset bytes;
  ld_total : Z;
}.

Definition load_one (lock : option (gmap bytes bytes)) (i : nat) (d : Definition_) (s : load_state) :
    result load_err load_state :=
  match validateDefinition d with
  | Err e => Err (RuleRefused i e)
  | Ok _ =>
      if bool_decide (def_Key d ∈ ld_seen s) then Err (DuplicateKey (def_Key d)) else
      match ct_byID (ld_cat s) !! df_ID d with
      | Some _ => Err (DuplicateID (df_ID d))
      | None =>
          _ ← checkLock d lock;
          let cost := RuleCost d in
          if bool_decide (MaxRuleCost < cost) then Err (RuleTooCostly (def_Key d) cost)
          else Ok (mk_load (mk_catalogue (<[df_ID d := d]> (ct_byID (ld_cat s)))
                              (ct_order (ld_cat s) ++ [df_ID d]))
                     ({[ def_Key d ]} ∪ ld_seen s) (u64 (ld_total s + cost)))
      end
  end.

Fixpoint load_all lock (i : nat) (defs : list Definition_) (s : load_state) :
    result load_err load_state :=
  match defs with
  | [] => Ok s
  | d :: defs => s ← load_one lock i d s; load_all lock (S i) defs s
  end.

Definition LoadCatalogue (data : bytes) (lock : option (gmap bytes bytes)) :
    result load_err Catalogue :=
  defs ← parseDefinitions data;
  s ← load_all lock 0 defs (mk_load (mk_catalogue ∅ []) ∅ 0);
  if bool_decide (MaxCatalogueCost < ld_total s) then Err (PackTooCostly (ld_total s))
  else Ok (mk_catalogue (ct_byID (ld_cat s)) (sort_Strings (ct_order (ld_cat s)))).

Definition DigestCatalogue (data : bytes) : result load_err (gmap bytes bytes) :=
  defs ← parseDefinitions data;
  foldl (λ acc d, lock ← acc;
                  match Digest d with
                  | Some g => Ok (<[def_Key d := g]> lock)
                  | None => Err DigestFailed
                  end) (Ok ∅) defs.
End load.

(** ** Lemmas *)

Lemma check_Ok ok e : check ok e = Ok tt ↔ ok = true.
Proof. unfold check. by destruct ok. Qed.

Lemma u64_pred n : 0 ≤ n < 18446744073709551616 → u64 n = n.
Proof. apply u64_id. Qed.

Definition u64_max : Z := 18446744073709551615.

Lemma saturatingAdd_min a b :
  is_u64 a → is_u64 b → saturatingAdd a b = Z.min (a + b) u64_max.
Proof.
  unfold saturatingAdd, is_u64, u64_max, u64. intros Ha Hb.
  destruct (decide (a + b < 18446744073709551616)).
  - rewrite Z.mod_small by lia. rewrite bool_decide_true by lia. lia.
  - replace ((a + b) `mod` 18446744073709551616) with (a + b - 18446744073709551616).
    + rewrite bool_decide_false by lia. lia.
    + apply (Z.mod_unique _ _ 1); lia.
Qed.

(** A rule's cost as its documentation counts it: one reading for an instant
    condition, the window's seconds and one more otherwise. *)
Definition condition_cost (predicate : bytes) (windowSecs : Z) : Z :=
  if bool_decide (predicate = RulePredicateInstant) then 1 else windowSecs + 1.
Definition term_cost (t : Term) : Z := condition_cost (term_Predicate t) (tm_WindowSecs t).
Definition total_cost (d : Definition_) : Z :=
  condition_cost (Predicate d) (df_WindowSecs d) + foldr (λ t n, term_cost t + n) 0 (df_All d).

Definition windows_ok (d : Definition_) : Prop :=
  is_u32 (df_WindowSecs d) ∧ Forall (λ t, is_u32 (tm_WindowSecs t)) (df_All d).

Lemma predicateCost_eq p w : is_u32 w → predicateCost p w = condition_cost p w ∧ is_u64 (predicateCost p w)
  ∧ 1 ≤ condition_cost p w.
Proof.
  unfold is_u32, predicateCost, condition_cost, is_u64. intros. case_bool_decide; [lia|].
  rewrite u64_pred by lia. lia.
Qed.

Lemma fold_cost terms cost :
  is_u64 cost → Forall (λ t, is_u32 (tm_WindowSecs t)) terms →
  fold_left (λ cost t, saturatingAdd cost (predicateCost (term_Predicate t) (tm_WindowSecs t))) terms cost
  = Z.min (cost + foldr (λ t n, term_cost t + n) 0 terms) u64_max.
Proof.
  revert cost. induction terms as [|t terms IH]; intros cost Hc Ht; cbn.
  - unfold is_u64, u64_max in *. lia.
  - apply Forall_cons_iff in Ht as [Hw Ht].
    destruct (predicateCost_eq (term_Predicate t) _ Hw) as (E & Hu & H1).
    assert (0 ≤ foldr (λ t n, term_cost t + n) 0 terms) as Hpos.
    { clear -Ht. induction terms as [|t terms IH]; cbn; [lia|]. apply Forall_cons_iff in Ht as [Hw Ht].
      destruct (predicateCost_eq (term_Predicate t) _ Hw) as (_ & _ & ?). specialize (IH Ht).
      assert (1 ≤ term_cost t) by done. lia. }
    rewrite saturatingAdd_min, E by done. rewrite IH; [unfold term_cost, u64_max, is_u64 in *; lia| |done].
    rewrite E in Hu. unfold is_u64, u64_max in *. lia.
Qed.

Lemma RuleCost_eq d :
  windows_ok d → WatchesEvents d = false → RuleCost d = Z.min (total_cost d) u64_max.
Proof.
  intros [Hw Ht] He. unfold RuleCost, total_cost. rewrite He.
  destruct (predicateCost_eq (Predicate d) _ Hw) as (E & Hu & _).
  rewrite fold_cost by done. by rewrite E.
Qed.

Lemma RuleCost_nonneg d : 0 ≤ RuleCost d.
Proof.
  unfold RuleCost. destruct (WatchesEvents d); [lia|].
  assert (∀ p w, 0 ≤ predicateCost p w) as Hp.
  { intros p w. unfold predicateCost. case_bool_decide; [lia|]. apply u64_range. }
  generalize (Hp (Predicate d) (df_WindowSecs d)). generalize (predicateCost (Predicate d) (df_WindowSecs d)).
  induction (df_All d) as [|t terms IH]; cbn; [done|]. intros c Hc. apply IH.
  unfold saturatingAdd. case_bool_decide; [apply u64_range|lia].
Qed.

(** *** The loader's invariant: the definitions read so far *)

Section load_lemmas.
Context (parse : bytes → option (list Definition_)) (Digest : Definition_ → option bytes)
  (lock : option (gmap bytes bytes)).

Definition locked (d : Definition_) : Prop :=
  ∀ m want, lock = Some m → m !! def_Key d = Some want → Digest d = Some want.

Definition accepted (d : Definition_) : Prop :=
  validateDefinition d = Ok tt ∧ RuleCost d ≤ MaxRuleCost ∧ locked d.

Definition sum_cost (ds : list Definition_) : Z := foldr (λ d n, RuleCost d + n) 0 ds.

Record loaded (ds : list Definition_) (s : load_state) : Prop := {
  lo_accepted : Forall accepted ds;
  lo_ids : NoDup (df_ID <$> ds);
  lo_order : ct_order (ld_cat s) = df_ID <$> ds;
  lo_byID : ∀ id d, ct_byID (ld_cat s) !! id = Some d ↔ d ∈ ds ∧ df_ID d = id;
  lo_total : ld_total s = sum_cost ds;
}.

Lemma sum_cost_app ds ds' : sum_cost (ds ++ ds') = sum_cost ds + sum_cost ds'.
Proof. induction ds as [|d ds IH]; cbn; [done|]. unfold sum_cost in *. lia. Qed.

Lemma sum_cost_bound ds :
  Forall accepted ds → 0 ≤ sum_cost ds ≤ MaxRuleCost * Z.of_nat (length ds).
Proof.
  induction 1 as [|d ds (_ & Hc & _) _ IH]; cbn [sum_cost foldr length]; [unfold MaxRuleCost; lia|].
  pose proof (RuleCost_nonneg d). unfold MaxRuleCost, sum_cost in *. lia.
Qed.

Lemma checkLock_Ok d : checkLock Digest d lock = Ok tt → locked d.
Proof.
  unfold checkLock, locked. intros H m want -> Hw. rewrite Hw in H.
  destruct (Digest d) as [got|]; [|done]. case_bool_decide; [done|]. by f_equal.
Qed.

Lemma load_one_loaded ds s i d s' :
  loaded ds s → Z.of_nat (length ds) < 2 ^ 50 → load_one Digest lock i d s = Ok s' →
  loaded (ds ++ [d]) s'.
Proof.
  intros [Ha Hids Ho Hb Ht] Hlen. unfold load_one.
  destruct (validateDefinition d) as [[]|] eqn:Ev; [|done]. case_bool_decide; [done|].
  destruct (ct_byID (ld_cat s) !! df_ID d) eqn:Ei; [done|].
  destruct (checkLock Digest d lock) as [[]|] eqn:El; [cbn|done]. case_bool_decide as Hc; [done|].
  assert (accepted d) as Hacc by (split_and!; [done|lia|by apply checkLock_Ok]).
  assert (df_ID d ∉ df_ID <$> ds) as Hnew.
  { intros (x & Hx & Hin)%list_elem_of_fmap.
    assert (ct_byID (ld_cat s) !! df_ID d = Some x) by (by apply Hb). congruence. }
  intros [= <-]. constructor; cbn.
  - apply Forall_app. split; [done|]. by apply Forall_singleton.
  - rewrite fmap_app. apply NoDup_app. split_and!; [done| |apply NoDup_singleton].
    intros x Hx ->%list_elem_of_singleton. done.
  - by rewrite Ho, fmap_app.
  - intros id x. rewrite lookup_insert_Some, Hb, elem_of_app, list_elem_of_singleton. split.
    + intros [[<- <-]|[? [? ?]]]; auto.
    + intros [[Hx| ->] <-]; [|auto]. right. split; [|auto]. intros Heq. apply Hnew.
      rewrite Heq. apply list_elem_of_fmap. eauto.
  - rewrite Ht, sum_cost_app. cbn. pose proof (sum_cost_bound ds Ha). pose proof (RuleCost_nonneg d).
    unfold MaxRuleCost in *. rewrite u64_pred by lia. lia.
Qed.

Lemma load_all_loaded ds' ds s i s' :
  loaded ds s → Z.of_nat (length ds + length ds') < 2 ^ 50 →
  load_all Digest lock i ds' s = Ok s' → loaded (ds ++ ds') s'.
Proof.
  revert ds s i. induction ds' as [|d ds' IH]; intros ds s i Hl Hlen; cbn.
  - intros [= <-]. by rewrite app_nil_r.
  - cbn in Hlen. destruct (load_one Digest lock i d s) as [s1|] eqn:E; cbn; [|done]. intros H.
    replace (ds ++ d :: ds') with ((ds ++ [d]) ++ ds') by by rewrite <- (assoc_L (++)).
    eapply IH; [eapply load_one_loaded; [done|lia|done]| |done]. rewrite length_app. cbn. lia.
Qed.

Lemma loaded_init : loaded [] (mk_load (mk_catalogue ∅ []) ∅ 0).
Proof.
  constructor; cbn; try done; [constructor|]. intros id d. rewrite lookup_empty. split; [done|].
  by intros [?%elem_of_nil _].
Qed.
End load_lemmas.

Lemma omap_lookup_order (m : gmap bytes Definition_) (ds : list Definition_) :
  (∀ d, d ∈ ds → m !! df_ID d = Some d) → omap (m !!.) (df_ID <$> ds) = ds.
Proof.
  induction ds as [|d ds IH]; intros H; cbn; [done|].
  rewrite (H d) by by left. f_equal. apply IH. intros x Hx. apply H. by right.
Qed.

(** ** Claims *)

(** A pack that loads is sound.  Every definition parsed is valid, unique
    by id, unchanged from its lock line and within its own budget; the pack as a
    whole is within the per-agent budget; lookup finds exactly those definitions
    and [All] lists each once, ordered by id. *)
Theorem LoadCatalogue_sound parse Digest data lock cat defs :
  parse data = Some defs → Z.of_nat (length defs) < 2 ^ 50 →
  LoadCatalogue parse Digest data lock = Ok cat →
  Forall (accepted Digest lock) defs ∧ NoDup (df_ID <$> defs) ∧
  sum_cost defs ≤ MaxCatalogueCost ∧
  (∀ id d, Lookup cat id = Some d ↔ d ∈ defs ∧ df_ID d = id) ∧
  All cat ≡ₚ defs ∧ StronglySorted (not_after string_lt) (df_ID <$> All cat).
Proof.
  intros Hp Hlen. unfold LoadCatalogue, parseDefinitions. rewrite Hp.
  destruct defs as [|d0 defs0]; [done|]. set (defs := d0 :: defs0) in *. cbn [mbind result_bind].
  destruct (load_all Digest lock 0 defs _) as [s|] eqn:E; [|done]. cbn [mbind result_bind].
  case_bool_decide as Hc; [done|]. intros [= <-].
  destruct (load_all_loaded Digest lock defs [] _ 0 s (loaded_init Digest lock)
    ltac:(cbn [length Nat.add]; done) E) as [Ha Hids Ho Hb Ht]. cbn [app] in *.
  rewrite Ho. set (m := ct_byID (ld_cat s)) in *.
  assert (∀ d, d ∈ defs → m !! df_ID d = Some d) as Hm by (intros d Hd; by apply Hb).
  assert (∃ ds, ds ≡ₚ defs ∧ sort_Strings (df_ID <$> defs) = df_ID <$> ds) as (ds & Hds & Es).
  { pose proof (stable_sort_Permutation string_lt (df_ID <$> defs)) as Hperm.
    apply Permutation_map_inv in Hperm as (ds & E1 & E2). exists ds. split; [by symmetry|exact E1]. }
  assert (All (mk_catalogue m (sort_Strings (df_ID <$> defs))) = ds) as Hall.
  { unfold All. cbn [ct_byID ct_order]. rewrite Es. apply omap_lookup_order. intros d Hd. apply Hm. by rewrite <- Hds. }
  split_and!; auto.
  - rewrite <- Ht. lia.
  - by rewrite Hall.
  - rewrite Hall, <- Es. apply stable_sort_sorted. apply _.
Qed.

(** A rule's cost is the readings it asks an agent to hold, exactly, or the
    largest uint64 where they overflow: an overflowing sum never passes for a
    cheap rule. *)
Theorem RuleCost_exact d :
  windows_ok d → WatchesEvents d = false →
  RuleCost d = Z.min (total_cost d) u64_max ∧ (RuleCost d ≤ MaxRuleCost ↔ total_cost d ≤ MaxRuleCost).
Proof.
  intros Hw He. rewrite RuleCost_eq by done. split; [done|]. unfold u64_max, MaxRuleCost. lia.
Qed.

(** ** Witnesses *)

Definition sample_def : Definition_ :=
  mk_def (lit "cpu-high") 1 [] (lit "warning") (lit "busy") (lit "cpu.total") (lit "gt")
    (f_of_Z 90) (f_of_Z 80) 60 [] 0
    [mk_term (lit "mem.used") (lit "gte") (f_of_Z 50) (f_of_Z 40) (lit "WindowMax") 300]
    [lit "device"] 600 [lit "vitals"] [lit "cpu.total"]
    {[ lit "threshold" := mk_bounds (f_of_Z 50) (f_of_Z 100) ]}.

Lemma LoadCatalogue_sound_witness :
  ∃ cat, LoadCatalogue (λ _, Some [sample_def]) (λ _, None) [] None = Ok cat ∧
         All cat ≡ₚ [sample_def].
Proof.
  assert (is_ok (LoadCatalogue (λ _, Some [sample_def]) (λ _, None) [] None) = true) as Hok by (by vm_compute).
  destruct (LoadCatalogue (λ _, Some [sample_def]) (λ _, None) [] None) as [cat|] eqn:E; [|discriminate Hok].
  exists cat. split; [reflexivity|].
  apply (LoadCatalogue_sound (λ _, Some [sample_def]) (λ _, None) [] None cat [sample_def]);
    [reflexivity|cbn; lia|exact E].
Defined.

Lemma RuleCost_exact_witness : RuleCost sample_def = 302.
Proof.
  refine (eq_trans (proj1 (RuleCost_exact sample_def _ _)) _); [|reflexivity|reflexivity].
  split; [unfold is_u32; cbn; lia|]. apply Forall_singleton. unfold is_u32; cbn; lia.
Defined.
