(* ===== verification/RuleResolve.v ===== *)
(** * Customer tuning of rules

    [src/server/internal/rules/binding.go], [resolve.go], [clamp.go], the label
    checks of [tags.go] and [DescribeSelector] of [postgres_tags.go]: which
    bindings apply to a machine, in which order they speak, and the rule they
    put on the wire.  Go maps are [gmap]s; the order a loop over one runs in
    never shows in these functions. *)
From S2P Require Import Prelude Float Sorting Codec Control Settings Rules.
#[local] Open Scope Z_scope.

Definition maxSelectorTags : Z := 8.
Definition maxSelectorKeyLen : Z := 64.
Definition maxSelectorValueLen : Z := 128.
Definition maxBindingParams : Z := 8.

Definition Selector : Type := gmap bytes bytes.

Definition IsEmpty (s : Selector) : bool := bool_decide (s = ∅).

(** A tag the machine lacks reads as the empty string. *)
Definition Matches (s : Selector) (tags : gmap bytes bytes) : bool :=
  forallb (λ kv, bool_decide (default [] (tags !! kv.1) = kv.2)) (map_to_list s).

Inductive binding_err :=
  | ErrInvalidSelector | ErrRuleMismatch | ErrInvalidLevel
  | ErrParamNotTunable | ErrParamOutOfBounds | ErrUnknownRule | ErrInvalidLabel.

#[global] Instance binding_err_eq_dec : EqDecision binding_err.
Proof. solve_decision. Defined.

Definition Selector_Validate (s : Selector) : result binding_err unit :=
  if bool_decide (maxSelectorTags < Z.of_nat (size s)) then Err ErrInvalidSelector
  else if forallb (λ kv, negb (bool_decide (kv.1 = [])) &&
                         bool_decide (blen kv.1 ≤ maxSelectorKeyLen) &&
                         bool_decide (blen kv.2 ≤ maxSelectorValueLen)) (map_to_list s)
  then Ok tt else Err ErrInvalidSelector.

Record Label := mk_label {
  lb_ID : uuid;
  lb_OrganizationID : uuid;
  lb_Key : bytes;
  lb_Value : bytes;
  lb_CreatedBy : bytes;
}.

Definition Label_Selector (l : Label) : Selector := {[ lb_Key l := lb_Value l ]}.

Definition ValidateLabel (l : Label) : result binding_err unit :=
  if bool_decide (lb_OrganizationID l = Nil) then Err ErrInvalidLabel
  else if bool_decide (lb_Key l = []) then Err ErrInvalidLabel
  else if bool_decide (maxSelectorKeyLen < blen (lb_Key l)) then Err ErrInvalidLabel
  else if bool_decide (lb_Value l = []) then Err ErrInvalidLabel
  else if bool_decide (maxSelectorValueLen < blen (lb_Value l)) then Err ErrInvalidLabel
  else Ok tt.

Record Binding := mk_binding {
  bi_ID : uuid;
  bi_OrganizationID : uuid;
  bi_RuleID : bytes;
  bi_Level : Level;
  bi_LevelKey : uuid;
  bi_Selector : Selector;
  bi_Precedence : Z;
  bi_Params : gmap bytes float64;
  bi_UpdatedBy : bytes;
}.

Record Device := mk_device {
  dv_Scope : Scope;
  dv_Tags : gmap bytes bytes;
  dv_FleetSize : Z;
}.

Definition storableLevel (level : Level) : bool :=
  match level with
  | LevelDevice | LevelSite | LevelOrganization | LevelTenant => true
  | LevelShipped => false
  end.

Definition sortedParamNames (params : gmap bytes float64) : list bytes := sorted_keys params.

(** The loop over the sorted names of [ValidateBinding]. *)
Fixpoint check_params (def : Definition_) (params : gmap bytes float64) (names : list bytes) :
    result binding_err unit :=
  match names with
  | [] => Ok tt
  | name :: names =>
      match df_Tunable def !! name with
      | None => Err ErrParamNotTunable
      | Some bounds =>
          if Contains bounds (default f_zero (params !! name)) then check_params def params names
          else Err ErrParamOutOfBounds
      end
  end.

Definition ValidateBinding (def : Definition_) (b : Binding) : result binding_err unit :=
  if bool_decide (bi_RuleID b ≠ df_ID def) then Err ErrRuleMismatch
  else if negb (storableLevel (bi_Level b)) then Err ErrInvalidLevel
  else
    _ ← Selector_Validate (bi_Selector b);
    if bool_decide (maxBindingParams < Z.of_nat (size (bi_Params b))) then Err ErrParamNotTunable
    else check_params def (bi_Params b) (sortedParamNames (bi_Params b)).

Definition ValidateBindingAgainst (lookup : bytes → option Definition_) (b : Binding) :
    result binding_err unit :=
  match lookup (bi_RuleID b) with
  | None => Err ErrUnknownRule
  | Some def => ValidateBinding def b
  end.

(** ** Which bindings speak, and in which order *)

Definition applies (def : Definition_) (device : Device) (b : Binding) : bool :=
  if bool_decide (bi_RuleID b ≠ df_ID def ∨
                  bi_OrganizationID b ≠ sc_OrganizationID (dv_Scope device)) then false
  else if negb (storableLevel (bi_Level b)) then false
  else
    let '(key, present) := Key (dv_Scope device) (bi_Level b) in
    if negb present || bool_decide (key ≠ bi_LevelKey b) then false
    else Matches (bi_Selector b) (dv_Tags device).

Definition speaksFirst (a b : Binding) : bool :=
  if bool_decide (bi_Level a ≠ bi_Level b)
  then level_index (bi_Level a) <? level_index (bi_Level b)
  else if negb (Bool.eqb (IsEmpty (bi_Selector a)) (IsEmpty (bi_Selector b)))
  then negb (IsEmpty (bi_Selector a))
  else if bool_decide (bi_Precedence a ≠ bi_Precedence b)
  then bi_Precedence b <? bi_Precedence a
  else string_lt (uuid_String (bi_ID a)) (uuid_String (bi_ID b)).

Definition applicableBindings (def : Definition_) (device : Device) (bindings : list Binding) :
    list Binding :=
  stable_sort speaksFirst (filter (λ b, applies def device b = true) bindings).

(** The first value each rung offers for [name]. *)
Fixpoint paramOverrides (name : bytes) (device : Device) (seen : list Level)
    (applicable : list Binding) : list (Override float64) :=
  match applicable with
  | [] => []
  | b :: rest =>
      match bi_Params b !! name with
      | None => paramOverrides name device seen rest
      | Some value =>
          if bool_decide (bi_Level b ∈ seen) then paramOverrides name device seen rest
          else
            let '(key, present) := Key (dv_Scope device) (bi_Level b) in
            if present
            then mk_override (bi_Level b) key value ::
                 paramOverrides name device (bi_Level b :: seen) rest
            else paramOverrides name device seen rest
      end
  end.

Definition Nearest (b : Bounds) (v : float64) : float64 * bool :=
  if f_lt v (bd_Min b) then (bd_Min b, true)
  else if f_lt (bd_Max b) v then (bd_Max b, true)
  else (v, false).

(** [Resolve]'s closure [value]. *)
Definition param_value (def : Definition_) (device : Device) (bindings : list Binding)
    (name : bytes) : float64 :=
  let applicable := applicableBindings def device bindings in
  let shipped := default f_zero (ShippedParam def name) in
  match df_Tunable def !! name with
  | None => shipped
  | Some bounds =>
      let overrides := paramOverrides name device [] applicable in
      let resolved := (Settings.Resolve (dv_Scope device) overrides shipped NarrowestWins).1 in
      (Nearest bounds resolved).1
  end.

Definition canonical_or_same (metric : bytes) : bytes := default metric (CanonicalRuleMetric metric).

Definition wireVersion (version : Z) : Z :=
  if bool_decide (version < minRuleVersion ∨ maxRuleVersion < version) then 0 else u32 version.

Definition wireTerms (terms : list Term) : list RuleTerm :=
  (λ t, mk_rt (canonical_or_same (tm_Metric t)) (term_Comparator t) (tm_Threshold t) (tm_Clear t)
          (term_Predicate t) (tm_WindowSecs t)) <$> terms.

Section resolve_rule.
(** What [uint32(f)] leaves for a float outside its range. *)
Context (conv_other : float64 → Z).

Definition Resolve (def : Definition_) (device : Device) (bindings : list Binding) : ThresholdRule :=
  let value := param_value def device bindings in
  mk_tr (df_ID def) (wireVersion (df_Version def)) (WireSeverity def)
    (canonical_or_same (df_Metric def)) (Comparator def)
    (value (lit "threshold")) (value (lit "clear"))
    (f_to_u32 conv_other (value (lit "sustain_secs"))) (Predicate def)
    (f_to_u32 conv_other (value (lit "window_secs"))) (wireTerms (df_All def)).
End resolve_rule.

Fixpoint join (sep : bytes) (parts : list bytes) : bytes :=
  match parts with
  | [] => []
  | [p] => p
  | p :: parts => p ++ sep ++ join sep parts
  end.

Definition DescribeSelector (s : Selector) : bytes :=
  if IsEmpty s then []
  else join (lit ", ") ((λ key, key ++ lit "=" ++ default [] (s !! key)) <$> sorted_keys s).

Definition levelWord (level : Level) : bytes :=
  match level with
  | LevelDevice => lit "host"
  | LevelSite => lit "site"
  | LevelOrganization => lit "customer"
  | LevelTenant => lit "platform"
  | LevelShipped => lit "shipped default"
  end.

Definition describeBinding (b : Binding) : bytes :=
  let where_ := if bool_decide (bi_Level b = LevelDevice) then lit "set on this host"
                else lit "set on this host's " ++ levelWord (bi_Level b) in
  if IsEmpty (bi_Selector b) then where_
  else where_ ++ lit ", for hosts labelled " ++ DescribeSelector (bi_Selector b).

Definition sets (name : bytes) (b : Binding) : bool := bool_decide (is_Some (bi_Params b !! name)).

Definition DecidedBy (def : Definition_) (device : Device) (bindings : list Binding) (name : bytes) :
    Level * bytes :=
  match df_Tunable def !! name with
  | None => (LevelShipped, lit "the value the rule ships")
  | Some _ =>
      match List.find (sets name) (applicableBindings def device bindings) with
      | Some b => (bi_Level b, describeBinding b)
      | None => (LevelShipped, lit "the value the rule ships")
      end
  end.

(** ** Clamping to a narrower version *)

Record Clamp := mk_clamp {
  cl_ID : uuid;
  cl_OrganizationID : uuid;
  cl_BindingID : uuid;
  cl_RuleID : bytes;
  cl_RuleVersion : Z;
  cl_Param : bytes;
  cl_From : float64;
  cl_To : float64;
  cl_ClampedAt : Z;
  cl_AcknowledgedAt : Z;
  cl_AcknowledgedBy : bytes;
}.

(** The zero [time.Time]. *)
Definition zero_time : Z := 0.

Definition Outstanding (c : Clamp) : bool := bool_decide (cl_AcknowledgedAt c = zero_time).

Section clamp.
(** [uuid.New] for the record of this binding and parameter. *)
Context (New : uuid → bytes → uuid).

Definition clampOf (def : Definition_) (b : Binding) (param : bytes) (from to : float64) : Clamp :=
  mk_clamp (New (bi_ID b) param) (bi_OrganizationID b) (bi_ID b) (df_ID def) (df_Version def)
    param from to zero_time zero_time [].

Definition with_params (b : Binding) (params : gmap bytes float64) : Binding :=
  mk_binding (bi_ID b) (bi_OrganizationID b) (bi_RuleID b) (bi_Level b) (bi_LevelKey b)
    (bi_Selector b) (bi_Precedence b) params (bi_UpdatedBy b).

Fixpoint clamp_params (def : Definition_) (b : Binding) (names : list bytes)
    (params : gmap bytes float64) (moves : list Clamp) : gmap bytes float64 * list Clamp :=
  match names with
  | [] => (params, moves)
  | name :: names =>
      let value := default f_zero (bi_Params b !! name) in
      match df_Tunable def !! name with
      | None =>
          clamp_params def b names params
            (moves ++ [clampOf def b name value (default f_zero (ShippedParam def name))])
      | Some bounds =>
          let '(nearest, moved) := Nearest bounds value in
          clamp_params def b names (<[name := nearest]> params)
            (if moved then moves ++ [clampOf def b name value nearest] else moves)
      end
  end.

Definition ClampBinding (def : Definition_) (b : Binding) : Binding * list Clamp :=
  if bool_decide (bi_Params b = ∅) then (b, [])
  else
    let '(params, moves) := clamp_params def b (sortedParamNames (bi_Params b)) ∅ [] in
    (with_params b params, moves).

Definition ClampBindings (lookup : bytes → option Definition_) (bindings : list Binding) : list Clamp :=
  bindings ≫= λ b, match lookup (bi_RuleID b) with
                   | None => []
                   | Some def => (ClampBinding def b).2
                   end.
End clamp.

(** ** Lemmas *)

(** *** The order bindings speak in *)

(** The order as a key: rung, targeted before blanket, precedence, id. *)
Definition speak_key (b : Binding) : Z * Z * Z * bytes :=
  (level_index (bi_Level b), if IsEmpty (bi_Selector b) then 1 else 0, - bi_Precedence b,
   uuid_String (bi_ID b)).

Definition key_lt (a b : Z * Z * Z * bytes) : bool :=
  let '(a1, a2, a3, a4) := a in
  let '(b1, b2, b3, b4) := b in
  if bool_decide (a1 ≠ b1) then a1 <? b1
  else if bool_decide (a2 ≠ b2) then a2 <? b2
  else if bool_decide (a3 ≠ b3) then a3 <? b3
  else string_lt a4 b4.

Ltac key_cases :=
  repeat case_bool_decide;
  repeat match goal with H : ¬ _ ≠ _ |- _ => apply dec_stable in H end;
  simplify_eq; rewrite ?Z.ltb_lt; try done; try lia.

Lemma level_index_inj a b : level_index a = level_index b → a = b.
Proof. destruct a, b; cbn; intros; try done; lia. Qed.

Lemma speaksFirst_key a b : speaksFirst a b = key_lt (speak_key a) (speak_key b).
Proof.
  unfold speaksFirst, key_lt, speak_key.
  assert (bool_decide (bi_Level a ≠ bi_Level b) =
          bool_decide (level_index (bi_Level a) ≠ level_index (bi_Level b))) as ->.
  { apply bool_decide_ext. split; intros H E; apply H; [by apply level_index_inj | by rewrite E]. }
  case_bool_decide; [done|]. destruct (IsEmpty (bi_Selector a)), (IsEmpty (bi_Selector b)); cbn; try done;
    repeat case_bool_decide; try lia; try done;
    destruct (Z.ltb_spec (bi_Precedence b) (bi_Precedence a)),
      (Z.ltb_spec (- bi_Precedence a) (- bi_Precedence b)); (lia || done).
Qed.

Lemma key_lt_total a b : key_lt a b = false → key_lt b a = false → a = b.
Proof.
  destruct a as [[[a1 a2] a3] a4], b as [[[b1 b2] b3] b4]. unfold key_lt.
  key_cases; rewrite ?Z.ltb_ge; try lia. intros. f_equal. by apply string_lt_total.
Qed.

Lemma key_lt_cases a b : {key_lt a b = true} + {a = b} + {key_lt b a = true}.
Proof.
  destruct (key_lt a b) eqn:E1; [by left; left|]. destruct (key_lt b a) eqn:E2; [by right|].
  left; right. by apply key_lt_total.
Qed.

Lemma key_lt_trans a b c : key_lt a b = true → key_lt b c = true → key_lt a c = true.
Proof.
  destruct a as [[[a1 a2] a3] a4], b as [[[b1 b2] b3] b4], c as [[[c1 c2] c3] c4]. unfold key_lt.
  key_cases. apply string_lt_trans.
Qed.

Lemma key_lt_irrefl a : key_lt a a = false.
Proof. destruct a as [[[a1 a2] a3] a4]. unfold key_lt. rewrite !bool_decide_false by auto. apply string_lt_irrefl. Qed.

#[global] Instance speaksFirst_weak : StrictWeak speaksFirst.
Proof.
  constructor.
  - intros a b. rewrite !speaksFirst_key. intros H.
    destruct (key_lt (speak_key b) (speak_key a)) eqn:E; [|done].
    pose proof (key_lt_trans _ _ _ H E) as Hi. by rewrite key_lt_irrefl in Hi.
  - unfold not_after. intros a b c. rewrite !speaksFirst_key. intros Hab Hbc.
    destruct (key_lt (speak_key c) (speak_key a)) eqn:E; [|done].
    destruct (key_lt_cases (speak_key b) (speak_key a)) as [[H|H]|H]; [congruence| |].
    + rewrite H in Hbc. congruence.
    + pose proof (key_lt_trans _ _ _ E H). congruence.
Qed.

Lemma uuid_String_inj a b : length a = 16%nat → length b = 16%nat → uuid_String a = uuid_String b → a = b.
Proof.
  intros Ha Hb. unfold uuid_String.
  pose proof (hex_encode_length a) as La. pose proof (hex_encode_length b) as Lb.
  rewrite Ha in La. rewrite Hb in Lb. intros E. apply hex_encode_inj. revert La Lb E.
  generalize (hex_encode a), (hex_encode b). clear. intros h k Lh Lk E.
  apply app_inj_1 in E as [E1 E]; [|rewrite !length_take; lia]. apply app_inv_head in E.
  apply app_inj_1 in E as [E2 E]; [|rewrite !length_take, !length_drop; lia]. apply app_inv_head in E.
  apply app_inj_1 in E as [E3 E]; [|rewrite !length_take, !length_drop; lia]. apply app_inv_head in E.
  apply app_inj_1 in E as [E4 E]; [|rewrite !length_take, !length_drop; lia]. apply app_inv_head in E.
  rewrite <-(take_drop 8 h), <-(take_drop 8 k), E1. f_equal.
  rewrite <-(take_drop 4 (drop 8 h)), <-(take_drop 4 (drop 8 k)), E2, !drop_drop. f_equal. cbn [Nat.add].
  rewrite <-(take_drop 4 (drop 12 h)), <-(take_drop 4 (drop 12 k)), !drop_drop. f_equal; [done|]. cbn [Nat.add].
  rewrite <-(take_drop 4 (drop 16 h)), <-(take_drop 4 (drop 16 k)), !drop_drop. by f_equal; [|cbn [Nat.add]].
Qed.

(** No two bindings share an id, and ids are 16 bytes. *)
Definition distinct_ids (bs : list Binding) : Prop :=
  NoDup (bi_ID <$> bs) ∧ Forall (λ b, length (bi_ID b) = 16%nat) bs.

Lemma distinct_ids_inj bs a b : distinct_ids bs → a ∈ bs → b ∈ bs → bi_ID a = bi_ID b → a = b.
Proof.
  intros [Hnd _] Ha Hb E. apply list_elem_of_lookup in Ha as [i Hi]. apply list_elem_of_lookup in Hb as [j Hj].
  assert (i = j) as <-; [|congruence].
  eapply NoDup_lookup; [exact Hnd|by rewrite list_lookup_fmap, Hi|].
  rewrite list_lookup_fmap, Hj. cbn. by rewrite E.
Qed.

Lemma speak_sort_unique l k : distinct_ids l → l ≡ₚ k → stable_sort speaksFirst l = stable_sort speaksFirst k.
Proof.
  intros Hd. apply stable_sort_unique; [apply _|]. intros a b Ha Hb. unfold not_after.
  rewrite !speaksFirst_key. intros Hab Hba. eapply distinct_ids_inj; [done..|].
  pose proof (proj1 (Forall_forall _ _) (proj2 Hd)) as Hl.
  destruct (key_lt_cases (speak_key a) (speak_key b)) as [[H|H]|H]; [congruence| |congruence].
  apply uuid_String_inj; [auto..|]. by injection H.
Qed.

(** *** The first to speak decides *)

Lemma not_after_level a b : not_after speaksFirst a b → level_index (bi_Level a) ≤ level_index (bi_Level b).
Proof.
  unfold not_after. rewrite speaksFirst_key. unfold key_lt, speak_key.
  case_bool_decide as E; [rewrite Z.ltb_ge; done|]. lia.
Qed.

Lemma paramOverrides_elem name device seen l o :
  o ∈ paramOverrides name device seen l →
  (ov_Level o ∉ seen) ∧
  ∃ b, b ∈ l ∧ bi_Level b = ov_Level o ∧ bi_Params b !! name = Some (ov_Value o).
Proof.
  revert seen. induction l as [|b l IH]; cbn; intros seen Ho; [by apply not_elem_of_nil in Ho|].
  destruct (bi_Params b !! name) as [v|] eqn:Ev;
    [|destruct (IH _ Ho) as (? & b' & ? & ?); split; [done|]; exists b'; split; [by right|done]].
  case_bool_decide as Hs; [|destruct (Key (dv_Scope device) (bi_Level b)) as [key []] eqn:Ek];
    try (destruct (IH _ Ho) as (? & b' & ? & ?); split; [done|]; exists b'; split; [by right|done]).
  apply elem_of_cons in Ho as [->|Ho]; cbn.
  - split; [done|]. exists b. split; [by left|done].
  - destruct (IH _ Ho) as (Hn & b' & ? & ?). apply not_elem_of_cons in Hn as [_ Hn].
    split; [done|]. exists b'. split; [by right|done].
Qed.

Lemma paramOverrides_skip name device seen before l :
  (∀ b, b ∈ before → sets name b = false) →
  paramOverrides name device seen (before ++ l) = paramOverrides name device seen l.
Proof.
  induction before as [|b before IH]; cbn; intros H; [done|].
  assert (sets name b = false) as Hb by (apply H; by left).
  unfold sets in Hb. apply bool_decide_eq_false, eq_None_not_Some in Hb. rewrite Hb.
  apply IH. intros b' Hb'. apply H. by right.
Qed.

(** An override on the machine's own rung, narrower than every other, wins. *)
Lemma Resolve_head (scope : Scope) (o : Override float64) os shipped :
  own scope o = true →
  (∀ o', o' ∈ os → ov_Level o' ≠ ov_Level o ∧ level_index (ov_Level o) ≤ level_index (ov_Level o')) →
  Settings.Resolve scope (o :: os) shipped NarrowestWins = (ov_Value o, ov_Level o).
Proof.
  intros Hown Hos. destruct (Settings.Resolve scope (o :: os) shipped NarrowestWins) as [v level] eqn:E.
  apply Resolve_spec in E as [(o' & b & a & E & Ho' & <- & <- & _ & Hn)|(_ & _ & Hn)].
  - assert (o' ∈ o :: os) as [->|Hin]%elem_of_cons; [|done|].
    { rewrite E. apply elem_of_app. right. by left. }
    exfalso. destruct (Hos o' Hin) as [Hne Hle]. apply (Hn o); [by left|done|].
    cbn. destruct (decide (level_index (ov_Level o) = level_index (ov_Level o'))) as [Ei|]; [|lia].
    by apply level_index_inj in Ei.
  - rewrite (Hn o) in Hown; [done|by left].
Qed.

Lemma Resolve_nil (scope : Scope) (shipped : float64) :
  Settings.Resolve scope [] shipped NarrowestWins = (shipped, LevelShipped).
Proof.
  destruct (Settings.Resolve scope [] shipped NarrowestWins) as [v level] eqn:E.
  apply Resolve_spec in E as [(o & b & a & E & _)|(-> & -> & _)]; [by destruct b|done].
Qed.

(** What the applicable list promises: every element applies, narrowest first. *)
Lemma applicable_elem def device bs b :
  b ∈ applicableBindings def device bs ↔ applies def device b = true ∧ b ∈ bs.
Proof. unfold applicableBindings. by rewrite stable_sort_elem, list_elem_of_filter. Qed.

Lemma applies_key def device b : applies def device b = true →
  Key (dv_Scope device) (bi_Level b) = (bi_LevelKey b, true).
Proof.
  unfold applies. case_bool_decide; [done|]. destruct (storableLevel (bi_Level b)); [|done]. cbn.
  destruct (Key _ _) as [key []]; cbn; [|done]. case_bool_decide as E; [done|]. by subst.
Qed.

Definition first_speaker (def : Definition_) (device : Device) (bs : list Binding) (name : bytes) :
    option Binding :=
  List.find (sets name) (applicableBindings def device bs).

Lemma resolve_override def device bs name shipped :
  Settings.Resolve (dv_Scope device) (paramOverrides name device [] (applicableBindings def device bs))
    shipped NarrowestWins =
  match first_speaker def device bs name with
  | Some b => (default f_zero (bi_Params b !! name), bi_Level b)
  | None => (shipped, LevelShipped)
  end.
Proof.
  unfold first_speaker. destruct (List.find _ _) as [b|] eqn:E.
  - apply find_split in E as (before & after & E & Hb & Hbefore). rewrite E.
    rewrite paramOverrides_skip by done. cbn [paramOverrides].
    unfold sets in Hb. apply bool_decide_eq_true in Hb as [v Hv]. rewrite Hv.
    assert (b ∈ applicableBindings def device bs) as Hin by (rewrite E; apply elem_of_app; right; by left).
    apply applicable_elem in Hin as [Happ _]. rewrite bool_decide_false by apply not_elem_of_nil.
    rewrite (applies_key _ _ _ Happ). apply Resolve_head; cbn.
    + unfold own. cbn. rewrite (applies_key _ _ _ Happ). by rewrite bool_decide_true.
    + intros o (Hn & b' & Hb' & Hl & _)%paramOverrides_elem. rewrite <-Hl in *.
      split; [by apply not_elem_of_cons in Hn as [? _]|].
      apply not_after_level. pose proof (stable_sort_sorted speaksFirst
        (filter (λ b, applies def device b = true) bs)) as Hs.
      unfold applicableBindings in E. rewrite E in Hs. apply StronglySorted_app in Hs as (_ & _ & Hs).
      apply StronglySorted_cons in Hs as [Hs _]. by apply (proj1 (Forall_forall _ _) Hs).
  - pose proof (proj1 (find_None _ _) E) as Hn. rewrite <-(app_nil_r (applicableBindings _ _ _)).
    rewrite paramOverrides_skip by done. apply Resolve_nil.
Qed.

Lemma param_value_first def device bs name bounds :
  df_Tunable def !! name = Some bounds →
  param_value def device bs name =
  (Nearest bounds (match first_speaker def device bs name with
                   | Some b => default f_zero (bi_Params b !! name)
                   | None => default f_zero (ShippedParam def name)
                   end)).1.
Proof.
  intros Hb. unfold param_value. rewrite Hb, resolve_override. by destruct (first_speaker _ _ _ _).
Qed.

(** *** Bounds *)

Lemma sorted_keys_elem {A} (m : gmap bytes A) name : name ∈ sorted_keys m ↔ is_Some (m !! name).
Proof.
  unfold sorted_keys, sort_Strings. rewrite stable_sort_elem, list_elem_of_fmap. split.
  - intros ([k v] & -> & Hk). apply elem_of_map_to_list in Hk. by exists v.
  - intros [v Hv]. exists (name, v). split; [done|]. by apply elem_of_map_to_list.
Qed.

Lemma check_each_Ok d names name : check_each d names = Ok tt → name ∈ names → check_tunable d name = Ok tt.
Proof.
  induction names as [|n names IH]; cbn; intros H Hin; [by apply not_elem_of_nil in Hin|].
  destruct (check_tunable d n) as [[]|] eqn:E; [|done]. cbn in H.
  apply elem_of_cons in Hin as [->|Hin]; [done|by apply IH].
Qed.

(** A definition that passes validation ships every tunable value within bounds
    that are in order. *)
Lemma validateDefinition_tunable d name bounds :
  validateDefinition d = Ok tt → df_Tunable d !! name = Some bounds →
  f_lt (bd_Max bounds) (bd_Min bounds) = false ∧
  ∃ shipped, ShippedParam d name = Some shipped ∧ Contains bounds shipped = true.
Proof.
  intros H Hb. unfold validateDefinition in H. cbn in H.
  destruct (validateIdentity d) as [[]|]; [|done]. destruct (validateWhatItWatches d) as [[]|]; [|done].
  destruct (validateGrouping d) as [[]|]; [|done]. cbn in H.
  apply (check_each_Ok _ _ name) in H; [|by apply sorted_keys_elem].
  unfold check_tunable in H. rewrite Hb in H. destruct (ShippedParam d name) as [shipped|]; [|done].
  destruct (f_lt _ _); [done|]. apply check_Ok in H. eauto.
Qed.

Lemma check_params_Ok def params names :
  check_params def params names = Ok tt ↔
  ∀ name, name ∈ names → ∃ bounds, df_Tunable def !! name = Some bounds ∧
    Contains bounds (default f_zero (params !! name)) = true.
Proof.
  induction names as [|n names IH]; cbn.
  { split; [|done]. intros _ name Hn. by apply not_elem_of_nil in Hn. }
  split.
  - destruct (df_Tunable def !! n) as [bounds|] eqn:Eb; [|done]. destruct (Contains _ _) eqn:Ec; [|done].
    intros H name [->|Hin]%elem_of_cons; [eauto|]. by apply IH.
  - intros H. destruct (H n) as (bounds & -> & ->); [by left|]. apply IH. intros. apply H. by right.
Qed.

(** What a stored binding was checked for when it was written. *)
Lemma ValidateBinding_Ok def b :
  ValidateBinding def b = Ok tt ↔
  bi_RuleID b = df_ID def ∧ storableLevel (bi_Level b) = true ∧
  Selector_Validate (bi_Selector b) = Ok tt ∧ Z.of_nat (size (bi_Params b)) ≤ maxBindingParams ∧
  ∀ name v, bi_Params b !! name = Some v →
    ∃ bounds, df_Tunable def !! name = Some bounds ∧ Contains bounds v = true.
Proof.
  unfold ValidateBinding. split.
  - case_bool_decide; [done|]. destruct (storableLevel _); [|done]. cbn.
    destruct (Selector_Validate _) as [[]|]; [|done]. cbn. case_bool_decide; [done|].
    rewrite check_params_Ok. intros Hp. split_and!; auto; [lia|]. intros name v Hv.
    destruct (Hp name) as (bounds & ? & ?); [by apply sorted_keys_elem|]. rewrite Hv in *. eauto.
  - intros (-> & -> & -> & Hs & Hp). rewrite bool_decide_false by auto. cbn.
    rewrite bool_decide_false by lia. apply check_params_Ok. intros name [v Hv]%sorted_keys_elem.
    rewrite Hv. eauto.
Qed.

Lemma Contains_not_nan bounds v : Contains bounds v = true →
  is_nan (bd_Min bounds) = false ∧ is_nan (bd_Max bounds) = false ∧ is_nan v = false.
Proof. unfold Contains. intros [[? ?]%f_le_not_nan [? ?]%f_le_not_nan]%andb_prop. done. Qed.

Lemma Nearest_contains bounds v :
  is_nan (bd_Min bounds) = false → is_nan (bd_Max bounds) = false → is_nan v = false →
  f_lt (bd_Max bounds) (bd_Min bounds) = false → Contains bounds (Nearest bounds v).1 = true.
Proof.
  intros Hmin Hmax Hv Hord. unfold Contains, Nearest.
  destruct (f_lt v (bd_Min bounds)) eqn:E1; [|destruct (f_lt (bd_Max bounds) v) eqn:E2]; cbn;
    apply andb_true_intro; split; (by apply f_le_refl) || by apply f_not_lt.
Qed.

Lemma Nearest_inside bounds v : Contains bounds v = true → Nearest bounds v = (v, false).
Proof.
  unfold Contains, Nearest. intros [H1 H2]%andb_prop. by rewrite !f_lt_not_le.
Qed.

Lemma Nearest_stays bounds v : (Nearest bounds v).2 = false → (Nearest bounds v).1 = v.
Proof. unfold Nearest. by repeat destruct (f_lt _ _). Qed.

Lemma f_lt_irrefl a : f_lt a a = false.
Proof.
  destruct (is_nan a) eqn:E; [by destruct a|]. by apply f_lt_not_le, f_le_refl.
Qed.

Lemma Nearest_idem bounds v :
  f_lt (bd_Max bounds) (bd_Min bounds) = false →
  Nearest bounds (Nearest bounds v).1 = ((Nearest bounds v).1, false).
Proof.
  intros Hord. unfold Nearest.
  destruct (f_lt v (bd_Min bounds)) eqn:E1; [|destruct (f_lt (bd_Max bounds) v) eqn:E2]; cbn;
    by rewrite ?f_lt_irrefl, ?Hord, ?E1, ?E2.
Qed.

(** *** Clamping *)

Section clamp_lemmas.
Context (New : uuid → bytes → uuid) (def : Definition_) (b : Binding).

(** The record a parameter leaves, if it moves. *)
Definition move_of (name : bytes) : option Clamp :=
  let value := default f_zero (bi_Params b !! name) in
  match df_Tunable def !! name with
  | None => Some (clampOf New def b name value (default f_zero (ShippedParam def name)))
  | Some bounds =>
      if (Nearest bounds value).2 then Some (clampOf New def b name value (Nearest bounds value).1)
      else None
  end.

Lemma clamp_params_moves names params moves :
  (clamp_params New def b names params moves).2 = moves ++ omap move_of names.
Proof.
  revert params moves. induction names as [|n names IH]; intros; cbn; [by rewrite app_nil_r|].
  unfold move_of at 1. destruct (df_Tunable def !! n) as [bounds|]; cbn.
  - destruct (Nearest _ _) as [near []]; rewrite IH; [by rewrite <-app_assoc|done].
  - by rewrite IH, <-app_assoc.
Qed.

Lemma clamp_params_lookup names params moves name :
  (clamp_params New def b names params moves).1 !! name =
  if decide (name ∈ names) then
    match df_Tunable def !! name with
    | Some bounds => Some (Nearest bounds (default f_zero (bi_Params b !! name))).1
    | None => params !! name
    end
  else params !! name.
Proof.
  revert params moves. induction names as [|n names IH]; intros; cbn.
  { by rewrite decide_False by apply not_elem_of_nil. }
  destruct (decide (name = n)) as [->|Hne].
  - rewrite (decide_True (P := n ∈ n :: names)) by (by left).
    destruct (df_Tunable def !! n) as [bounds|] eqn:Eb;
      [destruct (Nearest bounds _) as [near moved] eqn:En|]; rewrite IH, ?Eb; cbn;
      rewrite ?En, ?lookup_insert_eq; by destruct (decide (n ∈ names)).
  - rewrite (decide_ext (name ∈ n :: names) (name ∈ names))
      by (rewrite elem_of_cons; intuition congruence).
    destruct (df_Tunable def !! n) as [bounds|]; [destruct (Nearest bounds _)|]; rewrite IH;
      by rewrite ?lookup_insert_ne by done.
Qed.

Lemma ClampBinding_params name :
  bi_Params (ClampBinding New def b).1 !! name =
  bounds ← df_Tunable def !! name; v ← bi_Params b !! name; Some (Nearest bounds v).1.
Proof.
  unfold ClampBinding. case_bool_decide as E.
  { cbn. rewrite E, lookup_empty. by destruct (df_Tunable def !! name). }
  pose proof (clamp_params_lookup (sortedParamNames (bi_Params b)) ∅ [] name) as H.
  destruct (clamp_params _ _ _ _ _ _) as [params moves]. cbn in *. rewrite H, lookup_empty.
  destruct (df_Tunable def !! name) as [bounds|]; cbn; [|by destruct (decide _)].
  destruct (decide _) as [Hin|Hin]; unfold sortedParamNames in Hin; rewrite sorted_keys_elem in Hin.
  - destruct Hin as [v Hv]. by rewrite Hv.
  - apply eq_None_not_Some in Hin. by rewrite Hin.
Qed.

Lemma ClampBinding_moves :
  (ClampBinding New def b).2 = omap move_of (sortedParamNames (bi_Params b)).
Proof.
  unfold ClampBinding. case_bool_decide as E.
  - by rewrite E.
  - pose proof (clamp_params_moves (sortedParamNames (bi_Params b)) ∅ []) as H.
    by destruct (clamp_params _ _ _ _ _ _).
Qed.

(** Everything but the parameters stays. *)
Lemma ClampBinding_with :
  (ClampBinding New def b).1 = with_params b (bi_Params (ClampBinding New def b).1).
Proof.
  unfold ClampBinding. case_bool_decide; [by destruct b|]. by destruct (clamp_params _ _ _ _ _ _).
Qed.
End clamp_lemmas.

(** A selector asking for an empty value covers the machines without the tag. *)
Lemma empty_value_matches_untagged key tags :
  tags !! key = None → Matches ({[ key := [] ]} : gmap bytes bytes) tags = true.
Proof.
  intros H. unfold Matches. apply forallb_forall. intros [k v] Hkv%list_elem_of_In.
  apply (elem_of_map_to_list ({[ key := [] ]} : gmap bytes bytes)), lookup_singleton_Some in Hkv as [<- <-].
  cbn. by rewrite H.
Qed.

(** *** Isolation *)

(** A binding of this rule, in the machine's own organization. *)
Definition own_binding (def : Definition_) (device : Device) (b : Binding) : Prop :=
  bi_RuleID b = df_ID def ∧ bi_OrganizationID b = sc_OrganizationID (dv_Scope device).

#[global] Instance own_binding_dec def device b : Decision (own_binding def device b).
Proof. unfold own_binding. apply _. Defined.

Lemma applies_own def device b : applies def device b = true → own_binding def device b.
Proof. unfold applies. case_bool_decide as E; [done|]. intros _. split; apply dec_stable; tauto. Qed.

Lemma filter_applies_own def device (bs : list Binding) :
  filter (λ b, applies def device b = true) (filter (own_binding def device) bs) =
  filter (λ b, applies def device b = true) bs.
Proof. apply list_filter_filter_l. intros b. apply applies_own. Qed.

Lemma distinct_ids_perm l k : l ≡ₚ k → distinct_ids l → distinct_ids k.
Proof. intros Hp [H1 H2]. split; by rewrite <-Hp. Qed.

Lemma distinct_ids_sublist l k : l `sublist_of` k → distinct_ids k → distinct_ids l.
Proof.
  intros Hs [Hn Hl]. split.
  - eapply sublist_NoDup; [exact Hn|]. by apply fmap_sublist.
  - apply Forall_forall. intros b Hb. apply (proj1 (Forall_forall _ _) Hl). by eapply elem_of_sublist.
Qed.

Lemma applicable_isolated def device bs bs' :
  distinct_ids bs → filter (own_binding def device) bs ≡ₚ filter (own_binding def device) bs' →
  applicableBindings def device bs = applicableBindings def device bs'.
Proof.
  intros Hd Hp. unfold applicableBindings. rewrite <-(filter_applies_own def device bs),
    <-(filter_applies_own def device bs'). apply speak_sort_unique; [|by rewrite Hp].
  do 2 (eapply distinct_ids_sublist; [apply sublist_filter|]). done.
Qed.

(** *** Clamping leaves resolution as it was *)

Section clamp_resolve.
Context (New : uuid → bytes → uuid) (def : Definition_) (device : Device).

Definition clamped (b : Binding) : Binding := (ClampBinding New def b).1.

Lemma clamped_applies b : applies def device (clamped b) = applies def device b.
Proof. unfold clamped. by rewrite ClampBinding_with. Qed.

Lemma clamped_speaks a b : speaksFirst (clamped a) (clamped b) = speaksFirst a b.
Proof. unfold clamped. by rewrite (ClampBinding_with _ _ a), (ClampBinding_with _ _ b). Qed.

Lemma clamped_applicable bs :
  applicableBindings def device (clamped <$> bs) = clamped <$> applicableBindings def device bs.
Proof.
  unfold applicableBindings. induction bs as [|b bs IH]; [done|].
  rewrite fmap_cons, !filter_cons, clamped_applies. destruct (decide _); [|done].
  cbn [stable_sort foldr]. unfold stable_sort in IH. rewrite IH. generalize (foldr (insert_by speaksFirst) [] (filter (λ b, applies def device b = true) bs)) as l.
  induction l as [|x l IHl]; cbn; [done|]. rewrite clamped_speaks.
  destruct (speaksFirst x b); cbn; [|done]. f_equal. exact IHl.
Qed.

Lemma clamped_first_speaker bs name bounds :
  df_Tunable def !! name = Some bounds →
  first_speaker def device (clamped <$> bs) name = clamped <$> first_speaker def device bs name.
Proof.
  intros Hb. unfold first_speaker. rewrite clamped_applicable.
  induction (applicableBindings def device bs) as [|b l IH]; cbn; [done|].
  assert (sets name (clamped b) = sets name b) as ->; [|by destruct (sets name b)].
  unfold sets, clamped. rewrite ClampBinding_params, Hb. cbn. apply bool_decide_ext.
  destruct (bi_Params b !! name); cbn; split; intros; done || by eexists.
Qed.

Lemma clamped_param_value bs name :
  validateDefinition def = Ok tt →
  param_value def device (clamped <$> bs) name = param_value def device bs name.
Proof.
  intros Hv. destruct (df_Tunable def !! name) as [bounds|] eqn:Eb;
    [|unfold param_value; by rewrite Eb].
  destruct (validateDefinition_tunable def name bounds Hv Eb) as [Hord _].
  rewrite !(param_value_first _ _ _ _ bounds) by done.
  rewrite (clamped_first_speaker _ _ bounds) by done.
  destruct (first_speaker def device bs name) as [b|] eqn:E; cbn; [|done].
  unfold clamped. rewrite ClampBinding_params, Eb. cbn.
  apply find_split in E as (? & ? & _ & Hs & _). apply bool_decide_eq_true in Hs as [v Hval].
  rewrite Hval. cbn. by rewrite Nearest_idem.
Qed.
End clamp_resolve.

(** *** A clamped binding is a valid one *)

Section clamp_valid.
Context (New : uuid → bytes → uuid) (def : Definition_) (b : Binding).
Context (Hdef : validateDefinition def = Ok tt).
(** [b] was accepted under an earlier version of the rule. *)
Context (old : Definition_) (Hold : ValidateBinding old b = Ok tt) (Hid : bi_RuleID b = df_ID def).

Lemma clamped_size : (size (bi_Params (ClampBinding New def b).1) ≤ size (bi_Params b))%nat.
Proof.
  rewrite <-!size_dom. apply subseteq_size. intros name. rewrite !elem_of_dom, ClampBinding_params.
  destruct (df_Tunable def !! name), (bi_Params b !! name); cbn; intros []; done || by eexists.
Qed.

Lemma clamped_valid : ValidateBinding def (ClampBinding New def b).1 = Ok tt.
Proof.
  pose proof (proj1 (ValidateBinding_Ok _ _) Hold) as (_ & Hl & Hsel & Hsz & Hp).
  pose proof clamped_size as Hsize. rewrite ValidateBinding_Ok.
  split_and!; [rewrite ClampBinding_with; done..|lia|]. intros name v. rewrite ClampBinding_params.
  destruct (df_Tunable def !! name) as [bounds|] eqn:Eb; [|done].
  destruct (bi_Params b !! name) as [w|] eqn:Ew; cbn; [|done]. intros [= <-]. exists bounds. split; [done|].
  destruct (Hp name w Ew) as (ob & _ & (_ & _ & ?)%Contains_not_nan).
  destruct (validateDefinition_tunable def name bounds Hdef Eb) as (? & s & _ & (? & ? & _)%Contains_not_nan).
  by apply Nearest_contains.
Qed.

Lemma move_of_None name v :
  bi_Params b !! name = Some v →
  (move_of New def b name = None ↔
   ∃ bounds, df_Tunable def !! name = Some bounds ∧ Contains bounds v = true).
Proof.
  intros Hv. pose proof (proj1 (ValidateBinding_Ok _ _) Hold) as (_ & _ & _ & _ & Hp).
  unfold move_of. rewrite Hv. cbn. destruct (df_Tunable def !! name) as [bounds|] eqn:Eb.
  - split; [|intros (? & [= <-] & Hc); by rewrite (Nearest_inside _ _ Hc)].
    destruct (Nearest bounds v).2 eqn:E2; [done|]. intros _. exists bounds. split; [done|].
    rewrite <-(Nearest_stays bounds v E2). destruct (Hp name v Hv) as (ob & _ & (_ & _ & ?)%Contains_not_nan).
    destruct (validateDefinition_tunable def name bounds Hdef Eb) as (? & s & _ & (? & ? & _)%Contains_not_nan).
    by apply Nearest_contains.
  - split; [done|]. by intros (? & ? & _).
Qed.

Lemma clamp_moves_nil : (ClampBinding New def b).2 = [] ↔ ValidateBinding def b = Ok tt.
Proof.
  pose proof (proj1 (ValidateBinding_Ok _ _) Hold) as (_ & Hl & Hsel & Hsz & _).
  rewrite ClampBinding_moves, ValidateBinding_Ok. split.
  - intros Hnil. split_and!; auto. intros name v Hv. apply (move_of_None name v Hv).
    destruct (move_of New def b name) as [c|] eqn:E; [|done].
    assert (c ∈ omap (move_of New def b) (sortedParamNames (bi_Params b))) as Hc.
    { apply list_elem_of_omap. exists name. split; [by apply sorted_keys_elem|done]. }
    rewrite Hnil in Hc. by apply not_elem_of_nil in Hc.
  - intros (_ & _ & _ & _ & Hp).
    destruct (omap _ _) as [|c l] eqn:E; [done|]. exfalso.
    assert (c ∈ omap (move_of New def b) (sortedParamNames (bi_Params b))) as Hc by (rewrite E; by left).
    apply list_elem_of_omap in Hc as (name & [v Hv]%sorted_keys_elem & Hm).
    rewrite (proj2 (move_of_None name v Hv) (Hp name v Hv)) in Hm. done.
Qed.
End clamp_valid.

(** ** Claims *)

(** C19: One customer's tuning never reaches another's machines, and the order
    bindings are read from the store never shows: two stores that hold the same
    bindings of this rule and this organization resolve to the same rule, and
    explain each parameter the same way. *)
Theorem resolve_isolated conv def device bs bs' :
  distinct_ids bs → filter (own_binding def device) bs ≡ₚ filter (own_binding def device) bs' →
  Resolve conv def device bs = Resolve conv def device bs' ∧
  ∀ name, DecidedBy def device bs name = DecidedBy def device bs' name.
Proof.
  intros Hd Hp. pose proof (applicable_isolated def device bs bs' Hd Hp) as E.
  split; [|intros name; unfold DecidedBy; by rewrite E].
  assert (∀ name, param_value def device bs name = param_value def device bs' name) as Hv
    by (intros; unfold param_value; by rewrite E).
  unfold Resolve. by rewrite !Hv.
Qed.

(** A tunable parameter takes the value of the binding that speaks first
    among those that apply to the machine and set it, moved to the nearest value
    the rule allows, and [DecidedBy] names that very binding; the shipped value
    stands, and is named, exactly when no such binding exists. *)
Theorem first_speaker_decides def device bs name bounds :
  df_Tunable def !! name = Some bounds →
  (∃ b v, b ∈ bs ∧ applies def device b = true ∧ bi_Params b !! name = Some v ∧
     (∀ b', b' ∈ bs → applies def device b' = true → is_Some (bi_Params b' !! name) →
            speaksFirst b' b = false) ∧
     param_value def device bs name = (Nearest bounds v).1 ∧
     DecidedBy def device bs name = (bi_Level b, describeBinding b)) ∨
  ((∀ b, b ∈ bs → applies def device b = true → bi_Params b !! name = None) ∧
   param_value def device bs name = (Nearest bounds (default f_zero (ShippedParam def name))).1 ∧
   DecidedBy def device bs name = (LevelShipped, lit "the value the rule ships")).
Proof.
  intros Hb. rewrite (param_value_first _ _ _ _ bounds) by done. unfold DecidedBy. rewrite Hb.
  fold (first_speaker def device bs name). destruct (first_speaker def device bs name) as [b|] eqn:E.
  - left. unfold first_speaker in E. apply find_split in E as (before & after & E & Hs & Hn).
    apply bool_decide_eq_true in Hs as [v Hv]. exists b, v. rewrite Hv.
    assert (b ∈ applicableBindings def device bs) as [? ?]%applicable_elem
      by (rewrite E; apply elem_of_app; right; by left).
    split_and!; auto. intros b' Hb' Ha' Hs'.
    assert (b' ∈ before ++ b :: after) as [Hin|[->|Hin]%elem_of_cons]%elem_of_app
      by (rewrite <-E; by apply applicable_elem).
    + specialize (Hn b' Hin). unfold sets in Hn. by rewrite bool_decide_true in Hn.
    + rewrite speaksFirst_key. apply key_lt_irrefl.
    + pose proof (stable_sort_sorted speaksFirst (filter (λ b, applies def device b = true) bs)) as Hs.
      unfold applicableBindings in E. rewrite E in Hs. apply StronglySorted_app in Hs as (_ & _ & Hs).
      apply StronglySorted_cons in Hs as [Hs _]. by apply (proj1 (Forall_forall _ _) Hs).
  - right. split; [|done]. intros b Hb' Ha. unfold first_speaker in E.
    pose proof (proj1 (find_None _ _) E b (proj2 (applicable_elem _ _ _ _) (conj Ha Hb'))) as Hs.
    by apply bool_decide_eq_false, eq_None_not_Some in Hs.
Qed.

(** No tuning puts a value outside what the rule allows on the wire: for a
    definition that passed validation and bindings each accepted under whatever
    version of the rule was current when they were written, every tunable
    parameter resolves within the present bounds. *)
Theorem resolved_within_bounds def device bs name bounds :
  validateDefinition def = Ok tt →
  (∀ b, b ∈ bs → ∃ old, ValidateBinding old b = Ok tt) →
  df_Tunable def !! name = Some bounds →
  Contains bounds (param_value def device bs name) = true.
Proof.
  intros Hd Hbs Hb. destruct (validateDefinition_tunable def name bounds Hd Hb) as (Hord & shipped & Hs & Hc).
  destruct (Contains_not_nan bounds shipped Hc) as (Hmin & Hmax & Hsn).
  rewrite (param_value_first _ _ _ _ bounds) by done. apply Nearest_contains; try done.
  destruct (first_speaker def device bs name) as [b|] eqn:E; [|by rewrite Hs].
  apply find_split in E as (before & after & E & Hset & _). apply bool_decide_eq_true in Hset as [v Hv].
  assert (b ∈ applicableBindings def device bs) as [_ Hin]%applicable_elem
    by (rewrite E; apply elem_of_app; right; by left).
  destruct (Hbs b Hin) as [old (_ & _ & _ & _ & Hp)%ValidateBinding_Ok].
  destruct (Hp name v Hv) as (ob & _ & Hoc). rewrite Hv. by apply Contains_not_nan in Hoc as (_ & _ & ?).
Qed.

(** Upgrading a rule keeps tuning valid and says what moved: the clamped
    binding passes validation against the new version, a move is recorded
    exactly when the stored binding would not, and resolving the clamped
    bindings gives what resolving the stored ones gives. *)
Theorem clamp_sound New def old b :
  validateDefinition def = Ok tt → ValidateBinding old b = Ok tt → bi_RuleID b = df_ID def →
  ValidateBinding def (ClampBinding New def b).1 = Ok tt ∧
  ((ClampBinding New def b).2 = [] ↔ ValidateBinding def b = Ok tt) ∧
  ∀ conv device bs,
    Resolve conv def device ((λ b, (ClampBinding New def b).1) <$> bs) = Resolve conv def device bs.
Proof.
  intros Hd Ho Hid. split_and!; [by eapply clamped_valid|by eapply clamp_moves_nil|].
  intros conv device bs. fold (clamped New def). unfold Resolve.
  by rewrite !clamped_param_value.
Qed.

(** ** Witnesses *)

Definition narrow_def : Definition_ :=
  mk_def (lit "cpu-high") 2 [] (lit "warning") (lit "busy") (lit "cpu.total") (lit "gt")
    (f_of_Z 90) (f_of_Z 80) 60 [] 0 [] [lit "device"] 600 [lit "vitals"] [lit "cpu.total"]
    {[ lit "threshold" := mk_bounds (f_of_Z 85) (f_of_Z 95) ]}.

Definition sample_device : Device :=
  mk_device (mk_scope (replicate 16 x01) Nil (replicate 16 x02) (replicate 16 x03))
    {[ lit "role" := lit "db" ]} 10.

Definition site_wide : Binding :=
  mk_binding (replicate 16 x10) (replicate 16 x02) (lit "cpu-high") LevelTenant (replicate 16 x03) ∅ 5
    {[ lit "threshold" := f_of_Z 70 ]} [].

Definition on_device : Binding :=
  mk_binding (replicate 16 x11) (replicate 16 x02) (lit "cpu-high") LevelDevice (replicate 16 x01)
    {[ lit "role" := lit "db" ]} 0 {[ lit "threshold" := f_of_Z 60 ]} [].

Definition other_customer : Binding :=
  mk_binding (replicate 16 x12) (replicate 16 x07) (lit "cpu-high") LevelDevice (replicate 16 x01) ∅ 9
    {[ lit "threshold" := f_of_Z 55 ]} [].

Lemma resolve_isolated_witness :
  tr_Threshold (Resolve (λ _, 0) sample_def sample_device [site_wide; other_customer; on_device]) =
  f_of_Z 60.
Proof.
  refine (eq_trans (f_equal tr_Threshold
    (proj1 (resolve_isolated (λ _, 0) sample_def sample_device
              [site_wide; other_customer; on_device] [on_device; site_wide] _ _))) _).
  - split; [|by repeat (apply Forall_cons; split; [done|])].
    apply (bool_decide_eq_true_1 _). vm_compute. reflexivity.
  - apply Permutation_swap.
  - vm_compute. reflexivity.
Defined.

Lemma first_speaker_decides_witness :
  DecidedBy sample_def sample_device [site_wide; on_device] (lit "threshold") =
  (LevelDevice, describeBinding on_device).
Proof.
  destruct (first_speaker_decides sample_def sample_device [site_wide; on_device] (lit "threshold")
              (mk_bounds (f_of_Z 50) (f_of_Z 100))) as [(b & v & Hb & _ & _ & Hf & _ & E)|(H & _)];
    [reflexivity| |].
  - rewrite E. apply elem_of_cons in Hb as [->|[->| []%not_elem_of_nil]%elem_of_cons]; [|reflexivity].
    assert (speaksFirst on_device site_wide = true) as Hs by (by vm_compute).
    rewrite (Hf on_device) in Hs; [discriminate Hs|right; left|by vm_compute|by eexists].
  - assert (bi_Params on_device !! lit "threshold" = None) as Hn by (apply H; [right; left|by vm_compute]).
    discriminate Hn.
Defined.

Lemma resolved_within_bounds_witness :
  Contains (mk_bounds (f_of_Z 85) (f_of_Z 95))
    (param_value narrow_def sample_device [on_device] (lit "threshold")) = true.
Proof.
  apply resolved_within_bounds; [vm_compute; reflexivity| |reflexivity].
  intros b ->%list_elem_of_singleton. exists sample_def. vm_compute. reflexivity.
Defined.

Lemma clamp_sound_witness :
  ValidateBinding narrow_def (ClampBinding (λ id _, id) narrow_def on_device).1 = Ok tt ∧
  (ClampBinding (λ id _, id) narrow_def on_device).2 ≠ [].
Proof.
  destruct (clamp_sound (λ id _, id) narrow_def sample_def on_device) as (H1 & H2 & _);
    [vm_compute; reflexivity..|].
  split; [exact H1|]. intros E. apply H2 in E. vm_compute in E. discriminate.
Defined.
