(* ===== verification/Incident.v ===== *)
(** * Alerts, incidents and their lifecycle

    [src/server/internal/alerts/types.go], [incident.go] and [limits.go]: what a
    machine reports, the room it folds into, the moves a person may make on a
    room, and a customer's alert budget.  Go's string enumerations are inductive
    types with a constructor for a string outside the closed set.  A [time.Time]
    is the nanoseconds since the zero time, a [time.Duration] nanoseconds. *)
From S2P Require Import Prelude Float Settings.
#[local] Open Scope Z_scope.

Definition microsecond : Z := 1000.
Definition duration_second : Z := 1000000000.
Definition duration_hour : Z := 3600 * duration_second.

(** [t.UTC().Truncate(time.Microsecond)]. *)
Definition truncate_us (t : Z) : Z := t - t mod microsecond.

Inductive Severity := SeverityInfo | SeverityWarning | SeverityCritical | SeverityOther (s : bytes).
Inductive RoomScope := ScopeDevice | ScopeSite | ScopeOrganization | ScopeOther (s : bytes).
Inductive Status :=
  StatusNew | StatusAcknowledged | StatusInvestigating | StatusResolved | StatusOther (s : bytes).
Inductive CauseCode :=
  | CauseNone  (* the empty string *)
  | CauseResolvedSelf | CauseFixedByTech | CauseHardwareFault | CauseExpectedLoad
  | CauseFalsePositive | CauseDuplicate | CauseWontFix | CauseOther (s : bytes).
Inductive Outcome := Stored | Duplicate | CeilingSuppressed.

#[global] Instance Severity_eq_dec : EqDecision Severity.
Proof. solve_decision. Defined.
#[global] Instance RoomScope_eq_dec : EqDecision RoomScope.
Proof. solve_decision. Defined.
#[global] Instance Status_eq_dec : EqDecision Status.
Proof. solve_decision. Defined.
#[global] Instance CauseCode_eq_dec : EqDecision CauseCode.
Proof. solve_decision. Defined.

Definition MaxEvidenceBytes : Z := 64 * 1024.
Definition StormRuleID : bytes := lit "alert-storm".
Definition StormSeverity : Severity := SeverityWarning.
Definition StormHold : Z := duration_hour.

Record Alert := mk_alert {
  a_ID : uuid;
  a_OrganizationID : uuid;
  a_DeviceID : uuid;
  a_RuleID : bytes;
  a_RuleVersion : Z;
  a_Severity : Severity;
  a_Metric : bytes;
  a_Value : option float64;
  a_WindowStart : Z;
  a_WindowEnd : Z;
  a_ObservedAt : Z;
  a_Backfilled : bool;
  a_Evidence : option bytes;  (* [None] is the nil slice *)
  a_EvidenceCodec : bytes;
}.

(** Evidence with a codec or neither: an empty slice, nil or not, drops both. *)
Definition normalized (a : Alert) : Alert :=
  let empty := bool_decide (default [] (a_Evidence a) = []) in
  mk_alert (a_ID a) (a_OrganizationID a) (a_DeviceID a) (a_RuleID a) (a_RuleVersion a)
    (a_Severity a) (a_Metric a) (a_Value a)
    (truncate_us (a_WindowStart a)) (truncate_us (a_WindowEnd a)) (truncate_us (a_ObservedAt a))
    (a_Backfilled a)
    (if empty then None else a_Evidence a) (if empty then [] else a_EvidenceCodec a).

Record Incident := mk_incident {
  i_ID : uuid;
  i_OrganizationID : uuid;
  i_RuleID : bytes;
  i_Scope : RoomScope;
  i_ScopeKey : uuid;
  i_Severity : Severity;
  i_Status : Status;
  i_AssigneeID : uuid;   (* [Nil]: nobody *)
  i_OpenedAt : Z;
  i_ResolvedAt : option Z;
  i_CauseCode : CauseCode;
  i_FirstSeen : Z;
  i_LastSeen : Z;
  i_Occurrences : Z;
  i_DeviceCount : Z;
}.

(** ** Moves *)

Inductive alert_err :=
  | ErrGroupingUnusable | ErrIncidentNotFound | ErrUnknownStatus | ErrUnknownCause
  | ErrIllegalTransition | ErrCauseRequired | ErrCauseNotAllowed | ErrKeyAlreadyOpen
  | ErrAlertNotFound | ErrNoEvidence | ErrCommentUnusable | ErrInvalidLimits
  | ErrTenantRequired | ErrHorizonNotPositive | NoMachine
  (* a statement the database refuses: a constraint or a row policy *)
  | DbRefused.

Definition knownCauses : list CauseCode :=
  [CauseResolvedSelf; CauseFixedByTech; CauseHardwareFault; CauseExpectedLoad;
   CauseFalsePositive; CauseDuplicate; CauseWontFix].

(** The map: [None] is a missing key, and reading one gives the nil slice. *)
Definition nextStatuses (s : Status) : option (list Status) :=
  match s with
  | StatusNew => Some [StatusAcknowledged; StatusInvestigating; StatusResolved]
  | StatusAcknowledged => Some [StatusNew; StatusInvestigating; StatusResolved]
  | StatusInvestigating => Some [StatusNew; StatusAcknowledged; StatusResolved]
  | StatusResolved => Some []
  | StatusOther _ => None
  end.

Definition allows (from to : Status) : bool :=
  existsb (λ next, bool_decide (next = to)) (default [] (nextStatuses from)).

Definition knownCause (cause : CauseCode) : bool :=
  existsb (λ known, bool_decide (known = cause)) knownCauses.

Record Change := mk_change {
  ch_To : Status;
  ch_Cause : CauseCode;
  ch_Actor : uuid;
}.

Definition Change_check (c : Change) (from : Status) : result alert_err unit :=
  if negb (bool_decide (is_Some (nextStatuses (ch_To c)))) then Err ErrUnknownStatus
  else if bool_decide (ch_Cause c ≠ CauseNone) && negb (knownCause (ch_Cause c)) then Err ErrUnknownCause
  else if negb (allows from (ch_To c)) then Err ErrIllegalTransition
  else if bool_decide (ch_To c = StatusResolved) && bool_decide (ch_Cause c = CauseNone)
  then Err ErrCauseRequired
  else if bool_decide (ch_To c ≠ StatusResolved) && bool_decide (ch_Cause c ≠ CauseNone)
  then Err ErrCauseNotAllowed
  else Ok tt.

Definition kindStatusChange : bytes := lit "status_change".
Definition kindResolution : bytes := lit "resolution".

Definition eventKind (to : Status) : bytes :=
  if bool_decide (to = StatusResolved) then kindResolution else kindStatusChange.

Record transitionBody := mk_transition {
  tb_From : Status;
  tb_To : Status;
  tb_Cause : CauseCode;
  tb_Reopened : bool;
}.

(** ** Grouping *)

Record Grouping := mk_grouping {
  g_Scope : RoomScope;
  g_Window : Z;
}.

Definition Grouping_check (g : Grouping) : result alert_err unit :=
  match g_Scope g with
  | ScopeOther _ => Err ErrGroupingUnusable
  | _ => if bool_decide (g_Window g ≤ 0) then Err ErrGroupingUnusable else Ok tt
  end.

Definition spans (g : Grouping) (firstSeen lastSeen at_ : Z) : bool :=
  negb (bool_decide (lastSeen + g_Window g < at_)) && negb (bool_decide (at_ < firstSeen - g_Window g)).

Definition lapsed (g : Grouping) (lastSeen at_ : Z) : bool := bool_decide (lastSeen + g_Window g < at_).

(** ** Budgets *)

Definition DefaultOrganizationHourlyCeiling : Z := 500.
Definition MaxOrganizationHourlyCeiling : Z := 5000.
Definition DefaultDeviceHourlyCeiling : Z := 20.
Definition MaxDeviceHourlyCeiling : Z := 200.

Record Limits := mk_limits {
  lm_OrganizationID : uuid;
  lm_OrganizationHourly : Z;
  lm_DeviceHourly : Z;
  lm_UpdatedBy : bytes;
}.

Definition DefaultLimits (organizationID : uuid) : Limits :=
  mk_limits organizationID DefaultOrganizationHourlyCeiling DefaultDeviceHourlyCeiling [].

Definition ValidateLimits (l : Limits) : result alert_err unit :=
  if bool_decide (lm_OrganizationID l = Nil) then Err ErrInvalidLimits
  else if bool_decide (lm_OrganizationHourly l < 1 ∨ MaxOrganizationHourlyCeiling < lm_OrganizationHourly l)
  then Err ErrInvalidLimits
  else if bool_decide (lm_DeviceHourly l < 1 ∨ MaxDeviceHourlyCeiling < lm_DeviceHourly l)
  then Err ErrInvalidLimits
  else Ok tt.
