(* ===== verification/AlertStore.v ===== *)
(** * The alert store

    [src/server/internal/alerts/postgres.go], [postgres_fold.go],
    [postgres_lifecycle.go], [postgres_limits.go], [postgres_retention.go], the
    moves of [room.go] and the pages of [queue.go], with the transactions of
    [dbtx/tx.go] and [dbtx/tenant.go].  The database is a record of tables and
    each SQL statement a function on it, constraints and row policies of
    [db/migrations/014_investigations.up.sql] included: a statement they refuse
    is the error [DbRefused].  A transaction is atomic: an error leaves the
    database as it was, and transactions run one after the other (the code's row
    locks and its conflict clause serialise the writers of one room).  Losing
    the connection is not modelled, nor the ids of history lines colliding. *)
From S2P Require Import Prelude GoStrings Float Settings Sorting Dbtx Incident.
#[local] Open Scope Z_scope.

Definition i32_max : Z := 2147483647.

(** ** Tables *)

Record alert_row := mk_arow {
  ar_alert : Alert;
  ar_tenant : uuid;
  ar_received : Z;
  ar_incident : option uuid;
}.

Record incident_row := mk_irow {
  ir_tenant : uuid;
  ir_room : Incident;
}.

#[global] Instance Incident_eq_dec : EqDecision Incident.
Proof. solve_decision. Defined.
#[global] Instance incident_row_eq_dec : EqDecision incident_row.
Proof. solve_decision. Defined.

(** The JSON bodies the code writes. *)
Inductive event_body :=
  | BodyTransition (b : transitionBody)
  | BodyReason (reason : bytes)
  | BodyAssignment (assignee : bytes) (unassigned : bool)
  | BodyComment (note : bytes).

Record event_row := mk_event {
  ev_ID : uuid;
  ev_tenant : uuid;
  ev_organization : uuid;
  ev_incident : uuid;
  ev_At : Z;
  ev_Kind : bytes;
  ev_Actor : option uuid;  (* [None] is NULL *)
  ev_Body : event_body;
}.

Record device_row := mk_devrow {
  dr_tenant : uuid;
  dr_site : option uuid;
  dr_maintenance : bool;
}.

Record limits_row := mk_limrow {
  lr_tenant : uuid;
  lr_hourly : Z;
  lr_device_hourly : Z;
  lr_updated_by : bytes;
}.

Record db := mk_db {
  t_alerts : gmap uuid alert_row;
  t_incidents : gmap uuid incident_row;
  t_events : list event_row;
  t_devices : gmap uuid device_row;
  t_organizations : gmap uuid uuid;  (* the tenant of each *)
  t_limits : gmap uuid limits_row;
  t_users : gset uuid;
}.

Definition set_alerts (d : db) (x : gmap uuid alert_row) : db :=
  mk_db x (t_incidents d) (t_events d) (t_devices d) (t_organizations d) (t_limits d) (t_users d).
Definition set_incidents (d : db) (x : gmap uuid incident_row) : db :=
  mk_db (t_alerts d) x (t_events d) (t_devices d) (t_organizations d) (t_limits d) (t_users d).
Definition add_events (d : db) (x : list event_row) : db :=
  mk_db (t_alerts d) (t_incidents d) (t_events d ++ x) (t_devices d) (t_organizations d) (t_limits d) (t_users d).
Definition set_events (d : db) (x : list event_row) : db :=
  mk_db (t_alerts d) (t_incidents d) x (t_devices d) (t_organizations d) (t_limits d) (t_users d).
Definition set_limits (d : db) (x : gmap uuid limits_row) : db :=
  mk_db (t_alerts d) (t_incidents d) (t_events d) (t_devices d) (t_organizations d) x (t_users d).

(** ** Transactions *)

Definition tx (A : Type) : Type := db → result alert_err (A * db).

#[global] Instance tx_ret : MRet tx := λ A a d, Ok (a, d).
#[global] Instance tx_bind : MBind tx :=
  λ A B f m d, match m d with Ok (a, d') => f a d' | Err e => Err e end.

Definition tx_fail {A} (e : alert_err) : tx A := λ _, Err e.
Definition tx_lift {A} (r : result alert_err A) : tx A :=
  λ d, match r with Ok a => Ok (a, d) | Err e => Err e end.
Definition tx_read {A} (f : db → A) : tx A := λ d, Ok (f d, d).
Definition tx_exec (f : db → db) : tx unit := λ d, Ok (tt, f d).

Definition Scoped {A} (ctx : option Tenant) (fn : Tenant → tx A) (d : db) : result alert_err A * db :=
  match TenantFromContext ctx with
  | None => (Err ErrTenantRequired, d)
  | Some t => match fn t d with Ok (a, d') => (Ok a, d') | Err e => (Err e, d) end
  end.

(** ** Reading tables *)

Definition is_open (i : Incident) : bool := bool_decide (i_Status i ≠ StatusResolved).

Record groupingKey := mk_key {
  k_organizationID : uuid;
  k_ruleID : bytes;
  k_scope : RoomScope;
  k_scopeKey : uuid;
}.

#[global] Instance groupingKey_eq_dec : EqDecision groupingKey.
Proof. solve_decision. Defined.

Definition room_key (i : Incident) : groupingKey :=
  mk_key (i_OrganizationID i) (i_RuleID i) (i_Scope i) (i_ScopeKey i).

Definition rows {A} (m : gmap uuid A) : list A := (map_to_list m).*2.

(** The partial unique index [uq_incidents_open_group]. *)
Definition open_holder (d : db) (key : groupingKey) : option incident_row :=
  List.find (λ r, is_open (ir_room r) && bool_decide (room_key (ir_room r) = key)) (rows (t_incidents d)).

Definition count_rows {A} (f : A → bool) (m : gmap uuid A) : Z :=
  Z.of_nat (length (List.filter f (rows m))).

Definition distinct_devices (l : list alert_row) : list uuid := remove_dups ((λ r, a_DeviceID (ar_alert r)) <$> l).

(** The alerts filed in a room. *)
Definition filed (d : db) (id : uuid) : list alert_row :=
  List.filter (λ r, bool_decide (ar_incident r = Some id)) (rows (t_alerts d)).

Definition same_identity (a b : Alert) : bool :=
  bool_decide (a_DeviceID a = a_DeviceID b) && bool_decide (a_RuleID a = a_RuleID b) &&
  bool_decide (a_RuleVersion a = a_RuleVersion b) && bool_decide (a_WindowStart a = a_WindowStart b).

Definition known_severity (s : Severity) : bool := match s with SeverityOther _ => false | _ => true end.
Definition known_scope (s : RoomScope) : bool := match s with ScopeOther _ => false | _ => true end.
Definition known_status (s : Status) : bool := match s with StatusOther _ => false | _ => true end.

Section store.
(** Postgres's [length] of a text, in characters. *)
Context (text_length : bytes → Z).
(** The random id of the history line written about a room. *)
Context (gen : uuid → uuid).

Definition rule_id_ok (rule : bytes) : bool :=
  bool_decide (rule ≠ []) && bool_decide (text_length rule ≤ 64).

(** The CHECK constraints of a row of [alerts]. *)
Definition alert_row_ok (a : Alert) : bool :=
  rule_id_ok (a_RuleID a) && bool_decide (0 < a_RuleVersion a) && known_severity (a_Severity a) &&
  bool_decide (text_length (a_Metric a) ≤ 64) && bool_decide (text_length (a_EvidenceCodec a) ≤ 32) &&
  bool_decide (a_WindowStart a ≤ a_WindowEnd a) &&
  bool_decide (blen (default [] (a_Evidence a)) ≤ MaxEvidenceBytes) &&
  bool_decide (a_Evidence a = None ↔ a_EvidenceCodec a = []).

(** The CHECK constraints of a row of [incidents]. *)
Definition incident_row_ok (i : Incident) : bool :=
  rule_id_ok (i_RuleID i) && known_scope (i_Scope i) && known_severity (i_Severity i) &&
  known_status (i_Status i) && bool_decide (i_FirstSeen i ≤ i_LastSeen i) &&
  bool_decide (0 ≤ i_Occurrences i ≤ i32_max) && bool_decide (0 ≤ i_DeviceCount i ≤ i32_max).

(** The foreign key [(tenant_id, organization_id)]. *)
Definition organization_ok (d : db) (tenant organization : uuid) : bool :=
  bool_decide (t_organizations d !! organization = Some tenant).

(** ** Statements *)

Definition recent_count (t : Tenant) (organization : uuid) (since : Z) (d : db) : Z :=
  count_rows (λ r, bool_decide (ar_tenant r = TenantID t) &&
                   bool_decide (a_OrganizationID (ar_alert r) = organization) &&
                   bool_decide (since < ar_received r)) (t_alerts d).

(** [storeAlertSQL]: no row for a spent budget and for a stored identity. *)
Definition storeAlertSQL (t : Tenant) (a : Alert) (now since limit : Z) : tx (option uuid) := λ d,
  if bool_decide (i32_max < a_RuleVersion a) then Err DbRefused
  else if negb (bool_decide (recent_count t (a_OrganizationID a) since d < limit)) then Ok (None, d)
  else if negb (alert_row_ok a) then Err DbRefused
  else if existsb (λ r, same_identity (ar_alert r) a) (rows (t_alerts d)) then Ok (None, d)
  else if bool_decide (is_Some (t_alerts d !! a_ID a)) then Err DbRefused
  else if negb (organization_ok d (TenantID t) (a_OrganizationID a)) then Err DbRefused
  else if bool_decide (t_devices d !! a_DeviceID a = None) then Err DbRefused
  else Ok (Some (a_ID a), set_alerts d (<[a_ID a := mk_arow a (TenantID t) now None]> (t_alerts d))).

(** [alertByIdentitySQL] *)
Definition identity (t : Tenant) (a : Alert) (d : db) : option uuid :=
  (λ r, a_ID (ar_alert r)) <$>
    List.find (λ r, bool_decide (ar_tenant r = TenantID t) && same_identity (ar_alert r) a) (rows (t_alerts d)).

(** [INSERT INTO incidents ... ON CONFLICT (key) WHERE status <> 'resolved' DO
    UPDATE]: the room that holds the key takes [update], else [room] is new. *)
Definition upsert_room (t : Tenant) (room : Incident) (update : Incident → Incident) : tx uuid := λ d,
  if negb (incident_row_ok room) then Err DbRefused
  else
    match open_holder d (room_key room) with
    | Some r =>
        let i := update (ir_room r) in
        if negb (visible t (ir_tenant r)) then Err DbRefused
        else if negb (incident_row_ok i) then Err DbRefused
        else Ok (i_ID (ir_room r),
                 set_incidents d (<[i_ID (ir_room r) := mk_irow (ir_tenant r) i]> (t_incidents d)))
    | None =>
        if bool_decide (is_Some (t_incidents d !! i_ID room)) then Err DbRefused
        else if negb (organization_ok d (TenantID t) (i_OrganizationID room)) then Err DbRefused
        else Ok (i_ID room, set_incidents d (<[i_ID room := mk_irow (TenantID t) room]> (t_incidents d)))
    end.

Definition with_last_seen (i : Incident) (last : Z) : Incident :=
  mk_incident (i_ID i) (i_OrganizationID i) (i_RuleID i) (i_Scope i) (i_ScopeKey i) (i_Severity i)
    (i_Status i) (i_AssigneeID i) (i_OpenedAt i) (i_ResolvedAt i) (i_CauseCode i) (i_FirstSeen i)
    last (i_Occurrences i) (i_DeviceCount i).

Definition with_status (i : Incident) (status : Status) (resolved : option Z) (cause : CauseCode) : Incident :=
  mk_incident (i_ID i) (i_OrganizationID i) (i_RuleID i) (i_Scope i) (i_ScopeKey i) (i_Severity i)
    status (i_AssigneeID i) (i_OpenedAt i) resolved cause (i_FirstSeen i) (i_LastSeen i)
    (i_Occurrences i) (i_DeviceCount i).

Definition with_assignee (i : Incident) (assignee : uuid) : Incident :=
  mk_incident (i_ID i) (i_OrganizationID i) (i_RuleID i) (i_Scope i) (i_ScopeKey i) (i_Severity i)
    (i_Status i) assignee (i_OpenedAt i) (i_ResolvedAt i) (i_CauseCode i) (i_FirstSeen i)
    (i_LastSeen i) (i_Occurrences i) (i_DeviceCount i).

Definition with_counts (i : Incident) (occurrences machines : Z) : Incident :=
  mk_incident (i_ID i) (i_OrganizationID i) (i_RuleID i) (i_Scope i) (i_ScopeKey i) (i_Severity i)
    (i_Status i) (i_AssigneeID i) (i_OpenedAt i) (i_ResolvedAt i) (i_CauseCode i) (i_FirstSeen i)
    (i_LastSeen i) occurrences machines.

Definition restated (i : Incident) (occurrences machines first last : Z) (severity : Severity) : Incident :=
  mk_incident (i_ID i) (i_OrganizationID i) (i_RuleID i) (i_Scope i) (i_ScopeKey i) severity
    (i_Status i) (i_AssigneeID i) (i_OpenedAt i) (i_ResolvedAt i) (i_CauseCode i) first last
    occurrences machines.

(** An UPDATE of the rows of [incidents] that satisfy [f]. *)
Definition update_rooms (f : incident_row → bool) (g : Incident → Incident) (d : db) : db :=
  set_incidents d ((λ r, if f r then mk_irow (ir_tenant r) (g (ir_room r)) else r) <$> t_incidents d).

Definition own_room (t : Tenant) (id : uuid) (r : incident_row) : bool :=
  bool_decide (ir_tenant r = TenantID t) && bool_decide (i_ID (ir_room r) = id).

(** The lines [INSERT INTO incident_events ... SELECT ... FROM closed] adds. *)
Definition closing_events (reason : bytes) (at_ : Incident → Z) (l : list incident_row) : list event_row :=
  (λ r, mk_event (gen (i_ID (ir_room r))) (ir_tenant r) (i_OrganizationID (ir_room r)) (i_ID (ir_room r))
          (at_ (ir_room r)) kindResolution None (BodyReason reason)) <$> l.

(** [UPDATE incidents SET status = 'resolved', resolved_at = at] of the rows
    that satisfy [f], and one line of history for each. *)
Definition close_rooms (f : incident_row → bool) (at_ : Incident → Z) (reason : bytes) (d : db) : db :=
  let closed := List.filter f (rows (t_incidents d)) in
  add_events (update_rooms f (λ i, with_status i StatusResolved (Some (at_ i)) (i_CauseCode i)) d)
    (closing_events reason at_ closed).

(** ** Folding an alert into its room *)

Record openRoom := mk_open { or_id : uuid; or_firstSeen : Z; or_lastSeen : Z }.

(** [lockOpenRoomSQL] *)
Definition lockOpenRoomForKey (t : Tenant) (key : groupingKey) (d : db) : option openRoom :=
  (λ r, mk_open (i_ID (ir_room r)) (i_FirstSeen (ir_room r)) (i_LastSeen (ir_room r))) <$>
    List.find (λ r, bool_decide (ir_tenant r = TenantID t) && is_open (ir_room r) &&
                    bool_decide (room_key (ir_room r) = key)) (rows (t_incidents d)).

Definition scopeKeyFor (t : Tenant) (a : Alert) (scope : RoomScope) (d : db) :
    result alert_err groupingKey :=
  match scope with
  | ScopeOrganization => Ok (mk_key (a_OrganizationID a) (a_RuleID a) scope (a_OrganizationID a))
  | ScopeDevice => Ok (mk_key (a_OrganizationID a) (a_RuleID a) scope (a_DeviceID a))
  | ScopeSite =>
      match t_devices d !! a_DeviceID a with
      | Some dev =>
          if bool_decide (dr_tenant dev = TenantID t) then
            match dr_site dev with
            | Some site => Ok (mk_key (a_OrganizationID a) (a_RuleID a) scope site)
            | None => Ok (mk_key (a_OrganizationID a) (a_RuleID a) ScopeDevice (a_DeviceID a))
            end
          else Err NoMachine
      | None => Err NoMachine
      end
  | ScopeOther _ => Err ErrGroupingUnusable
  end.

Definition reason_lapsed : bytes := lit "no alert within the reopen window".

(** [closeLapsedRoomSQL] *)
Definition closeLapsed (t : Tenant) (g : Grouping) (room : openRoom) : db → db :=
  close_rooms (λ r, own_room t (or_id room) r && is_open (ir_room r))
    (λ _, or_lastSeen room + g_Window g) reason_lapsed.

Definition coOccurrenceWindow (a : Alert) (g : Grouping) : Z * Z :=
  (a_ObservedAt a - g_Window g, a_ObservedAt a + g_Window g).

(** The alert's machine is on the rung [scope] names [key] on. *)
Definition on_scope (t : Tenant) (d : db) (scope : RoomScope) (key : uuid) (a : Alert) : bool :=
  match scope with
  | ScopeOrganization => true
  | ScopeDevice => bool_decide (a_DeviceID a = key)
  | ScopeSite =>
      match t_devices d !! a_DeviceID a with
      | Some dev => visible t (dr_tenant dev) && bool_decide (dr_site dev = Some key)
      | None => false
      end
  | ScopeOther _ => false
  end.

(** The WHERE clause [countPendingObserversSQL] and
    [attachPendingObservationsSQL] share. *)
Definition pending (t : Tenant) (d : db) (key : groupingKey) (from to : Z) (r : alert_row) : bool :=
  bool_decide (ar_tenant r = TenantID t) && bool_decide (ar_incident r = None) &&
  bool_decide (a_OrganizationID (ar_alert r) = k_organizationID key) &&
  bool_decide (a_RuleID (ar_alert r) = k_ruleID key) &&
  bool_decide (a_Severity (ar_alert r) = SeverityInfo) &&
  bool_decide (from ≤ a_ObservedAt (ar_alert r) ≤ to) &&
  on_scope t d (k_scope key) (k_scopeKey key) (ar_alert r).

Definition countPendingObserversSQL (t : Tenant) (key : groupingKey) (from to : Z) (d : db) : Z :=
  Z.of_nat (length (distinct_devices (List.filter (pending t d key from to) (rows (t_alerts d))))).

Definition opensARoom (t : Tenant) (a : Alert) (g : Grouping) (key : groupingKey) (d : db) : bool :=
  if bool_decide (a_Severity a ≠ SeverityInfo) then true
  else if bool_decide (k_scope key = ScopeDevice) then false
  else
    let '(from, to) := coOccurrenceWindow a g in
    bool_decide (1 < countPendingObserversSQL t key from to d).

Definition with_incident (id : uuid) (r : alert_row) : alert_row :=
  mk_arow (ar_alert r) (ar_tenant r) (ar_received r) (Some id).

Definition attach (f : alert_row → bool) (id : uuid) (d : db) : db :=
  set_alerts d ((λ r, if f r then with_incident id r else r) <$> t_alerts d).

Definition attachPendingObservationsSQL (t : Tenant) (id : uuid) (key : groupingKey) (from to : Z)
    (d : db) : db :=
  attach (pending t d key from to) id d.

Definition attachAlertSQL (t : Tenant) (id alert : uuid) : db → db :=
  attach (λ r, bool_decide (ar_tenant r = TenantID t) && bool_decide (a_ID (ar_alert r) = alert)) id.

Definition worst (l : list Severity) : Severity :=
  if existsb (λ s, bool_decide (s = SeverityCritical)) l then SeverityCritical
  else if existsb (λ s, bool_decide (s = SeverityWarning)) l then SeverityWarning
  else SeverityInfo.

Definition min_list (x : Z) (l : list Z) : Z := foldr Z.min x l.
Definition max_list (x : Z) (l : list Z) : Z := foldr Z.max x l.

(** [restateRoomFromItsAlertsSQL] *)
Definition restateRoomFromItsAlertsSQL (t : Tenant) (id : uuid) : tx unit := λ d,
  let held := List.filter (λ r, visible t (ar_tenant r)) (filed d id) in
  match held with
  | [] => Ok (tt, d)
  | r0 :: _ =>
      let at_ r := a_ObservedAt (ar_alert r) in
      let n := Z.of_nat (length held) in
      if bool_decide (i32_max < n) then Err DbRefused
      else Ok (tt, update_rooms (own_room t id)
        (λ i, restated i n (Z.of_nat (length (distinct_devices held)))
                (min_list (at_ r0) (at_ <$> held)) (max_list (at_ r0) (at_ <$> held))
                (worst ((λ r, a_Severity (ar_alert r)) <$> held))) d)
  end.

Definition fileInto (t : Tenant) (a : Alert) (id : uuid) : tx unit :=
  _ ← tx_exec (attachAlertSQL t id (a_ID a));
  restateRoomFromItsAlertsSQL t id.

(** [openOrJoinRoomSQL], then the pending observations, then the alert. *)
Definition openRoom_ (t : Tenant) (a : Alert) (g : Grouping) (key : groupingKey) (new : uuid) (now : Z) :
    tx unit :=
  id ← upsert_room t
         (mk_incident new (k_organizationID key) (k_ruleID key) (k_scope key) (k_scopeKey key)
            (a_Severity a) StatusNew Nil now None CauseNone (a_ObservedAt a) (a_ObservedAt a) 0 0)
         (λ i, with_last_seen i (Z.max (i_LastSeen i) (a_ObservedAt a)));
  let '(from, to) := coOccurrenceWindow a g in
  _ ← tx_exec (attachPendingObservationsSQL t id key from to);
  fileInto t a id.

Definition fold_open (t : Tenant) (a : Alert) (g : Grouping) (key : groupingKey) (new : uuid) (now : Z) :
    tx unit :=
  opens ← tx_read (opensARoom t a g key);
  if opens : bool then openRoom_ t a g key new now else mret tt.

Definition fold (t : Tenant) (a : Alert) (g : Grouping) (new : uuid) (now : Z) : tx unit := λ d,
  match scopeKeyFor t a (g_Scope g) d with
  | Err e => Err e
  | Ok key =>
      match lockOpenRoomForKey t key d with
      | Some room =>
          if spans g (or_firstSeen room) (or_lastSeen room) (a_ObservedAt a)
          then fileInto t a (or_id room) d
          else if lapsed g (or_lastSeen room) (a_ObservedAt a)
          then fold_open t a g key new now (closeLapsed t g room d)
          else Ok (tt, d)
      | None => fold_open t a g key new now d
      end
  end.

(** [foldIntoStormSQL] *)
Definition foldIntoStorm (t : Tenant) (organization new : uuid) (at_ : Z) : tx unit :=
  _ ← upsert_room t
        (mk_incident new organization StormRuleID ScopeOrganization organization StormSeverity
           StatusNew Nil at_ None CauseNone at_ at_ 1 0)
        (λ i, with_counts (with_last_seen i at_) (i_Occurrences i + 1) (i_DeviceCount i));
  mret tt.

Definition limitsIn (t : Tenant) (organization : uuid) (d : db) : Limits :=
  match t_limits d !! organization with
  | Some r =>
      if bool_decide (lr_tenant r = TenantID t)
      then mk_limits organization (lr_hourly r) (lr_device_hourly r) (lr_updated_by r)
      else DefaultLimits organization
  | None => DefaultLimits organization
  end.

Definition record_tx (t : Tenant) (a : Alert) (g : Grouping) (new : uuid) (now : Z) : tx Outcome :=
  limits ← tx_read (limitsIn t (a_OrganizationID a));
  stored ← storeAlertSQL t a now (now - duration_hour) (lm_OrganizationHourly limits);
  match stored with
  | Some _ => _ ← fold t a g new now; mret Stored
  | None =>
      found ← tx_read (identity t a);
      match found with
      | Some _ => mret Duplicate
      | None => _ ← foldIntoStorm t (a_OrganizationID a) new now; mret CeilingSuppressed
      end
  end.

(** [Store.Record]; [new] is the [uuid.New] it may use, [now] the clock. *)
Definition Record_ (ctx : option Tenant) (a : Alert) (g : Grouping) (new : uuid) (now : Z) (d : db) :
    result alert_err Outcome * db :=
  match TenantFromContext ctx with
  | None => (Err ErrTenantRequired, d)
  | Some _ =>
      match Grouping_check g with
      | Err e => (Err e, d)
      | Ok _ => Scoped ctx (λ t, record_tx t (normalized a) g new (truncate_us now)) d
      end
  end.

Definition AlertByIdentity (ctx : option Tenant) (device : uuid) (rule : bytes) (version windowStart : Z)
    (d : db) : result alert_err (option uuid) * db :=
  let probe := normalized (mk_alert [] [] device rule version SeverityInfo [] None windowStart 0 0 false None []) in
  Scoped ctx (λ t, if bool_decide (i32_max < version) then tx_fail DbRefused
                   else tx_read (identity t probe)) d.

(** [openIncidentSQL] *)
Definition OpenIncident (ctx : option Tenant) (key : groupingKey) (d : db) :
    result alert_err (option Incident) * db :=
  Scoped ctx (λ t, tx_read (λ d,
    ir_room <$> List.find (λ r, bool_decide (ir_tenant r = TenantID t) && is_open (ir_room r) &&
                                bool_decide (room_key (ir_room r) = key)) (rows (t_incidents d)))) d.

(** ** The moves a person makes *)

(** [readRoomStatusSQL] *)
Definition roomUnderChange (t : Tenant) (id : uuid) (d : db) : result alert_err (Status * groupingKey) :=
  match t_incidents d !! id with
  | Some r =>
      if bool_decide (ir_tenant r = TenantID t) then Ok (i_Status (ir_room r), room_key (ir_room r))
      else Err ErrIncidentNotFound
  | None => Err ErrIncidentNotFound
  end.

(** [actorArg] and [NULLIF]: nobody is NULL. *)
Definition actorArg (actor : uuid) : option uuid := if bool_decide (actor = Nil) then None else Some actor.

Definition user_ok (d : db) (actor : option uuid) : bool :=
  match actor with None => true | Some u => bool_decide (u ∈ t_users d) end.

(** [appendRoomEventSQL] *)
Definition appendRoomEventSQL (t : Tenant) (id : uuid) (at_ : Z) (kind : bytes) (actor : uuid)
    (body : event_body) (line : uuid) : tx unit := λ d,
  let l := List.filter (own_room t id) (rows (t_incidents d)) in
  if bool_decide (l ≠ []) && negb (user_ok d (actorArg actor)) then Err DbRefused
  else Ok (tt, add_events d
    ((λ r, mk_event line (ir_tenant r) (i_OrganizationID (ir_room r)) (i_ID (ir_room r)) at_ kind
             (actorArg actor) body) <$> l)).

(** [applyTransitionSQL]: the constraint on [cause_code] and the unique index
    on open keys are what it can run into. *)
Definition applyTransitionSQL (t : Tenant) (id : uuid) (to : Status) (at_ : Z) (cause : CauseCode) : tx unit := λ d,
  let l := List.filter (own_room t id) (rows (t_incidents d)) in
  let resolved := if bool_decide (to = StatusResolved) then Some at_ else None in
  if bool_decide (l ≠ []) &&
     (negb (known_status to) || negb (bool_decide (cause = CauseNone) || knownCause cause))
  then Err DbRefused
  else if bool_decide (to ≠ StatusResolved) &&
          existsb (λ r, match open_holder d (room_key (ir_room r)) with
                        | Some h => negb (bool_decide (i_ID (ir_room h) = id))
                        | None => false
                        end) l
  then Err DbRefused
  else Ok (tt, update_rooms (own_room t id) (λ i, with_status i to resolved cause) d).

Definition applyChange (t : Tenant) (id : uuid) (at_ : Z) (change : Change) (body : transitionBody)
    (line : uuid) : tx unit :=
  _ ← applyTransitionSQL t id (ch_To change) at_ (ch_Cause change);
  appendRoomEventSQL t id at_ (eventKind (ch_To change)) (ch_Actor change) (BodyTransition body) line.

Definition Transition (ctx : option Tenant) (id : uuid) (change : Change) (line : uuid) (now : Z) (d : db) :
    result alert_err unit * db :=
  Scoped ctx (λ t d,
    match roomUnderChange t id d with
    | Err e => Err e
    | Ok (current, _) =>
        match Change_check change current with
        | Err e => Err e
        | Ok _ => applyChange t id (truncate_us now) change
                    (mk_transition current (ch_To change) (ch_Cause change) false) line d
        end
    end) d.

Definition Reopen (ctx : option Tenant) (id actor line : uuid) (now : Z) (d : db) :
    result alert_err unit * db :=
  Scoped ctx (λ t d,
    match roomUnderChange t id d with
    | Err e => Err e
    | Ok (current, key) =>
        if bool_decide (current ≠ StatusResolved) then Err ErrIllegalTransition
        else if bool_decide (is_Some (lockOpenRoomForKey t key d)) then Err ErrKeyAlreadyOpen
        else applyChange t id (truncate_us now) (mk_change StatusInvestigating CauseNone actor)
               (mk_transition current StatusInvestigating CauseNone true) line d
    end) d.

Definition kindAssignment : bytes := lit "assignment".
Definition kindComment : bytes := lit "comment".

Definition Assign (ctx : option Tenant) (id assignee actor line : uuid) (now : Z) (d : db) :
    result alert_err unit * db :=
  let body := BodyAssignment (if bool_decide (assignee = Nil) then [] else uuid_String assignee)
                (bool_decide (assignee = Nil)) in
  Scoped ctx (λ t d,
    match roomUnderChange t id d with
    | Err e => Err e
    | Ok _ =>
        if negb (user_ok d (actorArg assignee)) then Err DbRefused
        else appendRoomEventSQL t id (truncate_us now) kindAssignment actor body line
               (update_rooms (own_room t id) (λ i, with_assignee i assignee) d)
    end) d.

Definition maxCommentBytes : Z := 4096.

Definition Comment (ctx : option Tenant) (id actor line : uuid) (note : bytes)
    (now : Z) (d : db) : result alert_err unit * db :=
  let note := TrimSpace note in
  if bool_decide (note = [] ∨ maxCommentBytes < blen note) then (Err ErrCommentUnusable, d)
  else
    Scoped ctx (λ t d,
      match roomUnderChange t id d with
      | Err e => Err e
      | Ok _ => appendRoomEventSQL t id (truncate_us now) kindComment actor (BodyComment note) line d
      end) d.

(** [alertEvidenceSQL] *)
Definition Evidence (ctx : option Tenant) (incident alert : uuid) (d : db) :
    result alert_err (bytes * bytes) * db :=
  Scoped ctx (λ t, λ d,
    match t_alerts d !! alert with
    | Some r =>
        if bool_decide (ar_tenant r = TenantID t) && bool_decide (ar_incident r = Some incident) then
          let blob := default [] (a_Evidence (ar_alert r)) in
          if bool_decide (blob = []) then Err ErrNoEvidence
          else Ok ((blob, a_EvidenceCodec (ar_alert r)), d)
        else Err ErrAlertNotFound
    | None => Err ErrAlertNotFound
    end) d.

(** ** Budgets *)

Definition Limits_ (ctx : option Tenant) (organization : uuid) (d : db) : result alert_err Limits * db :=
  Scoped ctx (λ t, tx_read (limitsIn t organization)) d.

(** [upsertLimitsSQL] *)
Definition UpsertLimits (ctx : option Tenant) (l : Limits) (d : db) : result alert_err unit * db :=
  match ValidateLimits l with
  | Err e => (Err e, d)
  | Ok _ =>
      Scoped ctx (λ t d,
        let row tenant := mk_limrow tenant (lm_OrganizationHourly l) (lm_DeviceHourly l) (lm_UpdatedBy l) in
        match t_limits d !! lm_OrganizationID l with
        | Some r =>
            if negb (visible t (lr_tenant r)) then Err DbRefused
            else Ok (tt, set_limits d (<[lm_OrganizationID l := row (lr_tenant r)]> (t_limits d)))
        | None =>
            if negb (organization_ok d (TenantID t) (lm_OrganizationID l)) then Err DbRefused
            else Ok (tt, set_limits d (<[lm_OrganizationID l := row (TenantID t)]> (t_limits d)))
        end) d
  end.

(** ** The janitor *)

(** The interval Postgres makes of a window's seconds. *)
Context (interval_of : Z → Z).

(** [holds], with the sweep's join: a room's hold, if its rule has one. *)
Definition hold_for (windows : gmap bytes Z) (rule : bytes) : option Z :=
  if bool_decide (rule = StormRuleID) then Some StormHold
  else match windows !! rule with
       | Some window => if bool_decide (window ≤ 0) then None else Some window
       | None => None
       end.

(** The WHERE clause of [resolveStaleRoomsSQL]. *)
Definition stale (windows : gmap bytes Z) (at_ : Z) (d : db) (r : incident_row) : bool :=
  match hold_for windows (i_RuleID (ir_room r)) with
  | None => false
  | Some window =>
      is_open (ir_room r) &&
      bool_decide (i_LastSeen (ir_room r) + interval_of window ≤ at_) &&
      negb (bool_decide (i_Scope (ir_room r) = ScopeDevice) &&
            match t_devices d !! i_ScopeKey (ir_room r) with
            | Some dev => dr_maintenance dev
            | None => false
            end)
  end.

Definition stale_at (windows : gmap bytes Z) (i : Incident) : Z :=
  i_LastSeen i + interval_of (default 0 (hold_for windows (i_RuleID i))).

Definition ResolveStale (windows : gmap bytes Z) (now : Z) (d : db) : result alert_err Z * db :=
  Scoped (Some (mk_tenant DefaultTenantID true)) (λ t d,
    let f := stale windows (truncate_us now) d in
    Ok (count_rows f (t_incidents d), close_rooms f (stale_at windows) reason_lapsed d)) d.

(** ** Erasure *)

Definition feeds (device : uuid) (d : db) (r : incident_row) : bool :=
  existsb (λ a, bool_decide (a_DeviceID (ar_alert a) = device)) (filed d (i_ID (ir_room r))).

(** [recountRoomsLosingADeviceSQL] *)
Definition recountRoomsLosingADeviceSQL (tenant device : uuid) (d : db) : db :=
  set_incidents d ((λ r,
    let left := List.filter (λ a, negb (bool_decide (a_DeviceID (ar_alert a) = device)))
                  (filed d (i_ID (ir_room r))) in
    if bool_decide (ir_tenant r = tenant) && feeds device d r
    then mk_irow (ir_tenant r) (with_counts (ir_room r) (Z.of_nat (length left))
                                  (Z.of_nat (length (distinct_devices left))))
    else r) <$> t_incidents d).

Definition reason_erased : bytes := lit "last device erased".

(** [closeEmptiedRoomsSQL] *)
Definition closeEmptiedRoomsSQL (tenant device : uuid) (at_ : Z) (d : db) : db :=
  close_rooms (λ r, bool_decide (ir_tenant r = tenant) && is_open (ir_room r) &&
                    bool_decide (i_Occurrences (ir_room r) = 0) && feeds device d r)
    (λ _, at_) reason_erased d.

Definition delete_alerts (f : alert_row → bool) (d : db) : db :=
  set_alerts d (filter (λ kv, f kv.2 = false) (t_alerts d)).

(** Deleting rooms takes their history with them and unfiles their alerts. *)
Definition delete_rooms (f : incident_row → bool) (d : db) : db :=
  let kept := filter (λ kv, f kv.2 = false) (t_incidents d) in
  let gone id := bool_decide (is_Some (t_incidents d !! id)) && bool_decide (kept !! id = None) in
  set_events
    (set_alerts (set_incidents d kept)
       ((λ r, if existsb gone (option_list (ar_incident r))
              then mk_arow (ar_alert r) (ar_tenant r) (ar_received r) None else r) <$> t_alerts d))
    (List.filter (λ e, negb (gone (ev_incident e))) (t_events d)).

Definition EraseDeviceAlerts (tenant device : uuid) (now : Z) (d : db) : result alert_err unit * db :=
  Scoped (Some (mk_tenant tenant true)) (λ _, tx_exec (λ d,
    let d := recountRoomsLosingADeviceSQL tenant device d in
    let d := closeEmptiedRoomsSQL tenant device (truncate_us now) d in
    delete_alerts (λ r, bool_decide (ar_tenant r = tenant) &&
                        bool_decide (a_DeviceID (ar_alert r) = device)) d)) d.

Definition EraseTenantInvestigations (tenant : uuid) (d : db) : result alert_err unit * db :=
  Scoped (Some (mk_tenant tenant true)) (λ _, tx_exec (λ d,
    let d := delete_alerts (λ r, bool_decide (ar_tenant r = tenant)) d in
    delete_rooms (λ r, bool_decide (ir_tenant r = tenant)) d)) d.

(** ** Retention *)

Definition retentionBatch : nat := 5000.

(** [drain]: batches of at most [retentionBatch] rows until one falls short.
    [budget] is how many batches start before the context is cancelled; which
    rows a batch takes is the database's choice. *)
Fixpoint drain (expired : db → list uuid) (delete : list uuid → db → db) (budget : nat) (total : Z) (d : db) :
    Z * bool * nat * db :=
  match budget with
  | O => (total, false, O, d)
  | S budget =>
      let batch := take retentionBatch (expired d) in
      let d := delete batch d in
      let total := total + Z.of_nat (length batch) in
      if bool_decide (length batch < retentionBatch)%nat then (total, true, budget, d)
      else drain expired delete budget total d
  end.

(** [deleteExpiredAlertsSQL] *)
Definition expired_alerts (cutoff : Z) (d : db) : list uuid :=
  (List.filter (λ kv, bool_decide (ar_received kv.2 < cutoff)) (map_to_list (t_alerts d))).*1.

Definition delete_alert_ids (ids : list uuid) (d : db) : db :=
  set_alerts d (filter (λ kv, kv.1 ∉ ids) (t_alerts d)).

(** [deleteExpiredRoomsSQL] *)
Definition room_expired (cutoff : Z) (d : db) (r : incident_row) : bool :=
  bool_decide (i_Status (ir_room r) = StatusResolved) &&
  match i_ResolvedAt (ir_room r) with Some at_ => bool_decide (at_ < cutoff) | None => false end &&
  bool_decide (filed d (i_ID (ir_room r)) = []).

Definition expired_rooms (cutoff : Z) (d : db) : list uuid :=
  (List.filter (λ kv, room_expired cutoff d kv.2) (map_to_list (t_incidents d))).*1.

Definition delete_room_ids (ids : list uuid) (d : db) : db :=
  delete_rooms (λ r, bool_decide (i_ID (ir_room r) ∈ ids)) d.

(** [SweepExpired]: the count reclaimed, and whether the sweep ran to its end. *)
Definition SweepExpired (horizon now : Z) (budget : nat) (d : db) : result alert_err (Z * bool) * db :=
  if bool_decide (horizon ≤ 0) then (Err ErrHorizonNotPositive, d)
  else
    let cutoff := now - horizon in
    let '(alerts, done, budget, d) := drain (expired_alerts cutoff) delete_alert_ids budget 0 d in
    if negb done then (Ok (alerts, false), d)
    else
      let '(rooms, done, _, d) := drain (expired_rooms cutoff) delete_room_ids budget 0 d in
      (Ok (alerts + rooms, done), d).

(** ** The queue *)

Definition defaultQueuePage : Z := 50.
Definition maxQueuePage : Z := 200.

Record Cursor := mk_cursor { cu_LastSeen : Z; cu_ID : uuid }.

Definition Cursor_IsZero (c : Cursor) : bool := bool_decide (cu_ID c = Nil).

(** 9999-12-31T23:59:59Z, in nanoseconds of the zero time. *)
Definition beyondTheQueue : Cursor := mk_cursor (315537897599 * duration_second) (replicate 16 xff).

Record Filter_ := mk_filter {
  fl_OrganizationID : uuid;
  fl_Statuses : list Status;
  fl_Severities : list Severity;
  fl_RuleID : bytes;
  fl_DeviceID : uuid;
  fl_AssigneeID : uuid;
  fl_After : Cursor;
  fl_Limit : Z;
}.

Definition Filter_normalized (f : Filter_) : Filter_ :=
  let after := if Cursor_IsZero (fl_After f) then beyondTheQueue else fl_After f in
  let limit := if bool_decide (fl_Limit f ≤ 0) then defaultQueuePage else fl_Limit f in
  let limit := if bool_decide (maxQueuePage < limit) then maxQueuePage else limit in
  mk_filter (fl_OrganizationID f) (fl_Statuses f) (fl_Severities f) (fl_RuleID f) (fl_DeviceID f)
    (fl_AssigneeID f) after limit.

(** [(a) < (b)] on [(last_seen, id)]. *)
Definition cursor_lt (a b : Cursor) : bool :=
  if bool_decide (cu_LastSeen a ≠ cu_LastSeen b) then cu_LastSeen a <? cu_LastSeen b
  else string_lt (cu_ID a) (cu_ID b).

Definition cursor_of (i : Incident) : Cursor := mk_cursor (i_LastSeen i) (i_ID i).

(** The WHERE clauses of both statements, the cursor's apart. *)
Definition selects (t : Tenant) (f : Filter_) (d : db) (r : incident_row) : bool :=
  let i := ir_room r in
  bool_decide (ir_tenant r = TenantID t) &&
  (bool_decide (fl_OrganizationID f = Nil) || bool_decide (i_OrganizationID i = fl_OrganizationID f)) &&
  (bool_decide (fl_Statuses f = []) || bool_decide (i_Status i ∈ fl_Statuses f)) &&
  (bool_decide (fl_Severities f = []) || bool_decide (i_Severity i ∈ fl_Severities f)) &&
  (bool_decide (fl_RuleID f = []) || bool_decide (i_RuleID i = fl_RuleID f)) &&
  (bool_decide (fl_AssigneeID f = Nil) || bool_decide (i_AssigneeID i = fl_AssigneeID f)) &&
  (bool_decide (fl_DeviceID f = Nil) ||
   existsb (λ a, visible t (ar_tenant a) && bool_decide (a_DeviceID (ar_alert a) = fl_DeviceID f))
     (filed d (i_ID i))).

Definition later (a b : Incident) : bool := cursor_lt (cursor_of b) (cursor_of a).

Definition queue_rows (t : Tenant) (f : Filter_) (d : db) : list Incident :=
  take (Z.to_nat (fl_Limit f))
    (stable_sort later (ir_room <$>
       List.filter (λ r, selects t f d r && cursor_lt (cursor_of (ir_room r)) (fl_After f)) (rows (t_incidents d)))).

Definition zero_cursor : Cursor := mk_cursor 0 Nil.

(** A page, and where the next one starts. *)
Definition Queue (ctx : option Tenant) (f : Filter_) (d : db) :
    result alert_err (list Incident * Cursor) * db :=
  let f := Filter_normalized f in
  Scoped ctx (λ t, tx_read (λ d,
    let page := queue_rows t f d in
    (page, if bool_decide (Z.of_nat (length page) = fl_Limit f)
           then match last page with Some i => cursor_of i | None => zero_cursor end
           else zero_cursor))) d.
End store.
