(* ===== verification/AlertStoreInv.v ===== *)
(** * What the alert store keeps true

    The invariant of the tables of [AlertStore], preserved by every operation of
    the store ([store_step]): one open room per grouping key, one alert per
    identity, filed alerts in a room of their own tenant, customer and rule,
    resolutions stamped, and every row inside its tenant.  [counts_ok] adds that
    a room's counters are what its alerts say. *)
From S2P Require Import Prelude Float Settings Sorting Dbtx Incident AlertStore.
#[local] Open Scope Z_scope.

(** ** The invariant *)

Record room_ok (i : Incident) : Prop := {
  ro_resolved : is_open i = true ↔ i_ResolvedAt i = None;
  ro_cause : i_CauseCode i ≠ CauseNone → i_Status i = StatusResolved;
  ro_seen : i_FirstSeen i ≤ i_LastSeen i;
  ro_status : known_status (i_Status i) = true;
}.

(** The room a filed alert belongs in. *)
Definition belongs (a : alert_row) (r : incident_row) : Prop :=
  ir_tenant r = ar_tenant a ∧ i_OrganizationID (ir_room r) = a_OrganizationID (ar_alert a) ∧
  i_RuleID (ir_room r) = a_RuleID (ar_alert a).

Record db_ok (d : db) : Prop := {
  ok_room_id : ∀ id r, t_incidents d !! id = Some r → i_ID (ir_room r) = id;
  ok_alert_id : ∀ id a, t_alerts d !! id = Some a → a_ID (ar_alert a) = id;
  ok_room_tenant : ∀ id r, t_incidents d !! id = Some r →
    t_organizations d !! i_OrganizationID (ir_room r) = Some (ir_tenant r);
  ok_alert_tenant : ∀ id a, t_alerts d !! id = Some a →
    t_organizations d !! a_OrganizationID (ar_alert a) = Some (ar_tenant a);
  ok_room : ∀ id r, t_incidents d !! id = Some r → room_ok (ir_room r);
  ok_open : ∀ id id' r r', t_incidents d !! id = Some r → t_incidents d !! id' = Some r' →
    is_open (ir_room r) = true → is_open (ir_room r') = true →
    room_key (ir_room r) = room_key (ir_room r') → id = id';
  ok_identity : ∀ id id' a a', t_alerts d !! id = Some a → t_alerts d !! id' = Some a' →
    same_identity (ar_alert a) (ar_alert a') = true → id = id';
  ok_filed : ∀ id a room, t_alerts d !! id = Some a → ar_incident a = Some room →
    ∃ r, t_incidents d !! room = Some r ∧ belongs a r;
}.

(** Takes a conjunction of tests that passed apart. *)
Ltac andbs :=
  repeat match goal with
  | H : (_ && _) = true |- _ => apply andb_prop in H as [? ?]
  | H : bool_decide _ = true |- _ => apply bool_decide_eq_true in H
  end.

(** ** Reading tables *)

Lemma rows_elem {A} (m : gmap uuid A) r : r ∈ rows m ↔ ∃ id, m !! id = Some r.
Proof.
  unfold rows. rewrite list_elem_of_fmap. split.
  - intros ([id x] & -> & H%elem_of_map_to_list). eauto.
  - intros [id H%elem_of_map_to_list]. exists (id, r). done.
Qed.

Lemma find_rows_Some {A} (f : A → bool) (m : gmap uuid A) r :
  List.find f (rows m) = Some r → ∃ id, m !! id = Some r ∧ f r = true.
Proof.
  intros [Hin Hf]%find_some. apply list_elem_of_In, rows_elem in Hin as [id Hid]. eauto.
Qed.

Lemma find_rows_None {A} (f : A → bool) (m : gmap uuid A) id r :
  List.find f (rows m) = None → m !! id = Some r → f r = false.
Proof. intros Hn Hid. apply (proj1 (find_None _ _) Hn), rows_elem. eauto. Qed.

Lemma filter_rows_elem {A} (f : A → bool) (m : gmap uuid A) r :
  r ∈ List.filter f (rows m) ↔ (∃ id, m !! id = Some r) ∧ f r = true.
Proof. by rewrite list_elem_of_In, filter_In, <-list_elem_of_In, rows_elem. Qed.

Lemma filed_elem d id r :
  r ∈ filed d id ↔ (∃ k, t_alerts d !! k = Some r) ∧ ar_incident r = Some id.
Proof. unfold filed. by rewrite filter_rows_elem, bool_decide_eq_true. Qed.

Lemma open_holder_None d key id r :
  open_holder d key = None → t_incidents d !! id = Some r → is_open (ir_room r) = true →
  room_key (ir_room r) ≠ key.
Proof.
  intros Hn Hid Ho Hk. pose proof (find_rows_None _ _ _ _ Hn Hid) as Hf. cbn in Hf.
  rewrite Ho, bool_decide_true in Hf; done.
Qed.

Lemma open_holder_Some d key r : open_holder d key = Some r →
  ∃ id, t_incidents d !! id = Some r ∧ is_open (ir_room r) = true ∧ room_key (ir_room r) = key.
Proof.
  intros (id & Hid & [Ho Hk%bool_decide_eq_true]%andb_prop)%find_rows_Some. eauto.
Qed.

(** ** Building blocks *)

(** [g] keeps what names and places a room. *)
Definition keeps_place (g : Incident → Incident) : Prop :=
  ∀ i, i_ID (g i) = i_ID i ∧ room_key (g i) = room_key i.

Lemma keeps_org g i : keeps_place g →
  i_OrganizationID (g i) = i_OrganizationID i ∧ i_RuleID (g i) = i_RuleID i.
Proof. intros H. destruct (H i) as [_ E]. by injection E. Qed.

Section map_rooms.
(** An UPDATE of [incidents], row by row; [g] may read the row's place. *)
Context (f : incident_row → bool) (g : incident_row → Incident).
Context (Hplace : ∀ r, i_ID (g r) = i_ID (ir_room r) ∧ room_key (g r) = room_key (ir_room r)).

Definition map_row (r : incident_row) : incident_row := if f r then mk_irow (ir_tenant r) (g r) else r.

Lemma map_row_place r :
  ir_tenant (map_row r) = ir_tenant r ∧ i_ID (ir_room (map_row r)) = i_ID (ir_room r) ∧
  room_key (ir_room (map_row r)) = room_key (ir_room r).
Proof. unfold map_row. destruct (f r); cbn; [|done]. destruct (Hplace r). done. Qed.

Lemma map_row_org r :
  i_OrganizationID (ir_room (map_row r)) = i_OrganizationID (ir_room r) ∧
  i_RuleID (ir_room (map_row r)) = i_RuleID (ir_room r).
Proof. destruct (map_row_place r) as (_ & _ & E). by injection E. Qed.

Lemma map_rooms_ok d :
  (∀ id r, t_incidents d !! id = Some r → f r = true → room_ok (ir_room r) → room_ok (g r)) →
  (∀ id id' r r', t_incidents d !! id = Some r → t_incidents d !! id' = Some r' →
     f r = true → is_open (g r) = true → is_open (ir_room (map_row r')) = true →
     room_key (ir_room r) = room_key (ir_room r') → id = id') →
  db_ok d → db_ok (set_incidents d (map_row <$> t_incidents d)).
Proof.
  intros Hroom Hopen Hok.
  assert (∀ id r, (map_row <$> t_incidents d) !! id = Some r →
            ∃ r0, t_incidents d !! id = Some r0 ∧ r = map_row r0) as Hlook.
  { intros id r. rewrite lookup_fmap. destruct (t_incidents d !! id); [|done]. intros [= <-]. eauto. }
  split; cbn; [| |..].
  - intros id r (r0 & H0 & ->)%Hlook. destruct (map_row_place r0) as (_ & -> & _). by apply Hok.
  - apply Hok.
  - intros id r (r0 & H0 & ->)%Hlook. destruct (map_row_place r0) as (-> & _ & _).
    destruct (map_row_org r0) as [-> _]. by eapply Hok.
  - apply Hok.
  - intros id r (r0 & H0 & ->)%Hlook. pose proof (ok_room d Hok id r0 H0) as Hr. unfold map_row.
    destruct (f r0) eqn:E; [|done]. by apply (Hroom id).
  - intros id id' r r' (r0 & H0 & ->)%Hlook (r1 & H1 & ->)%Hlook Ho Ho' Hk.
    destruct (map_row_place r0) as (_ & _ & Ek0). destruct (map_row_place r1) as (_ & _ & Ek1).
    rewrite Ek0, Ek1 in Hk. destruct (f r0) eqn:E0; [|destruct (f r1) eqn:E1].
    + apply (Hopen id id' r0 r1); auto. unfold map_row in Ho. by rewrite E0 in Ho.
    + symmetry. apply (Hopen id' id r1 r0); auto. unfold map_row in Ho'. by rewrite E1 in Ho'.
    + unfold map_row in Ho, Ho'. rewrite E0 in Ho. rewrite E1 in Ho'. by eapply (ok_open d Hok).
  - apply Hok.
  - intros id a room Ha Hi. destruct (ok_filed d Hok id a room Ha Hi) as (r & Hr & Ht & Ho & Hru).
    exists (map_row r). rewrite lookup_fmap, Hr. split; [done|].
    destruct (map_row_place r) as (Et & _ & _). destruct (map_row_org r) as [Eo Er].
    split_and!; congruence.
Qed.

(** An update that never opens a room. *)
Lemma map_rooms_ok_closing d :
  (∀ r, room_ok (ir_room r) → f r = true → room_ok (g r)) →
  (∀ r, f r = true → is_open (g r) = true → is_open (ir_room r) = true) →
  db_ok d → db_ok (set_incidents d (map_row <$> t_incidents d)).
Proof.
  intros Hroom Hopen Hok. apply map_rooms_ok; [by eauto| |done].
  intros id id' r r' Hr Hr' Hf Ho Ho' Hk. eapply (ok_open d Hok); eauto.
  unfold map_row in Ho'. destruct (f r') eqn:E; eauto.
Qed.
End map_rooms.

Lemma update_rooms_map f g d :
  update_rooms f g d = set_incidents d (map_row f (λ r, g (ir_room r)) <$> t_incidents d).
Proof. done. Qed.

(** A new room on a free key. *)
Lemma insert_room_ok d t room :
  db_ok d → room_ok room → t_incidents d !! i_ID room = None →
  t_organizations d !! i_OrganizationID room = Some (TenantID t) →
  (∀ id r, t_incidents d !! id = Some r → is_open (ir_room r) = true → room_key (ir_room r) ≠ room_key room) →
  db_ok (set_incidents d (<[i_ID room := mk_irow (TenantID t) room]> (t_incidents d))).
Proof.
  intros Hok Hroom Hfresh Horg Hfree. split; cbn.
  - intros id r [(<- & <-)|(_ & H)]%lookup_insert_Some; [done|]. by apply Hok.
  - apply Hok.
  - intros id r [(<- & <-)|(_ & H)]%lookup_insert_Some; [done|]. by eapply Hok.
  - apply Hok.
  - intros id r [(<- & <-)|(_ & H)]%lookup_insert_Some; [done|]. by eapply Hok.
  - intros id id' r r' [(<- & <-)|(_ & H)]%lookup_insert_Some [(<- & <-)|(_ & H')]%lookup_insert_Some Ho Ho' Hk;
      cbn in *; [done| | |].
    + exfalso. by apply (Hfree id' r').
    + exfalso. by apply (Hfree id r).
    + by eapply (ok_open d Hok).
  - apply Hok.
  - intros id a rid Ha Hi. destruct (ok_filed d Hok id a rid Ha Hi) as (r & Hr & Hb).
    exists r. split; [|done]. rewrite lookup_insert_ne; [done|]. intros <-. congruence.
Qed.

(** Filing alerts into a room they belong in. *)
Lemma attach_ok d f room r :
  db_ok d → t_incidents d !! room = Some r →
  (∀ id a, t_alerts d !! id = Some a → f a = true → belongs a r) → db_ok (attach f room d).
Proof.
  intros Hok Hr Hb. unfold attach.
  assert (∀ id a, ((λ a, if f a then with_incident room a else a) <$> t_alerts d) !! id = Some a →
            ∃ a0, t_alerts d !! id = Some a0 ∧ a = (if f a0 then with_incident room a0 else a0) ∧
                  ar_alert a = ar_alert a0 ∧ ar_tenant a = ar_tenant a0) as Hlook.
  { intros id a. rewrite lookup_fmap. destruct (t_alerts d !! id) as [a0|]; [|done]. intros [= <-].
    exists a0. cbn. by destruct (f a0). }
  split; cbn.
  - apply Hok.
  - intros id a (a0 & H0 & _ & -> & _)%Hlook. by apply Hok.
  - apply Hok.
  - intros id a (a0 & H0 & _ & -> & ->)%Hlook. by eapply Hok.
  - apply Hok.
  - apply Hok.
  - intros id id' a a' (a0 & H0 & _ & -> & _)%Hlook (a1 & H1 & _ & -> & _)%Hlook. by eapply Hok.
  - intros id a rid (a0 & H0 & E & Ea & Et)%Hlook Hi. subst a. destruct (f a0) eqn:Ef.
    + cbn in Hi. injection Hi as <-. exists r. split; [done|]. exact (Hb id a0 H0 Ef).
    + by eapply Hok.
Qed.

Lemma add_events_ok d l : db_ok d → db_ok (add_events d l).
Proof. intros []. by split. Qed.

Lemma close_rooms_ok gen f at_ reason d : db_ok d → db_ok (close_rooms gen f at_ reason d).
Proof.
  intros Hok. unfold close_rooms. apply add_events_ok. rewrite update_rooms_map.
  apply map_rooms_ok_closing; [done| |done|done].
  intros r [] _. by split.
Qed.

(** The tables no alert operation writes. *)
Definition frame (d d' : db) : Prop :=
  t_devices d' = t_devices d ∧ t_organizations d' = t_organizations d ∧
  t_limits d' = t_limits d ∧ t_users d' = t_users d.

Lemma frame_refl d : frame d d.
Proof. done. Qed.
Lemma frame_trans d1 d2 d3 : frame d1 d2 → frame d2 d3 → frame d1 d3.
Proof. unfold frame. intros (->&->&->&->) (->&->&->&->). done. Qed.

Lemma tx_bind_Ok {A B} (m : tx A) (f : A → tx B) d b d' :
  (m ≫= f) d = Ok (b, d') ↔ ∃ a d1, m d = Ok (a, d1) ∧ f a d1 = Ok (b, d').
Proof.
  unfold mbind, tx_bind. destruct (m d) as [[a d1]|e]; split.
  - eauto.
  - by intros (? & ? & [= <- <-] & ?).
  - done.
  - by intros (? & ? & ? & ?).
Qed.

(** Replacing one room. *)
Lemma replace_room_ok d id r i :
  db_ok d → t_incidents d !! id = Some r → i_ID i = id → room_key i = room_key (ir_room r) →
  room_ok i → (is_open i = true → is_open (ir_room r) = true) →
  db_ok (set_incidents d (<[id := mk_irow (ir_tenant r) i]> (t_incidents d))).
Proof.
  intros Hok Hr Hid Hk Hroom Hopen.
  assert (<[id := mk_irow (ir_tenant r) i]> (t_incidents d) =
          map_row (λ r', bool_decide (i_ID (ir_room r') = id)) (λ r', if bool_decide (r' = r) then i else ir_room r')
            <$> t_incidents d) as ->.
  { apply map_eq. intros j. rewrite lookup_fmap. destruct (decide (j = id)) as [->|Hne].
    - rewrite lookup_insert_eq, Hr. cbn. unfold map_row.
      rewrite !bool_decide_true; [done|done|]. by apply Hok.
    - rewrite lookup_insert_ne by done. destruct (t_incidents d !! j) as [r'|] eqn:Ej; [|done]. cbn.
      unfold map_row. rewrite bool_decide_false; [done|]. intros E.
      apply Hne. by rewrite <-E, (ok_room_id d Hok j r' Ej). }
  apply map_rooms_ok_closing; [| | |done].
  - intros r'. case_bool_decide as E; [|done]. subst r'. rewrite Hk. split; [|done].
    by rewrite Hid, (ok_room_id d Hok id r Hr).
  - intros r' Hro _. by case_bool_decide.
  - intros r' _. case_bool_decide as E; [|done]. by subst r'.
Qed.

(** ** Folding keeps the invariant *)

Definition keeps_state (g : Incident → Incident) : Prop :=
  ∀ i, i_ID (g i) = i_ID i ∧ room_key (g i) = room_key i ∧ i_Status (g i) = i_Status i ∧
       i_ResolvedAt (g i) = i_ResolvedAt i ∧ i_CauseCode (g i) = i_CauseCode i.

Lemma keeps_room_ok g i : keeps_state g → i_FirstSeen (g i) ≤ i_LastSeen (g i) → room_ok i → room_ok (g i).
Proof.
  intros Hk Hs []. destruct (Hk i) as (_ & _ & E1 & E2 & E3). split; unfold is_open in *; by rewrite ?E1, ?E2, ?E3.
Qed.

Section ops.
Context (text_length : bytes → Z) (gen : uuid → uuid) (interval_of : Z → Z).

Lemma upsert_room_ok t room update d id d' :
  db_ok d → room_ok room → is_open room = true → keeps_state update →
  upsert_room text_length t room update d = Ok (id, d') →
  db_ok d' ∧ frame d d' ∧ t_alerts d' = t_alerts d ∧
  ∃ r, t_incidents d' !! id = Some r ∧ room_key (ir_room r) = room_key room ∧
       is_open (ir_room r) = true ∧ visible t (ir_tenant r) = true.
Proof.
  intros Hok Hroom Hopen Hkeep. unfold upsert_room.
  destruct (incident_row_ok text_length room) eqn:Erow; [|done]. cbn.
  destruct (open_holder d (room_key room)) as [r|] eqn:Eh.
  - apply open_holder_Some in Eh as (rid & Hr & Ho & Hk). destruct (visible t (ir_tenant r)) eqn:Ev; [|done].
    cbn. destruct (incident_row_ok text_length (update (ir_room r))) eqn:Eu; [|done]. cbn. intros [= <- <-].
    rewrite (ok_room_id d Hok rid r Hr).
    destruct (Hkeep (ir_room r)) as (Ei & Ek & Es & _).
    assert (i_FirstSeen (update (ir_room r)) ≤ i_LastSeen (update (ir_room r))) as Hseen.
    { unfold incident_row_ok in Eu. by andbs. }
    split_and!; [|done|done|].
    + apply replace_room_ok; [done|done|rewrite Ei; by apply Hok|done| |done].
      apply keeps_room_ok; [done|done|]. by eapply Hok.
    + exists (mk_irow (ir_tenant r) (update (ir_room r))). cbn. rewrite lookup_insert_eq.
      split_and!; auto; [congruence|]. unfold is_open in *. by rewrite Es.
  - case_bool_decide as Efresh; [done|]. apply eq_None_not_Some in Efresh.
    destruct (organization_ok d _ _) eqn:Eo; [|done]. cbn. intros [= <- <-].
    apply bool_decide_eq_true in Eo. split_and!; [|done|done|].
    + apply insert_room_ok; auto. intros. by eapply open_holder_None.
    + exists (mk_irow (TenantID t) room). cbn. rewrite lookup_insert_eq. split_and!; auto.
      unfold visible. by rewrite bool_decide_true, orb_true_r.
Qed.

Lemma min_list_le x l : min_list x l ≤ x.
Proof. unfold min_list. induction l; cbn; lia. Qed.
Lemma max_list_ge x l : x ≤ max_list x l.
Proof. unfold max_list. induction l; cbn; lia. Qed.

Lemma restate_ok t id d d' :
  db_ok d → restateRoomFromItsAlertsSQL t id d = Ok (tt, d') →
  db_ok d' ∧ frame d d' ∧ t_alerts d' = t_alerts d.
Proof.
  intros Hok. unfold restateRoomFromItsAlertsSQL.
  destruct (List.filter _ _) as [|r0 held]; [by intros [= <-]|]. case_bool_decide; [done|].
  intros [= <-]. split_and!; [|done|done]. rewrite update_rooms_map.
  apply map_rooms_ok_closing; [done| |done|done]. intros r [Hr1 Hr2 Hr3 Hr4] _. split; try done.
  cbn [restated i_FirstSeen i_LastSeen]. lia.
Qed.

Lemma fileInto_ok t a id r d d' :
  db_ok d → t_incidents d !! id = Some r →
  (∀ row, t_alerts d !! a_ID a = Some row → belongs row r) →
  fileInto t a id d = Ok (tt, d') → db_ok d' ∧ frame d d'.
Proof.
  intros Hok Hr Hb. unfold fileInto. rewrite tx_bind_Ok. intros ([] & d1 & [= <-] & H).
  apply restate_ok in H as (H1 & H2 & _); [done|]. unfold attachAlertSQL. eapply attach_ok; [done..|].
  intros k row Hk [_ E%bool_decide_eq_true]%andb_prop. apply Hb.
  by rewrite <-E, (ok_alert_id d Hok k row Hk).
Qed.

Lemma scopeKeyFor_place t a scope d key :
  scopeKeyFor t a scope d = Ok key → k_organizationID key = a_OrganizationID a ∧ k_ruleID key = a_RuleID a.
Proof.
  destruct scope; cbn; [by intros [= <-]| |by intros [= <-]|done].
  destruct (t_devices d !! a_DeviceID a) as [dev|]; [|done]. case_bool_decide; [|done].
  destruct (dr_site dev); by intros [= <-].
Qed.

Lemma lockOpenRoom_Some t key d room :
  lockOpenRoomForKey t key d = Some room →
  ∃ id r, t_incidents d !! id = Some r ∧ ir_tenant r = TenantID t ∧ is_open (ir_room r) = true ∧
          room_key (ir_room r) = key ∧
          room = mk_open (i_ID (ir_room r)) (i_FirstSeen (ir_room r)) (i_LastSeen (ir_room r)).
Proof.
  unfold lockOpenRoomForKey. intros (r & E & Hf)%fmap_Some.
  apply find_rows_Some in E as (id & Hid & Hp).
  apply andb_prop in Hp as [[Ht%bool_decide_eq_true Ho]%andb_prop Hk%bool_decide_eq_true].
  exists id, r. done.
Qed.

(** The row the alert was just stored in. *)
Definition just_stored (t : Tenant) (a : Alert) (d : db) : Prop :=
  ∃ now, t_alerts d !! a_ID a = Some (mk_arow a (TenantID t) now None) ∧
         t_organizations d !! a_OrganizationID a = Some (TenantID t).

(** A room on the alert's key, by organization and rule, is in its tenant. *)
Lemma room_belongs t a d id r :
  db_ok d → just_stored t a d → t_incidents d !! id = Some r →
  i_OrganizationID (ir_room r) = a_OrganizationID a → i_RuleID (ir_room r) = a_RuleID a →
  ir_tenant r = TenantID t.
Proof.
  intros Hok (now & _ & Horg) Hr Ho _. pose proof (ok_room_tenant d Hok id r Hr). congruence.
Qed.

Lemma openRoom_ok t a g key new now d d' :
  db_ok d → just_stored t a d →
  k_organizationID key = a_OrganizationID a → k_ruleID key = a_RuleID a →
  openRoom_ text_length t a g key new now d = Ok (tt, d') → db_ok d' ∧ frame d d'.
Proof.
  intros Hok Hst Hko Hkr. unfold openRoom_. rewrite tx_bind_Ok. intros (id & d1 & Hup & H).
  apply upsert_room_ok in Hup as (Hok1 & Hf1 & Ha1 & r & Hr & Hk & Ho & _); [|done| |done|by intros []].
  2: { split; cbn; done. }
  cbn in H. rewrite tx_bind_Ok in H. destruct H as ([] & d2 & [= <-] & H).
  assert (just_stored t a d1) as Hst1.
  { destruct Hst as (n & H1 & H2). exists n. rewrite Ha1. split; [done|].
    destruct Hf1 as (_ & -> & _). done. }
  injection Hk as Eo Er Es Esk. cbn in Eo, Er.
  pose proof (room_belongs t a d1 id r Hok1 Hst1 Hr ltac:(congruence) ltac:(congruence)) as Ht.
  assert (db_ok (attachPendingObservationsSQL t id key (a_ObservedAt a - g_Window g)
                   (a_ObservedAt a + g_Window g) d1)) as Hok2.
  { eapply attach_ok; [done..|]. intros k row _ Hp. unfold pending in Hp.
    andbs. split_and!; congruence. }
  eapply fileInto_ok in H; [|done|exact Hr|].
  - destruct H as [? Hf2]. split; [done|]. exact (frame_trans _ _ _ Hf1 Hf2).
  - destruct Hst1 as (n & Hrow & _). intros row. cbn. rewrite lookup_fmap, Hrow. cbn.
    intros [= <-]. split_and!; destruct (pending _ _ _ _ _ _); cbn; congruence.
Qed.

Lemma just_stored_frame t a d d' :
  just_stored t a d → t_alerts d' = t_alerts d → frame d d' → just_stored t a d'.
Proof. intros (n & H1 & H2) Ha (_ & Ho & _). exists n. by rewrite Ha, Ho. Qed.

Lemma fold_open_ok t a g key new now d d' :
  db_ok d → just_stored t a d →
  k_organizationID key = a_OrganizationID a → k_ruleID key = a_RuleID a →
  fold_open text_length t a g key new now d = Ok (tt, d') → db_ok d' ∧ frame d d'.
Proof.
  intros Hok Hst Hko Hkr. unfold fold_open. rewrite tx_bind_Ok. intros (opens & d1 & [= <- <-] & H).
  destruct (opensARoom _ _ _ _ _); [by eapply openRoom_ok|]. by injection H as <-.
Qed.

Lemma fold_ok t a g new now d d' :
  db_ok d → just_stored t a d → fold text_length gen t a g new now d = Ok (tt, d') → db_ok d' ∧ frame d d'.
Proof.
  intros Hok Hst. unfold fold. destruct (scopeKeyFor t a (g_Scope g) d) as [key|] eqn:Ek; [|done].
  apply scopeKeyFor_place in Ek as [Hko Hkr].
  destruct (lockOpenRoomForKey t key d) as [room|] eqn:El; [|by apply fold_open_ok].
  apply lockOpenRoom_Some in El as (id & r & Hr & Ht & Ho & Hk & ->).
  destruct (spans _ _ _ _); [|destruct (lapsed _ _ _)].
  - apply (fileInto_ok _ _ _ r); [done|by cbn; rewrite (ok_room_id d Hok id r Hr)|].
    intros row. destruct Hst as (n & -> & _). intros [= <-].
    subst key. cbn in *. by split_and!.
  - intros H. pose proof (close_rooms_ok gen (λ r0, own_room t (i_ID (ir_room r)) r0 && is_open (ir_room r0))
      (λ _, i_LastSeen (ir_room r) + g_Window g) reason_lapsed d Hok) as Hok1.
    apply fold_open_ok in H as [? ?]; [done|done| |done|done].
    eapply just_stored_frame; [exact Hst|done|done].
  - by intros [= <-].
Qed.

Lemma foldIntoStorm_ok t org new at_ d d' :
  db_ok d → foldIntoStorm text_length t org new at_ d = Ok (tt, d') →
  db_ok d' ∧ frame d d' ∧ t_alerts d' = t_alerts d.
Proof.
  intros Hok. unfold foldIntoStorm. rewrite tx_bind_Ok. intros (id & d1 & Hup & [= <-]).
  apply upsert_room_ok in Hup as (? & ? & ? & _); [done|done| |done|by intros []].
  by split.
Qed.

(** What [storeAlertSQL] does when it writes. *)
Lemma storeAlert_Some t a now since limit d id d' :
  storeAlertSQL text_length t a now since limit d = Ok (Some id, d') →
  recent_count t (a_OrganizationID a) since d < limit ∧ alert_row_ok text_length a = true ∧
  t_alerts d !! a_ID a = None ∧ t_organizations d !! a_OrganizationID a = Some (TenantID t) ∧
  (∀ k r, t_alerts d !! k = Some r → same_identity (ar_alert r) a = false) ∧
  d' = set_alerts d (<[a_ID a := mk_arow a (TenantID t) now None]> (t_alerts d)).
Proof.
  unfold storeAlertSQL. case_bool_decide; [done|]. case_bool_decide; [|done]. cbn.
  destruct (alert_row_ok text_length a); [|done]. cbn.
  destruct (existsb _ _) eqn:Ex; [done|]. case_bool_decide as Ef; [done|].
  destruct (organization_ok _ _ _) eqn:Eo; [|done]. cbn. case_bool_decide; [done|]. intros [= <- <-].
  apply bool_decide_eq_true in Eo. split_and!; auto; [by apply eq_None_not_Some|].
  intros k r Hk. destruct (same_identity (ar_alert r) a) eqn:E; [|done].
  enough (existsb (λ r, same_identity (ar_alert r) a) (rows (t_alerts d)) = true) by congruence.
  apply existsb_exists. exists r. split; [|done]. apply list_elem_of_In, rows_elem. eauto.
Qed.

Lemma same_identity_sym a b : same_identity a b = same_identity b a.
Proof.
  unfold same_identity. f_equal; [f_equal; [f_equal|]|]; apply bool_decide_ext; split; congruence.
Qed.

Lemma storeAlert_ok t a now since limit d id d' :
  db_ok d → storeAlertSQL text_length t a now since limit d = Ok (Some id, d') →
  db_ok d' ∧ frame d d' ∧ just_stored t a d'.
Proof.
  intros Hok (_ & _ & Hfresh & Horg & Hid & ->)%storeAlert_Some. split_and!; [|done|].
  - split; cbn; [apply Hok| |apply Hok| |apply Hok|apply Hok| |].
    + intros k r [(<- & <-)|(_ & H)]%lookup_insert_Some; [done|]. by apply Hok.
    + intros k r [(<- & <-)|(_ & H)]%lookup_insert_Some; [done|]. by eapply Hok.
    + intros k k' r r' [(<- & <-)|(_ & H)]%lookup_insert_Some [(<- & <-)|(_ & H')]%lookup_insert_Some;
        cbn; intros E; [done| | |by eapply (ok_identity d Hok)].
      * rewrite same_identity_sym, (Hid k' r' H') in E. done.
      * rewrite (Hid k r H) in E. done.
    + intros k r room [(<- & <-)|(_ & H)]%lookup_insert_Some; [done|]. by eapply Hok.
  - exists now. cbn. by rewrite lookup_insert_eq.
Qed.

Lemma storeAlert_None t a now since limit d d' :
  storeAlertSQL text_length t a now since limit d = Ok (None, d') → d' = d.
Proof.
  unfold storeAlertSQL. repeat (case_bool_decide; try done; cbn); try (by intros [= <-]);
    destruct (alert_row_ok text_length a); try done; cbn; destruct (existsb _ _); try (by intros [= <-]);
    repeat (case_bool_decide; try done; cbn); destruct (organization_ok _ _ _); try done.
Qed.

Lemma record_tx_ok t a g new now d o d' :
  db_ok d → record_tx text_length gen t a g new now d = Ok (o, d') → db_ok d' ∧ frame d d'.
Proof.
  intros Hok. unfold record_tx. rewrite tx_bind_Ok. intros (lim & d1 & [= <- <-] & H).
  rewrite tx_bind_Ok in H. destruct H as ([id|] & d2 & Hs & H).
  - apply storeAlert_ok in Hs as (Hok2 & Hf2 & Hst); [|done]. rewrite tx_bind_Ok in H.
    destruct H as ([] & d3 & Hfold & [= <- <-]). apply fold_ok in Hfold as [? ?]; [|done..].
    split; [done|]. by eapply frame_trans.
  - apply storeAlert_None in Hs as ->. rewrite tx_bind_Ok in H. destruct H as (found & d3 & [= <- <-] & H).
    destruct (identity t a d); [by injection H as <- <-|]. rewrite tx_bind_Ok in H.
    destruct H as ([] & d4 & Hs & [= <- <-]). by apply foldIntoStorm_ok in Hs as (? & ? & _).
Qed.

(** *** Moves *)

Lemma own_room_iff t id d k r :
  db_ok d → t_incidents d !! k = Some r → own_room t id r = true ↔ ir_tenant r = TenantID t ∧ k = id.
Proof.
  intros Hok Hr. unfold own_room. rewrite andb_true_iff, !bool_decide_eq_true.
  by rewrite (ok_room_id d Hok k r Hr).
Qed.

Lemma roomUnderChange_Ok t id d st key :
  roomUnderChange t id d = Ok (st, key) →
  ∃ r, t_incidents d !! id = Some r ∧ ir_tenant r = TenantID t ∧ st = i_Status (ir_room r) ∧
       key = room_key (ir_room r).
Proof.
  unfold roomUnderChange. destruct (t_incidents d !! id) as [r|]; [|done]. case_bool_decide; [|done].
  intros [= <- <-]. eauto.
Qed.

Lemma own_rows_ne t id d r :
  db_ok d → t_incidents d !! id = Some r → ir_tenant r = TenantID t →
  r ∈ List.filter (own_room t id) (rows (t_incidents d)).
Proof.
  intros Hok Hr Ht. apply filter_rows_elem. split; [eauto|]. by apply (own_room_iff t id d id r Hok Hr).
Qed.

Lemma applyTransition_ok t id to at_ cause d d' r :
  db_ok d → t_incidents d !! id = Some r → ir_tenant r = TenantID t →
  (cause ≠ CauseNone → to = StatusResolved) →
  applyTransitionSQL t id to at_ cause d = Ok (tt, d') →
  db_ok d' ∧ frame d d' ∧ t_alerts d' = t_alerts d.
Proof.
  intros Hok Hr Ht Hcause. unfold applyTransitionSQL. pose proof (own_rows_ne t id d r Hok Hr Ht) as Hin.
  rewrite (bool_decide_true (List.filter _ _ ≠ [])) by (intros E; rewrite E in Hin; by apply not_elem_of_nil in Hin).
  destruct (known_status to) eqn:Eks, (bool_decide (cause = CauseNone) || knownCause cause);
    [|done..]. rewrite andb_true_l. cbn [negb orb].
  destruct (bool_decide (to ≠ StatusResolved) && _) eqn:Eh; [done|]. intros [= <-].
  split_and!; [|done|done]. rewrite update_rooms_map. apply map_rooms_ok; [done| | |done].
  - intros k r' _ _ [Hr1 Hr2 Hr3 Hr4]. split; cbn; auto. unfold is_open. cbn.
    destruct (decide (to = StatusResolved)) as [->|Hn]; [done|]. by rewrite bool_decide_true, bool_decide_false.
  - intros k k' r1 r2 H1 H2 Hf Ho Ho2 Hk. apply (own_room_iff t id d k r1 Hok H1) in Hf as [_ ->].
    unfold is_open in Ho. cbn in Ho. rewrite Ho in Eh. cbn in Eh. unfold map_row in Ho2.
    destruct (own_room t id r2) eqn:Ef2; [by apply (own_room_iff t id d k' r2 Hok H2) in Ef2 as [_ ->]|].
    assert (r1 = r) as -> by congruence.
    destruct (open_holder d (room_key (ir_room r))) as [h|] eqn:Eoh;
      [|exfalso; by eapply (open_holder_None d _ k' r2)].
    apply open_holder_Some in Eoh as (hid & Hh & Hho & Hhk).
    assert (i_ID (ir_room h) = id) as Ehid.
    { destruct (decide (i_ID (ir_room h) = id)) as [|Hne]; [done|]. exfalso.
      enough (existsb (λ r, match open_holder d (room_key (ir_room r)) with
                | Some h => negb (bool_decide (i_ID (ir_room h) = id)) | None => false end)
                (List.filter (own_room t id) (rows (t_incidents d))) = true) by congruence.
      apply existsb_exists. exists r. split; [by apply list_elem_of_In|].
      destruct (open_holder d (room_key (ir_room r))) as [h'|] eqn:E2;
        [|exfalso; by eapply (open_holder_None d _ hid h)].
      apply open_holder_Some in E2 as (hid' & Hh' & Hho' & Hhk').
      assert (hid' = hid) as -> by (eapply (ok_open d Hok); eauto; congruence).
      assert (h' = h) as -> by congruence. by rewrite bool_decide_false. }
    rewrite <-Ehid, (ok_room_id d Hok hid h Hh).
    eapply (ok_open d Hok); eauto; congruence.
Qed.

Lemma appendRoomEvent_ok t id at_ kind actor body line d d' :
  db_ok d → appendRoomEventSQL t id at_ kind actor body line d = Ok (tt, d') →
  db_ok d' ∧ frame d d' ∧ t_alerts d' = t_alerts d ∧ t_incidents d' = t_incidents d.
Proof.
  intros Hok. unfold appendRoomEventSQL. destruct (_ && _); [done|]. intros [= <-].
  split; [by apply add_events_ok|done].
Qed.

Lemma applyChange_ok t id at_ change body line d d' r :
  db_ok d → t_incidents d !! id = Some r → ir_tenant r = TenantID t →
  (ch_Cause change ≠ CauseNone → ch_To change = StatusResolved) →
  applyChange t id at_ change body line d = Ok (tt, d') →
  db_ok d' ∧ frame d d' ∧ t_alerts d' = t_alerts d.
Proof.
  intros Hok Hr Ht Hc. unfold applyChange. rewrite tx_bind_Ok. intros ([] & d1 & H1 & H2).
  eapply applyTransition_ok in H1 as (? & Hf & Ha); [|done..].
  apply appendRoomEvent_ok in H2 as (? & Hf2 & Ha2 & _); [|done].
  split_and!; [done|by eapply frame_trans|congruence].
Qed.

Lemma Change_check_cause c from : Change_check c from = Ok tt →
  (ch_Cause c ≠ CauseNone ↔ ch_To c = StatusResolved) ∧ allows from (ch_To c) = true ∧
  known_status (ch_To c) = true.
Proof.
  unfold Change_check. case_bool_decide as Ek; [|done]. cbn.
  destruct (bool_decide (ch_Cause c ≠ CauseNone) && _); [done|].
  destruct (allows from (ch_To c)); [|done]. cbn.
  destruct (ch_To c); try (by destruct Ek); repeat case_bool_decide; cbn; try done; intros _; split; done.
Qed.

Lemma Scoped_ind {A} (P : db → Prop) ctx (fn : Tenant → tx A) d :
  P d → (∀ t a d', TenantFromContext ctx = Some t → fn t d = Ok (a, d') → P d') → P (Scoped ctx fn d).2.
Proof.
  intros Hd Hfn. unfold Scoped. destruct (TenantFromContext ctx) as [t|] eqn:E; [|done].
  destruct (fn t d) as [[a d']|] eqn:Ef; [|done]. by eapply Hfn.
Qed.

(** *** Erasure and retention *)

Lemma delete_alerts_ok f d : db_ok d → db_ok (delete_alerts f d).
Proof.
  intros Hok. assert (∀ id a, t_alerts (delete_alerts f d) !! id = Some a → t_alerts d !! id = Some a) as Hl.
  { cbn. intros id a [H _]%map_lookup_filter_Some. done. }
  split; cbn in *; try apply Hok; intros; eauto using ok_alert_id, ok_alert_tenant, ok_identity, ok_filed.
Qed.

Lemma delete_alert_ids_ok ids d : db_ok d → db_ok (delete_alert_ids ids d).
Proof.
  intros Hok. assert (∀ id a, t_alerts (delete_alert_ids ids d) !! id = Some a → t_alerts d !! id = Some a) as Hl.
  { cbn. intros id a [H _]%map_lookup_filter_Some. done. }
  split; cbn in *; try apply Hok; intros; eauto using ok_alert_id, ok_alert_tenant, ok_identity, ok_filed.
Qed.

(** What is left after [delete_rooms]. *)
Lemma delete_rooms_alert f d k a :
  t_alerts (delete_rooms f d) !! k = Some a →
  ∃ a0, t_alerts d !! k = Some a0 ∧ ar_alert a = ar_alert a0 ∧ ar_tenant a = ar_tenant a0 ∧
        ∀ room, ar_incident a = Some room → ar_incident a0 = Some room ∧
          ∀ r, t_incidents d !! room = Some r → t_incidents (delete_rooms f d) !! room = Some r.
Proof.
  cbn. rewrite lookup_fmap. destruct (t_alerts d !! k) as [a0|]; [|done]. cbn. intros [= <-].
  exists a0. destruct (ar_incident a0) as [room0|] eqn:Ei; cbn; [|rewrite Ei; split_and!; auto; done].
  rewrite orb_false_r. destruct (bool_decide _ && _) eqn:Eg; cbn; [done|].
  split_and!; auto. intros room. rewrite Ei. intros [= <-]. split; [done|]. intros r Hr.
  rewrite Hr, bool_decide_true in Eg by eauto. cbn in Eg.
  apply bool_decide_eq_false in Eg. rewrite map_lookup_filter_Some. split; [done|]. cbn.
  destruct (f r) eqn:Ef; [|done]. exfalso. apply Eg, map_lookup_filter_None. right.
  intros r' Hr'. cbn. congruence.
Qed.

Lemma delete_rooms_ok f d : db_ok d → db_ok (delete_rooms f d).
Proof.
  intros Hok. assert (∀ id r, t_incidents (delete_rooms f d) !! id = Some r → t_incidents d !! id = Some r) as Hi.
  { cbn. intros id r [H _]%map_lookup_filter_Some. done. }
  split.
  - intros id r H%Hi. by apply Hok.
  - intros id a (a0 & H & -> & _)%delete_rooms_alert. by apply Hok.
  - intros id r H%Hi. by eapply (ok_room_tenant d Hok).
  - intros id a (a0 & H & -> & -> & _)%delete_rooms_alert. by eapply (ok_alert_tenant d Hok).
  - intros id r H%Hi. by eapply Hok.
  - intros id id' r r' H%Hi H'%Hi. by eapply (ok_open d Hok).
  - intros id id' a a' (a0 & H & -> & _)%delete_rooms_alert (a1 & H' & -> & _)%delete_rooms_alert.
    by eapply (ok_identity d Hok).
  - intros id a room (a0 & H & Ea & Et & Hroom)%delete_rooms_alert Hr.
    destruct (Hroom room Hr) as [Hr0 Hkeep]. destruct (ok_filed d Hok id a0 room H Hr0) as (r & Hri & Hb).
    exists r. split; [by apply Hkeep|]. unfold belongs in *. by rewrite Ea, Et.
Qed.

Lemma recount_ok tenant device d : db_ok d → db_ok (recountRoomsLosingADeviceSQL tenant device d).
Proof.
  intros Hok. unfold recountRoomsLosingADeviceSQL.
  apply (map_rooms_ok_closing (λ r, bool_decide (ir_tenant r = tenant) && feeds device d r)
    (λ r, with_counts (ir_room r) _ _)); [done| |done|done].
  intros r [] _. by split.
Qed.

Lemma drain_ind (P : db → Prop) expired delete budget total d :
  (∀ ids d, P d → P (delete ids d)) → P d → P (drain expired delete budget total d).2.
Proof.
  intros Hdel. revert total d. induction budget as [|budget IH]; intros total d Hd; cbn [drain]; [done|].
  case_bool_decide; cbn; [by apply Hdel|]. apply IH. by apply Hdel.
Qed.

Lemma Sweep_ind (P : db → Prop) horizon now budget d :
  (∀ ids d, P d → P (delete_alert_ids ids d)) → (∀ ids d, P d → P (delete_room_ids ids d)) → P d →
  P (SweepExpired horizon now budget d).2.
Proof.
  intros Ha Hr Hd. unfold SweepExpired. case_bool_decide; [done|].
  pose proof (drain_ind P (expired_alerts (now - horizon)) delete_alert_ids budget 0 d Ha Hd) as H1.
  destruct (drain (expired_alerts _) _ _ _ _) as [[[alerts fin] b] d1]. cbn in H1.
  destruct fin; cbn; [|done].
  pose proof (drain_ind P (expired_rooms (now - horizon)) delete_room_ids b 0 d1 Hr H1) as H2.
  by destruct (drain (expired_rooms _) _ _ _ _) as [[[rooms fin] b'] d2].
Qed.

(** ** Every operation *)

Inductive store_op :=
  | OpRecord (ctx : option Tenant) (a : Alert) (g : Grouping) (new : uuid) (now : Z)
  | OpTransition (ctx : option Tenant) (id : uuid) (change : Change) (line : uuid) (now : Z)
  | OpReopen (ctx : option Tenant) (id actor line : uuid) (now : Z)
  | OpAssign (ctx : option Tenant) (id assignee actor line : uuid) (now : Z)
  | OpComment (ctx : option Tenant) (id actor line : uuid) (note : bytes) (now : Z)
  | OpUpsertLimits (ctx : option Tenant) (l : Limits)
  | OpResolveStale (windows : gmap bytes Z) (now : Z)
  | OpEraseDevice (tenant device : uuid) (now : Z)
  | OpEraseTenant (tenant : uuid)
  | OpSweep (horizon now : Z) (budget : nat)
  (* what other parts of the server do to the tables the store reads *)
  | OpDevice (id : uuid) (row : device_row)
  | OpOrganization (id tenant : uuid)
  | OpUser (id : uuid).

Definition run_op (op : store_op) (d : db) : db :=
  match op with
  | OpRecord ctx a g new now => (Record_ text_length gen ctx a g new now d).2
  | OpTransition ctx id change line now => (Transition ctx id change line now d).2
  | OpReopen ctx id actor line now => (Reopen ctx id actor line now d).2
  | OpAssign ctx id assignee actor line now => (Assign ctx id assignee actor line now d).2
  | OpComment ctx id actor line note now => (Comment ctx id actor line note now d).2
  | OpUpsertLimits ctx l => (UpsertLimits ctx l d).2
  | OpResolveStale windows now => (ResolveStale gen interval_of windows now d).2
  | OpEraseDevice tenant device now => (EraseDeviceAlerts gen tenant device now d).2
  | OpEraseTenant tenant => (EraseTenantInvestigations tenant d).2
  | OpSweep horizon now budget => (SweepExpired horizon now budget d).2
  | OpDevice id row =>
      mk_db (t_alerts d) (t_incidents d) (t_events d) (<[id := row]> (t_devices d)) (t_organizations d)
        (t_limits d) (t_users d)
  | OpOrganization id tenant =>
      if bool_decide (t_organizations d !! id = None)
      then mk_db (t_alerts d) (t_incidents d) (t_events d) (t_devices d) (<[id := tenant]> (t_organizations d))
             (t_limits d) (t_users d)
      else d
  | OpUser id =>
      mk_db (t_alerts d) (t_incidents d) (t_events d) (t_devices d) (t_organizations d)
        (t_limits d) ({[id]} ∪ t_users d)
  end.

Definition run_ops (ops : list store_op) (d : db) : db := foldl (λ d op, run_op op d) d ops.

Definition empty_db : db := mk_db ∅ ∅ [] ∅ ∅ ∅ ∅.

Lemma Record_ind (P : db → Prop) ctx a g new now d :
  P d →
  (∀ t o d', TenantFromContext ctx = Some t → Grouping_check g = Ok tt →
     record_tx text_length gen t (normalized a) g new (truncate_us now) d = Ok (o, d') → P d') →
  P (Record_ text_length gen ctx a g new now d).2.
Proof.
  intros Hd Hr. unfold Record_. destruct (TenantFromContext ctx) as [t|] eqn:E; [|done].
  destruct (Grouping_check g) as [[]|] eqn:Eg; [|done]. apply Scoped_ind; [done|].
  intros t' o d' Ht'. rewrite E in Ht'. injection Ht' as <-. by apply Hr.
Qed.

Lemma Transition_ok ctx id change line now d : db_ok d → db_ok (Transition ctx id change line now d).2.
Proof.
  intros Hok. unfold Transition. apply Scoped_ind; [done|]. intros t [] d' _.
  destruct (roomUnderChange t id d) as [[st key]|] eqn:E; [|done].
  destruct (Change_check change st) as [[]|] eqn:Ec; [|done]. intros H.
  apply roomUnderChange_Ok in E as (r & Hr & Ht & _). apply Change_check_cause in Ec as (Hc & _).
  eapply applyChange_ok; [done|exact Hr|exact Ht| |exact H]. by intros ?%Hc.
Qed.

Lemma Reopen_ok ctx id actor line now d : db_ok d → db_ok (Reopen ctx id actor line now d).2.
Proof.
  intros Hok. unfold Reopen. apply Scoped_ind; [done|]. intros t [] d' _.
  destruct (roomUnderChange t id d) as [[st key]|] eqn:E; [|done].
  case_bool_decide; [done|]. case_bool_decide; [done|]. intros Hrun.
  apply roomUnderChange_Ok in E as (r & Hr & Ht & _). by eapply applyChange_ok in Hrun as (? & _).
Qed.

Lemma Assign_ok ctx id assignee actor line now d : db_ok d → db_ok (Assign ctx id assignee actor line now d).2.
Proof.
  intros Hok. unfold Assign. apply Scoped_ind; [done|]. intros t [] d' _.
  destruct (roomUnderChange t id d); [|done]. destruct (user_ok _ _); [|done]. cbn [negb]. intros H.
  eapply appendRoomEvent_ok; [|exact H]. rewrite update_rooms_map. apply map_rooms_ok_closing; [done| |done|done].
  intros r [] _. by split.
Qed.

Lemma Comment_ok ctx id actor line note now d : db_ok d → db_ok (Comment ctx id actor line note now d).2.
Proof.
  intros Hok. unfold Comment. case_bool_decide; [done|]. apply Scoped_ind; [done|]. intros t [] d' _.
  destruct (roomUnderChange t id d); [|done]. intros Hrun. by eapply appendRoomEvent_ok.
Qed.

Lemma set_limits_ok d x : db_ok d → db_ok (set_limits d x).
Proof. intros []. by split. Qed.

Lemma UpsertLimits_ok ctx l d : db_ok d → db_ok (UpsertLimits ctx l d).2.
Proof.
  intros Hok. unfold UpsertLimits. destruct (ValidateLimits l); [|done]. apply Scoped_ind; [done|].
  intros t [] d' _. destruct (t_limits d !! _); [destruct (visible _ _)|destruct (organization_ok _ _ _)];
    try done; intros [= <-]; by apply set_limits_ok.
Qed.

Lemma run_op_ok op d : db_ok d → db_ok (run_op op d).
Proof.
  intros Hok. destruct op; cbn [run_op].
  - apply Record_ind; [done|]. intros t o d' _ _ H. by eapply record_tx_ok in H as [? _].
  - by apply Transition_ok.
  - by apply Reopen_ok.
  - by apply Assign_ok.
  - by apply Comment_ok.
  - by apply UpsertLimits_ok.
  - unfold ResolveStale. apply Scoped_ind; [done|]. intros t n d' _ [= _ <-]. by apply close_rooms_ok.
  - unfold EraseDeviceAlerts. apply Scoped_ind; [done|]. intros t n d' _ [= _ <-].
    by apply delete_alerts_ok, close_rooms_ok, recount_ok.
  - unfold EraseTenantInvestigations. apply Scoped_ind; [done|]. intros t n d' _ [= _ <-].
    by apply delete_rooms_ok, delete_alerts_ok.
  - apply Sweep_ind; [|intros; by apply delete_rooms_ok|done]. intros; by apply delete_alert_ids_ok.
  - destruct Hok. by split.
  - case_bool_decide as Hn; [|done]. destruct Hok as [H1 H2 H3 H4 H5 H6 H7 H8].
    split; cbn; try done.
    + intros rid r Hr. rewrite lookup_insert_ne; [by eapply H3|]. intros ->.
      pose proof (H3 rid r Hr). congruence.
    + intros aid a Ha. rewrite lookup_insert_ne; [by eapply H4|]. intros ->.
      pose proof (H4 aid a Ha). congruence.
  - destruct Hok. by split.
Qed.

Lemma empty_db_ok : db_ok empty_db.
Proof. split; cbn; intros *; by rewrite lookup_empty. Qed.

Lemma run_ops_ok ops d : db_ok d → db_ok (run_ops ops d).
Proof.
  unfold run_ops. revert d. induction ops as [|op ops IH]; intros d Hd; cbn; [done|].
  by apply IH, run_op_ok.
Qed.
End ops.

(** ** Two open rooms, for the witnesses *)

Definition room_at (n : byte) (last : Z) : Incident :=
  mk_incident (replicate 16 n) (replicate 16 x02) (lit "cpu-high") ScopeDevice (replicate 16 n)
    SeverityWarning StatusNew Nil last None CauseNone last last 1 1.

Definition two_rooms : db :=
  mk_db ∅ {[ replicate 16 x05 := mk_irow (replicate 16 x03) (room_at x05 100);
             replicate 16 x06 := mk_irow (replicate 16 x03) (room_at x06 100) ]}
    [] ∅ {[ replicate 16 x02 := replicate 16 x03 ]} ∅ ∅.

Lemma two_rooms_lookup id r :
  t_incidents two_rooms !! id = Some r →
  (id = replicate 16 x05 ∧ r = mk_irow (replicate 16 x03) (room_at x05 100)) ∨
  (id = replicate 16 x06 ∧ r = mk_irow (replicate 16 x03) (room_at x06 100)).
Proof.
  cbn. intros [(<- & <-)|(_ & [<- <-]%lookup_singleton_Some)]%lookup_insert_Some; auto.
Qed.

Lemma two_rooms_ok : db_ok two_rooms.
Proof.
  split; try (intros *; cbn; by rewrite lookup_empty).
  - intros id r [[-> ->]|[-> ->]]%two_rooms_lookup; reflexivity.
  - intros id r [[-> ->]|[-> ->]]%two_rooms_lookup; reflexivity.
  - intros id r [[-> ->]|[-> ->]]%two_rooms_lookup; by split.
  - intros id id' r r' [[-> ->]|[-> ->]]%two_rooms_lookup [[-> ->]|[-> ->]]%two_rooms_lookup _ _; done.
Qed.
