(* ===== verification/AlertCounts.v ===== *)
(** * A room's counters are what its alerts say

    [counts_ok]: outside the storm room, which counts refused alerts, a room's
    [occurrences] and [device_count] are those of the alerts filed in it, and
    its seen interval covers them.  Every operation of the store keeps it but
    the retention sweep, which deletes old alerts without restating rooms. *)
From S2P Require Import Prelude Float Settings Sorting Dbtx Incident AlertStore AlertStoreInv.
#[local] Open Scope Z_scope.

Record room_counts (held : list alert_row) (i : Incident) : Prop := {
  rc_occurrences : i_Occurrences i = Z.of_nat (length held);
  rc_devices : i_DeviceCount i = Z.of_nat (length (distinct_devices held));
  rc_seen : ∀ a, a ∈ held → i_FirstSeen i ≤ a_ObservedAt (ar_alert a) ≤ i_LastSeen i;
}.

Definition counts_ok (d : db) : Prop :=
  ∀ id r, t_incidents d !! id = Some r → i_RuleID (ir_room r) ≠ StormRuleID →
    room_counts (filed d id) (ir_room r).

(** ** The filed alerts, as a multiset *)

#[global] Instance bool_filter_perm {A} (f : A → bool) : Proper ((≡ₚ) ==> (≡ₚ)) (List.filter f).
Proof.
  intros l k. induction 1 as [|x l k _ IH|x y l|l k m _ IH1 _ IH2]; cbn; [done| | |by rewrite IH1].
  - destruct (f x); by rewrite IH.
  - destruct (f x), (f y); done || apply perm_swap.
Qed.

Lemma filter_rows_perm {A} (f : A → bool) (m : gmap uuid A) :
  List.filter f (rows m) ≡ₚ rows (filter (λ kv, f kv.2 = true) m).
Proof.
  induction m as [|k x m Hk IH] using map_ind; [done|]. unfold rows in *.
  rewrite map_to_list_insert by done. cbn. destruct (f x) eqn:E.
  - rewrite map_filter_insert_True by done. rewrite map_to_list_insert.
    + cbn. by rewrite IH.
    + apply map_lookup_filter_None. by left.
  - rewrite map_filter_insert_False by (cbn; congruence). by rewrite delete_id by done.
Qed.

Definition filed_map (d : db) (id : uuid) : gmap uuid alert_row :=
  filter (λ kv, bool_decide (ar_incident kv.2 = Some id) = true) (t_alerts d).

Lemma filed_rows d id : filed d id ≡ₚ rows (filed_map d id).
Proof. apply filter_rows_perm. Qed.

Lemma filed_map_lookup d id k a :
  filed_map d id !! k = Some a ↔ t_alerts d !! k = Some a ∧ ar_incident a = Some id.
Proof. unfold filed_map. rewrite map_lookup_filter_Some. cbn. by rewrite bool_decide_eq_true. Qed.

(** Two databases in which a room holds the same alerts, key by key. *)
Lemma filed_same d d' id :
  (∀ k a, t_alerts d !! k = Some a ∧ ar_incident a = Some id ↔
          t_alerts d' !! k = Some a ∧ ar_incident a = Some id) → filed d id ≡ₚ filed d' id.
Proof.
  intros H. rewrite !filed_rows. assert (filed_map d id = filed_map d' id) as ->; [|done].
  apply map_eq. intros k. apply option_eq. intros a. by rewrite !filed_map_lookup.
Qed.

Lemma distinct_devices_perm l k : l ≡ₚ k → length (distinct_devices l) = length (distinct_devices k).
Proof.
  intros Hp. apply Permutation_length. unfold distinct_devices.
  apply NoDup_Permutation; [apply NoDup_remove_dups..|]. intros x. by rewrite !elem_of_remove_dups, Hp.
Qed.

Lemma room_counts_perm l k i : l ≡ₚ k → room_counts l i → room_counts k i.
Proof.
  intros Hp [H1 H2 H3]. split.
  - by rewrite <-Hp.
  - by rewrite <-(distinct_devices_perm l k Hp).
  - intros a. rewrite <-Hp. apply H3.
Qed.

(** The counters and interval of [i'] are as good as those of [i]. *)
Definition same_counts (i i' : Incident) : Prop :=
  i_RuleID i' = i_RuleID i ∧ i_Occurrences i' = i_Occurrences i ∧ i_DeviceCount i' = i_DeviceCount i ∧
  i_FirstSeen i' ≤ i_FirstSeen i ∧ i_LastSeen i ≤ i_LastSeen i'.

Lemma room_counts_same l i i' : same_counts i i' → room_counts l i → room_counts l i'.
Proof.
  intros (_ & E1 & E2 & Hf & Hl) [H1 H2 H3]. split; [congruence|congruence|].
  intros a Ha. specialize (H3 a Ha). lia.
Qed.

Lemma counts_frame d d' :
  counts_ok d →
  (∀ id r', t_incidents d' !! id = Some r' → i_RuleID (ir_room r') ≠ StormRuleID →
     ∃ r, t_incidents d !! id = Some r ∧ same_counts (ir_room r) (ir_room r') ∧ filed d id ≡ₚ filed d' id) →
  counts_ok d'.
Proof.
  intros Hc H id r' Hr' Hs. destruct (H id r' Hr' Hs) as (r & Hr & Hsame & Hp).
  apply (room_counts_perm (filed d id)); [done|]. apply (room_counts_same _ (ir_room r)); [done|].
  apply Hc; [done|]. destruct Hsame as (<- & _). done.
Qed.

Lemma same_counts_refl i : same_counts i i.
Proof. unfold same_counts. split_and!; lia || done. Qed.

(** ** Rooms change, alerts stay *)

Lemma counts_update_rooms f g d :
  (∀ i, same_counts i (g i)) → counts_ok d → counts_ok (update_rooms f g d).
Proof.
  intros Hg Hc. apply (counts_frame d); [done|]. cbn. intros id r'. rewrite lookup_fmap.
  destruct (t_incidents d !! id) as [r|]; [|done]. cbn. intros [= <-] _. exists r. split_and!; auto.
  destruct (f r); [apply Hg|apply same_counts_refl].
Qed.

Lemma counts_add_events d l : counts_ok d → counts_ok (add_events d l).
Proof. done. Qed.

Lemma counts_close_rooms gen f at_ reason d : counts_ok d → counts_ok (close_rooms gen f at_ reason d).
Proof.
  intros Hc. apply counts_add_events, counts_update_rooms; [|done]. intros i. exact (same_counts_refl i).
Qed.

Lemma filed_fresh d id : db_ok d → t_incidents d !! id = None → filed d id = [].
Proof.
  intros Hok Hn. destruct (filed d id) as [|a l] eqn:E; [done|]. exfalso.
  assert (a ∈ filed d id) as [[k Hk] Hi]%filed_elem by (rewrite E; by left).
  destruct (ok_filed d Hok k a id Hk Hi) as (r & Hr & _). congruence.
Qed.

Lemma counts_upsert tl t room update d id d' :
  db_ok d → counts_ok d →
  (i_RuleID room = StormRuleID ∨ i_Occurrences room = 0 ∧ i_DeviceCount room = 0) →
  (∀ i, i_ID (update i) = i_ID i ∧ i_RuleID (update i) = i_RuleID i) →
  (∀ i, room_key i = room_key room → i_RuleID i = StormRuleID ∨ same_counts i (update i)) →
  upsert_room tl t room update d = Ok (id, d') → counts_ok d'.
Proof.
  intros Hok Hc Hroom Hkeep Hup. unfold upsert_room. destruct (incident_row_ok tl room); [|done]. cbn.
  destruct (open_holder d (room_key room)) as [r|] eqn:Eh.
  - apply open_holder_Some in Eh as (rid & Hr & _ & Hk). destruct (visible _ _); [|done]. cbn.
    destruct (incident_row_ok tl (update (ir_room r))); [|done]. cbn. intros [= <- <-].
    rewrite (ok_room_id d Hok rid r Hr). apply (counts_frame d); [done|]. cbn.
    intros id' r' [(<- & <-)|(_ & H)]%lookup_insert_Some Hs; cbn in *.
    + exists r. destruct (Hup (ir_room r) Hk) as [E|E]; [|by split_and!].
      destruct (Hkeep (ir_room r)) as [_ Er]. congruence.
    + exists r'. split_and!; auto. apply same_counts_refl.
  - case_bool_decide as Ef; [done|]. apply eq_None_not_Some in Ef. destruct (organization_ok _ _ _); [|done].
    cbn. intros [= <- <-] id' r' Hr'. cbn in Hr'. apply lookup_insert_Some in Hr' as [(<- & <-)|(_ & H)]; intros Hs; cbn in *.
    + destruct Hroom as [?|[E1 E2]]; [done|]. change (filed _ (i_ID room)) with (filed d (i_ID room)).
      rewrite filed_fresh by done. split; [done..|]. intros a Ha. by apply not_elem_of_nil in Ha.
    + by apply Hc.
Qed.

(** ** Alerts are stored and filed *)

Lemma counts_store tl t a now since limit d id d' :
  counts_ok d → storeAlertSQL tl t a now since limit d = Ok (Some id, d') → counts_ok d'.
Proof.
  intros Hc (_ & _ & Hfresh & _ & _ & ->)%storeAlert_Some. apply (counts_frame d); [done|]. cbn.
  intros rid r Hr _. exists r. split_and!; [done|apply same_counts_refl|]. apply filed_same. cbn.
  intros k x. split; intros [H Hi]; (split; [|done]).
  - rewrite lookup_insert_ne; [done|]. intros <-. congruence.
  - apply lookup_insert_Some in H as [(<- & <-)|(_ & H)]; done.
Qed.

(** Every room but [id] counts what it holds. *)
Definition counts_but (id : uuid) (d : db) : Prop :=
  ∀ id' r, id' ≠ id → t_incidents d !! id' = Some r → i_RuleID (ir_room r) ≠ StormRuleID →
    room_counts (filed d id') (ir_room r).

(** Filing alerts that are in no room, or in [id] already, touches [id] alone. *)
Lemma counts_attach f id d :
  (∀ k a, t_alerts d !! k = Some a → f a = true → ar_incident a = None ∨ ar_incident a = Some id) →
  counts_but id d → counts_but id (attach f id d).
Proof.
  intros Hf Hc id' r Hne Hr Hs. cbn in Hr.
  apply (room_counts_perm (filed d id')); [|by apply Hc]. apply filed_same. cbn. intros k a.
  rewrite lookup_fmap. destruct (t_alerts d !! k) as [a0|] eqn:E; cbn; [|split; by intros []].
  destruct (f a0) eqn:Ef; [|done]. destruct (Hf k a0 E Ef) as [Hi|Hi].
  - split; intros [[= <-] H]; cbn in *; congruence.
  - split; intros [[= <-] H]; cbn in *; congruence.
Qed.

Lemma filter_all {A} (f : A → bool) l : (∀ x, x ∈ l → f x = true) → List.filter f l = l.
Proof.
  induction l as [|x l IH]; cbn; intros H; [done|]. rewrite (H x) by (by left). f_equal. apply IH.
  intros y Hy. apply H. by right.
Qed.

Lemma fold_min_le x l y : y ∈ l → min_list x l ≤ y.
Proof.
  unfold min_list. induction l as [|z l IH]; cbn; intros Hy; [by apply not_elem_of_nil in Hy|].
  apply elem_of_cons in Hy as [->|Hy]; [lia|]. specialize (IH Hy). lia.
Qed.

Lemma fold_max_ge x l y : y ∈ l → y ≤ max_list x l.
Proof.
  unfold max_list. induction l as [|z l IH]; cbn; intros Hy; [by apply not_elem_of_nil in Hy|].
  apply elem_of_cons in Hy as [->|Hy]; [lia|]. specialize (IH Hy). lia.
Qed.

(** The alerts of a room are in its tenant. *)
Lemma filed_visible d t id r a :
  db_ok d → t_incidents d !! id = Some r → ir_tenant r = TenantID t → a ∈ filed d id →
  visible t (ar_tenant a) = true.
Proof.
  intros Hok Hr Ht [[k Hk] Hi]%filed_elem. destruct (ok_filed d Hok k a id Hk Hi) as (r' & Hr' & Et & _).
  assert (r' = r) as -> by congruence. unfold visible. rewrite <-Et, Ht, bool_decide_true by done.
  apply orb_true_r.
Qed.

Lemma counts_restate t id r d d' :
  db_ok d → counts_but id d → t_incidents d !! id = Some r → ir_tenant r = TenantID t → filed d id ≠ [] →
  restateRoomFromItsAlertsSQL t id d = Ok (tt, d') → counts_ok d'.
Proof.
  intros Hok Hc Hr Ht Hne. unfold restateRoomFromItsAlertsSQL.
  rewrite filter_all by (intros a; by eapply filed_visible).
  destruct (filed d id) as [|a0 l] eqn:E; [done|]. case_bool_decide; [done|]. intros [= <-].
  intros id' r'. cbn -[filed]. rewrite lookup_fmap. destruct (t_incidents d !! id') as [r0|] eqn:E0; [|done].
  cbn -[filed]. intros [= <-]. change (filed _ id') with (filed d id').
  destruct (own_room t id r0) eqn:Eo.
  - apply (own_room_iff t id d id' r0 Hok E0) in Eo as [_ ->]. intros _. rewrite E. split; [done..|].
    intros a Ha. pose proof (list_elem_of_fmap_2 (λ r, a_ObservedAt (ar_alert r)) _ _ Ha) as Hobs. split.
    + exact (fold_min_le (a_ObservedAt (ar_alert a0)) _ _ Hobs).
    + exact (fold_max_ge (a_ObservedAt (ar_alert a0)) _ _ Hobs).
  - intros Hs. apply Hc; [|done|done]. intros ->. assert (r0 = r) as -> by congruence.
    by rewrite (proj2 (own_room_iff t id d id r Hok Hr)) in Eo.
Qed.

(** The alert waiting to be filed into [id]. *)
Definition awaiting (t : Tenant) (a : Alert) (id : uuid) (d : db) : Prop :=
  ∃ row, t_alerts d !! a_ID a = Some row ∧ ar_alert row = a ∧ ar_tenant row = TenantID t ∧
         (ar_incident row = None ∨ ar_incident row = Some id).

Lemma counts_fileInto t a id r d d' :
  db_ok d → counts_but id d → t_incidents d !! id = Some r → ir_tenant r = TenantID t →
  i_OrganizationID (ir_room r) = a_OrganizationID a → i_RuleID (ir_room r) = a_RuleID a →
  awaiting t a id d → fileInto t a id d = Ok (tt, d') → counts_ok d'.
Proof.
  intros Hok Hc Hr Ht Ho Hrule (row & Hrow & Ea & Et & Hi). unfold fileInto. rewrite tx_bind_Ok.
  intros ([] & d1 & [= <-] & H).
  assert (∀ k x, t_alerts d !! k = Some x →
    bool_decide (ar_tenant x = TenantID t) && bool_decide (a_ID (ar_alert x) = a_ID a) = true → x = row) as Hone.
  { intros k x Hk Hf. andbs. assert (k = a_ID a) as -> by (rewrite <-(ok_alert_id d Hok k x Hk); congruence).
    congruence. }
  apply (counts_restate t id r (attachAlertSQL t id (a_ID a) d)); [| |exact Hr|done| |exact H].
  - eapply attach_ok; [done|exact Hr|]. intros k x Hk Hf. rewrite (Hone k x Hk Hf). subst a.
    split_and!; congruence.
  - apply counts_attach; [|done]. intros k x Hk Hf. by rewrite (Hone k x Hk Hf).
  - intros E. assert (with_incident id row ∈ filed (attachAlertSQL t id (a_ID a) d) id) as Hin.
    { apply filed_elem. split; [|done]. exists (a_ID a). cbn. rewrite lookup_fmap, Hrow. cbn.
      rewrite Ea, Et. by rewrite !bool_decide_true. }
    rewrite E in Hin. by apply not_elem_of_nil in Hin.
Qed.

Section counts_ops.
Context (text_length : bytes → Z) (gen : uuid → uuid) (interval_of : Z → Z).

Lemma just_awaiting t a id d : just_stored t a d → awaiting t a id d.
Proof. intros (now & H & _). eexists. split; [exact H|]. by split_and!; auto. Qed.

Lemma counts_openRoom t a g key new now d d' :
  db_ok d → counts_ok d → just_stored t a d →
  k_organizationID key = a_OrganizationID a → k_ruleID key = a_RuleID a →
  openRoom_ text_length t a g key new now d = Ok (tt, d') → counts_ok d'.
Proof.
  intros Hok Hc Hst Hko Hkr. unfold openRoom_. rewrite tx_bind_Ok. intros (id & d1 & Hup & H).
  pose proof Hup as Hcup. apply upsert_room_ok in Hup as (Hok1 & Hf1 & Ha1 & r & Hr & Hk & Ho & _);
    [|done|by split|done|by intros []].
  apply counts_upsert in Hcup; [|done|done|by right|by intros []| ].
  2: { intros i _. right. unfold same_counts. cbn. split_and!; lia || done. }
  cbn in H. rewrite tx_bind_Ok in H. destruct H as ([] & d2 & [= <-] & H).
  pose proof (just_stored_frame t a d d1 Hst Ha1 Hf1) as Hst1.
  injection Hk as Eo Er Es Esk. cbn in Eo, Er.
  pose proof (room_belongs t a d1 id r Hok1 Hst1 Hr ltac:(congruence) ltac:(congruence)) as Ht.
  eapply (counts_fileInto t a id r) in H; [done| | |exact Hr|done|congruence|congruence|].
  - eapply attach_ok; [done|exact Hr|]. intros k row _ Hp. unfold pending in Hp. andbs.
    split_and!; congruence.
  - apply counts_attach; [|intros ? ? _; apply Hcup]. intros k x _ Hp. unfold pending in Hp. andbs. by left.
  - destruct Hst1 as (n & Hrow & _).
    exists (if pending t d1 key (a_ObservedAt a - g_Window g) (a_ObservedAt a + g_Window g)
                (mk_arow a (TenantID t) n None)
            then with_incident id (mk_arow a (TenantID t) n None) else mk_arow a (TenantID t) n None).
    cbn. rewrite lookup_fmap, Hrow. cbn. split; [done|]. destruct (pending _ _ _ _ _ _); cbn; auto.
Qed.

Lemma counts_fold_open t a g key new now d d' :
  db_ok d → counts_ok d → just_stored t a d →
  k_organizationID key = a_OrganizationID a → k_ruleID key = a_RuleID a →
  fold_open text_length t a g key new now d = Ok (tt, d') → counts_ok d'.
Proof.
  intros Hok Hc Hst Hko Hkr. unfold fold_open. rewrite tx_bind_Ok. intros (opens & d1 & [= <- <-] & H).
  destruct (opensARoom _ _ _ _ _); [by eapply counts_openRoom|]. by injection H as <-.
Qed.

Lemma counts_fold t a g new now d d' :
  db_ok d → counts_ok d → just_stored t a d →
  fold text_length gen t a g new now d = Ok (tt, d') → counts_ok d'.
Proof.
  intros Hok Hc Hst. unfold fold. destruct (scopeKeyFor t a (g_Scope g) d) as [key|] eqn:Ek; [|done].
  apply scopeKeyFor_place in Ek as [Hko Hkr].
  destruct (lockOpenRoomForKey t key d) as [room|] eqn:El; [|by apply counts_fold_open].
  apply lockOpenRoom_Some in El as (id & r & Hr & Ht & Ho & Hk & ->).
  destruct (spans _ _ _ _); [|destruct (lapsed _ _ _)].
  - cbn. rewrite (ok_room_id d Hok id r Hr). subst key. cbn in Hko, Hkr.
    eapply (counts_fileInto t a id r); try done; [|by apply just_awaiting]. intros ? ? _. apply Hc.
  - apply counts_fold_open; [by apply close_rooms_ok|by apply counts_close_rooms| |done|done].
    eapply just_stored_frame; [exact Hst|done|done].
  - by intros [= <-].
Qed.

Lemma counts_record t a g new now d o d' :
  db_ok d → counts_ok d → record_tx text_length gen t a g new now d = Ok (o, d') → counts_ok d'.
Proof.
  intros Hok Hc. unfold record_tx. rewrite tx_bind_Ok. intros (lim & d1 & [= <- <-] & H).
  rewrite tx_bind_Ok in H. destruct H as ([id|] & d2 & Hs & H).
  - pose proof (counts_store _ _ _ _ _ _ _ _ _ Hc Hs) as Hc2. apply storeAlert_ok in Hs as (Hok2 & _ & Hst); [|done].
    rewrite tx_bind_Ok in H. destruct H as ([] & d3 & Hfold & [= <- <-]). by eapply counts_fold.
  - apply storeAlert_None in Hs as ->. rewrite tx_bind_Ok in H. destruct H as (found & d3 & [= <- <-] & H).
    destruct (identity t a d); [by injection H as <- <-|]. rewrite tx_bind_Ok in H.
    destruct H as ([] & d4 & Hs & [= <- <-]). unfold foldIntoStorm in Hs. rewrite tx_bind_Ok in Hs.
    destruct Hs as (id & d5 & Hup & [= <-]). refine (counts_upsert _ _ _ _ _ _ _ Hok Hc _ _ _ Hup).
    + by left.
    + by intros [].
    + intros i Hk. left. by injection Hk.
Qed.

(** *** Moves and closings *)

Lemma counts_applyChange t id at_ change body line d d' :
  counts_ok d → applyChange t id at_ change body line d = Ok (tt, d') → counts_ok d'.
Proof.
  intros Hc. unfold applyChange. rewrite tx_bind_Ok. intros ([] & d1 & H1 & H2).
  unfold applyTransitionSQL in H1. do 2 (destruct (_ && _); [done|]). injection H1 as <-.
  unfold appendRoomEventSQL in H2. destruct (_ && _); [done|]. injection H2 as <-.
  apply counts_add_events, counts_update_rooms; [|done]. intros i. exact (same_counts_refl i).
Qed.

Lemma counts_Transition ctx id change line now d :
  counts_ok d → counts_ok (Transition ctx id change line now d).2.
Proof.
  intros Hc. unfold Transition. apply Scoped_ind; [done|]. intros t [] d' _.
  destruct (roomUnderChange t id d) as [[st key]|]; [|done]. destruct (Change_check change st); [|done].
  by apply counts_applyChange.
Qed.

Lemma counts_Reopen ctx id actor line now d : counts_ok d → counts_ok (Reopen ctx id actor line now d).2.
Proof.
  intros Hc. unfold Reopen. apply Scoped_ind; [done|]. intros t [] d' _.
  destruct (roomUnderChange t id d) as [[st key]|]; [|done]. do 2 (case_bool_decide; [done|]).
  by apply counts_applyChange.
Qed.

Lemma counts_Assign ctx id assignee actor line now d :
  counts_ok d → counts_ok (Assign ctx id assignee actor line now d).2.
Proof.
  intros Hc. unfold Assign. apply Scoped_ind; [done|]. intros t [] d' _.
  destruct (roomUnderChange t id d); [|done]. destruct (user_ok _ _); [|done]. cbn [negb].
  unfold appendRoomEventSQL. destruct (_ && _); [done|]. intros [= <-].
  apply counts_add_events, counts_update_rooms; [|done]. intros i. exact (same_counts_refl i).
Qed.

Lemma counts_Comment ctx id actor line note now d :
  counts_ok d → counts_ok (Comment ctx id actor line note now d).2.
Proof.
  intros Hc. unfold Comment. case_bool_decide; [done|]. apply Scoped_ind; [done|]. intros t [] d' _.
  destruct (roomUnderChange t id d); [|done]. unfold appendRoomEventSQL. destruct (_ && _); [done|].
  intros [= <-]. by apply counts_add_events.
Qed.

Lemma counts_UpsertLimits ctx l d : counts_ok d → counts_ok (UpsertLimits ctx l d).2.
Proof.
  intros Hc. unfold UpsertLimits. destruct (ValidateLimits l); [|done]. apply Scoped_ind; [done|].
  intros t [] d' _. destruct (t_limits d !! _); [destruct (visible _ _)|destruct (organization_ok _ _ _)];
    try done; by intros [= <-].
Qed.

(** *** Erasure *)

Lemma filter_filter {A} (f g : A → bool) l :
  List.filter f (List.filter g l) = List.filter g (List.filter f l).
Proof. induction l as [|x l IH]; cbn; [done|]. destruct (f x) eqn:E1, (g x) eqn:E2; cbn; rewrite ?E1, ?E2, IH; done. Qed.

Lemma filed_delete_alerts f d id :
  filed (delete_alerts f d) id ≡ₚ List.filter (λ a, negb (f a)) (filed d id).
Proof.
  unfold filed, delete_alerts. cbn. rewrite filter_filter, (filter_rows_perm (λ a, negb (f a))).
  assert (filter (λ kv : uuid * alert_row, f kv.2 = false) (t_alerts d) =
          filter (λ kv, negb (f kv.2) = true) (t_alerts d)) as ->; [|done].
  apply map_filter_ext. intros k a _. cbn. by destruct (f a).
Qed.

Lemma filed_tenant d id r a :
  db_ok d → t_incidents d !! id = Some r → a ∈ filed d id → ar_tenant a = ir_tenant r.
Proof.
  intros Hok Hr [[k Hk] Hi]%filed_elem. destruct (ok_filed d Hok k a id Hk Hi) as (r0 & Hr0 & Et & _). congruence.
Qed.

Lemma room_counts_filter f l i :
  room_counts l i →
  room_counts (List.filter f l)
    (with_counts i (Z.of_nat (length (List.filter f l))) (Z.of_nat (length (distinct_devices (List.filter f l))))).
Proof.
  intros [_ _ Hs]. split; [done..|]. intros a [Ha _]%list_elem_of_In%filter_In. by apply Hs, list_elem_of_In.
Qed.

Definition erased (tenant device : uuid) (a : alert_row) : bool :=
  bool_decide (ar_tenant a = tenant) && bool_decide (a_DeviceID (ar_alert a) = device).

(** After the recount every room counts what the erasure will leave it. *)
Lemma recount_counts tenant device d id r :
  db_ok d → t_incidents d !! id = Some r → room_counts (filed d id) (ir_room r) →
  ∃ r', t_incidents (recountRoomsLosingADeviceSQL tenant device d) !! id = Some r' ∧
        i_RuleID (ir_room r') = i_RuleID (ir_room r) ∧
        room_counts (List.filter (λ a, negb (erased tenant device a)) (filed d id)) (ir_room r').
Proof.
  intros Hok Hr Hc. eexists. cbn -[filed]. rewrite lookup_fmap, Hr. split; [done|].
  rewrite (ok_room_id d Hok id r Hr). destruct (bool_decide _ && feeds _ _ _) eqn:E; cbn [ir_room].
  - apply andb_prop in E as [Et%bool_decide_eq_true _]. split; [done|].
    assert (List.filter (λ a, negb (erased tenant device a)) (filed d id) =
            List.filter (λ a, negb (bool_decide (a_DeviceID (ar_alert a) = device))) (filed d id)) as ->.
    { apply filter_ext_in. intros a Ha%list_elem_of_In. unfold erased.
      by rewrite (filed_tenant d id r a Hok Hr Ha), bool_decide_true. }
    by apply room_counts_filter.
  - split; [done|]. rewrite filter_all; [done|]. intros a Ha. unfold erased.
    rewrite (filed_tenant d id r a Hok Hr Ha). destruct (bool_decide (ir_tenant r = tenant)); [|done].
    cbn in E |- *. unfold feeds in E. rewrite (ok_room_id d Hok id r Hr) in E.
    destruct (bool_decide (a_DeviceID (ar_alert a) = device)) eqn:Ed; [|done].
    rewrite (proj2 (existsb_exists _ _)) in E; [done|]. exists a. split; [by apply list_elem_of_In|done].
Qed.

Lemma recount_lookup tenant device d id r1 :
  t_incidents (recountRoomsLosingADeviceSQL tenant device d) !! id = Some r1 →
  ∃ r, t_incidents d !! id = Some r ∧ i_RuleID (ir_room r1) = i_RuleID (ir_room r).
Proof.
  cbn -[filed]. rewrite lookup_fmap. destruct (t_incidents d !! id) as [r|]; [|done]. intros [= <-].
  exists r. split; [done|]. by destruct (_ && _).
Qed.

Lemma counts_EraseDevice tenant device now d :
  db_ok d → counts_ok d → counts_ok (EraseDeviceAlerts gen tenant device now d).2.
Proof.
  intros Hok Hc. unfold EraseDeviceAlerts. apply Scoped_ind; [done|]. intros t [] d' _ [= <-].
  intros id r' Hr' Hs. eapply room_counts_perm; [symmetry; apply filed_delete_alerts|].
  unfold closeEmptiedRoomsSQL in *. cbn [delete_alerts set_alerts t_incidents] in Hr'.
  unfold close_rooms, update_rooms in Hr'. cbn [add_events set_incidents t_incidents] in Hr'.
  rewrite lookup_fmap in Hr'.
  destruct (t_incidents (recountRoomsLosingADeviceSQL tenant device d) !! id) as [r1|] eqn:E1; [|done].
  cbn in Hr'. injection Hr' as <-.
  destruct (recount_lookup tenant device d id r1 E1) as (r & Hr & Erule).
  assert (i_RuleID (ir_room r1) ≠ StormRuleID) as Hs1 by (by destruct (_ && _ && _ && _)).
  destruct (recount_counts tenant device d id r Hok Hr) as (r2 & H2 & _ & Hc2); [apply Hc; congruence|].
  assert (r2 = r1) as -> by congruence. destruct (_ && _ && _ && _); [|exact Hc2].
  apply (room_counts_same _ (ir_room r1)); [exact (same_counts_refl (ir_room r1))|exact Hc2].
Qed.

(** Deleting other rooms leaves what a room holds. *)
Lemma filed_delete_rooms f d id r :
  t_incidents d !! id = Some r → f r = false → filed (delete_rooms f d) id ≡ₚ filed d id.
Proof.
  intros Hr Hf. apply filed_same. intros k a. cbn. rewrite lookup_fmap.
  destruct (t_alerts d !! k) as [a0|]; cbn; [|split; by intros []].
  destruct (ar_incident a0) as [room|] eqn:Ei; cbn; [|by split].
  rewrite orb_false_r. destruct (bool_decide _ && _) eqn:Eg; [|done].
  split; intros [[= <-] Hi]; cbn in Hi; [done|]. exfalso. rewrite Ei in Hi. injection Hi as ->.
  apply andb_prop in Eg as [_ Eg%bool_decide_eq_true].
  apply map_lookup_filter_None in Eg as [Eg|Eg]; [congruence|]. by apply (Eg r).
Qed.

(** Erasing a tenant empties no room of another. *)
Lemma counts_EraseTenant tenant d :
  db_ok d → counts_ok d → counts_ok (EraseTenantInvestigations tenant d).2.
Proof.
  intros Hok Hc. unfold EraseTenantInvestigations. apply Scoped_ind; [done|]. intros t [] d' _ [= <-].
  apply (counts_frame d); [done|]. intros id r [Hr Hf]%map_lookup_filter_Some _. cbn in Hr, Hf.
  exists r. split_and!; [done|apply same_counts_refl|].
  rewrite (filed_delete_rooms _ (delete_alerts _ d) id r) by done. rewrite filed_delete_alerts.
  rewrite filter_all; [done|]. intros a Ha. by rewrite (filed_tenant d id r a Hok Hr Ha), Hf.
Qed.

(** ** Every operation but the sweep *)

Definition restates (op : store_op) : Prop := match op with OpSweep _ _ _ => False | _ => True end.

Lemma counts_run_op op d :
  restates op → db_ok d → counts_ok d → counts_ok (run_op text_length gen interval_of op d).
Proof.
  intros Hop Hok Hc. destruct op; cbn [run_op] in *; try done.
  - apply Record_ind; [done|]. intros t o d' _ _ H. by eapply counts_record.
  - by apply counts_Transition.
  - by apply counts_Reopen.
  - by apply counts_Assign.
  - by apply counts_Comment.
  - by apply counts_UpsertLimits.
  - unfold ResolveStale. apply Scoped_ind; [done|]. intros t n d' _ [= _ <-]. by apply counts_close_rooms.
  - by apply counts_EraseDevice.
  - by apply counts_EraseTenant.
  - by case_bool_decide.
Qed.

Lemma counts_run_ops ops d :
  Forall restates ops → db_ok d → counts_ok d → counts_ok (run_ops text_length gen interval_of ops d).
Proof.
  unfold run_ops. revert d. induction ops as [|op ops IH]; intros d Hops Hok Hc; cbn; [done|].
  apply Forall_cons in Hops as [Hop Hops]. apply IH; [done|by apply run_op_ok|by apply counts_run_op].
Qed.

Lemma empty_counts : counts_ok empty_db.
Proof. intros id r. cbn. by rewrite lookup_empty. Qed.
End counts_ops.
