(* ===== verification/AlertClaims.v ===== *)
(** * What the alert store promises

    The claims about [AlertStore]: its invariant over any run of operations, the
    outcomes of recording an alert, where an alert ends up, the customer's
    budget, isolation between tenants, and the moves on a room. *)
From S2P Require Import Prelude Float Settings Sorting Dbtx Incident AlertStore AlertStoreInv AlertCounts.
#[local] Open Scope Z_scope.

(** ** Recording leaves every stored alert's content alone *)

(** Only the room an alert is filed in may differ. *)
Definition same_alert (h : alert_row → alert_row) : Prop :=
  ∀ r, ar_alert (h r) = ar_alert r ∧ ar_tenant (h r) = ar_tenant r ∧ ar_received (h r) = ar_received r.

Definition refiled (d d' : db) : Prop := ∃ h, same_alert h ∧ t_alerts d' = h <$> t_alerts d.

Lemma refiled_refl d d' : t_alerts d' = t_alerts d → refiled d d'.
Proof. intros E. exists id. split; [done|]. by rewrite E, map_fmap_id. Qed.

Lemma refiled_trans d1 d2 d3 : refiled d1 d2 → refiled d2 d3 → refiled d1 d3.
Proof.
  intros (h & Hh & E) (k & Hk & E'). exists (k ∘ h). split.
  - intros r. destruct (Hh r) as (?&?&?), (Hk (h r)) as (?&?&?). cbn. split_and!; congruence.
  - by rewrite E', E, <-map_fmap_compose.
Qed.

Lemma refiled_attach f id d : refiled d (attach f id d).
Proof. eexists. split; [|done]. intros r. by destruct (f r). Qed.

Lemma refiled_restate t id d d' : restateRoomFromItsAlertsSQL t id d = Ok (tt, d') → refiled d d'.
Proof.
  unfold restateRoomFromItsAlertsSQL. destruct (List.filter _ _); [intros [= <-]; by apply refiled_refl|].
  case_bool_decide; [done|]. intros [= <-]. by apply refiled_refl.
Qed.

Lemma refiled_fileInto t a id d d' : fileInto t a id d = Ok (tt, d') → refiled d d'.
Proof.
  unfold fileInto. rewrite tx_bind_Ok. intros ([] & d1 & [= <-] & H). apply refiled_restate in H.
  eapply refiled_trans; [|exact H]. apply refiled_attach.
Qed.

Lemma upsert_alerts tl t room update d id d' :
  upsert_room tl t room update d = Ok (id, d') → t_alerts d' = t_alerts d.
Proof.
  unfold upsert_room. destruct (incident_row_ok tl room); [|done]. cbn. destruct (open_holder _ _).
  - destruct (visible _ _); [|done]. cbn. destruct (incident_row_ok _ _); [|done]. by intros [= _ <-].
  - case_bool_decide; [done|]. destruct (organization_ok _ _ _); [|done]. by intros [= _ <-].
Qed.

Lemma refiled_fold_open tl t a g key new now d d' :
  fold_open tl t a g key new now d = Ok (tt, d') → refiled d d'.
Proof.
  unfold fold_open. rewrite tx_bind_Ok. intros (o & d1 & [= <- <-] & H).
  destruct (opensARoom _ _ _ _ _); [|injection H as <-; by apply refiled_refl].
  unfold openRoom_ in H. rewrite tx_bind_Ok in H. destruct H as (id & d1 & Hup & H). cbn in H.
  rewrite tx_bind_Ok in H. destruct H as ([] & d2 & [= <-] & H).
  eapply refiled_trans; [by apply refiled_refl, (upsert_alerts _ _ _ _ _ _ _ Hup)|].
  eapply refiled_trans; [apply refiled_attach|]. by eapply refiled_fileInto.
Qed.

Lemma refiled_fold tl gen t a g new now d d' : fold tl gen t a g new now d = Ok (tt, d') → refiled d d'.
Proof.
  unfold fold. destruct (scopeKeyFor _ _ _ _); [|done]. destruct (lockOpenRoomForKey _ _ _);
    [|apply refiled_fold_open]. destruct (spans _ _ _ _); [apply refiled_fileInto|].
  destruct (lapsed _ _ _); [apply refiled_fold_open|]. intros [= <-]. by apply refiled_refl.
Qed.

Lemma refiled_count (p : alert_row → bool) d d' :
  refiled d d' → (∀ r r', ar_alert r' = ar_alert r → ar_tenant r' = ar_tenant r → ar_received r' = ar_received r →
                   p r' = p r) →
  count_rows p (t_alerts d') = count_rows p (t_alerts d).
Proof.
  intros (h & Hh & ->) Hp. unfold count_rows, rows. rewrite map_to_list_fmap. f_equal.
  induction (map_to_list (t_alerts d)) as [|[k r] l IH]; cbn; [done|].
  destruct (Hh r) as (?&?&?). rewrite (Hp r (h r)) by done. destruct (p r); cbn; by rewrite IH.
Qed.

Lemma count_insert_fresh {A} (p : A → bool) (m : gmap uuid A) k x :
  m !! k = None → count_rows p (<[k := x]> m) = count_rows p m + (if p x then 1 else 0).
Proof.
  intros Hk. assert (rows (<[k := x]> m) ≡ₚ x :: rows m) as Hp
    by (unfold rows; by rewrite map_to_list_insert).
  unfold count_rows. rewrite (Permutation_length (bool_filter_perm p _ _ Hp)).
  cbn. destruct (p x); cbn; lia.
Qed.

(** ** Outcomes *)

Section claims.
Context (text_length : bytes → Z) (gen : uuid → uuid) (interval_of : Z → Z).

(** What a recorded outcome says about the transaction. *)
Lemma record_tx_cases t a g new now d o d' :
  record_tx text_length gen t a g new now d = Ok (o, d') →
  (o = Stored ∧ ∃ d1 id,
     storeAlertSQL text_length t a now (now - duration_hour)
       (lm_OrganizationHourly (limitsIn t (a_OrganizationID a) d)) d = Ok (Some id, d1) ∧
     fold text_length gen t a g new now d1 = Ok (tt, d')) ∨
  (o = Duplicate ∧ is_Some (identity t a d) ∧ d' = d) ∨
  (o = CeilingSuppressed ∧ identity t a d = None ∧
   storeAlertSQL text_length t a now (now - duration_hour)
     (lm_OrganizationHourly (limitsIn t (a_OrganizationID a) d)) d = Ok (None, d) ∧
   foldIntoStorm text_length t (a_OrganizationID a) new now d = Ok (tt, d')).
Proof.
  unfold record_tx. rewrite tx_bind_Ok. intros (lim & d1 & [= <- <-] & H).
  rewrite tx_bind_Ok in H. destruct H as ([id|] & d2 & Hs & H).
  - rewrite tx_bind_Ok in H. destruct H as ([] & d3 & Hfold & [= <- <-]). left. eauto.
  - pose proof Hs as Hs'. apply storeAlert_None in Hs as ->. rewrite tx_bind_Ok in H.
    destruct H as (found & d3 & [= <- <-] & H). right. destruct (identity t a d) eqn:Ei.
    + left. by injection H as <- <-.
    + right. rewrite tx_bind_Ok in H. by destruct H as ([] & d4 & Hst & [= <- <-]).
Qed.

Lemma Record_Ok ctx a g new now d o d' :
  Record_ text_length gen ctx a g new now d = (Ok o, d') →
  ∃ t, TenantFromContext ctx = Some t ∧ Grouping_check g = Ok tt ∧
       record_tx text_length gen t (normalized a) g new (truncate_us now) d = Ok (o, d').
Proof.
  unfold Record_, Scoped. destruct (TenantFromContext ctx) as [t|]; [|done].
  destruct (Grouping_check g) as [[]|]; [|done]. destruct (record_tx _ _ _ _ _ _ _ _) as [[o' d'']|] eqn:E; [|done].
  intros [= <- <-]. eauto.
Qed.

Lemma Record_Err ctx a g new now d e d' :
  Record_ text_length gen ctx a g new now d = (Err e, d') → d' = d.
Proof.
  unfold Record_, Scoped. destruct (TenantFromContext ctx) as [t|]; [|by intros [= _ <-]].
  destruct (Grouping_check g) as [[]|]; [|by intros [= _ <-]].
  destruct (record_tx _ _ _ _ _ _ _ _) as [[o' d'']|] eqn:E; by intros [= _ <-].
Qed.

(** The rolling hour's count after an alert is recorded. *)
Lemma record_count t a g new now d o d' :
  record_tx text_length gen t a g new now d = Ok (o, d') →
  let limit := lm_OrganizationHourly (limitsIn t (a_OrganizationID a) d) in
  recent_count t (a_OrganizationID a) (now - duration_hour) d' ≤
  Z.max limit (recent_count t (a_OrganizationID a) (now - duration_hour) d).
Proof.
  intros H limit. apply record_tx_cases in H as [(-> & d1 & id & Hs & Hf)|[(_ & _ & ->)|(_ & _ & _ & Hs)]]; [|lia|].
  - apply storeAlert_Some in Hs as (Hlt & _ & Hfresh & _ & _ & ->). apply refiled_fold in Hf.
    unfold recent_count at 1. rewrite (refiled_count _ _ _ Hf) by (by intros r r' -> -> ->).
    cbn [t_alerts set_alerts]. rewrite count_insert_fresh by done. fold (recent_count t (a_OrganizationID a) (now - duration_hour) d).
    destruct (_ && _ && _); fold limit in Hlt; lia.
  - unfold foldIntoStorm in Hs. rewrite tx_bind_Ok in Hs. destruct Hs as (id & d1 & Hup & [= <-]).
    unfold recent_count at 1. rewrite (upsert_alerts _ _ _ _ _ _ _ Hup). fold (recent_count t (a_OrganizationID a) (now - duration_hour) d). lia.
Qed.

(** *** Where an alert ends up *)

(** The alert is in the open room on [key], which counts it. *)
Definition filed_on (a : Alert) (key : groupingKey) (d : db) : Prop :=
  ∃ row id r, t_alerts d !! a_ID a = Some row ∧ ar_alert row = a ∧ ar_incident row = Some id ∧
    t_incidents d !! id = Some r ∧ is_open (ir_room r) = true ∧ room_key (ir_room r) = key ∧
    room_counts (filed d id) (ir_room r).

Lemma restate_room t id r d d' :
  db_ok d → t_incidents d !! id = Some r → ir_tenant r = TenantID t → filed d id ≠ [] →
  restateRoomFromItsAlertsSQL t id d = Ok (tt, d') →
  t_alerts d' = t_alerts d ∧ ∃ r', t_incidents d' !! id = Some r' ∧ room_counts (filed d' id) (ir_room r') ∧
    is_open (ir_room r') = is_open (ir_room r) ∧ room_key (ir_room r') = room_key (ir_room r).
Proof.
  intros Hok Hr Ht Hne. unfold restateRoomFromItsAlertsSQL.
  rewrite filter_all by (intros a; by eapply filed_visible).
  destruct (filed d id) as [|a0 l] eqn:E; [done|]. case_bool_decide; [done|]. intros [= <-].
  split; [done|]. cbn -[filed]. rewrite lookup_fmap, Hr. cbn -[filed]. eexists. split; [done|].
  rewrite (proj2 (own_room_iff t id d id r Hok Hr)) by done. change (filed (update_rooms _ _ d) id) with (filed d id). rewrite E.
  split; [|done]. split; [done..|].
  intros a Ha. pose proof (list_elem_of_fmap_2 (λ r, a_ObservedAt (ar_alert r)) _ _ Ha) as Hobs. split.
  - exact (fold_min_le (a_ObservedAt (ar_alert a0)) _ _ Hobs).
  - exact (fold_max_ge (a_ObservedAt (ar_alert a0)) _ _ Hobs).
Qed.

Lemma fileInto_files t a id r d d' :
  db_ok d → t_incidents d !! id = Some r → is_open (ir_room r) = true → ir_tenant r = TenantID t →
  i_OrganizationID (ir_room r) = a_OrganizationID a → i_RuleID (ir_room r) = a_RuleID a → awaiting t a id d →
  fileInto t a id d = Ok (tt, d') → filed_on a (room_key (ir_room r)) d'.
Proof.
  intros Hok Hr Ho Ht Horg Hrule (row & Hrow & Ea & Et & Hi). unfold fileInto. rewrite tx_bind_Ok.
  intros ([] & d1 & [= <-] & H).
  assert (t_alerts (attachAlertSQL t id (a_ID a) d) !! a_ID a = Some (with_incident id row)) as Ha.
  { cbn. rewrite lookup_fmap, Hrow. cbn. by rewrite Ea, Et, !bool_decide_true. }
  assert (db_ok (attachAlertSQL t id (a_ID a) d)) as Hok1.
  { eapply attach_ok; [done|exact Hr|]. intros k x Hk Hf. andbs.
    assert (k = a_ID a) as -> by (rewrite <-(ok_alert_id d Hok k x Hk); congruence).
    assert (x = row) as -> by congruence. subst a. split_and!; congruence. }
  apply (restate_room t id r) in H as (Hal & r' & Hr' & Hc & Ho' & Hk'); [|done|done|done|].
  - exists (with_incident id row), id, r'. rewrite Hal, Ho', Hk'. split_and!; auto.
  - intros E. assert (with_incident id row ∈ filed (attachAlertSQL t id (a_ID a) d) id) as Hin.
    { apply filed_elem. split; [by exists (a_ID a)|done]. }
    rewrite E in Hin. by apply not_elem_of_nil in Hin.
Qed.

Lemma openRoom_files t a g key new now d d' :
  db_ok d → just_stored t a d → k_organizationID key = a_OrganizationID a → k_ruleID key = a_RuleID a →
  openRoom_ text_length t a g key new now d = Ok (tt, d') → filed_on a key d'.
Proof.
  intros Hok Hst Hko Hkr. unfold openRoom_. rewrite tx_bind_Ok. intros (id & d1 & Hup & H).
  apply upsert_room_ok in Hup as (Hok1 & Hf1 & Ha1 & r & Hr & Hk & Ho & _); [|done|by split|done|by intros []].
  cbn in H. rewrite tx_bind_Ok in H. destruct H as ([] & d2 & [= <-] & H).
  pose proof (just_stored_frame t a d d1 Hst Ha1 Hf1) as Hst1.
  assert (room_key (ir_room r) = key) as <- by (rewrite Hk; by destruct key).
  cbn in Hko, Hkr. pose proof (room_belongs t a d1 id r Hok1 Hst1 Hr Hko Hkr) as Ht.
  eapply (fileInto_files t a id r) in H; [done| |exact Hr|done|exact Ht|done|done|].
  - eapply attach_ok; [done|exact Hr|]. intros k row _ Hp. unfold pending in Hp. andbs.
    cbn in *. split_and!; congruence.
  - destruct Hst1 as (n & Hrow & _).
    eexists. cbn. rewrite lookup_fmap, Hrow. cbn. split; [done|]. destruct (pending _ _ _ _ _ _); cbn; auto.
Qed.

Lemma fold_files t a g new now key d d' :
  db_ok d → just_stored t a d → a_Severity a ≠ SeverityInfo → scopeKeyFor t a (g_Scope g) d = Ok key →
  fold text_length gen t a g new now d = Ok (tt, d') →
  filed_on a key d' ∨
  (d' = d ∧ ∃ id r, t_incidents d !! id = Some r ∧ is_open (ir_room r) = true ∧
     room_key (ir_room r) = key ∧ a_ObservedAt a + g_Window g < i_FirstSeen (ir_room r)).
Proof.
  intros Hok Hst Hsev Ek. unfold fold. rewrite Ek.
  apply scopeKeyFor_place in Ek as [Hko Hkr].
  assert (∀ d0, fold_open text_length t a g key new now d0 = openRoom_ text_length t a g key new now d0) as Hopen.
  { intros d0. unfold fold_open, tx_read, mbind, tx_bind, opensARoom. by rewrite bool_decide_true. }
  destruct (lockOpenRoomForKey t key d) as [room|] eqn:El;
    [|rewrite Hopen; intros H; left; by eapply openRoom_files].
  apply lockOpenRoom_Some in El as (id & r & Hr & Ht & Ho & Hk & ->). cbn.
  destruct (spans _ _ _ _) eqn:Es; [|destruct (lapsed _ _ _) eqn:Ela].
  - rewrite (ok_room_id d Hok id r Hr). rewrite <-Hk. intros H. left.
    rewrite <- Hk in Hko, Hkr. cbn in Hko, Hkr.
    eapply fileInto_files; [done|exact Hr|done|exact Ht|done|done| |exact H]. by apply just_awaiting.
  - rewrite Hopen. intros H. left. eapply openRoom_files; [by apply close_rooms_ok| |done|done|exact H].
    eapply just_stored_frame; [exact Hst|done|done].
  - intros [= <-]. right. split; [done|]. exists id, r. split_and!; auto.
    unfold spans, lapsed in *. rewrite Ela in Es. cbn in Es.
    apply negb_false_iff, bool_decide_eq_true in Es. lia.
Qed.
End claims.

(** ** Isolation between tenants *)

(** The alerts, rooms and budgets of every tenant but [t] are as they were. *)
Record untouched (t : uuid) (d d' : db) : Prop := {
  un_alerts : ∀ k r, ar_tenant r ≠ t → t_alerts d' !! k = Some r ↔ t_alerts d !! k = Some r;
  un_rooms : ∀ k r, ir_tenant r ≠ t → t_incidents d' !! k = Some r ↔ t_incidents d !! k = Some r;
  un_limits : ∀ k r, lr_tenant r ≠ t → t_limits d' !! k = Some r ↔ t_limits d !! k = Some r;
}.

Lemma untouched_refl t d d' :
  t_alerts d' = t_alerts d → t_incidents d' = t_incidents d → t_limits d' = t_limits d → untouched t d d'.
Proof. intros E1 E2 E3. split; intros; by rewrite ?E1, ?E2, ?E3. Qed.

Lemma untouched_trans t d1 d2 d3 : untouched t d1 d2 → untouched t d2 d3 → untouched t d1 d3.
Proof. intros [A1 R1 L1] [A2 R2 L2]. split; intros k r Hr; [rewrite A2, A1|rewrite R2, R1|rewrite L2, L1]; done. Qed.

(** Replacing rows of [t] by rows of [t], in place or not. *)
Lemma lookup_fmap_outside {A} (tenant : A → uuid) (t : uuid) (h : A → A) (m : gmap uuid A) k r :
  (∀ x, tenant (h x) = tenant x) → (∀ x, tenant x ≠ t → h x = x) → tenant r ≠ t →
  (h <$> m) !! k = Some r ↔ m !! k = Some r.
Proof.
  intros Ht Hh Hr. rewrite lookup_fmap. destruct (m !! k) as [x|]; cbn; [|done].
  split; intros [= <-]; f_equal; [|by apply Hh]. symmetry. apply Hh. by rewrite <-Ht.
Qed.

Lemma lookup_insert_outside {A} (tenant : A → uuid) (t : uuid) (m : gmap uuid A) k x k' r :
  tenant x = t → (∀ y, m !! k = Some y → tenant y = t) → tenant r ≠ t →
  <[k := x]> m !! k' = Some r ↔ m !! k' = Some r.
Proof.
  intros Hx Hm Hr. rewrite lookup_insert_Some. split.
  - by intros [(_ & ->)|(_ & ?)].
  - intros H. right. split; [|done]. intros ->. by apply Hr, Hm.
Qed.

Lemma lookup_filter_outside {A} (tenant : A → uuid) (t : uuid) (f : A → bool) (m : gmap uuid A) k r :
  (∀ x, f x = true → tenant x = t) → tenant r ≠ t →
  filter (λ kv, f kv.2 = false) m !! k = Some r ↔ m !! k = Some r.
Proof.
  intros Hf Hr. rewrite map_lookup_filter_Some. cbn. split; [by intros []|]. intros H. split; [done|].
  destruct (f r) eqn:E; [|done]. exfalso. by apply Hr, Hf.
Qed.

Lemma untouched_map_rooms t f g d :
  (∀ r, f r = true → ir_tenant r = t) →
  untouched t d (set_incidents d ((λ r, if f r then mk_irow (ir_tenant r) (g r) else r) <$> t_incidents d)).
Proof.
  intros Hf. split; [done| |done]. cbn. intros k r Hr. apply (lookup_fmap_outside ir_tenant t); [| |done].
  - intros x. by destruct (f x).
  - intros x Hx. destruct (f x) eqn:E; [|done]. by apply Hf in E.
Qed.

Lemma untouched_attach t f id d : (∀ r, f r = true → ar_tenant r = t) → untouched t d (attach f id d).
Proof.
  intros Hf. split; [|done|done]. cbn. intros k r Hr. apply (lookup_fmap_outside ar_tenant t); [| |done].
  - intros x. by destruct (f x).
  - intros x Hx. destruct (f x) eqn:E; [|done]. by apply Hf in E.
Qed.

Lemma own_room_tenant t id r : own_room t id r = true → ir_tenant r = TenantID t.
Proof. unfold own_room. intros. by andbs. Qed.

Lemma untouched_close gen t f at_ reason d :
  (∀ r, f r = true → ir_tenant r = t) → untouched t d (close_rooms gen f at_ reason d).
Proof. intros Hf. eapply untouched_trans; [by apply (untouched_map_rooms t f)|]. by apply untouched_refl. Qed.

Lemma visible_own t tenant : IsAdmin t = false → visible t tenant = true → tenant = TenantID t.
Proof. unfold visible. intros ->. apply bool_decide_eq_true. Qed.

Lemma untouched_upsert tl t room update d id d' :
  db_ok d → IsAdmin t = false → upsert_room tl t room update d = Ok (id, d') → untouched (TenantID t) d d'.
Proof.
  intros Hok Ha. unfold upsert_room. destruct (incident_row_ok tl room); [|done]. cbn.
  destruct (open_holder d (room_key room)) as [r|] eqn:Eh.
  - apply open_holder_Some in Eh as (rid & Hr & _). destruct (visible t (ir_tenant r)) eqn:Ev; [|done].
    apply visible_own in Ev; [|done]. cbn. destruct (incident_row_ok _ _); [|done]. intros [= _ <-].
    rewrite (ok_room_id d Hok rid r Hr). split; [done| |done]. cbn. intros k x.
    apply (lookup_insert_outside ir_tenant); [done|]. intros y Hy. congruence.
  - case_bool_decide as Ef; [done|]. apply eq_None_not_Some in Ef. destruct (organization_ok _ _ _); [|done].
    intros [= _ <-]. split; [done| |done]. cbn. intros k x.
    apply (lookup_insert_outside ir_tenant); [done|]. congruence.
Qed.

Lemma untouched_fileInto t a id d d' : fileInto t a id d = Ok (tt, d') → untouched (TenantID t) d d'.
Proof.
  unfold fileInto. rewrite tx_bind_Ok. intros ([] & d1 & [= <-] & H).
  apply (untouched_trans _ _ (attachAlertSQL t id (a_ID a) d)); [apply untouched_attach; intros; by andbs|].
  unfold restateRoomFromItsAlertsSQL in H. destruct (List.filter _ _); [injection H as <-; by apply untouched_refl|].
  case_bool_decide; [done|]. injection H as <-. apply untouched_map_rooms. apply own_room_tenant.
Qed.

Lemma untouched_fold_open tl t a g key new now d d' :
  db_ok d → IsAdmin t = false → fold_open tl t a g key new now d = Ok (tt, d') → untouched (TenantID t) d d'.
Proof.
  intros Hok Ha. unfold fold_open. rewrite tx_bind_Ok. intros (o & d1 & [= <- <-] & H).
  destruct (opensARoom _ _ _ _ _); [|injection H as <-; by apply untouched_refl].
  unfold openRoom_ in H. rewrite tx_bind_Ok in H. destruct H as (id & d1 & Hup & H). cbn in H.
  rewrite tx_bind_Ok in H. destruct H as ([] & d2 & [= <-] & H).
  eapply untouched_trans; [by eapply untouched_upsert|].
  eapply untouched_trans; [|by eapply untouched_fileInto]. apply untouched_attach.
  intros r Hp. unfold pending in Hp. by andbs.
Qed.

Lemma untouched_record tl gen t a g new now d o d' :
  db_ok d → IsAdmin t = false → record_tx tl gen t a g new now d = Ok (o, d') → untouched (TenantID t) d d'.
Proof.
  intros Hok Ha H. apply record_tx_cases in H as [(_ & d1 & id & Hs & Hf)|[(_ & _ & ->)|(_ & _ & _ & Hs)]].
  - pose proof Hs as Hs'. apply storeAlert_Some in Hs as (_ & _ & Hfresh & _ & _ & E).
    apply storeAlert_ok in Hs' as (Hok1 & _ & _); [|done].
    apply (untouched_trans _ _ d1).
    { subst d1. split; [|done|done]. cbn. intros k x. apply (lookup_insert_outside ar_tenant); [done|]. congruence. }
    unfold fold in Hf. destruct (scopeKeyFor _ _ _ _); [|done]. destruct (lockOpenRoomForKey _ _ _);
      [|by eapply untouched_fold_open]. destruct (spans _ _ _ _); [by eapply untouched_fileInto|].
    destruct (lapsed _ _ _); [|injection Hf as <-; by apply untouched_refl].
    eapply untouched_trans; [|eapply untouched_fold_open; [|done|exact Hf]; by apply close_rooms_ok].
    apply untouched_close. intros r0. intros. andbs. by eapply own_room_tenant.
  - by apply untouched_refl.
  - unfold foldIntoStorm in Hs. rewrite tx_bind_Ok in Hs. destruct Hs as (id & d1 & Hup & [= <-]).
    by eapply untouched_upsert.
Qed.


Lemma untouched_Scoped {A} t ctx (fn : Tenant → tx A) d :
  (∀ t' a d', TenantFromContext ctx = Some t' → fn t' d = Ok (a, d') → untouched t d d') →
  untouched t d (Scoped ctx fn d).2.
Proof. intros H. apply Scoped_ind; [by apply untouched_refl|done]. Qed.

Lemma untouched_append t id at_ kind actor body line d d' u :
  appendRoomEventSQL t id at_ kind actor body line d = Ok (tt, d') → untouched u d d'.
Proof. unfold appendRoomEventSQL. destruct (_ && _); [done|]. intros [= <-]. by apply untouched_refl. Qed.

Lemma untouched_applyChange t id at_ change body line d d' :
  applyChange t id at_ change body line d = Ok (tt, d') → untouched (TenantID t) d d'.
Proof.
  unfold applyChange. rewrite tx_bind_Ok. intros ([] & d1 & H1 & H2).
  unfold applyTransitionSQL in H1. do 2 (destruct (_ && _); [done|]). injection H1 as <-.
  eapply untouched_trans; [|by eapply untouched_append]. apply untouched_map_rooms, own_room_tenant.
Qed.

Lemma untouched_delete_alerts t f d :
  (∀ r, f r = true → ar_tenant r = t) → untouched t d (delete_alerts f d).
Proof. intros Hf. split; [|done|done]. intros k r Hr. cbn. by apply (lookup_filter_outside ar_tenant t). Qed.

Lemma untouched_delete_rooms t f d :
  db_ok d → (∀ r, f r = true → ir_tenant r = t) → untouched t d (delete_rooms f d).
Proof.
  intros Hok Hf. split; [|intros k r; cbn; by apply (lookup_filter_outside ir_tenant t)|done].
  intros k a Ha. cbn. rewrite lookup_fmap. destruct (t_alerts d !! k) as [a0|] eqn:Ek; [|done]. cbn.
  destruct (existsb _ _) eqn:Ex; [|done]. assert (ar_tenant a0 = t) as Ht.
  { destruct (ar_incident a0) as [room|] eqn:Ei; [|done]. cbn in Ex. rewrite orb_false_r in Ex.
    apply andb_prop in Ex as [_ Ex%bool_decide_eq_true].
    destruct (ok_filed d Hok k a0 room Ek Ei) as (r & Hr & Et & _). rewrite <-Et. apply Hf.
    apply map_lookup_filter_None in Ex as [Ex|Ex]; [congruence|]. specialize (Ex r Hr). cbn in Ex.
    by destruct (f r). }
  split; intros [= <-]; done.
Qed.

(** [op] is made for tenant [t], by a caller who is not an administrator, or by
    the lifecycle code naming the tenant. *)
Definition acts_for (t : uuid) (op : store_op) : Prop :=
  match op with
  | OpRecord ctx _ _ _ _ | OpTransition ctx _ _ _ _ | OpReopen ctx _ _ _ _
  | OpAssign ctx _ _ _ _ _ | OpComment ctx _ _ _ _ _ | OpUpsertLimits ctx _ =>
      ∃ t', ctx = Some t' ∧ TenantID t' = t ∧ IsAdmin t' = false
  | OpEraseDevice tenant _ _ | OpEraseTenant tenant => tenant = t
  | _ => False
  end.

Lemma TenantFromContext_Some t t' : TenantFromContext (Some t) = Some t' → t' = t.
Proof. cbn. case_bool_decide; [done|]. by intros [= <-]. Qed.

Lemma untouched_UpsertLimits t l d :
  IsAdmin t = false → untouched (TenantID t) d (UpsertLimits (Some t) l d).2.
Proof.
  intros Ha. unfold UpsertLimits. destruct (ValidateLimits l); [|by apply untouched_refl].
  apply untouched_Scoped. intros t' [] d' ->%TenantFromContext_Some. destruct (t_limits d !! _) as [r|] eqn:Er.
  - destruct (visible t (lr_tenant r)) eqn:Ev; [|done]. apply visible_own in Ev; [|done]. intros [= <-].
    split; [done|done|]. cbn. intros k x. apply (lookup_insert_outside lr_tenant); [done|]. congruence.
  - destruct (organization_ok _ _ _); [|done]. intros [= <-]. split; [done|done|]. cbn.
    intros k x. apply (lookup_insert_outside lr_tenant); [done|]. congruence.
Qed.

Lemma untouched_EraseDevice gen tenant device now d :
  untouched tenant d (EraseDeviceAlerts gen tenant device now d).2.
Proof.
  unfold EraseDeviceAlerts. apply untouched_Scoped. intros t [] d' _ [= <-].
  apply (untouched_trans _ _ (recountRoomsLosingADeviceSQL tenant device d)).
  { apply (untouched_map_rooms tenant (λ r, bool_decide (ir_tenant r = tenant) && feeds device d r)
             (λ r, with_counts (ir_room r) _ _)). intros. by andbs. }
  apply (untouched_trans _ _ (closeEmptiedRoomsSQL gen tenant device (truncate_us now)
           (recountRoomsLosingADeviceSQL tenant device d))); [apply untouched_close; intros; by andbs|].
  apply untouched_delete_alerts. intros. by andbs.
Qed.

Lemma untouched_run_op tl gen iv t op d :
  db_ok d → acts_for t op → untouched t d (run_op tl gen iv op d).
Proof.
  intros Hok Hop. destruct op as [ctx a g new now|ctx id ch ln now|ctx id ac ln now|ctx id asg ac ln now|
    ctx id ac ln note now|ctx l| |tenant device now|tenant| | | |]; cbn [run_op acts_for] in *; try done;
    try destruct Hop as (t' & -> & <- & Hadm).
  - apply Record_ind; [by apply untouched_refl|]. intros t o d' ->%TenantFromContext_Some _ H.
    by eapply untouched_record.
  - unfold Transition. apply untouched_Scoped. intros t [] d' ->%TenantFromContext_Some.
    destruct (roomUnderChange t' id d) as [[st key]|]; [|done]. destruct (Change_check ch st); [|done].
    apply untouched_applyChange.
  - unfold Reopen. apply untouched_Scoped. intros t [] d' ->%TenantFromContext_Some.
    destruct (roomUnderChange t' id d) as [[st key]|]; [|done]. do 2 (case_bool_decide; [done|]).
    apply untouched_applyChange.
  - unfold Assign. apply untouched_Scoped. intros t [] d' ->%TenantFromContext_Some.
    destruct (roomUnderChange t' id d); [|done]. destruct (user_ok _ _); [|done]. cbn [negb]. intros H.
    eapply untouched_trans; [|by eapply untouched_append]. apply untouched_map_rooms, own_room_tenant.
  - unfold Comment. case_bool_decide; [by apply untouched_refl|]. apply untouched_Scoped.
    intros t [] d' ->%TenantFromContext_Some. destruct (roomUnderChange t' id d); [|done].
    intros H'. by eapply untouched_append.
  - by apply untouched_UpsertLimits.
  - subst. apply untouched_EraseDevice.
  - subst. unfold EraseTenantInvestigations. apply untouched_Scoped. intros t0 [] d' _ [= <-].
    eapply untouched_trans; [|apply untouched_delete_rooms; [by apply delete_alerts_ok|]; intros; by andbs].
    apply untouched_delete_alerts. intros. by andbs.
Qed.

(** ** Moves *)

Lemma own_rows t id d r :
  db_ok d → t_incidents d !! id = Some r → ir_tenant r = TenantID t →
  List.filter (own_room t id) (rows (t_incidents d)) = [r].
Proof.
  intros Hok Hr Ht. apply Permutation_singleton_r. rewrite filter_rows_perm.
  assert (filter (λ kv : uuid * incident_row, own_room t id kv.2 = true) (t_incidents d) = {[ id := r ]}) as ->.
  { apply map_eq. intros k. apply option_eq. intros x. rewrite map_lookup_filter_Some, lookup_singleton_Some. cbn.
    split.
    - intros [Hx Ho]. apply (own_room_iff t id d k x Hok Hx) in Ho as [_ ->]. split; congruence.
    - intros [<- <-]. split; [done|]. by apply (own_room_iff t id d id r Hok Hr). }
  unfold rows. by rewrite map_to_list_singleton.
Qed.

Lemma update_own_room t id g d r :
  db_ok d → t_incidents d !! id = Some r → ir_tenant r = TenantID t →
  update_rooms (own_room t id) g d =
  set_incidents d (<[id := mk_irow (TenantID t) (g (ir_room r))]> (t_incidents d)).
Proof.
  intros Hok Hr Ht. unfold update_rooms. f_equal. apply map_eq. intros k. rewrite lookup_fmap.
  destruct (decide (k = id)) as [->|Hne].
  - rewrite lookup_insert_eq, Hr. cbn. by rewrite (proj2 (own_room_iff t id d id r Hok Hr)), Ht.
  - rewrite lookup_insert_ne by done. destruct (t_incidents d !! k) as [x|] eqn:Ex; [|done]. cbn.
    destruct (own_room t id x) eqn:E; [|done]. by apply (own_room_iff t id d k x Hok Ex) in E as [_ ?].
Qed.

Lemma open_holder_self d id r :
  db_ok d → t_incidents d !! id = Some r → is_open (ir_room r) = true →
  open_holder d (room_key (ir_room r)) = Some r.
Proof.
  intros Hok Hr Ho. destruct (open_holder d (room_key (ir_room r))) as [h|] eqn:E;
    [|by apply (open_holder_None d _ id r) in E].
  apply open_holder_Some in E as (hid & Hh & Hho & Hk).
  assert (hid = id) as -> by (by eapply (ok_open d Hok)). congruence.
Qed.

(** The line a move leaves in the room's history. *)
Definition move_line (t : Tenant) (r : incident_row) (change : Change) (body : transitionBody) (line : uuid) (at_ : Z) :
    event_row :=
  mk_event line (TenantID t) (i_OrganizationID (ir_room r)) (i_ID (ir_room r)) at_ (eventKind (ch_To change))
    (actorArg (ch_Actor change)) (BodyTransition body).

Lemma applyChange_exact t id at_ change body line d r :
  db_ok d → t_incidents d !! id = Some r → ir_tenant r = TenantID t →
  known_status (ch_To change) = true → (ch_Cause change = CauseNone ∨ knownCause (ch_Cause change) = true) →
  user_ok d (actorArg (ch_Actor change)) = true →
  (ch_To change = StatusResolved ∨ is_open (ir_room r) = true ∨ open_holder d (room_key (ir_room r)) = None) →
  applyChange t id at_ change body line d =
  Ok (tt, add_events (set_incidents d (<[id := mk_irow (TenantID t)
        (with_status (ir_room r) (ch_To change)
           (if bool_decide (ch_To change = StatusResolved) then Some at_ else None) (ch_Cause change))]> (t_incidents d)))
      [move_line t r change body line at_]).
Proof.
  intros Hok Hr Ht Hk Hc Hu Hfree. unfold applyChange, applyTransitionSQL, mbind, tx_bind.
  rewrite (own_rows t id d r Hok Hr Ht), Hk.
  rewrite (bool_decide_true ([r] ≠ [])) by done.
  replace (bool_decide (ch_Cause change = CauseNone) || knownCause (ch_Cause change)) with true
    by (destruct Hc as [Hc|Hc]; [by rewrite bool_decide_true|by rewrite Hc, orb_true_r]).
  cbn [negb orb andb].
  assert (bool_decide (ch_To change ≠ StatusResolved) &&
          existsb (λ r, match open_holder d (room_key (ir_room r)) with
                        | Some h => negb (bool_decide (i_ID (ir_room h) = id)) | None => false end) [r] = false) as ->.
  { destruct Hfree as [->|[Ho|Hn]]; [done| |].
    - cbn. rewrite (open_holder_self d id r Hok Hr Ho), (ok_room_id d Hok id r Hr), (bool_decide_true (id = id)) by done.
      by rewrite andb_false_r.
    - cbn. by rewrite Hn, andb_false_r. }
  rewrite (update_own_room t id _ d r Hok Hr Ht). unfold appendRoomEventSQL.
  set (r' := mk_irow (TenantID t) _). set (d1 := set_incidents d _).
  assert (List.filter (own_room t id) (rows (t_incidents d1)) = [r']) as ->.
  { apply Permutation_singleton_r. rewrite filter_rows_perm.
    assert (filter (λ kv : uuid * incident_row, own_room t id kv.2 = true) (t_incidents d1) = {[ id := r' ]}) as ->.
    { apply map_eq. intros k. apply option_eq. intros x.
      rewrite map_lookup_filter_Some, lookup_singleton_Some. cbn. rewrite lookup_insert_Some. split.
      - intros [[(<- & <-)|(Hne & Hx)] Ho]; [done|].
        by apply (own_room_iff t id d k x Hok Hx) in Ho as [_ ->].
      - intros [<- <-]. split; [by left|]. unfold own_room, r'. cbn.
        by rewrite (ok_room_id d Hok id r Hr), !bool_decide_true. }
    unfold rows. by rewrite map_to_list_singleton. }
  change (user_ok d1 (actorArg (ch_Actor change))) with (user_ok d (actorArg (ch_Actor change))).
  rewrite Hu, andb_false_r. done.
Qed.

Lemma Change_check_known c from : Change_check c from = Ok tt →
  ch_Cause c = CauseNone ∨ knownCause (ch_Cause c) = true.
Proof.
  unfold Change_check. destruct (negb _); [done|]. destruct (bool_decide (ch_Cause c ≠ CauseNone)) eqn:E.
  - destruct (knownCause (ch_Cause c)); [intros _; by right|done].
  - intros _. left. by apply bool_decide_eq_false, dec_stable in E.
Qed.

Lemma allows_open from to i : allows from to = true → i_Status i = from → is_open i = true.
Proof. intros H <-. unfold is_open. apply bool_decide_eq_true. intros E. rewrite E in H. discriminate H. Qed.

(** On a room's own key, the lock finds what the unique index holds: its holder
    is in the room's tenant. *)
Lemma lock_open_holder t d id r :
  db_ok d → t_incidents d !! id = Some r → ir_tenant r = TenantID t →
  lockOpenRoomForKey t (room_key (ir_room r)) d =
  (λ h, mk_open (i_ID (ir_room h)) (i_FirstSeen (ir_room h)) (i_LastSeen (ir_room h))) <$>
    open_holder d (room_key (ir_room r)).
Proof.
  intros Hok Hr Ht. unfold lockOpenRoomForKey, open_holder. f_equal.
  assert (∀ x, x ∈ rows (t_incidents d) →
    bool_decide (ir_tenant x = TenantID t) && is_open (ir_room x) && bool_decide (room_key (ir_room x) = room_key (ir_room r))
    = is_open (ir_room x) && bool_decide (room_key (ir_room x) = room_key (ir_room r))) as Hext.
  { intros x [k Hx]%rows_elem. case_bool_decide as E1; [done|]. cbn.
    destruct (is_open (ir_room x)); [|done]. cbn. symmetry. apply bool_decide_eq_false. intros Hk. apply E1.
    pose proof (ok_room_tenant d Hok k x Hx) as Ox. pose proof (ok_room_tenant d Hok id r Hr) as Or.
    injection Hk as Eo _ _ _. rewrite Eo in Ox. congruence. }
  induction (rows (t_incidents d)) as [|x l IH]; cbn [List.find]; [done|].
  rewrite Hext by (by left). rewrite IH; [done|]. intros y Hy. apply Hext. by right.
Qed.

(** ** Claims *)

(** C1: Whatever sequence of operations the store runs (alerts recorded, rooms
    moved, reopened, assigned and commented on, budgets set, the janitor's
    sweeps, erasures), the tables stay consistent: one open room per grouping
    key, one alert per identity, every filed alert in a room of its own tenant,
    customer and rule, every row in the tenant of its organization, and each
    room stamped with a resolution exactly when it is resolved. *)
Theorem store_invariant text_length gen interval_of ops :
  db_ok (run_ops text_length gen interval_of ops empty_db).
Proof. apply run_ops_ok, empty_db_ok. Qed.

(** C17: A room's counters never drift: over any run of operations without a
    retention sweep, every room that is not the storm room counts exactly the
    alerts and the machines filed in it, and its seen interval covers them. *)
Theorem counts_exact text_length gen interval_of ops :
  Forall restates ops → counts_ok (run_ops text_length gen interval_of ops empty_db).
Proof. intros H. apply counts_run_ops; [done|apply empty_db_ok|apply empty_counts]. Qed.

(** Recording an alert has exactly the outcome it reports.  [Stored]: no
    alert of that identity was there and the alert, normalized, now is, stamped
    with the receipt time.  [Duplicate]: the identity was there and nothing at
    all changed.  [CeilingSuppressed]: no alert changed, the tenant held no
    alert of that identity, and the customer's storm room is open.  An error:
    nothing changed. *)
Theorem record_outcomes text_length gen ctx a g new now d res d' :
  db_ok d → Record_ text_length gen ctx a g new now d = (res, d') →
  match res with
  | Ok Stored =>
      (∀ id row, t_alerts d !! id = Some row → same_identity (ar_alert row) (normalized a) = false) ∧
      t_alerts d !! a_ID a = None ∧
      ∃ row, t_alerts d' !! a_ID a = Some row ∧ ar_alert row = normalized a ∧ ar_received row = truncate_us now
  | Ok Duplicate =>
      d' = d ∧ ∃ id row, t_alerts d !! id = Some row ∧ same_identity (ar_alert row) (normalized a) = true
  | Ok CeilingSuppressed =>
      t_alerts d' = t_alerts d ∧
      (∀ t id row, TenantFromContext ctx = Some t → t_alerts d !! id = Some row → ar_tenant row = TenantID t →
         same_identity (ar_alert row) (normalized a) = false) ∧
      ∃ id r, t_incidents d' !! id = Some r ∧ is_open (ir_room r) = true ∧
              room_key (ir_room r) = mk_key (a_OrganizationID a) StormRuleID ScopeOrganization (a_OrganizationID a)
  | Err _ => d' = d
  end.
Proof.
  intros Hok H. destruct res as [o|e]; [|by apply Record_Err in H].
  apply Record_Ok in H as (t & Ht & _ & H).
  apply record_tx_cases in H as [(-> & d1 & id & Hs & Hf)|[(-> & Hi & ->)|(-> & Hi & _ & Hs)]].
  - apply storeAlert_Some in Hs as (_ & _ & Hfresh & _ & Hid & ->). split; [done|]. split; [done|].
    apply refiled_fold in Hf as (h & Hh & E).
    destruct (Hh (mk_arow (normalized a) (TenantID t) (truncate_us now) None)) as (E1 & _ & E3).
    eexists. rewrite E, lookup_fmap. cbn -[normalized]. change (a_ID a) with (a_ID (normalized a)).
    rewrite lookup_insert_eq. split; [done|]. by rewrite E1, E3.
  - split; [done|]. destruct Hi as [x Hi]. unfold identity in Hi. apply fmap_Some in Hi as (row & Hrow & _).
    apply find_rows_Some in Hrow as (id & Hid & Hp). andbs. eauto.
  - unfold foldIntoStorm in Hs. rewrite tx_bind_Ok in Hs. destruct Hs as (id & d1 & Hup & [= <-]).
    apply upsert_room_ok in Hup as (_ & _ & Ha & r & Hr & Hk & Ho & _); [|done|by split|done|by intros []].
    split; [done|]. split; [|eauto 10]. intros t' id' row Ht' Hrow Htn. assert (t' = t) as -> by congruence.
    unfold identity in Hi. apply fmap_None in Hi. pose proof (find_rows_None _ _ _ _ Hi Hrow) as Hp. cbn in Hp.
    by rewrite Htn, bool_decide_true in Hp.
Qed.

(** A customer's hourly budget holds: recording an alert never takes the
    alerts stored for the organization in the rolling hour past the budget in
    force, whatever the outcome. *)
Theorem hourly_budget_holds text_length gen ctx t a g new now d o d' :
  TenantFromContext ctx = Some t → Record_ text_length gen ctx a g new now d = (Ok o, d') →
  let hour := truncate_us now - duration_hour in
  let budget := lm_OrganizationHourly (limitsIn t (a_OrganizationID a) d) in
  recent_count t (a_OrganizationID a) hour d' ≤ Z.max budget (recent_count t (a_OrganizationID a) hour d) ∧
  (o = Stored → recent_count t (a_OrganizationID a) hour d' ≤ budget).
Proof.
  intros Ht H hour budget. apply Record_Ok in H as (t' & Ht' & _ & H).
  assert (t' = t) as -> by congruence. pose proof (record_count text_length gen _ _ _ _ _ _ _ _ H) as Hc.
  cbn [normalized a_OrganizationID] in Hc. fold hour budget in Hc. split; [done|]. intros ->.
  apply record_tx_cases in H as [(_ & d1 & id & Hs & _)|[(? & _)|(? & _)]]; [|done..].
  apply storeAlert_Some in Hs as (Hlt & _). cbn [normalized a_OrganizationID] in Hlt. fold hour budget in Hlt. lia.
Qed.

Lemma stored_alert_in_room text_length gen ctx t a g new now d d' key :
  db_ok d → TenantFromContext ctx = Some t → a_Severity a ≠ SeverityInfo →
  scopeKeyFor t (normalized a) (g_Scope g) d = Ok key →
  Record_ text_length gen ctx a g new now d = (Ok Stored, d') →
  (∃ row id r, t_alerts d' !! a_ID a = Some row ∧ ar_alert row = normalized a ∧ ar_incident row = Some id ∧
     t_incidents d' !! id = Some r ∧ is_open (ir_room r) = true ∧ room_key (ir_room r) = key ∧
     room_counts (filed d' id) (ir_room r)) ∨
  (d' = set_alerts d (<[a_ID a := mk_arow (normalized a) (TenantID t) (truncate_us now) None]> (t_alerts d)) ∧
   ∃ id r, t_incidents d !! id = Some r ∧ is_open (ir_room r) = true ∧ room_key (ir_room r) = key ∧
     truncate_us (a_ObservedAt a) + g_Window g < i_FirstSeen (ir_room r)).
Proof.
  intros Hok Ht Hsev Hkey H. apply Record_Ok in H as (t' & Ht' & _ & H).
  assert (t' = t) as -> by congruence.
  apply record_tx_cases in H as [(_ & d1 & id & Hs & Hf)|[(? & _)|(? & _)]]; [|done..].
  pose proof Hs as (_ & _ & _ & _ & _ & E1)%storeAlert_Some.
  apply storeAlert_ok in Hs as (Hok1 & Hf1 & Hst); [|done].
  assert (scopeKeyFor t (normalized a) (g_Scope g) d1 = Ok key) as Hkey1 by (subst d1; exact Hkey).
  destruct (fold_files _ _ t _ _ _ _ key _ _ Hok1 Hst Hsev Hkey1 Hf) as [Hfiled|(-> & rid & r & Hr & Ho & Hk & Hlt)].
  - left. exact Hfiled.
  - right. split; [exact E1|]. subst d1. exists rid, r. by split_and!.
Qed.

(** C4: An alert worth a person's look is never lost between rooms: stored with a
    severity above info, it ends up in the open room of its grouping key, which then
    counts exactly the alerts and the machines filed in it and whose seen interval
    covers them all, unless it predates a live room of that key by more than the
    window, when it is stored without a room and nothing else of the database
    changes. *)
Theorem alert_finds_its_room text_length gen ctx t a g new now d d' key :
  db_ok d → TenantFromContext ctx = Some t → a_Severity a ≠ SeverityInfo →
  scopeKeyFor t (normalized a) (g_Scope g) d = Ok key →
  Record_ text_length gen ctx a g new now d = (Ok Stored, d') →
  (∃ row id r, t_alerts d' !! a_ID a = Some row ∧ ar_alert row = normalized a ∧ ar_incident row = Some id ∧
     t_incidents d' !! id = Some r ∧ is_open (ir_room r) = true ∧ room_key (ir_room r) = key ∧
     room_counts (filed d' id) (ir_room r)) ∨
  (d' = set_alerts d (<[a_ID a := mk_arow (normalized a) (TenantID t) (truncate_us now) None]> (t_alerts d)) ∧
   ∃ id r, t_incidents d !! id = Some r ∧ is_open (ir_room r) = true ∧ room_key (ir_room r) = key ∧
     truncate_us (a_ObservedAt a) + g_Window g < i_FirstSeen (ir_room r)).
Proof. apply stored_alert_in_room. Qed.

(** C5: One tenant's operations never reach another's rows: whatever a caller
    without the administrator flag does for tenant [t], and the erasures made in
    its name, leave every alert, room and budget of the other tenants as it was. *)
Theorem tenant_isolation text_length gen interval_of t op d :
  db_ok d → acts_for t op → untouched t d (run_op text_length gen interval_of op d).
Proof. apply untouched_run_op. Qed.

(** A person's move on a room does exactly what the lifecycle allows.  A
    legal transition sets the status, stamps a resolution with its time and
    cause or clears both, and adds one line of history; an illegal one is
    refused with the reason the lifecycle gives and changes nothing.  A resolved
    room reopens into investigation, withdrawing its cause, exactly when no
    other open room holds its grouping key. *)
Theorem moves_exact ctx t id change actor line now d r :
  db_ok d → TenantFromContext ctx = Some t → t_incidents d !! id = Some r → ir_tenant r = TenantID t →
  user_ok d (actorArg (ch_Actor change)) = true → user_ok d (actorArg actor) = true →
  let at_ := truncate_us now in
  let moved to at_' cause := <[id := mk_irow (TenantID t) (with_status (ir_room r) to at_' cause)]> (t_incidents d) in
  match Change_check change (i_Status (ir_room r)) with
  | Err e => Transition ctx id change line now d = (Err e, d)
  | Ok _ =>
      Transition ctx id change line now d =
      (Ok tt, add_events (set_incidents d
         (moved (ch_To change) (if bool_decide (ch_To change = StatusResolved) then Some at_ else None) (ch_Cause change)))
         [move_line t r change (mk_transition (i_Status (ir_room r)) (ch_To change) (ch_Cause change) false) line at_])
  end ∧
  Reopen ctx id actor line now d =
  if is_open (ir_room r) then (Err ErrIllegalTransition, d)
  else match open_holder d (room_key (ir_room r)) with
       | Some _ => (Err ErrKeyAlreadyOpen, d)
       | None =>
           (Ok tt, add_events (set_incidents d (moved StatusInvestigating None CauseNone))
              [move_line t r (mk_change StatusInvestigating CauseNone actor)
                 (mk_transition StatusResolved StatusInvestigating CauseNone true) line at_])
       end.
Proof.
  intros Hok Hctx Hr Ht Hu Hu' at_ moved. unfold Transition, Reopen, Scoped. rewrite Hctx.
  unfold roomUnderChange. rewrite Hr, bool_decide_true by done. split.
  - destruct (Change_check change (i_Status (ir_room r))) as [[]|e] eqn:Ec; [|done].
    pose proof (Change_check_cause _ _ Ec) as (_ & Hall & Hk).
    rewrite (applyChange_exact t id at_ change _ line d r); try done.
    + by eapply Change_check_known.
    + right. left. by eapply allows_open.
  - destruct (is_open (ir_room r)) eqn:Eo; [by rewrite (Eo : bool_decide (i_Status (ir_room r) ≠ StatusResolved) = true)|].
    rewrite (Eo : bool_decide (i_Status (ir_room r) ≠ StatusResolved) = false).
    rewrite (lock_open_holder t d id r Hok Hr Ht).
    destruct (open_holder d (room_key (ir_room r))) as [h|] eqn:Eh; [by rewrite bool_decide_true by eauto|].
    rewrite bool_decide_false by (by intros []).
    unfold is_open in Eo. apply bool_decide_eq_false, dec_stable in Eo. rewrite Eo.
    rewrite (applyChange_exact t id at_ (mk_change StatusInvestigating CauseNone actor) _ line d r); try done; auto.
Qed.

(** ** Witnesses *)

Definition demo_tenant : Tenant := mk_tenant (replicate 16 x03) false.

Definition demo_alert : Alert :=
  mk_alert (replicate 16 x20) (replicate 16 x02) (replicate 16 x01) (lit "cpu-high") 1 SeverityWarning
    (lit "cpu.total") (Some (f_of_Z 97)) 1000 60000 60000 false None [].

Definition demo_grouping : Grouping := mk_grouping ScopeDevice (600 * duration_second).

Definition demo_setup : list store_op :=
  [OpOrganization (replicate 16 x02) (replicate 16 x03);
   OpDevice (replicate 16 x01) (mk_devrow (replicate 16 x03) None false)].

Definition demo_record : store_op :=
  OpRecord (Some demo_tenant) demo_alert demo_grouping (replicate 16 x30) 70000.

Definition demo_db : db := run_ops blen (λ id, id) (λ w, w) demo_setup empty_db.

Lemma demo_db_ok : db_ok demo_db.
Proof. apply run_ops_ok, empty_db_ok. Qed.

Definition demo_after : result alert_err Outcome * db :=
  Record_ blen (λ id, id) (Some demo_tenant) demo_alert demo_grouping (replicate 16 x30) 70000 demo_db.

Lemma demo_stored : demo_after = (Ok Stored, demo_after.2).
Proof. vm_compute. reflexivity. Qed.

Lemma counts_exact_witness :
  counts_ok (run_ops blen (λ id, id) (λ w, w) (demo_setup ++ [demo_record]) empty_db).
Proof. apply counts_exact. repeat (apply Forall_cons; split; [exact I|]). apply Forall_nil. exact I. Defined.

Lemma record_outcomes_witness :
  ∃ row, t_alerts demo_after.2 !! replicate 16 x20 = Some row ∧ ar_alert row = normalized demo_alert.
Proof.
  pose proof (record_outcomes blen (λ id, id) (Some demo_tenant) demo_alert demo_grouping (replicate 16 x30) 70000
                demo_db (Ok Stored) demo_after.2 demo_db_ok demo_stored) as H.
  destruct H as (_ & _ & row & H1 & H2 & _). exists row. split; [exact H1|exact H2].
Defined.

Lemma hourly_budget_holds_witness :
  recent_count demo_tenant (replicate 16 x02) (70000 - duration_hour) demo_after.2 ≤ 500.
Proof.
  apply (hourly_budget_holds blen (λ id, id) (Some demo_tenant) demo_tenant demo_alert demo_grouping
           (replicate 16 x30) 70000 demo_db Stored demo_after.2); [reflexivity|exact demo_stored|reflexivity].
Defined.

Lemma alert_finds_its_room_witness :
  ∃ row, t_alerts demo_after.2 !! replicate 16 x20 = Some row ∧ ar_incident row = Some (replicate 16 x30).
Proof.
  destruct (alert_finds_its_room blen (λ id, id) (Some demo_tenant) demo_tenant demo_alert demo_grouping
    (replicate 16 x30) 70000 demo_db demo_after.2
    (mk_key (replicate 16 x02) (lit "cpu-high") ScopeDevice (replicate 16 x01)))
    as [(row & id & r & H1 & H2 & _)|(_ & id & r & Hr & _)].
  - exact demo_db_ok.
  - reflexivity.
  - discriminate.
  - reflexivity.
  - exact demo_stored.
  - exists row. split; [exact H1|]. vm_compute in H1. injection H1 as <-. reflexivity.
  - vm_compute in Hr. discriminate Hr.
Defined.

Lemma tenant_isolation_witness :
  untouched (replicate 16 x07) two_rooms
    (run_op blen (λ id, id) (λ w, w) (OpEraseTenant (replicate 16 x07)) two_rooms).
Proof. apply tenant_isolation; [exact two_rooms_ok|reflexivity]. Defined.

Lemma moves_exact_witness :
  (Reopen (Some demo_tenant) (replicate 16 x05) Nil (replicate 16 x40) 9000 two_rooms).1 =
  Err ErrIllegalTransition.
Proof.
  rewrite (proj2 (moves_exact (Some demo_tenant) demo_tenant (replicate 16 x05)
    (mk_change StatusResolved CauseFixedByTech Nil) Nil (replicate 16 x40) 9000 two_rooms
    (mk_irow (replicate 16 x03) (room_at x05 100)) two_rooms_ok eq_refl eq_refl eq_refl eq_refl eq_refl)).
  reflexivity.
Defined.
