(* ===== verification/AlertQueue.v ===== *)
(** * Reading the queue page by page

    [Queue] of [src/server/internal/alerts/queue.go]: following the cursor from
    page to page reads every room a filter selects, once, newest first. *)
From S2P Require Import Prelude Float Settings Sorting Dbtx Incident AlertStore AlertStoreInv.
#[local] Open Scope Z_scope.

(** ** The order of the queue *)

Lemma cursor_lt_iff a b :
  cursor_lt a b = true ↔
  cu_LastSeen a < cu_LastSeen b ∨ cu_LastSeen a = cu_LastSeen b ∧ string_lt (cu_ID a) (cu_ID b) = true.
Proof.
  unfold cursor_lt. case_bool_decide as E; [rewrite Z.ltb_lt; intuition lia|]. intuition lia.
Qed.

Lemma cursor_lt_irrefl a : cursor_lt a a = false.
Proof. apply not_true_is_false. rewrite cursor_lt_iff, string_lt_irrefl. intros [?|[_ ?]]; [lia|done]. Qed.

Lemma cursor_lt_trans a b c : cursor_lt a b = true → cursor_lt b c = true → cursor_lt a c = true.
Proof.
  rewrite !cursor_lt_iff. intros [?|[? H1]] [?|[? H2]]; [left; lia..|]. right. split; [lia|].
  by eapply string_lt_trans.
Qed.

Lemma cursor_lt_asym a b : cursor_lt a b = true → cursor_lt b a = false.
Proof.
  intros H. destruct (cursor_lt b a) eqn:E; [|done]. pose proof (cursor_lt_trans _ _ _ H E) as Hi.
  by rewrite cursor_lt_irrefl in Hi.
Qed.

Lemma cursor_lt_cases a b : {cursor_lt a b = true} + {a = b} + {cursor_lt b a = true}.
Proof.
  destruct (cursor_lt a b) eqn:E1; [by left; left|]. destruct (cursor_lt b a) eqn:E2; [by right|]. left; right.
  destruct a as [x i], b as [y j]. unfold cursor_lt in *. cbn in *. destruct (decide (x = y)) as [->|Hne].
  - rewrite bool_decide_false in E1, E2 by auto. f_equal. by apply string_lt_total.
  - rewrite bool_decide_true in E1, E2 by auto. rewrite Z.ltb_ge in *. lia.
Qed.

#[global] Instance later_weak : StrictWeak later.
Proof.
  constructor.
  - intros a b. apply cursor_lt_asym.
  - unfold not_after, later. intros a b c Hab Hbc.
    destruct (cursor_lt (cursor_of a) (cursor_of c)) eqn:E; [|done].
    destruct (cursor_lt_cases (cursor_of a) (cursor_of b)) as [[H|H]|H]; [congruence| |].
    + rewrite H in E. congruence.
    + pose proof (cursor_lt_trans _ _ _ H E). congruence.
Qed.

(** Newest activity first, no two rooms at one position. *)
Definition strictly_later (a b : Incident) : Prop := later a b = true.

(** ** One read *)

Section queue.
Context (t : Tenant) (f : Filter_) (d : db) (Hok : db_ok d).

(** The rooms the filter selects past a cursor, in the queue's order. *)
Definition remaining (after : Cursor) : list Incident :=
  stable_sort later (ir_room <$>
    List.filter (λ r, selects t f d r && cursor_lt (cursor_of (ir_room r)) after) (rows (t_incidents d))).

Lemma remaining_elem after i :
  i ∈ remaining after ↔ (∃ r, i = ir_room r ∧ (∃ id, t_incidents d !! id = Some r) ∧ selects t f d r = true) ∧
                        cursor_lt (cursor_of i) after = true.
Proof.
  unfold remaining. rewrite stable_sort_elem, list_elem_of_fmap. split.
  - intros (r & -> & [Hr [? ?]%andb_prop]%filter_rows_elem). eauto 10.
  - intros [(r & -> & Hr & Hs) Hc]. exists r. split; [done|]. apply filter_rows_elem. by rewrite Hs, Hc.
Qed.

(** A room's position is its own. *)
Lemma remaining_inj after i j :
  i ∈ remaining after → j ∈ remaining after → i_ID i = i_ID j → i = j.
Proof.
  intros [(r & -> & [id Hr] & _) _]%remaining_elem [(r' & -> & [id' Hr'] & _) _]%remaining_elem E.
  rewrite (ok_room_id d Hok id r Hr), (ok_room_id d Hok id' r' Hr') in E. congruence.
Qed.

Lemma rows_NoDup_ids (g : incident_row → bool) :
  NoDup (i_ID <$> (ir_room <$> List.filter g (rows (t_incidents d)))).
Proof.
  assert (∀ l : list (uuid * incident_row), NoDup l.*1 → (∀ kv, kv ∈ l → i_ID (ir_room kv.2) = kv.1) →
    NoDup (i_ID <$> (ir_room <$> List.filter g l.*2))) as H.
  { induction l as [|[k r] l IH]; cbn; intros Hnd Hid; [constructor|]. apply NoDup_cons in Hnd as [Hk Hnd].
    assert (∀ kv, kv ∈ l → i_ID (ir_room kv.2) = kv.1) as Hid' by (intros; apply Hid; by right).
    destruct (g r); [|by apply IH]. cbn. apply NoDup_cons. split; [|by apply IH].
    intros (i & E & (r' & -> & Hr')%list_elem_of_fmap)%list_elem_of_fmap.
    apply list_elem_of_In, filter_In in Hr' as [Hr'%list_elem_of_In _].
    apply list_elem_of_fmap in Hr' as ([k' r''] & -> & Hkv). apply Hk, list_elem_of_fmap.
    exists (k', r''). split; [|done]. cbn. pose proof (Hid' _ Hkv) as E'. cbn in E'.
    pose proof (Hid (k, r) ltac:(by left)) as E0. cbn in E0. cbn in E. congruence. }
  apply H; [apply NoDup_fst_map_to_list|]. intros [k r] Hkv%elem_of_map_to_list. by apply Hok.
Qed.

Lemma remaining_NoDup after : NoDup (remaining after).
Proof.
  unfold remaining. apply (NoDup_fmap_1 i_ID). rewrite stable_sort_Permutation. apply rows_NoDup_ids.
Qed.

Lemma remaining_strict after : StronglySorted strictly_later (remaining after).
Proof.
  pose proof (stable_sort_sorted later (ir_room <$>
    List.filter (λ r, selects t f d r && cursor_lt (cursor_of (ir_room r)) after) (rows (t_incidents d)))) as Hs.
  fold (remaining after) in Hs. pose proof (remaining_NoDup after) as Hnd. pose proof (remaining_inj after) as Hinj.
  induction (remaining after) as [|i l IH]; [constructor|].
  apply StronglySorted_cons in Hs as [Hi Hs]. apply NoDup_cons in Hnd as [Hn Hnd].
  apply StronglySorted_cons. split; [|apply IH; auto; intros ? ? ? ?; apply Hinj; by right].
  apply Forall_forall. intros j Hj. pose proof (proj1 (Forall_forall _ _) Hi j Hj) as Hna.
  unfold strictly_later, not_after, later in *.
  destruct (cursor_lt_cases (cursor_of i) (cursor_of j)) as [[H|H]|H]; [congruence| |done].
  exfalso. apply Hn. rewrite (Hinj i j); [done|by left|by right|]. by injection H.
Qed.

(** What is left after the room [i]. *)
Lemma remaining_after after l i rest :
  remaining after = l ++ i :: rest → remaining (cursor_of i) = rest.
Proof.
  intros E. pose proof (remaining_strict after) as Hs. rewrite E in Hs.
  apply StronglySorted_app in Hs as (Hcross & _ & Hs). pose proof Hs as [Hi Hrest]%StronglySorted_cons.
  pose proof (remaining_NoDup after) as Hnd. rewrite E in Hnd. apply NoDup_app in Hnd as (_ & _ & Hnd).
  apply NoDup_cons in Hnd as [_ Hnd].
  apply (StronglySorted_unique_strong strictly_later); [|apply remaining_strict|done|].
  - intros a b _ _ Hab Hba. unfold strictly_later, later in *. apply cursor_lt_asym in Hab. congruence.
  - apply NoDup_Permutation; [apply remaining_NoDup|done|]. intros j. rewrite remaining_elem.
    assert (j ∈ rest ↔ j ∈ remaining after ∧ cursor_lt (cursor_of j) (cursor_of i) = true) as ->.
    { rewrite E, elem_of_app, elem_of_cons. split.
      - intros Hj. split; [by right; right|]. by apply (proj1 (Forall_forall _ _) Hi).
      - intros [[Hj|[->|Hj]] Hlt]; [|by rewrite cursor_lt_irrefl in Hlt|done].
        assert (strictly_later j i) as H by (apply Hcross; [done|by left]).
        unfold strictly_later, later in H. apply cursor_lt_asym in H. congruence. }
    rewrite remaining_elem. split; [|tauto]. intros [Hsel Hlt]. split_and!; auto.
    assert (i ∈ remaining after) as [_ Hia]%remaining_elem by (rewrite E; apply elem_of_app; right; by left).
    by eapply cursor_lt_trans.
Qed.
End queue.

(** ** Every page *)

Definition with_after (f : Filter_) (after : Cursor) : Filter_ :=
  mk_filter (fl_OrganizationID f) (fl_Statuses f) (fl_Severities f) (fl_RuleID f) (fl_DeviceID f)
    (fl_AssigneeID f) after (fl_Limit f).

(** A reader that follows the cursor until it is zero: [None] when a page is
    refused, or when [fuel] pages were read and the cursor still is not zero. *)
Fixpoint read_pages (fuel : nat) (ctx : option Tenant) (f : Filter_) (d : db) : option (list Incident) :=
  match fuel with
  | O => None
  | S fuel =>
      match (Queue ctx f d).1 with
      | Err _ => None
      | Ok (page, next) =>
          if Cursor_IsZero next then Some page
          else app page <$> read_pages fuel ctx (with_after f next) d
      end
  end.

Definition page_limit (f : Filter_) : nat := Z.to_nat (fl_Limit (Filter_normalized f)).

Lemma page_limit_pos f : (0 < page_limit f)%nat ∧ fl_Limit (Filter_normalized f) = Z.of_nat (page_limit f).
Proof.
  unfold page_limit, Filter_normalized, defaultQueuePage, maxQueuePage; cbn.
  repeat case_bool_decide; lia.
Qed.

Lemma selects_after t f after d r : selects t (with_after f after) d r = selects t f d r.
Proof. done. Qed.

Lemma selects_normalized t f d r : selects t (Filter_normalized f) d r = selects t f d r.
Proof. done. Qed.

(** The page is the front of what remains. *)
Lemma Queue_page ctx t f d :
  TenantFromContext ctx = Some t → Cursor_IsZero (fl_After f) = false →
  Queue ctx f d =
  (Ok (take (page_limit f) (remaining t f d (fl_After f)),
       if bool_decide (page_limit f ≤ length (remaining t f d (fl_After f)))%nat
       then match last (take (page_limit f) (remaining t f d (fl_After f))) with
            | Some i => cursor_of i | None => zero_cursor end
       else zero_cursor), d).
Proof.
  intros Ht Hz. destruct (page_limit_pos f) as [Hpos Hlim]. unfold Queue, Scoped. rewrite Ht. cbn [tx_read].
  assert (queue_rows t (Filter_normalized f) d = take (page_limit f) (remaining t f d (fl_After f))) as ->.
  { unfold queue_rows, remaining, page_limit. f_equal. unfold Filter_normalized at 2. by rewrite Hz. }
  rewrite (bool_decide_ext _ (page_limit f ≤ length (remaining t f d (fl_After f)))%nat); [done|].
  rewrite Hlim, length_take. lia.
Qed.

Lemma read_pages_remaining fuel ctx t f d :
  db_ok d → TenantFromContext ctx = Some t →
  (∀ r id, t_incidents d !! id = Some r → i_ID (ir_room r) ≠ Nil) →
  Cursor_IsZero (fl_After f) = false →
  (length (remaining t f d (fl_After f)) < fuel)%nat →
  read_pages fuel ctx f d = Some (remaining t f d (fl_After f)).
Proof.
  intros Hok Ht Hnil. revert f. induction fuel as [|fuel IH]; intros f Hz Hfuel; [lia|].
  cbn [read_pages]. rewrite (Queue_page ctx t f d Ht Hz). cbn [fst].
  destruct (page_limit_pos f) as [Hpos _]. set (R := remaining t f d (fl_After f)) in *.
  case_bool_decide as Hlen.
  - destruct (last (take (page_limit f) R)) as [i|] eqn:El.
    2: { apply last_None in El. apply (f_equal length) in El. rewrite length_take in El. cbn in El. lia. }
    apply last_Some in El as [l El]. assert (R = l ++ i :: drop (page_limit f) R) as ER.
    { rewrite <-(take_drop (page_limit f) R) at 1. rewrite El, <-app_assoc. done. }
    pose proof (remaining_after t f d Hok (fl_After f) l i _ ER) as Hrest.
    assert (Cursor_IsZero (cursor_of i) = false) as Hz'.
    { apply bool_decide_eq_false. cbn.
      assert (i ∈ R) as [(r & -> & [id Hr] & _) _]%remaining_elem by (rewrite ER; apply elem_of_app; right; by left).
      by eapply Hnil. }
    rewrite Hz'. change (remaining t f d (cursor_of i)) with
      (remaining t (with_after f (cursor_of i)) d (cursor_of i)) in Hrest.
    rewrite IH; cbn [with_after fl_After].
    + rewrite Hrest. cbn. f_equal. apply take_drop.
    + done.
    + rewrite Hrest, length_drop. lia.
  - cbn. f_equal. apply take_ge. lia.
Qed.

(** A first page starts at the sentinel. *)
Lemma read_pages_first fuel ctx f d :
  Cursor_IsZero (fl_After f) = true → read_pages fuel ctx f d = read_pages fuel ctx (with_after f beyondTheQueue) d.
Proof.
  intros Hz. destruct fuel; [done|]. cbn [read_pages].
  assert (Queue ctx (with_after f beyondTheQueue) d = Queue ctx f d) as ->; [|done].
  unfold Queue. assert (Filter_normalized (with_after f beyondTheQueue) = Filter_normalized f) as ->; [|done].
  unfold Filter_normalized. by rewrite Hz.
Qed.

(** ** Claim *)

(** Every room is before the first page's sentinel, and none is called zero. *)
Definition queueable (d : db) : Prop :=
  ∀ id r, t_incidents d !! id = Some r →
    id ≠ Nil ∧ cursor_lt (cursor_of (ir_room r)) beyondTheQueue = true.

(** C33: Following the cursor of the triage queue from the first page reads each
    room the filter selects exactly once, newest activity first, and stops: at
    most one page more than there are rooms is read before a page comes back with
    the zero cursor. Pages neither skip nor repeat a room however the limit cuts
    them. The table does not change while it is read, no room has the nil
    identifier, and every room's last activity is before the sentinel the first
    page starts at. *)
Theorem queue_pages_complete ctx t f d :
  db_ok d → TenantFromContext ctx = Some t → queueable d → Cursor_IsZero (fl_After f) = true →
  ∃ all, read_pages (S (size (t_incidents d))) ctx f d = Some all ∧
  (∀ i, i ∈ all ↔ ∃ id r, t_incidents d !! id = Some r ∧ selects t f d r = true ∧ i = ir_room r) ∧
  NoDup all ∧ StronglySorted (λ a b, later a b = true) all.
Proof.
  intros Hok Ht Hq Hz. exists (remaining t f d beyondTheQueue). split.
  { rewrite read_pages_first by done.
    apply (read_pages_remaining _ ctx t (with_after f beyondTheQueue) d); try done.
    - intros r id Hr. rewrite (ok_room_id d Hok id r Hr). by eapply Hq.
    - cbn. unfold remaining. rewrite (Permutation_length (stable_sort_Permutation later _)), length_fmap.
      apply Nat.lt_succ_r. etrans; [apply filter_length_le|]. unfold rows.
      by rewrite length_fmap, length_map_to_list. }
  split_and!; [|by apply remaining_NoDup|by apply remaining_strict].
  intros i. rewrite remaining_elem. split.
  - intros [(r & -> & [id Hr] & Hs) _]. eauto.
  - intros (id & r & Hr & Hs & ->). split; [eauto 10|]. by eapply Hq.
Qed.

(** ** Witness *)

Definition one_by_one : Filter_ := mk_filter Nil [] [] [] Nil Nil zero_cursor 1.

Lemma queue_pages_complete_witness :
  ∃ all, read_pages 3 (Some (mk_tenant (replicate 16 x03) false)) one_by_one two_rooms = Some all ∧
         room_at x05 100 ∈ all.
Proof.
  destruct (queue_pages_complete (Some (mk_tenant (replicate 16 x03) false)) (mk_tenant (replicate 16 x03) false)
           one_by_one two_rooms) as (all & Hread & Hall & _); [apply two_rooms_ok|reflexivity| |reflexivity|].
  - intros id r [[-> ->]|[-> ->]]%two_rooms_lookup; (split; [done|reflexivity]).
  - exists all. split; [exact Hread|]. apply Hall. exists (replicate 16 x05), (mk_irow (replicate 16 x03) (room_at x05 100)).
    split_and!; reflexivity.
Defined.
