(* ===== verification/Ledger.v ===== *)
(** * The certificate ledger

    [src/server/internal/certledger/store.go] and [upkeep.go]: every certificate
    the server issues, in a table and in an index held in memory.  The index
    shares [*Entry] pointers between its two maps, so entries live in a heap and
    the maps hold locations.  An operation that touches the table and the index
    does so in two critical sections; what is left to do between them is [work]
    in flight, and [ledger_step] interleaves such work freely.  A statement may
    fail, which is an argument of the step.

    The hash, the parser of device numbers and what a [timestamptz] column keeps
    of an instant are parameters. *)
From S2P Require Import Prelude GoTime Settings Dbtx.

Inductive Source := SourceEnroll | SourceRenew.

#[global] Instance Source_eq_dec : EqDecision Source.
Proof. solve_decision. Defined.

Definition Fingerprint : Type := bytes.
Definition loc : Type := nat.

Record Entry := mk_entry {
  e_Fingerprint : Fingerprint;
  e_DeviceID : uuid;
  e_IssuerHash : bytes;
  e_NotBefore : time;
  e_NotAfter : time;
  e_Source : Source;
  e_IssuedAt : time;
  e_Seen : bool;
}.

(** A parsed [x509.Certificate], as far as it is read. *)
Record Certificate := mk_cert {
  crt_Raw : bytes;
  crt_RawSubject : bytes;
  crt_CommonName : bytes;
  crt_SerialNumber : bytes;
  crt_NotBefore : time;
  crt_NotAfter : time;
  crt_RawSubjectPublicKeyInfo : bytes;
}.

#[global] Instance Certificate_eq_dec : EqDecision Certificate.
Proof. solve_decision. Defined.

(** [Entry.later] *)
Definition later (e other : Entry) : bool :=
  if bool_decide (e_NotBefore e ≠ e_NotBefore other)
  then bool_decide (e_NotBefore other < e_NotBefore e)
  else bool_decide (e_IssuedAt other < e_IssuedAt e).

Definition with_seen (e : Entry) : Entry :=
  mk_entry (e_Fingerprint e) (e_DeviceID e) (e_IssuerHash e) (e_NotBefore e) (e_NotAfter e)
    (e_Source e) (e_IssuedAt e) true.

(** ** The index *)

Record Store := mk_store {
  s_heap : gmap loc Entry;
  s_byPrint : gmap Fingerprint loc;
  s_byDevice : gmap uuid (list loc);
}.

Definition New : Store := mk_store ∅ ∅ ∅.

(** [s.byDevice[d]]: a missing key reads as a nil slice. *)
Definition of_device (s : Store) (d : uuid) : list loc := default [] (s_byDevice s !! d).

Definition deref (s : Store) (l : loc) : option Entry := s_heap s !! l.

(** The entries of a device, in the slice's order. *)
Definition entries_of (s : Store) (d : uuid) : list (loc * Entry) :=
  omap (λ l, e ← deref s l; Some (l, e)) (of_device s d).

Definition indexLocked (s : Store) (e : Entry) : Store :=
  let l := fresh (dom (s_heap s)) in
  mk_store (<[l := e]> (s_heap s)) (<[e_Fingerprint e := l]> (s_byPrint s))
    (<[e_DeviceID e := of_device s (e_DeviceID e) ++ [l]]> (s_byDevice s)).

(** [Store.index] *)
Definition index_entry (s : Store) (e : Entry) : Entry * Store :=
  match s_byPrint s !! e_Fingerprint e ≫= deref s with
  | Some existing => (existing, s)
  | None => (e, indexLocked s e)
  end.

Definition Lookup (s : Store) (fp : Fingerprint) : option Entry := s_byPrint s !! fp ≫= deref s.

Definition supersededLocked (s : Store) (e : Entry) : bool :=
  existsb (λ le, e_Seen le.2 && later le.2 e) (entries_of s (e_DeviceID e)).

Definition Superseded (s : Store) (fp : Fingerprint) : bool :=
  match Lookup s fp with Some e => supersededLocked s e | None => false end.

Definition HasDevice (s : Store) (d : uuid) : bool := bool_decide (of_device s d ≠ []).

(** [Store.see]: the superseded fingerprints, and whether anything changed. *)
Definition see (s : Store) (fp : Fingerprint) : (list Fingerprint * bool) * Store :=
  match s_byPrint s !! fp with
  | None => (([], false), s)
  | Some l =>
      match deref s l with
      | None => (([], false), s)
      | Some e =>
          if e_Seen e then (([], false), s)
          else
            let s' := mk_store (<[l := with_seen e]> (s_heap s)) (s_byPrint s) (s_byDevice s) in
            ((omap (λ lo, if bool_decide (lo.1 ≠ l) && later (with_seen e) lo.2
                          then Some (e_Fingerprint lo.2) else None)
                (entries_of s' (e_DeviceID e)), true), s')
      end
  end.

(** The prints [Prune] dooms, under the read lock. *)
Definition doomed (s : Store) (now : time) (grace : duration) : list Fingerprint :=
  omap (λ pl, e ← deref s pl.2;
              if bool_decide (e_NotAfter e < now - grace) && supersededLocked s e
              then Some (e_Fingerprint e) else None)
    (map_to_list (s_byPrint s)).

Definition forget_one (s : Store) (fp : Fingerprint) : Store :=
  match s_byPrint s !! fp with
  | None => s
  | Some l =>
      match deref s l with
      | None => s
      | Some e =>
          let kept := List.filter (λ o, negb (bool_decide (o = l))) (of_device s (e_DeviceID e)) in
          mk_store (s_heap s) (delete fp (s_byPrint s))
            (match kept with
             | [] => delete (e_DeviceID e) (s_byDevice s)
             | _ => <[e_DeviceID e := kept]> (s_byDevice s)
             end)
      end
  end.

(** [Store.forget] *)
Definition forget (s : Store) (prints : list Fingerprint) : Store := foldl forget_one s prints.

(** Nothing in the server calls it: a purge leaves the index as it is. *)
Definition ForgetDevice (s : Store) (d : uuid) : Store :=
  mk_store (s_heap s)
    (foldl (λ m le, delete (e_Fingerprint le.2) m) (s_byPrint s) (entries_of s d))
    (delete d (s_byDevice s)).

(** [CensusByNewestIssuer], before the unstable sort by count: one count per
    issuer of the newest entry of each device. *)
Definition newest (first : Entry) (rest : list Entry) : Entry :=
  foldl (λ n e, if later e n then e else n) first rest.

Record IssuerCount := mk_count { ic_Devices : Z; ic_LatestNotAfter : time }.

Definition census_add (counts : gmap bytes IssuerCount) (n : Entry) : gmap bytes IssuerCount :=
  let c := default (mk_count 0 zero_time) (counts !! e_IssuerHash n) in
  <[e_IssuerHash n := mk_count (ic_Devices c + 1)
      (if bool_decide (ic_LatestNotAfter c < e_NotAfter n) then e_NotAfter n else ic_LatestNotAfter c)]> counts.

Definition CensusByNewestIssuer (s : Store) : gmap bytes IssuerCount :=
  foldl (λ counts dl,
           match (entries_of s dl.1).*2 with
           | [] => counts   (* [entries[0]]: no slice held is empty *)
           | first :: rest => census_add counts (newest first rest)
           end) ∅ (map_to_list (s_byDevice s)).

(** ** The table *)

Record cert_row := mk_crow {
  r_DeviceID : uuid;
  r_IssuerHash : bytes;
  r_Serial : bytes;
  r_NotBefore : time;
  r_NotAfter : time;
  r_Source : Source;
  r_IssuedAt : time;
  r_FirstSeen : option time;
}.

Record ledger_db := mk_ldb {
  t_certificates : gmap Fingerprint cert_row;
  t_owner : gmap uuid uuid;    (* devices: id to tenant *)
  t_deleted_ids : gset uuid;   (* deleted_ids.device_id *)
}.

Definition set_certificates (d : ledger_db) (c : gmap Fingerprint cert_row) : ledger_db :=
  mk_ldb c (t_owner d) (t_deleted_ids d).

Inductive ledger_err := ErrCommonName | ErrLedgerDb | ErrLedgerTenant.

Section ledger.
(** [sha256.Sum256], [uuid.Parse], and a [timestamptz] column. *)
Context (sha256 : bytes → bytes) (uuid_Parse : bytes → option uuid) (stored : time → time).

Definition FingerprintOf (der : bytes) : Fingerprint := sha256 der.

Definition entryFor (leaf : Certificate) (issuerHash : bytes) (source : Source) (issuedAt : time) :
    result ledger_err Entry :=
  match uuid_Parse (crt_CommonName leaf) with
  | None => Err ErrCommonName
  | Some deviceID =>
      Ok (mk_entry (FingerprintOf (crt_Raw leaf)) deviceID issuerHash (crt_NotBefore leaf)
            (crt_NotAfter leaf) source issuedAt false)
  end.

Definition row_of (leaf : Certificate) (e : Entry) : cert_row :=
  mk_crow (e_DeviceID e) (e_IssuerHash e) (crt_SerialNumber leaf) (stored (e_NotBefore e))
    (stored (e_NotAfter e)) (e_Source e) (stored (e_IssuedAt e)) None.

(** [INSERT ... ON CONFLICT (fingerprint) DO NOTHING] *)
Definition insert_row (leaf : Certificate) (e : Entry) (d : ledger_db) : ledger_db :=
  match t_certificates d !! e_Fingerprint e with
  | Some _ => d
  | None => set_certificates d (<[e_Fingerprint e := row_of leaf e]> (t_certificates d))
  end.

(** [Record]'s statement; the entry is indexed when it succeeds. *)
Definition record_row (ok : bool) (leaf : Certificate) (issuerHash : bytes) (source : Source)
    (issuedAt : time) (d : ledger_db) : result ledger_err Entry * ledger_db :=
  match entryFor leaf issuerHash source issuedAt with
  | Err err => (Err err, d)
  | Ok e => if ok then (Ok e, insert_row leaf e d) else (Err ErrLedgerDb, d)
  end.

(** [claimStatement]: the row is inserted only while nothing holds the number;
    a fingerprint already there violates the primary key. *)
Definition free_number (t : Tenant) (id : uuid) (d : ledger_db) : bool :=
  negb (existsb (visible t) (option_list (t_owner d !! id))) &&
  negb (bool_decide (id ∈ t_deleted_ids d)) &&
  negb (existsb (λ kv, bool_decide (r_DeviceID kv.2 = id)) (map_to_list (t_certificates d))).

Definition claim_row (ok : bool) (ctx : option Tenant) (leaf : Certificate) (issuerHash : bytes)
    (issuedAt : time) (d : ledger_db) : result ledger_err (option Entry) * ledger_db :=
  match entryFor leaf issuerHash SourceEnroll issuedAt with
  | Err err => (Err err, d)
  | Ok e =>
      match TenantFromContext ctx with
      | None => (Err ErrLedgerTenant, d)
      | Some t =>
          if negb ok then (Err ErrLedgerDb, d)
          else if negb (free_number t (e_DeviceID e) d) then (Ok None, d)
          else match t_certificates d !! e_Fingerprint e with
               | Some _ => (Err ErrLedgerDb, d)
               | None => (Ok (Some e),
                   set_certificates d (<[e_Fingerprint e := row_of leaf e]> (t_certificates d)))
               end
      end
  end.

(** [writeSeen] *)
Definition write_seen (fp : Fingerprint) (at_ : time) (d : ledger_db) : ledger_db :=
  set_certificates d (alter (λ r,
    match r_FirstSeen r with
    | Some _ => r
    | None => mk_crow (r_DeviceID r) (r_IssuerHash r) (r_Serial r) (r_NotBefore r) (r_NotAfter r)
                (r_Source r) (r_IssuedAt r) (Some (stored at_))
    end) fp (t_certificates d)).

(** [Prune]'s deletes: those before the one that fails, if one does. *)
Definition delete_prints (prints : list Fingerprint) (d : ledger_db) : ledger_db :=
  set_certificates d (foldl (λ m fp, delete fp m) (t_certificates d) prints).

Definition prune_rows (fails_at : option nat) (prints : list Fingerprint) (d : ledger_db) (s : Store) :
    result ledger_err Z * ledger_db * Store :=
  match prints with
  | [] => (Ok 0, d, s)
  | _ =>
      match fails_at with
      | Some n => if (n <? length prints)%nat
                  then (Err ErrLedgerDb, delete_prints (take n prints) d, s)
                  else (Ok (blen prints), delete_prints prints d, forget s prints)
      | None => (Ok (blen prints), delete_prints prints d, forget s prints)
      end
  end.

Definition Prune (fails_at : option nat) (now : time) (grace : duration) (d : ledger_db) (s : Store) :
    result ledger_err Z * ledger_db * Store :=
  prune_rows fails_at (doomed s now grace) d s.

(** [Warm]: the scanned rows, each indexed; [upto] is where a scan fails. *)
Definition entry_of_row (fp : Fingerprint) (r : cert_row) : Entry :=
  mk_entry fp (r_DeviceID r) (r_IssuerHash r) (r_NotBefore r) (r_NotAfter r) (r_Source r)
    (r_IssuedAt r) (bool_decide (is_Some (r_FirstSeen r))).

Definition Warm (upto : option nat) (d : ledger_db) (s : Store) : result ledger_err unit * Store :=
  let rows := map_to_list (t_certificates d) in
  let index_rows := foldl (λ s fr, indexLocked s (entry_of_row fr.1 fr.2)) s in
  match upto with
  | Some n => if (n <? length rows)%nat then (Err ErrLedgerDb, index_rows (take n rows))
              else (Ok tt, index_rows rows)
  | None => (Ok tt, index_rows rows)
  end.

(** [RenewalsSince] and [OldestRenewalSince], read from the table. *)
Definition renewals_since (id : uuid) (since : time) (d : ledger_db) : list cert_row :=
  List.filter (λ r, bool_decide (r_DeviceID r = id) && bool_decide (r_Source r = SourceRenew) &&
                    bool_decide (stored since < r_IssuedAt r)) (map_to_list (t_certificates d)).*2.

Definition RenewalsSince (id : uuid) (since : time) (d : ledger_db) : Z :=
  blen (renewals_since id since d).

(** [min(issued_at)], the zero time of an invalid [NullTime] when there is none. *)
Definition OldestRenewalSince (id : uuid) (since : time) (d : ledger_db) : time :=
  match r_IssuedAt <$> renewals_since id since d with
  | [] => zero_time
  | t :: ts => foldl Z.min t ts
  end.

(** The purge's statements on the ledger ([lifecycle/pgpurge.go]). *)
Definition purge_device_rows (id : uuid) (d : ledger_db) : ledger_db :=
  mk_ldb (filter (λ kv, r_DeviceID kv.2 ≠ id) (t_certificates d)) (delete id (t_owner d)) (t_deleted_ids d).

(** ** Interleaved operations *)

Inductive work :=
  | WIndex (e : Entry)                          (* recorded, to be indexed *)
  | WSeen (fp : Fingerprint) (at_ : time)       (* seen in memory, to be written *)
  | WPrune (prints : list Fingerprint).         (* doomed, to be deleted and forgotten *)

Record system := mk_system {
  y_store : Store;
  y_db : ledger_db;
  y_work : list work;
}.

Inductive cmd :=
  | CRecord (ok : bool) (leaf : Certificate) (issuerHash : bytes) (source : Source) (issuedAt : time)
  | CClaim (ok : bool) (ctx : option Tenant) (leaf : Certificate) (issuerHash : bytes) (issuedAt : time)
  | CSee (fp : Fingerprint) (at_ : time)        (* MarkSeen and MarkInstalled *)
  | CPrune (now : time) (grace : duration)
  | CWork (i : nat) (fails_at : option nat)     (* finish work in flight, or fail at a statement *)
  | CPurge (id : uuid)
  | CDevice (id tenant : uuid)                  (* a device row appears *)
  | CTombstone (id : uuid)
  | CRestart.

Definition finish (fails_at : option nat) (w : work) (d : ledger_db) (s : Store) : ledger_db * Store :=
  match w with
  | WIndex e => (d, (index_entry s e).2)
  | WSeen fp at_ => (match fails_at with None => write_seen fp at_ d | Some _ => d end, s)
  | WPrune prints => let '(_, d, s) := prune_rows fails_at prints d s in (d, s)
  end.

Definition exec (y : system) (c : cmd) : system :=
  let '(mk_system s d ws) := y in
  match c with
  | CRecord ok leaf h src at_ =>
      match record_row ok leaf h src at_ d with
      | (Ok e, d) => mk_system s d (ws ++ [WIndex e])
      | (Err _, d) => mk_system s d ws
      end
  | CClaim ok ctx leaf h at_ =>
      match claim_row ok ctx leaf h at_ d with
      | (Ok (Some e), d) => mk_system s d (ws ++ [WIndex e])
      | (_, d) => mk_system s d ws
      end
  | CSee fp at_ =>
      let '((_, changed), s) := see s fp in
      mk_system s d (if changed then ws ++ [WSeen fp at_] else ws)
  | CPrune now grace => mk_system s d (ws ++ [WPrune (doomed s now grace)])
  | CWork i fails_at =>
      match ws !! i with
      | None => y
      | Some w => let '(d, s) := finish fails_at w d s in mk_system s d (delete i ws)
      end
  | CPurge id => mk_system s (purge_device_rows id d) ws
  | CDevice id tenant => mk_system s (mk_ldb (t_certificates d) (<[id := tenant]> (t_owner d)) (t_deleted_ids d)) ws
  | CTombstone id => mk_system s (mk_ldb (t_certificates d) (t_owner d) ({[id]} ∪ t_deleted_ids d)) ws
  | CRestart => mk_system (Warm None d New).2 d []
  end.

Definition run_cmds (y : system) (cs : list cmd) : system := foldl exec y cs.

Definition empty_system : system := mk_system New (mk_ldb ∅ ∅ ∅) [].
End ledger.
