(* ===== verification/LedgerInv.v ===== *)
(** * What the certificate ledger keeps

    The index of [Ledger], two maps that share entries through pointers, refines
    one map from fingerprints to entries ([contents]): every operation of the
    index is its counterpart on the map, and supersession is the relation one
    reads off the map. *)
From S2P Require Import Prelude GoTime Settings Dbtx Ledger.

(** ** The abstract ledger *)

Definition contents (s : Store) : gmap Fingerprint Entry := omap (deref s) (s_byPrint s).

(** A seen certificate of the same device that is later than [e]. *)
Definition supersedes (m : gmap Fingerprint Entry) (e : Entry) : Prop :=
  ∃ fp' e', m !! fp' = Some e' ∧ e_DeviceID e' = e_DeviceID e ∧ e_Seen e' = true ∧ later e' e = true.

Record index_ok (s : Store) : Prop := {
  ix_print : ∀ fp l, s_byPrint s !! fp = Some l →
    ∃ e, deref s l = Some e ∧ e_Fingerprint e = fp ∧ l ∈ of_device s (e_DeviceID e);
  ix_device : ∀ d l, l ∈ of_device s d →
    ∃ e, deref s l = Some e ∧ e_DeviceID e = d ∧ s_byPrint s !! e_Fingerprint e = Some l;
  ix_nodup : ∀ d, NoDup (of_device s d);
  ix_nonempty : ∀ d ls, s_byDevice s !! d = Some ls → ls ≠ [];
}.

(** ** [later] is a strict order *)

Lemma later_irrefl e : later e e = false.
Proof. unfold later. rewrite !bool_decide_false by (done || lia). done. Qed.

Lemma later_iff a b :
  later a b = true ↔
  e_NotBefore b < e_NotBefore a ∨ e_NotBefore a = e_NotBefore b ∧ e_IssuedAt b < e_IssuedAt a.
Proof. unfold later. repeat case_bool_decide; split; intros; try done; try lia. Qed.

Lemma later_trans a b c : later a b = true → later b c = true → later a c = true.
Proof. rewrite !later_iff. lia. Qed.

(** Not later than any of a class: what a maximum is. *)
Lemma later_negtrans a b c : later a c = true → later b c = false → later a b = true.
Proof.
  rewrite <-not_true_iff_false, !later_iff. intros H1 H2.
  destruct (Z.lt_trichotomy (e_NotBefore a) (e_NotBefore b)) as [?|[?|?]]; lia.
Qed.

(** A non-empty list has an element nothing in it is later than. *)
Lemma latest_exists (l : list Entry) :
  l ≠ [] → ∃ n, n ∈ l ∧ ∀ e, e ∈ l → later e n = false.
Proof.
  induction l as [|a l IH]; [done|]. intros _. destruct l as [|b l].
  - exists a. split; [by left|]. intros e [->|?%elem_of_nil]%elem_of_cons; [apply later_irrefl|done].
  - destruct (IH ltac:(done)) as (n & Hn & Hmax). destruct (later a n) eqn:E.
    + exists a. split; [by left|]. intros e [->|He]%elem_of_cons; [apply later_irrefl|].
      apply not_true_iff_false. intros Hea. specialize (Hmax e He).
      rewrite (later_trans _ _ _ Hea E) in Hmax. done.
    + exists n. split; [by right|]. intros e [->|He]%elem_of_cons; auto.
Qed.

(** ** Reading the index *)

Lemma contents_lookup s fp : contents s !! fp = Lookup s fp.
Proof. apply lookup_omap. Qed.

Lemma Lookup_Some s fp e :
  Lookup s fp = Some e ↔ ∃ l, s_byPrint s !! fp = Some l ∧ deref s l = Some e.
Proof. unfold Lookup. rewrite bind_Some. done. Qed.

Lemma entries_elem s d l e :
  (l, e) ∈ entries_of s d ↔ l ∈ of_device s d ∧ deref s l = Some e.
Proof.
  unfold entries_of. rewrite list_elem_of_omap. split.
  - intros (l' & Hl & Hd). destruct (deref s l') eqn:E; cbn in Hd; simplify_eq. done.
  - intros [Hl He]. exists l. rewrite He. done.
Qed.

Section reading.
Context (s : Store) (Hok : index_ok s).

Lemma contents_fp fp e : contents s !! fp = Some e → e_Fingerprint e = fp.
Proof using Hok.
  rewrite contents_lookup, Lookup_Some. intros (l & Hl & He).
  destruct (ix_print s Hok fp l Hl) as (e' & He' & <- & _). congruence.
Qed.

Lemma contents_print fp l : s_byPrint s !! fp = Some l → is_Some (contents s !! fp).
Proof using Hok.
  intros Hl. destruct (ix_print s Hok fp l Hl) as (e & He & _). exists e.
  rewrite contents_lookup. apply Lookup_Some. eauto.
Qed.

Lemma contents_None fp : contents s !! fp = None ↔ s_byPrint s !! fp = None.
Proof using Hok.
  split; intros H.
  - destruct (s_byPrint s !! fp) as [l|] eqn:E; [|done]. apply contents_print in E as [? E]. congruence.
  - rewrite contents_lookup. unfold Lookup. by rewrite H.
Qed.

Lemma entries_contents d l e :
  (l, e) ∈ entries_of s d ↔
  s_byPrint s !! e_Fingerprint e = Some l ∧ deref s l = Some e ∧ e_DeviceID e = d.
Proof using Hok.
  rewrite entries_elem. split.
  - intros [Hl He]. destruct (ix_device s Hok d l Hl) as (e' & He' & <- & Hp). simplify_eq. done.
  - intros (Hp & He & <-). split; [|done].
    destruct (ix_print s Hok _ l Hp) as (e' & He' & _ & Hl). simplify_eq. done.
Qed.

Lemma entries_exists (P : Entry → Prop) d :
  (∃ le, le ∈ entries_of s d ∧ P le.2) ↔
  ∃ fp e, contents s !! fp = Some e ∧ e_DeviceID e = d ∧ P e.
Proof using Hok.
  split.
  - intros ([l e] & (Hp & He & Hd)%entries_contents & HP). exists (e_Fingerprint e), e.
    rewrite contents_lookup, Lookup_Some. eauto.
  - intros (fp & e & Hc & Hd & HP). pose proof (contents_fp _ _ Hc) as Hfp.
    rewrite contents_lookup, Lookup_Some in Hc. destruct Hc as (l & Hl & He).
    exists (l, e). rewrite entries_contents. subst fp. done.
Qed.

Lemma supersededLocked_spec e : supersededLocked s e = true ↔ supersedes (contents s) e.
Proof using Hok.
  unfold supersededLocked. rewrite existsb_exists. setoid_rewrite <- list_elem_of_In.
  rewrite (entries_exists (λ x, e_Seen x && later x e = true)).
  unfold supersedes. setoid_rewrite andb_true_iff. naive_solver.
Qed.

Lemma Superseded_spec fp :
  Superseded s fp = true ↔ ∃ e, contents s !! fp = Some e ∧ supersedes (contents s) e.
Proof using Hok.
  unfold Superseded. rewrite contents_lookup. destruct (Lookup s fp) as [e|].
  - rewrite supersededLocked_spec. naive_solver.
  - naive_solver.
Qed.

Lemma HasDevice_spec d : HasDevice s d = true ↔ ∃ fp e, contents s !! fp = Some e ∧ e_DeviceID e = d.
Proof using Hok.
  unfold HasDevice. rewrite bool_decide_eq_true. split.
  - destruct (of_device s d) as [|l ls] eqn:E; [done|]. intros _.
    destruct (ix_device s Hok d l) as (e & He & Hd & Hp); [rewrite E; by left|].
    exists (e_Fingerprint e), e. rewrite contents_lookup, Lookup_Some. eauto.
  - intros (fp & e & Hc & <-). rewrite contents_lookup, Lookup_Some in Hc. destruct Hc as (l & Hl & He).
    destruct (ix_print s Hok fp l Hl) as (e' & He' & _ & Hin). simplify_eq.
    intros E. rewrite E in Hin. by apply elem_of_nil in Hin.
Qed.
End reading.

(** ** The operations of the index *)

Lemma New_ok : index_ok New.
Proof. split; try done. - by intros d l ?%elem_of_nil. - intros d. apply NoDup_nil_2. Qed.

Lemma New_contents : contents New = ∅.
Proof. apply map_eq. intros fp. by rewrite contents_lookup. Qed.

Lemma of_device_insert h p m d d' ls :
  of_device (mk_store h p (<[d := ls]> m)) d' =
  if bool_decide (d' = d) then ls else default [] (m !! d').
Proof.
  unfold of_device; cbn. case_bool_decide as E; [subst; by rewrite lookup_insert_eq|].
  by rewrite lookup_insert_ne.
Qed.

Lemma indexLocked_spec s e :
  index_ok s → contents s !! e_Fingerprint e = None →
  index_ok (indexLocked s e) ∧ contents (indexLocked s e) = <[e_Fingerprint e := e]> (contents s).
Proof.
  intros Hok Hnew. rewrite contents_None in Hnew by done. unfold indexLocked.
  set (l := fresh (dom (s_heap s))). assert (s_heap s !! l = None) as Hl.
  { apply not_elem_of_dom. apply is_fresh. }
  assert (∀ d, l ∉ of_device s d) as Hout.
  { intros d Hd. destruct (ix_device s Hok d l Hd) as (e' & He' & _). unfold deref in He'. congruence. }
  assert (∀ l', l' ≠ l → <[l := e]> (s_heap s) !! l' = s_heap s !! l') as Hheap.
  { intros l' Hne. by rewrite lookup_insert_ne. }
  assert (∀ d l', l' ∈ (if bool_decide (d = e_DeviceID e) then of_device s (e_DeviceID e) ++ [l]
                        else default [] (s_byDevice s !! d)) →
            l' ∈ of_device s d ∨ d = e_DeviceID e ∧ l' = l) as Hcases.
  { intros d l'. case_bool_decide as E; [|by left]. subst d.
    rewrite elem_of_app, list_elem_of_singleton. naive_solver. }
  split; [split|].
  - intros fp l' Hl'. cbn in Hl'. apply lookup_insert_Some in Hl' as [[<- <-]|[Hne Hl']].
    + exists e. unfold deref; cbn. rewrite lookup_insert_eq. split_and!; [done|done|].
      rewrite of_device_insert, bool_decide_true by done. set_solver.
    + destruct (ix_print s Hok fp l' Hl') as (e' & He' & Hfp & Hd). exists e'.
      assert (l' ≠ l) as Hll by (intros ->; unfold deref in He'; congruence).
      unfold deref; cbn. rewrite Hheap by done. split_and!; [done|done|].
      rewrite of_device_insert. case_bool_decide as E; [rewrite E in Hd; set_solver|done].
  - intros d l' Hin. rewrite of_device_insert in Hin. apply Hcases in Hin as [Hin|[-> ->]].
    + destruct (ix_device s Hok d l' Hin) as (e' & He' & Hd & Hp). exists e'.
      assert (l' ≠ l) as Hll by (intros ->; by apply Hout in Hin).
      unfold deref; cbn. rewrite Hheap by done. split_and!; [done..|].
      rewrite lookup_insert_ne; [done|]. congruence.
    + exists e. unfold deref; cbn. by rewrite !lookup_insert_eq.
  - intros d. rewrite of_device_insert. case_bool_decide; [|apply (ix_nodup s Hok d)].
    apply NoDup_app. split_and!; [apply (ix_nodup s Hok)| |apply NoDup_singleton].
    intros x Hx ->%list_elem_of_singleton. by apply Hout in Hx.
  - intros d ls Hls. cbn in Hls. apply lookup_insert_Some in Hls as [[_ <-]|[_ Hls]]; [by destruct (of_device _ _)|].
    by apply (ix_nonempty s Hok d).
  - apply map_eq. intros fp. rewrite contents_lookup. unfold Lookup, deref; cbn.
    destruct (decide (fp = e_Fingerprint e)) as [->|Hne].
    + by rewrite !lookup_insert_eq; cbn; rewrite lookup_insert_eq.
    + rewrite !lookup_insert_ne by done. rewrite contents_lookup. unfold Lookup, deref.
      destruct (s_byPrint s !! fp) as [l'|] eqn:E; cbn; [|done]. apply Hheap. intros ->.
      destruct (ix_print s Hok fp l E) as (e' & He' & _). unfold deref in He'. congruence.
Qed.

Lemma index_entry_spec s e :
  index_ok s →
  index_ok (index_entry s e).2 ∧
  contents (index_entry s e).2 =
    match contents s !! e_Fingerprint e with
    | Some _ => contents s
    | None => <[e_Fingerprint e := e]> (contents s)
    end.
Proof.
  intros Hok. unfold index_entry. rewrite contents_lookup.
  change (s_byPrint s !! e_Fingerprint e ≫= deref s) with (Lookup s (e_Fingerprint e)).
  destruct (Lookup s (e_Fingerprint e)) eqn:E; [done|]. cbn.
  apply indexLocked_spec; [done|]. by rewrite contents_lookup.
Qed.

(** Marking an entry changes neither map. *)
Lemma set_entry_spec s l e e' :
  index_ok s → deref s l = Some e → e_Fingerprint e' = e_Fingerprint e → e_DeviceID e' = e_DeviceID e →
  s_byPrint s !! e_Fingerprint e = Some l →
  let s' := mk_store (<[l := e']> (s_heap s)) (s_byPrint s) (s_byDevice s) in
  index_ok s' ∧ contents s' = <[e_Fingerprint e := e']> (contents s).
Proof.
  intros Hok He Hfp Hdev Hp s'.
  assert (∀ l', deref s' l' = if bool_decide (l' = l) then Some e' else deref s l') as Hd.
  { intros l'. unfold deref, s'; cbn. case_bool_decide; [subst; by rewrite lookup_insert_eq|].
    by rewrite lookup_insert_ne. }
  assert (∀ d, of_device s' d = of_device s d) as Ho by done.
  split; [split|].
  - intros fp l' Hl'. destruct (ix_print s Hok fp l' Hl') as (e0 & He0 & Hfp0 & Hin).
    rewrite Hd. case_bool_decide; [|eauto]. subst l'. simplify_eq. exists e'. rewrite Hfp, Hdev. done.
  - intros d l' Hin. destruct (ix_device s Hok d l' Hin) as (e0 & He0 & Hd0 & Hp0).
    rewrite Hd. case_bool_decide; [|eauto]. subst l'. simplify_eq. exists e'. rewrite Hfp, Hdev. done.
  - intros d. apply (ix_nodup s Hok).
  - apply (ix_nonempty s Hok).
  - apply map_eq. intros fp. rewrite contents_lookup. unfold Lookup. cbn [s_byPrint s'].
    destruct (decide (fp = e_Fingerprint e)) as [->|Hne].
    + rewrite lookup_insert_eq, Hp. cbn. rewrite Hd. by rewrite bool_decide_true.
    + rewrite lookup_insert_ne, contents_lookup by done. unfold Lookup.
      destruct (s_byPrint s !! fp) as [l'|] eqn:E; cbn; [|done]. rewrite Hd.
      rewrite bool_decide_false; [done|]. intros ->.
      destruct (ix_print s Hok fp l E) as (e0 & He0 & Hfp0 & _). congruence.
Qed.

(** [see]: the entry becomes seen, and what it returns are the device's other
    certificates it is later than. *)
Definition a_see (m : gmap Fingerprint Entry) (fp : Fingerprint) : gmap Fingerprint Entry := alter with_seen fp m.

Lemma see_spec s fp :
  index_ok s →
  let '((prints, changed), s') := see s fp in
  index_ok s' ∧ contents s' = a_see (contents s) fp ∧
  changed = bool_decide (e_Seen <$> contents s !! fp = Some false) ∧
  (∀ fp', fp' ∈ prints ↔ changed = true ∧ ∃ e e', contents s !! fp = Some e ∧
     contents s !! fp' = Some e' ∧ e_DeviceID e' = e_DeviceID e ∧ later e e' = true).
Proof.
  intros Hok. unfold see.
  destruct (s_byPrint s !! fp) as [l|] eqn:Hl.
  2:{ assert (contents s !! fp = None) as Hc by (by apply contents_None).
      rewrite Hc. split_and!; [done| | |].
      - symmetry. apply map_eq. intros i. unfold a_see. rewrite lookup_alter. case_decide; [subst|done]. by rewrite Hc.
      - done.
      - intros fp'. split; [by intros ?%elem_of_nil|by intros (? & ?)]. }
  destruct (ix_print s Hok fp l Hl) as (e & He & Hfp & Hin). rewrite He.
  assert (contents s !! fp = Some e) as Hc by (rewrite contents_lookup, Lookup_Some; eauto).
  rewrite Hc. cbn [fmap option_fmap option_map]. destruct (e_Seen e) eqn:Hs.
  { rewrite bool_decide_false by done. split_and!; [done| |done|].
    - symmetry. apply map_eq. intros i. unfold a_see. rewrite lookup_alter. case_decide; [subst|done].
      rewrite Hc. cbn. unfold with_seen. destruct e; cbn in *; congruence.
    - intros fp'. split; [by intros ?%elem_of_nil|by intros (? & ?)]. }
  rewrite bool_decide_true by done. subst fp.
  destruct (set_entry_spec s l e (with_seen e) Hok He eq_refl eq_refl Hl) as [Hok' Hc'].
  set (s' := mk_store _ _ _) in *. split_and!; [done| |done|].
  - rewrite Hc'. apply map_eq. intros i. unfold a_see. rewrite lookup_alter. case_decide; subst.
    + by rewrite lookup_insert_eq, Hc.
    + by rewrite lookup_insert_ne.
  - intros fp'. rewrite list_elem_of_omap. split.
    + intros ([lo o] & Hin' & Hsome). cbn in Hsome. case_bool_decide as Hne; cbn in Hsome; [|done].
      destruct (later (with_seen e) o) eqn:Hlt; simplify_eq.
      apply (entries_contents s' Hok') in Hin' as (Hpo & Ho & Hdo). split; [done|]. exists e, o.
      split_and!; [done| |done|done]. rewrite contents_lookup, Lookup_Some. exists lo. split; [done|].
      unfold deref, s' in Ho; cbn in Ho. rewrite lookup_insert_ne in Ho by congruence. done.
    + intros (_ & e0 & o & He0 & Ho & Hdo & Hlt). assert (e0 = e) as -> by congruence. pose proof (contents_fp s Hok _ _ Ho) as <-.
      rewrite contents_lookup, Lookup_Some in Ho. destruct Ho as (lo & Hpo & Ho).
      assert (lo ≠ l) as Hne. { intros ->. assert (o = e) as -> by congruence. by rewrite later_irrefl in Hlt. }
      exists (lo, o). split.
      * apply (entries_contents s' Hok'). split_and!; [done| |done].
        unfold deref, s'; cbn. by rewrite lookup_insert_ne.
      * cbn. rewrite bool_decide_true by done. cbn. change (later (with_seen e) o) with (later e o). by rewrite Hlt.
Qed.

Lemma filter_ne_elem (l : loc) ls o :
  o ∈ List.filter (λ o, negb (bool_decide (o = l))) ls ↔ o ∈ ls ∧ o ≠ l.
Proof.
  rewrite !list_elem_of_In, filter_In, negb_true_iff, bool_decide_eq_false. done.
Qed.

(** Dropping one entry: what [of_device] reads afterwards. *)
Lemma forget_one_device s fp l e d :
  s_byPrint s !! fp = Some l → deref s l = Some e →
  of_device (forget_one s fp) d =
  if bool_decide (d = e_DeviceID e)
  then List.filter (λ o, negb (bool_decide (o = l))) (of_device s d) else of_device s d.
Proof.
  intros Hl He. unfold forget_one. rewrite Hl, He. unfold of_device at 1. cbn [s_byDevice].
  case_bool_decide as E.
  - subst d. destruct (List.filter _ _) eqn:Ef; [by rewrite lookup_delete_eq|by rewrite lookup_insert_eq].
  - destruct (List.filter _ _) eqn:Ef; [by rewrite lookup_delete_ne|by rewrite lookup_insert_ne].
Qed.

Lemma forget_one_spec s fp :
  index_ok s → index_ok (forget_one s fp) ∧ contents (forget_one s fp) = delete fp (contents s).
Proof.
  intros Hok. destruct (s_byPrint s !! fp) as [l|] eqn:Hl.
  2:{ unfold forget_one. rewrite Hl. split; [done|]. symmetry. apply delete_id. by apply contents_None. }
  destruct (ix_print s Hok fp l Hl) as (e & He & Hfp & Hin).
  pose proof (λ d, forget_one_device s fp l e d Hl He) as Ho.
  assert (s_byPrint (forget_one s fp) = delete fp (s_byPrint s)) as Hbp by (unfold forget_one; by rewrite Hl, He).
  assert (∀ l', deref (forget_one s fp) l' = deref s l') as Hd by (unfold forget_one; by rewrite Hl, He).
  split; [split|].
  - intros fp' l' Hl'. rewrite Hbp in Hl'. apply lookup_delete_Some in Hl' as [Hne Hl'].
    destruct (ix_print s Hok fp' l' Hl') as (e' & He' & Hfp' & Hin'). exists e'. rewrite Hd, Ho.
    split_and!; [done..|]. case_bool_decide; [|done]. apply filter_ne_elem. split; [done|]. congruence.
  - intros d l' Hl'. rewrite Ho in Hl'.
    assert (l' ∈ of_device s d ∧ (d = e_DeviceID e → l' ≠ l)) as [Hl'' Hne].
    { case_bool_decide as E; [|done]. apply filter_ne_elem in Hl' as [? ?]. done. }
    destruct (ix_device s Hok d l' Hl'') as (e' & He' & Hd' & Hp'). exists e'. rewrite Hd, Hbp.
    split_and!; [done..|]. rewrite lookup_delete_ne; [done|]. intros Heq. rewrite <-Heq, Hl in Hp'.
    simplify_eq. by apply Hne.
  - intros d. rewrite Ho. case_bool_decide; [|apply (ix_nodup s Hok)].
    apply NoDup_ListNoDup, List.NoDup_filter, NoDup_ListNoDup, (ix_nodup s Hok).
  - intros d ls. unfold forget_one. rewrite Hl, He. cbn [s_byDevice]. destruct (List.filter _ _) eqn:Ef.
    + intros [_ H]%lookup_delete_Some. by apply (ix_nonempty s Hok d).
    + intros [[_ <-]|[_ H]]%lookup_insert_Some; [done|]. by apply (ix_nonempty s Hok d).
  - apply map_eq. intros i. rewrite contents_lookup. unfold Lookup. rewrite Hbp.
    destruct (decide (i = fp)) as [->|Hne]; [by rewrite !lookup_delete_eq|].
    rewrite !lookup_delete_ne, contents_lookup by done. unfold Lookup.
    destruct (s_byPrint s !! i); [apply Hd|done].
Qed.

Definition a_forget (m : gmap Fingerprint Entry) (prints : list Fingerprint) : gmap Fingerprint Entry :=
  filter (λ kv, kv.1 ∉ prints) m.

Lemma a_forget_lookup m prints fp : a_forget m prints !! fp = if bool_decide (fp ∈ prints) then None else m !! fp.
Proof.
  unfold a_forget. case_bool_decide as E.
  - apply map_lookup_filter_None. right. intros x _. cbn. tauto.
  - destruct (m !! fp) as [e|] eqn:Em.
    + apply map_lookup_filter_Some. done.
    + apply map_lookup_filter_None. by left.
Qed.

Lemma forget_spec prints s :
  index_ok s → index_ok (forget s prints) ∧ contents (forget s prints) = a_forget (contents s) prints.
Proof.
  unfold forget. revert s. induction prints as [|fp prints IH]; intros s Hok; cbn.
  - split; [done|]. apply map_eq. intros i. rewrite a_forget_lookup. by rewrite bool_decide_false by apply not_elem_of_nil.
  - destruct (forget_one_spec s fp Hok) as [Hok1 Hc1]. destruct (IH _ Hok1) as [Hok2 Hc2]. split; [done|].
    rewrite Hc2, Hc1. apply map_eq. intros i. rewrite !a_forget_lookup.
    destruct (decide (i = fp)) as [->|Hne].
    + rewrite lookup_delete_eq. rewrite (bool_decide_true (fp ∈ fp :: prints)) by (by left). by case_bool_decide.
    + rewrite lookup_delete_ne by done. do 2 case_bool_decide; set_solver.
Qed.

Definition a_forget_device (m : gmap Fingerprint Entry) (d : uuid) : gmap Fingerprint Entry :=
  filter (λ kv, e_DeviceID kv.2 ≠ d) m.

Lemma delete_all_lookup (es : list (loc * Entry)) (m : gmap Fingerprint loc) fp :
  foldl (λ m le, delete (e_Fingerprint le.2) m) m es !! fp =
  if bool_decide (fp ∈ (λ le, e_Fingerprint le.2) <$> es) then None else m !! fp.
Proof.
  revert m. induction es as [|[l e] es IH]; intros m; cbn.
  - by rewrite bool_decide_false by apply not_elem_of_nil.
  - rewrite IH. destruct (decide (fp = e_Fingerprint e)) as [->|Hne].
    + rewrite lookup_delete_eq. rewrite (bool_decide_true (_ ∈ _ :: _)) by (by left). by case_bool_decide.
    + rewrite lookup_delete_ne by done. do 2 case_bool_decide; set_solver.
Qed.

Lemma ForgetDevice_spec s d :
  index_ok s → index_ok (ForgetDevice s d) ∧ contents (ForgetDevice s d) = a_forget_device (contents s) d.
Proof.
  intros Hok.
  assert (∀ fp l e, s_byPrint s !! fp = Some l → deref s l = Some e →
    s_byPrint (ForgetDevice s d) !! fp = if bool_decide (e_DeviceID e = d) then None else Some l) as Hbp.
  { intros fp l e Hl He. cbn. rewrite delete_all_lookup.
    destruct (ix_print s Hok fp l Hl) as (e' & He' & <- & Hin). assert (e' = e) as -> by congruence.
    case_bool_decide as E; case_bool_decide as F; try done.
    - exfalso. apply F. apply list_elem_of_fmap in E as ([l' e'] & Heq & Hin'). cbn in Heq.
      apply (entries_contents s Hok) in Hin' as (Hp' & He'' & <-). rewrite <-Heq in Hp'. congruence.
    - exfalso. apply E. apply list_elem_of_fmap. exists (l, e). split; [done|].
      by apply (entries_contents s Hok). }
  assert (∀ d', of_device (ForgetDevice s d) d' = if bool_decide (d' = d) then [] else of_device s d') as Ho.
  { intros d'. unfold of_device; cbn. case_bool_decide; [subst; by rewrite lookup_delete_eq|by rewrite lookup_delete_ne]. }
  assert (∀ fp l, s_byPrint (ForgetDevice s d) !! fp = Some l → s_byPrint s !! fp = Some l) as Hsub.
  { intros fp l. cbn. rewrite delete_all_lookup. by case_bool_decide. }
  split; [split|].
  - intros fp l Hl. pose proof (Hsub _ _ Hl) as Hl0. destruct (ix_print s Hok fp l Hl0) as (e & He & Hfp & Hin).
    exists e. split_and!; [done..|]. rewrite Ho. rewrite (Hbp fp l e Hl0 He) in Hl. by case_bool_decide.
  - intros d' l Hl. rewrite Ho in Hl. case_bool_decide as E; [by apply elem_of_nil in Hl|].
    destruct (ix_device s Hok d' l Hl) as (e & He & Hd & Hp). exists e. split_and!; [done..|].
    rewrite (Hbp _ _ _ Hp He). rewrite bool_decide_false; [done|congruence].
  - intros d'. rewrite Ho. case_bool_decide; [apply NoDup_nil_2|apply (ix_nodup s Hok)].
  - intros d' ls. cbn. intros [_ H]%lookup_delete_Some. by apply (ix_nonempty s Hok d').
  - apply map_eq. intros fp. rewrite contents_lookup. unfold a_forget_device.
    destruct (s_byPrint s !! fp) as [l|] eqn:Hl.
    + destruct (ix_print s Hok fp l Hl) as (e & He & _). assert (contents s !! fp = Some e) as Hc
        by (rewrite contents_lookup, Lookup_Some; eauto).
      unfold Lookup. rewrite (Hbp fp l e Hl He). case_bool_decide as E; cbn.
      * symmetry. apply map_lookup_filter_None. right. intros x Hx. cbn. congruence.
      * change (deref (ForgetDevice s d) l) with (deref s l). rewrite He. symmetry.
        by apply map_lookup_filter_Some.
    + unfold Lookup. destruct (s_byPrint (ForgetDevice s d) !! fp) as [l|] eqn:E; [apply Hsub in E; congruence|].
      symmetry. apply map_lookup_filter_None. left. by apply contents_None.
Qed.

Lemma doomed_spec s now grace fp :
  index_ok s →
  fp ∈ doomed s now grace ↔
  ∃ e, contents s !! fp = Some e ∧ e_NotAfter e < now - grace ∧ supersedes (contents s) e.
Proof.
  intros Hok. unfold doomed. rewrite list_elem_of_omap. split.
  - intros ([fp' l] & Hin%elem_of_map_to_list & Hsome). cbn [snd] in Hsome.
    destruct (ix_print s Hok fp' l Hin) as (e & He & Hfp & _). rewrite He in Hsome. cbn [mbind option_bind] in Hsome.
    case_bool_decide as Hna; cbn in Hsome; [|done].
    destruct (supersededLocked s e) eqn:Hs; simplify_eq. exists e.
    split_and!; [rewrite contents_lookup, Lookup_Some; eauto|done|by apply supersededLocked_spec].
  - intros (e & Hc & Hna & Hs). pose proof (contents_fp s Hok _ _ Hc) as Hfp.
    rewrite contents_lookup, Lookup_Some in Hc. destruct Hc as (l & Hl & He).
    exists (fp, l). split; [by apply elem_of_map_to_list|]. cbn [snd]. rewrite He. cbn [mbind option_bind].
    rewrite bool_decide_true by done. apply supersededLocked_spec in Hs; [|done]. rewrite Hs. cbn. by rewrite Hfp.
Qed.
