(* ===== verification/LedgerClaims.v ===== *)
(** * What the certificate ledger promises

    Over any interleaving of issuances, sightings, prunes, purges and restarts:
    the index follows the table, a superseded certificate stays superseded, and
    pruning removes only what admits nothing. *)
From S2P Require Import Prelude GoTime Settings Dbtx Ledger LedgerInv.

(** ** Pruning keeps supersession *)

Lemma supersedes_mono m m' e :
  (∀ fp x, m !! fp = Some x → e_Seen x = true → m' !! fp = Some x) → supersedes m e → supersedes m' e.
Proof. intros H (fp & x & Hx & Hd & Hs & Hl). exists fp, x. split_and!; eauto. Qed.

(** A device with a seen certificate has one that nothing supersedes and that
    is later than whatever the first one was later than. *)
Lemma supersedes_by_latest m e :
  supersedes m e →
  ∃ fp n, m !! fp = Some n ∧ e_DeviceID n = e_DeviceID e ∧ e_Seen n = true ∧ later n e = true ∧ ¬ supersedes m n.
Proof.
  intros (fp & x & Hx & Hd & Hs & Hl).
  set (seen := List.filter (λ y, bool_decide (e_DeviceID y = e_DeviceID e) && e_Seen y) (map_to_list m).*2).
  assert (∀ y, y ∈ seen ↔ ∃ fp, m !! fp = Some y ∧ e_DeviceID y = e_DeviceID e ∧ e_Seen y = true) as Hseen.
  { intros y. unfold seen. rewrite list_elem_of_In, filter_In, <-list_elem_of_In, andb_true_iff, bool_decide_eq_true.
    rewrite list_elem_of_fmap. split.
    - intros [([fp' y'] & -> & Hin%elem_of_map_to_list) ?]. eauto.
    - intros (fp' & Hin & ?). split; [|done]. exists (fp', y). split; [done|]. by apply elem_of_map_to_list. }
  assert (x ∈ seen) as Hxs by (apply Hseen; eauto).
  destruct (latest_exists seen) as (n & Hn & Hmax); [by intros E; rewrite E in Hxs; apply elem_of_nil in Hxs|].
  pose proof Hn as (fpn & Hfn & Hdn & Hsn)%Hseen. exists fpn, n. split_and!; try done.
  - destruct (later n e) eqn:E; [done|]. specialize (Hmax x Hxs).
    rewrite (later_negtrans x n e Hl E) in Hmax. done.
  - intros (fp' & y & Hy & Hdy & Hsy & Hly). rewrite Hmax in Hly; [done|]. apply Hseen. exists fp'.
    split_and!; congruence.
Qed.

Definition all_superseded (m : gmap Fingerprint Entry) (prints : list Fingerprint) : Prop :=
  ∀ fp e, fp ∈ prints → m !! fp = Some e → supersedes m e.

Lemma forget_keeps_superseded m prints e :
  all_superseded m prints → supersedes m e → supersedes (a_forget m prints) e.
Proof.
  intros Hps (fp & n & Hn & Hd & Hs & Hl & Hmax)%supersedes_by_latest. exists fp, n.
  split_and!; try done. rewrite a_forget_lookup, bool_decide_false; [done|]. eauto.
Qed.

Lemma forget_superseded_iff m prints e :
  all_superseded m prints → supersedes (a_forget m prints) e ↔ supersedes m e.
Proof.
  intros Hps. split; [|by apply forget_keeps_superseded].
  intros (fp & n & Hn & ?). exists fp, n. rewrite a_forget_lookup in Hn. by case_bool_decide.
Qed.

(** ** Sightings *)

Lemma a_see_lookup m fp i :
  a_see m fp !! i = if decide (i = fp) then with_seen <$> m !! fp else m !! i.
Proof. unfold a_see. rewrite lookup_alter. repeat case_decide; simplify_eq; done. Qed.

(** Seeing [e] supersedes what was superseded and what [e] is later than. *)
Lemma a_see_supersedes m fp e x :
  m !! fp = Some e →
  supersedes (a_see m fp) x ↔ supersedes m x ∨ e_DeviceID e = e_DeviceID x ∧ later e x = true.
Proof.
  intros He. split.
  - intros (i & y & Hy & Hd & Hs & Hl). rewrite a_see_lookup in Hy. case_decide.
    + subst i. rewrite He in Hy. cbn in Hy. simplify_eq. by right.
    + left. exists i, y. done.
  - intros [(i & y & Hy & Hd & Hs & Hl)|[Hd Hl]].
    + exists i. rewrite a_see_lookup. case_decide as Hi; [|by exists y].
      subst i. rewrite Hy. cbn. exists (with_seen y). done.
    + exists fp, (with_seen e). rewrite a_see_lookup, decide_True by done. rewrite He. done.
Qed.

Lemma supersedes_see m fp x : supersedes m x → supersedes (a_see m fp) x.
Proof.
  intros Hx. destruct (m !! fp) as [e|] eqn:He; [apply (a_see_supersedes _ _ _ _ He); by left|].
  destruct Hx as (i & y & Hy & ?). exists i, y. rewrite a_see_lookup, decide_False by congruence. done.
Qed.

(** ** Warming *)

Lemma foldl_index_spec (rows : list (Fingerprint * cert_row)) s :
  index_ok s → NoDup rows.*1 → (∀ fp, fp ∈ rows.*1 → contents s !! fp = None) →
  let s' := foldl (λ s fr, indexLocked s (entry_of_row fr.1 fr.2)) s rows in
  index_ok s' ∧
  ∀ fp, contents s' !! fp = match list_to_map (M := gmap _ _) rows !! fp with
                            | Some r => Some (entry_of_row fp r) | None => contents s !! fp end.
Proof.
  revert s. induction rows as [|[fp r] rows IH]; intros s Hok Hnd Hnew; cbn [foldl fmap list_fmap fst snd] in *.
  - split; [done|]. intros fp. done.
  - apply NoDup_cons in Hnd as [Hfp Hnd]. cbn [fst] in *.
    destruct (indexLocked_spec s (entry_of_row fp r) Hok) as [Hok1 Hc1]; [apply Hnew; by left|].
    change (e_Fingerprint (entry_of_row fp r)) with fp in Hc1.
    destruct (IH (indexLocked s (entry_of_row fp r)) Hok1 Hnd) as [Hok2 Hc2].
    { intros fp' Hfp'. rewrite Hc1. rewrite lookup_insert_ne by (intros ->; done). apply Hnew. by right. }
    split; [done|]. intros fp'. rewrite Hc2. destruct (decide (fp' = fp)) as [->|Hne].
    + rewrite list_to_map_cons, lookup_insert_eq. rewrite not_elem_of_list_to_map_1 by done.
      rewrite Hc1. by rewrite lookup_insert_eq.
    + rewrite list_to_map_cons, lookup_insert_ne by done. rewrite Hc1. by rewrite lookup_insert_ne.
Qed.

Lemma Warm_spec d :
  let s := (Warm None d New).2 in
  index_ok s ∧ ∀ fp, contents s !! fp = entry_of_row fp <$> t_certificates d !! fp.
Proof.
  unfold Warm; cbn [snd]. destruct (foldl_index_spec (map_to_list (t_certificates d)) New) as [Hok Hc].
  - apply New_ok.
  - apply NoDup_fst_map_to_list.
  - intros fp _. by rewrite New_contents.
  - split; [done|]. intros fp. rewrite Hc, list_to_map_to_list. rewrite New_contents, lookup_empty. by destruct (_ !! fp).
Qed.

Lemma delete_prints_lookup prints d fp :
  t_certificates (delete_prints prints d) !! fp =
  if bool_decide (fp ∈ prints) then None else t_certificates d !! fp.
Proof.
  unfold delete_prints; cbn. generalize (t_certificates d). induction prints as [|p prints IH]; intros m; cbn.
  - by rewrite bool_decide_false by apply not_elem_of_nil.
  - rewrite IH. destruct (decide (fp = p)) as [->|Hne].
    + rewrite lookup_delete_eq, (bool_decide_true (p ∈ p :: prints)) by (by left). by case_bool_decide.
    + rewrite lookup_delete_ne by done. do 2 case_bool_decide; set_solver.
Qed.

(** ** The invariant of the whole ledger *)

Definition pending_print (w : work) : option Fingerprint :=
  match w with WIndex e => Some (e_Fingerprint e) | _ => None end.

Section claims.
Context (sha256 : bytes → bytes) (uuid_Parse : bytes → option uuid) (stored : time → time).
(** A column reads back what it keeps. *)
Context (stored_idem : ∀ t, stored (stored t) = stored t).

Local Abbreviation exec := (exec sha256 uuid_Parse stored).
Local Abbreviation run_cmds := (run_cmds sha256 uuid_Parse stored).

(** The index holds what the row says, and knows at least its sighting. *)
Record agree (e : Entry) (r : cert_row) : Prop := {
  ag_device : r_DeviceID r = e_DeviceID e;
  ag_issuer : r_IssuerHash r = e_IssuerHash e;
  ag_source : r_Source r = e_Source e;
  ag_notBefore : r_NotBefore r = stored (e_NotBefore e);
  ag_notAfter : r_NotAfter r = stored (e_NotAfter e);
  ag_issued : r_IssuedAt r = stored (e_IssuedAt e);
  ag_seen : is_Some (r_FirstSeen r) → e_Seen e = true;
}.

Record ledger_ok (H : list Fingerprint) (y : system) : Prop := {
  lk_index : index_ok (y_store y);
  lk_known : ∀ fp, is_Some (contents (y_store y) !! fp) ∨ is_Some (t_certificates (y_db y) !! fp) → fp ∈ H;
  lk_covers : ∀ fp r, t_certificates (y_db y) !! fp = Some r →
    (∃ e, contents (y_store y) !! fp = Some e ∧ agree e r) ∨
    (∃ e, WIndex e ∈ y_work y ∧ e_Fingerprint e = fp ∧ agree e r);
  lk_pending : ∀ e, WIndex e ∈ y_work y →
    e_Fingerprint e ∈ H ∧ e_Seen e = false ∧ contents (y_store y) !! e_Fingerprint e = None;
  lk_once : NoDup (omap pending_print (y_work y));
  lk_seen : ∀ fp at_, WSeen fp at_ ∈ y_work y →
    (fp ∈ H) ∧ (fp ∉ omap pending_print (y_work y)) ∧
    ∀ e, contents (y_store y) !! fp = Some e → e_Seen e = true;
  lk_prune : ∀ ps, WPrune ps ∈ y_work y →
    all_superseded (contents (y_store y)) ps ∧
    ∀ fp, fp ∈ ps → (fp ∈ H) ∧ (fp ∉ omap pending_print (y_work y));
}.

(** The fingerprint a command asks the table to record. *)
Definition recorded (c : cmd) : option Fingerprint :=
  match c with
  | CRecord _ leaf _ _ _ | CClaim _ _ leaf _ _ => Some (FingerprintOf sha256 (crt_Raw leaf))
  | _ => None
  end.

Lemma pending_elem (ws : list work) fp : fp ∈ omap pending_print ws ↔ ∃ e, WIndex e ∈ ws ∧ e_Fingerprint e = fp.
Proof.
  rewrite list_elem_of_omap. split.
  - intros ([e| |] & Hin & Hp); cbn in Hp; simplify_eq. eauto.
  - intros (e & Hin & <-). by exists (WIndex e).
Qed.

Lemma ledger_ok_weaken H H' y : ledger_ok H y → H ⊆ H' → ledger_ok H' y.
Proof.
  intros Hok Hsub. split; try apply Hok.
  - intros fp Hfp. apply Hsub. by apply (lk_known _ _ Hok).
  - intros e He. destruct (lk_pending _ _ Hok e He) as (? & ? & ?). auto.
  - intros fp at_ Hs. destruct (lk_seen _ _ Hok fp at_ Hs) as (? & ? & ?). auto.
  - intros ps Hps. destruct (lk_prune _ _ Hok ps Hps) as [? Hin]. split; [done|].
    intros fp Hfp. destruct (Hin fp Hfp). auto.
Qed.

Lemma entryFor_Ok leaf h src at_ e :
  entryFor sha256 uuid_Parse leaf h src at_ = Ok e →
  e_Fingerprint e = FingerprintOf sha256 (crt_Raw leaf) ∧ e_Seen e = false.
Proof. unfold entryFor. destruct (uuid_Parse _); [|done]. intros [= <-]. done. Qed.

Lemma row_of_agree leaf e : e_Seen e = false → agree e (row_of stored leaf e).
Proof. intros Hs. split; try done. by intros [? ?]. Qed.

(** A row recorded under a new fingerprint, its indexing in flight. *)
Lemma ok_recorded H s d ws leaf e :
  ledger_ok H (mk_system s d ws) → e_Seen e = false → (e_Fingerprint e ∉ H) →
  ledger_ok (H ++ [e_Fingerprint e])
    (mk_system s (set_certificates d (<[e_Fingerprint e := row_of stored leaf e]> (t_certificates d)))
       (ws ++ [WIndex e])).
Proof.
  intros Hok Hs Hnew. set (fp := e_Fingerprint e) in *.
  assert (omap pending_print (ws ++ [WIndex e]) = omap pending_print ws ++ [fp]) as Hom by (by rewrite omap_app).
  assert (contents s !! fp = None) as Hc.
  { destruct (contents s !! fp) eqn:E; [|done]. exfalso. apply Hnew. apply (lk_known _ _ Hok). left. eexists. exact E. }
  assert (∀ e', WIndex e' ∈ ws ++ [WIndex e] → WIndex e' ∈ ws ∨ e' = e) as Hcase.
  { intros e'. rewrite elem_of_app, list_elem_of_singleton. intros [?|[= ->]]; auto. }
  split; cbn [y_store y_db y_work].
  - apply Hok.
  - intros fp' [Hm|Hm]; apply elem_of_app.
    + left. apply (lk_known _ _ Hok). by left.
    + destruct (decide (fp' = fp)) as [->|Hne]; [right; by left|]. left. apply (lk_known _ _ Hok). right.
      cbn in Hm. by rewrite lookup_insert_ne in Hm.
  - intros fp' r Hr. cbn in Hr. apply lookup_insert_Some in Hr as [[<- <-]|[Hne Hr]].
    + right. exists e. split_and!; [set_solver|done|by apply row_of_agree].
    + destruct (lk_covers _ _ Hok fp' r Hr) as [?|(e' & ? & ?)]; [by left|]. right. exists e'. set_solver.
  - intros e' [He'| ->]%Hcase.
    + destruct (lk_pending _ _ Hok e' He') as (? & ? & ?). set_solver.
    + set_solver.
  - rewrite Hom. apply NoDup_app. split_and!; [apply (lk_once _ _ Hok)| |apply NoDup_singleton].
    intros x Hx ->%list_elem_of_singleton. apply pending_elem in Hx as (e' & He' & Heq). apply Hnew. rewrite <-Heq.
    by apply (lk_pending _ _ Hok e').
  - intros fp' at_ Hin. rewrite Hom. apply elem_of_app in Hin as [Hin|Hin%list_elem_of_singleton]; [|done].
    destruct (lk_seen _ _ Hok fp' at_ Hin) as (? & ? & ?). set_solver.
  - intros ps Hin. rewrite Hom. apply elem_of_app in Hin as [Hin|Hin%list_elem_of_singleton]; [|done].
    destruct (lk_prune _ _ Hok ps Hin) as [? Hps]. split; [done|]. intros fp' Hfp'. destruct (Hps fp' Hfp'). set_solver.
Qed.
(** Taking one piece of work out of flight. *)
Lemma take_work (ws : list work) i w :
  ws !! i = Some w →
  (∀ x, x ∈ delete i ws → x ∈ ws) ∧
  omap pending_print ws ≡ₚ option_list (pending_print w) ++ omap pending_print (delete i ws) ∧
  ∀ x, x ∈ ws → x ∈ delete i ws ∨ x = w.
Proof.
  intros (a & b & -> & ->)%list_elem_of_split_length. rewrite delete_middle. split_and!.
  - intros x. rewrite !elem_of_app, elem_of_cons. tauto.
  - rewrite !omap_app. cbn. destruct (pending_print w); cbn; [|done]. by rewrite Permutation_middle.
  - intros x. rewrite !elem_of_app, elem_of_cons. tauto.
Qed.

(** Work that leaves without touching the index. *)
Lemma ok_drop H s d ws i w :
  ledger_ok H (mk_system s d ws) → ws !! i = Some w → pending_print w = None →
  ledger_ok H (mk_system s d (delete i ws)).
Proof.
  intros Hok Hi Hp. destruct (take_work ws i w Hi) as (Hsub & Hperm & Hin). rewrite Hp in Hperm. cbn in Hperm.
  split; cbn [y_store y_db y_work].
  - apply Hok.
  - apply Hok.
  - intros fp r Hr. destruct (lk_covers _ _ Hok fp r Hr) as [?|(e & He & ?)]; [by left|]. right. exists e.
    destruct (Hin _ He) as [?|<-]; [done|]. done.
  - intros e He. apply (lk_pending _ _ Hok e). by apply Hsub.
  - rewrite <-Hperm. apply (lk_once _ _ Hok).
  - intros fp at_ Hs. rewrite <-Hperm. apply (lk_seen _ _ Hok fp at_). by apply Hsub.
  - intros ps Hps. destruct (lk_prune _ _ Hok ps (Hsub _ Hps)) as [? Hf]. split; [done|].
    intros fp Hfp. rewrite <-Hperm. by apply Hf.
Qed.

(** The index changes to one that only grows or forgets. *)
Lemma ok_index H s d ws i e :
  ledger_ok H (mk_system s d ws) → ws !! i = Some (WIndex e) →
  ledger_ok H (mk_system (index_entry s e).2 d (delete i ws)).
Proof.
  intros Hok Hi. destruct (take_work ws i _ Hi) as (Hsub & Hperm & Hin). cbn in Hperm.
  assert (WIndex e ∈ ws) as He by (by eapply list_elem_of_lookup_2).
  destruct (lk_pending _ _ Hok e He) as (HH & Hs & Hc). cbn [y_store] in Hc.
  destruct (index_entry_spec s e (lk_index _ _ Hok)) as [Hix Hcon]. rewrite Hc in Hcon.
  pose proof (lk_once _ _ Hok) as Hnd. cbn [y_work] in Hnd. rewrite Hperm in Hnd.
  apply NoDup_cons in Hnd as [Hout Hnd].
  assert (∀ fp x, contents s !! fp = Some x → <[e_Fingerprint e := e]> (contents s) !! fp = Some x) as Hold.
  { intros fp x Hx. rewrite lookup_insert_ne; [done|]. congruence. }
  split; cbn [y_store y_db y_work]; rewrite ?Hcon.
  - done.
  - intros fp [Hm|Hm]; [|apply (lk_known _ _ Hok); by right].
    destruct (decide (fp = e_Fingerprint e)) as [->|Hne]; [done|]. rewrite lookup_insert_ne in Hm by done.
    apply (lk_known _ _ Hok). by left.
  - intros fp r Hr. destruct (lk_covers _ _ Hok fp r Hr) as [(x & Hx & ?)|(x & Hx & <- & ?)]; cbn [y_store y_work] in *.
    + left. exists x. split; [by apply Hold|done].
    + destruct (Hin _ Hx) as [?|[= ->]]; [right; eauto|]. left. exists e. by rewrite lookup_insert_eq.
  - intros x Hx. destruct (lk_pending _ _ Hok x (Hsub _ Hx)) as (? & ? & ?). split_and!; [done..|].
    rewrite lookup_insert_ne; [done|]. intros Heq. apply Hout. rewrite Heq. apply pending_elem. eauto.
  - done.
  - intros fp at_ Hf. destruct (lk_seen _ _ Hok fp at_ (Hsub _ Hf)) as (? & Hnp & Hse). cbn [y_work y_store] in *.
    rewrite Hperm in Hnp. apply not_elem_of_cons in Hnp as [Hne Hnp]. split_and!; [done..|].
    intros x. rewrite lookup_insert_ne by done. apply Hse.
  - intros ps Hps. destruct (lk_prune _ _ Hok ps (Hsub _ Hps)) as (Has & Hps'). cbn [y_work y_store] in *. split.
    + intros fp x Hfp. destruct (Hps' fp Hfp) as [_ Hnp]. rewrite Hperm in Hnp.
      apply not_elem_of_cons in Hnp as [Hne _]. rewrite lookup_insert_ne by done. intros Hx.
      eapply supersedes_mono; [|by eapply Has]. intros; by apply Hold.
    + intros fp Hfp. destruct (Hps' fp Hfp) as [? Hnp]. rewrite Hperm in Hnp.
      apply not_elem_of_cons in Hnp as [_ Hnp]. done.
Qed.

(** The index forgets entries whose rows are gone. *)
Lemma ok_forget H s s' d d' ws :
  ledger_ok H (mk_system s d ws) → index_ok s' →
  (∀ fp x, contents s' !! fp = Some x → contents s !! fp = Some x) →
  (∀ fp r, t_certificates d' !! fp = Some r →
     t_certificates d !! fp = Some r ∧ contents s' !! fp = contents s !! fp) →
  (∀ x, supersedes (contents s) x → (∃ fp, contents s' !! fp = Some x) → supersedes (contents s') x) →
  ledger_ok H (mk_system s' d' ws).
Proof.
  intros Hok Hix Hsub Hrows Hsup. split; cbn [y_store y_db y_work].
  - done.
  - intros fp [[x Hx]|[r Hr]]; apply (lk_known _ _ Hok).
    + left. exists x. by apply Hsub.
    + right. exists r. by apply Hrows.
  - intros fp r Hr. destruct (Hrows fp r Hr) as [Hr0 ->]. by apply (lk_covers _ _ Hok).
  - intros e He. destruct (lk_pending _ _ Hok e He) as (? & ? & Hc). split_and!; [done..|].
    destruct (contents s' !! e_Fingerprint e) eqn:E; [|done]. apply Hsub in E. cbn [y_store] in Hc. congruence.
  - apply (lk_once _ _ Hok).
  - intros fp at_ Hf. destruct (lk_seen _ _ Hok fp at_ Hf) as (? & ? & Hse). split_and!; [done..|].
    intros x Hx. apply Hse. by apply Hsub.
  - intros ps Hps. destruct (lk_prune _ _ Hok ps Hps) as [Has ?]. split; [|done].
    intros fp x Hfp Hx. apply Hsup; [|eauto]. apply (Has fp); [done|]. by apply Hsub.
Qed.

Lemma ok_see H s d ws fp at_ :
  ledger_ok H (mk_system s d ws) →
  ledger_ok H (mk_system (see s fp).2 d (if (see s fp).1.2 then ws ++ [WSeen fp at_] else ws)).
Proof.
  intros Hok. pose proof (see_spec s fp (lk_index _ _ Hok)) as Hsee.
  destruct (see s fp) as [[prints changed] s'] eqn:Es. cbn [fst snd].
  destruct Hsee as (Hix & Hcon & Hch & _).
  assert (∀ i x, contents s' !! i = Some x → ∃ x0, contents s !! i = Some x0 ∧
            (x = x0 ∨ i = fp ∧ x = with_seen x0)) as Hback.
  { intros i x. rewrite Hcon, a_see_lookup. destruct (decide (i = fp)) as [->|Hne]; [|eauto].
    destruct (contents s !! fp); cbn; [|done]. intros [= <-]. eauto. }
  assert (∀ i, contents s !! i = None → contents s' !! i = None) as Hnone.
  { intros i Hi. rewrite Hcon, a_see_lookup. destruct (decide (i = fp)) as [->|Hne]; [by rewrite Hi|done]. }
  set (ws' := if changed then _ else _).
  assert (∀ x, x ∈ ws' → x ∈ ws ∨ changed = true ∧ x = WSeen fp at_) as Hws.
  { intros x. unfold ws'. destruct changed; [|by left]. rewrite elem_of_app, list_elem_of_singleton. naive_solver. }
  assert (omap pending_print ws' = omap pending_print ws) as Hom.
  { unfold ws'. destruct changed; [|done]. rewrite omap_app. apply app_nil_r. }
  split; cbn [y_store y_db y_work]; rewrite ?Hom.
  - done.
  - intros i [[x Hx]|Hr]; apply (lk_known _ _ Hok); [left|by right].
    apply Hback in Hx as (x0 & Hx0 & _). by exists x0.
  - intros i r Hr. destruct (lk_covers _ _ Hok i r Hr) as [(x & Hx & Ha)|(x & Hx & ?)]; cbn [y_store y_work] in *.
    + left. rewrite Hcon, a_see_lookup. destruct (decide (i = fp)) as [->|Hne]; [|eauto]. rewrite Hx. exists (with_seen x). split; [done|].
      destruct Ha. by split.
    + right. exists x. unfold ws'. destruct changed; set_solver.
  - intros x Hx. apply Hws in Hx as [Hx|[_ ?]]; [|done].
    destruct (lk_pending _ _ Hok x Hx) as (? & ? & ?). auto.
  - apply (lk_once _ _ Hok).
  - intros i at' [Hi|[-> [= -> ->]]]%Hws.
    + destruct (lk_seen _ _ Hok i at' Hi) as (? & ? & Hs). split_and!; [done..|].
      intros x (x0 & Hx0 & [->|[-> ->]])%Hback; [by apply Hs|done].
    + symmetry in Hch. apply bool_decide_eq_true in Hch.
      destruct (contents s !! fp) as [x0|] eqn:E; [|done]. split_and!.
      * apply (lk_known _ _ Hok). left. by exists x0.
      * intros (x & Hx & Heq)%pending_elem. destruct (lk_pending _ _ Hok x Hx) as (_ & _ & Hc).
        cbn [y_store] in Hc. rewrite Heq in Hc. congruence.
      * intros x. rewrite Hcon, a_see_lookup, decide_True by done. rewrite E. by intros [= <-].
  - intros ps Hps. apply Hws in Hps as [Hps|[_ ?]]; [|done].
    destruct (lk_prune _ _ Hok ps Hps) as [Has Hf]. split; [|done].
    intros i x Hi (x0 & Hx0 & Hx)%Hback. rewrite Hcon. apply supersedes_see.
    destruct (Has i x0 Hi Hx0) as (j & z & Hz & Hd & Hs & Hl). exists j, z.
    destruct Hx as [->|[_ ->]]; done.
Qed.

Lemma ok_doom H s d ws now grace :
  ledger_ok H (mk_system s d ws) → ledger_ok H (mk_system s d (ws ++ [WPrune (doomed s now grace)])).
Proof.
  intros Hok.
  assert (omap pending_print (ws ++ [WPrune (doomed s now grace)]) = omap pending_print ws) as Hom.
  { rewrite omap_app. apply app_nil_r. }
  assert (∀ x, x ∈ ws ++ [WPrune (doomed s now grace)] → x ∈ ws ∨ x = WPrune (doomed s now grace)) as Hws.
  { intros x. rewrite elem_of_app, list_elem_of_singleton. done. }
  split; cbn [y_store y_db y_work]; rewrite ?Hom; try apply Hok.
  - intros fp r Hr. destruct (lk_covers _ _ Hok fp r Hr) as [?|(e & ? & ?)]; [by left|right; set_solver].
  - intros e [He|?]%Hws; [|done]. by apply (lk_pending _ _ Hok e).
  - intros fp at_ [Hf|?]%Hws; [|done]. by apply (lk_seen _ _ Hok fp at_).
  - intros ps [Hps|[= ->]]%Hws; [by apply (lk_prune _ _ Hok)|]. split.
    + intros fp e (e' & He' & _ & Hs)%doomed_spec He; [|apply (lk_index _ _ Hok)]. congruence.
    + intros fp (e' & He' & _ & Hs)%doomed_spec; [|apply (lk_index _ _ Hok)]. split.
      * apply (lk_known _ _ Hok). left. by exists e'.
      * intros (x & Hx & Heq)%pending_elem. destruct (lk_pending _ _ Hok x Hx) as (_ & _ & Hc).
        cbn [y_store] in Hc. rewrite Heq in Hc. congruence.
Qed.
Lemma ok_prune H s d ws fails prints :
  ledger_ok H (mk_system s d ws) → WPrune prints ∈ ws →
  let '(_, d', s') := prune_rows fails prints d s in
  ledger_ok H (mk_system s' d' ws) ∧
  (s' = s ∨ s' = forget s prints).
Proof.
  intros Hok Hin. destruct (lk_prune _ _ Hok prints Hin) as [Has _]. cbn [y_store] in Has.
  destruct (forget_spec prints s (lk_index _ _ Hok)) as [Hix Hc].
  assert (ledger_ok H (mk_system (forget s prints) (delete_prints prints d) ws)) as Hall.
  { apply (ok_forget H s _ d); [done..| | |]; rewrite Hc.
    - intros fp x. rewrite a_forget_lookup. by case_bool_decide.
    - intros fp r. rewrite delete_prints_lookup, a_forget_lookup. by case_bool_decide.
    - intros x Hx _. by apply forget_keeps_superseded. }
  assert (∀ ps, ledger_ok H (mk_system s (delete_prints ps d) ws)) as Hdel.
  { intros ps. apply (ok_forget H s _ d); [done|apply Hok|done| |done].
    intros fp r. rewrite delete_prints_lookup. by case_bool_decide. }
  unfold prune_rows. destruct prints as [|p ps]; [by auto|].
  destruct fails as [n|]; [|by auto]. destruct (n <? _)%nat; auto.
Qed.

Lemma ok_write_seen H s d ws fp at_ :
  ledger_ok H (mk_system s d ws) → WSeen fp at_ ∈ ws → ledger_ok H (mk_system s (write_seen stored fp at_ d) ws).
Proof.
  intros Hok Hin. destruct (lk_seen _ _ Hok fp at_ Hin) as (_ & Hnp & Hs). cbn [y_store y_work] in *.
  split; cbn [y_store y_db y_work]; try apply Hok.
  - intros i Hi. apply (lk_known _ _ Hok). destruct Hi as [?|Hi]; [by left|right]. cbn in *.
    rewrite lookup_alter in Hi. case_decide; [subst i|done]. destruct (t_certificates d !! fp); [done|]. by destruct Hi.
  - intros i r Hr. cbn in Hr. rewrite lookup_alter in Hr. destruct (decide (fp = i)) as [->|Hne].
    + destruct (t_certificates d !! i) as [r0|] eqn:E; cbn in Hr; [|done]. injection Hr as <-.
      destruct (lk_covers _ _ Hok i r0 E) as [(x & Hx & Ha)|(x & Hx & Heq & _)]; cbn [y_store y_work] in *.
      * left. exists x. split; [done|]. destruct Ha. destruct (r_FirstSeen r0); split; auto.
      * exfalso. apply Hnp. apply pending_elem. eauto.
    + by apply (lk_covers _ _ Hok).
Qed.

Lemma ok_restart H s d ws :
  ledger_ok H (mk_system s d ws) → ledger_ok H (mk_system (Warm None d New).2 d []).
Proof.
  intros Hok. destruct (Warm_spec d) as [Hix Hc]. split; cbn [y_store y_db y_work].
  - done.
  - intros fp [[x Hx]|Hr]; apply (lk_known _ _ Hok); right; [|done].
    rewrite Hc in Hx. cbn [y_db]. by destruct (t_certificates d !! fp).
  - intros fp r Hr. left. exists (entry_of_row fp r). rewrite Hc, Hr. split; [done|].
    assert (∃ x, agree x r) as [x Ha].
    { destruct (lk_covers _ _ Hok fp r Hr) as [(x & _ & ?)|(x & _ & _ & ?)]; eauto. }
    destruct Ha as [? ? ? Hnb Hna Hia _]. split; cbn; try done.
    + by rewrite Hnb, stored_idem.
    + by rewrite Hna, stored_idem.
    + by rewrite Hia, stored_idem.
    + intros ?. by apply bool_decide_eq_true.
  - by intros e ?%elem_of_nil.
  - apply NoDup_nil_2.
  - by intros fp at_ ?%elem_of_nil.
  - by intros ps ?%elem_of_nil.
Qed.

Lemma record_row_cases ok leaf h src at_ d :
  (∃ err, record_row sha256 uuid_Parse stored ok leaf h src at_ d = (Err err, d)) ∨
  ∃ e, entryFor sha256 uuid_Parse leaf h src at_ = Ok e ∧
    record_row sha256 uuid_Parse stored ok leaf h src at_ d = (Ok e, insert_row stored leaf e d).
Proof.
  unfold record_row. destruct (entryFor _ _ leaf h src at_) as [e|err]; [|eauto].
  destruct ok; eauto.
Qed.

Lemma claim_row_cases ok ctx leaf h at_ d :
  ((∃ r, claim_row sha256 uuid_Parse stored ok ctx leaf h at_ d = (r, d)) ∧
   ∀ e, (claim_row sha256 uuid_Parse stored ok ctx leaf h at_ d).1 ≠ Ok (Some e)) ∨
  ∃ e, entryFor sha256 uuid_Parse leaf h SourceEnroll at_ = Ok e ∧
    claim_row sha256 uuid_Parse stored ok ctx leaf h at_ d =
      (Ok (Some e), set_certificates d (<[e_Fingerprint e := row_of stored leaf e]> (t_certificates d))).
Proof.
  unfold claim_row. destruct (entryFor _ _ leaf h SourceEnroll at_) as [e|err]; [|left; split; eauto; by intros].
  destruct (TenantFromContext ctx) as [t|]; [|left; split; eauto; by intros].
  destruct ok; cbn [negb]; [|left; split; eauto; by intros].
  destruct (free_number t (e_DeviceID e) d); cbn [negb]; [|left; split; eauto; by intros].
  destruct (t_certificates d !! e_Fingerprint e); [left; split; eauto; by intros|]. right. eauto.
Qed.

Lemma finish_ok H s d ws i fails w :
  ledger_ok H (mk_system s d ws) → ws !! i = Some w →
  let '(d', s') := finish stored fails w d s in ledger_ok H (mk_system s' d' (delete i ws)).
Proof.
  intros Hok Hi. assert (w ∈ ws) as Hin by (by eapply list_elem_of_lookup_2).
  destruct w as [e|fp at_|prints]; cbn.
  - by apply ok_index.
  - destruct fails; (eapply ok_drop; [|done|done]); [done|by apply ok_write_seen].
  - pose proof (ok_prune H s d ws fails prints Hok Hin) as Hp.
    destruct (prune_rows fails prints d s) as [[res d'] s']. destruct Hp as [Hp _]. by eapply ok_drop.
Qed.

Lemma exec_ok H y c :
  ledger_ok H y → (∀ fp, recorded c = Some fp → fp ∉ H) → ledger_ok (H ++ option_list (recorded c)) (exec y c).
Proof.
  destruct y as [s d ws]. intros Hok Hnew.
  assert (ledger_ok (H ++ option_list (recorded c)) (mk_system s d ws)) as Hok'
    by (eapply ledger_ok_weaken; [done|set_solver]).
  destruct c; cbn [recorded option_list] in *; rewrite ?app_nil_r in *; cbn -[see doomed Warm].
  - destruct (record_row_cases ok leaf issuerHash source issuedAt d) as [[err ->]|(e & He & ->)]; [done|].
    apply entryFor_Ok in He as [Hfp Hs]. rewrite <-Hfp in *. unfold insert_row.
    specialize (Hnew _ eq_refl). destruct (t_certificates d !! e_Fingerprint e) eqn:E.
    { exfalso. apply Hnew, (lk_known _ _ Hok). right. eexists. exact E. }
    by apply ok_recorded.
  - destruct (claim_row_cases ok ctx leaf issuerHash issuedAt d) as [[[r Hr] Hno]|(e & He & ->)].
    + rewrite Hr in Hno |- *. destruct r as [[e|]|]; [by destruct (Hno e)|done..].
    + apply entryFor_Ok in He as [Hfp Hs]. rewrite <-Hfp in *. apply ok_recorded; auto.
  - pose proof (ok_see H s d ws fp at_ Hok) as Hs. by destruct (see s fp) as [[prints changed] s'].
  - by apply ok_doom.
  - destruct (ws !! i) as [w|] eqn:E; [|done].
    pose proof (finish_ok H s d ws i fails_at w Hok E) as Hf. by destruct (finish stored fails_at w d s).
  - apply (ok_forget H s _ d); [done|apply Hok|done| |done].
    intros fp r Hr. cbn in Hr. apply map_lookup_filter_Some in Hr as [? _]. done.
  - split; apply Hok.
  - split; apply Hok.
  - by eapply ok_restart.
Qed.

Lemma empty_ok : ledger_ok [] empty_system.
Proof.
  split; cbn [y_store y_db y_work empty_system]; try by intros ? ?%elem_of_nil.
  - apply New_ok.
  - intros fp. rewrite New_contents. cbn. rewrite !lookup_empty. by intros [[]|[]].
  - by intros.
  - apply NoDup_nil_2.
  - by intros fp at_ ?%elem_of_nil.
Qed.

Lemma run_ok H y cs :
  ledger_ok H y → NoDup (H ++ omap recorded cs) → ledger_ok (H ++ omap recorded cs) (run_cmds y cs).
Proof.
  revert H y. induction cs as [|c cs IH]; intros H y Hok Hnd; cbn; [by rewrite app_nil_r|].
  assert (omap recorded (c :: cs) = option_list (recorded c) ++ omap recorded cs) as Hom by (cbn; by destruct (recorded c)).
  change (match recorded c with Some y0 => y0 :: omap recorded cs | None => omap recorded cs end)
    with (omap recorded (c :: cs)).
  rewrite Hom, app_assoc in *. apply IH; [|done]. apply exec_ok; [done|].
  intros fp Hfp Hin. rewrite Hfp in Hnd. apply NoDup_app in Hnd as (Hnd & _ & _).
  apply NoDup_app in Hnd as (_ & Hd & _). by apply (Hd fp Hin); left.
Qed.
(** ** Supersession over time *)

(** Not about to be indexed, and superseded if the index holds it. *)
Definition spent (fp : Fingerprint) (y : system) : Prop :=
  (fp ∉ omap pending_print (y_work y)) ∧
  ∀ e, contents (y_store y) !! fp = Some e → supersedes (contents (y_store y)) e.

Lemma spent_work fp s s' d d' ws i w :
  spent fp (mk_system s d ws) → ws !! i = Some w →
  (∀ e, contents s' !! fp = Some e → supersedes (contents s') e) → spent fp (mk_system s' d' (delete i ws)).
Proof.
  intros [Hp _] Hi Hs. split; [|done]. destruct (take_work ws i w Hi) as (_ & Hperm & _).
  cbn [y_work] in *. rewrite Hperm in Hp. apply not_elem_of_app in Hp as [_ Hp]. done.
Qed.

Lemma spent_finish H fp s d ws i fails w :
  ledger_ok H (mk_system s d ws) → spent fp (mk_system s d ws) → ws !! i = Some w →
  let '(d', s') := finish stored fails w d s in spent fp (mk_system s' d' (delete i ws)).
Proof.
  intros Hok Hsp Hi. assert (w ∈ ws) as Hin by (by eapply list_elem_of_lookup_2).
  pose proof Hsp as [Hp Hs]. cbn [y_store y_work] in *. destruct w as [e|fp' at_|prints]; cbn.
  - destruct (index_entry_spec s e (lk_index _ _ Hok)) as [_ Hc].
    eapply spent_work; [done..|]. intros x. rewrite Hc.
    destruct (lk_pending _ _ Hok e Hin) as (_ & _ & Hnone). cbn [y_store] in Hnone. rewrite Hnone.
    assert (e_Fingerprint e ≠ fp) as Hne by (intros <-; apply Hp, pending_elem; eauto).
    rewrite lookup_insert_ne by done. intros Hx. eapply supersedes_mono; [|by apply Hs].
    intros i' z Hz _. rewrite lookup_insert_ne; [done|congruence].
  - by destruct fails; eapply spent_work.
  - destruct (lk_prune _ _ Hok prints Hin) as [Has _]. cbn [y_store] in Has.
    pose proof (ok_prune H s d ws fails prints Hok Hin) as Hpr.
    destruct (prune_rows fails prints d s) as [[res d'] s']. destruct Hpr as [_ [->| ->]]; eapply spent_work; try done.
    destruct (forget_spec prints s (lk_index _ _ Hok)) as [_ ->]. intros x. rewrite a_forget_lookup.
    case_bool_decide; [done|]. intros Hx. apply forget_keeps_superseded; auto.
Qed.

Lemma spent_pend fp s d d' ws e :
  spent fp (mk_system s d ws) → e_Fingerprint e ≠ fp → spent fp (mk_system s d' (ws ++ [WIndex e])).
Proof.
  intros [Hp Hs] Hne. split; [|done]. cbn [y_work] in *. rewrite omap_app. cbn. set_solver.
Qed.

Lemma spent_exec H fp y c :
  ledger_ok H y → spent fp y → c ≠ CRestart → recorded c ≠ Some fp → spent fp (exec y c).
Proof.
  destruct y as [s d ws]. intros Hok Hsp Hc Hr. destruct c; cbn -[see doomed Warm]; try done.
  - destruct (record_row_cases ok leaf issuerHash source issuedAt d) as [[err ->]|(e & He & ->)]; [done|].
    apply entryFor_Ok in He as [Hfp _]. eapply spent_pend; [done|]. cbn in Hr. congruence.
  - destruct (claim_row_cases ok ctx leaf issuerHash issuedAt d) as [[[r Hr'] Hno]|(e & He & ->)].
    + rewrite Hr' in Hno |- *. destruct r as [[e|]|]; [by destruct (Hno e)|done..].
    + apply entryFor_Ok in He as [Hfp _]. eapply spent_pend; [done|]. cbn in Hr. congruence.
  - pose proof (see_spec s fp0 (lk_index _ _ Hok)) as Hsee. destruct (see s fp0) as [[prints changed] s'].
    destruct Hsee as (_ & Hcon & _). destruct Hsp as [Hp Hs]. cbn [y_work y_store] in *. split; cbn [y_work y_store].
    + destruct changed; [|done]. rewrite omap_app, app_nil_r. done.
    + intros e. rewrite Hcon, a_see_lookup. destruct (decide (fp = fp0)) as [->|Hne].
      * destruct (contents s !! fp0) as [e0|] eqn:E; cbn; [|done]. intros [= <-]. apply supersedes_see.
        exact (Hs e0 eq_refl).
      * intros He. apply supersedes_see. by apply Hs.
  - destruct Hsp as [Hp Hs]. split; [|done]. cbn [y_work] in *. rewrite omap_app, app_nil_r. done.
  - destruct (ws !! i) as [w|] eqn:E; [|done].
    pose proof (spent_finish H fp s d ws i fails_at w Hok Hsp E) as Hf. by destruct (finish stored fails_at w d s).
Qed.

Lemma spent_run H fp y cs :
  ledger_ok H y → spent fp y → NoDup (H ++ omap recorded cs) → fp ∈ H → Forall (λ c, c ≠ CRestart) cs →
  spent fp (run_cmds y cs).
Proof.
  revert H y. induction cs as [|c cs IH]; intros H y Hok Hsp Hnd Hfp Hcs; cbn; [done|].
  apply Forall_cons in Hcs as [Hc Hcs].
  assert (omap recorded (c :: cs) = option_list (recorded c) ++ omap recorded cs) as Hom by (cbn; by destruct (recorded c)).
  rewrite Hom, app_assoc in Hnd.
  assert (∀ fp', recorded c = Some fp' → fp' ∉ H) as Hnew.
  { intros fp' Hfp' Hin. rewrite Hfp' in Hnd. apply NoDup_app in Hnd as (Hnd & _ & _).
    apply NoDup_app in Hnd as (_ & Hd & _). by apply (Hd fp' Hin); left. }
  eapply IH; [by apply exec_ok| |done|set_solver|done].
  eapply spent_exec; [done..|]. intros Heq. by apply (Hnew fp).
Qed.

(** ** Claims *)

(** C21: The index in memory follows the table: over any interleaving of issuances,
    sightings, prunes, purges and restarts that never records one certificate
    twice, its two maps describe the same entries, every row is found by
    [Lookup] with its data and its sighting (unless the indexing of that very
    row is still in flight), and nothing is found that was not recorded. *)
Theorem index_follows_table cs :
  NoDup (omap recorded cs) →
  let y := run_cmds empty_system cs in
  index_ok (y_store y) ∧
  (∀ fp r, t_certificates (y_db y) !! fp = Some r →
    (∃ e, Lookup (y_store y) fp = Some e ∧ agree e r) ∨
    (∃ e, WIndex e ∈ y_work y ∧ e_Fingerprint e = fp ∧ agree e r)) ∧
  (∀ fp e, Lookup (y_store y) fp = Some e → e_Fingerprint e = fp ∧ fp ∈ omap recorded cs).
Proof.
  intros Hnd y. pose proof (run_ok [] empty_system cs empty_ok Hnd) as Hok. fold y in Hok. cbn [app] in Hok.
  split_and!.
  - apply Hok.
  - intros fp r Hr. rewrite <-contents_lookup. by apply (lk_covers _ _ Hok).
  - intros fp e. rewrite <-contents_lookup. intros He. split; [by eapply contents_fp; [apply Hok|]|].
    apply (lk_known _ _ Hok). left. by exists e.
Qed.

(** C22: A superseded certificate stays out: whatever the ledger goes on to do short
    of a restart (later certificates issued and seen, prunes selected before and
    finished after, purges), a certificate once superseded is superseded still,
    or no longer on the ledger at all. *)
Theorem superseded_for_good cs cs' fp :
  NoDup (omap recorded (cs ++ cs')) → Forall (λ c, c ≠ CRestart) cs' →
  Superseded (y_store (run_cmds empty_system cs)) fp = true →
  let s := y_store (run_cmds empty_system (cs ++ cs')) in
  Superseded s fp = true ∨ Lookup s fp = None.
Proof.
  intros Hnd Hcs' Hsup s. rewrite omap_app in Hnd.
  pose proof (run_ok [] empty_system cs empty_ok (proj1 (proj1 (NoDup_app _ _) Hnd))) as Hok. cbn [app] in Hok.
  assert (run_cmds empty_system (cs ++ cs') = run_cmds (run_cmds empty_system cs) cs') as Hrun by apply foldl_app.
  set (y := run_cmds empty_system cs) in *.
  apply Superseded_spec in Hsup as (e & He & Hs); [|apply Hok].
  assert (spent fp y) as Hsp.
  { split; [|intros e' He'; by assert (e' = e) as -> by congruence].
    intros (x & Hx & Heq)%pending_elem. destruct (lk_pending _ _ Hok x Hx) as (_ & _ & Hc). congruence. }
  assert (fp ∈ omap recorded cs) as Hfp by (apply (lk_known _ _ Hok); left; by exists e).
  pose proof (spent_run _ fp y cs' Hok Hsp Hnd Hfp Hcs') as [_ Hsp'].
  pose proof (run_ok _ y cs' Hok Hnd) as Hok'. unfold s. rewrite Hrun.
  destruct (Lookup _ fp) as [e'|] eqn:E; [left|by right]. rewrite <-contents_lookup in E.
  apply Superseded_spec; [apply Hok'|]. eauto.
Qed.
End claims.

(** Pruning removes exactly what can admit nothing and changes nothing else: a
    certificate leaves the index and the table when it is superseded and past the
    grace, every other one keeps its entry, its row and its standing, and no
    device loses its last certificate. *)
Theorem prune_exact now grace d s d' s' n :
  index_ok s → Prune None now grace d s = (Ok n, d', s') →
  index_ok s' ∧
  (∀ fp e, Lookup s fp = Some e →
     let gone := bool_decide (e_NotAfter e < now - grace) && Superseded s fp in
     Lookup s' fp = (if gone then None else Some e) ∧
     t_certificates d' !! fp = (if gone then None else t_certificates d !! fp) ∧
     (gone = false → Superseded s' fp = Superseded s fp)) ∧
  (∀ id, HasDevice s' id = HasDevice s id).
Proof.
  intros Hok HP.
  assert (s' = forget s (doomed s now grace) ∧ d' = delete_prints (doomed s now grace) d) as [-> ->].
  { unfold Prune, prune_rows in HP. destruct (doomed s now grace); injection HP as _ <- <-; [|done].
    split; [done|]. by destruct d. }
  set (ps := doomed s now grace). destruct (forget_spec ps s Hok) as [Hok' Hc].
  assert (all_superseded (contents s) ps) as Has.
  { intros fp e (e' & He' & _ & Hs)%doomed_spec He; [|done]. congruence. }
  split_and!; [done| |].
  - intros fp e He gone.
    assert (bool_decide (fp ∈ ps) = gone) as Hg.
    { unfold gone, Superseded. rewrite He. apply eq_true_iff_eq.
      rewrite bool_decide_eq_true, andb_true_iff, bool_decide_eq_true, supersededLocked_spec by done.
      unfold ps. rewrite doomed_spec by done. rewrite contents_lookup, He. naive_solver. }
    rewrite <-contents_lookup, Hc, a_forget_lookup, delete_prints_lookup, contents_lookup, He, Hg.
    split_and!; [done|done|]. intros Hf. apply eq_true_iff_eq. rewrite !Superseded_spec by done.
    rewrite Hc, a_forget_lookup, Hg, Hf. setoid_rewrite (forget_superseded_iff _ ps _ Has). done.
  - intros id. apply eq_true_iff_eq. rewrite !HasDevice_spec by done. rewrite Hc. split.
    + intros (fp & e & He & <-). rewrite a_forget_lookup in He. case_bool_decide; [done|]. eauto.
    + intros (fp & e & He & <-). destruct (decide (fp ∈ ps)) as [Hin|Hout].
      * destruct (forget_keeps_superseded _ ps e Has (Has fp e Hin He)) as (fp' & x & Hx & Hd & _). eauto.
      * exists fp, e. rewrite a_forget_lookup, bool_decide_false by done. done.
Qed.

(** A sighting supersedes exactly the device's older certificates: marking a
    certificate seen returns the fingerprints it is later than, and afterwards a
    certificate is superseded when it was before or is one of those; the entries
    themselves change only by that mark. *)
Theorem sighting_exact s fp prints changed s' :
  index_ok s → see s fp = ((prints, changed), s') →
  index_ok s' ∧
  (∀ fp', Lookup s' fp' = if bool_decide (fp' = fp) then with_seen <$> Lookup s fp else Lookup s fp') ∧
  changed = bool_decide (e_Seen <$> Lookup s fp = Some false) ∧
  (∀ fp', Superseded s' fp' = Superseded s fp' || bool_decide (fp' ∈ prints)).
Proof.
  intros Hok Hsee. pose proof (see_spec s fp Hok) as H. rewrite Hsee in H.
  destruct H as (Hok' & Hc & Hch & Hpr). split_and!; [done| | |].
  - intros fp'. rewrite <-!contents_lookup, Hc, a_see_lookup.
    destruct (decide (fp' = fp)) as [->|Hne]; [by rewrite bool_decide_true|by rewrite bool_decide_false].
  - by rewrite <-contents_lookup.
  - intros fp'. apply eq_true_iff_eq. rewrite orb_true_iff, bool_decide_eq_true, Hpr, !Superseded_spec by done.
    rewrite Hc. destruct (contents s !! fp) as [e|] eqn:E.
    2:{ assert (a_see (contents s) fp = contents s) as ->.
        { apply map_eq. intros i. rewrite a_see_lookup.
          destruct (decide (i = fp)) as [->|Hne]; [by rewrite E|done]. }
        naive_solver. }
    setoid_rewrite (a_see_supersedes _ _ _ _ E). rewrite a_see_lookup.
    assert (changed = true ∨ e_Seen e = true) as Hs.
    { rewrite Hch. cbn. destruct (e_Seen e); [by right|]. left. by apply bool_decide_eq_true. }
    destruct (decide (fp' = fp)) as [->|Hne].
    + rewrite E. cbn. split.
      * intros (x & [= <-] & [Hx|[_ Hl]]); [left; by exists e|].
        change (later e (with_seen e)) with (later e e) in Hl. by rewrite later_irrefl in Hl.
      * intros [(x & [= ->] & Hx)|(_ & e1 & e2 & [= ->] & [= ->] & _ & Hl)]; [|by rewrite later_irrefl in Hl].
        exists (with_seen x). split; [done|]. by left.
    + split.
      * intros (x & Hx & [Hsx|[Hd Hl]]); [left; eauto|].
        destruct Hs as [Hs|Hs]; [right|left]; [by split; [done|]; exists e, x|].
        exists x. split; [done|]. exists fp, e. done.
      * intros [(x & Hx & Hsx)|(_ & e1 & x & [= <-] & Hx & Hd & Hl)]; exists x; (split; [done|]); auto.
Qed.

(** ** A concrete ledger: two certificates of one machine, both presented *)

Definition demo_stored (t : time) : time := t - t `mod` 1000.
Definition demo_leaf (raw : bytes) (nb : time) : Certificate :=
  mk_cert raw (lit "CN=machine-1") (lit "machine-1") (lit "7") nb (nb + 1000000) (lit "key").
Definition demo_cmds : list cmd := [
  CRecord true (demo_leaf (lit "old") 1000) (lit "issuer") SourceEnroll 1500; CWork 0 None;
  CSee (lit "old") 2000; CWork 0 None;
  CRecord true (demo_leaf (lit "new") 5000) (lit "issuer") SourceRenew 5500; CWork 0 None;
  CSee (lit "new") 6000].
Definition demo_later : list cmd := [CPrune 9000000 100; CWork 1 None; CWork 0 None].
Definition demo_run (cs : list cmd) : system :=
  run_cmds (λ b, b) Some demo_stored empty_system cs.

Lemma demo_stored_idem t : demo_stored (demo_stored t) = demo_stored t.
Proof. unfold demo_stored. Z.to_euclidean_division_equations. lia. Qed.

Lemma demo_ok : ledger_ok demo_stored [lit "old"; lit "new"] (demo_run demo_cmds).
Proof.
  apply (run_ok (λ b, b) Some demo_stored demo_stored_idem [] empty_system demo_cmds); [apply empty_ok|].
  apply (bool_decide_unpack _). by vm_compute.
Qed.

Lemma index_follows_table_witness :
  index_ok (y_store (demo_run demo_cmds)) ∧
  e_Seen <$> Lookup (y_store (demo_run demo_cmds)) (lit "old") = Some true.
Proof.
  split; [|by vm_compute].
  apply (index_follows_table (λ b, b) Some demo_stored demo_stored_idem demo_cmds).
  apply (bool_decide_unpack _). by vm_compute.
Defined.

Lemma superseded_for_good_witness :
  Superseded (y_store (demo_run demo_cmds)) (lit "old") = true ∧
  (Superseded (y_store (demo_run (demo_cmds ++ demo_later))) (lit "old") = true ∨
   Lookup (y_store (demo_run (demo_cmds ++ demo_later))) (lit "old") = None).
Proof.
  assert (Superseded (y_store (demo_run demo_cmds)) (lit "old") = true) as H by (by vm_compute).
  split; [done|].
  apply (superseded_for_good (λ b, b) Some demo_stored demo_stored_idem demo_cmds demo_later (lit "old"));
    [apply (bool_decide_unpack _); by vm_compute| |exact H].
  repeat constructor; done.
Defined.

Lemma prune_exact_witness :
  let y := demo_run demo_cmds in
  let '(_, d', s') := Prune None 9000000 100 (y_db y) (y_store y) in
  index_ok s' ∧ Lookup s' (lit "old") = None ∧ t_certificates d' !! lit "old" = None.
Proof.
  set (y := demo_run demo_cmds). cbv zeta.
  assert (is_ok (Prune None 9000000 100 (y_db y) (y_store y)).1.1 = true) as Hres by (by vm_compute).
  destruct (Prune None 9000000 100 (y_db y) (y_store y)) as [[res d'] s'] eqn:E.
  destruct res as [n|]; [|discriminate Hres].
  destruct (prune_exact _ _ _ _ _ _ _ (lk_index _ _ _ demo_ok : index_ok (y_store y)) E) as (Hok & Hl & _).
  assert (match Lookup (y_store y) (lit "old") with Some e => bool_decide (e_NotAfter e < 9000000 - 100) | None => false end &&
    Superseded (y_store y) (lit "old") = true) as Hg by (by vm_compute).
  destruct (Lookup (y_store y) (lit "old")) as [e|] eqn:El; [|discriminate Hg].
  specialize (Hl _ _ El). cbv zeta in Hl.
  rewrite Hg in Hl. destruct Hl as (H1 & H2 & _). exact (conj Hok (conj H1 H2)).
Defined.

Lemma sighting_exact_witness :
  let s := y_store (demo_run (take 6 demo_cmds)) in
  let '((prints, changed), s') := see s (lit "new") in
  prints = [lit "old"] ∧ changed = true ∧ Superseded s' (lit "old") = true.
Proof.
  intros s. assert (bool_decide ((see s (lit "new")).1.1 = [lit "old"]) = true) as Hp by (by vm_compute).
  destruct (see s (lit "new")) as [[prints changed] s'] eqn:E.
  assert (index_ok s) as Hok.
  { apply (lk_index demo_stored [lit "old"; lit "new"]).
    apply (run_ok (λ b, b) Some demo_stored demo_stored_idem [] empty_system (take 6 demo_cmds)); [apply empty_ok|].
    apply (bool_decide_unpack _). by vm_compute. }
  destruct (sighting_exact s (lit "new") prints changed s' Hok E) as (_ & _ & Hch & Hs).
  assert (prints = [lit "old"]) as -> by exact (bool_decide_eq_true_1 _ Hp).
  split_and!; [done| |].
  - rewrite Hch. by vm_compute.
  - rewrite Hs. by rewrite (bool_decide_true (lit "old" ∈ [lit "old"])), orb_true_r by (by left).
Defined.
