(* ===== verification/Admission.v ===== *)
(** * Admitting a machine

    [src/server/internal/cert/trust.go], [cert.go] and [classify.go]: the master
    keys a server trusts and how far a presented certificate admits its machine;
    [agentapi/handshaker.go]: the binary handshake; [agentapi/admission.go] and
    the decisions of [server_connection.go]'s [accept]: removed, refused,
    restricted or served.

    Verification and parsing of X.509, the hashes and [uuid.Parse] are
    parameters. *)
From S2P Require Import Prelude Io Codec GoTime Settings Dbtx Ledger.

(** ** The trust set *)

Inductive Role := RoleIssuer | RoleAccepted | RoleRenewOnly | RoleVouchedOnly.

#[global] Instance Role_eq_dec : EqDecision Role.
Proof. solve_decision. Defined.

Record Authority := mk_authority {
  au_Cert : Certificate;
  au_Role : Role;
  au_Hash : bytes;
}.

Record TrustSet := mk_trust {
  ts_issuer : Certificate;
  ts_accepted : list Certificate;
  ts_renewOnly : list Certificate;
  ts_vouchedOnly : list Certificate;
}.

Inductive Standing := StandingFull | StandingRenewOnly | StandingNeedsVoucher | StandingTooOld.

#[global] Instance Standing_eq_dec : EqDecision Standing.
Proof. solve_decision. Defined.

Record Classification := mk_class {
  cl_DeviceID : uuid;
  cl_Leaf : Certificate;
  cl_Authority : Authority;
  cl_Standing : Standing;
  cl_Expired : bool;
}.

(** The manager's trust and clock settings. *)
Record Manager := mk_manager {
  m_issuer : Certificate;
  m_authorities : list Authority;
  m_compromisedSince : time;
  m_expiredGrace : duration;
}.

Definition DefaultExpiredGrace : duration := 90 * 24 * hour.
Definition clockSkewMargin : duration := 5 * minute.

Inductive cert_err := ErrUnacceptable.
Inductive trust_err := TwoRoles (h : bytes) | ChainNotIssuer | ChainUntrusted | NoCompromiseDate.

(** The refusals of [AgentServer.admit]. *)
Inductive refusal :=
  | Unacceptable | TooOld | NoLedger | NotOnLedger | SupersededCert | Unvouched.

#[global] Instance refusal_eq_dec : EqDecision refusal.
Proof. solve_decision. Defined.

Record admission := mk_admission {
  ad_class : option Classification;   (* the zero value is [None] *)
  ad_fp : Fingerprint;
  ad_refusal : option refusal;
}.

Inductive hs_err :=
  | HsRead (e : io_err)
  | HsWrite (e : io_err)
  | HsNonce
  | ErrHandshakeFailed.

Record HandshakeResult := mk_hs {
  hr_DeviceID : uuid;
  hr_AgentCertDER : bytes;
  hr_Skipped : bool;
}.

Section admission.
Context (sha256 sha384 : bytes → bytes) (uuid_Parse : bytes → option uuid).
(** [x509.ParseCertificate], [Certificate.CheckSignatureFrom], and the chain
    [Certificate.Verify] returns for client use at a time against these roots
    ([None]: an error, or no chain). *)
Context (ParseCertificate : bytes → option Certificate).
Context (CheckSignatureFrom : Certificate → Certificate → bool).
Context (Verify : Certificate → list Certificate → time → option (list Certificate)).

Definition authority (c : Certificate) (role : Role) : Authority := mk_authority c role (sha384 (crt_Raw c)).

Definition authorities (s : TrustSet) : list Authority :=
  authority (ts_issuer s) RoleIssuer ::
  ((λ c, authority c RoleAccepted) <$> ts_accepted s) ++
  ((λ c, authority c RoleRenewOnly) <$> ts_renewOnly s) ++
  ((λ c, authority c RoleVouchedOnly) <$> ts_vouchedOnly s).

(** The loop over [seen]: the first hash met twice. *)
Fixpoint two_roles (seen : gset bytes) (l : list Authority) : option bytes :=
  match l with
  | [] => None
  | a :: l => if bool_decide (au_Hash a ∈ seen) then Some (au_Hash a) else two_roles ({[au_Hash a]} ∪ seen) l
  end.

Definition signedByTrusted (s : TrustSet) (c : Certificate) : bool :=
  existsb (λ a, negb (bool_decide (au_Role a = RoleIssuer)) && CheckSignatureFrom c (au_Cert a)) (authorities s).

Fixpoint validate_chain (s : TrustSet) (chain : list Certificate) : result trust_err unit :=
  match chain with
  | [] => Ok tt
  | c :: chain =>
      if negb (bool_decide (crt_RawSubject c = crt_RawSubject (ts_issuer s)) &&
               bool_decide (crt_RawSubjectPublicKeyInfo c = crt_RawSubjectPublicKeyInfo (ts_issuer s)))
      then Err ChainNotIssuer
      else if negb (signedByTrusted s c) then Err ChainUntrusted
      else validate_chain s chain
  end.

(** [TrustSet.validate] *)
Definition validate_trust (s : TrustSet) (chain : list Certificate) : result trust_err unit :=
  match two_roles ∅ (authorities s) with
  | Some h => Err (TwoRoles h)
  | None => validate_chain s chain
  end.

(** [NewManager], after the files are read. *)
Definition NewManager (s : TrustSet) (chain : list Certificate) (compromisedSince : time) (grace : duration) :
    result trust_err Manager :=
  _ ← validate_trust s chain;
  if negb (bool_decide (ts_vouchedOnly s = [])) && bool_decide (compromisedSince = zero_time)
  then Err NoCompromiseDate
  else Ok (mk_manager (ts_issuer s) (authorities s) compromisedSince grace).

Definition IssuerHash (m : Manager) : bytes := sha384 (crt_Raw (m_issuer m)).
Definition TrustedHashes (m : Manager) : list bytes := au_Hash <$> m_authorities m.
Definition pool (m : Manager) : list Certificate := au_Cert <$> m_authorities m.

Definition InChangeover (m : Manager) : bool :=
  existsb (λ a, negb (bool_decide (au_Role a = RoleIssuer))) (m_authorities m).

(** ** Classification *)

(** The time inside the leaf's validity it is verified at. *)
Definition verification_time (leaf : Certificate) : time :=
  let at_ := crt_NotBefore leaf + clockSkewMargin in
  if bool_decide (crt_NotAfter leaf < at_) then crt_NotAfter leaf else at_.

Definition verifyAtIssuance (m : Manager) (leaf : Certificate) : result cert_err Authority :=
  match Verify leaf (pool m) (verification_time leaf) with
  | None => Err ErrUnacceptable
  | Some chain =>
      match last chain with
      | None => Err ErrUnacceptable
      | Some root =>
          if bool_decide (length chain < 2)%nat then Err ErrUnacceptable
          else match List.find (λ a, bool_decide (crt_Raw (au_Cert a) = crt_Raw root)) (m_authorities m) with
               | Some a => Ok a
               | None => Err ErrUnacceptable
               end
      end
  end.

(** The earlier of the leaf's expiry and its signer's. *)
Definition expiry_of (leaf : Certificate) (signer : Authority) : time :=
  if bool_decide (crt_NotAfter (au_Cert signer) < crt_NotAfter leaf)
  then crt_NotAfter (au_Cert signer) else crt_NotAfter leaf.

Definition Classify (m : Manager) (now : time) (peer : list Certificate) : result cert_err Classification :=
  match peer with
  | [] => Err ErrUnacceptable
  | leaf :: _ =>
      match uuid_Parse (crt_CommonName leaf) with
      | None => Err ErrUnacceptable
      | Some deviceID =>
          if bool_decide (now < crt_NotBefore leaf) then Err ErrUnacceptable
          else
            signer ← verifyAtIssuance m leaf;
            let expiry := expiry_of leaf signer in
            let expired := bool_decide (expiry < now) in
            Ok (mk_class deviceID leaf signer
                  (if expired && bool_decide (m_expiredGrace m < time_sub now expiry) then StandingTooOld
                   else if bool_decide (au_Role signer = RoleVouchedOnly) then StandingNeedsVoucher
                   else if expired || bool_decide (au_Role signer = RoleRenewOnly) then StandingRenewOnly
                   else StandingFull)
                  expired)
      end
  end.

Definition ExpiredFor (c : Classification) (now : time) : duration :=
  time_sub now (expiry_of (cl_Leaf c) (cl_Authority c)).

(** ** The handshake *)

Definition identityFromPeer (peerCerts : list bytes) : result hs_err (uuid * bytes) :=
  match peerCerts with
  | [] => Err ErrHandshakeFailed
  | der :: _ =>
      match ParseCertificate der with
      | None => Err ErrHandshakeFailed
      | Some c =>
          match uuid_Parse (crt_CommonName c) with
          | None => Err ErrHandshakeFailed
          | Some id => Ok (id, der)
          end
      end
  end.

(** [io.ReadFull] on the stream. *)
Definition hs_read (c : netconn) (n : nat) : result hs_err (bytes * netconn) :=
  match read_full (nc_in c) n with
  | Ok (b, r) => Ok (b, set_in c r)
  | Err e => Err (HsRead e)
  end.

(** [nonce] is what the randomness source fills, [None] when it fails. *)
Definition writeServerHello (nonce : option bytes) (caCertHash : bytes) (c : netconn) :
    result hs_err unit * netconn :=
  match nonce with
  | None => (Err HsNonce, c)
  | Some nonce =>
      match net_write c (EncodeServerHello nonce caCertHash) with
      | (c, None) => (Ok tt, c)
      | (c, Some e) => (Err (HsWrite e), c)
      end
  end.

Definition fullHandshake (m : Manager) (nonce : option bytes) (peerCerts : list bytes) (c : netconn) :
    result hs_err HandshakeResult * netconn :=
  match hs_read c 80 with
  | Err e => (Err e, c)
  | Ok (body, c) =>
      let agentCertHash := take 48 (drop 32 body) in
      match identityFromPeer peerCerts with
      | Err e => (Err e, c)
      | Ok (id, der) =>
          if bool_decide (agentCertHash ≠ sha384 der) then (Err ErrHandshakeFailed, c)
          else match writeServerHello nonce (IssuerHash m) c with
               | (Err e, c) => (Err e, c)
               | (Ok _, c) => (Ok (mk_hs id der false), c)
               end
      end
  end.

Definition fastHandshake (m : Manager) (peerCerts : list bytes) (c : netconn) :
    result hs_err HandshakeResult * netconn :=
  match hs_read c 48 with
  | Err e => (Err e, c)
  | Ok (cachedHash, c) =>
      if negb (bool_decide (cachedHash ∈ TrustedHashes m)) then (Err ErrHandshakeFailed, c)
      else match identityFromPeer peerCerts with
           | Err e => (Err e, c)
           | Ok (id, der) => (Ok (mk_hs id der true), c)
           end
  end.

Definition PerformHandshake (m : Manager) (nonce : option bytes) (peerCerts : list bytes) (c : netconn) :
    result hs_err HandshakeResult * netconn :=
  match hs_read c 1 with
  | Err e => (Err e, c)
  | Ok (t, c) =>
      if bool_decide (t = [MsgAgentHello]) then fullHandshake m nonce peerCerts c
      else if bool_decide (t = [MsgSkipAuth]) then fastHandshake m peerCerts c
      else (Err ErrHandshakeFailed, c)
  end.

(** ** Admission *)

Definition restricted (a : admission) : bool :=
  match ad_class a with
  | Some c => negb (bool_decide (cl_Standing c = StandingFull))
  | None => false      (* the zero standing is [StandingFull] *)
  end.

Definition zero_fp : Fingerprint := replicate 32 x00.

(** [ledger] is [None] when the server has no issuer. *)
Definition admit_ (m : Manager) (ledger : option Store) (now : time) (peer : list Certificate) : admission :=
  match Classify m now peer with
  | Err _ => mk_admission None zero_fp (Some Unacceptable)
  | Ok class =>
      let fp := FingerprintOf sha256 (crt_Raw (cl_Leaf class)) in
      let refuse r := mk_admission (Some class) fp (Some r) in
      if bool_decide (cl_Standing class = StandingTooOld) then refuse TooOld
      else match ledger with
           | None => refuse NoLedger
           | Some s =>
               match Lookup s fp with
               | None => refuse NotOnLedger
               | Some entry =>
                   if Superseded s fp then refuse SupersededCert
                   else if bool_decide (cl_Standing class = StandingNeedsVoucher) &&
                           negb (bool_decide (e_IssuedAt entry < m_compromisedSince m))
                   then refuse Unvouched
                   else mk_admission (Some class) fp None
               end
           end
  end.

(** What [accept] does with a connection once the handshake named its device. *)
Inductive decision :=
  | SendRemovalOrder
  | RefuseCertificate (r : refusal)
  | ServeRestricted
  | ServeFull.

Definition accept_decision (m : Manager) (ledger : option Store) (tombstones : gset uuid) (now : time)
    (deviceID : uuid) (peer : list Certificate) : decision :=
  if bool_decide (deviceID ∈ tombstones) then SendRemovalOrder
  else
    let verdict := admit_ m ledger now peer in
    match ad_refusal verdict with
    | Some r => RefuseCertificate r
    | None => if restricted verdict then ServeRestricted else ServeFull
    end.
End admission.

(** ** What classification and admission decide *)

Section facts.
Context (sha256 sha384 : bytes → bytes) (uuid_Parse : bytes → option uuid).
Context (ParseCertificate : bytes → option Certificate).
Context (CheckSignatureFrom : Certificate → Certificate → bool).
Context (Verify : Certificate → list Certificate → time → option (list Certificate)).

Local Abbreviation Classify := (Classify uuid_Parse Verify).
Local Abbreviation admit_ := (admit_ sha256 uuid_Parse Verify).
Local Abbreviation accept_decision := (accept_decision sha256 uuid_Parse Verify).
Local Abbreviation PerformHandshake := (PerformHandshake sha384 uuid_Parse ParseCertificate).

(** The leaf chains to a key of the trust set at its own issuance. *)
Definition signed_by (m : Manager) (leaf : Certificate) (signer : Authority) : Prop :=
  signer ∈ m_authorities m ∧
  ∃ chain root, Verify leaf (pool m) (verification_time leaf) = Some chain ∧
    last chain = Some root ∧ (2 ≤ length chain)%nat ∧ crt_Raw (au_Cert signer) = crt_Raw root.

Lemma verifyAtIssuance_Ok m leaf a : verifyAtIssuance Verify m leaf = Ok a → signed_by m leaf a.
Proof.
  unfold verifyAtIssuance. destruct (Verify leaf (pool m) _) as [chain|] eqn:Hv; [|done].
  destruct (last chain) as [root|] eqn:Hl; [|done]. case_bool_decide; [done|].
  destruct (List.find _ _) as [a'|] eqn:Hf; [|done]. intros [= <-].
  apply find_some in Hf as [Hin Hraw]. apply bool_decide_eq_true in Hraw. split; [by apply list_elem_of_In|].
  exists chain, root. split_and!; auto; lia.
Qed.

Lemma Classify_Ok m now peer c :
  Classify m now peer = Ok c ↔
  ∃ leaf rest id signer, peer = leaf :: rest ∧ uuid_Parse (crt_CommonName leaf) = Some id ∧
    crt_NotBefore leaf ≤ now ∧ verifyAtIssuance Verify m leaf = Ok signer ∧
    let expiry := expiry_of leaf signer in
    let expired := bool_decide (expiry < now) in
    c = mk_class id leaf signer
          (if expired && bool_decide (m_expiredGrace m < time_sub now expiry) then StandingTooOld
           else if bool_decide (au_Role signer = RoleVouchedOnly) then StandingNeedsVoucher
           else if expired || bool_decide (au_Role signer = RoleRenewOnly) then StandingRenewOnly
           else StandingFull) expired.
Proof.
  unfold Admission.Classify. split.
  - destruct peer as [|leaf rest]; [done|]. destruct (uuid_Parse _) as [id|] eqn:Hid; [|done].
    case_bool_decide as Hnb; [done|]. intros (signer & Hs & [= <-])%bind_Ok.
    exists leaf, rest, id, signer. split_and!; auto; lia.
  - intros (leaf & rest & id & signer & -> & -> & Hnb & Hs & ->). rewrite bool_decide_false by lia.
    rewrite Hs. done.
Qed.

(** How far a standing admits: larger admits less. *)
Definition standing_rank (s : Standing) : Z :=
  match s with StandingFull => 0 | StandingRenewOnly => 1 | StandingNeedsVoucher => 1 | StandingTooOld => 2 end.

Lemma admit_None m s now peer a :
  admit_ m s now peer = a → ad_refusal a = None →
  ∃ c st e, Classify m now peer = Ok c ∧ s = Some st ∧ ad_class a = Some c ∧
    ad_fp a = FingerprintOf sha256 (crt_Raw (cl_Leaf c)) ∧ cl_Standing c ≠ StandingTooOld ∧
    Lookup st (ad_fp a) = Some e ∧ Superseded st (ad_fp a) = false ∧
    (cl_Standing c = StandingNeedsVoucher → e_IssuedAt e < m_compromisedSince m).
Proof.
  unfold Admission.admit_. destruct (Classify m now peer) as [c|] eqn:Hc; [|by intros <-].
  case_bool_decide as Ht; [by intros <-|]. destruct s as [st|]; [|by intros <-].
  destruct (Lookup st _) as [e|] eqn:Hl; [|by intros <-]. destruct (Superseded st _) eqn:Hs; [by intros <-|].
  destruct (bool_decide (cl_Standing c = StandingNeedsVoucher) && _) eqn:Hv; [by intros <-|].
  intros <- _. exists c, st, e. split_and!; auto. intros Hn. rewrite (bool_decide_true _ Hn) in Hv. cbn [andb] in Hv.
  rewrite negb_false_iff, bool_decide_eq_true in Hv. done.
Qed.
(** On the ledger, and not superseded there. *)
Definition on_ledger (ledger : option Store) (leaf : Certificate) (e : Entry) : Prop :=
  ∃ st, ledger = Some st ∧ Lookup st (FingerprintOf sha256 (crt_Raw leaf)) = Some e ∧
    Superseded st (FingerprintOf sha256 (crt_Raw leaf)) = false.

(** A leaf that classifies, its signer and the time it runs out. *)
Definition presented (m : Manager) (now : time) (peer : list Certificate) (leaf : Certificate)
    (signer : Authority) : Prop :=
  head peer = Some leaf ∧ is_Some (uuid_Parse (crt_CommonName leaf)) ∧ crt_NotBefore leaf ≤ now ∧
  verifyAtIssuance Verify m leaf = Ok signer.

Lemma presented_Classify m now peer leaf signer :
  presented m now peer leaf signer → ∃ c, Classify m now peer = Ok c ∧ cl_Leaf c = leaf ∧ cl_Authority c = signer.
Proof.
  intros (Hp & [id Hid] & Hnb & Hs). destruct peer as [|l rest]; [done|]. injection Hp as ->.
  eexists. split; [apply Classify_Ok; exists leaf, rest, id, signer; split_and!; done|]. done.
Qed.

Lemma Classify_presented m now peer c :
  Classify m now peer = Ok c → presented m now peer (cl_Leaf c) (cl_Authority c).
Proof. intros (leaf & rest & id & signer & -> & Hid & Hnb & Hs & ->)%Classify_Ok. split_and!; eauto. Qed.

Lemma Classify_standing m now peer c :
  Classify m now peer = Ok c →
  let expiry := expiry_of (cl_Leaf c) (cl_Authority c) in
  let role := au_Role (cl_Authority c) in
  let late := expiry < now ∧ m_expiredGrace m < time_sub now expiry in
  match cl_Standing c with
  | StandingTooOld => late
  | StandingNeedsVoucher => ¬ late ∧ role = RoleVouchedOnly
  | StandingRenewOnly => ¬ late ∧ role ≠ RoleVouchedOnly ∧ (expiry < now ∨ role = RoleRenewOnly)
  | StandingFull => now ≤ expiry ∧ (role = RoleIssuer ∨ role = RoleAccepted)
  end.
Proof.
  intros (leaf & rest & id & signer & -> & _ & _ & _ & ->)%Classify_Ok. cbn.
  repeat case_bool_decide; cbn; try (split_and!; (lia || tauto || done)).
  all: try (split; [lia|]); try (destruct (au_Role signer); naive_solver).
Qed.

Lemma accept_open m ledger tombs now id peer :
  (id ∉ tombs) →
  accept_decision m ledger tombs now id peer =
  match ad_refusal (admit_ m ledger now peer) with
  | Some r => RefuseCertificate r
  | None => if restricted (admit_ m ledger now peer) then ServeRestricted else ServeFull
  end.
Proof. intros H. unfold Admission.accept_decision. by rewrite bool_decide_false. Qed.

(** What was admitted: the certificate, its ledger entry and its voucher. *)
Lemma admitted_cases m ledger tombs now id peer :
  accept_decision m ledger tombs now id peer ∈ [ServeFull; ServeRestricted] →
  (id ∉ tombs) ∧ ∃ c e, Classify m now peer = Ok c ∧ on_ledger ledger (cl_Leaf c) e ∧
    cl_Standing c ≠ StandingTooOld ∧
    (cl_Standing c = StandingNeedsVoucher → e_IssuedAt e < m_compromisedSince m) ∧
    accept_decision m ledger tombs now id peer =
      if bool_decide (cl_Standing c = StandingFull) then ServeFull else ServeRestricted.
Proof.
  intros Hin. destruct (decide (id ∈ tombs)) as [Ht|Ht].
  { unfold Admission.accept_decision in Hin. rewrite bool_decide_true in Hin by done. set_solver. }
  split; [done|]. rewrite accept_open in Hin |- * by done.
  destruct (ad_refusal (admit_ m ledger now peer)) as [r|] eqn:Hr; [set_solver|].
  destruct (admit_None m ledger now peer _ eq_refl Hr) as (c & st & e & Hc & -> & Hcl & Hfp & Hto & Hl & Hs & Hv).
  exists c, e. split_and!; auto.
  - exists st. rewrite <-Hfp. done.
  - unfold restricted. rewrite Hcl. by case_bool_decide.
Qed.

Lemma admitted_intro m ledger tombs now id peer c e :
  (id ∉ tombs) → Classify m now peer = Ok c → on_ledger ledger (cl_Leaf c) e →
  cl_Standing c ≠ StandingTooOld →
  (cl_Standing c = StandingNeedsVoucher → e_IssuedAt e < m_compromisedSince m) →
  accept_decision m ledger tombs now id peer =
    if bool_decide (cl_Standing c = StandingFull) then ServeFull else ServeRestricted.
Proof.
  intros Ht Hc (st & -> & Hl & Hs) Hto Hv. rewrite accept_open by done.
  unfold Admission.admit_. rewrite Hc. rewrite bool_decide_false by done. rewrite Hl, Hs.
  assert (bool_decide (cl_Standing c = StandingNeedsVoucher) &&
          negb (bool_decide (e_IssuedAt e < m_compromisedSince m)) = false) as ->.
  { case_bool_decide; [|done]. by rewrite bool_decide_true by auto. }
  cbn [ad_refusal]. unfold restricted; cbn [ad_class]. by case_bool_decide.
Qed.

(** ** Claims *)

(** C20: A machine is served in full exactly when it is not deleted and the
    certificate it presents is current: signed by the issuing key or an accepted
    one, valid at the server's clock as far as both it and its signer run,
    recorded on the ledger and not superseded there.  It is served only to renew
    exactly when its certificate is on the ledger all the same and within the
    grace, but has run out or was signed by a retiring key; under a compromised
    key only if the ledger recorded it before the compromise.  Nothing else gets
    past the handshake. *)
Theorem admission_exact m ledger tombs now id peer :
  (accept_decision m ledger tombs now id peer = ServeFull ↔
   (id ∉ tombs) ∧ ∃ leaf signer e, presented m now peer leaf signer ∧ on_ledger ledger leaf e ∧
     now ≤ expiry_of leaf signer ∧ (au_Role signer = RoleIssuer ∨ au_Role signer = RoleAccepted)) ∧
  (accept_decision m ledger tombs now id peer = ServeRestricted ↔
   (id ∉ tombs) ∧ ∃ leaf signer e, presented m now peer leaf signer ∧ on_ledger ledger leaf e ∧
     ¬ (expiry_of leaf signer < now ∧ m_expiredGrace m < time_sub now (expiry_of leaf signer)) ∧
     (expiry_of leaf signer < now ∨ au_Role signer = RoleRenewOnly ∨ au_Role signer = RoleVouchedOnly) ∧
     (au_Role signer = RoleVouchedOnly → e_IssuedAt e < m_compromisedSince m)).
Proof.
  split; split.
  - intros HF. destruct (admitted_cases m ledger tombs now id peer) as (Ht & c & e & Hc & Hl & _ & _ & Hd); [set_solver|].
    split; [done|]. exists (cl_Leaf c), (cl_Authority c), e.
    pose proof (Classify_standing _ _ _ _ Hc) as Hs. rewrite HF in Hd. case_bool_decide as HS; [|done].
    rewrite HS in Hs. split_and!; try apply Hs; [by apply Classify_presented|done].
  - intros (Ht & leaf & signer & e & Hp & Hl & Hexp & Hrole).
    destruct (presented_Classify _ _ _ _ _ Hp) as (c & Hc & <- & <-).
    pose proof (Classify_standing _ _ _ _ Hc) as Hs. cbn zeta in Hs.
    assert (cl_Standing c = StandingFull) as HF.
    { destruct (cl_Standing c); [done| | |]; exfalso; intuition (lia || congruence). }
    rewrite (admitted_intro m ledger tombs now id peer c e) by (done || by rewrite HF).
    by rewrite bool_decide_true.
  - intros HR. destruct (admitted_cases m ledger tombs now id peer) as (Ht & c & e & Hc & Hl & Hto & Hv & Hd); [set_solver|].
    split; [done|]. exists (cl_Leaf c), (cl_Authority c), e.
    pose proof (Classify_standing _ _ _ _ Hc) as Hs. rewrite HR in Hd. case_bool_decide as HS; [done|].
    split_and!; [by apply Classify_presented|done|..]; destruct (cl_Standing c); naive_solver.
  - intros (Ht & leaf & signer & e & Hp & Hl & Hlate & Hwhy & Hv).
    destruct (presented_Classify _ _ _ _ _ Hp) as (c & Hc & <- & <-).
    pose proof (Classify_standing _ _ _ _ Hc) as Hs. cbn zeta in Hs.
    rewrite (admitted_intro m ledger tombs now id peer c e); auto.
    + rewrite bool_decide_false; [done|]. intros HF. rewrite HF in Hs. destruct Hs as [? Hr].
      destruct Hwhy as [?|[Hw|Hw]]; [lia|rewrite Hw in Hr; naive_solver..].
    + intros HF. rewrite HF in Hs. done.
    + intros HF. rewrite HF in Hs. apply Hv. apply Hs.
Qed.

(** A certificate's standing only worsens: a certificate that classifies goes on
    classifying to the same machine and signer as time passes, and what it
    admits never grows back. *)
Theorem standing_only_worsens m now now' peer c :
  Classify m now peer = Ok c → now ≤ now' →
  ∃ c', Classify m now' peer = Ok c' ∧ cl_DeviceID c' = cl_DeviceID c ∧
    cl_Authority c' = cl_Authority c ∧ standing_rank (cl_Standing c) ≤ standing_rank (cl_Standing c') ∧
    (cl_Standing c = StandingTooOld → cl_Standing c' = StandingTooOld) ∧
    (cl_Standing c = StandingNeedsVoucher →
       cl_Standing c' = StandingNeedsVoucher ∨ cl_Standing c' = StandingTooOld).
Proof.
  intros (leaf & rest & id & signer & -> & Hid & Hnb & Hs & Hc)%Classify_Ok Hle.
  eexists. split; [apply Classify_Ok; exists leaf, rest, id, signer; split_and!; [done|done|lia|done|reflexivity]|].
  pose proof (time_sub_mono now now' (expiry_of leaf signer) Hle).
  cbv zeta in Hc. subst c. cbn -[time_sub].
  repeat case_bool_decide; cbn; split_and!; intros; try done; try lia; auto.
Qed.
(** ** The handshake, read off the stream *)

Lemma hs_read_Ok c n b c' :
  hs_read c n = Ok (b, c') ↔
  rd_bytes (nc_in c) = b ++ rd_bytes (nc_in c') ∧ length b = n ∧
  rd_end (nc_in c') = rd_end (nc_in c) ∧ c' = set_in c (nc_in c').
Proof.
  unfold hs_read. destruct (read_full (nc_in c) n) as [[b0 r]|e] eqn:E.
  - apply read_full_Ok in E as (Hb & Hn & He). split.
    + intros [= <- <-]. cbn. done.
    + intros (Hb' & Hn' & He' & ->). cbn in *. rewrite Hb in Hb'.
      apply app_inj_1 in Hb' as [-> Hr]; [|congruence]. destruct r, (nc_in c'); cbn in *; congruence.
  - split; [done|]. intros (Hb & Hn & _). apply read_full_short in E. rewrite Hb, length_app in E. lia.
Qed.

Lemma set_in_sound c r : sound_conn c → sound_conn (set_in c r).
Proof. done. Qed.

Lemma fast_Ok m peers c r c' :
  fastHandshake uuid_Parse ParseCertificate m peers c = (Ok r, c') →
  hr_Skipped r = true ∧ nc_sent c' = nc_sent c ∧
  identityFromPeer uuid_Parse ParseCertificate peers = Ok (hr_DeviceID r, hr_AgentCertDER r) ∧
  ∃ h, rd_bytes (nc_in c) = h ++ rd_bytes (nc_in c') ∧ length h = 48%nat ∧ h ∈ TrustedHashes m.
Proof.
  unfold fastHandshake. destruct (hs_read c 48) as [[h c1]|e] eqn:E; [|done].
  apply hs_read_Ok in E as (Hb & Hn & _ & Hc1). case_bool_decide as Hh; cbn [negb]; [|done].
  destruct (identityFromPeer _ _ peers) as [[id der]|e]; [|done]. intros [= <- <-]. split_and!; auto.
  - by rewrite Hc1.
  - eauto.
Qed.

Lemma full_Ok m nonce peers c r c' :
  fullHandshake sha384 uuid_Parse ParseCertificate m nonce peers c = (Ok r, c') →
  hr_Skipped r = false ∧
  identityFromPeer uuid_Parse ParseCertificate peers = Ok (hr_DeviceID r, hr_AgentCertDER r) ∧
  (∃ n, nonce = Some n ∧
     nc_sent c' = nc_sent c ++ EncodeServerHello n (IssuerHash sha384 m)) ∧
  ∃ n h, rd_bytes (nc_in c) = n ++ h ++ rd_bytes (nc_in c') ∧ length n = 32%nat ∧ length h = 48%nat ∧
    h = sha384 (hr_AgentCertDER r).
Proof.
  unfold fullHandshake. destruct (hs_read c 80) as [[body c1]|e] eqn:E; [|done].
  apply hs_read_Ok in E as (Hb & Hn & _ & Hc1).
  destruct (identityFromPeer _ _ peers) as [[id der]|e]; [|done]. case_bool_decide as Hh; [done|].
  unfold writeServerHello. destruct nonce as [n|]; [|done].
  destruct (net_write c1 _) as [c2 [e|]] eqn:Hw; [done|]. intros [= <- <-]. cbn [hr_Skipped hr_DeviceID hr_AgentCertDER].
  unfold net_write in Hw. destruct (nc_fault c1 (nc_writes c1)) as [[k e]|]; [done|]. injection Hw as <-.
  split_and!; auto.
  - exists n. split; [done|]. cbn. by rewrite Hc1.
  - exists (take 32 body), (take 48 (drop 32 body)). cbn [nc_in]. split_and!.
    + rewrite Hb. rewrite (take_ge (drop 32 body)) by (rewrite length_drop; lia).
      by rewrite app_assoc, take_drop.
    + rewrite length_take. lia.
    + rewrite length_take, length_drop. lia.
    + destruct (decide (take 48 (drop 32 body) = sha384 der)); [done|]. by destruct Hh.
Qed.

(** The handshake names the machine by its TLS certificate and nothing else:
    when it succeeds, the device is the one the first peer certificate is issued
    to.  The full path bound that certificate's hash and answered with the
    issuer's; the fast path consumed a hash of a trusted master key and sent
    nothing. *)
Theorem handshake_identity m nonce peers c r c' :
  PerformHandshake m nonce peers c = (Ok r, c') →
  (∃ rest, peers = hr_AgentCertDER r :: rest) ∧
  (∃ crt, ParseCertificate (hr_AgentCertDER r) = Some crt ∧ uuid_Parse (crt_CommonName crt) = Some (hr_DeviceID r)) ∧
  if hr_Skipped r
  then nc_sent c' = nc_sent c ∧
       ∃ h, rd_bytes (nc_in c) = MsgSkipAuth :: h ++ rd_bytes (nc_in c') ∧ length h = 48%nat ∧ h ∈ TrustedHashes m
  else (∃ n, nonce = Some n ∧ nc_sent c' = nc_sent c ++ EncodeServerHello n (IssuerHash sha384 m)) ∧
       ∃ n, rd_bytes (nc_in c) = MsgAgentHello :: n ++ sha384 (hr_AgentCertDER r) ++ rd_bytes (nc_in c') ∧
         length n = 32%nat.
Proof.
  intros H.
  assert (identityFromPeer uuid_Parse ParseCertificate peers = Ok (hr_DeviceID r, hr_AgentCertDER r) ∧
    if hr_Skipped r
    then nc_sent c' = nc_sent c ∧
       ∃ h, rd_bytes (nc_in c) = MsgSkipAuth :: h ++ rd_bytes (nc_in c') ∧ length h = 48%nat ∧ h ∈ TrustedHashes m
    else (∃ n, nonce = Some n ∧ nc_sent c' = nc_sent c ++ EncodeServerHello n (IssuerHash sha384 m)) ∧
       ∃ n, rd_bytes (nc_in c) = MsgAgentHello :: n ++ sha384 (hr_AgentCertDER r) ++ rd_bytes (nc_in c') ∧
         length n = 32%nat) as [Hid Hrest].
  { unfold Admission.PerformHandshake in H. destruct (hs_read c 1) as [[t c1]|e] eqn:E; [|done].
    apply hs_read_Ok in E as (Hb & _ & _ & Hc1). case_bool_decide as Ht; [|case_bool_decide as Ht'; [|done]].
    - apply full_Ok in H as (-> & Hid & Hs & n & h & Hr & Hn & _ & ->). split; [done|]. rewrite Hb, Hr, Ht, Hc1 in *. eauto.
    - apply fast_Ok in H as (-> & Hs & Hid & h & Hr & Hn & Hh). split; [done|]. rewrite Hb, Hr, Ht', Hs, Hc1. eauto. }
  split_and!; [| |done]; unfold identityFromPeer in Hid; destruct peers as [|der rest]; [done| |done|];
    destruct (ParseCertificate der) as [crt|] eqn:Hp; [|done| |done];
    destruct (uuid_Parse (crt_CommonName crt)) as [id|] eqn:Hu; [|done| |done]; injection Hid as -> ->; eauto.
Qed.
End facts.

(** ** A concrete server: one issuing key, one certificate of a machine *)

Definition demo_ca : Certificate := mk_cert (lit "ca") (lit "CN=CA") (lit "CA") (lit "1") 0 (1000 * hour) (lit "k0").
Definition demo_crt : Certificate := mk_cert (lit "leaf") (lit "CN=m") (lit "m") (lit "2") 0 (100 * hour) (lit "k1").
Definition demo_verify (c : Certificate) (roots : list Certificate) (at_ : time) : option (list Certificate) :=
  Some [c; demo_ca].
Definition demo_manager : Manager :=
  mk_manager demo_ca [mk_authority demo_ca RoleIssuer (lit "ca")] zero_time DefaultExpiredGrace.
Definition demo_hello (body : bytes) : netconn := mk_netconn (mk_reader body EOF) [] 0 (λ _, None).

Lemma standing_only_worsens_witness :
  ∃ c c', Classify Some demo_verify demo_manager (50 * hour) [demo_crt] = Ok c ∧ cl_Standing c = StandingFull ∧
    Classify Some demo_verify demo_manager (200 * hour) [demo_crt] = Ok c' ∧ cl_Standing c' = StandingRenewOnly ∧
    standing_rank (cl_Standing c) ≤ standing_rank (cl_Standing c').
Proof.
  destruct (Classify Some demo_verify demo_manager (50 * hour) [demo_crt]) as [c|] eqn:E; [|by vm_compute in E].
  destruct (standing_only_worsens Some demo_verify demo_manager (50 * hour) (200 * hour) [demo_crt] c E)
    as (c' & E' & _ & _ & Hr & _); [unfold hour, minute, second; lia|].
  exists c, c'. split_and!; [done| |done| |done].
  - vm_compute in E. by injection E as <-.
  - vm_compute in E'. by injection E' as <-.
Defined.

Lemma handshake_identity_witness :
  let c := demo_hello (MsgAgentHello :: replicate 32 x00 ++ replicate 48 x00 ++ lit "rest") in
  ∃ r c', PerformHandshake (λ _, replicate 48 x00) Some (λ _, Some demo_crt) demo_manager (Some (replicate 32 x01))
            [lit "leaf"] c = (Ok r, c') ∧ hr_Skipped r = false ∧
    (∃ crt, Some demo_crt = Some crt ∧ Some (crt_CommonName crt) = Some (hr_DeviceID r)).
Proof.
  intros c. destruct (PerformHandshake _ _ _ _ _ _ c) as [res c'] eqn:E.
  destruct res as [r|]; [|by vm_compute in E]. exists r, c'. split; [done|].
  destruct (handshake_identity _ _ _ _ _ _ _ _ _ E) as (_ & Hid & _). split; [|exact Hid].
  vm_compute in E. by injection E as <- <-.
Defined.
