(* ===== verification/Renewal.v ===== *)
(** * Issuing and renewing machine certificates

    [src/server/internal/cert/issue_device.go] and [cert_issue.go]: the leaf a
    request becomes; [devicecert/issuer.go]: enrolment under a fresh number and
    issuance, each recorded before it is handed out; [agentapi/renewal.go]: the
    offer, the checks of a renewal request in their order, and the installation
    that makes a renewed certificate current.

    Signing and parsing X.509 are parameters.  What the environment decides
    during one request (the clock when it is checked and when it is signed, which
    statements fail) is a record, [renew_env]. *)
From S2P Require Import Prelude Io Codec GoTime Settings Dbtx Ledger Admission.

Definition leafValidity : duration := 90 * 24 * hour.
Definition numberAttempts : nat := 8.
Definition renewalAnswerWait : duration := 60 * second.
Definition maxCSRBytes : Z := 4 * 1024.
Definition renewalsPerDay : Z := 3.
Definition renewalWindow : duration := 24 * hour.

Record Template := mk_template {
  tp_SerialNumber : bytes;
  tp_CommonName : bytes;
  tp_NotBefore : time;
  tp_NotAfter : time;
}.

Record CertificateRequest := mk_csr {
  csr_CommonName : bytes;
  csr_RawSubjectPublicKeyInfo : bytes;
  csr_SignatureOK : bool;
  csr_P256 : bool;
}.

Inductive issue_err :=
  | ErrAuthorityExpired | ErrSign | ErrParseIssued | ErrLedger (e : ledger_err)
  | ErrInvalidRequest | ErrNoFreeNumber.
Inductive request_err := ErrCSR | ErrNotP256.

Inductive offer_reason := reasonDue | reasonAuthorityChange.
Inductive refused :=
  | refusedUnsolicited | refusedInvalid | refusedWrongDevice | refusedSuperseded | refusedKeyType
  | refusedKeyReuse | refusedDeleted | refusedUnknownDevice | refusedRateLimited | refusedInFlight
  | refusedServerError.

#[global] Instance refused_eq_dec : EqDecision refused.
Proof. solve_decision. Defined.

(** [leafTemplate]; the serial is the randomness drawn. *)
Definition leafTemplate (issuer : Certificate) (now : time) (serial subject : bytes) : result issue_err Template :=
  if bool_decide (crt_NotAfter issuer < now) then Err ErrAuthorityExpired
  else
    let notAfter := now + leafValidity in
    Ok (mk_template serial subject (now - clockSkewMargin)
          (if bool_decide (crt_NotAfter issuer < notAfter) then crt_NotAfter issuer else notAfter)).

Definition NextLeafEnd (m : Manager) (now : time) : time :=
  let end_ := now + leafValidity in
  if bool_decide (crt_NotAfter (m_issuer m) < end_) then crt_NotAfter (m_issuer m) else end_.

(** One live connection, as far as renewal reads and writes it. *)
Record AgentConn := mk_conn {
  ac_DeviceID : uuid;
  ac_certFP : Fingerprint;
  ac_leaf : Certificate;
  ac_authority : Authority;
  ac_askedAt : time;
  ac_issued : option (Fingerprint * Certificate);
}.

Definition with_asked (a : AgentConn) (t : time) : AgentConn :=
  mk_conn (ac_DeviceID a) (ac_certFP a) (ac_leaf a) (ac_authority a) t (ac_issued a).
Definition with_issued (a : AgentConn) (i : option (Fingerprint * Certificate)) : AgentConn :=
  mk_conn (ac_DeviceID a) (ac_certFP a) (ac_leaf a) (ac_authority a) (ac_askedAt a) i.

(** The server's side: ledger, in-flight guard and deny-list. *)
Record Renewals := mk_renewals {
  rn_store : Store;
  rn_db : ledger_db;
  rn_inFlight : gset uuid;
  rn_deleted : gset uuid;
}.

Definition set_ledger (r : Renewals) (s : Store) (d : ledger_db) : Renewals :=
  mk_renewals s d (rn_inFlight r) (rn_deleted r).
Definition set_inFlight (r : Renewals) (f : gset uuid) : Renewals :=
  mk_renewals (rn_store r) (rn_db r) f (rn_deleted r).

Record renew_env := mk_env {
  ev_now : time;         (* the clock at the checks *)
  ev_issued : time;      (* the clock at the signature *)
  ev_serial : bytes;
  ev_countOK : bool;     (* RenewalsSince answers *)
  ev_oldestOK : bool;    (* OldestRenewalSince answers *)
  ev_recordOK : bool;    (* the insert succeeds *)
}.

(** ** The offer *)

(** [lifetime * 2 / 3] on int64. *)
Definition two_thirds (lifetime : duration) : duration := Z.quot (i64 (lifetime * 2)) 3.

Definition renewalReason (m : Manager) (a : AgentConn) (now : time) : option offer_reason :=
  if bool_decide (au_Role (ac_authority a) ≠ RoleIssuer) then Some reasonAuthorityChange
  else
    let leaf := ac_leaf a in
    let lifetime := time_sub (crt_NotAfter leaf) (crt_NotBefore leaf) in
    if bool_decide (now < crt_NotBefore leaf + two_thirds lifetime) then None
    else if negb (bool_decide (crt_NotAfter leaf < NextLeafEnd m now)) then None
    else Some reasonDue.

(** [offerRenewal]: the message it sends, if any. *)
Definition offerRenewal (m : Manager) (a : AgentConn) (now : time) : option offer_reason * AgentConn :=
  match renewalReason m a now with
  | None => (None, a)
  | Some reason =>
      if negb (bool_decide (ac_askedAt a = zero_time)) &&
         bool_decide (time_sub now (ac_askedAt a) ≤ renewalAnswerWait)
      then (None, a)
      else (Some reason, with_asked a now)
  end.

Definition takeOffer (a : AgentConn) (now : time) : bool * AgentConn :=
  let asked := ac_askedAt a in
  (negb (bool_decide (asked = zero_time)) && bool_decide (time_sub now asked ≤ renewalAnswerWait),
   with_asked a zero_time).

Section renewal.
Context (sha256 : bytes → bytes) (uuid_Parse : bytes → option uuid) (stored : time → time).
Context (ParseCertificate : bytes → option Certificate).
(** [x509.CreateCertificate] under the issuing key, for a request's key. *)
Context (CreateCertificate : Template → CertificateRequest → option bytes).
Context (ParseCertificateRequest : bytes → option CertificateRequest).
Context (sha384 : bytes → bytes).
Context (CheckSignatureFrom : Certificate → Certificate → bool).

(** ** Issuance *)

Definition ParseDeviceRequest (der : bytes) : result request_err CertificateRequest :=
  match ParseCertificateRequest der with
  | None => Err ErrCSR
  | Some csr =>
      if negb (csr_SignatureOK csr) then Err ErrCSR
      else if negb (csr_P256 csr) then Err ErrNotP256
      else Ok csr
  end.

Definition IssueDevice (m : Manager) (now : time) (serial : bytes) (csr : CertificateRequest) (id : uuid) :
    result issue_err bytes :=
  template ← leafTemplate (m_issuer m) now serial (uuid_String id);
  match CreateCertificate template csr with Some der => Ok der | None => Err ErrSign end.

(** [Issuer.sign] *)
Definition sign (m : Manager) (now : time) (serial : bytes) (csr : CertificateRequest) (id : uuid) :
    result issue_err (bytes * Certificate) :=
  der ← IssueDevice m now serial csr id;
  match ParseCertificate der with Some leaf => Ok (der, leaf) | None => Err ErrParseIssued end.

Definition Issue (m : Manager) (now : time) (serial : bytes) (ok : bool) (csr : CertificateRequest) (id : uuid)
    (source : Source) (r : Renewals) : result issue_err bytes * Renewals :=
  match sign m now serial csr id with
  | Err e => (Err e, r)
  | Ok (der, leaf) =>
      match record_row sha256 uuid_Parse stored ok leaf (IssuerHash sha384 m) source now (rn_db r) with
      | (Err e, d) => (Err (ErrLedger e), set_ledger r (rn_store r) d)
      | (Ok e, d) => (Ok der, set_ledger r (index_entry (rn_store r) e).2 d)
      end
  end.

(** [Enroll]'s search: one try per number drawn, each with its own clock, serial
    and database. *)
Fixpoint enroll_tries (m : Manager) (csr : CertificateRequest) (tries : list (uuid * time * bytes * bool))
    (r : Renewals) : result issue_err (uuid * bytes) * Renewals :=
  match tries with
  | [] => (Err ErrNoFreeNumber, r)
  | (id, now, serial, ok) :: tries =>
      if HasDevice (rn_store r) id then enroll_tries m csr tries r
      else match sign m now serial csr id with
           | Err e => (Err e, r)
           | Ok (der, leaf) =>
               match claim_row sha256 uuid_Parse stored ok (WithDefaultTenant true) leaf
                       (IssuerHash sha384 m) now (rn_db r) with
               | (Err e, d) => (Err (ErrLedger e), set_ledger r (rn_store r) d)
               | (Ok None, d) => enroll_tries m csr tries (set_ledger r (rn_store r) d)
               | (Ok (Some e), d) => (Ok (id, der), set_ledger r (index_entry (rn_store r) e).2 d)
               end
           end
  end.

Definition Enroll (m : Manager) (csrDER : bytes) (tries : list (uuid * time * bytes * bool)) (r : Renewals) :
    result issue_err (uuid * bytes) * Renewals :=
  match ParseDeviceRequest csrDER with
  | Err _ => (Err ErrInvalidRequest, r)
  | Ok csr => enroll_tries m csr (take numberAttempts tries) r
  end.

(** ** A renewal request *)

Definition requestMismatch (a : AgentConn) (s : Store) (csr : CertificateRequest) : option refused :=
  if negb (bool_decide (uuid_Parse (csr_CommonName csr) = Some (ac_DeviceID a))) then Some refusedWrongDevice
  else if Superseded s (ac_certFP a) then Some refusedSuperseded
  else if bool_decide (csr_RawSubjectPublicKeyInfo csr = crt_RawSubjectPublicKeyInfo (ac_leaf a))
  then Some refusedKeyReuse
  else None.

(** [uint32(max(1, min(wait, renewalWindow)/time.Second))] *)
Definition retry_seconds (wait : duration) : Z := u32 (Z.max 1 (Z.quot (Z.min wait renewalWindow) second)).

(** With [r.deleted] and [r.devices] wired; nil ones skip their check. *)
Definition deviceRefusal (ev : renew_env) (id : uuid) (r : Renewals) : option (refused * Z) :=
  if bool_decide (id ∈ rn_deleted r) then Some (refusedDeleted, 0)
  else if bool_decide (t_owner (rn_db r) !! id = None) then Some (refusedUnknownDevice, 0)
  else
    let since := ev_now ev - renewalWindow in
    if negb (ev_countOK ev) then Some (refusedServerError, 0)
    else if bool_decide (RenewalsSince stored id since (rn_db r) < renewalsPerDay) then None
    else if negb (ev_oldestOK ev) then Some (refusedServerError, 0)
    else
      let oldest := OldestRenewalSince stored id since (rn_db r) in
      Some (refusedRateLimited, retry_seconds (time_sub (oldest + renewalWindow) (ev_now ev))).

(** The checks of [renewFor], up to the in-flight guard. *)
Definition renew_check (ev : renew_env) (a : AgentConn) (csrDER : bytes) (r : Renewals) :
    (result (refused * Z) CertificateRequest) * AgentConn :=
  let '(offered, a) := takeOffer a (ev_now ev) in
  if negb offered then (Err (refusedUnsolicited, 0), a)
  else if bool_decide (maxCSRBytes < blen csrDER) then (Err (refusedInvalid, 0), a)
  else match ParseDeviceRequest csrDER with
       | Err ErrNotP256 => (Err (refusedKeyType, 0), a)
       | Err ErrCSR => (Err (refusedInvalid, 0), a)
       | Ok csr =>
           match requestMismatch a (rn_store r) csr with
           | Some reason => (Err (reason, 0), a)
           | None =>
               match deviceRefusal ev (ac_DeviceID a) r with
               | Some (reason, retry) => (Err (reason, retry), a)
               | None => (Ok csr, a)
               end
           end
       end.

(** [inFlight.LoadOrStore]: false when a renewal of the device is in flight. *)
Definition renew_begin (id : uuid) (r : Renewals) : bool * Renewals :=
  if bool_decide (id ∈ rn_inFlight r) then (false, r) else (true, set_inFlight r ({[id]} ∪ rn_inFlight r)).

(** The issuance behind the guard, which is left in every case. *)
Definition renew_issue (m : Manager) (ev : renew_env) (id : uuid) (csr : CertificateRequest) (r : Renewals) :
    result (refused * Z) (bytes * Certificate) * Renewals :=
  let '(res, r) := Issue m (ev_issued ev) (ev_serial ev) (ev_recordOK ev) csr id SourceRenew r in
  let r := set_inFlight r (rn_inFlight r ∖ {[id]}) in
  match res with
  | Err _ => (Err (refusedServerError, 0), r)
  | Ok der =>
      match ParseCertificate der with
      | None => (Err (refusedServerError, 0), r)
      | Some leaf => (Ok (der, leaf), r)
      end
  end.

(** The three pieces in a row, as when no other connection of the machine renews at
    the same time; nothing locks the count against the guard ([allowance_race]). *)
Definition renewFor (m : Manager) (ev : renew_env) (csrDER : bytes) (a : AgentConn) (r : Renewals) :
    result (refused * Z) (bytes * Certificate) * AgentConn * Renewals :=
  let '(checked, a) := renew_check ev a csrDER r in
  match checked with
  | Err e => (Err e, a, r)
  | Ok csr =>
      let '(free, r) := renew_begin (ac_DeviceID a) r in
      if negb free then (Err (refusedInFlight, 0), a, r)
      else let '(res, r) := renew_issue m ev (ac_DeviceID a) csr r in (res, a, r)
  end.

(** [handleCertificateRequest]: the message sent back. *)
Definition handleCertificateRequest (m : Manager) (ev : renew_env) (csrDER : bytes) (a : AgentConn) (r : Renewals) :
    result (refused * Z) bytes * AgentConn * Renewals :=
  match renewFor m ev csrDER a r with
  | (Err e, a, r) => (Err e, a, r)
  | (Ok (der, leaf), a, r) =>
      (Ok der, with_issued a (Some (FingerprintOf sha256 der, leaf)), r)
  end.

(** [cert.Authority{}], whose nil certificate nothing reads. *)
Definition zero_authority : Authority :=
  mk_authority (mk_cert [] [] [] [] zero_time zero_time []) RoleIssuer (replicate 48 x00).

Definition authorityOf (m : Manager) (leaf : Certificate) : Authority :=
  default zero_authority (List.find (λ a, CheckSignatureFrom leaf (au_Cert a)) (m_authorities m)).

(** [handleCertificateInstalled]: the certificates now superseded. *)
Definition handleCertificateInstalled (m : Manager) (ok : bool) (now : time) (a : AgentConn) (r : Renewals) :
    list Fingerprint * AgentConn * Renewals :=
  match ac_issued a with
  | None => ([], a, r)
  | Some (fp, leaf) =>
      let '((superseded, changed), s) := see (rn_store r) fp in
      let d := if changed && ok then write_seen stored fp now (rn_db r) else rn_db r in
      (superseded, mk_conn (ac_DeviceID a) fp leaf (authorityOf m leaf) (ac_askedAt a) None, set_ledger r s d)
  end.
End renewal.

(** ** What issuance and renewal keep *)

Section facts.
Context (sha256 : bytes → bytes) (uuid_Parse : bytes → option uuid) (stored : time → time).
Context (ParseCertificate : bytes → option Certificate).
Context (CreateCertificate : Template → CertificateRequest → option bytes).
Context (ParseCertificateRequest : bytes → option CertificateRequest).
Context (sha384 : bytes → bytes).
(** [uuid.Parse] reads what [String] writes. *)
Context (uuid_round_trip : ∀ id, length id = 16%nat → uuid_Parse (uuid_String id) = Some id).
(** A signed template parses back to its subject, its times in whole seconds
    and the request's key. *)
Context (sign_parses : ∀ t csr der, CreateCertificate t csr = Some der →
  ∃ leaf, ParseCertificate der = Some leaf ∧ crt_Raw leaf = der ∧ crt_CommonName leaf = tp_CommonName t ∧
    crt_NotBefore leaf = tp_NotBefore t - tp_NotBefore t `mod` second ∧
    crt_NotAfter leaf = tp_NotAfter t - tp_NotAfter t `mod` second ∧
    crt_RawSubjectPublicKeyInfo leaf = csr_RawSubjectPublicKeyInfo csr).

Local Abbreviation sign := (sign ParseCertificate CreateCertificate).
Local Abbreviation Issue := (Issue sha256 uuid_Parse stored ParseCertificate CreateCertificate sha384).
Local Abbreviation Enroll :=
  (Enroll sha256 uuid_Parse stored ParseCertificate CreateCertificate ParseCertificateRequest sha384).
Local Abbreviation renewFor :=
  (renewFor sha256 uuid_Parse stored ParseCertificate CreateCertificate ParseCertificateRequest sha384).

Lemma leafTemplate_Ok issuer now serial subject t :
  leafTemplate issuer now serial subject = Ok t →
  tp_CommonName t = subject ∧ tp_NotBefore t = now - clockSkewMargin ∧
  tp_NotAfter t = Z.min (crt_NotAfter issuer) (now + leafValidity) ∧ now ≤ crt_NotAfter issuer.
Proof.
  unfold leafTemplate. case_bool_decide as H; [done|]. intros [= <-]; cbn. split_and!; auto; [|lia].
  case_bool_decide; lia.
Qed.

Lemma sign_Ok m now serial csr id der leaf :
  sign m now serial csr id = Ok (der, leaf) →
  ParseCertificate der = Some leaf ∧ crt_Raw leaf = der ∧ crt_CommonName leaf = uuid_String id ∧
  crt_NotAfter leaf ≤ Z.min (crt_NotAfter (m_issuer m)) (now + leafValidity) ∧
  crt_NotBefore leaf ≤ now - clockSkewMargin < crt_NotBefore leaf + second ∧
  crt_RawSubjectPublicKeyInfo leaf = csr_RawSubjectPublicKeyInfo csr.
Proof using sign_parses.
  unfold Renewal.sign, IssueDevice. intros (der' & Hi & Hp)%bind_Ok.
  apply bind_Ok in Hi as (t & (Hcn & Hnb & Hna & _)%leafTemplate_Ok & Hc).
  destruct (CreateCertificate t csr) as [der''|] eqn:E; [|done]. injection Hc as ->.
  destruct (sign_parses t csr der' E) as (leaf' & Hp' & Hraw & Hcn' & Hnb' & Hna' & Hk). rewrite Hp' in Hp.
  injection Hp as <- <-. rewrite Hcn', Hcn, Hnb', Hnb, Hna', Hna.
  pose proof (Z.mod_pos_bound (now - clockSkewMargin) second ltac:(done)).
  pose proof (Z.mod_pos_bound (Z.min (crt_NotAfter (m_issuer m)) (now + leafValidity)) second ltac:(done)).
  split_and!; auto; lia.
Qed.

Lemma Issue_Err m now serial ok csr id src r e r' :
  Issue m now serial ok csr id src r = (Err e, r') → r' = r.
Proof.
  unfold Renewal.Issue. destruct (sign m now serial csr id) as [[der leaf]|e']; [|by intros [= _ <-]].
  unfold record_row. destruct (entryFor _ _ leaf _ src now) as [en|e'']; [destruct ok|];
    intros [=]; subst; by destruct r.
Qed.

Lemma Issue_Ok m now serial ok csr id src r der r' :
  length id = 16%nat → Issue m now serial ok csr id src r = (Ok der, r') →
  ∃ leaf, sign m now serial csr id = Ok (der, leaf) ∧
    let e := mk_entry (FingerprintOf sha256 der) id (IssuerHash sha384 m) (crt_NotBefore leaf)
               (crt_NotAfter leaf) src now false in
    r' = set_ledger r (index_entry (rn_store r) e).2 (insert_row stored leaf e (rn_db r)).
Proof using uuid_round_trip sign_parses.
  intros Hid. unfold Renewal.Issue. destruct (sign m now serial csr id) as [[der' leaf]|e'] eqn:Hs; [|done].
  pose proof (sign_Ok _ _ _ _ _ _ _ Hs) as (_ & Hraw & Hcn & _).
  unfold record_row, entryFor. rewrite Hcn, uuid_round_trip by done. destruct ok; [|done].
  intros [= <- <-]. exists leaf. split; [done|]. by rewrite Hraw.
Qed.

Lemma renewals_insert id since d leaf e :
  RenewalsSince stored id since (insert_row stored leaf e d) ≤ RenewalsSince stored id since d + 1.
Proof.
  unfold insert_row, RenewalsSince, renewals_since, blen. destruct (t_certificates d !! e_Fingerprint e) eqn:E; [lia|].
  cbn [t_certificates set_certificates].
  rewrite (filter_length_Permutation _ _ _ (fmap_Permutation snd _ _ (map_to_list_insert (t_certificates d) _ (row_of stored leaf e) E))).
  rewrite fmap_cons. cbn [List.filter snd]. destruct (_ && _); cbn [length]; lia.
Qed.

Lemma retry_seconds_bounds wait : 1 ≤ retry_seconds wait ≤ 86400.
Proof.
  unfold retry_seconds, renewalWindow, hour, minute, second. rewrite u32_id.
  - pose proof (Z.quot_le_mono (Z.min wait (24 * (60 * (60 * 1000000000)))) (24 * (60 * (60 * 1000000000))) 1000000000).
    change (Z.quot (24 * (60 * (60 * 1000000000))) 1000000000) with 86400 in *. lia.
  - unfold is_u32.
    pose proof (Z.quot_le_mono (Z.min wait (24 * (60 * (60 * 1000000000)))) (24 * (60 * (60 * 1000000000))) 1000000000).
    change (Z.quot (24 * (60 * (60 * 1000000000))) 1000000000) with 86400 in *. lia.
Qed.

Lemma deviceRefusal_None ev id r :
  deviceRefusal stored ev id r = None →
  (id ∉ rn_deleted r) ∧ is_Some (t_owner (rn_db r) !! id) ∧
  RenewalsSince stored id (ev_now ev - renewalWindow) (rn_db r) < renewalsPerDay.
Proof.
  unfold deviceRefusal. case_bool_decide; [done|]. case_bool_decide as Hd; [done|].
  destruct (ev_countOK ev); cbn [negb]; [|done]. case_bool_decide; [|by destruct (ev_oldestOK ev)].
  intros _. split_and!; auto. by destruct (t_owner (rn_db r) !! id).
Qed.

Lemma deviceRefusal_Some ev id r reason retry :
  deviceRefusal stored ev id r = Some (reason, retry) → 0 ≤ retry ≤ 86400 ∧ (reason = refusedRateLimited → 1 ≤ retry).
Proof.
  unfold deviceRefusal. repeat case_bool_decide; try (intros [= <- <-]; split; [lia|done]).
  all: destruct (ev_countOK ev), (ev_oldestOK ev); cbn [negb]; try done; intros [= <- <-]; (split; [|done || intros _]);
    try lia; pose proof (retry_seconds_bounds (time_sub (OldestRenewalSince stored id (ev_now ev - renewalWindow) (rn_db r) +
      renewalWindow) (ev_now ev))); lia.
Qed.

Lemma requestMismatch_None a s csr :
  requestMismatch uuid_Parse a s csr = None →
  uuid_Parse (csr_CommonName csr) = Some (ac_DeviceID a) ∧ Superseded s (ac_certFP a) = false ∧
  csr_RawSubjectPublicKeyInfo csr ≠ crt_RawSubjectPublicKeyInfo (ac_leaf a).
Proof.
  unfold requestMismatch. case_bool_decide; cbn [negb]; [|done]. destruct (Superseded s _); [done|].
  by case_bool_decide.
Qed.

(** What a request that passes the checks has shown. *)
Lemma renew_check_Ok ev a csrDER r csr a' :
  renew_check uuid_Parse stored ParseCertificateRequest ev a csrDER r = (Ok csr, a') →
  a' = with_asked a zero_time ∧
  ac_askedAt a ≠ zero_time ∧ time_sub (ev_now ev) (ac_askedAt a) ≤ renewalAnswerWait ∧
  ParseDeviceRequest ParseCertificateRequest csrDER = Ok csr ∧
  requestMismatch uuid_Parse a (rn_store r) csr = None ∧
  deviceRefusal stored ev (ac_DeviceID a) r = None.
Proof.
  unfold renew_check, takeOffer. destruct (negb (bool_decide (ac_askedAt a = zero_time)) && _) eqn:Ho; cbn [negb]; [|done].
  apply andb_prop in Ho as [Hz Hw]. rewrite negb_true_iff, bool_decide_eq_false in Hz. apply bool_decide_eq_true in Hw.
  case_bool_decide; [done|]. destruct (ParseDeviceRequest _ csrDER) as [csr'|[]]; [|done..].
  change (requestMismatch uuid_Parse (with_asked a zero_time) (rn_store r) csr')
    with (requestMismatch uuid_Parse a (rn_store r) csr').
  destruct (requestMismatch uuid_Parse a (rn_store r) csr') eqn:Hm; [done|].
  change (ac_DeviceID (with_asked a zero_time)) with (ac_DeviceID a).
  destruct (deviceRefusal stored ev (ac_DeviceID a) r) as [[]|] eqn:Hd; [done|]. intros [= <- <-].
  split_and!; auto.
Qed.

Lemma renew_check_Err ev a csrDER r reason retry a' :
  renew_check uuid_Parse stored ParseCertificateRequest ev a csrDER r = (Err (reason, retry), a') →
  a' = with_asked a zero_time ∧ 0 ≤ retry ≤ 86400 ∧ (reason = refusedRateLimited → 1 ≤ retry).
Proof.
  unfold renew_check, takeOffer. destruct (_ && _); cbn [negb]; [|intros [= <- <- <-]; split_and!; (done || lia)].
  case_bool_decide; [intros [= <- <- <-]; split_and!; (done || lia)|].
  destruct (ParseDeviceRequest _ csrDER) as [csr'|[]]; try (intros [= <- <- <-]; split_and!; (done || lia)).
  destruct (requestMismatch _ _ _ csr') eqn:Hm.
  - intros [= -> <- <-]. unfold requestMismatch in Hm. split_and!; [done|lia|lia|].
    intros ->. repeat case_bool_decide; cbn [negb] in Hm; try done; by destruct (Superseded _ _).
  - destruct (deviceRefusal stored ev _ r) as [[]|] eqn:Hd; [|done]. intros [= -> -> <-]. split; [done|].
    by apply (deviceRefusal_Some ev (ac_DeviceID (with_asked a zero_time)) r).
Qed.
(** ** Claims *)

(** C23: [renewFor] run on its own, no other renewal of the machine between its checks
    and its issuance, and with the deny list and the device registry wired: a renewal
    is granted only to the machine that was asked, and within its allowance.  When it
    issues, an offer of at most a minute ago was outstanding, the request names the
    connection's own device under a new key, the certificate presented is not
    superseded, the device is known and not deleted, no other renewal of it was in
    flight, and the day's renewals were below the allowance before and are within it
    after.  When it refuses, the ledger and the in-flight guard are as they were and
    a wait asked for is at most a day, at least a second when the reason is the
    allowance.  Either way the offer is spent.  Two connections of one machine served
    at once can pass the count together and exceed the allowance
    ([allowance_race]). *)
Theorem renewal_granted_exactly m ev csrDER a r res a' r' :
  length (ac_DeviceID a) = 16%nat →
  renewFor m ev csrDER a r = (res, a', r') →
  a' = with_asked a zero_time ∧ rn_inFlight r' = rn_inFlight r ∧
  match res with
  | Ok (der, leaf) =>
      ∃ csr, ParseDeviceRequest ParseCertificateRequest csrDER = Ok csr ∧
        uuid_Parse (csr_CommonName csr) = Some (ac_DeviceID a) ∧
        crt_CommonName leaf = uuid_String (ac_DeviceID a) ∧
        crt_RawSubjectPublicKeyInfo leaf ≠ crt_RawSubjectPublicKeyInfo (ac_leaf a) ∧
        ac_askedAt a ≠ zero_time ∧ time_sub (ev_now ev) (ac_askedAt a) ≤ renewalAnswerWait ∧
        Superseded (rn_store r) (ac_certFP a) = false ∧
        (ac_DeviceID a ∉ rn_deleted r) ∧ is_Some (t_owner (rn_db r) !! ac_DeviceID a) ∧
        (ac_DeviceID a ∉ rn_inFlight r) ∧
        RenewalsSince stored (ac_DeviceID a) (ev_now ev - renewalWindow) (rn_db r) < renewalsPerDay ∧
        RenewalsSince stored (ac_DeviceID a) (ev_now ev - renewalWindow) (rn_db r') ≤ renewalsPerDay
  | Err (reason, retry) =>
      r' = r ∧ 0 ≤ retry ≤ 86400 ∧ (reason = refusedRateLimited → 1 ≤ retry)
  end.
Proof using uuid_round_trip sign_parses.
  intros Hlen. unfold Renewal.renewFor.
  destruct (renew_check _ _ _ ev a csrDER r) as [[csr|[reason retry]] a1] eqn:Hc.
  2:{ intros [= <- <- <-]. apply renew_check_Err in Hc as (-> & ? & ?). done. }
  apply renew_check_Ok in Hc as (-> & Hz & Hw & Hp & (Hcn & Hs & Hk)%requestMismatch_None & (Hd & Ho & Hn)%deviceRefusal_None).
  change (ac_DeviceID (with_asked a zero_time)) with (ac_DeviceID a). unfold renew_begin.
  case_bool_decide as Hf; cbn [negb].
  { intros [= <- <- <-]. split_and!; (done || lia). }
  unfold renew_issue.
  destruct (Issue m _ _ _ csr (ac_DeviceID a) SourceRenew _) as [[der|e] r1] eqn:Hi.
  - apply Issue_Ok in Hi as (leaf & Hsg & Hr1); [|done]. cbv zeta in Hr1.
    pose proof (sign_Ok _ _ _ _ _ _ _ Hsg) as (Hpd & Hraw & Hcl & _ & _ & Hkey). rewrite Hpd.
    intros [= <- <- <-]. split; [done|]. rewrite Hr1. cbn -[RenewalsSince insert_row].
    split; [set_solver|]. exists csr. split_and!; auto; [congruence|].
    pose proof (renewals_insert (ac_DeviceID a) (ev_now ev - renewalWindow) (rn_db r) leaf
      (mk_entry (FingerprintOf sha256 der) (ac_DeviceID a) (IssuerHash sha384 m) (crt_NotBefore leaf)
               (crt_NotAfter leaf) SourceRenew (ev_issued ev) false)). lia.
  - apply Issue_Err in Hi as ->. intros [= <- <- <-]. split; [done|].
    assert (({[ac_DeviceID a]} ∪ rn_inFlight r) ∖ {[ac_DeviceID a]} = rn_inFlight r) as Hfl by set_solver.
    match goal with |- rn_inFlight ?x = _ ∧ _ => assert (x = r) as -> end.
    { unfold set_inFlight; cbn. rewrite Hfl. by destruct r. }
    split_and!; (done || lia).
Qed.

(** No certificate leaves without its record: when [Issue] hands one out it
    names the device asked for, runs out no later than its issuer, and is both a
    row of the table and found by admission; when it fails nothing changed. *)
Theorem issue_recorded m now serial ok csr id src r res r' :
  length id = 16%nat → Issue m now serial ok csr id src r = (res, r') →
  match res with
  | Err _ => r' = r
  | Ok der =>
      ∃ leaf, ParseCertificate der = Some leaf ∧ crt_Raw leaf = der ∧ crt_CommonName leaf = uuid_String id ∧
        crt_NotAfter leaf ≤ crt_NotAfter (m_issuer m) ∧ crt_NotAfter leaf ≤ now + leafValidity ∧
        is_Some (t_certificates (rn_db r') !! FingerprintOf sha256 der) ∧
        is_Some (Lookup (rn_store r') (FingerprintOf sha256 der)) ∧
        (t_certificates (rn_db r) !! FingerprintOf sha256 der = None →
         r_DeviceID <$> t_certificates (rn_db r') !! FingerprintOf sha256 der = Some id) ∧
        (∀ fp, fp ≠ FingerprintOf sha256 der → t_certificates (rn_db r') !! fp = t_certificates (rn_db r) !! fp)
  end.
Proof using uuid_round_trip sign_parses.
  intros Hlen Hi. destruct res as [der|e]; [|by apply Issue_Err in Hi].
  apply Issue_Ok in Hi as (leaf & Hs & ->); [|done].
  pose proof (sign_Ok _ _ _ _ _ _ _ Hs) as (Hp & Hraw & Hcn & Hna & _). exists leaf.
  cbn [rn_db set_ledger rn_store]. set (e := mk_entry _ _ _ _ _ _ _ _).
  change (FingerprintOf sha256 der) with (e_Fingerprint e).
  assert (is_Some (Lookup (index_entry (rn_store r) e).2 (e_Fingerprint e))) as Hl.
  { unfold index_entry. change (s_byPrint (rn_store r) !! e_Fingerprint e ≫= deref (rn_store r))
      with (Lookup (rn_store r) (e_Fingerprint e)).
    destruct (Lookup (rn_store r) (e_Fingerprint e)) eqn:E; cbn [snd]; [by rewrite E|].
    unfold Lookup, indexLocked, deref; cbn. rewrite lookup_insert_eq. cbn. by rewrite lookup_insert_eq. }
  unfold insert_row. split_and!; auto; try lia.
  - destruct (t_certificates (rn_db r) !! e_Fingerprint e) eqn:E; [by rewrite E|]. cbn. by rewrite lookup_insert_eq.
  - intros E. rewrite E. cbn. by rewrite lookup_insert_eq.
  - intros fp Hne. destruct (t_certificates (rn_db r) !! e_Fingerprint e); [done|]. cbn. by rewrite lookup_insert_ne.
Qed.

Lemma free_number_admin id d :
  free_number (mk_tenant DefaultTenantID true) id d = true →
  t_owner d !! id = None ∧ (id ∉ t_deleted_ids d) ∧ ∀ fp row, t_certificates d !! fp = Some row → r_DeviceID row ≠ id.
Proof.
  unfold free_number. rewrite !andb_true_iff, !negb_true_iff, bool_decide_eq_false.
  intros [[Ho Hd] Hc]. split_and!; [|done|].
  - destruct (t_owner d !! id); [|done]. by cbn in Ho.
  - intros fp row Hrow Heq. apply not_true_iff_false in Hc. apply Hc. apply existsb_exists.
    exists (fp, row). split; [by apply list_elem_of_In, elem_of_map_to_list|]. by apply bool_decide_eq_true.
Qed.

Lemma enroll_tries_spec m csr tries r res r' :
  Forall (λ t, length t.1.1.1 = 16%nat) tries →
  enroll_tries sha256 uuid_Parse stored ParseCertificate CreateCertificate sha384 m csr tries r = (res, r') →
  match res with
  | Err _ => r' = r
  | Ok (id, der) =>
      id ∈ (λ t, t.1.1.1) <$> tries ∧ HasDevice (rn_store r) id = false ∧
      free_number (mk_tenant DefaultTenantID true) id (rn_db r) = true ∧
      ∃ leaf, ParseCertificate der = Some leaf ∧ crt_CommonName leaf = uuid_String id ∧
        r_DeviceID <$> t_certificates (rn_db r') !! FingerprintOf sha256 der = Some id
  end.
Proof using uuid_round_trip sign_parses.
  induction tries as [|[[[id now] serial] ok] tries IH]; intros Hlen; cbn [enroll_tries].
  { by intros [= <- <-]. }
  apply Forall_cons in Hlen as [Hid Hlen]. cbn in Hid. specialize (IH Hlen).
  destruct (HasDevice (rn_store r) id) eqn:Hh.
  { intros H. specialize (IH H). destruct res as [[id' der]|]; [|done]. destruct IH as (? & ?). split; [by right|done]. }
  destruct (sign m now serial csr id) as [[der leaf]|e] eqn:Hs; [|by intros [= <- <-]].
  pose proof (sign_Ok _ _ _ _ _ _ _ Hs) as (Hp & Hraw & Hcn & _).
  assert (set_ledger r (rn_store r) (rn_db r) = r) as Hsame by (by destruct r).
  unfold claim_row, entryFor. rewrite Hcn, uuid_round_trip by done.
  change (TenantFromContext (WithDefaultTenant true)) with (Some (mk_tenant DefaultTenantID true)).
  rewrite Hraw. cbn [e_Fingerprint e_DeviceID]. destruct ok; cbn [negb]; [|rewrite Hsame; by intros [= <- <-]].
  destruct (free_number _ id (rn_db r)) eqn:Hf; cbn [negb].
  - destruct (t_certificates (rn_db r) !! FingerprintOf sha256 der) eqn:Ec; [rewrite Hsame; by intros [= <- <-]|].
    intros [= <- <-]. split_and!; [by left|done|done|]. exists leaf. split_and!; auto. cbn. by rewrite lookup_insert_eq.
  - rewrite Hsame. intros H. specialize (IH H). destruct res as [[id' der']|]; [|done].
    destruct IH as (? & ?). split; [by right|done].
Qed.

(** Enrolment never hands out a number something holds: the number is one of the
    eight at most it drew, held by no device of any tenant, no deleted device
    and no earlier certificate, and its certificate is recorded under it.  When
    enrolment fails, nothing changed. *)
Theorem enroll_takes_free_number m csrDER tries r res r' :
  Forall (λ t, length t.1.1.1 = 16%nat) tries → Enroll m csrDER tries r = (res, r') →
  match res with
  | Err _ => r' = r
  | Ok (id, der) =>
      id ∈ (λ t, t.1.1.1) <$> take numberAttempts tries ∧
      t_owner (rn_db r) !! id = None ∧ (id ∉ t_deleted_ids (rn_db r)) ∧
      (∀ fp row, t_certificates (rn_db r) !! fp = Some row → r_DeviceID row ≠ id) ∧
      ∃ leaf, ParseCertificate der = Some leaf ∧ crt_CommonName leaf = uuid_String id ∧
        r_DeviceID <$> t_certificates (rn_db r') !! FingerprintOf sha256 der = Some id
  end.
Proof using uuid_round_trip sign_parses.
  intros Hlen. unfold Renewal.Enroll. destruct (ParseDeviceRequest _ csrDER) as [csr|e]; [|by intros [= <- <-]].
  intros H. apply enroll_tries_spec in H; [|by apply Forall_take]. destruct res as [[id der]|]; [|done].
  destruct H as (Hin & _ & (Ho & Hd & Hc)%free_number_admin & Hl). done.
Qed.
End facts.

(** ** A concrete issuer *)

#[global] Instance Template_eq_dec : EqDecision Template.
Proof. solve_decision. Defined.
#[global] Instance CertificateRequest_eq_dec : EqDecision CertificateRequest.
Proof. solve_decision. Defined.

(** The canonical form of a device number, read back. *)
Definition unhex_digit (b : byte) : Z := let n := Z_of_byte b in if bool_decide (n < 58) then n - 48 else n - 87.
Fixpoint unhex (l : bytes) : bytes :=
  match l with a :: b :: l => byte_of_Z (16 * unhex_digit a + unhex_digit b) :: unhex l | _ => [] end.
Definition canonical_Parse (s : bytes) : option uuid :=
  Some (unhex (take 8 s ++ take 4 (drop 9 s) ++ take 4 (drop 14 s) ++ take 4 (drop 19 s) ++ drop 24 s)).

Lemma unhex_cons x l :
  unhex (hex_digit (Z_of_byte x `div` 16) :: hex_digit (Z_of_byte x `mod` 16) :: l) = x :: unhex l.
Proof. cbn [unhex]. f_equal. by destruct x; vm_compute. Qed.

Lemma canonical_round_trip id : length id = 16%nat → canonical_Parse (uuid_String id) = Some id.
Proof.
  intros H. do 16 (destruct id as [|? id]; [done|]). destruct id; [|done].
  unfold canonical_Parse, uuid_String, hex_encode. f_equal.
  cbn -[hex_digit unhex]. by rewrite !unhex_cons.
Qed.

Definition demo_id : uuid := replicate 16 x07.
Definition demo_csr : CertificateRequest := mk_csr (uuid_String demo_id) (lit "new-key") true true.
Definition demo_issuer : Certificate :=
  mk_cert (lit "ca") (lit "CN=CA") (lit "CA") (lit "1") 0 (10000 * hour) (lit "k0").
Definition demo_m : Manager := mk_manager demo_issuer [mk_authority demo_issuer RoleIssuer (lit "ca")] zero_time
  DefaultExpiredGrace.
Definition demo_now : time := 2000 * hour.
Definition demo_template (serial : bytes) : Template :=
  mk_template serial (uuid_String demo_id) (demo_now - clockSkewMargin) (demo_now + leafValidity).

(** Signs the templates of serials 1 and 2; the DER is the serial. *)
Definition demo_create (t : Template) (csr : CertificateRequest) : option bytes :=
  if bool_decide (csr = demo_csr ∧ (t = demo_template (lit "1") ∨ t = demo_template (lit "2")))
  then Some (tp_SerialNumber t) else None.
Definition demo_parse (der : bytes) : option Certificate :=
  Some (mk_cert der (lit "CN") (uuid_String demo_id) der (demo_now - clockSkewMargin) (demo_now + leafValidity)
          (lit "new-key")).

Lemma demo_sign_parses t csr der :
  demo_create t csr = Some der →
  ∃ leaf, demo_parse der = Some leaf ∧ crt_Raw leaf = der ∧ crt_CommonName leaf = tp_CommonName t ∧
    crt_NotBefore leaf = tp_NotBefore t - tp_NotBefore t `mod` second ∧
    crt_NotAfter leaf = tp_NotAfter t - tp_NotAfter t `mod` second ∧
    crt_RawSubjectPublicKeyInfo leaf = csr_RawSubjectPublicKeyInfo csr.
Proof.
  unfold demo_create. case_bool_decide as H; [|done]. destruct H as [-> Ht]. intros [= <-].
  eexists. split; [done|]. destruct Ht as [->| ->]; by vm_compute.
Qed.

Definition demo_row (n : bytes) (at_ : time) : cert_row :=
  mk_crow demo_id (lit "ca") n 0 (3000 * hour) SourceRenew at_ (Some at_).
(** Two renewals of the machine in the last day. *)
Definition demo_state : Renewals :=
  mk_renewals New (mk_ldb {[lit "a" := demo_row (lit "8") (demo_now - 2 * hour);
                            lit "b" := demo_row (lit "9") (demo_now - hour)]}
                     {[demo_id := DefaultTenantID]} ∅) ∅ ∅.
(** A live connection of the machine that was just offered a renewal. *)
Definition demo_conn : AgentConn :=
  mk_conn demo_id (lit "b") (mk_cert (lit "b") (lit "CN") (uuid_String demo_id) (lit "9") 0 (3000 * hour) (lit "old-key"))
    (mk_authority demo_issuer RoleIssuer (lit "ca")) (demo_now - second) None.
Definition demo_ev (serial : bytes) : renew_env := mk_env demo_now demo_now serial true true true.

(** Two connections of one machine, each offered a renewal: both pass the checks
    before either is issued, then the in-flight guard lets them through one
    after the other, and the day's renewals exceed the allowance.  The checks
    count before the guard is taken. *)
Theorem allowance_race :
  let check := renew_check canonical_Parse id (λ _, Some demo_csr) in
  let issue := renew_issue id canonical_Parse id demo_parse demo_create id demo_m in
  let count r := RenewalsSince id demo_id (demo_now - renewalWindow) (rn_db r) in
  let '(checked1, _) := check (demo_ev (lit "1")) demo_conn (lit "csr") demo_state in
  let '(checked2, _) := check (demo_ev (lit "2")) demo_conn (lit "csr") demo_state in
  checked1 = Ok demo_csr ∧ checked2 = Ok demo_csr ∧
  let '(free1, r) := renew_begin demo_id demo_state in
  let '(res1, r) := issue (demo_ev (lit "1")) demo_id demo_csr r in
  let '(free2, r) := renew_begin demo_id r in
  let '(res2, r) := issue (demo_ev (lit "2")) demo_id demo_csr r in
  free1 = true ∧ free2 = true ∧ is_ok res1 = true ∧ is_ok res2 = true ∧
  count demo_state < renewalsPerDay ∧ renewalsPerDay < count r.
Proof. by vm_compute. Qed.

Lemma renewal_granted_exactly_witness :
  ∃ der leaf a' r', renewFor id canonical_Parse id demo_parse demo_create (λ _, Some demo_csr) id
      demo_m (demo_ev (lit "1")) (lit "csr") demo_conn demo_state = (Ok (der, leaf), a', r') ∧
    RenewalsSince id demo_id (demo_now - renewalWindow) (rn_db r') ≤ renewalsPerDay.
Proof.
  assert (is_ok (renewFor id canonical_Parse id demo_parse demo_create (λ _, Some demo_csr) id
      demo_m (demo_ev (lit "1")) (lit "csr") demo_conn demo_state).1.1 = true) as Hok by (by vm_compute).
  destruct (renewFor id canonical_Parse id demo_parse demo_create (λ _, Some demo_csr) id
      demo_m (demo_ev (lit "1")) (lit "csr") demo_conn demo_state) as [[res a'] r'] eqn:E.
  destruct res as [[der leaf]|]; [|discriminate Hok]. exists der, leaf, a', r'. split; [done|].
  pose proof (renewal_granted_exactly id canonical_Parse id demo_parse demo_create (λ _, Some demo_csr) id
    canonical_round_trip demo_sign_parses _ _ _ demo_conn _ _ _ _ eq_refl E) as (_ & _ & H).
  destruct H as (csr & H). apply H.
Defined.

Lemma issue_recorded_witness :
  ∃ der r', Issue id canonical_Parse id demo_parse demo_create id demo_m demo_now (lit "1") true demo_csr demo_id
              SourceRenew demo_state = (Ok der, r') ∧ is_Some (Lookup (rn_store r') der).
Proof.
  assert (is_ok (Issue id canonical_Parse id demo_parse demo_create id demo_m demo_now (lit "1") true demo_csr demo_id
    SourceRenew demo_state).1 = true) as Hok by (by vm_compute).
  destruct (Issue id canonical_Parse id demo_parse demo_create id demo_m demo_now (lit "1") true demo_csr demo_id
    SourceRenew demo_state) as [[der|] r'] eqn:E; [|discriminate Hok]. exists der, r'. split; [done|].
  destruct (issue_recorded id canonical_Parse id demo_parse demo_create id canonical_round_trip demo_sign_parses
    _ _ _ _ _ demo_id _ _ _ _ eq_refl E) as (leaf & _ & _ & _ & _ & _ & _ & H & _). exact H.
Defined.

Lemma enroll_takes_free_number_witness :
  ∃ der r', Enroll id canonical_Parse id demo_parse demo_create (λ _, Some demo_csr) id demo_m (lit "csr")
              [(demo_id, demo_now, lit "1", true)] (mk_renewals New (mk_ldb ∅ ∅ ∅) ∅ ∅) = (Ok (demo_id, der), r') ∧
    ∃ leaf, demo_parse der = Some leaf ∧ crt_CommonName leaf = uuid_String demo_id ∧
      r_DeviceID <$> t_certificates (rn_db r') !! FingerprintOf id der = Some demo_id.
Proof.
  assert (match (Enroll id canonical_Parse id demo_parse demo_create (λ _, Some demo_csr) id demo_m (lit "csr")
    [(demo_id, demo_now, lit "1", true)] (mk_renewals New (mk_ldb ∅ ∅ ∅) ∅ ∅)).1 with
    | Ok (i, _) => bool_decide (i = demo_id) | Err _ => false end = true) as Hok by (by vm_compute).
  destruct (Enroll id canonical_Parse id demo_parse demo_create (λ _, Some demo_csr) id demo_m (lit "csr")
    [(demo_id, demo_now, lit "1", true)] (mk_renewals New (mk_ldb ∅ ∅ ∅) ∅ ∅)) as [[[i der]|] r'] eqn:E;
    [|discriminate Hok].
  assert (i = demo_id) as -> by exact (bool_decide_eq_true_1 _ Hok).
  exists der, r'. split; [done|].
  assert (Forall (λ t : uuid * Z * bytes * bool, length t.1.1.1 = 16%nat) [(demo_id, demo_now, lit "1", true)])
    as Hlen by (by repeat constructor).
  pose proof (enroll_takes_free_number id canonical_Parse id demo_parse demo_create (λ _, Some demo_csr) id
    canonical_round_trip demo_sign_parses demo_m (lit "csr") _ _ _ _ Hlen E) as (_ & _ & _ & _ & H). exact H.
Defined.
