(* ===== verification/Backfill.v ===== *)
(** * Admission of backfill drains

    [src/server/internal/agentapi/backfill_scheduler.go]: which reconnecting
    agents may drain their backlog, under a global and a per-tenant cap, at a
    rate that follows the load.  Every method runs under the scheduler's lock, so
    its steps are the methods. *)
From S2P Require Import Prelude Float GoTime Settings.

Record BackfillSchedulerConfig := mk_bcfg {
  bc_MaxConcurrent : Z;
  bc_PerTenantMax : Z;
  bc_BaseBudgetSamplesPerSec : Z;
  bc_MinGrantRate : Z;
  bc_MaxGrantRate : Z;
  bc_GrantTTL : duration;
  bc_DeferBackoff : duration;
}.

Record backfillGrant := mk_grant { g_tenant : uuid; g_deadline : time }.

Record BackfillScheduler := mk_sched {
  b_grants : gmap uuid backfillGrant;
  b_tenantCount : gmap uuid Z;
  b_firstReq : gmap uuid time;
}.

Record BackfillDecision := mk_bdec {
  bd_Grant : bool;
  bd_Rate : Z;
  bd_Deadline : Z;
  bd_RetryAfter : Z;
}.

Definition minRetryAfter : duration := second.

Definition DefaultBackfillSchedulerConfig : BackfillSchedulerConfig :=
  mk_bcfg 8 4 20000 500 5000 (60 * second) (30 * second).

Definition NewBackfillScheduler : BackfillScheduler := mk_sched ∅ ∅ ∅.

(** [s.tenantCount[t]]: a missing key reads as zero. *)
Definition tenant_count (s : BackfillScheduler) (t : uuid) : Z := default 0 (b_tenantCount s !! t).

Definition release (s : BackfillScheduler) (agent : uuid) : BackfillScheduler :=
  match b_grants s !! agent with
  | None => s
  | Some g =>
      let counts := if bool_decide (tenant_count s (g_tenant g) ≤ 1)
                    then delete (g_tenant g) (b_tenantCount s)
                    else <[g_tenant g := tenant_count s (g_tenant g) - 1]> (b_tenantCount s) in
      mk_sched (delete agent (b_grants s)) counts (b_firstReq s)
  end.

(** [reap]: the expired grants, whichever order the map is ranged over in. *)
Definition expired_at (now : time) (g : backfillGrant) : bool := negb (bool_decide (now < g_deadline g)).

Definition reap (s : BackfillScheduler) (now : time) : BackfillScheduler :=
  foldl release s (List.filter (λ id, existsb (expired_at now) (option_list (b_grants s !! id)))
                     (map_to_list (b_grants s)).*1).

Definition forget_first (s : BackfillScheduler) (agent : uuid) : BackfillScheduler :=
  mk_sched (b_grants s) (b_tenantCount s) (delete agent (b_firstReq s)).

Definition Release (s : BackfillScheduler) (agent : uuid) : BackfillScheduler :=
  forget_first (release s agent) agent.

Definition ActiveCount (s : BackfillScheduler) (now : time) : Z * BackfillScheduler :=
  let s := reap s now in (Z.of_nat (size (b_grants s)), s).

Section scheduler.
Context (cfg : BackfillSchedulerConfig).
(** What the machine leaves in a uint32 of a float that does not fit. *)
Context (other : float64 → Z).

Definition rate (headroom : float64) : Z :=
  let h := f_min f_one (f_max f_zero headroom) in
  let slots := Z.max 1 (bc_MaxConcurrent cfg) in
  let per := f_div (f_mul (f_of_Z (bc_BaseBudgetSamplesPerSec cfg)) h) (f_of_Z slots) in
  Z.min (Z.max (f_to_u32 other per) (bc_MinGrantRate cfg)) (bc_MaxGrantRate cfg).

(** [uint32(math.Ceil(d.Seconds()))] *)
Definition ceil_seconds (d : duration) : Z :=
  let sec := Z.quot d second in
  let nsec := Z.rem d second in
  f_to_u32 other (f_ceil (f_add (f_of_Z sec) (f_div (f_of_Z nsec) (f_of_Z second)))).

Definition grant_decision (headroom : float64) (now : time) : BackfillDecision :=
  mk_bdec true (rate headroom) (unix (now + bc_GrantTTL cfg)) 0.

(** How long a deferred agent is told to wait. *)
Definition defer_retry (first now : time) : duration :=
  Z.max (i64 (bc_DeferBackoff cfg - time_sub now first)) minRetryAfter.

Definition deferSlot (s : BackfillScheduler) (agent : uuid) (now : time) : BackfillDecision * BackfillScheduler :=
  match b_firstReq s !! agent with
  | Some first => (mk_bdec false 0 0 (ceil_seconds (defer_retry first now)), s)
  | None => (mk_bdec false 0 0 (ceil_seconds (defer_retry now now)),
             mk_sched (b_grants s) (b_tenantCount s) (<[agent := now]> (b_firstReq s)))
  end.

Definition RequestSlot (s : BackfillScheduler) (headroom : float64) (now : time) (agent tenant : uuid) :
    BackfillDecision * BackfillScheduler :=
  let s := reap s now in
  match b_grants s !! agent with
  | Some g =>
      (grant_decision headroom now,
       forget_first (mk_sched (<[agent := mk_grant (g_tenant g) (now + bc_GrantTTL cfg)]> (b_grants s))
                       (b_tenantCount s) (b_firstReq s)) agent)
  | None =>
      if bool_decide (bc_MaxConcurrent cfg ≤ Z.of_nat (size (b_grants s))) ||
         bool_decide (bc_PerTenantMax cfg ≤ tenant_count s tenant)
      then deferSlot s agent now
      else
        (grant_decision headroom now,
         forget_first (mk_sched (<[agent := mk_grant tenant (now + bc_GrantTTL cfg)]> (b_grants s))
                         (<[tenant := tenant_count s tenant + 1]> (b_tenantCount s)) (b_firstReq s)) agent)
  end.

(** ** Runs *)

Inductive sched_op :=
  | OpRequest (headroom : float64) (now : time) (agent tenant : uuid)
  | OpRelease (agent : uuid)
  | OpActive (now : time).

Definition sched_exec (s : BackfillScheduler) (op : sched_op) : BackfillScheduler :=
  match op with
  | OpRequest h now agent tenant => (RequestSlot s h now agent tenant).2
  | OpRelease agent => Release s agent
  | OpActive now => (ActiveCount s now).2
  end.

Definition sched_run (s : BackfillScheduler) (ops : list sched_op) : BackfillScheduler := foldl sched_exec s ops.
End scheduler.

(** ** The books are balanced *)

Definition holds (t : uuid) (g : backfillGrant) : bool := bool_decide (g_tenant g = t).

(** Each tenant's count is the number of its grants, and no zero is kept. *)
Record counts_ok (s : BackfillScheduler) : Prop := {
  bk_count : ∀ t, tenant_count s t = Z.of_nat (count_where (holds t) (b_grants s));
  bk_pos : ∀ t n, b_tenantCount s !! t = Some n → 1 ≤ n;
}.

Lemma empty_counts_ok : counts_ok NewBackfillScheduler.
Proof.
  split; [|intros t n H; cbn in H; by rewrite lookup_empty in H].
  intros t. unfold tenant_count; cbn. rewrite lookup_empty. by rewrite count_where_empty.
Qed.

Lemma release_spec s agent :
  counts_ok s → counts_ok (release s agent) ∧ b_grants (release s agent) = delete agent (b_grants s) ∧
  b_firstReq (release s agent) = b_firstReq s.
Proof.
  intros Hok. unfold release. destruct (b_grants s !! agent) as [g|] eqn:Hg; [|by rewrite delete_id].
  split; [|done]. set (t := g_tenant g).
  assert (∀ t', Z.of_nat (count_where (holds t') (delete agent (b_grants s))) =
                tenant_count s t' - if bool_decide (t' = t) then 1 else 0) as Hc.
  { intros t'. rewrite (bk_count s Hok t'). pose proof (count_where_delete (holds t') (b_grants s) agent g Hg) as H.
    unfold holds in H at 2. fold t in H. repeat case_bool_decide; simplify_eq; lia. }
  split; cbn [b_grants b_tenantCount].
  - intros t'. rewrite Hc. unfold tenant_count at 1. cbn [b_tenantCount].
    pose proof (Hc t) as Ht. rewrite bool_decide_true in Ht by done.
    case_bool_decide as H1; case_bool_decide as H2; subst.
    + rewrite lookup_delete_eq. cbn. lia.
    + rewrite lookup_delete_ne by done. unfold tenant_count. lia.
    + rewrite lookup_insert_eq. cbn. done.
    + rewrite lookup_insert_ne by done. unfold tenant_count. lia.
  - intros t' n. case_bool_decide as H1.
    + intros [_ H]%lookup_delete_Some. by apply (bk_pos s Hok t').
    + intros [[<- <-]|[_ H]]%lookup_insert_Some; [lia|]. by apply (bk_pos s Hok t').
Qed.

Lemma foldl_release_spec ids s :
  counts_ok s →
  counts_ok (foldl release s ids) ∧
  (∀ a, b_grants (foldl release s ids) !! a = if bool_decide (a ∈ ids) then None else b_grants s !! a) ∧
  b_firstReq (foldl release s ids) = b_firstReq s.
Proof.
  revert s. induction ids as [|i ids IH]; intros s Hok; cbn.
  - split_and!; [done| |done]. intros a. by rewrite bool_decide_false by apply not_elem_of_nil.
  - destruct (release_spec s i Hok) as (Hok1 & Hg & Hf). destruct (IH _ Hok1) as (Hok2 & Hg2 & Hf2).
    split_and!; [done| |by rewrite Hf2, Hf]. intros a. rewrite Hg2, Hg.
    destruct (decide (a = i)) as [->|Hne].
    + rewrite lookup_delete_eq, (bool_decide_true (i ∈ i :: ids)) by (by left). by case_bool_decide.
    + rewrite lookup_delete_ne by done. do 2 case_bool_decide; set_solver.
Qed.

(** Reaping drops exactly the expired grants. *)
Lemma reap_spec s now :
  counts_ok s →
  counts_ok (reap s now) ∧ b_grants (reap s now) = filter (λ kv, expired_at now kv.2 = false) (b_grants s) ∧
  b_firstReq (reap s now) = b_firstReq s.
Proof.
  intros Hok. unfold reap. destruct (foldl_release_spec (List.filter (λ id, existsb (expired_at now)
    (option_list (b_grants s !! id))) (map_to_list (b_grants s)).*1) s Hok) as (Hok' & Hg & Hf).
  split_and!; [done| |done]. apply map_eq. intros a. rewrite Hg.
  destruct (b_grants s !! a) as [g|] eqn:Ha.
  - assert (a ∈ List.filter (λ id, existsb (expired_at now) (option_list (b_grants s !! id))) (map_to_list (b_grants s)).*1
      ↔ expired_at now g = true) as Hin.
    { rewrite list_elem_of_In, filter_In, <-list_elem_of_In, Ha. cbn. rewrite orb_false_r. split; [tauto|].
      intros H. split; [|done]. apply list_elem_of_fmap. exists (a, g). split; [done|]. by apply elem_of_map_to_list. }
    case_bool_decide as H.
    + apply Hin in H. symmetry. apply map_lookup_filter_None. right. intros x Hx. cbn. congruence.
    + symmetry. apply map_lookup_filter_Some. split; [done|]. cbn. apply not_true_iff_false. tauto.
  - rewrite (proj2 (map_lookup_filter_None _ _ _) (or_introl Ha)). by case_bool_decide.
Qed.

Lemma filter_size_le (now : time) (m : gmap uuid backfillGrant) :
  (size (filter (λ kv, expired_at now kv.2 = false) m) ≤ size m)%nat.
Proof. apply map_subseteq_size, map_filter_subseteq. Qed.

Section claims.
Context (cfg : BackfillSchedulerConfig) (other : float64 → Z).

(** The grants still valid at [now]. *)
Definition live (s : BackfillScheduler) (now : time) : gmap uuid backfillGrant :=
  filter (λ kv, expired_at now kv.2 = false) (b_grants s).

Lemma rate_bounds headroom :
  Z.min (bc_MinGrantRate cfg) (bc_MaxGrantRate cfg) ≤ rate cfg other headroom ≤ bc_MaxGrantRate cfg.
Proof. unfold rate. lia. Qed.

(** Granting [agent] a slot of [tenant] it did not hold. *)
Lemma counts_insert s agent tenant dl fr :
  counts_ok s → b_grants s !! agent = None →
  counts_ok (mk_sched (<[agent := mk_grant tenant dl]> (b_grants s))
               (<[tenant := tenant_count s tenant + 1]> (b_tenantCount s)) fr).
Proof.
  intros Hok Hg. split; cbn [b_grants b_tenantCount].
  - intros t. rewrite count_where_new by done. unfold tenant_count at 1; cbn [b_tenantCount]. unfold holds at 1; cbn [g_tenant].
    pose proof (bk_count s Hok t) as Ht. destruct (decide (t = tenant)) as [->|Hne].
    + rewrite lookup_insert_eq, bool_decide_true by done. cbn. lia.
    + rewrite lookup_insert_ne, bool_decide_false by done. unfold tenant_count in Ht. lia.
  - intros t n [[<- <-]|[_ H]]%lookup_insert_Some; [|by apply (bk_pos s Hok t)].
    pose proof (bk_count s Hok tenant). lia.
Qed.

Lemma counts_renew s agent g dl fr :
  counts_ok s → b_grants s !! agent = Some g →
  counts_ok (mk_sched (<[agent := mk_grant (g_tenant g) dl]> (b_grants s)) (b_tenantCount s) fr).
Proof.
  intros Hok Hg. split; cbn [b_grants b_tenantCount]; [|apply (bk_pos s Hok)].
  intros t. change (tenant_count (mk_sched _ (b_tenantCount s) fr) t) with (tenant_count s t).
  rewrite (bk_count s Hok t). pose proof (count_where_insert (holds t) (b_grants s) agent (mk_grant (g_tenant g) dl) g Hg) as H.
  unfold holds in H at 2 3. cbn [g_tenant] in H. lia.
Qed.

Lemma counts_ok_first s fr : counts_ok s → counts_ok (mk_sched (b_grants s) (b_tenantCount s) fr).
Proof. intros [H1 H2]. by split. Qed.

(** Within both caps. *)
Definition capped (m : gmap uuid backfillGrant) : Prop :=
  Z.of_nat (size m) ≤ Z.max 0 (bc_MaxConcurrent cfg) ∧
  ∀ t, Z.of_nat (count_where (holds t) m) ≤ Z.max 0 (bc_PerTenantMax cfg).

Lemma count_where_sub (f : backfillGrant → bool) (m m' : gmap uuid backfillGrant) :
  m ⊆ m' → (count_where f m ≤ count_where f m')%nat.
Proof.
  intros H. unfold count_where. apply map_subseteq_size. by apply map_filter_subseteq_mono.
Qed.

Lemma capped_sub m m' : m ⊆ m' → capped m' → capped m.
Proof.
  intros H [Hs Ht]. pose proof (map_subseteq_size _ _ H). split; [lia|]. intros t.
  pose proof (count_where_sub (holds t) m m' H). specialize (Ht t). lia.
Qed.

(** What one request does, on every branch. *)
Lemma RequestSlot_spec s headroom now agent tenant :
  counts_ok s →
  let '(d, s') := RequestSlot cfg other s headroom now agent tenant in
  let grants := live s now in
  let free := bool_decide (Z.of_nat (size grants) < bc_MaxConcurrent cfg) &&
              bool_decide (Z.of_nat (count_where (holds tenant) grants) < bc_PerTenantMax cfg) in
  counts_ok s' ∧
  match grants !! agent with
  | Some g => d = grant_decision cfg other headroom now ∧
              b_grants s' = <[agent := mk_grant (g_tenant g) (now + bc_GrantTTL cfg)]> grants ∧
              b_firstReq s' = delete agent (b_firstReq s)
  | None =>
      if free
      then d = grant_decision cfg other headroom now ∧
           b_grants s' = <[agent := mk_grant tenant (now + bc_GrantTTL cfg)]> grants ∧
           b_firstReq s' = delete agent (b_firstReq s)
      else let first := default now (b_firstReq s !! agent) in
           d = mk_bdec false 0 0 (ceil_seconds other (defer_retry cfg first now)) ∧
           b_grants s' = grants ∧ b_firstReq s' = <[agent := first]> (b_firstReq s)
  end.
Proof.
  intros Hok. destruct (reap_spec s now Hok) as (Hok1 & Hg1 & Hf1). unfold RequestSlot.
  change (filter (λ kv, expired_at now kv.2 = false) (b_grants s)) with (live s now) in Hg1.
  set (s1 := reap s now) in *. clearbody s1. rewrite Hg1.
  destruct (live s now !! agent) as [g|] eqn:Hg.
  { rewrite <-Hg1 in Hg. cbn [forget_first b_grants b_tenantCount b_firstReq]. rewrite Hf1. split; [rewrite <-Hg1; by apply (counts_renew s1 agent g)|done]. }
  rewrite (bk_count s1 Hok1 tenant), Hg1.
  assert (bool_decide (bc_MaxConcurrent cfg ≤ Z.of_nat (size (live s now))) ||
          bool_decide (bc_PerTenantMax cfg ≤ Z.of_nat (count_where (holds tenant) (live s now))) =
          negb (bool_decide (Z.of_nat (size (live s now)) < bc_MaxConcurrent cfg) &&
                bool_decide (Z.of_nat (count_where (holds tenant) (live s now)) < bc_PerTenantMax cfg))) as ->.
  { repeat case_bool_decide; (done || lia). }
  destruct (_ && _) eqn:Hfree; cbn [negb].
  - cbn [forget_first b_grants b_tenantCount b_firstReq]. rewrite Hf1. split; [|done]. rewrite <-Hg1, <-(bk_count s1 Hok1 tenant).
    apply (counts_insert s1 agent tenant); [done|]. by rewrite Hg1.
  - unfold deferSlot. rewrite Hf1. destruct (b_firstReq s !! agent) as [first|] eqn:Hfr; cbn [default].
    + split; [done|]. split_and!; [done|done|]. by rewrite insert_id.
    + split; [by apply counts_ok_first|]. by rewrite Hg1.
Qed.

Lemma live_sub s now : live s now ⊆ b_grants s.
Proof. apply map_filter_subseteq. Qed.

Lemma capped_request s headroom now agent tenant :
  counts_ok s → capped (b_grants s) → capped (b_grants (RequestSlot cfg other s headroom now agent tenant).2).
Proof.
  intros Hok Hcap. pose proof (RequestSlot_spec s headroom now agent tenant Hok) as H.
  destruct (RequestSlot cfg other s headroom now agent tenant) as [d s']. cbn [snd].
  pose proof (capped_sub _ _ (live_sub s now) Hcap) as [Hs Ht]. destruct H as [_ H].
  destruct (live s now !! agent) as [g|] eqn:Hg.
  - destruct H as (_ & -> & _). split.
    + rewrite map_size_insert_Some by (by exists g). done.
    + intros t. specialize (Ht t). pose proof (count_where_insert (holds t) (live s now) agent
        (mk_grant (g_tenant g) (now + bc_GrantTTL cfg)) g Hg) as Hc. unfold holds in Hc at 2 3. cbn [g_tenant] in Hc. lia.
  - destruct (_ && _) eqn:Hf.
    + destruct H as (_ & -> & _). apply andb_prop in Hf as [H1 H2]. apply bool_decide_eq_true in H1, H2. split.
      * rewrite map_size_insert_None by done. lia.
      * intros t. rewrite count_where_new by done. unfold holds at 1; cbn [g_tenant]. specialize (Ht t).
        case_bool_decide; subst; lia.
    + destruct H as (_ & -> & _). by split.
Qed.

Lemma sched_exec_ok s op :
  counts_ok s → capped (b_grants s) →
  counts_ok (sched_exec cfg other s op) ∧ capped (b_grants (sched_exec cfg other s op)).
Proof.
  intros Hok Hcap. destruct op as [h now agent tenant|agent|now]; cbn [sched_exec].
  - split; [|by apply capped_request]. pose proof (RequestSlot_spec s h now agent tenant Hok) as H.
    destruct (RequestSlot _ _ _ _ _ _ _). apply H.
  - destruct (release_spec s agent Hok) as (Hok' & Hg & _). split; [by apply counts_ok_first|].
    cbn [Release forget_first b_grants]. rewrite Hg. eapply capped_sub; [apply delete_subseteq|done].
  - destruct (reap_spec s now Hok) as (Hok' & Hg & _). split; [done|]. cbn. rewrite Hg.
    eapply capped_sub; [apply live_sub|done].
Qed.

(** ** Claims *)

(** C24: The caps hold whatever the agents do: over any run of requests, renewals,
    releases and expiries, at any clock readings and loads, no more grants are
    held than the global cap, none of the tenants holds more than its own, and
    the per-tenant counters are exactly the grants each tenant holds. *)
Theorem caps_hold ops :
  let s := sched_run cfg other NewBackfillScheduler ops in
  Z.of_nat (size (b_grants s)) ≤ Z.max 0 (bc_MaxConcurrent cfg) ∧
  ∀ t, tenant_count s t = Z.of_nat (count_where (holds t) (b_grants s)) ∧
       tenant_count s t ≤ Z.max 0 (bc_PerTenantMax cfg).
Proof.
  cbv zeta.
  assert (∀ s, counts_ok s → capped (b_grants s) →
    counts_ok (sched_run cfg other s ops) ∧ capped (b_grants (sched_run cfg other s ops))) as Hrun.
  { induction ops as [|op ops IH]; intros s Hok Hcap; cbn; [done|].
    destruct (sched_exec_ok s op Hok Hcap). by apply IH. }
  destruct (Hrun NewBackfillScheduler) as [Hok [Hs Ht]].
  - apply empty_counts_ok.
  - cbn [b_grants NewBackfillScheduler]. split; [rewrite map_size_empty; lia|].
    intros t. rewrite count_where_empty. lia.
  - split; [done|]. intros t. rewrite (bk_count _ Hok t). done.
Qed.

(** A slot is granted exactly when the agent holds a live one or both caps leave
    room among the live grants, and then at a rate within the configured bounds
    until now plus the grant's lifetime, the agent's waiting forgotten; otherwise
    the grants are only reaped and the agent is told a wait that shrinks with the
    time since it first asked, never below a second. *)
Theorem slot_decision_exact s headroom now agent tenant d s' :
  counts_ok s → RequestSlot cfg other s headroom now agent tenant = (d, s') →
  let grants := live s now in
  let held := grants !! agent in
  (bd_Grant d = true ↔ is_Some held ∨
     Z.of_nat (size grants) < bc_MaxConcurrent cfg ∧
     Z.of_nat (count_where (holds tenant) grants) < bc_PerTenantMax cfg) ∧
  if bd_Grant d
  then b_grants s' = <[agent := mk_grant (default tenant (g_tenant <$> held)) (now + bc_GrantTTL cfg)]> grants ∧
       b_firstReq s' !! agent = None ∧ bd_Deadline d = unix (now + bc_GrantTTL cfg) ∧
       Z.min (bc_MinGrantRate cfg) (bc_MaxGrantRate cfg) ≤ bd_Rate d ≤ bc_MaxGrantRate cfg
  else b_grants s' = grants ∧
       let first := default now (b_firstReq s !! agent) in
       b_firstReq s' !! agent = Some first ∧
       bd_RetryAfter d = ceil_seconds other (defer_retry cfg first now) ∧
       minRetryAfter ≤ defer_retry cfg first now ∧
       ∀ now', now ≤ now' → 0 ≤ bc_DeferBackoff cfg ≤ i64_max → 0 ≤ time_sub now first →
         defer_retry cfg first now' ≤ defer_retry cfg first now.
Proof.
  intros Hok HR. pose proof (RequestSlot_spec s headroom now agent tenant Hok) as H. rewrite HR in H.
  destruct H as [_ H]. cbv zeta.
  assert (∀ now' first, now ≤ now' → 0 ≤ bc_DeferBackoff cfg ≤ i64_max → 0 ≤ time_sub now first →
            defer_retry cfg first now' ≤ defer_retry cfg first now) as Hage.
  { intros now' first Hle Hb H0. pose proof (time_sub_mono now now' first Hle).
    pose proof (time_sub_ok now first). pose proof (time_sub_ok now' first). unfold defer_retry, duration_ok in *.
    rewrite !i64_id by (unfold is_i64, i64_max in *; lia). lia. }
  destruct (live s now !! agent) as [g|] eqn:Hg.
  - destruct H as (-> & -> & ->). cbn [bd_Grant grant_decision fmap option_fmap option_map default].
    split; [split; [left; by exists g|done]|]. split_and!; [done|by rewrite lookup_delete_eq|done|apply rate_bounds|apply rate_bounds].
  - destruct (_ && _) eqn:Hf.
    + destruct H as (-> & -> & ->). apply andb_prop in Hf as [H1 H2]. apply bool_decide_eq_true in H1, H2.
      cbn [bd_Grant grant_decision fmap option_fmap option_map default].
      split; [split; auto|]. split_and!; [done|by rewrite lookup_delete_eq|done|apply rate_bounds|apply rate_bounds].
    + destruct H as (-> & -> & ->). cbn [bd_Grant bd_RetryAfter]. split.
      * split; [done|]. intros [[? ?]|[H1 H2]]; [done|]. apply andb_false_iff in Hf as [Hf|Hf];
          apply bool_decide_eq_false in Hf; lia.
      * split_and!; [done|by rewrite lookup_insert_eq|done|unfold defer_retry; lia|].
        intros now' ? ? ?. by apply Hage.
Qed.
End claims.

(** ** Connections and the slots they drain under *)

(** One connection: its agent, its tenant, and until when it was granted. *)
Record drain := mk_drain { dr_agent : uuid; dr_tenant : uuid; dr_until : option time }.

Inductive conn_event :=
  | EvConnect (c : nat) (agent tenant : uuid)
  | EvRequest (c : nat) (headroom : float64) (now : time)   (* handleRequestBackfillSlot *)
  | EvClose (c : nat).                                      (* unregisterConn's Release *)

Definition conn_exec (cfg : BackfillSchedulerConfig) (other : float64 → Z)
    (y : BackfillScheduler * gmap nat drain) (ev : conn_event) : BackfillScheduler * gmap nat drain :=
  let '(s, conns) := y in
  match ev with
  | EvConnect c agent tenant => (s, <[c := mk_drain agent tenant None]> conns)
  | EvRequest c headroom now =>
      match conns !! c with
      | None => y
      | Some dr =>
          let '(d, s) := RequestSlot cfg other s headroom now (dr_agent dr) (dr_tenant dr) in
          (s, <[c := mk_drain (dr_agent dr) (dr_tenant dr)
                       (if bd_Grant d then Some (now + bc_GrantTTL cfg) else None)]> conns)
      end
  | EvClose c =>
      match conns !! c with
      | None => y
      | Some dr => (Release s (dr_agent dr), delete c conns)
      end
  end.

(** The connections draining under a grant they were given and that has not run out. *)
Definition draining (conns : gmap nat drain) (now : time) : Z :=
  Z.of_nat (count_where (λ dr, existsb (λ u, bool_decide (now < u)) (option_list (dr_until dr))) conns).

Definition demo_agent (n : Z) : uuid := replicate 15 x00 ++ [byte_of_Z n].
Definition demo_tenant (n : Z) : uuid := replicate 15 x01 ++ [byte_of_Z (n mod 3)].
Definition demo_drains : list conn_event :=
  (n ← [1; 2; 3; 4; 5; 6; 7; 8]; [EvConnect (Z.to_nat n) (demo_agent n) (demo_tenant n); EvRequest (Z.to_nat n) f_one 0]) ++
  [EvConnect 9 (demo_agent 1) (demo_tenant 1); EvRequest 9 f_one second; EvClose 1;
   EvConnect 10 (demo_agent 10) (demo_tenant 10); EvRequest 10 f_one second].

(** A connection that ends releases its machine's slot, whichever connection
    holds it: a machine that reconnects and asks again before its old connection
    is torn down loses the slot it drains under, and one more machine is let in,
    so that more connections drain at once than the global cap. *)
Theorem stale_release_overadmits :
  let '(s, conns) := foldl (conn_exec DefaultBackfillSchedulerConfig (λ _, 0)) (NewBackfillScheduler, ∅) demo_drains in
  Z.of_nat (size (b_grants s)) ≤ bc_MaxConcurrent DefaultBackfillSchedulerConfig ∧
  bc_MaxConcurrent DefaultBackfillSchedulerConfig < draining conns second.
Proof. by vm_compute. Qed.

(** At full headroom the default rates add up to the budget; with no headroom
    the floor on a grant's rate exceeds the budget, which is then zero. *)
Lemma default_rates :
  let rate := rate DefaultBackfillSchedulerConfig (λ _, 0) in
  8 * rate f_one = bc_BaseBudgetSamplesPerSec DefaultBackfillSchedulerConfig ∧ rate f_zero = 500.
Proof. by vm_compute. Qed.

(** Waits of whole and broken seconds. *)
Lemma default_waits :
  ceil_seconds (λ _, 0) (30 * second) = 30 ∧ ceil_seconds (λ _, 0) (29 * second + 1) = 30 ∧
  ceil_seconds (λ _, 0) second = 1.
Proof. by vm_compute. Qed.

Lemma slot_decision_exact_witness :
  let cfg := DefaultBackfillSchedulerConfig in
  ∃ d s', RequestSlot cfg (λ _, 0) NewBackfillScheduler f_one 0 (demo_agent 1) (demo_tenant 1) = (d, s') ∧
    bd_Grant d = true ∧ bd_Rate d = 2500 ∧ b_firstReq s' !! demo_agent 1 = None.
Proof.
  intros cfg.
  assert (let d := (RequestSlot cfg (λ _, 0) NewBackfillScheduler f_one 0 (demo_agent 1) (demo_tenant 1)).1 in
    bd_Grant d = true ∧ bd_Rate d = 2500) as Hd by (by vm_compute).
  destruct (RequestSlot cfg (λ _, 0) NewBackfillScheduler f_one 0 (demo_agent 1) (demo_tenant 1)) as [d s'] eqn:E.
  exists d, s'. split; [done|].
  pose proof (slot_decision_exact cfg (λ _, 0) _ _ _ _ _ _ _ empty_counts_ok E) as [_ H].
  destruct Hd as [Hg Hr]. cbn [fst] in Hg, Hr.
  rewrite Hg in H. split_and!; [done..|]. apply H.
Defined.
