(* ===== verification/Effect.v ===== *)
(** * Programs that call out

    A program whose calls may fail or be cut off between any two of them: a tree
    of calls with what the program does on each answer.  [wp] is its weakest
    precondition against a history of what has happened: between two calls
    other goroutines extend the history, each call must be allowed when it is
    made, and the program must go on correctly after every answer it may get. *)
From S2P Require Import Prelude.

Inductive prog (F : Type → Type) (A : Type) : Type :=
  | Ret (a : A)
  | Do (R : Type) (c : F R) (k : R → prog F A)
  | Panic.
Arguments Ret {F A} a.
Arguments Do {F A R} c k.
Arguments Panic {F A}.

Definition call_out {F R} (c : F R) : prog F R := Do c Ret.

Fixpoint prog_bind {F A B} (k : A → prog F B) (p : prog F A) : prog F B :=
  match p with
  | Ret a => k a
  | Do c k' => Do c (λ r, prog_bind k (k' r))
  | Panic => Panic
  end.

#[global] Instance prog_mret F : MRet (prog F) := λ A a, Ret a.
#[global] Instance prog_mbind F : MBind (prog F) := λ A B k p, prog_bind k p.

Section wp.
Context {F : Type → Type} {E : Type}.
Context (allowed : list E → ∀ R, F R → Prop) (possible : list E → ∀ R, F R → R → Prop).
Context (happened : ∀ R, F R → R → list E).

Fixpoint wp {A} (p : prog F A) (Q : list E → A → Prop) (tr : list E) : Prop :=
  match p with
  | Ret a => Q tr a
  | @Do _ _ R c k => ∀ tr', tr `prefix_of` tr' →
      allowed tr' R c ∧ ∀ r, possible tr' R c r → wp (k r) Q (tr' ++ happened R c r)
  | Panic => False
  end.

(** What holds of a history and of all that follow it. *)
Definition lasting {A} (Q : list E → A → Prop) : Prop :=
  ∀ tr tr' a, tr `prefix_of` tr' → Q tr a → Q tr' a.

Lemma wp_future {A} (p : prog F A) Q tr tr' :
  lasting Q → tr `prefix_of` tr' → wp p Q tr → wp p Q tr'.
Proof.
  intros HQ Hpre. destruct p as [a|R c k|]; cbn; [by apply HQ| |done].
  intros H tr'' Hpre'. apply H. by etrans.
Qed.

Lemma wp_bind {A B} (p : prog F A) (k : A → prog F B) Q tr :
  wp p (λ tr' a, wp (k a) Q tr') tr → wp (p ≫= k) Q tr.
Proof.
  revert tr. induction p as [a|R c k' IH|]; intros tr; cbn; [done| |done].
  intros H tr' Hpre. destruct (H tr' Hpre) as [Ha Hk]. split; [done|].
  intros r Hr. apply IH. by apply Hk.
Qed.

Lemma wp_mono {A} (p : prog F A) (Q Q' : list E → A → Prop) tr :
  (∀ tr' a, tr `prefix_of` tr' → Q tr' a → Q' tr' a) → wp p Q tr → wp p Q' tr.
Proof.
  revert tr. induction p as [a|R c k IH|]; intros tr HQ; cbn; [by apply HQ| |done].
  intros H tr' Hpre. destruct (H tr' Hpre) as [Ha Hk]. split; [done|].
  intros r Hr. apply IH; [|by apply Hk].
  intros tr'' a Hpre'. apply HQ. etrans; [done|]. etrans; [|done]. apply prefix_app_r. done.
Qed.

Lemma wp_call {R} (c : F R) Q tr :
  (∀ tr', tr `prefix_of` tr' →
     allowed tr' R c ∧ ∀ r, possible tr' R c r → Q (tr' ++ happened R c r) r) →
  wp (call_out c) Q tr.
Proof. done. Qed.
End wp.
