(* ===== verification/Purge.v ===== *)
(** * Erasing a device or a tenant

    [src/server/internal/lifecycle]: the purge jobs and their table ([jobs.go],
    [types.go]), the deny-list ([tombstone.go]), the statements that delete rows
    ([pgpurge.go]), the orchestrator that drives a job through its stages and
    resumes it after a restart ([orchestrator.go]) and the sweep for orphaned
    series ([reconcile.go]); with the agent server's copy of the deny-list
    ([agentapi/deregister.go]) and the API handlers that start a purge.

    The orchestrator's methods are programs ([Effect]) over the calls they make.
    A call succeeds, fails, or takes effect and reports an error ([fate]).
    Goroutines interleave between calls, and a crash drops them all: what is
    left is the tables, which the next start resumes from.  The time-series
    database and the object store are services: what they answer is the fate of
    a call. *)
From S2P Require Import Prelude GoTime Settings Dbtx Effect Incident AlertStore Ledger.

(** ** Jobs *)

Inductive PurgeScope := PurgeDeviceScope | PurgeTenantScope.

Inductive PurgeState :=
  | StateRequested
  | StateCentralLogicalComplete
  | StateCentralPhysicalPending
  | StateObjectDeletePending
  | StateComplete.

Record PurgeJob := mk_job {
  j_ID : uuid;
  j_TenantID : uuid;
  j_DeviceID : option uuid;
  j_Scope : PurgeScope;
  j_State : PurgeState;
  j_VMDeleted : bool;
  j_ObjectDeleted : bool;
  j_PGDeleted : bool;
  j_Verified : bool;
  j_RequestedBy : option uuid;
  j_LastError : bytes;
  j_CreatedAt : time;
  j_UpdatedAt : time;
  j_CompletedAt : option time;
}.

(** What a purge erases: a device of a tenant, or the tenant. *)
Definition subject : Type := uuid * option uuid.
Definition subject_of (j : PurgeJob) : subject := (j_TenantID j, j_DeviceID j).

(** The assignments the stages make to the job they hold. *)
Definition set_state (j : PurgeJob) (s : PurgeState) : PurgeJob :=
  mk_job (j_ID j) (j_TenantID j) (j_DeviceID j) (j_Scope j) s (j_VMDeleted j) (j_ObjectDeleted j)
    (j_PGDeleted j) (j_Verified j) (j_RequestedBy j) (j_LastError j) (j_CreatedAt j) (j_UpdatedAt j) (j_CompletedAt j).
Definition set_last_error (j : PurgeJob) (e : bytes) : PurgeJob :=
  mk_job (j_ID j) (j_TenantID j) (j_DeviceID j) (j_Scope j) (j_State j) (j_VMDeleted j) (j_ObjectDeleted j)
    (j_PGDeleted j) (j_Verified j) (j_RequestedBy j) e (j_CreatedAt j) (j_UpdatedAt j) (j_CompletedAt j).
Definition set_flags (j : PurgeJob) (vm obj pg ver : bool) : PurgeJob :=
  mk_job (j_ID j) (j_TenantID j) (j_DeviceID j) (j_Scope j) (j_State j) vm obj pg ver
    (j_RequestedBy j) (j_LastError j) (j_CreatedAt j) (j_UpdatedAt j) (j_CompletedAt j).
Definition set_vm (j : PurgeJob) : PurgeJob := set_flags j true (j_ObjectDeleted j) (j_PGDeleted j) (j_Verified j).
Definition set_object (j : PurgeJob) : PurgeJob := set_flags j (j_VMDeleted j) true (j_PGDeleted j) (j_Verified j).
Definition set_pg (j : PurgeJob) : PurgeJob := set_flags j (j_VMDeleted j) (j_ObjectDeleted j) true (j_Verified j).
Definition set_verified (j : PurgeJob) : PurgeJob := set_flags j (j_VMDeleted j) (j_ObjectDeleted j) (j_PGDeleted j) true.

(** ** The state a purge works on *)

Record world := mk_world {
  w_now : time;
  w_jobs : list PurgeJob;                 (* purge_jobs, oldest first *)
  w_deleted : gset subject;               (* deleted_ids *)
  w_db : db;                              (* devices, alerts and rooms *)
  w_certs : gmap Fingerprint cert_row;    (* device_certificates *)
  w_tombstones : gset uuid;               (* AgentServer.tombstones *)
  w_conns : gmap uuid uuid;               (* AgentServer.conns: the tenant of each device *)
  w_pending : list (uuid * device_row);   (* registrations past their deny-list check *)
  w_warm : bool;                          (* this process has loaded the deny-list *)
  w_serving : bool;                       (* this process accepts agents and requests *)
}.

Definition set_jobs (w : world) (x : list PurgeJob) : world :=
  mk_world (w_now w) x (w_deleted w) (w_db w) (w_certs w) (w_tombstones w) (w_conns w) (w_pending w) (w_warm w) (w_serving w).
Definition set_deleted (w : world) (x : gset subject) : world :=
  mk_world (w_now w) (w_jobs w) x (w_db w) (w_certs w) (w_tombstones w) (w_conns w) (w_pending w) (w_warm w) (w_serving w).
Definition set_tables (w : world) (x : db) (c : gmap Fingerprint cert_row) : world :=
  mk_world (w_now w) (w_jobs w) (w_deleted w) x c (w_tombstones w) (w_conns w) (w_pending w) (w_warm w) (w_serving w).
Definition set_tombstones (w : world) (x : gset uuid) : world :=
  mk_world (w_now w) (w_jobs w) (w_deleted w) (w_db w) (w_certs w) x (w_conns w) (w_pending w) (w_warm w) (w_serving w).
Definition set_edge (w : world) (c : gmap uuid uuid) (p : list (uuid * device_row)) : world :=
  mk_world (w_now w) (w_jobs w) (w_deleted w) (w_db w) (w_certs w) (w_tombstones w) c p (w_warm w) (w_serving w).
Definition set_process (w : world) (warm serving : bool) : world :=
  mk_world (w_now w) (w_jobs w) (w_deleted w) (w_db w) (w_certs w) (w_tombstones w) (w_conns w) (w_pending w) warm serving.
Definition set_now (w : world) (n : time) : world :=
  mk_world n (w_jobs w) (w_deleted w) (w_db w) (w_certs w) (w_tombstones w) (w_conns w) (w_pending w) (w_warm w) (w_serving w).

(** ** The calls *)

Inductive call : Type → Type :=
  | CreateJob (j : PurgeJob) : call (result bytes unit)
  | UpdateProgress (j : PurgeJob) : call (result bytes unit)
  | MarkComplete (j : PurgeJob) : call (result bytes unit)
  | ListIncomplete : call (result bytes (list PurgeJob))
  | TombstoneDevice (tenant device : uuid) : call (result bytes unit)
  | TombstoneTenant (tenant : uuid) : call (result bytes unit)
  | ListTenantDeviceIDs (tenant : uuid) : call (result bytes (list uuid))
  | DeregisterAgent (device : uuid) : call unit
  | DeregisterTenant (tenant : uuid) : call unit
  | DeleteSeries (s : subject) : call (result bytes unit)
  | CountSeries (s : subject) : call (result bytes Z)
  | DeletePrefix (s : subject) : call (result bytes unit)
  | EraseAlerts (s : subject) : call (result bytes unit)   (* InvestigationPurger *)
  | DeleteRows (s : subject) : call (result bytes Z)       (* the transaction of DeleteDevice or DeleteTenantDevices *)
  | Sleep : call (result bytes unit)                       (* the select of verifyEmpty *)
  | WarmTombstones : call (result bytes unit)
  | Serve : call unit.

Abbreviation purge A := (prog call A).

(** [Orchestrator], as configured by [NewOrchestrator]: whether the cold tier,
    the edge and the investigation purger are there, and [verify.MaxAttempts]. *)
Record Orchestrator := mk_orch {
  o_objects : bool;
  o_edge : bool;
  o_investigations : bool;
  o_MaxAttempts : Z;
}.

Definition DefaultVerifyConfig : Z := 5.

Definition NewOrchestrator (objects edge investigations : bool) (maxAttempts : Z) : Orchestrator :=
  mk_orch objects edge investigations (if bool_decide (maxAttempts ≤ 0) then DefaultVerifyConfig else maxAttempts).

Section orchestrator.
Context (o : Orchestrator).

(** The next statement when there is no error. *)
Definition and_then {A B} (p : purge (result bytes A)) (k : A → purge (result bytes B)) : purge (result bytes B) :=
  r ← p; match r with Ok a => k a | Err e => Ret (Err e) end.

(** The same for a stage, which also returns the job it was given. *)
Definition then_stage (p : purge (result bytes unit * PurgeJob)) (k : PurgeJob → purge (result bytes unit * PurgeJob)) :
    purge (result bytes unit * PurgeJob) :=
  r ← p; match r.1 with Ok _ => k r.2 | Err e => Ret (Err e, r.2) end.

(** ** Tombstones *)

Fixpoint tombstone_each (tenant : uuid) (ids : list uuid) : purge (result bytes unit) :=
  match ids with
  | [] => Ret (Ok tt)
  | id :: ids => and_then (call_out (TombstoneDevice tenant id)) (λ _, tombstone_each tenant ids)
  end.

Definition applyTenantTombstone (job : PurgeJob) : purge (result bytes unit) :=
  and_then (call_out (TombstoneTenant (j_TenantID job))) (λ _,
  and_then (call_out (ListTenantDeviceIDs (j_TenantID job))) (λ ids,
  and_then (tombstone_each (j_TenantID job) ids) (λ _,
  if o_edge o then _ ← call_out (DeregisterTenant (j_TenantID job)); Ret (Ok tt) else Ret (Ok tt)))).

(** [*job.DeviceID] panics on a nil pointer. *)
Definition applyTombstone (job : PurgeJob) : purge (result bytes unit) :=
  match j_Scope job with
  | PurgeTenantScope => applyTenantTombstone job
  | PurgeDeviceScope =>
      match j_DeviceID job with
      | None => Panic
      | Some id =>
          and_then (call_out (TombstoneDevice (j_TenantID job) id)) (λ _,
          if o_edge o then _ ← call_out (DeregisterAgent id); Ret (Ok tt) else Ret (Ok tt))
      end
  end.

(** [PurgeDevice] and [PurgeTenant]; [id] is [uuid.New()]. *)
Definition new_job (id tenant : uuid) (device : option uuid) (scope : PurgeScope) (by_ : option uuid) : PurgeJob :=
  mk_job id tenant device scope StateRequested false false false false by_ [] zero_time zero_time None.

Definition start_purge (job : PurgeJob) : purge (result bytes PurgeJob) :=
  and_then (call_out (CreateJob job)) (λ _,
  and_then (applyTombstone job) (λ _, Ret (Ok job))).

Definition PurgeDevice (id tenant device : uuid) (by_ : option uuid) : purge (result bytes PurgeJob) :=
  start_purge (new_job id tenant (Some device) PurgeDeviceScope by_).

Definition PurgeTenant (id tenant : uuid) (by_ : option uuid) : purge (result bytes PurgeJob) :=
  start_purge (new_job id tenant None PurgeTenantScope by_).

(** ** The stages of a job *)

Definition fail (job : PurgeJob) (stage cause : bytes) : purge (result bytes unit * PurgeJob) :=
  let job := set_last_error job (stage ++ lit ": " ++ cause) in
  _ ← call_out (UpdateProgress job);
  Ret (Err (lit "purge " ++ stage ++ lit ": " ++ cause), job).

Definition stageVMDelete (job : PurgeJob) : purge (result bytes unit * PurgeJob) :=
  if j_VMDeleted job then Ret (Ok tt, job)
  else
    r ← call_out (DeleteSeries (subject_of job));
    match r with
    | Err e => fail job (lit "vm-delete") e
    | Ok _ =>
        let job := set_last_error (set_state (set_vm job) StateCentralLogicalComplete) [] in
        r ← call_out (UpdateProgress job); Ret (r, job)
    end.

Definition stageObjectDelete (job : PurgeJob) : purge (result bytes unit * PurgeJob) :=
  if j_ObjectDeleted job then Ret (Ok tt, job)
  else if o_objects o then
    let job := set_state job StateObjectDeletePending in
    _ ← call_out (UpdateProgress job);
    r ← call_out (DeletePrefix (subject_of job));
    match r with
    | Err e => fail job (lit "object-delete") e
    | Ok _ => let job := set_object job in r ← call_out (UpdateProgress job); Ret (r, job)
    end
  else let job := set_object job in r ← call_out (UpdateProgress job); Ret (r, job).

(** [PostgresPurger.DeleteDevice] and [DeleteTenantDevices]: the alerts, then
    the rows, a transaction each. *)
Definition delete_in_postgres (s : subject) : purge (result bytes Z) :=
  and_then (if o_investigations o then call_out (EraseAlerts s) else Ret (Ok tt)) (λ _,
  call_out (DeleteRows s)).

Definition deletePostgres (job : PurgeJob) : purge (result bytes unit) :=
  match j_Scope job with
  | PurgeTenantScope => and_then (delete_in_postgres (j_TenantID job, None)) (λ _, Ret (Ok tt))
  | PurgeDeviceScope =>
      match j_DeviceID job with
      | None => Panic
      | Some id => and_then (delete_in_postgres (j_TenantID job, Some id)) (λ _, Ret (Ok tt))
      end
  end.

Definition stagePostgresDelete (job : PurgeJob) : purge (result bytes unit * PurgeJob) :=
  if j_PGDeleted job then Ret (Ok tt, job)
  else
    r ← deletePostgres job;
    match r with
    | Err e => fail job (lit "postgres-delete") e
    | Ok _ => let job := set_pg job in r ← call_out (UpdateProgress job); Ret (r, job)
    end.

(** The loop of [verifyEmpty] with [n] counts left. *)
Fixpoint verify_loop (n : nat) (s : subject) : purge (result bytes bool) :=
  match n with
  | O => Ret (Ok false)
  | S n =>
      and_then (call_out (CountSeries s)) (λ count,
      if bool_decide (count = 0) then Ret (Ok true)
      else match n with
           | O => Ret (Ok false)
           | S _ => and_then (call_out Sleep) (λ _, verify_loop n s)
           end)
  end.

Definition verifyEmpty (job : PurgeJob) : purge (result bytes bool) :=
  verify_loop (Z.to_nat (Z.max (o_MaxAttempts o) 1)) (subject_of job).

Definition complete_job (job : PurgeJob) : purge (result bytes unit * PurgeJob) :=
  let job := set_last_error (set_state job StateComplete) [] in
  r ← call_out (MarkComplete job); Ret (r, job).

Definition stageVerifyComplete (job : PurgeJob) : purge (result bytes unit * PurgeJob) :=
  if j_Verified job then complete_job job
  else
    r ← verifyEmpty job;
    match r with
    | Err e => fail job (lit "verify") e
    | Ok false =>
        let job := set_last_error (set_state job StateCentralPhysicalPending) (lit "vm series awaiting compaction") in
        r ← call_out (UpdateProgress job); Ret (r, job)
    | Ok true => complete_job (set_verified job)
    end.

Definition Run (job : PurgeJob) : purge (result bytes unit * PurgeJob) :=
  then_stage (then_stage (then_stage (stageVMDelete job) stageObjectDelete) stagePostgresDelete) stageVerifyComplete.

Fixpoint resume_each (jobs : list PurgeJob) : purge unit :=
  match jobs with
  | [] => Ret tt
  | job :: jobs =>
      r ← applyTombstone job;
      match r with
      | Err _ => resume_each jobs
      | Ok _ => _ ← Run job; resume_each jobs
      end
  end.

Definition Resume : purge (result bytes unit) :=
  and_then (call_out ListIncomplete) (λ jobs, _ ← resume_each jobs; Ret (Ok tt)).

(** ** What runs in the server *)

(** [buildPurgeOrchestrator], and the listeners that open after it: both errors
    are only logged. *)
Definition startup : purge unit :=
  _ ← call_out WarmTombstones; _ ← Resume; call_out Serve.

(** The handlers [purgeDeletedDevice] and [PurgeTenant] of the API. *)
Definition run_started (p : purge (result bytes PurgeJob)) : purge unit :=
  r ← p; match r with Ok job => _ ← Run job; Ret tt | Err _ => Ret tt end.
End orchestrator.

(** ** What a call does *)

(** How a call ends: with its effect and the number a count reports, with an
    error and no effect, or with its effect and an error (the answer was lost). *)
Inductive fate :=
  | Done (count : Z)
  | Failed (msg : bytes)
  | Lost (msg : bytes).

Definition settle {A} (f : fate) (a : A) (w w' : world) : result bytes A * world :=
  match f with
  | Done _ => (Ok a, w')
  | Failed msg => (Err msg, w)
  | Lost msg => (Err msg, w')
  end.

(** [CreateJob]: the columns it leaves out take their defaults. *)
Definition job_row (now : time) (j : PurgeJob) : PurgeJob :=
  mk_job (j_ID j) (j_TenantID j) (j_DeviceID j) (j_Scope j) (j_State j) false false false false
    (j_RequestedBy j) [] now now None.

(** [UpdateProgress]: a row takes the job's progress. *)
Definition progressed (now : time) (j row : PurgeJob) : PurgeJob :=
  mk_job (j_ID row) (j_TenantID row) (j_DeviceID row) (j_Scope row) (j_State j) (j_VMDeleted j) (j_ObjectDeleted j)
    (j_PGDeleted j) (j_Verified j) (j_RequestedBy row) (j_LastError j) (j_CreatedAt row) now (j_CompletedAt row).

(** [MarkComplete] also stamps it. *)
Definition completed (now : time) (j row : PurgeJob) : PurgeJob :=
  mk_job (j_ID row) (j_TenantID row) (j_DeviceID row) (j_Scope row) (j_State j) (j_VMDeleted j) (j_ObjectDeleted j)
    (j_PGDeleted j) (j_Verified j) (j_RequestedBy row) (j_LastError j) (j_CreatedAt row) now (Some now).

Definition update_row (id : uuid) (f : PurgeJob → PurgeJob) (rows : list PurgeJob) : list PurgeJob :=
  (λ row, if bool_decide (j_ID row = id) then f row else row) <$> rows.

Definition incomplete (j : PurgeJob) : bool := bool_decide (j_CompletedAt j = None).

(** [DELETE FROM devices]: the rows that match, and the alerts that name them. *)
Definition delete_devices (f : uuid → device_row → bool) (d : db) : db :=
  let gone id := existsb (f id) (option_list (t_devices d !! id)) in
  let d' := delete_alerts (λ r, gone (a_DeviceID (ar_alert r))) d in
  mk_db (t_alerts d') (t_incidents d') (t_events d') (filter (λ kv, f kv.1 kv.2 = false) (t_devices d'))
    (t_organizations d') (t_limits d') (t_users d').

Definition tenant_devices (t : uuid) (d : db) : list uuid :=
  (List.filter (λ kv, bool_decide (dr_tenant kv.2 = t)) (map_to_list (t_devices d))).*1.

(** The rows each transaction of [pgpurge.go] deletes. *)
Definition delete_rows_of (s : subject) (w : world) : Z * world :=
  match s.2 with
  | Some id =>
      (1, set_tables w
            (delete_devices (λ d r, bool_decide (dr_tenant r = s.1) && bool_decide (d = id)) (w_db w))
            (filter (λ kv, r_DeviceID kv.2 ≠ id) (w_certs w)))
  | None =>
      let ids := tenant_devices s.1 (w_db w) in
      (blen ids, set_tables w
            (delete_devices (λ _ r, bool_decide (dr_tenant r = s.1)) (w_db w))
            (filter (λ kv, r_DeviceID kv.2 ∉ ids) (w_certs w)))
  end.

Definition no_tenant : bytes := lit "tenant scope required".

Section calls.
(** The ids of the history lines an erasure writes. *)
Context (gen : uuid → uuid).

Definition erase_alerts_of (s : subject) (w : world) : result alert_err unit * db :=
  match s.2 with
  | Some id => EraseDeviceAlerts gen s.1 id (w_now w) (w_db w)
  | None => EraseTenantInvestigations s.1 (w_db w)
  end.

(** [TombstoneDevice] and [TombstoneTenant]: an entry already there stays. *)
Definition tombstone (s : subject) (w : world) : world := set_deleted w ({[s]} ∪ w_deleted w).

(** [AgentServer.DeregisterAgent], which also tells and closes a connected agent;
    the connection leaves the map in a goroutine of its own. *)
Definition deregister_agent (d : uuid) (w : world) : world := set_tombstones w ({[d]} ∪ w_tombstones w).

(** [AgentServer.DeregisterTenant]: the connected agents of the tenant. *)
Definition deregister_tenant (t : uuid) (w : world) : world :=
  set_tombstones w (dom (filter (λ kv, kv.2 = t) (w_conns w)) ∪ w_tombstones w).

(** [AgentServer.WarmTombstones]: the entries of [ListAll] that name a device. *)
Definition warm_tombstones (w : world) : world :=
  set_process (set_tombstones w (set_omap snd (w_deleted w) ∪ w_tombstones w)) true (w_serving w).

Definition exec_call {R} (c : call R) (f : fate) (w : world) : R * world :=
  match c in call R return R * world with
  | CreateJob j =>
      if existsb (λ r, bool_decide (j_ID r = j_ID j)) (w_jobs w) then (Err (lit "duplicate key"), w)
      else settle f tt w (set_jobs w (w_jobs w ++ [job_row (w_now w) j]))
  | UpdateProgress j => settle f tt w (set_jobs w (update_row (j_ID j) (progressed (w_now w) j) (w_jobs w)))
  | MarkComplete j => settle f tt w (set_jobs w (update_row (j_ID j) (completed (w_now w) j) (w_jobs w)))
  | ListIncomplete => settle f (List.filter incomplete (w_jobs w)) w w
  | TombstoneDevice t d => settle f tt w (tombstone (t, Some d) w)
  | TombstoneTenant t => settle f tt w (tombstone (t, None) w)
  | ListTenantDeviceIDs t =>
      if bool_decide (t = Nil) then (Err no_tenant, w) else settle f (tenant_devices t (w_db w)) w w
  | DeregisterAgent d => (tt, deregister_agent d w)
  | DeregisterTenant t => (tt, deregister_tenant t w)
  | DeleteSeries _ | DeletePrefix _ | Sleep => settle f tt w w
  | CountSeries _ => settle f (match f with Done n => n | _ => 0 end) w w
  | EraseAlerts s =>
      match erase_alerts_of s w with
      | (Ok _, d) => settle f tt w (set_tables w d (w_certs w))
      | (Err _, _) => (Err no_tenant, w)
      end
  | DeleteRows s =>
      if bool_decide (s.1 = Nil) then (Err no_tenant, w)
      else let '(n, w') := delete_rows_of s w in settle f n w w'
  | WarmTombstones =>
      match f with
      | Done _ => (Ok tt, warm_tombstones w)
      | Failed msg | Lost msg => (Err msg, w)
      end
  | Serve => (tt, set_process w (w_warm w) true)
  end.

(** ** What has happened

    The history holds what calls were answered to have done. *)

Inductive event :=
  | EvJob (id : uuid) (s : subject)       (* a job created or listed *)
  | EvTomb (s : subject)                  (* on the persisted deny-list *)
  | EvListed (tenant : uuid) (ids : list uuid)
  | EvAgent (device : uuid)               (* DeregisterAgent, by which the process denies it *)
  | EvTenant (tenant : uuid)              (* DeregisterTenant *)
  | EvSeries (s : subject)
  | EvPrefix (s : subject)
  | EvErased (s : subject)
  | EvRows (s : subject)
  | EvEmpty (s : subject).                (* a count of zero *)

Definition ok_event {A} (r : result bytes A) (e : event) : list event :=
  match r with Ok _ => [e] | Err _ => [] end.

Definition happened (R : Type) (c : call R) : R → list event :=
  match c in call R return R → list event with
  | CreateJob j => λ r, ok_event r (EvJob (j_ID j) (subject_of j))
  | ListIncomplete => λ r,
      match r with Ok jobs => (λ j, EvJob (j_ID j) (subject_of j)) <$> jobs | Err _ => [] end
  | TombstoneDevice t d => λ r, ok_event r (EvTomb (t, Some d))
  | TombstoneTenant t => λ r, ok_event r (EvTomb (t, None))
  | ListTenantDeviceIDs t => λ r, match r with Ok ids => [EvListed t ids] | Err _ => [] end
  | DeregisterAgent d => λ _, [EvAgent d]
  | DeregisterTenant t => λ _, [EvTenant t]
  | DeleteSeries s => λ r, ok_event r (EvSeries s)
  | DeletePrefix s => λ r, ok_event r (EvPrefix s)
  | EraseAlerts s => λ r, ok_event r (EvErased s)
  | DeleteRows s => λ r, ok_event r (EvRows s)
  | CountSeries s => λ r, match r with Ok n => if bool_decide (n = 0) then [EvEmpty s] else [] | Err _ => [] end
  | UpdateProgress _ | MarkComplete _ | Sleep | WarmTombstones | Serve => λ _, []
  end.

(** ** The server: goroutines, crashes and agents *)

Record server := mk_server {
  y_world : world;
  y_threads : list (purge unit);
  y_trace : list event;
}.

Inductive act :=
  | AStart                                              (* a process starts *)
  | ADeleteDevice (id tenant device : uuid) (by_ : uuid)   (* DELETE of a device *)
  | APurgeTenant (id tenant : uuid) (by_ : uuid)
  | ACall (i : nat) (f : fate)                          (* goroutine [i] makes its next call *)
  | ACrash
  | ACheck (device : uuid) (row : device_row)           (* a registration passes the deny-list *)
  | AWrite (i : nat)                                    (* and writes its row *)
  | ADisconnect (device : uuid)
  | ATick (d : duration).

Definition crashed (w : world) : world :=
  mk_world (w_now w) (w_jobs w) (w_deleted w) (w_db w) (w_certs w) ∅ ∅ [] false false.

(** [rejectTombstonedWrite], then [Upsert] of the device. *)
Definition isTombstoned (w : world) (d : uuid) : bool := bool_decide (d ∈ w_tombstones w).

Definition upsert_device (d : uuid) (row : device_row) (x : db) : db :=
  mk_db (t_alerts x) (t_incidents x) (t_events x)
    (<[d := match t_devices x !! d with
            | Some old => mk_devrow (dr_tenant row) (dr_site old) (dr_maintenance old)
            | None => row
            end]> (t_devices x))
    (t_organizations x) (t_limits x) (t_users x).

Definition act_exec (o : Orchestrator) (y : server) (a : act) : server :=
  let '(mk_server w ts tr) := y in
  match a with
  | AStart => match ts with [] => if w_serving w then y else mk_server w [startup o] tr | _ => y end
  | ADeleteDevice id t d by_ =>
      if w_serving w then mk_server w (ts ++ [run_started o (PurgeDevice o id t d (Some by_))]) tr else y
  | APurgeTenant id t by_ =>
      if w_serving w then mk_server w (ts ++ [run_started o (PurgeTenant o id t (Some by_))]) tr else y
  | ACall i f =>
      match ts !! i with
      | Some (@Do _ _ R c k) =>
          let '(r, w) := exec_call c f w in mk_server w (<[i := k r]> ts) (tr ++ happened R c r)
      | _ => y
      end
  | ACrash => mk_server (crashed w) [] tr
  | ACheck d row =>
      if w_serving w && negb (isTombstoned w d)
      then mk_server (set_edge w (<[d := dr_tenant row]> (w_conns w)) (w_pending w ++ [(d, row)])) ts tr else y
  | AWrite i =>
      match w_pending w !! i with
      | Some (d, row) =>
          mk_server (set_tables (set_edge w (w_conns w) (delete i (w_pending w)))
                       (upsert_device d row (w_db w)) (w_certs w)) ts tr
      | None => y
      end
  | ADisconnect d => mk_server (set_edge w (delete d (w_conns w)) (w_pending w)) ts tr
  | ATick n => mk_server (set_now w (w_now w + Z.max 0 n)) ts tr
  end.

(** A database no purge has run on, before a process starts. *)
Definition fresh_server (now : time) (deleted : gset subject) (d : db) (certs : gmap Fingerprint cert_row) : server :=
  mk_server (mk_world now [] deleted d certs ∅ ∅ [] false false) [] [].

Definition run_acts (o : Orchestrator) (y : server) (l : list act) : server := foldl (act_exec o) y l.

(** Every call succeeds; [left] is how many series of a subject are still counted. *)
Definition answered (left : subject → Z) {R} (c : call R) : fate :=
  match c with CountSeries s => Done (left s) | _ => Done 0 end.

(** One goroutine run by itself, every call answered. *)
Fixpoint run_prog {A} (left : subject → Z) (p : purge A) (w : world) (tr : list event) : option A * world * list event :=
  match p with
  | Ret a => (Some a, w, tr)
  | @Do _ _ R c k => let '(r, w) := exec_call c (answered left c) w in run_prog left (k r) w (tr ++ happened R c r)
  | Panic => (None, w, tr)
  end.
End calls.

(** ** Reconciliation *)

(** [Reconciler.Sweep]: what the two listings and each delete answer.  The
    subjects deleted, in order, with the count. *)
Fixpoint sweep_each (live : gset uuid) (delete_series : uuid → uuid → option bytes) (subjects : list (uuid * uuid))
    (purged : Z) : Z * list (uuid * uuid) :=
  match subjects with
  | [] => (purged, [])
  | (t, d) :: rest =>
      if bool_decide (d ∈ live) then sweep_each live delete_series rest purged
      else match delete_series t d with
           | Some _ => sweep_each live delete_series rest purged
           | None => let '(n, done_) := sweep_each live delete_series rest (purged + 1) in (n, (t, d) :: done_)
           end
  end.

Definition Sweep (live : result bytes (list uuid)) (subjects : result bytes (list (uuid * uuid)))
    (delete_series : uuid → uuid → option bytes) : result bytes Z * list (uuid * uuid) :=
  match live with
  | Err e => (Err (lit "reconcile: list live devices: " ++ e), [])
  | Ok ids =>
      match subjects with
      | Err e => (Err (lit "reconcile: list vm subjects: " ++ e), [])
      | Ok subjects =>
          let '(n, done_) := sweep_each (list_to_set ids) delete_series subjects 0 in (Ok n, done_)
      end
  end.
