(* ===== verification/PurgeClaims.v ===== *)
(** * What a purge leaves behind

    Every flag of a purge job stands for work that was done, in the order the
    orchestrator promises, whatever fails and wherever the process is cut off
    ([purge_evidence]); a restart that meets no failure takes every job to its end
    ([resume_completes]); a deleted machine is kept out ([purged_device_stays_out]),
    while a machine of a purged tenant that was offline is let in again
    ([purged_tenant_readmits_offline]).  The programs are proved by [wp] against
    the history, with the order of the erasure as what each call is allowed. *)
From S2P Require Import Prelude GoTime Settings Dbtx Effect Incident AlertStore AlertStoreInv Ledger Purge.

(** ** Evidence *)

(** [e] happened, at a time when [P] held. *)
Definition did (P : list event → Prop) (e : event) (tr : list event) : Prop :=
  ∃ pre post, tr = pre ++ e :: post ∧ P pre.

Section evidence.
Context (o : Orchestrator).

(** The subject is on the deny-list, with every machine the tenant had, and the
    agent server has been told. *)
Definition denied (s : subject) (tr : list event) : Prop :=
  EvTomb s ∈ tr ∧
  match s.2 with
  | Some d => o_edge o = true → EvAgent d ∈ tr
  | None =>
      (∃ ids, EvListed s.1 ids ∈ tr ∧ ∀ id, id ∈ ids → EvTomb (s.1, Some id) ∈ tr) ∧
      (o_edge o = true → EvTenant s.1 ∈ tr)
  end.

Definition series_gone (s : subject) : list event → Prop := did (denied s) (EvSeries s).

Definition objects_gone (s : subject) : list event → Prop :=
  if o_objects o then did (series_gone s) (EvPrefix s) else series_gone s.

Definition alerts_gone (s : subject) : list event → Prop :=
  if o_investigations o then did (objects_gone s) (EvErased s) else objects_gone s.

Definition rows_gone (s : subject) : list event → Prop := did (alerts_gone s) (EvRows s).

Definition verified_empty (s : subject) : list event → Prop := did (rows_gone s) (EvEmpty s).

(** A job's flags are backed by the history. *)
Record justified (tr : list event) (j : PurgeJob) : Prop := {
  just_vm : j_VMDeleted j = true → series_gone (subject_of j) tr;
  just_object : j_ObjectDeleted j = true → objects_gone (subject_of j) tr;
  just_pg : j_PGDeleted j = true → rows_gone (subject_of j) tr;
  just_verified : j_Verified j = true → verified_empty (subject_of j) tr;
}.

(** Its scope says whether it names a device. *)
Definition scope_ok (j : PurgeJob) : Prop :=
  match j_Scope j with PurgeDeviceScope => is_Some (j_DeviceID j) | PurgeTenantScope => j_DeviceID j = None end.

(** The order of an erasure. *)
Definition in_order (pre : list event) (e : event) : Prop :=
  match e with
  | EvAgent d => ∃ t, EvTomb (t, Some d) ∈ pre
  | EvSeries s => denied s pre
  | EvPrefix s => series_gone s pre
  | EvErased s => objects_gone s pre
  | EvRows s => alerts_gone s pre
  | EvEmpty s => rows_gone s pre
  | EvJob _ _ | EvTomb _ | EvListed _ _ | EvTenant _ => True
  end.

Definition ordered (tr : list event) : Prop := ∀ pre e post, tr = pre ++ e :: post → in_order pre e.

(** A job a goroutine may write. *)
Record held (tr : list event) (j : PurgeJob) : Prop := {
  held_scope : scope_ok j;
  held_known : EvJob (j_ID j) (subject_of j) ∈ tr;
  held_just : justified tr j;
}.

Definition allowed (tr : list event) (R : Type) (c : call R) : Prop :=
  match c with
  | CreateJob j => scope_ok j
  | UpdateProgress j => held tr j
  | MarkComplete j => held tr j ∧ verified_empty (subject_of j) tr
  | DeregisterAgent d => in_order tr (EvAgent d)
  | DeleteSeries s => in_order tr (EvSeries s)
  | DeletePrefix s => in_order tr (EvPrefix s)
  | EraseAlerts s => in_order tr (EvErased s)
  | DeleteRows s => in_order tr (EvRows s)
  | CountSeries s => in_order tr (EvEmpty s)
  | _ => True
  end.

Definition possible (tr : list event) (R : Type) (c : call R) : R → Prop :=
  match c in call R return R → Prop with
  | ListIncomplete => λ r, match r with Ok jobs => Forall (λ j, scope_ok j ∧ justified tr j) jobs | Err _ => True end
  | _ => λ _, True
  end.
End evidence.

Abbreviation safely o := (wp (allowed o) (possible o) happened).

(** ** Evidence lasts *)

Section lasting.
Context (o : Orchestrator).
Implicit Types (tr : list event) (s : subject) (j : PurgeJob).

Lemma prefix_elem tr tr' e : tr `prefix_of` tr' → e ∈ tr → e ∈ tr'.
Proof. intros [post ->] ?. apply elem_of_app. by left. Qed.

Lemma elem_end tr tr' e : tr ++ [e] `prefix_of` tr' → e ∈ tr'.
Proof. intros Hpre. eapply prefix_elem; [exact Hpre|]. apply elem_of_app. right. by apply list_elem_of_singleton. Qed.

Lemma did_lasts P e tr tr' : tr `prefix_of` tr' → did P e tr → did P e tr'.
Proof. intros [post' ->] (pre & post & -> & HP). exists pre, (post ++ post'). by rewrite <- app_assoc. Qed.

Lemma did_now (P : list event → Prop) e tr : P tr → did P e (tr ++ [e]).
Proof. intros HP. by exists tr, []. Qed.

Lemma denied_lasts s tr tr' : tr `prefix_of` tr' → denied o s tr → denied o s tr'.
Proof.
  intros Hpre [Ht Hs]. split; [by eapply prefix_elem|].
  destruct (s.2); [eauto using prefix_elem|].
  destruct Hs as [(ids & Hl & Hids) He]. split; eauto 6 using prefix_elem.
Qed.

Lemma series_lasts s tr tr' : tr `prefix_of` tr' → series_gone o s tr → series_gone o s tr'.
Proof. apply did_lasts. Qed.

Lemma objects_lasts s tr tr' : tr `prefix_of` tr' → objects_gone o s tr → objects_gone o s tr'.
Proof. unfold objects_gone. destruct (o_objects o); [apply did_lasts|apply series_lasts]. Qed.

Lemma alerts_lasts s tr tr' : tr `prefix_of` tr' → alerts_gone o s tr → alerts_gone o s tr'.
Proof. unfold alerts_gone. destruct (o_investigations o); [apply did_lasts|apply objects_lasts]. Qed.

Lemma rows_lasts s tr tr' : tr `prefix_of` tr' → rows_gone o s tr → rows_gone o s tr'.
Proof. apply did_lasts. Qed.

Lemma empty_lasts s tr tr' : tr `prefix_of` tr' → verified_empty o s tr → verified_empty o s tr'.
Proof. apply did_lasts. Qed.

Lemma justified_lasts tr tr' j : tr `prefix_of` tr' → justified o tr j → justified o tr' j.
Proof.
  intros Hpre [Hv Ho Hp Hr]. split; intros ?.
  - eapply series_lasts; eauto.
  - eapply objects_lasts; eauto.
  - eapply rows_lasts; eauto.
  - eapply empty_lasts; eauto.
Qed.

Lemma held_lasts tr tr' j : tr `prefix_of` tr' → held o tr j → held o tr' j.
Proof. intros Hpre [Hs Hk Hj]. split; eauto using prefix_elem, justified_lasts. Qed.
End lasting.

#[export] Hint Resolve prefix_elem denied_lasts series_lasts objects_lasts alerts_lasts rows_lasts empty_lasts
  justified_lasts held_lasts : opengate.
#[export] Hint Resolve prefix_app_r prefix_app_l : opengate.

(** ** The orchestrator keeps the order *)

Section programs.
Context (o : Orchestrator).
Implicit Types (tr : list event) (s : subject) (j : PurgeJob).
Abbreviation safe := (safely o).

(** One call, then the rest of the program. *)
Lemma safe_call {R B} (c : call R) (k : R → purge B) Q tr :
  (∀ tr', tr `prefix_of` tr' → allowed o tr' R c ∧
     ∀ r, possible o tr' R c r → safe (k r) Q (tr' ++ happened R c r)) →
  safe (x ← call_out c; k x) Q tr.
Proof. done. Qed.

Lemma safe_and_then {A B} (p : purge (result bytes A)) (k : A → purge (result bytes B)) Q tr :
  safe p (λ tr' r, match r with Ok a => safe (k a) Q tr' | Err e => Q tr' (Err e) end) tr →
  safe (and_then p k) Q tr.
Proof. intros H. apply wp_bind. eapply wp_mono, H. by intros tr' [a|e] _. Qed.

Lemma safe_then_stage p k Q tr :
  safe p (λ tr' r, match r.1 with Ok _ => safe (k r.2) Q tr' | Err e => Q tr' (Err e, r.2) end) tr →
  safe (then_stage p k) Q tr.
Proof. intros H. apply wp_bind. eapply wp_mono, H. by intros tr' [[a|e] j] _. Qed.

(** Changes of a job that keep it a job the goroutine holds. *)
Lemma held_flags tr j vm obj pg ver :
  held o tr j →
  (vm = true → series_gone o (subject_of j) tr) → (obj = true → objects_gone o (subject_of j) tr) →
  (pg = true → rows_gone o (subject_of j) tr) → (ver = true → verified_empty o (subject_of j) tr) →
  held o tr (set_flags j vm obj pg ver).
Proof. intros [Hs Hk _] ????. by split. Qed.

Lemma held_set_state tr j st : held o tr j → held o tr (set_state j st).
Proof. by intros [Hs Hk [????]]. Qed.

Lemma held_set_last_error tr j e : held o tr j → held o tr (set_last_error j e).
Proof. by intros [Hs Hk [????]]. Qed.

Lemma held_set_object tr j : held o tr j → objects_gone o (subject_of j) tr → held o tr (set_object j).
Proof. intros Hj Ho. pose proof (held_just _ _ _ Hj) as [Hv _ Hp Hr]. by apply held_flags. Qed.

Lemma held_set_pg tr j : held o tr j → rows_gone o (subject_of j) tr → held o tr (set_pg j).
Proof. intros Hj Ho. pose proof (held_just _ _ _ Hj) as [Hv Hob _ Hr]. by apply held_flags. Qed.

Lemma held_set_verified tr j : held o tr j → verified_empty o (subject_of j) tr → held o tr (set_verified j).
Proof. intros Hj Ho. pose proof (held_just _ _ _ Hj) as [Hv Hob Hp _]. by apply held_flags. Qed.

Lemma held_set_vm tr j : held o tr j → series_gone o (subject_of j) tr → held o tr (set_vm j).
Proof. intros Hj Ho. pose proof (held_just _ _ _ Hj) as [_ Hob Hp Hr]. by apply held_flags. Qed.
(** What a stage leaves: the job, still held, and its goal when it succeeds. *)
Definition stage_post s (G : list event → Prop) : list event → result bytes unit * PurgeJob → Prop :=
  λ tr r, held o tr r.2 ∧ subject_of r.2 = s ∧ (is_ok r.1 = true → G tr).

Lemma safe_update j s (G : list event → Prop) tr :
  held o tr j → subject_of j = s → G tr → (∀ tr tr', tr `prefix_of` tr' → G tr → G tr') →
  safe (r ← call_out (UpdateProgress j); Ret (r, j)) (stage_post s G) tr.
Proof.
  intros Hj Hs HG Hlast. apply safe_call. intros tr' Hpre. split; [cbn; by eauto with opengate|].
  intros r _. cbn. rewrite app_nil_r. split_and!; [by eauto with opengate|done|eauto].
Qed.

Lemma safe_fail j s G stage cause tr :
  held o tr j → subject_of j = s → safe (fail j stage cause) (stage_post s G) tr.
Proof.
  intros Hj Hs. apply safe_call. intros tr' Hpre.
  assert (held o tr' (set_last_error j (stage ++ lit ": " ++ cause))) by eauto using held_set_last_error with opengate.
  split; [done|]. intros r _. cbn. rewrite app_nil_r. split_and!; [done|done|by cbn].
Qed.

Lemma safe_stageVMDelete j s tr :
  held o tr j → subject_of j = s → denied o s tr →
  safe (stageVMDelete j) (stage_post s (series_gone o s)) tr.
Proof.
  intros Hj Hs Hd. unfold stageVMDelete. destruct (j_VMDeleted j) eqn:Ev.
  { split_and!; [done|done|]. intros _. subst s. by apply (just_vm _ _ _ (held_just _ _ _ Hj)). }
  apply safe_call. intros tr' Hpre. rewrite Hs. split; [cbn; by eauto with opengate|]. intros [u|e] _.
  - cbn [happened ok_event]. set (tr2 := tr' ++ _).
    assert (tr' `prefix_of` tr2) by by eexists.
    assert (series_gone o s tr2) by (apply did_now; eauto with opengate).
    apply safe_update; [| |done|intros; by eapply series_lasts]; [|done].
    apply held_set_last_error, held_set_state, held_set_vm; [|by subst s].
    eapply held_lasts, held_lasts, Hj; done.
  - cbn [happened ok_event]. rewrite app_nil_r. apply safe_fail; eauto with opengate.
Qed.

Lemma safe_stageObjectDelete j s tr :
  held o tr j → subject_of j = s → series_gone o s tr →
  safe (stageObjectDelete o j) (stage_post s (objects_gone o s)) tr.
Proof.
  intros Hj Hs Hd. unfold stageObjectDelete. destruct (j_ObjectDeleted j) eqn:Ev.
  { split_and!; [done|done|]. intros _. subst s. by apply (just_object _ _ _ (held_just _ _ _ Hj)). }
  assert (Hlast : ∀ tr tr', tr `prefix_of` tr' → objects_gone o s tr → objects_gone o s tr') by eauto with opengate.
  destruct (o_objects o) eqn:Eo.
  - apply safe_call. intros tr' Hpre. split; [by eapply held_set_state, held_lasts|]. intros r _.
    cbn [happened]. rewrite app_nil_r. apply safe_call. intros tr2 Hpre2.
    change (subject_of (set_state j _)) with (subject_of j). rewrite Hs.
    assert (Hj2 : held o tr2 (set_state j StateObjectDeletePending)) by (eapply held_set_state, held_lasts, Hj; by etrans).
    split; [eapply series_lasts, Hd; by etrans|]. intros [u|e] _; cbn [happened ok_event].
    + assert (objects_gone o s (tr2 ++ [EvPrefix s])).
      { unfold objects_gone. rewrite Eo. apply did_now. eapply series_lasts, Hd. by etrans. }
      apply safe_update; [|done..]. apply held_set_object; [by eapply held_lasts, Hj2; eexists|].
      change (subject_of (set_state j _)) with (subject_of j). by rewrite Hs.
    + rewrite app_nil_r. by apply safe_fail.
  - assert (objects_gone o s tr) by (unfold objects_gone; by rewrite Eo).
    apply safe_update; [|done..]. apply held_set_object; [done|by subst s].
Qed.

Lemma safe_delete_in_postgres s tr :
  objects_gone o s tr →
  safe (delete_in_postgres o s) (λ tr' r, tr `prefix_of` tr' ∧ (is_ok r = true → rows_gone o s tr')) tr.
Proof.
  intros Ho. unfold delete_in_postgres. apply safe_and_then.
  apply (wp_mono _ _ _ _ (λ tr' r, tr `prefix_of` tr' ∧ (is_ok r = true → alerts_gone o s tr'))).
  { intros tr' [u|e] Hpre [_ Ha]; [|by split]. cbn. intros tr2 Hpre2.
    assert (alerts_gone o s tr2) by (eapply alerts_lasts; eauto).
    split; [done|]. intros [n|e] _; cbn; (split; [do 2 (etrans; [done|]); by eexists|]); [|done].
    intros _. by apply did_now. }
  unfold alerts_gone. destruct (o_investigations o); cbn.
  - intros tr' Hpre. assert (objects_gone o s tr') by eauto with opengate. split; [done|].
    intros [u|e] _; cbn; (split; [etrans; [done|]; by eexists|]); [|done]. intros _. by apply did_now.
  - by split.
Qed.

Lemma deletePostgres_subject j :
  scope_ok j → deletePostgres o j = and_then (delete_in_postgres o (subject_of j)) (λ _, Ret (Ok tt)).
Proof.
  unfold scope_ok, deletePostgres, subject_of. destruct (j_Scope j); [by intros [d ->]|by intros ->].
Qed.

Lemma safe_stagePostgresDelete j s tr :
  held o tr j → subject_of j = s → objects_gone o s tr →
  safe (stagePostgresDelete o j) (stage_post s (rows_gone o s)) tr.
Proof.
  intros Hj Hs Hd. unfold stagePostgresDelete. destruct (j_PGDeleted j) eqn:Ev.
  { split_and!; [done|done|]. intros _. subst s. by apply (just_pg _ _ _ (held_just _ _ _ Hj)). }
  apply wp_bind. rewrite deletePostgres_subject by apply Hj. rewrite Hs. apply safe_and_then.
  eapply wp_mono; [|by apply safe_delete_in_postgres].
  intros tr2 [n|e] _ [Hpre Hrows]; cbn [wp].
  - specialize (Hrows eq_refl). apply safe_update; [|done..|by eauto with opengate].
    apply held_set_pg; [by eauto with opengate|by subst s].
  - apply safe_fail; eauto with opengate.
Qed.

Lemma safe_verify_loop n s tr :
  rows_gone o s tr →
  safe (verify_loop n s) (λ tr' r, tr `prefix_of` tr' ∧ (r = Ok true → verified_empty o s tr')) tr.
Proof.
  revert tr. induction n as [|n IH]; intros tr Hr; [by split|].
  cbn [verify_loop]. apply safe_and_then. cbn [call_out wp]. intros tr' Hpre.
  assert (rows_gone o s tr') by eauto with opengate. split; [done|]. intros [c|e] _; [|cbn; rewrite app_nil_r; by split].
  cbn [happened]. case_bool_decide as Ec.
  { split; [etrans; [done|]; by eexists|]. intros _. by apply did_now. }
  rewrite app_nil_r. destruct n as [|n]; [by split|]. apply safe_and_then. cbn [call_out wp]. intros tr2 Hpre2.
  split; [done|]. intros [u|e] _; cbn [happened]; rewrite app_nil_r; [|split; [by etrans|done]].
  eapply wp_mono; [|apply IH; by eauto with opengate].
  intros tr3 r _ [Hpre3 Hv]. split; [|done]. by do 2 (etrans; [done|]).
Qed.

Lemma safe_complete_job j s tr :
  held o tr j → subject_of j = s → verified_empty o s tr → safe (complete_job j) (stage_post s (verified_empty o s)) tr.
Proof.
  intros Hj Hs Hv. apply safe_call. intros tr' Hpre.
  assert (held o tr' (set_last_error (set_state j StateComplete) [])).
  { apply held_set_last_error, held_set_state. by eauto with opengate. }
  assert (verified_empty o s tr') by eauto with opengate.
  split; [split; [done|by subst s]|]. intros r _. cbn. rewrite app_nil_r. by split_and!.
Qed.

Lemma safe_stageVerifyComplete j s tr :
  held o tr j → subject_of j = s → rows_gone o s tr →
  safe (stageVerifyComplete o j) (stage_post s (rows_gone o s)) tr.
Proof.
  intros Hj Hs Hd. unfold stageVerifyComplete. destruct (j_Verified j) eqn:Ev.
  { eapply wp_mono; [|apply safe_complete_job; [done|done|]].
    - intros tr' r Hpre (Hh & Hsub & _). split_and!; eauto with opengate.
    - subst s. by apply (just_verified _ _ _ (held_just _ _ _ Hj)). }
  apply wp_bind. unfold verifyEmpty. rewrite Hs. eapply wp_mono; [|by apply safe_verify_loop].
  intros tr2 [[]|e] _ [Hpre Hv].
  - specialize (Hv eq_refl). eapply wp_mono; [|apply safe_complete_job; [apply held_set_verified| |]].
    + intros tr' r Hpre' (Hh & Hsub & _). split_and!; [done|done|]. intros _. eapply rows_lasts, Hd. by etrans.
    + by eauto with opengate.
    + by subst s.
    + done.
    + done.
  - apply safe_update; [|done|by eauto with opengate..]. apply held_set_last_error, held_set_state. by eauto with opengate.
  - apply safe_fail; eauto with opengate.
Qed.

Lemma safe_Run j tr :
  held o tr j → denied o (subject_of j) tr → safe (Run o j) (λ _ _, True) tr.
Proof.
  intros Hj Hd. set (s := subject_of j) in *. unfold Run.
  apply safe_then_stage. eapply wp_mono with (Q := stage_post s (rows_gone o s)).
  { intros tr' [[u|e] j'] _ (Hh & Hs & HG); [|done].
    eapply wp_mono; [|apply safe_stageVerifyComplete; [done|done|by apply HG]]. done. }
  apply safe_then_stage. eapply wp_mono with (Q := stage_post s (objects_gone o s)).
  { intros tr' [[u|e] j'] _ (Hh & Hs & HG); [|by split_and!].
    apply safe_stagePostgresDelete; [done|done|by apply HG]. }
  apply safe_then_stage. eapply wp_mono with (Q := stage_post s (series_gone o s)).
  { intros tr' [[u|e] j'] _ (Hh & Hs & HG); [|by split_and!].
    apply safe_stageObjectDelete; [done|done|by apply HG]. }
  by apply safe_stageVMDelete.
Qed.

(** A tombstone leaves the subject denied. *)
Lemma safe_tombstone_each t ids tr :
  safe (tombstone_each t ids)
    (λ tr' r, tr `prefix_of` tr' ∧ (is_ok r = true → ∀ id, id ∈ ids → EvTomb (t, Some id) ∈ tr')) tr.
Proof.
  revert tr. induction ids as [|id ids IH]; intros tr; [by split; [|intros _ ? ?%not_elem_of_nil]|].
  cbn [tombstone_each]. apply safe_and_then. cbn [call_out wp]. intros tr' Hpre. split; [done|].
  intros [u|e] _; cbn [happened ok_event]; [|rewrite app_nil_r; by split].
  eapply wp_mono; [|apply IH]. intros tr2 r _ [Hpre2 Hids].
  split; [etrans; [done|]; etrans; [|done]; by eexists|].
  intros Hok id' [->|?]%elem_of_cons; [|by apply Hids].
  by eapply elem_end.
Qed.

Lemma safe_applyTombstone j tr :
  scope_ok j →
  safe (applyTombstone o j) (λ tr' r, tr `prefix_of` tr' ∧ (is_ok r = true → denied o (subject_of j) tr')) tr.
Proof.
  unfold scope_ok, applyTombstone, subject_of. destruct (j_Scope j).
  - intros [d ->]. apply safe_and_then. cbn [call_out wp]. intros tr' Hpre. split; [done|].
    intros [u|e] _; cbn [happened ok_event]; [|rewrite app_nil_r; by split].
    set (tr2 := tr' ++ _). assert (tr `prefix_of` tr2) by (etrans; [done|by eexists]).
    assert (EvTomb (j_TenantID j, Some d) ∈ tr2) by (apply elem_of_app; right; by apply list_elem_of_singleton).
    clearbody tr2. destruct (o_edge o) eqn:Ee; [|split; [done|]; intros _; split; [done|by rewrite Ee]].
    cbn. intros tr3 Hpre3. split; [by eauto with opengate|]. intros [] _.
    split; [etrans; [done|]; etrans; [done|by eexists]|]. intros _. split; cbn.
    + apply elem_of_app. left. by eauto with opengate.
    + intros _. apply elem_of_app. right. by apply list_elem_of_singleton.
  - intros ->. unfold applyTenantTombstone. set (t := j_TenantID j).
    apply safe_and_then. cbn [call_out wp]. intros tr1 Hpre1. split; [done|].
    intros [u|e] _; cbn [happened ok_event]; [|rewrite app_nil_r; by split].
    apply safe_and_then. cbn [call_out wp]. intros tr2 Hpre2. split; [done|].
    assert (tr1 `prefix_of` tr2) by (etrans; [|done]; by eexists).
    intros [ids|e] _; cbn [happened]; [|rewrite app_nil_r; split; [by etrans|done]].
    assert (EvTomb (t, None) ∈ tr2).
    { by eapply elem_end. }
    apply safe_and_then. eapply wp_mono; [|apply safe_tombstone_each]. intros tr3 [v|e] _ [Hpre3 Hids].
    2: { split; [|done]. etrans; [done|]. etrans; [done|]. etrans; [|done]. by eexists. }
    specialize (Hids eq_refl). assert (tr2 `prefix_of` tr3) by (etrans; [|done]; by eexists).
    assert (EvListed t ids ∈ tr3).
    { by eapply elem_end. }
    assert (Hden : ∀ tr4, tr3 `prefix_of` tr4 → EvTomb (t, None) ∈ tr4 ∧
      ∃ ids, EvListed t ids ∈ tr4 ∧ ∀ id, id ∈ ids → EvTomb (t, Some id) ∈ tr4).
    { intros tr4 Hpre4. split; [|exists ids; split]; eauto with opengate. }
    destruct (o_edge o) eqn:Ee.
    + cbn. intros tr4 Hpre4. split; [done|]. intros [] _.
      split; [etrans; [by etrans|]; do 2 (etrans; [done|]); by eexists|]. intros _.
      destruct (Hden (tr4 ++ [EvTenant t])) as [??]; [etrans; [done|by eexists]|].
      split; [done|split; [done|]]. intros _. apply elem_of_app. right. by apply list_elem_of_singleton.
    + split; [etrans; [by etrans|]; by etrans|]. intros _. destruct (Hden tr3) as [??]; [done|].
      split; [done|split; [done|]]. cbn. by rewrite Ee.
Qed.

Lemma safe_resume_each jobs tr :
  Forall (held o tr) jobs → safe (resume_each o jobs) (λ _ _, True) tr.
Proof.
  revert tr. induction jobs as [|j jobs IH]; intros tr; [done|]. intros [Hj Hjobs]%Forall_cons.
  assert (Hrest : ∀ tr', tr `prefix_of` tr' → safe (resume_each o jobs) (λ _ _, True) tr').
  { intros tr' Hpre. apply IH. eapply Forall_impl; [done|]. eauto with opengate. }
  cbn [resume_each]. apply wp_bind. eapply wp_mono; [|by apply safe_applyTombstone, Hj].
  intros tr2 [u|e] _ [Hpre Hd]; [|by apply Hrest]. apply wp_bind.
  eapply wp_mono; [|apply safe_Run; [by eauto with opengate|by apply Hd]].
  intros tr3 r Hpre3 _. apply Hrest. by etrans.
Qed.

Lemma safe_Resume tr : safe (Resume o) (λ _ _, True) tr.
Proof.
  apply safe_and_then. cbn [call_out wp]. intros tr' Hpre. split; [done|].
  intros [jobs|e] Hjobs; [|done]. apply wp_bind. cbn [happened]. apply safe_resume_each.
  apply Forall_forall. intros j Hj. cbn in Hjobs. rewrite Forall_forall in Hjobs.
  destruct (Hjobs j Hj) as [Hs Hju]. split; [done| |].
  - apply elem_of_app. right. by apply (list_elem_of_fmap_2 (λ j, EvJob (j_ID j) (subject_of j))).
  - eapply justified_lasts; [|done]. by eexists.
Qed.

Lemma safe_startup tr : safe (startup o) (λ _ _, True) tr.
Proof.
  apply safe_call. intros tr' Hpre. split; [done|]. intros r _. apply wp_bind.
  eapply wp_mono; [|apply safe_Resume]. intros tr2 r2 _ _. cbn. done.
Qed.

Lemma safe_start_purge j tr :
  scope_ok j → j_VMDeleted j = false → j_ObjectDeleted j = false → j_PGDeleted j = false → j_Verified j = false →
  safe (run_started o (start_purge o j)) (λ _ _, True) tr.
Proof.
  intros Hs Hv Ho Hp Hr. unfold run_started. apply wp_bind, safe_and_then. cbn [call_out wp].
  intros tr' Hpre. split; [done|]. intros [u|e] _; [|done]. cbn [happened ok_event].
  apply safe_and_then. eapply wp_mono; [|by apply safe_applyTombstone].
  intros tr2 [v|e] _ [Hpre2 Hd]; [|done]. cbn [wp]. apply wp_bind.
  eapply wp_mono; [|apply safe_Run; [|by apply Hd]]; [done|]. split; [done| |].
  - by eapply elem_end.
  - split; by rewrite ?Hv, ?Ho, ?Hp, ?Hr.
Qed.
End programs.

(** ** The tables agree with the history *)

Section server.
Context (o : Orchestrator) (gen : uuid → uuid).
Implicit Types (tr : list event) (s : subject) (j : PurgeJob) (w : world).

Record world_ok tr w : Prop := {
  ok_scope : Forall scope_ok (w_jobs w);
  ok_just : Forall (justified o tr) (w_jobs w);
  ok_done : ∀ row, row ∈ w_jobs w → j_CompletedAt row ≠ None → verified_empty o (subject_of row) tr;
  ok_ids : NoDup (j_ID <$> w_jobs w);
  ok_known : ∀ id s, EvJob id s ∈ tr → ∃ row, row ∈ w_jobs w ∧ j_ID row = id ∧ subject_of row = s;
  ok_deleted : ∀ s, EvTomb s ∈ tr → s ∈ w_deleted w;
  ok_order : ordered o tr;
  ok_warm : w_warm w = true → ∀ d, EvAgent d ∈ tr → d ∈ w_tombstones w;
}.

(** What the world must show for an event to be added. *)
Definition recorded w (e : event) : Prop :=
  match e with
  | EvJob id s => ∃ row, row ∈ w_jobs w ∧ j_ID row = id ∧ subject_of row = s
  | EvTomb s => s ∈ w_deleted w
  | EvAgent d => d ∈ w_tombstones w
  | _ => True
  end.

Lemma ordered_snoc tr e : ordered o tr → in_order o tr e → ordered o (tr ++ [e]).
Proof.
  intros Ho He pre e' post Heq. destruct post as [|x post _] using rev_ind.
  - apply app_inj_tail in Heq as [-> ->]. done.
  - rewrite app_comm_cons, app_assoc in Heq. apply app_inj_tail in Heq as [-> _]. by eapply Ho.
Qed.

Lemma world_ok_event tr w e :
  world_ok tr w → in_order o tr e → recorded w e → world_ok (tr ++ [e]) w.
Proof.
  intros [Hs Hj Hd Hi Hk Ht Ho Hw] He Hr. assert (Hpre : tr `prefix_of` tr ++ [e]) by by eexists.
  split; try done.
  - eapply Forall_impl; [done|]. by eauto with opengate.
  - eauto with opengate.
  - intros id s [?| <-%list_elem_of_singleton]%elem_of_app; [by apply Hk|done].
  - intros s [?| <-%list_elem_of_singleton]%elem_of_app; [by apply Ht|done].
  - by apply ordered_snoc.
  - intros Hwarm d [?| <-%list_elem_of_singleton]%elem_of_app; [by apply Hw|done].
Qed.

Lemma world_ok_events tr w l :
  world_ok tr w → Forall (λ e, ∀ tr', in_order o tr' e) l → Forall (recorded w) l → world_ok (tr ++ l) w.
Proof.
  revert tr. induction l as [|e l IH]; intros tr Hw; [by rewrite app_nil_r|].
  intros [He Hl]%Forall_cons [Hr Hrs]%Forall_cons. change (e :: l) with ([e] ++ l). rewrite app_assoc.
  apply IH; [|done..]. by apply world_ok_event.
Qed.

(** A change that leaves the jobs alone and forgets no deny-list entry. *)
Lemma world_ok_change tr w w' :
  world_ok tr w → w_jobs w' = w_jobs w → w_deleted w ⊆ w_deleted w' →
  (w_warm w' = true → w_warm w = true ∧ w_tombstones w ⊆ w_tombstones w') → world_ok tr w'.
Proof.
  intros [Hs Hj Hd Hi Hk Ht Ho Hw] HJ HD HT. split; rewrite ?HJ; try done.
  - intros s ?. by apply HD, Ht.
  - intros [? HT']%HT d ?. by apply HT', Hw.
Qed.

Lemma world_ok_row tr w j row :
  world_ok tr w → held o tr j → row ∈ w_jobs w → j_ID row = j_ID j → subject_of row = subject_of j.
Proof.
  intros Hw Hh Hrow Hid. destruct (ok_known _ _ Hw _ _ (held_known _ _ _ Hh)) as (row' & Hrow' & Hid' & Hs).
  rewrite <- Hs. f_equal. apply list_elem_of_lookup in Hrow as [i Hi]. apply list_elem_of_lookup in Hrow' as [i' Hi'].
  assert (i = i') as ->; [|congruence].
  eapply (NoDup_lookup (j_ID <$> w_jobs w)); [apply (ok_ids _ _ Hw)|by rewrite list_lookup_fmap, Hi|].
  rewrite list_lookup_fmap, Hi'. cbn. congruence.
Qed.

(** A job written over its own row. *)
Lemma world_ok_update tr w j f :
  world_ok tr w → held o tr j →
  (∀ row, j_ID (f row) = j_ID row ∧ subject_of (f row) = subject_of row ∧ j_Scope (f row) = j_Scope row ∧
     j_VMDeleted (f row) = j_VMDeleted j ∧ j_ObjectDeleted (f row) = j_ObjectDeleted j ∧
     j_PGDeleted (f row) = j_PGDeleted j ∧ j_Verified (f row) = j_Verified j) →
  ((∀ row, j_CompletedAt (f row) = j_CompletedAt row) ∨ verified_empty o (subject_of j) tr) →
  world_ok tr (set_jobs w (update_row (j_ID j) f (w_jobs w))).
Proof.
  intros Hw Hh Hf Hc. pose proof (λ row, world_ok_row tr w j row Hw Hh) as Hrow. destruct Hw as [Hs Hj Hd Hi Hk Ht Ho Hwm].
  assert (Hsame : ∀ row, (j_ID (if bool_decide (j_ID row = j_ID j) then f row else row)) = j_ID row ∧
    subject_of (if bool_decide (j_ID row = j_ID j) then f row else row) = subject_of row).
  { intros row. case_bool_decide; [|done]. by destruct (Hf row) as (-> & -> & _). }
  split; cbn [set_jobs w_jobs w_deleted w_warm w_tombstones]; try done; unfold update_row.
  - apply Forall_fmap. eapply Forall_impl; [exact Hs|]. intros row Hsc. cbn. case_bool_decide; [|done].
    destruct (Hf row) as (_ & Hsub & Hscope & _). unfold scope_ok in *. rewrite Hscope.
    by injection Hsub as _ ->.
  - apply Forall_fmap, Forall_forall. intros row Hin. cbn. case_bool_decide as Hid; [|by eapply Forall_forall in Hj].
    destruct (Hf row) as (_ & Hsub & _ & Hv & Hob & Hp & Hr). destruct (held_just _ _ _ Hh) as [????].
    split; rewrite Hsub, (Hrow _ Hin Hid), ?Hv, ?Hob, ?Hp, ?Hr; done.
  - intros row' (row & -> & Hin)%list_elem_of_fmap. destruct (Hsame row) as [_ ->].
    case_bool_decide as Hid; [|by apply Hd]. intros Hne. destruct Hc as [Hc|Hc]; [|by rewrite (Hrow _ Hin Hid)].
    rewrite Hc in Hne. by apply Hd.
  - rewrite <- list_fmap_compose. erewrite list_fmap_ext; [exact Hi|]. intros i row _. apply Hsame.
  - intros id s' (row & Hin & Hid & Hsub)%Hk. eexists. split; [by apply list_elem_of_fmap_2|].
    destruct (Hsame row) as [-> ->]. done.
Qed.

Lemma settle_cases {A} f (a : A) w w' r w2 :
  settle f a w w' = (r, w2) → (r = Ok a ∧ w2 = w') ∨ (∃ e, r = Err e ∧ (w2 = w ∨ w2 = w')).
Proof. destruct f; intros [= <- <-]; eauto. Qed.

(** A statement that answers keeps the world right, and adds its event. *)
Lemma settle_ok {A} f (a : A) tr w w' r w2 e :
  settle f a w w' = (r, w2) → world_ok tr w → world_ok tr w' → in_order o tr e → recorded w' e →
  world_ok (tr ++ ok_event r e) w2.
Proof.
  intros [[-> ->]|(err & -> & [-> | ->])]%settle_cases ????; cbn; rewrite ?app_nil_r; try done.
  by apply world_ok_event.
Qed.

Lemma settle_quiet {A} f (a : A) tr w w' r w2 :
  settle f a w w' = (r, w2) → world_ok tr w → world_ok tr w' → world_ok tr w2.
Proof. by intros [[-> ->]|(err & -> & [-> | ->])]%settle_cases. Qed.

Lemma world_ok_create tr w j :
  world_ok tr w → scope_ok j → existsb (λ r, bool_decide (j_ID r = j_ID j)) (w_jobs w) = false →
  world_ok tr (set_jobs w (w_jobs w ++ [job_row (w_now w) j])).
Proof.
  intros [Hs Hj Hd Hi Hk Ht Ho Hw] Hsc Hnew. split; cbn [set_jobs w_jobs w_deleted w_warm w_tombstones]; try done.
  - apply Forall_app. split; [done|]. by apply Forall_singleton.
  - apply Forall_app. split; [done|]. apply Forall_singleton. by split.
  - intros row [?| ->%list_elem_of_singleton]%elem_of_app; [by apply Hd|done].
  - rewrite fmap_app. apply NoDup_app. split_and!; [done| |apply NoDup_singleton].
    intros id (row & -> & Hin)%list_elem_of_fmap Heq%list_elem_of_singleton. cbn in Heq.
    assert (existsb (λ r, bool_decide (j_ID r = j_ID j)) (w_jobs w) = true) as Hyes; [|congruence].
    apply existsb_exists. exists row. split; [by apply list_elem_of_In|by apply bool_decide_eq_true].
  - intros id s (row & Hin & ? & ?)%Hk. exists row. split; [|done]. apply elem_of_app. by left.
Qed.

Lemma set_tables_ok tr w d c : world_ok tr w → world_ok tr (set_tables w d c).
Proof. intros Hw. by apply (world_ok_change _ w). Qed.

Lemma exec_call_ok {R} (c : call R) f tr w r w' :
  world_ok tr w → allowed o tr R c → exec_call gen c f w = (r, w') →
  possible o tr R c r ∧ world_ok (tr ++ happened R c r) w'.
Proof.
  intros Hw Hal Hex. split.
  { destruct c; try done. cbn in *. destruct r as [jobs|]; [|done].
    apply settle_cases in Hex as [[[= ->] _]|(? & ? & _)]; [|done]. apply Forall_forall.
    intros j [Hin _]%list_elem_of_In%filter_In. apply list_elem_of_In in Hin. destruct Hw as [Hs Hj _ _ _ _ _ _].
    rewrite Forall_forall in Hs, Hj. auto. }
  destruct c; cbn [exec_call] in Hex; cbn [happened]; cbn [allowed] in Hal; try (rewrite app_nil_r).
  - destruct (existsb _ _) eqn:Ex; [simplify_eq; by rewrite app_nil_r|].
    eapply settle_ok; [done|done|by apply world_ok_create|done|]. exists (job_row (w_now w) j). split; [|by split].
    apply elem_of_app. right. by apply list_elem_of_singleton.
  - eapply settle_quiet; [done|done|]. apply world_ok_update; [done|done|done|by left].
  - destruct Hal as [Hh Hv]. eapply settle_quiet; [done|done|]. apply world_ok_update; [done|done|done|by right].
  - apply settle_cases in Hex as [[-> ->]|(e & -> & [-> | ->])]; rewrite ?app_nil_r; try done.
    apply world_ok_events; [done|apply Forall_fmap, Forall_true; by intros|].
    apply Forall_fmap, Forall_forall. intros j [Hin _]%list_elem_of_In%filter_In. exists j.
    split; [by apply list_elem_of_In|done].
  - eapply settle_ok; [done|done| |done|set_solver]. apply (world_ok_change _ w); [done|done|set_solver|done].
  - eapply settle_ok; [done|done| |done|set_solver]. apply (world_ok_change _ w); [done|done|set_solver|done].
  - case_bool_decide; [simplify_eq; by rewrite app_nil_r|].
    apply settle_cases in Hex as [[-> ->]|(e & -> & [-> | ->])]; rewrite ?app_nil_r; try done.
    by apply world_ok_event.
  - simplify_eq. apply world_ok_event; [|done|cbn; set_solver].
    apply (world_ok_change _ w); [done|done|done|]. intros ?. split; [done|cbn; set_solver].
  - simplify_eq. apply world_ok_event; [|done|done].
    apply (world_ok_change _ w); [done|done|done|]. intros ?. split; [done|cbn; set_solver].
  - by eapply settle_ok.
  - apply settle_cases in Hex as [[-> ->]|(e & -> & [-> | ->])]; rewrite ?app_nil_r; try done.
    case_bool_decide; rewrite ?app_nil_r; [|done]. by apply world_ok_event.
  - by eapply settle_ok.
  - destruct (erase_alerts_of gen s w) as [[u|e] d]; [|simplify_eq; by rewrite app_nil_r].
    eapply settle_ok; [done|done|by apply set_tables_ok|done|done].
  - case_bool_decide; [simplify_eq; by rewrite app_nil_r|].
    destruct (delete_rows_of s w) as [n w2] eqn:Ed. eapply settle_ok; [done|done| |done|done].
    unfold delete_rows_of in Ed. destruct (s.2); simplify_eq; by apply set_tables_ok.
  - by eapply settle_quiet.
  - destruct f; simplify_eq; try done. destruct Hw as [Hs Hj Hd Hi Hk Ht Ho Hwm]. split; try done.
    cbn. intros _ d Hd'. apply list_elem_of_split in Hd' as (pre & post & ->).
    destruct (Ho _ _ _ eq_refl) as [t Htomb]. apply elem_of_union. left. apply elem_of_set_omap.
    exists (t, Some d). split; [|done]. apply Ht, elem_of_app. by left.
  - simplify_eq. by apply (world_ok_change _ w).
Qed.

Record server_ok (y : server) : Prop := {
  ok_world : world_ok (y_trace y) (y_world y);
  ok_threads : Forall (λ p, safely o p (λ _ _, True) (y_trace y)) (y_threads y);
}.

Lemma safe_later {A} (p : purge A) tr tr' :
  tr `prefix_of` tr' → safely o p (λ _ _, True) tr → safely o p (λ _ _, True) tr'.
Proof. by apply wp_future. Qed.

Lemma act_exec_ok y a : server_ok y → server_ok (act_exec gen o y a).
Proof.
  intros [Hw Ht]. destruct y as [w ts tr]. cbn [y_world y_trace y_threads] in *.
  assert (Hsame : server_ok (mk_server w ts tr)) by done.
  assert (Hspawn : ∀ p, safely o p (λ _ _, True) tr → server_ok (mk_server w (ts ++ [p]) tr)).
  { intros p Hp. split; [done|]. apply Forall_app. split; [done|]. by apply Forall_singleton. }
  destruct a as [|id t d by_|id t by_|i f| |d row|i|d|n]; cbn [act_exec].
  - destruct ts; [|done]. destruct (w_serving w); [done|]. apply Hspawn, safe_startup.
  - destruct (w_serving w); [|done]. apply Hspawn. apply safe_start_purge; [by eexists|done..].
  - destruct (w_serving w); [|done]. apply Hspawn. by apply safe_start_purge.
  - destruct (ts !! i) as [[a|R c k|]|] eqn:Ei; try done.
    pose proof (Forall_lookup_1 _ _ _ _ Ht Ei) as Hi. destruct (Hi tr) as [Hal Hk]; [done|].
    destruct (exec_call gen c f w) as [r w'] eqn:Ex.
    destruct (exec_call_ok c f tr w r w' Hw Hal Ex) as [Hpos Hw']. split; [done|].
    apply Forall_insert; [|by apply Hk]. eapply Forall_impl; [exact Ht|]. intros p.
    apply safe_later. by eexists.
  - split; [|done]. by apply (world_ok_change _ w).
  - destruct (_ && _); [|done]. split; [|done]. by apply (world_ok_change _ w).
  - destruct (w_pending w !! i) as [[d row]|]; [|done]. split; [|done]. by apply (world_ok_change _ w).
  - split; [|done]. by apply (world_ok_change _ w).
  - split; [|done]. by apply (world_ok_change _ w).
Qed.

Lemma run_acts_ok y acts : server_ok y → server_ok (run_acts gen o y acts).
Proof. revert y. induction acts as [|a acts IH]; intros y Hy; [done|]. by apply IH, act_exec_ok. Qed.

Lemma fresh_ok now deleted d certs : server_ok (fresh_server now deleted d certs).
Proof.
  split; [|constructor]. split; cbn; try done.
  - by intros ? ?%not_elem_of_nil.
  - constructor.
  - by intros ? ? ?%not_elem_of_nil.
  - by intros ? ?%not_elem_of_nil.
  - intros pre e post Heq. by destruct pre.
Qed.
End server.

(** C14: Whatever calls fail and wherever processes are cut off and started again,
    erasure keeps its order (a subject is denied before its series are deleted,
    its series and objects are deleted before its alerts and rows, and rows
    before the count that finds it empty), every flag of a stored job stands
    for work that was acknowledged in that order, a job is stamped complete
    only after all of it, and no goroutine dereferences a job's missing device. *)
Theorem purge_evidence o gen now deleted d certs acts :
  let y := run_acts gen o (fresh_server now deleted d certs) acts in
  ordered o (y_trace y) ∧
  Forall (λ row, justified o (y_trace y) row ∧
                 (j_CompletedAt row ≠ None → verified_empty o (subject_of row) (y_trace y)))
    (w_jobs (y_world y)) ∧
  Forall (λ p, p ≠ Panic) (y_threads y).
Proof.
  intros y. destruct (run_acts_ok o gen _ acts (fresh_ok o now deleted d certs)) as [Hw Ht]. fold y in Hw, Ht.
  split_and!.
  - apply Hw.
  - apply Forall_forall. intros row Hin. split; [|by apply Hw].
    pose proof (ok_just _ _ _ Hw) as Hj. rewrite Forall_forall in Hj. by apply Hj.
  - eapply Forall_impl; [exact Ht|]. by intros p Hp ->.
Qed.

(** ** A deleted machine is kept out *)

Section out.
Context (o : Orchestrator) (gen : uuid → uuid).

(** Every registration is checked by a process that has loaded the deny-list. *)
Fixpoint checked_warm (y : server) (acts : list act) : bool :=
  match acts with
  | [] => true
  | a :: acts =>
      match a with ACheck _ _ => w_warm (y_world y) | _ => true end && checked_warm (act_exec gen o y a) acts
  end.

Lemma Scoped_devices {A} ctx (fn : Tenant → tx A) x dev :
  (∀ t a x', fn t x = Ok (a, x') → t_devices x' = dev) → t_devices x = dev → t_devices (Scoped ctx fn x).2 = dev.
Proof.
  intros Hfn Hx. unfold Scoped. destruct (TenantFromContext ctx); [|done].
  destruct (fn _ x) as [[a x']|e] eqn:E; [|done]. by eapply Hfn.
Qed.

Lemma erase_devices s w : t_devices (erase_alerts_of gen s w).2 = t_devices (w_db w).
Proof.
  unfold erase_alerts_of, EraseDeviceAlerts, EraseTenantInvestigations.
  destruct (s.2); apply Scoped_devices; try done; by intros t a x' [= _ <-].
Qed.

Lemma delete_devices_None f d x : t_devices x !! d = None → t_devices (delete_devices f x) !! d = None.
Proof. intros H. cbn. apply map_lookup_filter_None. by left. Qed.

Lemma exec_call_devices {R} (c : call R) f w r w' d :
  exec_call gen c f w = (r, w') → t_devices (w_db w) !! d = None →
  t_devices (w_db w') !! d = None ∧ w_pending w' = w_pending w.
Proof.
  intros Hex Hd.
  assert (Hset : ∀ A g (a : A) w2 r w', settle g a w w2 = (r, w') →
    t_devices (w_db w2) !! d = None ∧ w_pending w2 = w_pending w →
    t_devices (w_db w') !! d = None ∧ w_pending w' = w_pending w).
  { intros A g a w2 r' w3 [[-> ->]|(e & -> & [-> | ->])]%settle_cases ?; done. }
  destruct c; cbn [exec_call] in Hex; try (by eapply Hset); try (by simplify_eq).
  - destruct (existsb _ _); [by simplify_eq|by eapply Hset].
  - case_bool_decide; [by simplify_eq|by eapply Hset].
  - pose proof (erase_devices s w) as He.
    destruct (erase_alerts_of gen s w) as [[u|e] x]; [|by simplify_eq].
    eapply Hset; [done|]. cbn in *. by rewrite He.
  - case_bool_decide; [by simplify_eq|]. destruct (delete_rows_of s w) as [n w2] eqn:Ed.
    eapply Hset; [done|]. unfold delete_rows_of in Ed. destruct (s.2); simplify_eq; cbn [set_tables w_db w_pending];
      (split; [by apply delete_devices_None|done]).
  - destruct f; by simplify_eq.
Qed.

Lemma kept_out y a d :
  server_ok o y → checked_warm y [a] = true → EvAgent d ∈ y_trace y → d ∉ (w_pending (y_world y)).*1 →
  t_devices (w_db (y_world y)) !! d = None →
  EvAgent d ∈ y_trace (act_exec gen o y a) ∧ (d ∉ (w_pending (y_world (act_exec gen o y a))).*1) ∧
  t_devices (w_db (y_world (act_exec gen o y a))) !! d = None.
Proof.
  intros [Hw Ht] Hwarm Hev Hpend Hrow. destruct y as [w ts tr]. cbn [y_world y_trace checked_warm] in *.
  destruct a as [|id t d' by_|id t by_|i f| |d' row|i|d'|n]; cbn [act_exec];
    try (repeat case_match; by split_and!).
  - destruct (ts !! i) as [[a|R c k|]|] eqn:Ei; try done. destruct (exec_call gen c f w) as [r w'] eqn:Ex.
    destruct (exec_call_devices c f w r w' d Ex Hrow) as [Hd Hp].
    cbn. rewrite Hp. split_and!; [apply elem_of_app; by left|done|done].
  - split_and!; [done|by apply not_elem_of_nil|done].
  - rewrite andb_true_r in Hwarm. destruct (w_serving w && _) eqn:Hc; [|done]. cbn. split_and!; [done| |done].
    rewrite fmap_app, not_elem_of_app. split; [done|]. cbn. intros ->%list_elem_of_singleton.
    apply andb_true_iff in Hc as [_ Hc%negb_true_iff]. apply bool_decide_eq_false in Hc.
    by apply Hc, (ok_warm _ _ _ Hw).
  - destruct (w_pending w !! i) as [[d' row]|] eqn:Ei; [|done]. cbn. split_and!; [done| |].
    + contradict Hpend. apply list_elem_of_fmap in Hpend as ([d2 row2] & -> & Hin). apply list_elem_of_fmap.
      exists (d2, row2). split; [done|]. by eapply list_elem_of_delete_inv.
    + rewrite lookup_insert_ne; [done|]. intros ->. apply Hpend, list_elem_of_fmap. exists (d, row).
      split; [done|]. by eapply list_elem_of_lookup_2.
Qed.
End out.

(** C25: Once the agent server has been told that a device is deleted, no
    registration of it is in flight and its row is gone, the device has no row
    again: not after further purges, crashes and restarts, provided each process
    that checks a registration has loaded the deny-list. *)
Theorem purged_device_stays_out o gen now deleted x certs acts acts' d :
  let y := run_acts gen o (fresh_server now deleted x certs) acts in
  EvAgent d ∈ y_trace y → d ∉ (w_pending (y_world y)).*1 → t_devices (w_db (y_world y)) !! d = None →
  checked_warm o gen y acts' = true →
  t_devices (w_db (y_world (run_acts gen o y acts'))) !! d = None.
Proof.
  intros y. assert (Hy : server_ok o y) by apply run_acts_ok, fresh_ok. clearbody y. revert y Hy.
  induction acts' as [|a acts' IH]; intros y Hy Hev Hpend Hrow Hwarm; [done|].
  cbn [checked_warm] in Hwarm. apply andb_true_iff in Hwarm as [Ha Hrest].
  destruct (kept_out o gen y a d) as (? & ? & ?); [done|cbn; by rewrite andb_true_r|done..|].
  by apply (IH (act_exec gen o y a)); [apply act_exec_ok|..].
Qed.

(** ** A restart completes what was left *)

Section resume.
Context (o : Orchestrator) (gen : uuid → uuid) (left : subject → Z).

(** A goroutine run by itself, every call answered. *)
Definition runs_to {A} (p : purge A) (w : world) (a : A) (w' : world) : Prop :=
  ∀ tr, ∃ tr', run_prog gen left p w tr = (Some a, w', tr').

Lemma runs_ret {A} (a : A) w : runs_to (Ret a) w a w.
Proof. intros tr. by eexists. Qed.

Lemma runs_call {R} (c : call R) w r w' : exec_call gen c (answered left c) w = (r, w') → runs_to (call_out c) w r w'.
Proof. intros H tr. eexists. cbn. by rewrite H. Qed.

Lemma run_prog_bind {A B} f (p : purge A) (k : A → purge B) w tr :
  run_prog gen f (p ≫= k) w tr =
  match run_prog gen f p w tr with
  | (Some a, w1, tr1) => run_prog gen f (k a) w1 tr1
  | (None, w1, tr1) => (None, w1, tr1)
  end.
Proof.
  revert w tr. induction p as [a|R c k' IH|]; intros w tr; cbn; [done| |done].
  destruct (exec_call gen c (answered f c) w) as [r w1]. apply IH.
Qed.

Lemma runs_bind {A B} (p : purge A) (k : A → purge B) w a w1 b w2 :
  runs_to p w a w1 → runs_to (k a) w1 b w2 → runs_to (p ≫= k) w b w2.
Proof.
  intros H1 H2 tr. destruct (H1 tr) as [tr1 E1]. destruct (H2 tr1) as [tr2 E2]. exists tr2.
  by rewrite run_prog_bind, E1.
Qed.

Lemma runs_and_then {A B} (p : purge (result bytes A)) (k : A → purge (result bytes B)) w a w1 b w2 :
  runs_to p w (Ok a) w1 → runs_to (k a) w1 b w2 → runs_to (and_then p k) w b w2.
Proof. intros H1 H2. by eapply runs_bind. Qed.

Lemma runs_then_stage p k w j w1 b w2 :
  runs_to p w (Ok tt, j) w1 → runs_to (k j) w1 b w2 → runs_to (then_stage p k) w b w2.
Proof. intros H1 H2. by eapply runs_bind. Qed.

(** Worlds whose jobs differ only in the progress of the jobs in [ids]. *)
Record advances (id : uuid) (w w' : world) : Prop := {
  adv_others : ∀ row, row ∈ w_jobs w' → j_ID row ≠ id → row ∈ w_jobs w;
  adv_ids : j_ID <$> w_jobs w' = j_ID <$> w_jobs w;
  adv_deleted : w_deleted w ⊆ w_deleted w';
}.

#[local] Instance advances_preorder id : PreOrder (advances id).
Proof.
  split; [by split|]. intros w1 w2 w3 [H1 H2 H3] [H4 H5 H6]. split; [auto|congruence|by etrans].
Qed.

Lemma advances_update id f w :
  (∀ row, j_ID (f row) = j_ID row) → advances id w (set_jobs w (update_row id f (w_jobs w))).
Proof.
  intros Hf. split; [| |done]; cbn [set_jobs w_jobs]; unfold update_row.
  - intros row' (row & -> & Hin)%list_elem_of_fmap. case_bool_decide as Hid; [|done]. by rewrite Hf, Hid.
  - rewrite <- list_fmap_compose. apply list_fmap_ext. intros i row _. cbn. by case_bool_decide.
Qed.

Lemma runs_update j w :
  ∃ w', runs_to (r ← call_out (UpdateProgress j); Ret (r, j)) w (Ok tt, j) w' ∧ advances (j_ID j) w w'.
Proof.
  eexists. split; [eapply runs_bind; [by apply runs_call|apply runs_ret]|]. by apply advances_update.
Qed.

(** What a stage leaves of the job it works on. *)
Definition same_job (j j' : PurgeJob) : Prop :=
  j_ID j' = j_ID j ∧ subject_of j' = subject_of j ∧ j_Scope j' = j_Scope j ∧ j_Verified j' = j_Verified j.

#[local] Instance same_job_preorder : PreOrder same_job.
Proof. split; [done|]. intros j1 j2 j3 (?&?&?&?) (?&?&?&?). unfold same_job. split_and!; congruence. Qed.

Lemma runs_stageVMDelete j w :
  ∃ j' w', runs_to (stageVMDelete j) w (Ok tt, j') w' ∧ advances (j_ID j) w w' ∧ same_job j j' ∧ j_VMDeleted j' = true.
Proof.
  unfold stageVMDelete. destruct (j_VMDeleted j) eqn:Ev; [exists j, w; split; [apply runs_ret|done]|].
  destruct (runs_update (set_last_error (set_state (set_vm j) StateCentralLogicalComplete) []) w) as (w' & Hr & Ha).
  do 2 eexists. split; [eapply runs_bind; [by apply runs_call|exact Hr]|done].
Qed.

Lemma runs_stageObjectDelete j w : j_VMDeleted j = true →
  ∃ j' w', runs_to (stageObjectDelete o j) w (Ok tt, j') w' ∧ advances (j_ID j) w w' ∧ same_job j j' ∧
    j_VMDeleted j' = true ∧ j_ObjectDeleted j' = true.
Proof.
  intros Hv. unfold stageObjectDelete. destruct (j_ObjectDeleted j) eqn:Eo; [exists j, w; split; [apply runs_ret|done]|].
  destruct (o_objects o).
  - set (j1 := set_state j StateObjectDeletePending).
    set (w1 := set_jobs w (update_row (j_ID j1) (progressed (w_now w) j1) (w_jobs w))).
    destruct (runs_update (set_object j1) w1) as (w' & Hr & Ha). exists (set_object j1), w'.
    split; [|split; [|done]].
    + eapply runs_bind; [by apply runs_call|]. eapply runs_bind; [by apply runs_call|exact Hr].
    + etrans; [|exact Ha]. by apply advances_update.
  - destruct (runs_update (set_object j) w) as (w' & Hr & Ha). by exists (set_object j), w'.
Qed.

Lemma runs_delete_in_postgres s w :
  s.1 ≠ Nil → ∃ n w', runs_to (delete_in_postgres o s) w (Ok n) w' ∧ w_jobs w' = w_jobs w ∧ w_deleted w' = w_deleted w.
Proof.
  intros Hnil. unfold delete_in_postgres.
  assert (∃ w1, runs_to (if o_investigations o then call_out (EraseAlerts s) else Ret (Ok tt)) w (Ok tt) w1 ∧
    w_jobs w1 = w_jobs w ∧ w_deleted w1 = w_deleted w) as (w1 & H1 & Hj & Hd).
  { destruct (o_investigations o); [|by exists w; split; [apply runs_ret|]].
    assert (is_ok (erase_alerts_of gen s w).1 = true) as Hok.
    { unfold erase_alerts_of, EraseDeviceAlerts, EraseTenantInvestigations, Scoped, TenantFromContext.
      destruct (s.2); cbn; by rewrite bool_decide_eq_false_2. }
    destruct (erase_alerts_of gen s w) as [[u|e] d] eqn:Ee; [|done]. eexists. split; [apply runs_call|].
    - cbn [exec_call]. by rewrite Ee.
    - done. }
  destruct (delete_rows_of s w1) as [n w2] eqn:Ed. exists n, w2. split.
  - eapply runs_and_then; [exact H1|]. apply runs_call. cbn [exec_call]. rewrite bool_decide_eq_false_2 by done.
    by rewrite Ed.
  - unfold delete_rows_of in Ed. destruct (s.2); simplify_eq; done.
Qed.

(** Everything is deleted, and only the count is left to do. *)
Definition erased (j : PurgeJob) : Prop := j_VMDeleted j = true ∧ j_ObjectDeleted j = true ∧ j_PGDeleted j = true.

Lemma runs_stagePostgresDelete j w :
  scope_ok j → j_TenantID j ≠ Nil → j_VMDeleted j = true → j_ObjectDeleted j = true →
  ∃ j' w', runs_to (stagePostgresDelete o j) w (Ok tt, j') w' ∧ advances (j_ID j) w w' ∧ same_job j j' ∧ erased j'.
Proof.
  intros Hs Hn Hv Ho. unfold stagePostgresDelete. destruct (j_PGDeleted j) eqn:Ep; [exists j, w; split; [apply runs_ret|done]|].
  destruct (runs_delete_in_postgres (subject_of j) w Hn) as (n & w1 & H1 & Hj & Hd).
  destruct (runs_update (set_pg j) w1) as (w' & Hr & Ha). exists (set_pg j), w'. split; [|split; [|done]].
  - apply (runs_bind _ _ _ (Ok tt) w1); [|exact Hr]. rewrite deletePostgres_subject by done.
    eapply runs_and_then; [exact H1|apply runs_ret].
  - etrans; [|exact Ha]. split; rewrite ?Hj, ?Hd; done.
Qed.

(** How a restart leaves the row of a job. *)
Definition settled (j row : PurgeJob) : Prop :=
  if j_Verified j || bool_decide (left (subject_of j) = 0)
  then is_Some (j_CompletedAt row) ∧ j_State row = StateComplete
  else j_State row = StateCentralPhysicalPending ∧ erased row.

Lemma runs_complete j w :
  ∃ w' j', runs_to (complete_job j) w (Ok tt, j') w' ∧ advances (j_ID j) w w' ∧
    ∀ row, row ∈ w_jobs w' → j_ID row = j_ID j → is_Some (j_CompletedAt row) ∧ j_State row = StateComplete.
Proof.
  do 2 eexists. split; [eapply runs_bind; [by apply runs_call|apply runs_ret]|]. split; [by apply advances_update|].
  cbn. intros row' (row & -> & Hin)%list_elem_of_fmap. case_bool_decide as Hid; [|done]. intros _. by split.
Qed.

Lemma runs_verify_loop n s w : left s ≠ 0 → runs_to (verify_loop n s) w (Ok false) w.
Proof.
  intros Hl. induction n as [|n IH]; cbn [verify_loop]; [apply runs_ret|].
  eapply runs_and_then; [by apply runs_call|]. rewrite bool_decide_eq_false_2 by done.
  destruct n; [apply runs_ret|]. eapply runs_and_then; [by apply runs_call|exact IH].
Qed.

Lemma runs_stageVerifyComplete j w : erased j →
  ∃ w' j', runs_to (stageVerifyComplete o j) w (Ok tt, j') w' ∧ advances (j_ID j) w w' ∧
    ∀ row, row ∈ w_jobs w' → j_ID row = j_ID j → settled j row.
Proof.
  intros He. unfold stageVerifyComplete, settled. destruct (j_Verified j); [apply runs_complete|]. cbn [orb].
  unfold verifyEmpty. case_bool_decide as Hl.
  - destruct (runs_complete (set_verified j) w) as (w' & j' & Hr & H). exists w', j'. split; [|done].
    apply (runs_bind _ _ _ (Ok true) w); [|exact Hr].
    destruct (Z.to_nat (Z.max (o_MaxAttempts o) 1)) as [|n] eqn:En; [lia|]. cbn [verify_loop].
    eapply runs_and_then; [by apply runs_call|]. rewrite bool_decide_eq_true_2 by done. apply runs_ret.
  - set (j1 := set_last_error (set_state j StateCentralPhysicalPending) (lit "vm series awaiting compaction")).
    exists (set_jobs w (update_row (j_ID j1) (progressed (w_now w) j1) (w_jobs w))), j1.
    split; [|split; [by apply advances_update|]].
    + apply (runs_bind _ _ _ (Ok false) w); [by apply runs_verify_loop|]. eapply runs_bind; [by apply runs_call|apply runs_ret].
    + cbn. intros row' (row & -> & Hin)%list_elem_of_fmap. case_bool_decide as Hid; [|done]. intros _. done.
Qed.

Lemma runs_Run j w :
  scope_ok j → j_TenantID j ≠ Nil →
  ∃ w' j', runs_to (Run o j) w (Ok tt, j') w' ∧ advances (j_ID j) w w' ∧
    ∀ row, row ∈ w_jobs w' → j_ID row = j_ID j → settled j row.
Proof.
  intros Hs Hn.
  destruct (runs_stageVMDelete j w) as (j1 & w1 & R1 & A1 & S1 & V1).
  destruct (runs_stageObjectDelete j1 w1 V1) as (j2 & w2 & R2 & A2 & S2 & V2 & O2).
  assert (same_job j j2) as S12 by (by etrans). pose proof S12 as (I2 & E2 & C2 & _).
  assert (scope_ok j2 ∧ j_TenantID j2 ≠ Nil) as [Hs2 Hn2].
  { unfold scope_ok in *. injection E2 as T2 D2. by rewrite C2, D2, T2. }
  destruct (runs_stagePostgresDelete j2 w2 Hs2 Hn2 V2 O2) as (j3 & w3 & R3 & A3 & S3 & He).
  destruct (runs_stageVerifyComplete j3 w3 He) as (w4 & j4 & R4 & A4 & Hdone).
  assert (same_job j j3) as (I3 & E3 & _ & F3) by (by etrans). destruct S1 as (I1 & _).
  exists w4, j4. split; [|split].
  - eapply runs_then_stage; [|exact R4]. eapply runs_then_stage; [|exact R3]. by eapply runs_then_stage.
  - rewrite I3 in A4. rewrite I2 in A3. rewrite I1 in A2. by do 3 (etrans; [done|]).
  - intros row Hrow Hid. rewrite I3 in Hdone. specialize (Hdone row Hrow Hid). unfold settled in *. by rewrite F3, E3 in Hdone.
Qed.

Lemma runs_tombstone_each t ids w :
  ∃ w', runs_to (tombstone_each t ids) w (Ok tt) w' ∧ w_jobs w' = w_jobs w ∧ w_deleted w ⊆ w_deleted w' ∧
    ∀ id, id ∈ ids → (t, Some id) ∈ w_deleted w'.
Proof.
  revert w. induction ids as [|id ids IH]; intros w.
  { exists w. split_and!; [apply runs_ret|done|done|by intros ? ?%not_elem_of_nil]. }
  destruct (IH (tombstone (t, Some id) w)) as (w' & Hr & Hj & Hd & Hids).
  exists w'. split_and!; [|by rewrite Hj|set_solver|].
  - eapply runs_and_then; [by apply runs_call|done].
  - intros id' [->|?]%elem_of_cons; [|by apply Hids]. set_solver.
Qed.

Lemma runs_applyTombstone j w :
  scope_ok j → j_TenantID j ≠ Nil →
  ∃ w', runs_to (applyTombstone o j) w (Ok tt) w' ∧ w_jobs w' = w_jobs w ∧ w_deleted w ⊆ w_deleted w' ∧
    subject_of j ∈ w_deleted w'.
Proof.
  unfold scope_ok, applyTombstone, subject_of. destruct (j_Scope j).
  - intros [d ->] Hn. destruct (o_edge o) eqn:Ee.
    + eexists. split; [|split_and!].
      * eapply runs_and_then; [by apply runs_call|]. eapply runs_bind; [by apply runs_call|apply runs_ret].
      * done.
      * cbn. set_solver.
      * cbn. set_solver.
    + eexists. split; [eapply runs_and_then; [by apply runs_call|apply runs_ret]|]. cbn. split_and!; [done|set_solver..].
  - intros -> Hn. unfold applyTenantTombstone. set (t := j_TenantID j) in *.
    set (w1 := tombstone (t, None) w).
    destruct (runs_tombstone_each t (tenant_devices t (w_db w1)) w1) as (w2 & R2 & J2 & D2 & _).
    assert (w_deleted w ⊆ w_deleted w2 ∧ (t, None) ∈ w_deleted w2) as [??] by (cbn in D2; set_solver).
    assert (∃ w', runs_to (if o_edge o then _ ← call_out (DeregisterTenant t); Ret (Ok tt) else Ret (Ok tt) : purge (result bytes unit)) w2 (Ok tt) w' ∧
      w_jobs w' = w_jobs w2 ∧ w_deleted w' = w_deleted w2) as (w3 & R3 & J3 & D3).
    { destruct (o_edge o); [|by exists w2; split; [apply runs_ret|]].
      eexists. split; [eapply runs_bind; [by apply runs_call|apply runs_ret]|done]. }
    exists w3. rewrite J3, D3, J2. split_and!; [|done..].
    eapply runs_and_then; [by apply runs_call|]. eapply runs_and_then; [apply runs_call|].
    { cbn [exec_call]. by rewrite bool_decide_eq_false_2. }
    by eapply runs_and_then.
Qed.

Definition resumable (j : PurgeJob) : Prop := scope_ok j ∧ j_TenantID j ≠ Nil.

Lemma runs_resume_each jobs w :
  NoDup (j_ID <$> jobs) → Forall resumable jobs →
  ∃ w', runs_to (resume_each o jobs) w tt w' ∧
    (∀ j row, j ∈ jobs → row ∈ w_jobs w' → j_ID row = j_ID j → settled j row) ∧
    (∀ row, row ∈ w_jobs w' → j_ID row ∉ j_ID <$> jobs → row ∈ w_jobs w) ∧
    j_ID <$> w_jobs w' = j_ID <$> w_jobs w ∧ w_deleted w ⊆ w_deleted w' ∧
    (∀ j, j ∈ jobs → subject_of j ∈ w_deleted w').
Proof.
  revert w. induction jobs as [|j jobs IH]; intros w.
  { intros _ _. exists w. split_and!; [apply runs_ret|by intros ? ? ?%not_elem_of_nil|done..|by intros ? ?%not_elem_of_nil]. }
  cbn [fmap list_fmap]. intros [Hfresh Hnd]%NoDup_cons [[Hs Hn] Hjobs]%Forall_cons.
  destruct (runs_applyTombstone j w Hs Hn) as (w1 & R1 & J1 & D1 & T1).
  destruct (runs_Run j w1 Hs Hn) as (w2 & j' & R2 & [O2 I2 D2] & F2).
  destruct (IH w2 Hnd Hjobs) as (w3 & R3 & F3 & O3 & I3 & D3 & T3).
  exists w3. split_and!.
  - eapply runs_bind; [exact R1|]. by eapply runs_bind.
  - intros j2 row [->|Hj2]%elem_of_cons Hin Hid; [|by apply F3].
    apply F2; [|done]. apply O3; [done|]. by rewrite Hid.
  - intros row Hin. rewrite not_elem_of_cons. intros [Hne Hnot]. rewrite <- J1. apply O2; [by apply O3|done].
  - by rewrite I3, I2, J1.
  - set_solver.
  - intros j2 [->|?]%elem_of_cons; [set_solver|by apply T3].
Qed.
End resume.

(** C28: A restart in which no call fails takes every job to its end: [Resume] returns
    without error; a job that was complete is as it was; a job whose series count is
    zero, or was verified before, is stamped complete in [StateComplete]; a job of
    which series are still counted, awaiting compaction, has everything else deleted
    and stays in [StateCentralPhysicalPending]; and every subject resumed is on the
    deny-list.  Job ids are unique, the jobs are of a tenant that is not nil and name
    the device their scope needs, and a subject's count does not change during the
    restart. *)
Theorem resume_completes o gen left w :
  NoDup (j_ID <$> w_jobs w) → Forall (λ j, j_CompletedAt j = None → resumable j) (w_jobs w) →
  ∃ w', (∀ tr, ∃ tr', run_prog gen left (Resume o) w tr = (Some (Ok tt), w', tr')) ∧
    j_ID <$> w_jobs w' = j_ID <$> w_jobs w ∧
    (∀ row, row ∈ w_jobs w' → ∃ j, j ∈ w_jobs w ∧ j_ID row = j_ID j ∧
       if decide (j_CompletedAt j = None) then settled left j row else row = j) ∧
    (∀ j, j ∈ w_jobs w → j_CompletedAt j = None → subject_of j ∈ w_deleted w').
Proof.
  intros Hnd Hall. set (jobs := List.filter incomplete (w_jobs w)).
  assert (Hin : ∀ j, j ∈ jobs ↔ j ∈ w_jobs w ∧ j_CompletedAt j = None).
  { intros j. unfold jobs. rewrite !list_elem_of_In, filter_In. unfold incomplete. by rewrite bool_decide_eq_true. }
  rewrite Forall_forall in Hall.
  destruct (runs_resume_each o gen left jobs w) as (w' & R & F & O & I & D & T).
  { clear -Hnd. unfold jobs. induction (w_jobs w) as [|j l IH]; [constructor|]. cbn [fmap list_fmap List.filter] in *.
    apply NoDup_cons in Hnd as [Hj Hnd]. destruct (incomplete j); [|by apply IH]. cbn. apply NoDup_cons. split; [|by apply IH].
    intros (j' & E & Hj')%list_elem_of_fmap. apply Hj, list_elem_of_fmap. exists j'. split; [done|].
    apply list_elem_of_In, filter_In in Hj' as [? _]. by apply list_elem_of_In. }
  { apply Forall_forall. intros j [? ?]%Hin. by apply Hall. }
  exists w'. split_and!; [|done| |].
  - eapply runs_and_then; [by apply runs_call|]. eapply runs_bind; [exact R|apply runs_ret].
  - intros row Hrow. destruct (decide (j_ID row ∈ j_ID <$> jobs)) as [Hid|Hid].
    + apply list_elem_of_fmap in Hid as (j & Ej & Hj). exists j. destruct (proj1 (Hin j) Hj) as [Hj' Hc].
      split_and!; [done|done|]. rewrite decide_True by done. by apply F.
    + pose proof (O row Hrow Hid) as Hold. exists row. split_and!; [done|done|]. rewrite decide_False; [done|].
      intros Hc. apply Hid, list_elem_of_fmap. exists row. split; [done|]. by apply Hin.
  - intros j Hj Hc. apply T, Hin. done.
Qed.

(** ** Reconciliation *)

Lemma sweep_each_spec live del subjects n :
  let gone := List.filter (λ td, negb (bool_decide (td.2 ∈ live)) && bool_decide (del td.1 td.2 = None)) subjects in
  sweep_each live del subjects n = (n + blen gone, gone).
Proof.
  revert n. induction subjects as [|[t d] l IH]; intros n; cbn [sweep_each List.filter fst snd]; [by rewrite Z.add_0_r|].
  case_bool_decide; cbn [negb andb]; [apply IH|]. destruct (del t d) as [e|] eqn:Ed.
  - rewrite bool_decide_eq_false_2 by done. apply IH.
  - rewrite bool_decide_eq_true_2 by done. rewrite IH. f_equal. unfold blen. cbn [length]. lia.
Qed.

(** A sweep deletes exactly the listed series whose device has no row among
    those listed before, and counts the deletes that succeeded. *)
Lemma sweep_exact ids subjects del n gone :
  Sweep (Ok ids) (Ok subjects) del = (Ok n, gone) →
  n = blen gone ∧ ∀ t d, (t, d) ∈ gone ↔ (t, d) ∈ subjects ∧ (d ∉ ids) ∧ del t d = None.
Proof.
  unfold Sweep. rewrite sweep_each_spec. intros [= <- <-]. split; [lia|]. intros t d.
  rewrite !list_elem_of_In, filter_In, andb_true_iff, negb_true_iff, bool_decide_eq_false, bool_decide_eq_true. cbn.
  rewrite elem_of_list_to_set, list_elem_of_In. done.
Qed.

(** ** Runs *)

Definition demo_uuid (n : Z) : uuid := replicate 15 x00 ++ [byte_of_Z n].
Definition demo_row (t : uuid) : device_row := mk_devrow t None false.
Definition demo_orch : Orchestrator := NewOrchestrator false true true 0.

(** A server in which machines 1 and 2 of tenant 9 have rows. *)
Definition demo_server : server :=
  fresh_server 0 ∅
    (mk_db ∅ ∅ [] {[demo_uuid 1 := demo_row (demo_uuid 9); demo_uuid 2 := demo_row (demo_uuid 9)]} ∅ ∅ ∅) ∅.

(** A start of the process: the deny-list, the jobs left, the listeners. *)
Definition demo_start : list act := AStart :: replicate 3 (ACall 0 (Done 0)).

(** Machine 1 is connected when the tenant is purged, every call succeeding. *)
Definition demo_tenant_purge : list act :=
  demo_start ++ [ACheck (demo_uuid 1) (demo_row (demo_uuid 9)); AWrite 0; APurgeTenant (demo_uuid 7) (demo_uuid 9) (demo_uuid 8)] ++
  replicate 14 (ACall 1 (Done 0)).

(** The deny-list entries a tenant's purge records for its machines reach the
    agent server only at its next start: after a purge in which every call
    succeeded and whose job is complete, the machine that was connected is
    denied, but one that was offline passes the check and gets a row in the
    purged tenant again, though it is on the persisted deny-list. *)
Theorem purged_tenant_readmits_offline :
  let y := run_acts id demo_orch demo_server demo_tenant_purge in
  let y' := run_acts id demo_orch y [ACheck (demo_uuid 2) (demo_row (demo_uuid 9)); AWrite 0] in
  (j_State <$> w_jobs (y_world y)) = [StateComplete] ∧ t_devices (w_db (y_world y)) = ∅ ∧
  (demo_uuid 9, Some (demo_uuid 2)) ∈ w_deleted (y_world y) ∧
  isTombstoned (y_world y) (demo_uuid 1) = true ∧ isTombstoned (y_world y) (demo_uuid 2) = false ∧
  t_devices (w_db (y_world y')) !! demo_uuid 2 = Some (demo_row (demo_uuid 9)).
Proof.
  split_and!; [vm_compute; reflexivity|by apply map_eq; intros i; vm_compute|refine (bool_decide_eq_true_1 _ _); by vm_compute|by vm_compute..].
Qed.

(** A registration that passed the deny-list check before the device was
    deleted writes its row after the purge has deleted it. *)
Lemma late_registration_returns :
  let y := run_acts id demo_orch demo_server
    (demo_start ++ [ACheck (demo_uuid 1) (demo_row (demo_uuid 9)); ADeleteDevice (demo_uuid 7) (demo_uuid 9) (demo_uuid 1) (demo_uuid 8)] ++
     replicate 11 (ACall 1 (Done 0))) in
  (j_State <$> w_jobs (y_world y)) = [StateComplete] ∧ t_devices (w_db (y_world y)) !! demo_uuid 1 = None ∧
  t_devices (w_db (y_world (run_acts id demo_orch y [AWrite 0]))) !! demo_uuid 1 = Some (demo_row (demo_uuid 9)).
Proof. by split_and!; vm_compute. Qed.

Lemma purged_device_stays_out_witness :
  let acts := demo_start ++ [ADeleteDevice (demo_uuid 7) (demo_uuid 9) (demo_uuid 1) (demo_uuid 8)] ++ replicate 11 (ACall 1 (Done 0)) in
  let y := run_acts id demo_orch demo_server acts in
  t_devices (w_db (y_world (run_acts id demo_orch y
    (ACrash :: demo_start ++ [ACheck (demo_uuid 1) (demo_row (demo_uuid 9)); AWrite 0])))) !! demo_uuid 1 = None.
Proof.
  intros acts y. apply (purged_device_stays_out demo_orch id 0 ∅ _ ∅ acts).
  - apply (list_elem_of_lookup_2 _ 2). by vm_compute.
  - refine (bool_decide_eq_true_1 _ _). by vm_compute.
  - by vm_compute.
  - by vm_compute.
Defined.

Definition demo_left : world :=
  y_world (run_acts id demo_orch demo_server
    (demo_start ++ [ADeleteDevice (demo_uuid 7) (demo_uuid 9) (demo_uuid 1) (demo_uuid 8)] ++ replicate 6 (ACall 1 (Done 0)) ++ [ACrash])).

Lemma resume_completes_witness :
  j_VMDeleted <$> w_jobs demo_left = [true] ∧ j_CompletedAt <$> w_jobs demo_left = [None] ∧
  ∃ w', (∀ tr, ∃ tr', run_prog id (λ _, 0) (Resume demo_orch) demo_left tr = (Some (Ok tt), w', tr')) ∧
    ∀ row, row ∈ w_jobs w' → j_State row = StateComplete.
Proof.
  split; [by vm_compute|split; [by vm_compute|]].
  destruct (resume_completes demo_orch id (λ _, 0) demo_left) as (w' & Hrun & _ & Hrows & _).
  - let l := eval vm_compute in (j_ID <$> w_jobs demo_left) in change (j_ID <$> w_jobs demo_left) with l.
    apply NoDup_singleton.
  - let l := eval vm_compute in (w_jobs demo_left) in change (w_jobs demo_left) with l.
    apply Forall_singleton. intros _. split; [by eexists|done].
  - exists w'. split; [exact Hrun|]. intros row Hrow. destruct (Hrows row Hrow) as (j & Hj & _ & H).
    assert (j_CompletedAt j = None) as Hc.
    { revert Hj. let l := eval vm_compute in (w_jobs demo_left) in change (w_jobs demo_left) with l.
      intros ->%list_elem_of_singleton. reflexivity. }
    rewrite decide_True in H by exact Hc. unfold settled in H. rewrite orb_true_r in H. apply H.
Defined.
