(* ===== verification/Coverage.v ===== *)
(** * Which machines evaluate which rules

    [src/server/internal/agentapi/conn_coverage.go] with the table of
    [rules/postgres_coverage.go]: what each connected machine last reported about
    each rule, in memory; the rules it cannot evaluate, in a table; and the split
    of a fleet the two are aggregated into.  The sorts of [diffCoverage] only fix
    the order of statements that commute, so its lists are kept as sets. *)
From S2P Require Import Prelude GoTime GoStrings Settings Dbtx Control.

Definition maxRuleCoverageEntries : nat := 64.
Definition maxAlertRuleIDLen : nat := 64.

Definition RuleCoverageActive : bytes := lit "Active".
Definition RuleCoverageUnsupported : bytes := lit "Unsupported".
Definition RuleCoverageThrottled : bytes := lit "Throttled".

Definition sanitizeAlertRuleID (id : bytes) : bytes :=
  let id := TrimSpace id in
  if bool_decide (id = []) then []
  else if ContainsAny id [x20; x09; x0d; x0a] then lit "[redacted]"
  else if bool_decide (Z.of_nat maxAlertRuleIDLen < RuneCount id)
       then string_of_runes (take maxAlertRuleIDLen (runes id))
       else id.

(** ** In memory *)

Abbreviation states := (gmap bytes bytes).

Record RuleCoverageStore := mk_cov { c_byDevice : gmap uuid states }.

Definition NewRuleCoverageStore : RuleCoverageStore := mk_cov ∅.

Record RuleCoverageDelta := mk_delta {
  cd_Recorded : Z;
  cd_NowUnsupported : gset bytes;
  cd_NowActive : gset bytes;
}.

Definition known_state (s : bytes) : bool :=
  bool_decide (s ∈ [RuleCoverageActive; RuleCoverageUnsupported; RuleCoverageThrottled]).

(** The states a report leaves: the loop of [Report]. *)
Fixpoint collect (entries : list RuleCoverage) (m : states) : states :=
  match entries with
  | [] => m
  | e :: entries =>
      if (maxRuleCoverageEntries <=? size m)%nat then m
      else
        let id := sanitizeAlertRuleID (rc_RuleID e) in
        if bool_decide (id = []) then collect entries m
        else collect entries (if known_state (rc_State e) then <[id := rc_State e]> m else m)
  end.

(** [before[ruleID]]: a missing key reads as the empty string. *)
Definition state_in (m : states) (r : bytes) : bytes := default [] (m !! r).

Definition diffCoverage (before now : states) : RuleCoverageDelta :=
  let unsupported m r := bool_decide (state_in m r = RuleCoverageUnsupported) in
  mk_delta (Z.of_nat (size now))
    (filter (λ r, unsupported now r = true ∧ unsupported before r = false) (dom now))
    (filter (λ r, unsupported now r = false ∧ unsupported before r = true) (dom now) ∪
     filter (λ r, unsupported before r = true) (dom before ∖ dom now)).

Definition no_delta : RuleCoverageDelta := mk_delta 0 ∅ ∅.

Definition Report (s : RuleCoverageStore) (device : uuid) (entries : list RuleCoverage) :
    RuleCoverageDelta * RuleCoverageStore :=
  let m := collect entries ∅ in
  if bool_decide (m = ∅) then (no_delta, s)
  else (diffCoverage (default ∅ (c_byDevice s !! device)) m, mk_cov (<[device := m]> (c_byDevice s))).

Definition Forget (s : RuleCoverageStore) (device : uuid) : RuleCoverageStore :=
  mk_cov (delete device (c_byDevice s)).

Record RuleCoverageCounts := mk_counts {
  rcc_Active : Z;
  rcc_Throttled : Z;
  rcc_Unsupported : Z;
  rcc_Unknown : Z;
}.

Definition no_counts : RuleCoverageCounts := mk_counts 0 0 0 0.

(** One device's state of one rule added to the rule's entry. *)
Definition count_state (c : RuleCoverageCounts) (state : bytes) : RuleCoverageCounts :=
  if bool_decide (state = RuleCoverageThrottled)
  then mk_counts (rcc_Active c) (rcc_Throttled c + 1) (rcc_Unsupported c) (rcc_Unknown c)
  else if bool_decide (state = RuleCoverageUnsupported) then c
  else mk_counts (rcc_Active c + 1) (rcc_Throttled c) (rcc_Unsupported c) (rcc_Unknown c).

Definition add_device (counts : gmap bytes RuleCoverageCounts) (m : states) : gmap bytes RuleCoverageCounts :=
  map_fold (λ r state counts, <[r := count_state (default no_counts (counts !! r)) state]> counts) counts m.

Definition set_unsupported (counts : gmap bytes RuleCoverageCounts) (unsupported : gmap bytes Z) :
    gmap bytes RuleCoverageCounts :=
  map_fold (λ r n counts,
      let c := default no_counts (counts !! r) in
      <[r := mk_counts (rcc_Active c) (rcc_Throttled c) n (rcc_Unknown c)]> counts) counts unsupported.

Definition set_unknown (fleetSize : Z) (c : RuleCoverageCounts) : RuleCoverageCounts :=
  let unknown := fleetSize - rcc_Active c - rcc_Unsupported c - rcc_Throttled c in
  if bool_decide (0 < unknown) then mk_counts (rcc_Active c) (rcc_Throttled c) (rcc_Unsupported c) unknown else c.

Definition Aggregate (s : RuleCoverageStore) (fleetSize : Z) (unsupported : gmap bytes Z) :
    gmap bytes RuleCoverageCounts :=
  let counts := map_fold (λ _ m counts, add_device counts m) ∅ (c_byDevice s) in
  set_unknown fleetSize <$> set_unsupported counts unsupported.

(** ** The table *)

Record cov_row := mk_covrow {
  cv_tenant : uuid;
  cv_organization : uuid;
  cv_since : time;
}.

Abbreviation cov_table := (gmap (uuid * bytes) cov_row).

(** [markUnsupportedSQL] and [clearUnsupportedSQL] under the caller's tenant. *)
Definition MarkUnsupported (t organization device : uuid) (rule : bytes) (now : time) (tbl : cov_table) : cov_table :=
  match tbl !! (device, rule) with
  | Some _ => tbl
  | None => <[(device, rule) := mk_covrow t organization now]> tbl
  end.

Definition ClearUnsupported (t device : uuid) (rule : bytes) (tbl : cov_table) : cov_table :=
  match tbl !! (device, rule) with
  | Some row => if bool_decide (cv_tenant row = t) then delete (device, rule) tbl else tbl
  | None => tbl
  end.

(** [countUnsupportedSQL]: one count per rule, absent when there is none. *)
Definition CountUnsupported (organization : uuid) (t : uuid) (tbl : cov_table) : gmap bytes Z :=
  map_fold (λ k row counts,
      if bool_decide (cv_tenant row = t) && bool_decide (cv_organization row = organization)
      then <[k.2 := default 0 (counts !! k.2) + 1]> counts else counts) ∅ tbl.

Definition EraseDeviceCoverage (t device : uuid) (tbl : cov_table) : cov_table :=
  filter (λ kv, ¬ (cv_tenant kv.2 = t ∧ kv.1.1 = device)) tbl.

(** [persistRuleCoverage]: [ok] says which statements succeed; a failure is
    logged and the rest goes on. *)
Definition persistRuleCoverage (ok : bytes → bool) (t organization device : uuid) (now : time)
    (delta : RuleCoverageDelta) (tbl : cov_table) : cov_table :=
  let tbl := foldr (λ r tbl, if ok r then MarkUnsupported t organization device r now tbl else tbl) tbl
               (elements (cd_NowUnsupported delta)) in
  foldr (λ r tbl, if ok r then ClearUnsupported t device r tbl else tbl) tbl (elements (cd_NowActive delta)).

(** [recordRuleCoverage] on a connection of the device. *)
Definition recordRuleCoverage (ok : bytes → bool) (t organization device : uuid) (now : time)
    (entries : list RuleCoverage) (s : RuleCoverageStore) (tbl : cov_table) : bool * RuleCoverageStore * cov_table :=
  match entries with
  | [] => (false, s, tbl)
  | _ =>
      let '(delta, s') := Report s device entries in
      (bool_decide (0 < cd_Recorded delta), s', persistRuleCoverage ok t organization device now delta tbl)
  end.

(** [AgentServer.RuleCoverage]; [None] is a count that could not be read. *)
Definition RuleCoverage_ (s : RuleCoverageStore) (unsupported : option (gmap bytes Z)) (fleetSize : Z) :
    gmap bytes RuleCoverageCounts := Aggregate s fleetSize (default ∅ unsupported).

(** ** What happens to the two *)

Inductive cov_op :=
  | CovReport (ok : bytes → bool) (t organization device : uuid) (now : time) (entries : list RuleCoverage)
  | CovForget (device : uuid)            (* unregisterConn *)
  | CovErase (t device : uuid)
  | CovRestart.

Definition cov_exec (x : RuleCoverageStore * cov_table) (op : cov_op) : RuleCoverageStore * cov_table :=
  match op with
  | CovReport ok t org d now entries =>
      let '(_, s, tbl) := recordRuleCoverage ok t org d now entries x.1 x.2 in (s, tbl)
  | CovForget d => (Forget x.1 d, x.2)
  | CovErase t d => (x.1, EraseDeviceCoverage t d x.2)
  | CovRestart => (NewRuleCoverageStore, x.2)
  end.

Definition cov_run (x : RuleCoverageStore * cov_table) (ops : list cov_op) : RuleCoverageStore * cov_table :=
  foldl cov_exec x ops.

(** ** The table keeps up with a connected machine *)

Section table.
Implicit Types (tbl : cov_table) (s : RuleCoverageStore).

Definition mark_all (ok : bytes → bool) (t org d : uuid) (now : time) (l : list bytes) tbl : cov_table :=
  foldr (λ r tbl, if ok r then MarkUnsupported t org d r now tbl else tbl) tbl l.
Definition clear_all (ok : bytes → bool) (t d : uuid) (l : list bytes) tbl : cov_table :=
  foldr (λ r tbl, if ok r then ClearUnsupported t d r tbl else tbl) tbl l.

Lemma mark_all_other ok t org d now l tbl d' r : d' ≠ d → mark_all ok t org d now l tbl !! (d', r) = tbl !! (d', r).
Proof.
  intros Hd. induction l as [|r' l IH]; [done|]. cbn [mark_all foldr]. fold (mark_all ok t org d now l tbl).
  destruct (ok r'); [|done]. unfold MarkUnsupported. case_match; [done|]. rewrite lookup_insert_ne by congruence. done.
Qed.

Lemma clear_all_other ok t d l tbl d' r : d' ≠ d → clear_all ok t d l tbl !! (d', r) = tbl !! (d', r).
Proof.
  intros Hd. induction l as [|r' l IH]; [done|]. cbn [clear_all foldr]. fold (clear_all ok t d l tbl).
  destruct (ok r'); [|done]. unfold ClearUnsupported. case_match; [|done]. case_bool_decide; [|done].
  rewrite lookup_delete_ne by congruence. done.
Qed.

(** Every row of the device is the tenant's. *)
Definition rows_of_tenant (t d : uuid) tbl : Prop := ∀ r row, tbl !! (d, r) = Some row → cv_tenant row = t.

Lemma mark_all_spec t org d now l tbl :
  rows_of_tenant t d tbl →
  rows_of_tenant t d (mark_all (λ _, true) t org d now l tbl) ∧
  ∀ r, is_Some (mark_all (λ _, true) t org d now l tbl !! (d, r)) ↔ r ∈ l ∨ is_Some (tbl !! (d, r)).
Proof.
  intros Ht. induction l as [|r' l [IHt IH]]; [split; [done|]; cbn; intros r; split; [by right|by intros [?%not_elem_of_nil|]]|].
  cbn [mark_all foldr]. fold (mark_all (λ _, true) t org d now l tbl). set (tbl' := mark_all _ _ _ _ _ l tbl) in *.
  unfold MarkUnsupported. destruct (tbl' !! (d, r')) eqn:E.
  - split; [done|]. intros r. rewrite IH, elem_of_cons. split; [tauto|]. intros [[->|?]|?]; [|tauto..].
    apply IH. by eexists.
  - split.
    + intros r row. destruct (decide (r = r')) as [->|Hne].
      * rewrite lookup_insert_eq. by intros [= <-].
      * rewrite lookup_insert_ne by congruence. apply IHt.
    + intros r. rewrite elem_of_cons. destruct (decide (r = r')) as [->|Hne].
      * rewrite lookup_insert_eq. split; [by left; left|by eexists].
      * rewrite lookup_insert_ne by congruence. rewrite IH. tauto.
Qed.

Lemma clear_all_spec t d l tbl :
  rows_of_tenant t d tbl →
  rows_of_tenant t d (clear_all (λ _, true) t d l tbl) ∧
  ∀ r, is_Some (clear_all (λ _, true) t d l tbl !! (d, r)) ↔ (r ∉ l) ∧ is_Some (tbl !! (d, r)).
Proof.
  intros Ht. induction l as [|r' l [IHt IH]].
  { split; [done|]. intros r. cbn. split; [|tauto]. by split; [apply not_elem_of_nil|]. }
  cbn [clear_all foldr]. fold (clear_all (λ _, true) t d l tbl). set (tbl' := clear_all _ _ _ l tbl) in *.
  assert (Hc : ClearUnsupported t d r' tbl' = delete (d, r') tbl').
  { unfold ClearUnsupported. destruct (tbl' !! (d, r')) as [row|] eqn:E; [|by rewrite delete_id].
    rewrite bool_decide_eq_true_2; [done|by eapply IHt]. }
  rewrite Hc. split.
  - intros r row [_ ?]%lookup_delete_Some. by eapply IHt.
  - intros r. rewrite not_elem_of_cons. destruct (decide (r = r')) as [->|Hne].
    + rewrite lookup_delete_eq. split; [by intros [? ?]|tauto].
    + rewrite lookup_delete_ne by congruence. rewrite IH. tauto.
Qed.

(** The device's rows are the rules it last reported it cannot evaluate. *)
Record in_step (t d : uuid) (x : RuleCoverageStore * cov_table) : Prop := {
  step_tenant : rows_of_tenant t d x.2;
  step_rows : ∀ r, is_Some (x.2 !! (d, r)) ↔
    state_in (default ∅ (c_byDevice x.1 !! d)) r = RuleCoverageUnsupported;
}.

(** What keeps the device connected, and its statements answered. *)
Definition stays (t d : uuid) (op : cov_op) : Prop :=
  match op with
  | CovReport ok t' _ d' _ _ => d' = d → t' = t ∧ ok = λ _, true
  | CovForget d' => d' ≠ d
  | CovErase _ d' => d' ≠ d
  | CovRestart => False
  end.

Lemma unsupported_dom (m : states) r : state_in m r = RuleCoverageUnsupported → r ∈ dom m.
Proof. unfold state_in. intros H. apply elem_of_dom. destruct (m !! r); [done|by cbn in H]. Qed.

Lemma persist_in_step t org d now s tbl m :
  in_step t d (s, tbl) →
  in_step t d (mk_cov (<[d := m]> (c_byDevice s)),
    persistRuleCoverage (λ _, true) t org d now (diffCoverage (default ∅ (c_byDevice s !! d)) m) tbl).
Proof.
  intros [Ht Hr]. cbn [fst snd] in *. set (before := default ∅ (c_byDevice s !! d)) in *.
  unfold persistRuleCoverage. set (delta := diffCoverage before m).
  change (in_step t d (mk_cov (<[d := m]> (c_byDevice s)),
    clear_all (λ _, true) t d (elements (cd_NowActive delta))
      (mark_all (λ _, true) t org d now (elements (cd_NowUnsupported delta)) tbl))).
  destruct (mark_all_spec t org d now (elements (cd_NowUnsupported delta)) tbl Ht) as [Ht1 H1].
  destruct (clear_all_spec t d (elements (cd_NowActive delta)) _ Ht1) as [Ht2 H2].
  split; cbn [fst snd c_byDevice]; [done|]. rewrite lookup_insert_eq. intros r. change (default ∅ (Some m)) with m.
  rewrite H2, H1, Hr, !elem_of_elements. unfold delta, diffCoverage. cbn [cd_NowActive cd_NowUnsupported].
  rewrite elem_of_union, !elem_of_filter, elem_of_difference, !bool_decide_eq_true, !bool_decide_eq_false.
  pose proof (unsupported_dom m r). pose proof (unsupported_dom before r).
  destruct (decide (state_in m r = RuleCoverageUnsupported)), (decide (state_in before r = RuleCoverageUnsupported)),
    (decide (r ∈ dom m)); tauto.
Qed.

Lemma cov_exec_in_step t d x op : stays t d op → in_step t d x → in_step t d (cov_exec x op).
Proof.
  intros Hs [Ht Hr]. destruct x as [s tbl]. cbn [fst snd] in *.
  destruct op as [ok t' org d' now entries|d'|t' d'|]; cbn [cov_exec stays fst snd] in *; [| | |done].
  - destruct entries as [|e entries]; [done|]. cbn [recordRuleCoverage]. unfold Report.
    case_bool_decide as Hm.
    { cbn. split; [|done]. done. }
    set (m := collect (e :: entries) ∅) in *. clearbody m. destruct (decide (d' = d)) as [->|Hne].
    + destruct Hs as [-> ->]; [done|]. by apply (persist_in_step t org d now s tbl m).
    + unfold persistRuleCoverage. set (delta := diffCoverage _ m). clearbody delta.
      assert (Hsame : ∀ r, clear_all ok t' d' (elements (cd_NowActive delta))
        (mark_all ok t' org d' now (elements (cd_NowUnsupported delta)) tbl) !! (d, r) = tbl !! (d, r)).
      { intros r. by rewrite clear_all_other, mark_all_other. }
      split; cbn [fst snd c_byDevice].
      * intros r row. unfold clear_all, mark_all in Hsame. rewrite Hsame. apply Ht.
      * intros r. unfold clear_all, mark_all in Hsame. rewrite Hsame, lookup_insert_ne by done. apply Hr.
  - split; [done|]. cbn. intros r. rewrite lookup_delete_ne by done. apply Hr.
  - assert (Hsame : ∀ r, EraseDeviceCoverage t' d' tbl !! (d, r) = tbl !! (d, r)).
    { intros r. unfold EraseDeviceCoverage. destruct (tbl !! (d, r)) as [row|] eqn:E.
      - apply map_lookup_filter_Some. split; [done|]. cbn. intros [_ ?]. congruence.
      - apply map_lookup_filter_None. by left. }
    split; cbn [fst snd].
    + intros r row. rewrite Hsame. apply Ht.
    + intros r. rewrite Hsame. apply Hr.
Qed.
End table.

(** While a machine stays connected and its statements succeed, the rows of the
    table for it are exactly the rules its last report says it cannot evaluate,
    whatever other machines and tenants do. *)
Theorem coverage_in_step t d x ops :
  in_step t d x → Forall (stays t d) ops → in_step t d (cov_run x ops).
Proof.
  revert x. induction ops as [|op ops IH]; intros x Hx; [done|]. intros [Hop Hops]%Forall_cons.
  apply IH; [by apply cov_exec_in_step|done].
Qed.

(** ** The split of a fleet *)

Section split.
Implicit Types (m : states) (s : RuleCoverageStore).

(** The devices of which [P] holds of their state of rule [r]. *)
Definition devices_in (P : bytes → bool) (r : bytes) (by_device : gmap uuid states) : Z :=
  Z.of_nat (size (filter (λ kv, existsb P (option_list (kv.2 !! r)) = true) by_device)).

Definition is_throttled (st : bytes) : bool := bool_decide (st = RuleCoverageThrottled).
Definition is_active (st : bytes) : bool :=
  negb (is_throttled st) && negb (bool_decide (st = RuleCoverageUnsupported)).

Lemma devices_in_empty P r : devices_in P r ∅ = 0.
Proof. unfold devices_in. by rewrite map_filter_empty, map_size_empty. Qed.

Lemma devices_in_insert P r d m by_device :
  by_device !! d = None →
  devices_in P r (<[d := m]> by_device) =
  devices_in P r by_device + (if existsb P (option_list (m !! r)) then 1 else 0).
Proof.
  intros Hd. unfold devices_in. destruct (existsb P (option_list (m !! r))) eqn:E.
  - rewrite map_filter_insert_True by done. rewrite map_size_insert_None; [lia|].
    apply map_lookup_filter_None. by left.
  - rewrite map_filter_insert_False by (cbn; congruence). rewrite delete_id by done. lia.
Qed.

Lemma add_device_lookup counts m r :
  add_device counts m !! r =
  match m !! r with
  | Some st => Some (count_state (default no_counts (counts !! r)) st)
  | None => counts !! r
  end.
Proof.
  unfold add_device. revert r. apply (map_fold_weak_ind (λ acc m, ∀ r, acc !! r =
    match m !! r with
    | Some st => Some (count_state (default no_counts (counts !! r)) st)
    | None => counts !! r
    end)); [by intros r; rewrite lookup_empty|].
  intros r' st m' acc Hnone IH r. destruct (decide (r = r')) as [->|Hne].
  - rewrite !lookup_insert_eq, IH, Hnone. done.
  - rewrite !lookup_insert_ne by congruence. apply IH.
Qed.

Lemma count_state_spec c st :
  count_state c st = mk_counts (rcc_Active c + (if is_active st then 1 else 0))
    (rcc_Throttled c + (if is_throttled st then 1 else 0)) (rcc_Unsupported c) (rcc_Unknown c).
Proof.
  unfold count_state, is_active, is_throttled. destruct c. cbn.
  repeat case_bool_decide; cbn; simplify_eq; by rewrite ?Z.add_0_r.
Qed.

Lemma add_devices_spec by_device r :
  default no_counts (map_fold (λ _ m counts, add_device counts m) ∅ by_device !! r) =
  mk_counts (devices_in is_active r by_device) (devices_in is_throttled r by_device) 0 0.
Proof.
  apply (map_fold_weak_ind (λ acc by_device, default no_counts (acc !! r) =
    mk_counts (devices_in is_active r by_device) (devices_in is_throttled r by_device) 0 0)).
  { by rewrite !devices_in_empty, lookup_empty. }
  intros d m b acc Hnone IH. rewrite !devices_in_insert, add_device_lookup by done.
  destruct (m !! r) as [st|]; cbn.
  - rewrite IH, count_state_spec. cbn. by rewrite !orb_false_r.
  - by rewrite IH, !Z.add_0_r.
Qed.

Lemma set_unsupported_lookup counts unsupported r :
  set_unsupported counts unsupported !! r =
  match unsupported !! r with
  | Some n => let c := default no_counts (counts !! r) in
              Some (mk_counts (rcc_Active c) (rcc_Throttled c) n (rcc_Unknown c))
  | None => counts !! r
  end.
Proof.
  unfold set_unsupported. revert r. apply (map_fold_weak_ind (λ acc u, ∀ r, acc !! r =
    match u !! r with
    | Some n => let c := default no_counts (counts !! r) in
                Some (mk_counts (rcc_Active c) (rcc_Throttled c) n (rcc_Unknown c))
    | None => counts !! r
    end)); [by intros r; rewrite lookup_empty|].
  intros r' n u acc Hnone IH r. destruct (decide (r = r')) as [->|Hne].
  - rewrite !lookup_insert_eq, IH, Hnone. done.
  - rewrite !lookup_insert_ne by congruence. apply IH.
Qed.
End split.

(** The split of a fleet: a rule's active and throttled counts are the connected
    machines that last reported it so, its unsupported count is the one read
    from the table, what is left of the fleet is unknown, and the four add up
    to the fleet as long as the first three do not exceed it. *)
Theorem aggregate_exact s fleet unsupported r c :
  Aggregate s fleet unsupported !! r = Some c →
  rcc_Active c = devices_in is_active r (c_byDevice s) ∧
  rcc_Throttled c = devices_in is_throttled r (c_byDevice s) ∧
  rcc_Unsupported c = default 0 (unsupported !! r) ∧
  rcc_Unknown c = Z.max 0 (fleet - rcc_Active c - rcc_Throttled c - rcc_Unsupported c) ∧
  (rcc_Active c + rcc_Throttled c + rcc_Unsupported c ≤ fleet →
   rcc_Active c + rcc_Throttled c + rcc_Unsupported c + rcc_Unknown c = fleet).
Proof.
  unfold Aggregate. rewrite lookup_fmap, set_unsupported_lookup. pose proof (add_devices_spec (c_byDevice s) r) as Hd.
  set (counts := map_fold _ ∅ (c_byDevice s)) in *. clearbody counts.
  assert (∀ c0 n, c0 = mk_counts (devices_in is_active r (c_byDevice s)) (devices_in is_throttled r (c_byDevice s)) n 0 →
    set_unknown fleet c0 = c → n = default 0 (unsupported !! r) →
    rcc_Active c = devices_in is_active r (c_byDevice s) ∧ rcc_Throttled c = devices_in is_throttled r (c_byDevice s) ∧
    rcc_Unsupported c = default 0 (unsupported !! r) ∧
    rcc_Unknown c = Z.max 0 (fleet - rcc_Active c - rcc_Throttled c - rcc_Unsupported c)) as Hc.
  { intros c0 n -> <- ->. unfold set_unknown. cbn [rcc_Active rcc_Throttled rcc_Unsupported].
    case_bool_decide; cbn [rcc_Active rcc_Throttled rcc_Unsupported rcc_Unknown]; split_and!; try done; lia. }
  intros Hl. assert (rcc_Active c = devices_in is_active r (c_byDevice s) ∧ rcc_Throttled c = devices_in is_throttled r (c_byDevice s) ∧
    rcc_Unsupported c = default 0 (unsupported !! r) ∧
    rcc_Unknown c = Z.max 0 (fleet - rcc_Active c - rcc_Throttled c - rcc_Unsupported c)) as (? & ? & ? & ?).
  { destruct (unsupported !! r) as [n|] eqn:Eu; cbn in Hl.
    - rewrite Hd in Hl. cbn in Hl. injection Hl as Hl. by apply (Hc _ n eq_refl Hl).
    - destruct (counts !! r) as [c1|] eqn:Ec; [|done]. cbn in Hd, Hl. injection Hl as Hl. by apply (Hc c1 0). }
  split_and!; try done. lia.
Qed.

(** ** Where the two part *)

Definition demo_machine (n : Z) : uuid := replicate 15 x00 ++ [byte_of_Z n].
Definition demo_report (d : Z) (state : bytes) : cov_op :=
  CovReport (λ _, true) (demo_machine 9) (demo_machine 8) (demo_machine d) 0 [mk_rc (lit "cpu-high") state].

Lemma coverage_in_step_witness :
  in_step (demo_machine 9) (demo_machine 1)
    (cov_run (NewRuleCoverageStore, ∅)
       [demo_report 1 RuleCoverageUnsupported; demo_report 2 RuleCoverageActive; CovForget (demo_machine 2)]).
Proof.
  apply coverage_in_step.
  - split; [by intros r row|]. intros r. cbn. rewrite !lookup_empty. split; [by intros [? ?]|done].
  - repeat constructor; cbn; try done; by intros.
Defined.

Lemma aggregate_exact_witness :
  rcc_Unknown (mk_counts 1 0 1 3) = Z.max 0 (5 - 1 - 0 - 1).
Proof.
  pose (s := (cov_run (NewRuleCoverageStore, ∅) [demo_report 1 RuleCoverageActive; demo_report 2 RuleCoverageUnsupported]).1).
  destruct (aggregate_exact s 5 {[lit "cpu-high" := 1]} (lit "cpu-high") (mk_counts 1 0 1 3)) as (_ & _ & _ & H & _).
  - by vm_compute.
  - exact H.
Defined.

(** Disconnecting forgets what a machine reported, so a rule it evaluates again
    after reconnecting is not cleared from the table: the machine is counted
    both as active and as unsupported, in a fleet of one. *)
Theorem reconnect_leaves_unsupported :
  let x := cov_run (NewRuleCoverageStore, ∅)
    [demo_report 1 RuleCoverageUnsupported; CovForget (demo_machine 1); demo_report 1 RuleCoverageActive] in
  is_Some (x.2 !! (demo_machine 1, lit "cpu-high")) ∧
  RuleCoverage_ x.1 (Some (CountUnsupported (demo_machine 8) (demo_machine 9) x.2)) 1 !! lit "cpu-high" =
    Some (mk_counts 1 0 1 0).
Proof. split; [eexists|]; by vm_compute. Qed.

(** The split for one customer counts the connected machines of all: two
    machines of other customers make a rule active on two machines of a fleet
    of one. *)
Theorem coverage_counts_other_customers :
  let other d := CovReport (λ _, true) (demo_machine 7) (demo_machine 6) (demo_machine d) 0
    [mk_rc (lit "cpu-high") RuleCoverageActive] in
  let x := cov_run (NewRuleCoverageStore, ∅) [other 2; other 3] in
  RuleCoverage_ x.1 (Some (CountUnsupported (demo_machine 8) (demo_machine 9) x.2)) 1 !! lit "cpu-high" =
    Some (mk_counts 2 0 0 0).
Proof. by vm_compute. Qed.
