(* ===== verification/Telemetry.v ===== *)
(** * Telemetry of one agent connection

    [src/server/internal/agentapi/conn_accounting.go], [conn_telemetry.go],
    [conn_backfill.go], [vitals.go] and [alert_breach.go]: the messages an agent
    sends about its machine, the vocabulary that bounds what they may write, the
    buffer that coalesces them, the slots their writes take, and the counters
    that account for each message.  The read loop handles one message at a time;
    a write holds its slot until it is answered, in a step of its own.  The
    counters are unbounded integers (the source's are 64 bits wide). *)
From S2P Require Import Prelude GoTime GoStrings Float Settings Dbtx Control Rules Coverage.

Definition maxTelemetryPayloadBytes : Z := 64 * 1024.
Definition minTelemetryIntervalSeconds : Z := 10.
Definition telemetryConcurrentWrites : nat := 4.
Definition telemetryFlushMaxSamples : nat := 512.
Definition maxTelemetryBacklog : duration := 7 * 24 * hour.
Definition maxTelemetrySkew : duration := 5 * minute.
Definition backfillRetentionSecs : Z := 90 * 24 * 3600.
Definition backfillFutureSkewSecs : Z := 3600.

(** ** The vocabulary *)

Definition vitalDims : list bytes := String.list_byte_of_string <$>
  ["cpu.total"; "cpu.total.max"; "mem.used_percent"; "mem.used_percent.max"; "disk.used_percent";
   "net.rx_bps"; "net.rx_bps.max"; "net.tx_bps"; "net.tx_bps.max"; "disk.mounts_critical";
   "stall.cpu.some"; "stall.mem.some"; "stall.mem.full"; "stall.io.some"; "stall.io.full";
   "disk.await_ms"; "disk.await_ms.max"; "disk.queue_depth"]%string.

Definition anomalyFamilies : list bytes := String.list_byte_of_string <$> ["cpu"; "mem"; "disk"; "net"; "proc"]%string.

Definition anomalySeriesPerDevice : Z := 1 + 5.
Definition vitalSeriesCap : Z := 24.

Definition isVitalDim (name : bytes) : bool := bool_decide (name ∈ vitalDims).
Definition isAnomalyFamily (name : bytes) : bool := bool_decide (name ∈ anomalyFamilies).

(** [telemetry.Sample] *)
Record Sample := mk_sample {
  sm_Name : bytes;
  sm_Value : float64;
  sm_TS : time;
  sm_Labels : gmap bytes bytes;
}.

(** ** Clocks *)

(** [time.Unix(ts, 0)]: the seconds since the year 1, in an int64. *)
Definition unix_time (ts : Z) : time := (i64 (ts + 62135596800) - 62135596800) * second.

Inductive clamp := NoClamp | clampFuture | clampPast.

Definition clampTelemetryTimestamp (ts : Z) (now : time) : time * clamp :=
  if bool_decide (ts ≤ 0) then (now, NoClamp)
  else
    let stamped := unix_time ts in
    let floor := now - maxTelemetryBacklog in
    if bool_decide (stamped < floor) then (floor, clampPast)
    else
      let ceil := now + maxTelemetrySkew in
      if bool_decide (ceil < stamped) then (ceil, clampFuture) else (stamped, NoClamp).

(** ** The connection's state *)

Inductive drop_reason :=
  | payload_too_large | interval_floor | tenant_missing | persist_failed | persist_slots_full
  | unknown_family | unknown_dim | empty_summary | empty_dims | empty_summaries
  | backfill_out_of_retention | tombstoned.

(** One call of [dropTelemetryN]; [d_ingested] says whether the messages had
    been counted as ingested. *)
Record drop := mk_drop { d_reason : drop_reason; d_messages : Z; d_ingested : bool }.

Record telemetry := mk_telemetry {
  t_last : gmap bytes Z;                 (* telemetryLast *)
  t_buf : list Sample;                   (* telemetryBuf *)
  t_bufMsgs : Z;                         (* telemetryBufMsgs *)
  t_inflight : list (Z * list Sample);   (* telemetrySlots, with what each write carries *)
  t_ingested : Z;                        (* ObserveEdgeTelemetryIngest *)
  t_dropped : list drop;                 (* telemetryDrops, by call *)
  t_written : list Sample;               (* what WriteSamples was given and took *)
  t_persisted : Z;                       (* the messages those samples came from *)
}.

Definition no_telemetry : telemetry := mk_telemetry ∅ [] 0 [] 0 [] [] 0.

Definition DroppedTelemetryCount (a : telemetry) : Z := foldr (λ d n, d_messages d + n) 0 (t_dropped a).

Definition dropTelemetryN (n : Z) (reason : drop_reason) (ingested : bool) (a : telemetry) : telemetry :=
  if bool_decide (n ≤ 0) then a
  else mk_telemetry (t_last a) (t_buf a) (t_bufMsgs a) (t_inflight a) (t_ingested a)
         (t_dropped a ++ [mk_drop reason n ingested]) (t_written a) (t_persisted a).

Definition dropTelemetry (reason : drop_reason) (ingested : bool) (a : telemetry) : telemetry :=
  dropTelemetryN 1 reason ingested a.

Definition set_last (msgType : bytes) (ts : Z) (a : telemetry) : telemetry :=
  mk_telemetry (<[msgType := ts]> (t_last a)) (t_buf a) (t_bufMsgs a) (t_inflight a) (t_ingested a) (t_dropped a)
    (t_written a) (t_persisted a).

Definition acceptedTelemetry (a : telemetry) : bool * telemetry :=
  (true, mk_telemetry (t_last a) (t_buf a) (t_bufMsgs a) (t_inflight a) (t_ingested a + 1) (t_dropped a)
           (t_written a) (t_persisted a)).

Definition acceptTelemetry (msgType : bytes) (ts payloadLen : Z) (a : telemetry) : bool * telemetry :=
  if bool_decide (maxTelemetryPayloadBytes < payloadLen) then (false, dropTelemetry payload_too_large false a)
  else if bool_decide (ts ≤ 0) then acceptedTelemetry a
  else match t_last a !! msgType with
       | Some last =>
           if bool_decide (ts - last < minTelemetryIntervalSeconds) then (false, dropTelemetry interval_floor false a)
           else acceptedTelemetry (set_last msgType ts a)
       | None => acceptedTelemetry (set_last msgType ts a)
       end.

(** [persistTelemetry] of the buffer's samples. *)
Definition persistTelemetry (ctx : option Tenant) (msgs : Z) (batch : list Sample) (a : telemetry) : telemetry :=
  match TenantFromContext ctx with
  | None => dropTelemetryN msgs tenant_missing true a
  | Some _ =>
      if (length (t_inflight a) <? telemetryConcurrentWrites)%nat
      then mk_telemetry (t_last a) (t_buf a) (t_bufMsgs a) (t_inflight a ++ [(msgs, batch)]) (t_ingested a)
             (t_dropped a) (t_written a) (t_persisted a)
      else dropTelemetryN msgs persist_slots_full true a
  end.

Definition flushTelemetry (ctx : option Tenant) (a : telemetry) : telemetry :=
  match t_buf a with
  | [] => a
  | batch =>
      persistTelemetry ctx (t_bufMsgs a) batch
        (mk_telemetry (t_last a) [] 0 (t_inflight a) (t_ingested a) (t_dropped a) (t_written a) (t_persisted a))
  end.

Definition bufferTelemetry (ctx : option Tenant) (samples : list Sample) (a : telemetry) : telemetry :=
  match samples with
  | [] => a
  | _ =>
      let a := mk_telemetry (t_last a) (t_buf a ++ samples) (t_bufMsgs a + 1) (t_inflight a) (t_ingested a)
                 (t_dropped a) (t_written a) (t_persisted a) in
      if (telemetryFlushMaxSamples <=? length (t_buf a))%nat then flushTelemetry ctx a else a
  end.

(** ** The handlers *)

Definition family_samples (ts : time) (extra : gmap bytes bytes) (rates : list FamilyAnomalyRate) : list Sample :=
  (λ f, mk_sample (lit "opengate_edge_family_anomaly_rate") (far_Rate f) ts (<[lit "family" := far_Family f]> extra)) <$>
    List.filter (λ f, isAnomalyFamily (far_Family f)) rates.

Definition unknown_families (rates : list FamilyAnomalyRate) : nat :=
  length (List.filter (λ f, negb (isAnomalyFamily (far_Family f))) rates).

Definition alertBreachSamples (breaches : list AlertBreach) (ts : time) : list Sample :=
  omap (λ b,
    metric ← CanonicalRuleMetric (ab_Metric b);
    let ruleID := sanitizeAlertRuleID (ab_RuleID b) in
    if bool_decide (ruleID = []) then None
    else Some (mk_sample (lit "opengate_edge_alert_breach") (ab_Value b) ts
                 {[lit "rule" := ruleID; lit "metric" := metric]})) breaches.

Definition node_sample (rate : float64) (ts : time) (sampler model : bytes) (extra : gmap bytes bytes) : Sample :=
  mk_sample (lit "opengate_edge_node_anomaly_rate") rate ts
    (<[lit "sampler_ver" := sampler]> (<[lit "model_ver" := model]> extra)).

Definition sampler_samples (msg : ControlMessage) (ts : time) : list Sample :=
  if bool_decide (cm_SamplerVersion msg ≠ []) || bool_decide (cm_PerFamilyRates msg ≠ [])
  then node_sample (cm_NodeAnomalyRate msg) ts (cm_SamplerVersion msg) (cm_ModelVersion msg) ∅ ::
       family_samples ts ∅ (cm_PerFamilyRates msg)
  else [].

Definition drop_if (b : bool) (reason : drop_reason) (ingested : bool) (a : telemetry) : telemetry :=
  if b then dropTelemetry reason ingested a else a.

(** [handleAgentHealthSummary]; [record] is [recordRuleCoverage] on the
    message's coverage, whose effect on the coverage store is in [Coverage]. *)
Definition handleAgentHealthSummary (ctx : option Tenant) (now : time) (record : list RuleCoverage → bool)
    (msg : ControlMessage) (payloadLen : Z) (a : telemetry) : telemetry :=
  let '(ok, a) := acceptTelemetry (lit "AgentHealthSummary") (cm_TS msg) payloadLen a in
  if negb ok then a
  else
    let '(ts, _) := clampTelemetryTimestamp (cm_TS msg) now in
    let a := drop_if (negb (unknown_families (cm_PerFamilyRates msg) =? 0)%nat) unknown_family true a in
    let samples := sampler_samples msg ts ++ alertBreachSamples (cm_Breaches msg) ts in
    let recordedCoverage := record (cm_RuleCoverage msg) in
    match samples with
    | [] => drop_if (negb recordedCoverage) empty_summary true a
    | _ => bufferTelemetry ctx samples a
    end.

Definition window_samples (dims : list MetricDim) (ts : time) : list Sample :=
  (λ d, mk_sample (lit "opengate_edge_metric_avg") (md_Avg d) ts {[lit "dim" := md_Name d]}) <$>
    List.filter (λ d, isVitalDim (md_Name d)) dims.

Definition unknown_dims (dims : list MetricDim) : nat :=
  length (List.filter (λ d, negb (isVitalDim (md_Name d))) dims).

Definition handleAgentMetricWindow (ctx : option Tenant) (now : time) (msg : ControlMessage) (payloadLen : Z)
    (a : telemetry) : telemetry :=
  let '(ok, a) := acceptTelemetry (lit "AgentMetricWindow") (cm_TS msg) payloadLen a in
  if negb ok then a
  else match cm_Dims msg with
       | [] => dropTelemetry empty_dims true a
       | dims =>
           let '(ts, _) := clampTelemetryTimestamp (cm_TS msg) now in
           let a := drop_if (negb (unknown_dims dims =? 0)%nat) unknown_dim true a in
           bufferTelemetry ctx (window_samples dims ts) a
       end.

Definition summary_samples (now : time) (s : HealthSummary) : list Sample :=
  let '(ts, _) := clampTelemetryTimestamp (hs_TS s) now in
  let source := {[lit "source" := lit "health_window"]} in
  node_sample (hs_NodeAnomalyRate s) ts (hs_SamplerVersion s) (hs_ModelVersion s) source ::
  family_samples ts source (hs_PerFamilyRates s).

Definition handleHealthWindowResponse (ctx : option Tenant) (now : time) (msg : ControlMessage) (payloadLen : Z)
    (a : telemetry) : telemetry :=
  let '(ok, a) := acceptTelemetry (lit "HealthWindowResponse") (cm_TS msg) payloadLen a in
  if negb ok then a
  else match cm_Summaries msg with
       | [] => dropTelemetry empty_summaries true a
       | summaries =>
           let unknown := existsb (λ s, negb (unknown_families (hs_PerFamilyRates s) =? 0)%nat) summaries in
           let a := drop_if unknown unknown_family true a in
           bufferTelemetry ctx (summaries ≫= summary_samples now) a
       end.

(** ** Backfill *)

Definition in_retention (now : Z) (s : BackfillSample) : bool :=
  bool_decide (now - backfillRetentionSecs ≤ bs_TS s ∧ bs_TS s ≤ now + backfillFutureSkewSecs).

Definition backfill_samples (now : Z) (l : list BackfillSample) : list Sample :=
  (λ s, mk_sample (lit "opengate_edge_metric_avg") (bs_Value s) (unix_time (bs_TS s)) {[lit "dim" := bs_Name s]}) <$>
    List.filter (λ s, in_retention now s && isVitalDim (bs_Name s)) l.

Inductive backfill_reply := NoReply | Ack (tier : bytes) (cursor : Z).

(** [handleMetricBackfillBatch]; [capable] is [requireCapability] and [wrote]
    whether [WriteSamples] succeeds. *)
Definition handleMetricBackfillBatch (ctx : option Tenant) (now : time) (capable wrote : bool)
    (msg : ControlMessage) (payloadLen : Z) (a : telemetry) : backfill_reply * telemetry :=
  if bool_decide (maxTelemetryPayloadBytes < payloadLen) then (NoReply, dropTelemetry payload_too_large false a)
  else if negb capable then (NoReply, a)
  else match TenantFromContext ctx with
       | None => (NoReply, dropTelemetry tenant_missing false a)
       | Some _ =>
           let nowSecs := unix now in
           let batch := cm_BackfillSamples msg in
           let a := drop_if (existsb (λ s, negb (in_retention nowSecs s)) batch) backfill_out_of_retention false a in
           let a := drop_if (existsb (λ s, in_retention nowSecs s && negb (isVitalDim (bs_Name s))) batch)
                      unknown_dim false a in
           match backfill_samples nowSecs batch with
           | [] => (Ack (cm_Tier msg) (cm_Cursor msg), a)
           | samples =>
               if wrote
               then (Ack (cm_Tier msg) (cm_Cursor msg),
                     mk_telemetry (t_last a) (t_buf a) (t_bufMsgs a) (t_inflight a) (t_ingested a) (t_dropped a)
                       (t_written a ++ samples) (t_persisted a))
               else (NoReply, a)
           end
       end.

(** ** The read loop and the writes *)

Inductive tele_op :=
  | OpHealth (now : time) (record : list RuleCoverage → bool) (msg : ControlMessage) (len : Z)
  | OpWindow (now : time) (msg : ControlMessage) (len : Z)
  | OpHealthWindow (now : time) (msg : ControlMessage) (len : Z)
  | OpBackfill (now : time) (capable wrote : bool) (msg : ControlMessage) (len : Z)
  | OpHeartbeat                          (* handleHeartbeat flushes the buffer *)
  | OpTombstoned                         (* rejectTombstonedWrite *)
  | OpWritten (i : nat) (ok : bool).     (* a write in flight is answered *)

Definition finish_write (i : nat) (ok : bool) (a : telemetry) : telemetry :=
  match t_inflight a !! i with
  | None => a
  | Some (msgs, batch) =>
      let a := mk_telemetry (t_last a) (t_buf a) (t_bufMsgs a) (delete i (t_inflight a)) (t_ingested a) (t_dropped a)
                 (if ok then t_written a ++ batch else t_written a) (if ok then t_persisted a + msgs else t_persisted a) in
      if ok then a else dropTelemetryN msgs persist_failed true a
  end.

Definition tele_exec (ctx : option Tenant) (a : telemetry) (op : tele_op) : telemetry :=
  match op with
  | OpHealth now record msg len => handleAgentHealthSummary ctx now record msg len a
  | OpWindow now msg len => handleAgentMetricWindow ctx now msg len a
  | OpHealthWindow now msg len => handleHealthWindowResponse ctx now msg len a
  | OpBackfill now capable wrote msg len => (handleMetricBackfillBatch ctx now capable wrote msg len a).2
  | OpHeartbeat => flushTelemetry ctx a
  | OpTombstoned => dropTelemetry tombstoned false a
  | OpWritten i ok => finish_write i ok a
  end.

Definition tele_run (ctx : option Tenant) (a : telemetry) (ops : list tele_op) : telemetry := foldl (tele_exec ctx) a ops.

(** ** Every message is accounted for *)

Ltac tele := cbn [t_last t_buf t_bufMsgs t_inflight t_ingested t_dropped t_written t_persisted fst snd].

Section accounting.
Context (ctx : option Tenant).
Implicit Types (a : telemetry).

(** Messages that had been ingested and were dropped. *)
Definition lost_messages a : Z :=
  foldr (λ d n, (if d_ingested d then d_messages d else 0) + n) 0 (t_dropped a).
Definition inflight_messages a : Z := foldr (λ w n, w.1 + n) 0 (t_inflight a).

(** What the messages dropped, persisted, buffered and in flight exceed the
    ingested ones by. *)
Definition balance a : Z :=
  lost_messages a + t_persisted a + t_bufMsgs a + inflight_messages a - t_ingested a.

(** The summary yields no sample, and its coverage is recorded. *)
Definition only_coverage (now : time) (record : list RuleCoverage → bool) (msg : ControlMessage) : bool :=
  bool_decide (sampler_samples msg (clampTelemetryTimestamp (cm_TS msg) now).1 ++
               alertBreachSamples (cm_Breaches msg) (clampTelemetryTimestamp (cm_TS msg) now).1 = []) &&
  record (cm_RuleCoverage msg).

(** The message is counted in two places: it lost a name outside the vocabulary, which
    counts as a drop, and was kept for the rest, or counted as an empty summary. *)
Definition counted_twice (op : tele_op) a : bool :=
  match op with
  | OpHealth now record msg len =>
      (acceptTelemetry (lit "AgentHealthSummary") (cm_TS msg) len a).1 &&
      negb (unknown_families (cm_PerFamilyRates msg) =? 0)%nat && negb (only_coverage now record msg)
  | OpWindow now msg len =>
      (acceptTelemetry (lit "AgentMetricWindow") (cm_TS msg) len a).1 &&
      negb (unknown_dims (cm_Dims msg) =? 0)%nat && existsb (λ d, isVitalDim (md_Name d)) (cm_Dims msg)
  | OpHealthWindow now msg len =>
      (acceptTelemetry (lit "HealthWindowResponse") (cm_TS msg) len a).1 &&
      existsb (λ s, negb (unknown_families (hs_PerFamilyRates s) =? 0)%nat) (cm_Summaries msg)
  | OpBackfill _ _ _ _ _ | OpHeartbeat | OpTombstoned | OpWritten _ _ => false
  end.

(** The message is counted nowhere: a summary kept for nothing but its coverage. *)
Definition uncounted (op : tele_op) a : bool :=
  match op with
  | OpHealth now record msg len =>
      (acceptTelemetry (lit "AgentHealthSummary") (cm_TS msg) len a).1 &&
      (unknown_families (cm_PerFamilyRates msg) =? 0)%nat && only_coverage now record msg
  | _ => false
  end.

Record bounded a : Prop := {
  bd_empty : t_buf a = [] → t_bufMsgs a = 0;
  bd_some : t_buf a ≠ [] → 0 < t_bufMsgs a;
  bd_buf : (length (t_buf a) < telemetryFlushMaxSamples)%nat;
  bd_slots : (length (t_inflight a) ≤ telemetryConcurrentWrites)%nat;
  bd_inflight : Forall (λ w, 0 < w.1) (t_inflight a);
}.

Lemma fold_sum_app {A} (f : A → Z) l l' :
  foldr (λ x n, f x + n) 0 (l ++ l') = foldr (λ x n, f x + n) 0 l + foldr (λ x n, f x + n) 0 l'.
Proof. induction l as [|x l IH]; cbn; [done|]. rewrite IH. lia. Qed.

Lemma fold_sum_delete {A} (f : A → Z) l i x :
  l !! i = Some x → foldr (λ x n, f x + n) 0 l = f x + foldr (λ x n, f x + n) 0 (delete i l).
Proof.
  revert i. induction l as [|y l IH]; intros [|i]; cbn; [done|done|by intros [= <-]|].
  intros H. rewrite (IH _ H). unfold delete. lia.
Qed.

Lemma balance_drop n r ing a : balance (dropTelemetryN n r ing a) = balance a + (if ing then Z.max 0 n else 0).
Proof.
  unfold dropTelemetryN. case_bool_decide; [destruct ing; lia|]. unfold balance, lost_messages, inflight_messages. tele.
  rewrite (fold_sum_app (λ d, if d_ingested d then d_messages d else 0)). cbn [foldr d_ingested d_messages].
  destruct ing; lia.
Qed.

Lemma bounded_drop n r ing a : bounded a → bounded (dropTelemetryN n r ing a).
Proof. intros [????]. unfold dropTelemetryN. case_bool_decide; by split. Qed.

Lemma drop_if_spec b r ing a :
  balance (drop_if b r ing a) = balance a + (if b && ing then 1 else 0) ∧ (bounded a → bounded (drop_if b r ing a)).
Proof.
  destruct b; cbn; [|split; [lia|done]]. split; [|apply bounded_drop]. unfold dropTelemetry.
  rewrite balance_drop. destruct ing; lia.
Qed.

Lemma accept_spec ty ts len a :
  let r := acceptTelemetry ty ts len a in
  balance r.2 = balance a - (if r.1 then 1 else 0) ∧ (bounded a → bounded r.2).
Proof.
  cbn zeta. unfold acceptTelemetry, acceptedTelemetry, set_last, dropTelemetry. repeat case_match; try discriminate; tele;
    try (split; [rewrite balance_drop; cbv iota; lia|apply bounded_drop]); (split; [unfold balance, lost_messages, inflight_messages; tele; cbv iota; lia|by intros [????]]).
Qed.

Lemma persist_spec msgs batch a :
  0 < msgs → (length (t_inflight a) ≤ telemetryConcurrentWrites)%nat →
  let a' := persistTelemetry ctx msgs batch a in
  balance a' = balance a + msgs ∧ (bounded a → bounded a').
Proof.
  intros Hm Hs. cbn. unfold persistTelemetry. destruct (TenantFromContext ctx); [|rewrite balance_drop; split; [lia|apply bounded_drop]].
  destruct (length (t_inflight a) <? telemetryConcurrentWrites)%nat eqn:E;
    [|rewrite balance_drop; split; [lia|apply bounded_drop]].
  apply Nat.ltb_lt in E. split.
  - unfold balance, lost_messages, inflight_messages. tele. rewrite (fold_sum_app fst). cbn [foldr fst]. lia.
  - intros [????]. split; tele; [done|done|done|rewrite length_app; cbn [length]; lia|].
    apply Forall_app. split; [done|]. by apply Forall_singleton.
Qed.

Lemma flush_spec a :
  (t_buf a = [] → t_bufMsgs a = 0) → (t_buf a ≠ [] → 0 < t_bufMsgs a) →
  (length (t_inflight a) ≤ telemetryConcurrentWrites)%nat → Forall (λ w, 0 < w.1) (t_inflight a) →
  balance (flushTelemetry ctx a) = balance a ∧ bounded (flushTelemetry ctx a).
Proof.
  intros He Hs Hl Hf. unfold flushTelemetry. destruct (t_buf a) as [|x l] eqn:E.
  { split; [done|]. split; rewrite ?E; try done; cbn; unfold telemetryFlushMaxSamples; lia. }
  set (a0 := mk_telemetry _ _ _ _ _ _ _ _).
  destruct (persist_spec (t_bufMsgs a) (x :: l) a0) as [Hb Hbd]; [by apply Hs|done|].
  split; [|apply Hbd].
  - rewrite Hb. unfold balance, lost_messages, inflight_messages, a0. tele. lia.
  - split; cbn; try done. unfold telemetryFlushMaxSamples. lia.
Qed.

Lemma buffer_spec samples a :
  bounded a →
  balance (bufferTelemetry ctx samples a) = balance a + (match samples with [] => 0 | _ => 1 end) ∧
  bounded (bufferTelemetry ctx samples a).
Proof.
  intros [He Hs Hb Hl Hf]. destruct samples as [|x l]; cbn [bufferTelemetry]; [split; [lia|by split]|].
  set (a0 := mk_telemetry _ _ _ _ _ _ _ _).
  assert (Hpos : 0 < t_bufMsgs a + 1) by (destruct (t_buf a); [rewrite He; [lia|done]|specialize (Hs ltac:(done)); lia]).
  assert (Hbal : balance a0 = balance a + 1) by (unfold balance, lost_messages, inflight_messages, a0; tele; lia).
  assert (Hne : t_buf a0 ≠ []) by (cbn; by destruct (t_buf a)).
  destruct (telemetryFlushMaxSamples <=? length (t_buf a0))%nat eqn:E.
  - destruct (flush_spec a0) as [Hfb Hfo]; [done|done|done|done|]. by rewrite Hfb, Hbal.
  - split; [done|]. apply Nat.leb_gt in E. by split.
Qed.

Lemma window_kept dims ts :
  dims ≠ [] →
  (window_samples dims ts = [] ↔ existsb (λ d, isVitalDim (md_Name d)) dims = false) ∧
  ((unknown_dims dims =? 0)%nat = true → existsb (λ d, isVitalDim (md_Name d)) dims = true).
Proof.
  intros Hne. unfold window_samples, unknown_dims. split.
  - split.
    + intros H. apply fmap_nil_inv in H. apply not_true_iff_false. intros (d & Hin & Hd)%existsb_exists.
      assert (In d (List.filter (λ d, isVitalDim (md_Name d)) dims)) as Hf by by apply filter_In.
      by rewrite H in Hf.
    + intros H. assert (List.filter (λ d, isVitalDim (md_Name d)) dims = []) as ->; [|done].
      clear Hne. induction dims as [|d dims IH]; [done|].
      cbn in *. apply orb_false_iff in H as [-> H]. by apply IH.
  - intros H%Nat.eqb_eq. destruct dims as [|d dims]; [done|]. cbn in *.
    destruct (isVitalDim (md_Name d)); [done|]. by cbn in H.
Qed.

Lemma finish_spec i ok a :
  bounded a → balance (finish_write i ok a) = balance a ∧ bounded (finish_write i ok a).
Proof.
  intros Hbd. unfold finish_write. destruct (t_inflight a !! i) as [[msgs batch]|] eqn:E; [|done].
  pose proof (Forall_lookup_1 _ _ _ _ (bd_inflight _ Hbd) E) as Hm. cbn in Hm.
  assert (Hsum : inflight_messages a = msgs + foldr (λ w n, w.1 + n) 0 (delete i (t_inflight a)))
    by apply (fold_sum_delete fst _ _ _ E).
  destruct Hbd as [He Hs Hb Hl Hf].
  assert (Hbd' : ∀ dropped written persisted, bounded (mk_telemetry (t_last a) (t_buf a) (t_bufMsgs a) (delete i (t_inflight a))
    (t_ingested a) dropped written persisted)).
  { intros. split; cbn; try done; [etrans; [apply sublist_length, sublist_delete|done]|by apply Forall_delete]. }
  destruct ok.
  - split; [|apply Hbd']. unfold balance. rewrite Hsum. unfold lost_messages, inflight_messages. tele. lia.
  - split; [|by apply bounded_drop, Hbd']. rewrite balance_drop. unfold balance. rewrite Hsum.
    unfold lost_messages, inflight_messages. tele. lia.
Qed.

Lemma tele_exec_spec op a :
  bounded a →
  balance (tele_exec ctx a op) = balance a + Z.b2z (counted_twice op a) - Z.b2z (uncounted op a) ∧
  bounded (tele_exec ctx a op).
Proof.
  intros Hbd. destruct op as [now record msg len|now msg len|now msg len|now cap wrote msg len| | |i ok];
    cbn [tele_exec counted_twice uncounted only_coverage]; cbn [Z.b2z]; rewrite ?Z.sub_0_r.
  - unfold handleAgentHealthSummary. pose proof (accept_spec (lit "AgentHealthSummary") (cm_TS msg) len a) as [Hb Hok].
    destruct (acceptTelemetry _ _ len a) as [acc a1]. cbn [fst snd] in *. specialize (Hok Hbd).
    destruct acc; cbn [negb andb Z.b2z]; [|split; [lia|done]].
    unfold only_coverage. destruct (clampTelemetryTimestamp (cm_TS msg) now) as [ts cl]. cbn [fst].
    set (unk := (unknown_families (cm_PerFamilyRates msg) =? 0)%nat).
    destruct (drop_if_spec (negb unk) unknown_family true a1) as [Hb2 Hok2]. specialize (Hok2 Hok).
    set (a2 := drop_if (negb unk) unknown_family true a1) in *. clearbody a2.
    destruct (sampler_samples msg ts ++ alertBreachSamples (cm_Breaches msg) ts) as [|x l].
    + rewrite bool_decide_eq_true_2 by done. cbn [andb].
      destruct (drop_if_spec (negb (record (cm_RuleCoverage msg))) empty_summary true a2) as [Hb3 Hok3].
      split; [|by apply Hok3]. rewrite Hb3, Hb2. destruct unk, (record (cm_RuleCoverage msg)); cbn [negb andb Z.b2z]; lia.
    + rewrite bool_decide_eq_false_2 by done. destruct (buffer_spec (x :: l) a2 Hok2) as [Hb3 Hok3].
      split; [|done]. rewrite Hb3, Hb2. destruct unk; cbn [negb andb Z.b2z]; lia.
  - unfold handleAgentMetricWindow. pose proof (accept_spec (lit "AgentMetricWindow") (cm_TS msg) len a) as [Hb Hok].
    destruct (acceptTelemetry _ _ len a) as [acc a1]. cbn [fst snd] in *. specialize (Hok Hbd).
    destruct acc; cbn [negb andb Z.b2z]; [|split; [lia|done]].
    destruct (cm_Dims msg) as [|d0 dims0] eqn:Ed.
    { cbn. unfold dropTelemetry. rewrite balance_drop. split; [lia|by apply bounded_drop]. }
    rewrite <- Ed. set (dims := cm_Dims msg) in *. assert (Hne : dims ≠ []) by by rewrite Ed. clear Ed.
    destruct (clampTelemetryTimestamp (cm_TS msg) now) as [ts cl].
    set (unk := (unknown_dims dims =? 0)%nat).
    destruct (drop_if_spec (negb unk) unknown_dim true a1) as [Hb2 Hok2]. specialize (Hok2 Hok).
    destruct (buffer_spec (window_samples dims ts) _ Hok2) as [Hb3 Hok3]. split; [|done]. rewrite Hb3, Hb2.
    pose proof (window_kept dims ts Hne) as Hk. fold unk in Hk.
    destruct (window_samples dims ts), unk, (existsb _ dims); cbn [negb andb Z.b2z] in *; try lia; naive_solver.
  - unfold handleHealthWindowResponse. pose proof (accept_spec (lit "HealthWindowResponse") (cm_TS msg) len a) as [Hb Hok].
    destruct (acceptTelemetry _ _ len a) as [acc a1]. cbn [fst snd] in *. specialize (Hok Hbd).
    destruct acc; cbn [negb andb Z.b2z]; [|split; [lia|done]].
    destruct (cm_Summaries msg) as [|s0 ss] eqn:Es.
    { cbn. unfold dropTelemetry. rewrite balance_drop. split; [lia|by apply bounded_drop]. }
    set (unk := existsb _ (s0 :: ss)). destruct (drop_if_spec unk unknown_family true a1) as [Hb2 Hok2].
    specialize (Hok2 Hok). destruct (buffer_spec ((s0 :: ss) ≫= summary_samples now) _ Hok2) as [Hb3 Hok3].
    split; [|done]. rewrite Hb3, Hb2. cbn [mbind list_bind]. unfold summary_samples at 1.
    destruct (clampTelemetryTimestamp (hs_TS s0) now). cbn [app]. destruct unk; cbn [andb Z.b2z]; lia.
  - rewrite Z.add_0_r. unfold handleMetricBackfillBatch, dropTelemetry.
    case_bool_decide; [cbn; rewrite balance_drop; split; [lia|by apply bounded_drop]|].
    destruct cap; cbn [negb]; [|done].
    destruct (TenantFromContext ctx); [|cbn; rewrite balance_drop; split; [lia|by apply bounded_drop]].
    set (b2 := existsb _ _). set (b1 := existsb _ _).
    destruct (drop_if_spec b1 backfill_out_of_retention false a) as [Hb1 Hok1]. specialize (Hok1 Hbd).
    destruct (drop_if_spec b2 unknown_dim false (drop_if b1 backfill_out_of_retention false a)) as [Hb2 Hok2].
    specialize (Hok2 Hok1). rewrite andb_false_r, Z.add_0_r in Hb1, Hb2.
    set (a2 := drop_if b2 _ _ _) in *. clearbody a2.
    destruct (backfill_samples (unix now) (cm_BackfillSamples msg)) as [|x l]; [cbn [snd]; split; [congruence|done]|].
    destruct wrote; cbn [snd]; [|split; [congruence|done]].
    split; [|destruct Hok2 as [????]; by split]. rewrite Hb1 in Hb2.
    unfold balance, lost_messages, inflight_messages in *. tele. lia.
  - rewrite Z.add_0_r. destruct Hbd as [????]. by apply flush_spec.
  - rewrite Z.add_0_r. unfold dropTelemetry. rewrite balance_drop. split; [lia|by apply bounded_drop].
  - rewrite Z.add_0_r. by apply finish_spec.
Qed.

(** The messages of a run of which [f] holds. *)
Fixpoint tally (f : tele_op → telemetry → bool) (ops : list tele_op) a : Z :=
  match ops with
  | [] => 0
  | op :: ops => Z.b2z (f op a) + tally f ops (tele_exec ctx a op)
  end.

Lemma tele_run_spec ops a :
  bounded a →
  balance (tele_run ctx a ops) = balance a + tally counted_twice ops a - tally uncounted ops a ∧ bounded (tele_run ctx a ops).
Proof.
  revert a. induction ops as [|op ops IH]; intros a Hbd; cbn [tele_run foldl tally]; [split; [lia|done]|].
  destruct (tele_exec_spec op a Hbd) as [Hb Hok]. destruct (IH _ Hok) as [Hb' Hok'].
  split; [|done]. unfold tele_run in Hb'. rewrite Hb', Hb. lia.
Qed.
End accounting.

(** C27: Over any run of messages, flushes and answered writes: the messages ingested,
    those counted in two places taken twice, are exactly those dropped after
    ingestion, persisted, buffered or in flight and those counted nowhere.  Counted
    in two places is a message that lost a name outside the vocabulary, which is a
    drop, and was kept for the rest or dropped again as empty; counted nowhere is a
    health summary kept for nothing but its coverage.  The buffer stays under its cap
    and no more writes are in flight than there are slots. *)
Theorem telemetry_accounted ctx ops :
  let a := tele_run ctx no_telemetry ops in
  t_ingested a + tally ctx counted_twice ops no_telemetry =
    lost_messages a + t_persisted a + t_bufMsgs a + inflight_messages a + tally ctx uncounted ops no_telemetry ∧
  (length (t_buf a) < telemetryFlushMaxSamples)%nat ∧
  (length (t_inflight a) ≤ telemetryConcurrentWrites)%nat.
Proof.
  intros a. destruct (tele_run_spec ctx ops no_telemetry) as [Hb Hok].
  { split; cbn; try done; unfold telemetryFlushMaxSamples; lia. }
  fold a in Hb, Hok. split_and!; [|apply Hok..]. unfold balance in Hb.
  change (lost_messages no_telemetry) with 0 in Hb. change (inflight_messages no_telemetry) with 0 in Hb.
  cbn [t_persisted t_bufMsgs t_ingested no_telemetry] in Hb. lia.
Qed.

(** ** What an agent may write *)

(** The series of the fleet's vocabulary; an agent chooses the versions of its
    sampler and model and the rules it echoes, within their sanitization. *)
Inductive in_vocabulary (s : Sample) : Prop :=
  | VDim d : d ∈ vitalDims → sm_Name s = lit "opengate_edge_metric_avg" → sm_Labels s = {[lit "dim" := d]} →
      in_vocabulary s
  | VFamily f extra : f ∈ anomalyFamilies → extra = ∅ ∨ extra = {[lit "source" := lit "health_window"]} →
      sm_Name s = lit "opengate_edge_family_anomaly_rate" → sm_Labels s = <[lit "family" := f]> extra →
      in_vocabulary s
  | VNode sampler model extra : extra = ∅ ∨ extra = {[lit "source" := lit "health_window"]} →
      sm_Name s = lit "opengate_edge_node_anomaly_rate" →
      sm_Labels s = <[lit "sampler_ver" := sampler]> (<[lit "model_ver" := model]> extra) → in_vocabulary s
  | VBreach rule metric name : sanitizeAlertRuleID rule ≠ [] → CanonicalRuleMetric name = Some metric →
      sm_Name s = lit "opengate_edge_alert_breach" →
      sm_Labels s = {[lit "rule" := sanitizeAlertRuleID rule; lit "metric" := metric]} → in_vocabulary s.

Section vocabulary.
Context (ctx : option Tenant).
Implicit Types (a : telemetry) (s : Sample).

Definition held_samples a : list Sample := t_buf a ++ (t_inflight a ≫= snd) ++ t_written a.

Lemma held_drop n r ing a : held_samples (dropTelemetryN n r ing a) = held_samples a.
Proof. unfold dropTelemetryN. by case_bool_decide. Qed.

Lemma held_drop_if b r ing a : held_samples (drop_if b r ing a) = held_samples a.
Proof. destruct b; [apply held_drop|done]. Qed.

Lemma held_accept ty ts len a : held_samples (acceptTelemetry ty ts len a).2 = held_samples a.
Proof.
  unfold acceptTelemetry, dropTelemetry. repeat case_match; cbn [snd]; rewrite ?held_drop; done.
Qed.

Lemma elem_held s a :
  s ∈ held_samples a ↔ s ∈ t_buf a ∨ (∃ w, w ∈ t_inflight a ∧ s ∈ w.2) ∨ s ∈ t_written a.
Proof. unfold held_samples. rewrite !elem_of_app, list_elem_of_bind. naive_solver. Qed.

Lemma held_persist s msgs batch a :
  s ∈ held_samples (persistTelemetry ctx msgs batch a) → s ∈ batch ∨ s ∈ held_samples a.
Proof.
  unfold persistTelemetry. destruct (TenantFromContext ctx); [|rewrite held_drop; by right].
  destruct (_ <? _)%nat; [|rewrite held_drop; by right]. rewrite !elem_held. tele.
  setoid_rewrite elem_of_app. setoid_rewrite list_elem_of_singleton. naive_solver.
Qed.

Lemma held_flush s a : s ∈ held_samples (flushTelemetry ctx a) → s ∈ held_samples a.
Proof.
  unfold flushTelemetry. destruct (t_buf a) as [|x l] eqn:E; [done|].
  intros [Hin|Hin]%held_persist; rewrite elem_held; [left; by rewrite E|]. rewrite elem_held in Hin. tele.
  destruct Hin as [Hin|Hin]; [by apply not_elem_of_nil in Hin|by right].
Qed.

Lemma held_buffer s samples a :
  s ∈ held_samples (bufferTelemetry ctx samples a) → s ∈ samples ∨ s ∈ held_samples a.
Proof.
  destruct samples as [|x l]; cbn [bufferTelemetry]; [by right|]. set (a0 := mk_telemetry _ _ _ _ _ _ _ _).
  assert (s ∈ held_samples a0 → s ∈ x :: l ∨ s ∈ held_samples a).
  { rewrite !elem_held. unfold a0. tele. rewrite elem_of_app. tauto. }
  destruct (_ <=? _)%nat; [|done]. intros Hin%held_flush. auto.
Qed.

Lemma held_finish s i ok a : s ∈ held_samples (finish_write i ok a) → s ∈ held_samples a.
Proof.
  unfold finish_write. destruct (t_inflight a !! i) as [[msgs batch]|] eqn:E; [|done].
  assert (Hb : s ∈ batch → s ∈ held_samples a).
  { intros Hin. rewrite elem_held. right. left. exists (msgs, batch). split; [by eapply list_elem_of_lookup_2|done]. }
  assert (Hd : ∀ w, w ∈ delete i (t_inflight a) → w ∈ t_inflight a) by (intros w; apply list_elem_of_delete_inv).
  destruct ok; rewrite ?held_drop, !elem_held; rewrite elem_held in Hb; tele; rewrite ?elem_of_app; naive_solver.
Qed.

Lemma window_vocabulary dims ts : Forall in_vocabulary (window_samples dims ts).
Proof.
  apply Forall_fmap, Forall_forall. intros d [_ Hd]%list_elem_of_In%filter_In.
  apply bool_decide_eq_true in Hd. by apply (VDim _ (md_Name d)).
Qed.

Lemma backfill_vocabulary now l : Forall in_vocabulary (backfill_samples now l).
Proof.
  apply Forall_fmap, Forall_forall. intros d [_ [_ Hd]%andb_true_iff]%list_elem_of_In%filter_In.
  apply bool_decide_eq_true in Hd. by apply (VDim _ (bs_Name d)).
Qed.

Lemma family_vocabulary ts extra rates :
  extra = ∅ ∨ extra = {[lit "source" := lit "health_window"]} → Forall in_vocabulary (family_samples ts extra rates).
Proof.
  intros He. apply Forall_fmap, Forall_forall. intros f [_ Hf]%list_elem_of_In%filter_In.
  apply bool_decide_eq_true in Hf. by apply (VFamily _ (far_Family f) extra).
Qed.

Lemma breach_vocabulary breaches ts : Forall in_vocabulary (alertBreachSamples breaches ts).
Proof.
  apply Forall_forall. intros s (b & _ & Hb)%list_elem_of_omap.
  destruct (CanonicalRuleMetric (ab_Metric b)) as [metric|] eqn:Em; [|done]. cbn in Hb.
  case_bool_decide; [done|]. injection Hb as <-. by eapply VBreach.
Qed.

Lemma sampler_vocabulary msg ts : Forall in_vocabulary (sampler_samples msg ts).
Proof.
  unfold sampler_samples. destruct (_ || _); [|constructor]. constructor; [|by apply family_vocabulary; left].
  eapply VNode; [by left|done..].
Qed.

Lemma summary_vocabulary now hs : Forall in_vocabulary (summary_samples now hs).
Proof.
  unfold summary_samples. destruct (clampTelemetryTimestamp _ _). constructor; [|by apply family_vocabulary; right].
  eapply VNode; [by right|done..].
Qed.

Lemma tele_exec_vocabulary a op :
  Forall in_vocabulary (held_samples a) → Forall in_vocabulary (held_samples (tele_exec ctx a op)).
Proof.
  rewrite !Forall_forall. intros Ha s.
  destruct op as [now record msg len|now msg len|now msg len|now cap wrote msg len| | |i ok]; cbn [tele_exec].
  - unfold handleAgentHealthSummary. pose proof (held_accept (lit "AgentHealthSummary") (cm_TS msg) len a) as Hacc.
    destruct (acceptTelemetry _ _ len a) as [[] a1]; cbn [negb fst snd] in *; [|rewrite Hacc; apply Ha].
    destruct (clampTelemetryTimestamp (cm_TS msg) now) as [ts cl].
    assert (Forall in_vocabulary (sampler_samples msg ts ++ alertBreachSamples (cm_Breaches msg) ts)) as Hv.
    { apply Forall_app. split; [apply sampler_vocabulary|apply breach_vocabulary]. }
    rewrite Forall_forall in Hv. destruct (_ ++ _); [rewrite !held_drop_if, Hacc; apply Ha|].
    intros [?|Hin]%held_buffer; [by apply Hv|]. rewrite held_drop_if, Hacc in Hin. by apply Ha.
  - unfold handleAgentMetricWindow. pose proof (held_accept (lit "AgentMetricWindow") (cm_TS msg) len a) as Hacc.
    destruct (acceptTelemetry _ _ len a) as [[] a1]; cbn [negb fst snd] in *; [|rewrite Hacc; apply Ha].
    destruct (cm_Dims msg) as [|d0 dims]; [unfold dropTelemetry; rewrite held_drop, Hacc; apply Ha|].
    destruct (clampTelemetryTimestamp (cm_TS msg) now) as [ts cl]. intros [Hin|Hin]%held_buffer.
    + pose proof (window_vocabulary (d0 :: dims) ts) as Hv. rewrite Forall_forall in Hv. by apply Hv.
    + rewrite held_drop_if, Hacc in Hin. by apply Ha.
  - unfold handleHealthWindowResponse. pose proof (held_accept (lit "HealthWindowResponse") (cm_TS msg) len a) as Hacc.
    destruct (acceptTelemetry _ _ len a) as [[] a1]; cbn [negb fst snd] in *; [|rewrite Hacc; apply Ha].
    destruct (cm_Summaries msg) as [|s0 ss]; [unfold dropTelemetry; rewrite held_drop, Hacc; apply Ha|].
    intros [Hin|Hin]%held_buffer.
    + apply list_elem_of_bind in Hin as (hs & Hin & _). pose proof (summary_vocabulary now hs) as Hv.
      rewrite Forall_forall in Hv. by apply Hv.
    + rewrite held_drop_if, Hacc in Hin. by apply Ha.
  - unfold handleMetricBackfillBatch, dropTelemetry. case_bool_decide; [cbn [snd]; rewrite held_drop; apply Ha|].
    destruct cap; [|apply Ha]. cbn [negb]. destruct (TenantFromContext ctx); [|cbn [snd]; rewrite held_drop; apply Ha].
    set (a2 := drop_if _ unknown_dim _ _). assert (Hh : held_samples a2 = held_samples a) by (unfold a2; by rewrite !held_drop_if).
    clearbody a2. pose proof (backfill_vocabulary (unix now) (cm_BackfillSamples msg)) as Hv. rewrite Forall_forall in Hv.
    destruct (backfill_samples _ _); [cbn [snd]; rewrite Hh; apply Ha|].
    destruct wrote; cbn [snd]; [|rewrite Hh; apply Ha]. rewrite elem_held. tele. rewrite elem_of_app. intros Hin.
    assert (s ∈ held_samples a2 ∨ s ∈ s0 :: l) as [Hin'|Hin'] by (rewrite elem_held; tauto);
      [rewrite Hh in Hin'; by apply Ha|by apply Hv].
  - intros Hin%held_flush. by apply Ha.
  - unfold dropTelemetry. rewrite held_drop. apply Ha.
  - intros Hin%held_finish. by apply Ha.
Qed.
End vocabulary.

(** Every sample buffered, in flight or written, live or backfilled, is of the
    fleet's vocabulary: a listed dimension, a listed family, the node's rate or a
    sanitized breach of a canonical metric. *)
Theorem telemetry_in_vocabulary ctx ops :
  Forall in_vocabulary (held_samples (tele_run ctx no_telemetry ops)).
Proof.
  assert (Forall in_vocabulary (held_samples no_telemetry)) as H0 by constructor.
  revert H0. generalize no_telemetry. induction ops as [|op ops IH]; intros a Ha; [done|].
  by apply IH, tele_exec_vocabulary.
Qed.

(** ** Clocks *)

(** Stamps whose seconds since the year 1 fit in 64 bits. *)
Definition unix_max : Z := 2 ^ 63 - 1 - 62135596800.

Lemma unix_time_exact ts : 0 < ts ≤ unix_max → unix_time ts = ts * second.
Proof. unfold unix_max, unix_time. intros H. rewrite i64_id by (unfold is_i64, i64_max; lia). lia. Qed.

(** A stamp is moved into the window around the server's clock, in order, and
    is left alone inside it; the direction reported is the bound that was hit. *)
Theorem clamp_exact ts ts' now :
  0 < ts → ts ≤ ts' → ts' ≤ unix_max →
  let c := clampTelemetryTimestamp ts now in
  let c' := clampTelemetryTimestamp ts' now in
  now - maxTelemetryBacklog ≤ c.1 ≤ now + maxTelemetrySkew ∧ c.1 ≤ c'.1 ∧
  (c.2 = NoClamp ↔ now - maxTelemetryBacklog ≤ ts * second ≤ now + maxTelemetrySkew) ∧
  (c.2 = NoClamp → c.1 = ts * second) ∧
  (c.2 = clampPast ↔ ts * second < now - maxTelemetryBacklog).
Proof.
  intros H1 H2 H3. cbn zeta. unfold clampTelemetryTimestamp. rewrite !bool_decide_eq_false_2 by lia.
  rewrite !unix_time_exact by lia. assert (ts * second ≤ ts' * second) by (unfold second; lia).
  assert (0 < maxTelemetryBacklog ∧ 0 < maxTelemetrySkew) as [??] by done.
  repeat case_bool_decide; cbn [fst snd]; split_and!; try lia; try done; split; try done; lia.
Qed.

Lemma clamp_exact_witness :
  clampTelemetryTimestamp 1700000000 (1700000000 * second + hour) = (1700000000 * second, NoClamp) ∧
  (clampTelemetryTimestamp 1700000000 (1700000000 * second + hour)).1 ≤
  (clampTelemetryTimestamp 1800000000 (1700000000 * second + hour)).1.
Proof.
  split; [by vm_compute|].
  destruct (clamp_exact 1700000000 1800000000 (1700000000 * second + hour)) as (_ & H & _);
    [done|done|by vm_compute|exact H].
Defined.

(** Past that, the stamp wraps to before the window: a stamp in the far future
    is taken for one in the past. *)
Lemma clamp_wraps : (clampTelemetryTimestamp (unix_max + 1) (1700000000 * second)).2 = clampPast.
Proof. by vm_compute. Qed.

(** ** Backfill *)

(** A batch is acknowledged exactly when it is within the size cap, the agent
    advertised the capability, the connection has a tenant, and what is left of
    it was written or nothing is left; what is written is what is left of it:
    samples within retention, of listed dimensions, at their own times.  A batch
    that is not acknowledged writes nothing. *)
Theorem backfill_exact ctx now capable wrote msg len a r a' :
  handleMetricBackfillBatch ctx now capable wrote msg len a = (r, a') →
  let kept := backfill_samples (unix now) (cm_BackfillSamples msg) in
  (r = Ack (cm_Tier msg) (cm_Cursor msg) ↔
     len ≤ maxTelemetryPayloadBytes ∧ capable = true ∧ is_Some (TenantFromContext ctx) ∧ (wrote = true ∨ kept = [])) ∧
  t_written a' = t_written a ++ (if r is Ack _ _ then kept else []) ∧
  (∀ s, s ∈ kept ↔ ∃ b, b ∈ cm_BackfillSamples msg ∧ bs_Name b ∈ vitalDims ∧
     unix now - backfillRetentionSecs ≤ bs_TS b ≤ unix now + backfillFutureSkewSecs ∧
     s = mk_sample (lit "opengate_edge_metric_avg") (bs_Value b) (unix_time (bs_TS b)) {[lit "dim" := bs_Name b]}).
Proof.
  intros H kept. assert (Hkept : ∀ s, s ∈ kept ↔ ∃ b, b ∈ cm_BackfillSamples msg ∧ bs_Name b ∈ vitalDims ∧
     unix now - backfillRetentionSecs ≤ bs_TS b ≤ unix now + backfillFutureSkewSecs ∧
     s = mk_sample (lit "opengate_edge_metric_avg") (bs_Value b) (unix_time (bs_TS b)) {[lit "dim" := bs_Name b]}).
  { intros s. unfold kept, backfill_samples. rewrite list_elem_of_fmap.
    setoid_rewrite list_elem_of_In. setoid_rewrite filter_In. setoid_rewrite andb_true_iff.
    unfold in_retention, isVitalDim. setoid_rewrite bool_decide_eq_true. setoid_rewrite <- list_elem_of_In. naive_solver. }
  assert (Hw : ∀ b r ing x, t_written (drop_if b r ing x) = t_written x).
  { intros b r0 ing x. destruct b; [|done]. unfold drop_if, dropTelemetry, dropTelemetryN. by case_bool_decide. }
  assert (Hr : (r = Ack (cm_Tier msg) (cm_Cursor msg) ↔
     len ≤ maxTelemetryPayloadBytes ∧ capable = true ∧ is_Some (TenantFromContext ctx) ∧ (wrote = true ∨ kept = [])) ∧
     t_written a' = t_written a ++ (if r is Ack _ _ then kept else [])); [|destruct Hr; by split_and!].
  unfold handleMetricBackfillBatch in H. fold kept in H. clearbody kept. unfold is_Some. case_bool_decide.
  { injection H as <- <-. rewrite app_nil_r, (Hw true). split; [|done]. split; [done|lia]. }
  destruct capable; cbn [negb] in H; [|injection H as <- <-; rewrite app_nil_r; naive_solver].
  destruct (TenantFromContext ctx) as [t|]; [|injection H as <- <-; rewrite app_nil_r, (Hw true); naive_solver].
  destruct kept as [|x l].
  - injection H as <- <-. rewrite !Hw, app_nil_r. split; [|done]. split; [|done]. intros _. split_and!; [lia|done|by eexists|by right].
  - destruct wrote; injection H as <- <-; tele; rewrite !Hw, ?app_nil_r; split; try done.
    + split; [|done]. intros _. split_and!; [lia|done|by eexists|by left].
    + split; [done|]. naive_solver.
Qed.

(** ** Runs *)

(** A message with these fields and no others. *)
Definition demo_message (ts : Z) (dims : list MetricDim) (batch : list BackfillSample) : ControlMessage :=
  mk_control (lit "AgentMetricWindow") [] [] [] [] 0 ts [] f_zero [] [] [] [] dims 0 0 [] [] [] [] 0 0 0 0 0 0 []
    batch 0 [] 0 0 0 [] None [] [] [] None [] [] [] [] [] None [] [] [] [] 0 0 0 [] None [] 0 0 [] []
    false 0 [] [] [] 0 0 0 0 [] [] None [] [] [] [] [] 0 0 [] [] [] 0 None [] [] [] [] [] [] None [] []
    0 None [] None 0 0 0 None [] [] [] [] [] 0 0.

Definition demo_ctx : option Tenant := Some (mk_tenant (replicate 16 x01) false).
Definition demo_dim (name : bytes) : MetricDim := mk_md name f_one.

Lemma backfill_exact_witness :
  let msg := demo_message 0 [] [mk_bs (lit "cpu.total") 1000 f_one; mk_bs (lit "gpu") 1000 f_one] in
  let out := handleMetricBackfillBatch demo_ctx (2000 * second) true true msg 100 no_telemetry in
  out.1 = Ack [] 0 ∧ length (t_written out.2) = 1%nat.
Proof.
  intros msg out. destruct (backfill_exact demo_ctx (2000 * second) true true msg 100 no_telemetry out.1 out.2) as (H & Hw & _).
  - apply surjective_pairing.
  - assert (Ha : out.1 = Ack [] 0).
    { apply H. split_and!; [by vm_compute|done|by eexists|by left]. }
    split; [exact Ha|]. rewrite Hw, Ha. by vm_compute.
Defined.

(** A window of which one dimension is unknown is dropped and persisted: one
    message ingested, one dropped and one persisted. *)
Theorem partial_window_counted_twice :
  let msg := demo_message 0 [demo_dim (lit "cpu.total"); demo_dim (lit "gpu")] [] in
  let a := tele_run demo_ctx no_telemetry [OpWindow 0 msg 100; OpHeartbeat; OpWritten 0 true] in
  t_ingested a = 1 ∧ t_persisted a = 1 ∧ DroppedTelemetryCount a = 1 ∧
  t_bufMsgs a = 0 ∧ t_inflight a = [].
Proof. by vm_compute. Qed.
