(* ===== verification/ProxyTrust.v ===== *)
(** * Whom a request counts against

    [src/server/internal/api/proxytrust.go] and [ratelimit.go]: the proxies whose
    forwarded address is believed, by range or by the names a resolver gives
    them, the answers kept for a while, the client address a request counts
    under, and the table of token buckets.  The resolver is a parameter, what it
    answers at an instant; the token bucket is the class [RateLimiter] of what
    [golang.org/x/time/rate] documents. *)
From S2P Require Import Prelude GoTime GoStrings GoNet.

(** [http.Header]: the values of a header, in the order of its lines. *)
Abbreviation Header := (gmap bytes (list bytes)).
Definition header_Get (h : Header) (key : bytes) : bytes := default [] (h !! key ≫= head).

(** ** The trusted set *)

Record proxyService := mk_proxyService { ps_name : bytes; ps_namespace : bytes }.
Record trustVerdict := mk_trustVerdict { tv_trusted : bool; tv_expires : time }.

Record TrustedProxies := mk_TrustedProxies {
  services : list proxyService;
  ranges : list Prefix;
  positiveTTL : duration;
  negativeTTL : duration;
  seen : gmap Addr trustVerdict;
}.

Definition defaultTrustPositiveTTL : duration := 5 * minute.
Definition defaultTrustNegativeTTL : duration := 5 * second.
Definition maxTrustedPeersRemembered : nat := 1024.

Definition with_seen (m : gmap Addr trustVerdict) (t : TrustedProxies) : TrustedProxies :=
  mk_TrustedProxies (services t) (ranges t) (positiveTTL t) (negativeTTL t) m.

Inductive trust_err := NotARange (entry : bytes) | NotAService (entry : bytes).

Definition parseProxyService (entry : bytes) : result trust_err proxyService :=
  match Split entry x2e with
  | [name; namespace] =>
      if bool_decide (name = [] ∨ namespace = []) then Err (NotAService entry)
      else Ok (mk_proxyService name namespace)
  | _ => Err (NotAService entry)
  end.

(** One turn of the loop over the configured entries. *)
Definition parse_entry (acc : list proxyService * list Prefix) (raw : bytes) :
    result trust_err (list proxyService * list Prefix) :=
  let '(services, ranges) := acc in
  let entry := TrimSpace raw in
  if bool_decide (entry = []) then Ok acc
  else if bool_decide (x2f ∈ entry) then
    match ParsePrefix entry with
    | Some prefix => Ok (services, ranges ++ [Masked prefix])
    | None => Err (NotARange entry)
    end
  else match ParseAddr entry with
  | Some addr => Ok (services, ranges ++ [PrefixFrom addr (BitLen addr)])
  | None => service ← parseProxyService entry; Ok (services ++ [service], ranges)
  end.

Fixpoint parse_entries (acc : list proxyService * list Prefix) (entries : list bytes) :
    result trust_err (list proxyService * list Prefix) :=
  match entries with
  | [] => Ok acc
  | raw :: entries => acc ← parse_entry acc raw; parse_entries acc entries
  end.

Definition ParseTrustedProxies (entries : list bytes) : result trust_err (option TrustedProxies) :=
  '(services, ranges) ← parse_entries ([], []) entries;
  if bool_decide (services = [] ∧ ranges = []) then Ok None
  else Ok (Some (mk_TrustedProxies services ranges defaultTrustPositiveTTL defaultTrustNegativeTTL ∅)).

(** ** Asking the resolver, and remembering *)

Definition nameAnswersFor (name : bytes) (service : proxyService) : bool :=
  let labels := Split (TrimSuffix name x2e) x2e in
  existsb (λ i, bool_decide (labels !! i = Some (lit "svc") ∧ labels !! (i - 2)%nat = Some (ps_name service) ∧
                             labels !! (i - 1)%nat = Some (ps_namespace service)))
          (seq 2 (length labels - 1 - 2)).

(** [names] is the resolver's answer, [None] when it fails. *)
Definition askTheCluster (names : option (list bytes)) (t : TrustedProxies) : bool :=
  match names with
  | None => false
  | Some names => existsb (λ name, existsb (nameAnswersFor name) (services t)) names
  end.

Definition recall (addr : Addr) (now : time) (t : TrustedProxies) : option bool :=
  match seen t !! addr with
  | Some verdict => if bool_decide (now < tv_expires verdict) then Some (tv_trusted verdict) else None
  | None => None
  end.

Definition forgetExpired (now : time) (m : gmap Addr trustVerdict) : gmap Addr trustVerdict :=
  filter (λ kv, now < tv_expires kv.2) m.

Definition ttl_of (t : TrustedProxies) (trusted : bool) : duration :=
  if trusted then positiveTTL t else negativeTTL t.

Definition remember (addr : Addr) (trusted : bool) (now : time) (t : TrustedProxies) : TrustedProxies :=
  let m := if bool_decide (maxTrustedPeersRemembered ≤ size (seen t))%nat then
             let m := forgetExpired now (seen t) in
             if bool_decide (maxTrustedPeersRemembered ≤ size m)%nat then ∅ else m
           else seen t in
  with_seen (<[addr := mk_trustVerdict trusted (now + ttl_of t trusted)]> m) t.

(** The answer for a peer, and the set with what it remembered; a nil set
    trusts nobody. *)
Definition trusts (resolve : Addr → option (list bytes)) (now : time) (addr : Addr) (t : option TrustedProxies) :
    bool * option TrustedProxies :=
  match t with
  | None => (false, None)
  | Some t =>
      if existsb (λ prefix, Contains prefix addr) (ranges t) then (true, Some t)
      else if bool_decide (services t = []) then (false, Some t)
      else match recall addr now t with
      | Some verdict => (verdict, Some t)
      | None => let trusted := askTheCluster (resolve addr) t in (trusted, Some (remember addr trusted now t))
      end
  end.

(** ** The client's address *)

Record Request := mk_Request { RemoteAddr : bytes; req_Header : Header }.

Definition XForwardedFor : bytes := lit "X-Forwarded-For".

Definition peerIP (r : Request) : bytes :=
  match SplitHostPort (RemoteAddr r) with Some (ip, _) => ip | None => RemoteAddr r end.

(** The loop cuts at a comma until none is left: at most one turn per byte. *)
Fixpoint lastHop_loop (fuel : nat) (s : bytes) : bytes :=
  match fuel with
  | O => s
  | S fuel => match Cut s x2c with Some (_, rest) => lastHop_loop fuel rest | None => s end
  end.
Definition lastHop (s : bytes) : bytes := lastHop_loop (length s) s.

Definition extractIP (resolve : Addr → option (list bytes)) (now : time) (r : Request) (trust : option TrustedProxies) :
    bytes * option TrustedProxies :=
  let peer := peerIP r in
  match ParseAddr peer with
  | None => (peer, trust)
  | Some addr =>
      let '(trusted, trust) := trusts resolve now addr trust in
      if negb trusted then (peer, trust)
      else
        let xff := header_Get (req_Header r) XForwardedFor in
        let xff := match Cut xff x2c with Some (_, last) => lastHop last | None => xff end in
        let client := TrimSpace xff in
        if bool_decide (client = []) then (peer, trust)
        else match ParseAddr client with Some _ => (client, trust) | None => (peer, trust) end
  end.

(** ** Token buckets

    What the table relies on of a token bucket: [asked_by l t] holds when the
    bucket was last asked no later than [t], and one left alone for [fill] answers
    and ends as a new one. *)
Class RateLimiter (Limiter : Type) := {
  NewLimiter : Limiter;
  Allow : time → Limiter → bool * Limiter;
  asked_by : Limiter → time → Prop;
  fill : duration;
  asked_by_new : ∀ t, asked_by NewLimiter t;
  asked_by_Allow : ∀ now t l, asked_by l t → t ≤ now → asked_by (Allow now l).2 now;
  full_again : ∀ now t l, asked_by l t → t + fill ≤ now → Allow now l = Allow now NewLimiter;
}.

Section buckets.
Context {Limiter : Type} `{RateLimiter Limiter}.

Record bucketEntry := mk_bucketEntry { be_limiter : Limiter; be_lastSeen : time }.

(** [get] and the question to the bucket it returns. *)
Definition ask_bucket (key : bytes) (now : time) (t : gmap bytes bucketEntry) : bool * gmap bytes bucketEntry :=
  let l := match t !! key with Some e => be_limiter e | None => NewLimiter end in
  let '(ok, l) := Allow now l in
  (ok, <[key := mk_bucketEntry l now]> t).

(** One tick of [cleanup]. *)
Definition bucket_cleanup (now : time) (t : gmap bytes bucketEntry) : gmap bytes bucketEntry :=
  filter (λ kv, ¬ be_lastSeen kv.2 < now - 5 * minute) t.

Inductive bucket_event :=
  | BucketRequest (key : bytes) (now : time)
  | BucketTick (now : time).

Definition bucket_time (e : bucket_event) : time := match e with BucketRequest _ now | BucketTick now => now end.

(** The answers of a run, with the cleanup or without it. *)
Fixpoint bucket_run (evict : bool) (t : gmap bytes bucketEntry) (l : list bucket_event) : list bool :=
  match l with
  | [] => []
  | BucketRequest key now :: l => let '(ok, t) := ask_bucket key now t in ok :: bucket_run evict t l
  | BucketTick now :: l => bucket_run evict (if evict then bucket_cleanup now t else t) l
  end.

(** The instants of a run do not go back. *)
Fixpoint in_order (from : time) (l : list bucket_event) : Prop :=
  match l with [] => True | e :: l => from ≤ bucket_time e ∧ in_order (bucket_time e) l end.
End buckets.

(** ** The configured set *)

Lemma parse_entry_counts acc raw acc' :
  parse_entry acc raw = Ok acc' →
  (length acc'.1 + length acc'.2 = length acc.1 + length acc.2 + if bool_decide (TrimSpace raw = []) then 0 else 1)%nat.
Proof.
  destruct acc as [sv rg]. unfold parse_entry. cbn [fst snd]. case_bool_decide; [intros [= <-]; cbn; lia|].
  case_bool_decide.
  - destruct (ParsePrefix _); intros [= <-]. cbn. rewrite length_app. cbn. lia.
  - destruct (ParseAddr _); [intros [= <-]; cbn; rewrite length_app; cbn; lia|].
    intros (x & _ & [= <-])%bind_Ok. cbn. rewrite length_app. cbn. lia.
Qed.

Lemma parse_entries_counts entries acc acc' :
  parse_entries acc entries = Ok acc' →
  (length acc'.1 + length acc'.2 =
   length acc.1 + length acc.2 + length (List.filter (λ raw, negb (bool_decide (TrimSpace raw = []))) entries))%nat.
Proof.
  revert acc. induction entries as [|raw entries IH]; intros acc; cbn [parse_entries List.filter].
  - intros [= <-]. cbn. lia.
  - intros (acc1 & H1%parse_entry_counts & H2%IH)%bind_Ok. rewrite H2, H1. case_bool_decide; cbn; lia.
Qed.

(** Parsing accepts a configuration only when it takes every entry that is not
    blank, as one service or one range each; so the set is empty exactly when
    nothing is configured, and a mistyped entry is an error. *)
Theorem no_entry_lost entries t :
  ParseTrustedProxies entries = Ok t →
  length (List.filter (λ raw, negb (bool_decide (TrimSpace raw = []))) entries) =
  match t with None => 0%nat | Some t => (length (services t) + length (ranges t))%nat end.
Proof.
  unfold ParseTrustedProxies. intros ([sv rg] & H%parse_entries_counts & Ht)%bind_Ok. cbn in H. revert Ht.
  case_bool_decide as He; intros [= <-]; cbn; [|lia]. destruct He as [-> ->]. cbn in H. lia.
Qed.

(** ** Names *)

(** A name answers for a service when its labels hold the service, the namespace
    and [svc] in a row with a zone after them, whatever comes before. *)
Lemma nameAnswersFor_spec name service :
  nameAnswersFor name service = true ↔
  ∃ before zone, zone ≠ [] ∧
    Split (TrimSuffix name x2e) x2e = before ++ [ps_name service; ps_namespace service; lit "svc"] ++ zone.
Proof.
  unfold nameAnswersFor. rewrite existsb_exists. generalize (Split (TrimSuffix name x2e) x2e) as labels. intros labels.
  split.
  - intros (i & Hi%in_seq & (H0 & H1 & H2)%bool_decide_eq_true).
    exists (take (i - 2) labels), (drop (S i) labels). split.
    + intros Hd. apply (f_equal length) in Hd. rewrite length_drop in Hd. cbn in Hd. lia.
    + rewrite <- (take_drop (i - 2) labels) at 1. f_equal. rewrite (drop_S _ _ _ H1).
      replace (S (i - 2)) with (i - 1)%nat by lia. rewrite (drop_S _ _ _ H2).
      replace (S (i - 1)) with i by lia. by rewrite (drop_S _ _ _ H0).
  - intros (before & zone & Hz & ->). exists (length before + 2)%nat.
    assert (0 < length zone)%nat by (destruct zone; [done|cbn; lia]). split.
    + apply in_seq. rewrite !length_app. cbn. lia.
    + apply bool_decide_eq_true. split_and!; rewrite lookup_app_r by lia.
      * by replace (length before + 2 - length before)%nat with 2%nat by lia.
      * by replace (length before + 2 - 2 - length before)%nat with 0%nat by lia.
      * by replace (length before + 2 - 1 - length before)%nat with 1%nat by lia.
Qed.

(** ** The answers kept *)

Lemma remember_size addr b now t :
  (size (seen t) ≤ maxTrustedPeersRemembered)%nat → (size (seen (remember addr b now t)) ≤ maxTrustedPeersRemembered)%nat.
Proof.
  intros Hs. unfold remember, with_seen. cbn [seen].
  assert (∀ (m : gmap Addr trustVerdict) v, (size m < maxTrustedPeersRemembered)%nat →
            (size (<[addr := v]> m) ≤ maxTrustedPeersRemembered)%nat) as Hins.
  { intros m v Hm. destruct (m !! addr) eqn:E.
    - rewrite map_size_insert_Some by eauto. lia.
    - rewrite map_size_insert_None by done. lia. }
  repeat case_bool_decide; apply Hins; try lia. rewrite map_size_empty. unfold maxTrustedPeersRemembered. lia.
Qed.

Lemma remember_lookup addr b now t a v :
  seen (remember addr b now t) !! a = Some v →
  (a = addr ∧ v = mk_trustVerdict b (now + ttl_of t b)) ∨ seen t !! a = Some v.
Proof.
  unfold remember, with_seen. cbn [seen]. destruct (decide (a = addr)) as [->|Hne].
  - rewrite lookup_insert_eq. intros [= <-]. by left.
  - rewrite lookup_insert_ne by done. intros Hv. right. revert Hv. repeat case_bool_decide; [done| |done].
    unfold forgetExpired. rewrite map_lookup_filter_Some. naive_solver.
Qed.

(** The set under concurrent requests: each, when it asked the resolver at an
    instant no earlier than the one it started at, remembers the answer. *)
Inductive trust_reach (resolve : time → Addr → option (list bytes)) (entries : list bytes) : TrustedProxies → Prop :=
  | trust_start t : ParseTrustedProxies entries = Ok (Some t) → trust_reach resolve entries t
  | trust_remember t addr now at_ :
      trust_reach resolve entries t → now ≤ at_ →
      trust_reach resolve entries (remember addr (askTheCluster (resolve at_ addr) t) now t).

(** The verdicts kept are answers the resolver gave, and when. *)
Lemma trust_reach_inv resolve entries t :
  trust_reach resolve entries t →
  positiveTTL t = defaultTrustPositiveTTL ∧ negativeTTL t = defaultTrustNegativeTTL ∧
  (size (seen t) ≤ maxTrustedPeersRemembered)%nat ∧
  ∀ a v, seen t !! a = Some v →
    ∃ at_, tv_expires v ≤ at_ + ttl_of t (tv_trusted v) ∧ tv_trusted v = askTheCluster (resolve at_ a) t.
Proof.
  induction 1 as [t Ht|t addr now at_ _ (Hp & Hn & Hs & Hv) Hat].
  - unfold ParseTrustedProxies in Ht. apply bind_Ok in Ht as ([sv rg] & _ & Ht). revert Ht.
    case_bool_decide; intros [= <-]. cbn. split_and!; try done.
    rewrite map_size_empty. unfold maxTrustedPeersRemembered. lia.
  - split_and!; try done; [by apply remember_size|]. intros a v [[-> ->]|Hold]%remember_lookup.
    + exists at_. cbn [tv_expires tv_trusted]. split; [|done].
      change (ttl_of (remember _ _ _ _)) with (ttl_of t). lia.
    + by apply Hv.
Qed.

(** A peer is trusted when a range holds it or when the resolver, asked within the
    last five minutes, named it as a trusted service; it is refused only when the
    resolver did not name it within the last five seconds.  However many peers
    connect, at most 1024 answers are kept. *)
Theorem proxy_verdict_fresh resolve entries t now addr :
  trust_reach resolve entries t →
  (size (seen t) ≤ maxTrustedPeersRemembered)%nat ∧
  (existsb (λ prefix, Contains prefix addr) (ranges t) = true → (trusts (resolve now) now addr (Some t)).1 = true) ∧
  (existsb (λ prefix, Contains prefix addr) (ranges t) = false →
   let b := (trusts (resolve now) now addr (Some t)).1 in
   ∃ at_, now - (if b then 5 * minute else 5 * second) < at_ ∧ b = askTheCluster (resolve at_ addr) t).
Proof.
  intros (Hp & Hn & Hs & Hv)%trust_reach_inv. split; [done|]. unfold trusts. split; [by intros ->|]. intros ->.
  assert (∀ b, ttl_of t b = if b then 5 * minute else 5 * second) as Httl.
  { intros b. unfold ttl_of. rewrite Hp, Hn. done. }
  assert (∀ b, 0 < ttl_of t b) as Hpos by (intros b; rewrite Httl; by destruct b).
  case_bool_decide as Hsv; cbn [fst].
  - exists now. split; [unfold second; lia|]. unfold askTheCluster. rewrite Hsv.
    destruct (resolve now addr) as [names|]; [|done]. cbn [existsb]. induction names; cbn; done.
  - destruct (recall addr now t) as [b|] eqn:Er; cbn [fst].
    + unfold recall in Er. destruct (seen t !! addr) as [v|] eqn:E; [|done]. revert Er.
      case_bool_decide as Hlt; intros [= <-]. destruct (Hv _ _ E) as (at_ & He & Hb). exists at_.
      rewrite <- Httl. split; [lia|done].
    + exists now. specialize (Hpos (askTheCluster (resolve now addr) t)). rewrite Httl in Hpos. split; [lia|done].
Qed.

(** ** The client's address *)

Lemma lastHop_spec s : last (Split s x2c) = Some (lastHop s).
Proof.
  unfold lastHop. assert (∀ fuel s, (length s ≤ fuel)%nat → last (Split s x2c) = Some (lastHop_loop fuel s)) as H.
  { intros fuel. induction fuel as [|fuel IH]; intros s' Hf; rewrite Split_cut.
    - destruct s'; [done|cbn in Hf; lia].
    - cbn [lastHop_loop]. destruct (Cut s' x2c) as [[before rest]|] eqn:E; [|done].
      pose proof (Cut_length _ _ _ _ E). pose proof (Split_nonnil rest x2c).
      destruct (Split rest x2c) eqn:Es; [done|]. rewrite <- Es. rewrite <- IH by lia. by rewrite Es. }
  by apply H.
Qed.

(** The last entry of a list of addresses: what the loop of [extractIP] reads. *)
Definition forwarded (xff : bytes) : bytes := TrimSpace (default [] (last (Split xff x2c))).

Lemma forwarded_cut xff :
  TrimSpace (match Cut xff x2c with Some (_, last) => lastHop last | None => xff end) = forwarded xff.
Proof.
  unfold forwarded. rewrite Split_cut. destruct (Cut xff x2c) as [[before rest]|]; [|done].
  pose proof (Split_nonnil rest x2c). pose proof (lastHop_spec rest) as Hl.
  destruct (Split rest x2c) as [|p l] eqn:E; [done|]. rewrite <- E in Hl |- *. f_equal. rewrite E in Hl |- *.
  cbn [last] in *. by rewrite Hl.
Qed.

(** A request counts under the address its connection comes from, unless that
    address is a trusted proxy: then under the last address the proxy put in the
    header, when there is one.  What the client wrote before it makes no
    difference, and from an untrusted peer no header does. *)
Theorem client_address_exact resolve now r trust :
  let peer := peerIP r in
  let client := forwarded (header_Get (req_Header r) XForwardedFor) in
  (extractIP resolve now r trust).1 =
    (match ParseAddr peer with
     | Some addr => if (trusts resolve now addr trust).1 && bool_decide (is_Some (ParseAddr client)) then client else peer
     | None => peer
     end) ∧
  (∀ spoofed hop, x2c ∉ hop → forwarded (spoofed ++ x2c :: hop) = TrimSpace hop).
Proof.
  cbn zeta. split.
  - unfold extractIP. destruct (ParseAddr (peerIP r)) as [addr|]; [|done].
    destruct (trusts resolve now addr trust) as [b t]. cbn [fst]. destruct b; cbn [negb andb fst]; [|done].
    rewrite forwarded_cut. case_bool_decide as He; cbn [fst].
    + rewrite He. done.
    + destruct (ParseAddr (forwarded _)); cbn [fst]; [by rewrite bool_decide_true by eauto|].
      rewrite bool_decide_false; [done|]. by intros [? ?].
  - intros spoofed hop Hh. unfold forwarded. by rewrite Split_app, last_snoc.
Qed.

(** Only the first line of the header is read: a proxy that adds a line of its own
    after the client's leaves the client to choose the address it counts under. *)
Example second_line_ignored :
  let trust := match ParseTrustedProxies [lit "10.42.0.0/16"] with Ok t => t | Err _ => None end in
  let r := mk_Request (lit "10.42.0.7:4711") {[XForwardedFor := [lit "203.0.113.9"; lit "198.51.100.1"]]} in
  (extractIP (λ _, None) 0 r trust).1 = lit "203.0.113.9".
Proof. by vm_compute. Qed.

(** ** Eviction *)

Section eviction.
Context {Limiter : Type} `{RateLimiter Limiter}.
Hypothesis Hfill : fill ≤ 5 * minute.

(** A table that evicts beside one that never does: an entry missing from the
    first has been left alone long enough to be as good as new. *)
Definition evicted (from : time) (te t0 : gmap bytes bucketEntry) : Prop :=
  ∀ k, match te !! k, t0 !! k with
       | Some e, Some e0 => e = e0 ∧ asked_by (be_limiter e) (be_lastSeen e) ∧ be_lastSeen e ≤ from
       | None, Some e0 => asked_by (be_limiter e0) (be_lastSeen e0) ∧ be_lastSeen e0 + 5 * minute ≤ from
       | None, None => True
       | Some _, None => False
       end.

Lemma evicted_later from from' te t0 : from ≤ from' → evicted from te t0 → evicted from' te t0.
Proof.
  intros Hle He k. specialize (He k). destruct (te !! k), (t0 !! k); try done; destruct_and?; split_and?; try done; lia.
Qed.

Lemma evicted_ask from key now te t0 :
  from ≤ now → evicted from te t0 →
  (ask_bucket key now te).1 = (ask_bucket key now t0).1 ∧
  evicted now (ask_bucket key now te).2 (ask_bucket key now t0).2.
Proof.
  intros Hle He. unfold ask_bucket.
  assert (Allow now (match te !! key with Some e => be_limiter e | None => NewLimiter end) =
          Allow now (match t0 !! key with Some e => be_limiter e | None => NewLimiter end) ∧
          asked_by (Allow now (match t0 !! key with Some e => be_limiter e | None => NewLimiter end)).2 now) as [-> Hnow].
  { specialize (He key). destruct (te !! key) as [e|], (t0 !! key) as [e0|]; try done.
    - destruct He as (-> & Ha & Hl). split; [done|]. eapply asked_by_Allow; [exact Ha|lia].
    - destruct He as [Ha Hl]. split; [symmetry; eapply full_again; [exact Ha|lia]|].
      eapply asked_by_Allow; [exact Ha|]. unfold minute, second in *. lia.
    - split; [done|]. by apply (asked_by_Allow now now); [apply asked_by_new|]. }
  destruct (Allow now _) as [ok l]. cbn [fst snd] in *. split; [done|]. intros k.
  destruct (decide (k = key)) as [->|Hne].
  - rewrite !lookup_insert_eq. cbn. by split_and!.
  - rewrite !lookup_insert_ne by done. by apply (evicted_later from).
Qed.

Lemma evicted_cleanup from now te t0 :
  from ≤ now → evicted from te t0 → evicted now (bucket_cleanup now te) t0.
Proof.
  intros Hle He k. apply (evicted_later _ now) in He; [|done]. specialize (He k). unfold bucket_cleanup.
  destruct (te !! k) as [e|] eqn:E.
  - destruct (t0 !! k) as [e0|]; [|done]. destruct He as (-> & Ha & Hl).
    destruct (decide (be_lastSeen e0 < now - 5 * minute)) as [Ho|Ho].
    + rewrite (proj2 (map_lookup_filter_None _ _ _)); [split; [done|lia]|]. right. intros x Hx. cbn. simplify_eq. auto.
    + rewrite (proj2 (map_lookup_filter_Some _ _ _ _) (conj E Ho)). done.
  - rewrite (proj2 (map_lookup_filter_None _ _ _)); [done|by left].
Qed.

(** Evicting the buckets left alone for five minutes changes no answer: the table
    answers any run of requests as one that keeps every bucket for ever. *)
Theorem eviction_invisible from l :
  in_order from l → bucket_run true ∅ l = bucket_run false (∅ : gmap bytes bucketEntry) l.
Proof.
  assert (∀ te t0, evicted from te t0 → in_order from l → bucket_run true te l = bucket_run false t0 l) as Hrun.
  { revert from. induction l as [|[key now|now] l IH]; intros from te t0 He; cbn; [done| |].
    - intros [Hle Hord]. pose proof (evicted_ask from key now te t0 Hle He) as [Ha He'].
      destruct (ask_bucket key now te) as [ok te'], (ask_bucket key now t0) as [ok0 t0']. cbn in Ha, He'. subst ok0.
      f_equal. by eapply IH.
    - intros [Hle Hord]. eapply IH; [|done]. by eapply evicted_cleanup. }
  apply Hrun. intros k. by rewrite !lookup_empty.
Qed.
End eviction.

(** A token bucket in billionths of a token: [rps] tokens a second, at most
    [burst] of them. *)
Record token_bucket := mk_token_bucket { tb_tokens : Z; tb_last : option time }.
Definition tokens_at (rps burst : Z) (now : time) (l : token_bucket) : Z :=
  match tb_last l with
  | None => burst * second
  | Some at_ => Z.min (burst * second) (tb_tokens l + (now - at_) * rps)
  end.
Definition token_allow (rps burst : Z) (now : time) (l : token_bucket) : bool * token_bucket :=
  let tokens := tokens_at rps burst now l in
  if bool_decide (second ≤ tokens) then (true, mk_token_bucket (tokens - second) (Some now)) else (false, l).

(** The bucket of the login endpoints: ten requests a second, twenty at once. *)
#[local] Instance login_bucket : RateLimiter token_bucket.
Proof.
  refine {| NewLimiter := mk_token_bucket 0 None; Allow := token_allow 10 20;
            asked_by := λ l t, 0 ≤ tb_tokens l ∧ (∀ at_, tb_last l = Some at_ → at_ ≤ t); fill := 2 * second |}.
  - intros t. split; [done|]. done.
  - intros now t l [Hb Hl] Hle. unfold token_allow. case_bool_decide as Hs; cbn.
    + split; [lia|]. by intros ? [= <-].
    + split; [done|]. intros at_ Hat. specialize (Hl _ Hat). lia.
  - intros now t l [Hb Hl] Hle. unfold token_allow.
    assert (tokens_at 10 20 now l = tokens_at 10 20 now (mk_token_bucket 0 None)) as ->; [|done].
    unfold tokens_at. cbn. destruct (tb_last l) as [at_|]; [|done]. specialize (Hl _ eq_refl). unfold second in *. lia.
Defined.

Lemma eviction_invisible_witness :
  let l := (BucketRequest (lit "address:10.0.0.1") <$> replicate 21 0) ++
           [BucketTick (6 * minute); BucketRequest (lit "address:10.0.0.1") (6 * minute)] in
  bucket_run true (∅ : gmap bytes bucketEntry) l = replicate 20 true ++ [false; true] ∧
  bucket_run true (∅ : gmap bytes bucketEntry) l = bucket_run false ∅ l.
Proof.
  intros l. split; [by vm_compute|].
  assert (fill ≤ 5 * minute) as Hf by (by vm_compute).
  assert (in_order 0 l) as Hord by (by vm_compute; repeat (split; [done|])).
  exact (eviction_invisible Hf 0 l Hord).
Defined.

Lemma no_entry_lost_witness :
  length (List.filter (λ raw, negb (bool_decide (TrimSpace raw = []))) [lit " traefik.kube-system "; lit "10.0.0.0/8"; lit " "]) = 2%nat.
Proof.
  destruct (ParseTrustedProxies [lit " traefik.kube-system "; lit "10.0.0.0/8"; lit " "]) as [t|e] eqn:E.
  - rewrite (no_entry_lost _ _ E). revert E. vm_compute. by intros [= <-].
  - revert E. by vm_compute.
Defined.

Lemma proxy_verdict_fresh_witness :
  let resolve (at_ : time) (a : Addr) := Some [lit "pod-1.traefik.kube-system.svc.cluster.local."] in
  ∃ t, trust_reach resolve [lit "traefik.kube-system"] t ∧ size (seen t) = 1%nat ∧
       ∃ at_, minute - 5 * minute < at_ ∧ true = askTheCluster (resolve at_ (V4 1)) t.
Proof.
  intros resolve.
  assert (is_ok (ParseTrustedProxies [lit "traefik.kube-system"]) = true) as Hok by (by vm_compute).
  destruct (ParseTrustedProxies [lit "traefik.kube-system"]) as [[t|]|] eqn:E; [|by revert E; vm_compute|discriminate Hok].
  exists (remember (V4 1) (askTheCluster (resolve 1 (V4 1)) t) 0 t).
  assert (trust_reach resolve [lit "traefik.kube-system"] (remember (V4 1) (askTheCluster (resolve 1 (V4 1)) t) 0 t)) as Hr.
  { apply trust_remember; [by apply trust_start|lia]. }
  assert (t = mk_TrustedProxies [mk_proxyService (lit "traefik") (lit "kube-system")] []
                defaultTrustPositiveTTL defaultTrustNegativeTTL ∅) as Ht.
  { revert E. vm_compute. by intros [= <-]. }
  split; [done|]. split; [subst t; by vm_compute|].
  destruct (proxy_verdict_fresh resolve [lit "traefik.kube-system"] _ minute (V4 1) Hr) as (_ & _ & Hf).
  specialize (Hf ltac:(subst t; by vm_compute)). subst t. exact Hf.
Defined.
