(* ===== verification/ApiWorld.v ===== *)
(** * What the API's handlers call

    The tables of users, security groups, console sign-ins and remote sessions,
    with every statement on them ([auth/postgres_user.go],
    [auth/postgres_securitygroup.go], [auth/console_session.go],
    [session/postgres.go]), the login limiter ([api/ratelimit.go]), the connected
    agents, the relay and the audit log as the handlers see them.

    A call is one transaction or one critical section.  Handlers are programs
    ([Effect]) over these calls; requests are served concurrently, so their calls
    interleave, and any database call may fail. *)
From S2P Require Import Prelude GoTime GoStrings Settings Dbtx Effect.

(** ** Rows *)

Record User := mk_user {
  u_ID : uuid; u_TenantID : uuid; u_Email : bytes; u_PasswordHash : bytes;
  u_DisplayName : bytes; u_IsAdmin : bool; u_CreatedAt : time; u_UpdatedAt : time;
}.

Record SecurityGroup := mk_group {
  g_ID : uuid; g_TenantID : uuid; g_Name : bytes; g_Description : bytes; g_IsSystem : bool;
}.

Record ConsoleSession := mk_console {
  c_IDHash : bytes; c_UserID : uuid; c_TenantID : uuid; c_Email : bytes; c_IsAdmin : bool;
  c_CSRFToken : bytes; c_StartedAt : time; c_LastSeenAt : time;
}.

Record session_row := mk_session {
  s_Token : bytes; s_TenantID : uuid; s_DeviceID : uuid; s_UserID : uuid;
  s_CreatedAt : time; s_link_outcomes : Z;
}.

(** A session as it is read, with its holder's name. *)
Record Session := mk_Session {
  Token : bytes; DeviceID : uuid; UserID : uuid; CreatedAt : time; HolderName : bytes;
}.

(** [max_uses] and [use_count] are 32-bit columns; no maximum is 0. *)
Record EnrollmentToken := mk_enroll {
  e_ID : uuid; e_TenantID : uuid; e_Token : bytes; e_Label : bytes; e_CreatedBy : uuid;
  e_MaxUses : Z; e_UseCount : Z; e_ExpiresAt : time; e_CreatedAt : time;
}.

Record emailEntry := mk_emailEntry { failures : Z; windowStart : time }.

Definition AdminGroupID : uuid := replicate 15 x00 ++ [x01].
#[global] Arguments AdminGroupID : simpl never.
#[global] Arguments DefaultTenantID : simpl never.

Inductive api_err :=
  | ErrUserNotFound | ErrSecurityGroupNotFound | ErrSystemGroup | ErrLastAdmin | ErrMemberNotFound
  | ErrConsoleSessionNotFound | ErrSessionNotFound | ErrDeviceHeld | ErrDeviceNotFound
  | ErrNotFound | ErrInvalidRequest | ErrTenantRequired | ErrForbidden | ErrRand | ErrHash
  (** Any other error of the database. *)
  | ErrDb.

#[global] Instance api_err_eq_dec : EqDecision api_err.
Proof. solve_decision. Defined.

Record audit_event := mk_audit { a_UserID : uuid; a_Action : bytes; a_Target : bytes }.

Record world := mk_world {
  w_now : time;
  w_users : gmap uuid User;
  w_groups : gmap uuid SecurityGroup;
  (** [security_group_members], by its primary key, with the tenant of the row. *)
  w_members : gmap (uuid * uuid) uuid;
  w_console : gmap bytes ConsoleSession;
  w_sessions : gmap bytes session_row;
  w_enroll : gmap uuid EnrollmentToken;
  (** The devices and the tenant of each. *)
  w_devices : gmap uuid uuid;
  w_limiter : gmap bytes emailEntry;
  (** The devices with a connected agent. *)
  w_agents : gset uuid;
  (** The certificates enrolment issued: the token's id and the device number. *)
  w_issued : list (uuid * uuid);
  (** The relay sessions ended, with the reason given. *)
  w_ended : list (bytes * bytes);
  w_audit : list audit_event;
}.

Definition set_now w x :=
  mk_world x (w_users w) (w_groups w) (w_members w) (w_console w) (w_sessions w) (w_enroll w)
    (w_devices w) (w_limiter w) (w_agents w) (w_issued w) (w_ended w) (w_audit w).
Definition set_users w x :=
  mk_world (w_now w) x (w_groups w) (w_members w) (w_console w) (w_sessions w) (w_enroll w)
    (w_devices w) (w_limiter w) (w_agents w) (w_issued w) (w_ended w) (w_audit w).
Definition set_groups w x :=
  mk_world (w_now w) (w_users w) x (w_members w) (w_console w) (w_sessions w) (w_enroll w)
    (w_devices w) (w_limiter w) (w_agents w) (w_issued w) (w_ended w) (w_audit w).
Definition set_members w x :=
  mk_world (w_now w) (w_users w) (w_groups w) x (w_console w) (w_sessions w) (w_enroll w)
    (w_devices w) (w_limiter w) (w_agents w) (w_issued w) (w_ended w) (w_audit w).
Definition set_console w x :=
  mk_world (w_now w) (w_users w) (w_groups w) (w_members w) x (w_sessions w) (w_enroll w)
    (w_devices w) (w_limiter w) (w_agents w) (w_issued w) (w_ended w) (w_audit w).
Definition set_sessions w x :=
  mk_world (w_now w) (w_users w) (w_groups w) (w_members w) (w_console w) x (w_enroll w)
    (w_devices w) (w_limiter w) (w_agents w) (w_issued w) (w_ended w) (w_audit w).
Definition set_enroll w x :=
  mk_world (w_now w) (w_users w) (w_groups w) (w_members w) (w_console w) (w_sessions w) x
    (w_devices w) (w_limiter w) (w_agents w) (w_issued w) (w_ended w) (w_audit w).
Definition set_limiter w x :=
  mk_world (w_now w) (w_users w) (w_groups w) (w_members w) (w_console w) (w_sessions w) (w_enroll w)
    (w_devices w) x (w_agents w) (w_issued w) (w_ended w) (w_audit w).
Definition set_issued w x :=
  mk_world (w_now w) (w_users w) (w_groups w) (w_members w) (w_console w) (w_sessions w) (w_enroll w)
    (w_devices w) (w_limiter w) (w_agents w) x (w_ended w) (w_audit w).
Definition set_ended w x :=
  mk_world (w_now w) (w_users w) (w_groups w) (w_members w) (w_console w) (w_sessions w) (w_enroll w)
    (w_devices w) (w_limiter w) (w_agents w) (w_issued w) x (w_audit w).
Definition set_audit w x :=
  mk_world (w_now w) (w_users w) (w_groups w) (w_members w) (w_console w) (w_sessions w) (w_enroll w)
    (w_devices w) (w_limiter w) (w_agents w) (w_issued w) (w_ended w) x.

(** ** Users *)

(** [None] is a context without a tenant: [dbtx.Scoped] refuses it. *)
Definition scoped {A} (ctx : option Tenant) (f : Tenant → result api_err A) : result api_err A :=
  match TenantFromContext ctx with Some t => f t | None => Err ErrTenantRequired end.

(** The statement of [PostgresUsers.Upsert]: the id is the key, the email is
    unique in the table, and the row policy hides another tenant's row from an
    update. *)
Definition upsert_user (t : Tenant) (u : User) (w : world) : result api_err unit * world :=
  if bool_decide (map_Exists (λ id row, id ≠ u_ID u ∧ u_Email row = u_Email u) (w_users w)) then (Err ErrDb, w)
  else
    let put created := set_users w (<[u_ID u := mk_user (u_ID u) (TenantID t) (u_Email u) (u_PasswordHash u)
                                     (u_DisplayName u) (u_IsAdmin u) created (w_now w)]> (w_users w)) in
    match w_users w !! u_ID u with
    | None => (Ok tt, put (w_now w))
    | Some row => if visible t (u_TenantID row) then (Ok tt, put (u_CreatedAt row)) else (Err ErrDb, w)
    end.

Definition get_user (t : Tenant) (id : uuid) (w : world) : result api_err User :=
  match w_users w !! id with
  | Some row => if bool_decide (u_TenantID row = TenantID t) then Ok row else Err ErrUserNotFound
  | None => Err ErrUserNotFound
  end.

(** The email is unique, so at most one row answers. *)
Definition get_by_email (t : Tenant) (email : bytes) (w : world) : result api_err User :=
  match (map_to_list (filter (λ kv, visible t (u_TenantID kv.2) = true ∧ u_Email kv.2 = email) (w_users w))).*2 with
  | row :: _ => Ok row
  | [] => Err ErrUserNotFound
  end.

Definition users_of (tenant : uuid) (w : world) : gmap uuid User :=
  filter (λ kv, u_TenantID kv.2 = tenant) (w_users w).

(** [DELETE FROM users]: memberships and sign-ins go with the row; a user that an
    open session or an enrolment token names cannot be deleted. *)
Definition delete_user (t : Tenant) (id : uuid) (w : world) : result api_err unit * world :=
  match w_users w !! id with
  | Some row =>
      if negb (bool_decide (u_TenantID row = TenantID t)) then (Err ErrUserNotFound, w)
      else if bool_decide (map_Exists (λ _ s, s_UserID s = id) (w_sessions w)) ||
              bool_decide (map_Exists (λ _ e, e_CreatedBy e = id) (w_enroll w)) then (Err ErrDb, w)
      else (Ok tt, set_console (set_members (set_users w (delete id (w_users w)))
                     (filter (λ kv, kv.1.2 ≠ id) (w_members w)))
                     (filter (λ kv, c_UserID kv.2 ≠ id) (w_console w)))
  | None => (Err ErrUserNotFound, w)
  end.

(** ** Security groups *)

Definition group_in (t : Tenant) (id : uuid) (w : world) : result api_err SecurityGroup :=
  match w_groups w !! id with
  | Some g => if bool_decide (g_TenantID g = TenantID t) then Ok g else Err ErrSecurityGroupNotFound
  | None => Err ErrSecurityGroupNotFound
  end.

(** Group ids and names are unique in the table. *)
Definition create_group (t : Tenant) (g : SecurityGroup) (w : world) : result api_err unit * world :=
  if bool_decide (is_Some (w_groups w !! g_ID g)) ||
     bool_decide (map_Exists (λ _ row, g_Name row = g_Name g) (w_groups w)) then (Err ErrDb, w)
  else (Ok tt, set_groups w (<[g_ID g := mk_group (g_ID g) (TenantID t) (g_Name g) (g_Description g) (g_IsSystem g)]> (w_groups w))).

(** Memberships go with their group. *)
Definition delete_group (t : Tenant) (id : uuid) (w : world) : result api_err unit * world :=
  match group_in t id w with
  | Ok _ => (Ok tt, set_members (set_groups w (delete id (w_groups w))) (filter (λ kv, kv.1.1 ≠ id) (w_members w)))
  | Err e => (Err e, w)
  end.

(** The insert of [AddMember]: both references must exist; a membership already
    there is left alone. *)
Definition insert_member (t : Tenant) (group user : uuid) (w : world) : result api_err unit * world :=
  match w_members w !! (group, user) with
  | Some _ => (Ok tt, w)
  | None =>
      if bool_decide (is_Some (w_groups w !! group)) && bool_decide (is_Some (w_users w !! user))
      then (Ok tt, set_members w (<[(group, user) := TenantID t]> (w_members w))) else (Err ErrDb, w)
  end.

Definition is_member (tenant group user : uuid) (w : world) : bool :=
  bool_decide (w_members w !! (group, user) = Some tenant).

Definition delete_member (t : Tenant) (group user : uuid) (w : world) : result api_err unit * world :=
  if is_member (TenantID t) group user w then (Ok tt, set_members w (delete (group, user) (w_members w)))
  else (Err ErrMemberNotFound, w).

Definition members_of (tenant group : uuid) (w : world) : gmap (uuid * uuid) uuid :=
  filter (λ kv, kv.1.1 = group ∧ kv.2 = tenant) (w_members w).

Definition set_is_admin (u : User) (b : bool) (now : time) : User :=
  mk_user (u_ID u) (u_TenantID u) (u_Email u) (u_PasswordHash u) (u_DisplayName u) b (u_CreatedAt u) now.

Definition sync_is_admin (t : Tenant) (user : uuid) (w : world) : world :=
  match w_users w !! user with
  | Some row =>
      if bool_decide (u_TenantID row = TenantID t)
      then set_users w (<[user := set_is_admin row (is_member (TenantID t) AdminGroupID user w) (w_now w)]> (w_users w))
      else w
  | None => w
  end.

(** ** The login limiter *)

Definition loginMaxFailures : Z := 10.
Definition loginFailureWindow : duration := 15 * minute.

(** [key] is the normalized email. *)
Definition limiter_allowed (key : bytes) (w : world) : bool * world :=
  match w_limiter w !! key with
  | None => (true, w)
  | Some e =>
      if bool_decide (loginFailureWindow < time_sub (w_now w) (windowStart e))
      then (true, set_limiter w (delete key (w_limiter w)))
      else (bool_decide (failures e < loginMaxFailures), w)
  end.

Definition limiter_failure (key : bytes) (w : world) : world :=
  let fresh := mk_emailEntry 1 (w_now w) in
  let e := match w_limiter w !! key with
           | None => fresh
           | Some e => if bool_decide (loginFailureWindow < time_sub (w_now w) (windowStart e)) then fresh
                       else mk_emailEntry (failures e + 1) (windowStart e)
           end in
  set_limiter w (<[key := e]> (w_limiter w)).

Definition limiter_reset (key : bytes) (w : world) : world := set_limiter w (delete key (w_limiter w)).

(** One tick of the limiter's [cleanup]. *)
Definition limiter_cleanup (w : world) : world :=
  set_limiter w (filter (λ kv, ¬ loginFailureWindow < time_sub (w_now w) (windowStart kv.2)) (w_limiter w)).

(** ** Console sign-ins *)

Definition create_console (s : ConsoleSession) (w : world) : result api_err unit * world :=
  if bool_decide (is_Some (w_console w !! c_IDHash s)) || negb (bool_decide (is_Some (w_users w !! c_UserID s)))
     || negb (bool_decide (length (c_IDHash s) = 32%nat)) then (Err ErrDb, w)
  else (Ok tt, set_console w (<[c_IDHash s := s]> (w_console w))).

Definition get_console (idHash : bytes) (w : world) : result api_err ConsoleSession :=
  match w_console w !! idHash with Some s => Ok s | None => Err ErrConsoleSessionNotFound end.

Definition with_last_seen (s : ConsoleSession) (at_ : time) : ConsoleSession :=
  mk_console (c_IDHash s) (c_UserID s) (c_TenantID s) (c_Email s) (c_IsAdmin s) (c_CSRFToken s) (c_StartedAt s) at_.

Definition touch_console (idHash : bytes) (at_ : time) (w : world) : world :=
  set_console w (alter (λ s, with_last_seen s at_) idHash (w_console w)).

Definition delete_console (idHash : bytes) (w : world) : world := set_console w (delete idHash (w_console w)).

Definition expire_console (idleBefore startedBefore : time) (w : world) : world :=
  set_console w (filter (λ kv, ¬ (c_LastSeenAt kv.2 < idleBefore ∨ c_StartedAt kv.2 < startedBefore)) (w_console w)).

(** ** Remote sessions *)

Definition holder_name (user : uuid) (w : world) : bytes :=
  match w_users w !! user with
  | Some u => if bool_decide (u_DisplayName u = []) then u_Email u else u_DisplayName u
  | None => []
  end.

Definition read_session (w : world) (r : session_row) : Session :=
  mk_Session (s_Token r) (s_DeviceID r) (s_UserID r) (s_CreatedAt r) (holder_name (s_UserID r) w).

(** [Create]: the caller's own session on the device goes, and the insert fails
    when the device or the token still has one; then nothing happened. *)
Definition create_session (t : Tenant) (token : bytes) (device user : uuid) (w : world) : result api_err bytes * world :=
  let mine r := s_TenantID r = TenantID t ∧ s_DeviceID r = device ∧ s_UserID r = user in
  let replaced := match (map_to_list (filter (λ kv, mine kv.2) (w_sessions w))).*1 with tok :: _ => tok | [] => [] end in
  let left := filter (λ kv, ¬ mine kv.2) (w_sessions w) in
  if negb (bool_decide (is_Some (w_devices w !! device)) && bool_decide (is_Some (w_users w !! user))) then (Err ErrDb, w)
  else if bool_decide (is_Some (left !! token)) || bool_decide (map_Exists (λ _ r, s_DeviceID r = device) left)
  then (Err ErrDeviceHeld, w)
  else (Ok replaced, set_sessions w (<[token := mk_session token (TenantID t) device user (w_now w) 0]> left)).

Definition get_session (t : Tenant) (token : bytes) (w : world) : result api_err Session :=
  match w_sessions w !! token with
  | Some r => if bool_decide (s_TenantID r = TenantID t) then Ok (read_session w r) else Err ErrSessionNotFound
  | None => Err ErrSessionNotFound
  end.

Definition session_for_device (t : Tenant) (device : uuid) (w : world) : result api_err Session :=
  match (map_to_list (filter (λ kv, s_TenantID kv.2 = TenantID t ∧ s_DeviceID kv.2 = device) (w_sessions w))).*2 with
  | r :: _ => Ok (read_session w r)
  | [] => Err ErrSessionNotFound
  end.

Definition with_outcomes (r : session_row) (marks : Z) : session_row :=
  mk_session (s_Token r) (s_TenantID r) (s_DeviceID r) (s_UserID r) (s_CreatedAt r) marks.

Definition mark_outcome (t : Tenant) (token : bytes) (outcome : Z) (w : world) : result api_err bool * world :=
  match w_sessions w !! token with
  | Some r =>
      if negb (bool_decide (s_TenantID r = TenantID t)) then (Err ErrSessionNotFound, w)
      else let bit := Z.shiftl 1 outcome in
           if bool_decide (Z.land (s_link_outcomes r) bit = 0)
           then (Ok true, set_sessions w (<[token := with_outcomes r (Z.lor (s_link_outcomes r) bit)]> (w_sessions w)))
           else (Ok false, w)
  | None => (Err ErrSessionNotFound, w)
  end.

Definition delete_session (t : Tenant) (token : bytes) (w : world) : result api_err unit * world :=
  match w_sessions w !! token with
  | Some r => if bool_decide (s_TenantID r = TenantID t) then (Ok tt, set_sessions w (delete token (w_sessions w)))
              else (Err ErrSessionNotFound, w)
  | None => (Err ErrSessionNotFound, w)
  end.

(** [DeleteRelaySession]: whatever its tenant. *)
Definition delete_relay_session (token : bytes) (w : world) : result api_err unit * world :=
  match w_sessions w !! token with
  | Some _ => (Ok tt, set_sessions w (delete token (w_sessions w)))
  | None => (Err ErrSessionNotFound, w)
  end.

(** [DeleteStale] *)
Definition delete_stale (cutoff : time) (keep : list bytes) (w : world) : Z * world :=
  let stale r := s_CreatedAt r < cutoff ∧ (s_Token r ∉ keep) in
  (Z.of_nat (size (filter (λ kv, stale kv.2) (w_sessions w))),
   set_sessions w (filter (λ kv, ¬ stale kv.2) (w_sessions w))).

(** ** Enrolment tokens *)

Definition create_enroll (t : Tenant) (e : EnrollmentToken) (w : world) : result api_err unit * world :=
  if bool_decide (is_Some (w_enroll w !! e_ID e)) || bool_decide (map_Exists (λ _ row, e_Token row = e_Token e) (w_enroll w))
     || negb (bool_decide (is_Some (w_users w !! e_CreatedBy e)))
     || negb (bool_decide (- 2 ^ 31 ≤ e_MaxUses e < 2 ^ 31)) then (Err ErrDb, w)
  else (Ok tt, set_enroll w (<[e_ID e := mk_enroll (e_ID e) (TenantID t) (e_Token e) (e_Label e) (e_CreatedBy e)
                               (e_MaxUses e) (e_UseCount e) (e_ExpiresAt e) (w_now w)]> (w_enroll w))).

(** A token is unique, so at most one row answers. *)
Definition get_by_token (t : Tenant) (token : bytes) (w : world) : result api_err EnrollmentToken :=
  match (map_to_list (filter (λ kv, visible t (e_TenantID kv.2) = true ∧ e_Token kv.2 = token) (w_enroll w))).*2 with
  | row :: _ => Ok row
  | [] => Err ErrNotFound
  end.

Definition delete_enroll (t : Tenant) (id : uuid) (w : world) : result api_err unit * world :=
  match w_enroll w !! id with
  | Some e => if bool_decide (e_TenantID e = TenantID t) then (Ok tt, set_enroll w (delete id (w_enroll w))) else (Err ErrNotFound, w)
  | None => (Err ErrNotFound, w)
  end.

Definition bump_use (e : EnrollmentToken) : EnrollmentToken :=
  mk_enroll (e_ID e) (e_TenantID e) (e_Token e) (e_Label e) (e_CreatedBy e) (e_MaxUses e) (e_UseCount e + 1)
    (e_ExpiresAt e) (e_CreatedAt e).

(** The count is a 32-bit column: the update that would leave its range fails. *)
Definition increment_use (t : Tenant) (id : uuid) (w : world) : result api_err unit * world :=
  match w_enroll w !! id with
  | Some e =>
      if negb (visible t (e_TenantID e)) then (Err ErrNotFound, w)
      else if bool_decide (2 ^ 31 ≤ e_UseCount e + 1) then (Err ErrDb, w)
      else (Ok tt, set_enroll w (<[id := bump_use e]> (w_enroll w)))
  | None => (Err ErrNotFound, w)
  end.

(** ** Calls *)

Inductive api_call : Type → Type :=
  | Now : api_call time
  | UsersUpsert (ctx : option Tenant) (u : User) : api_call (result api_err unit)
  | UsersGet (ctx : option Tenant) (id : uuid) : api_call (result api_err User)
  | UsersGetByEmail (ctx : option Tenant) (email : bytes) : api_call (result api_err User)
  | UsersList (ctx : option Tenant) : api_call (result api_err (list User))
  | UsersDelete (ctx : option Tenant) (id : uuid) : api_call (result api_err unit)
  | GroupsGet (ctx : option Tenant) (id : uuid) : api_call (result api_err SecurityGroup)
  | GroupsCreate (ctx : option Tenant) (g : SecurityGroup) : api_call (result api_err unit)
  | GroupsDeleteRow (ctx : option Tenant) (id : uuid) : api_call (result api_err unit)
  | InsertMember (ctx : option Tenant) (group user : uuid) : api_call (result api_err unit)
  | DeleteMember (ctx : option Tenant) (group user : uuid) : api_call (result api_err unit)
  | CountMembers (ctx : option Tenant) (group : uuid) : api_call (result api_err Z)
  | IsUserInGroup (ctx : option Tenant) (user group : uuid) : api_call (result api_err bool)
  | SyncIsAdmin (ctx : option Tenant) (user : uuid) : api_call (result api_err unit)
  | LimiterAllowed (key : bytes) : api_call bool
  | LimiterFailure (key : bytes) : api_call unit
  | LimiterReset (key : bytes) : api_call unit
  | ConsoleCreate (s : ConsoleSession) : api_call (result api_err unit)
  | ConsoleGet (idHash : bytes) : api_call (result api_err ConsoleSession)
  | ConsoleTouch (idHash : bytes) (at_ : time) : api_call (result api_err unit)
  | ConsoleDelete (idHash : bytes) : api_call (result api_err unit)
  | ConsoleExpire (idleBefore startedBefore : time) : api_call (result api_err unit)
  | SessionsCreate (ctx : option Tenant) (token : bytes) (device user : uuid) : api_call (result api_err bytes)
  | SessionsGet (ctx : option Tenant) (token : bytes) : api_call (result api_err Session)
  | SessionsForDevice (ctx : option Tenant) (device : uuid) : api_call (result api_err Session)
  | SessionsMark (ctx : option Tenant) (token : bytes) (outcome : Z) : api_call (result api_err bool)
  | SessionsDelete (ctx : option Tenant) (token : bytes) : api_call (result api_err unit)
  | SessionsDeleteRelay (token : bytes) : api_call (result api_err unit)
  | SessionsDeleteStale (cutoff : time) (keep : list bytes) : api_call (result api_err Z)
  | DevicesGet (ctx : option Tenant) (device : uuid) : api_call (result api_err unit)
  | EnrollCreate (ctx : option Tenant) (e : EnrollmentToken) : api_call (result api_err unit)
  | EnrollGetByToken (ctx : option Tenant) (token : bytes) : api_call (result api_err EnrollmentToken)
  | EnrollDelete (ctx : option Tenant) (id : uuid) : api_call (result api_err unit)
  | EnrollIncrement (ctx : option Tenant) (id : uuid) : api_call (result api_err unit)
  (** [s.cert.Enroll] of [devicecert]: the number it chose, or its error; [token]
      is the enrolment it serves. *)
  | IssueDevice (token : uuid) (chosen : result api_err uuid) : api_call (result api_err uuid)
  | GetAgent (device : uuid) : api_call bool
  (** The message to the agent, which arrives or not. *)
  | SendSessionRequest (device : uuid) (token : bytes) (arrives : bool) : api_call (result api_err unit)
  | RelayEnd (token reason : bytes) : api_call unit
  (** The audit log is written aside; the handler does not wait for it. *)
  | Audit (user : uuid) (action target : bytes) : api_call unit.

Abbreviation api := (prog api_call).

Definition lift_state {A} (ctx : option Tenant) (f : Tenant → world → result api_err A * world) (w : world) :
    result api_err A * world :=
  match TenantFromContext ctx with Some t => f t w | None => (Err ErrTenantRequired, w) end.

(** Logins and enrolments come without a tenant: the lookup then sees them all. *)
Definition or_any_tenant (ctx : option Tenant) : option Tenant :=
  match TenantFromContext ctx with Some t => Some t | None => WithDefaultTenant true end.

Definition exec {R} (c : api_call R) (w : world) : R * world :=
  match c in api_call R return R * world with
  | Now => (w_now w, w)
  | UsersUpsert ctx u => lift_state ctx (λ t, upsert_user t u) w
  | UsersGet ctx id => (scoped ctx (λ t, get_user t id w), w)
  | UsersGetByEmail ctx email => (scoped (or_any_tenant ctx) (λ t, get_by_email t email w), w)
  | UsersList ctx => (scoped ctx (λ t, Ok (map_to_list (users_of (TenantID t) w)).*2), w)
  | UsersDelete ctx id => lift_state ctx (λ t, delete_user t id) w
  | GroupsGet ctx id => (scoped ctx (λ t, group_in t id w), w)
  | GroupsCreate ctx g => lift_state ctx (λ t, create_group t g) w
  | GroupsDeleteRow ctx id => lift_state ctx (λ t, delete_group t id) w
  | InsertMember ctx group user => lift_state ctx (λ t, insert_member t group user) w
  | DeleteMember ctx group user => lift_state ctx (λ t, delete_member t group user) w
  | CountMembers ctx group => (scoped ctx (λ t, Ok (Z.of_nat (size (members_of (TenantID t) group w)))), w)
  | IsUserInGroup ctx user group => (scoped ctx (λ t, Ok (is_member (TenantID t) group user w)), w)
  | SyncIsAdmin ctx user => lift_state ctx (λ t w, (Ok tt, sync_is_admin t user w)) w
  | LimiterAllowed key => limiter_allowed key w
  | LimiterFailure key => (tt, limiter_failure key w)
  | LimiterReset key => (tt, limiter_reset key w)
  | ConsoleCreate s => create_console s w
  | ConsoleGet idHash => (get_console idHash w, w)
  | ConsoleTouch idHash at_ => (Ok tt, touch_console idHash at_ w)
  | ConsoleDelete idHash => (Ok tt, delete_console idHash w)
  | ConsoleExpire ib sb => (Ok tt, expire_console ib sb w)
  | SessionsCreate ctx token device user => lift_state ctx (λ t, create_session t token device user) w
  | SessionsGet ctx token => (scoped ctx (λ t, get_session t token w), w)
  | SessionsForDevice ctx device => (scoped ctx (λ t, session_for_device t device w), w)
  | SessionsMark ctx token outcome => lift_state ctx (λ t, mark_outcome t token outcome) w
  | SessionsDelete ctx token => lift_state ctx (λ t, delete_session t token) w
  | SessionsDeleteRelay token => delete_relay_session token w
  | SessionsDeleteStale cutoff keep => let '(n, w) := delete_stale cutoff keep w in (Ok n, w)
  | DevicesGet ctx device =>
      (scoped ctx (λ t, if bool_decide (w_devices w !! device = Some (TenantID t)) then Ok tt else Err ErrDeviceNotFound), w)
  | EnrollCreate ctx e => lift_state ctx (λ t, create_enroll t e) w
  | EnrollGetByToken ctx token => (scoped (or_any_tenant ctx) (λ t, get_by_token t token w), w)
  | EnrollDelete ctx id => lift_state ctx (λ t, delete_enroll t id) w
  | EnrollIncrement ctx id => lift_state (or_any_tenant ctx) (λ t, increment_use t id) w
  | IssueDevice token chosen =>
      (chosen, match chosen with Ok device => set_issued w (w_issued w ++ [(token, device)]) | Err _ => w end)
  | GetAgent device => (bool_decide (device ∈ w_agents w), w)
  | SendSessionRequest device token arrives => (if arrives then Ok tt else Err ErrDb, w)
  | RelayEnd token reason => (tt, set_ended w (w_ended w ++ [(token, reason)]))
  | Audit user action target => (tt, set_audit w (w_audit w ++ [mk_audit user action target]))
  end.

(** What a call answers when the database fails it; the calls that do not reach
    the database do not fail this way. *)
Definition fault {R} (c : api_call R) : option R :=
  match c in api_call R return option R with
  | Now | LimiterAllowed _ | LimiterFailure _ | LimiterReset _ | GetAgent _ | RelayEnd _ _ | Audit _ _ _ => None
  | UsersGet _ _ | UsersGetByEmail _ _ => Some (Err ErrDb)
  | UsersList _ => Some (Err ErrDb)
  | UsersUpsert _ _ | UsersDelete _ _ | GroupsCreate _ _ | GroupsDeleteRow _ _ | InsertMember _ _ _ | DeleteMember _ _ _
  | SyncIsAdmin _ _ | ConsoleCreate _ | ConsoleTouch _ _ | ConsoleDelete _ | ConsoleExpire _ _ | SessionsDelete _ _
  | SessionsDeleteRelay _ | DevicesGet _ _ | EnrollCreate _ _ | EnrollDelete _ _ | EnrollIncrement _ _
  | SendSessionRequest _ _ _ => Some (Err ErrDb)
  | GroupsGet _ _ => Some (Err ErrDb)
  | CountMembers _ _ | SessionsDeleteStale _ _ => Some (Err ErrDb)
  | IsUserInGroup _ _ _ | SessionsMark _ _ _ => Some (Err ErrDb)
  | ConsoleGet _ => Some (Err ErrDb)
  | SessionsCreate _ _ _ _ => Some (Err ErrDb)
  | SessionsGet _ _ | SessionsForDevice _ _ => Some (Err ErrDb)
  | EnrollGetByToken _ _ => Some (Err ErrDb)
  | IssueDevice _ _ => Some (Err ErrDb)
  end.

(** ** Running handlers *)

(** One handler alone, with the database answering; [None] is a panic. *)
Fixpoint run {A} (p : api A) (w : world) : option A * world :=
  match p with
  | Ret a => (Some a, w)
  | Do c k => let '(r, w) := exec c w in run (k r) w
  | Panic => (None, w)
  end.

Lemma run_bind {A B} (p : api A) (k : A → api B) w :
  run (p ≫= k) w = match run p w with (Some a, w') => run (k a) w' | (None, w') => (None, w') end.
Proof.
  revert w. induction p as [a|R c k' IH|]; intros w; cbn; [done| |done]. destruct (exec c w) as [r w']. apply IH.
Qed.

(** A pool of workers: each serves its program a call at a time, a database call
    may fail, and time passes. *)
Inductive pool_step {A} : list (api A) * world → list (api A) * world → Prop :=
  | pool_call pool i R (c : api_call R) k w :
      pool !! i = Some (Do c k) → pool_step (pool, w) (<[i := k (exec c w).1]> pool, (exec c w).2)
  | pool_fault pool i R (c : api_call R) k r w :
      pool !! i = Some (Do c k) → fault c = Some r → pool_step (pool, w) (<[i := k r]> pool, w)
  | pool_tick pool now w : w_now w ≤ now → pool_step (pool, w) (pool, set_now w now)
  | pool_cleanup pool w : pool_step (pool, w) (pool, limiter_cleanup w).

(** The same steps chosen by a schedule of worker numbers, to evaluate a run. *)
Fixpoint run_schedule {A} (sched : list nat) (pool : list (api A)) (w : world) : list (api A) * world :=
  match sched with
  | [] => (pool, w)
  | i :: sched =>
      match pool !! i with
      | Some (Do c k) => let '(r, w) := exec c w in run_schedule sched (<[i := k r]> pool) w
      | _ => run_schedule sched pool w
      end
  end.

Lemma run_schedule_steps {A} sched (pool : list (api A)) w :
  rtc pool_step (pool, w) (run_schedule sched pool w).
Proof.
  revert pool w. induction sched as [|i sched IH]; intros pool w; cbn; [done|].
  destruct (pool !! i) as [[a|R c k|]|] eqn:E; try apply IH.
  pose proof (pool_call pool i R c k w E) as Hs. destruct (exec c w) as [r w']. cbn in Hs.
  eapply rtc_l; [exact Hs|apply IH].
Qed.

(** The answer of a worker that has finished. *)
Definition answer {A} (pool : list (api A)) (i : nat) : option A :=
  match pool !! i with Some (Ret a) => Some a | _ => None end.

Definition and_ok {A B} (p : api (result api_err A)) (k : A → api (result api_err B)) : api (result api_err B) :=
  r ← p; match r with Ok a => k a | Err e => Ret (Err e) end.
