(* ===== verification/Budget.v ===== *)
(** * Checked counters under concurrent requests

    A handler that reads a counter, goes on only when it is under its maximum,
    and bumps it later: between the two other requests do the same.  With at
    most [K] requests in flight the counter passes its maximum by less than
    [K].  The login limiter and the enrolment tokens are such counters. *)
From S2P Require Import Prelude GoTime Settings Dbtx Effect ApiWorld.

Definition sumZ (l : list Z) : Z := foldr Z.add 0 l.

Lemma sumZ_insert l i x y : l !! i = Some x → sumZ (<[i := y]> l) = sumZ l - x + y.
Proof.
  revert i. induction l as [|z l IH]; intros [|i]; [done|done| |].
  - intros [= ->]. change (<[0%nat := y]> (x :: l)) with (y :: l). cbn. lia.
  - intros H. specialize (IH i H). change (<[S i := y]> (z :: l)) with (z :: <[i := y]> l). unfold sumZ in *.
    cbn [foldr]. lia.
Qed.

Section tokened.
Context (permitted : ∀ R, api_call R → Prop).
Context (granted : ∀ R, api_call R → R → bool).
Context (uses : ∀ R, api_call R → bool).

(** A program that bumps only after a grant, once for each: [b] when it holds a
    grant it has not used. *)
Fixpoint tokened {A} (b : bool) (p : api A) : Prop :=
  match p with
  | Ret _ | Panic => True
  | @Do _ _ R c k =>
      permitted R c ∧ (uses R c = true → b = true) ∧
      ∀ r, tokened (if uses R c then false else b || granted R c r) (k r)
  end.

Lemma tokened_more {A} (p : api A) : tokened false p → tokened true p.
Proof.
  assert (∀ b, tokened b p → tokened true p) as H; [|apply H].
  induction p as [a|R c k IH|]; intros b; cbn; [done| |done]. intros (Hp & _ & Hk). split; [done|]. split; [done|].
  intros r. specialize (Hk r). destruct (uses R c); [done|]. cbn. by eapply IH.
Qed.

Lemma tokened_bind {A B} b (p : api A) (k : A → api B) :
  tokened b p → (∀ a, tokened false (k a)) → tokened b (p ≫= k).
Proof.
  intros Hp Hk. revert b Hp. induction p as [a|R c k' IH|]; intros b; cbn.
  - intros _. destruct b; [apply tokened_more|]; apply Hk.
  - intros (Hc & Hu & Hr). split; [exact Hc|]. split; [exact Hu|]. intros r. apply IH, Hr.
  - done.
Qed.

End tokened.

Section budget.
Context (permitted : ∀ R, api_call R → Prop).
Context (granted : ∀ R, api_call R → R → bool).
Context (uses : ∀ R, api_call R → bool).
Context (I : world → Prop) (count : world → Z) (max : Z).

Hypothesis count_call : ∀ R (c : api_call R) w,
  permitted R c → I w → I (exec c w).2 ∧
  count (exec c w).2 ≤ count w + (if uses R c then 1 else 0) ∧
  (granted R c (exec c w).1 = true → count (exec c w).2 < max).
Hypothesis fault_refuses : ∀ R (c : api_call R) r, fault c = Some r → granted R c r = false.
Hypothesis count_tick : ∀ w now, w_now w ≤ now → I w → I (set_now w now) ∧ count (set_now w now) = count w.
Hypothesis count_cleanup : ∀ w, I w → I (limiter_cleanup w) ∧ count (limiter_cleanup w) ≤ count w.

#[local] Abbreviation tokened := (tokened permitted granted uses).

Definition held (bs : list bool) : Z := Z.of_nat (length (List.filter id bs)).

Lemma held_le bs : held bs ≤ Z.of_nat (length bs).
Proof. unfold held. pose proof (List.filter_length_le id bs). lia. Qed.

Lemma held_insert bs i b b' : bs !! i = Some b → held (<[i := b']> bs) = held bs - Z.b2z b + Z.b2z b'.
Proof.
  unfold held. revert i. induction bs as [|x bs IH]; intros [|i]; [done|done| |].
  - intros [= ->]. change (<[0%nat := b']> (b :: bs)) with (b' :: bs).
    destruct b, b'; cbn [List.filter id length Z.b2z]; lia.
  - intros H. specialize (IH i H). change (<[S i := b']> (x :: bs)) with (x :: <[i := b']> bs).
    destruct x; cbn [List.filter id length]; lia.
Qed.

Definition budget_inv {A} (K : nat) (st : list (api A) * world) : Prop :=
  length st.1 = K ∧ I st.2 ∧
  ∃ bs, Forall2 tokened bs st.1 ∧ count st.2 + held bs ≤ max - 1 + Z.of_nat K.

Lemma budget_step {A} K (st st' : list (api A) * world) :
  budget_inv K st → pool_step st st' → budget_inv K st'.
Proof.
  intros (HK & HI & bs & Hbs & Hc) Hstep.
  inversion Hstep as [pool i R c k w Hi|pool i R c k r w Hi Hf|pool now w Hn|pool w]; subst; unfold budget_inv; cbn [fst snd] in *.
  - destruct (Forall2_lookup_r _ _ _ _ _ Hbs Hi) as (b & Hb & (Hp & Hu & Hk)).
    destruct (count_call R c w Hp HI) as (HI' & Hle & Hgr). specialize (Hk (exec c w).1).
    split; [by rewrite length_insert|]. split; [done|]. eexists (<[i := _]> bs). split; [by apply Forall2_insert|].
    rewrite (held_insert _ _ _ _ Hb). pose proof (held_le (<[i := true]> bs)) as Hmax.
    rewrite (held_insert _ _ _ _ Hb), length_insert, (Forall2_length _ _ _ Hbs) in Hmax.
    destruct (uses R c), b, (granted R c (exec c w).1) eqn:Eg; cbn in *; try lia; naive_solver lia.
  - destruct (Forall2_lookup_r _ _ _ _ _ Hbs Hi) as (b & Hb & (Hp & Hu & Hk)). specialize (Hk r).
    rewrite (fault_refuses _ _ _ Hf), orb_false_r in Hk.
    split; [by rewrite length_insert|]. split; [done|]. eexists (<[i := _]> bs). split; [by apply Forall2_insert|].
    rewrite (held_insert _ _ _ _ Hb). destruct (uses R c), b; cbn in *; lia.
  - destruct (count_tick w now Hn HI) as [HI' Hc']. split; [done|]. split; [done|]. exists bs. split; [done|]. lia.
  - destruct (count_cleanup w HI) as [HI' Hc']. split; [done|]. split; [done|]. exists bs. split; [done|]. lia.
Qed.

(** However the requests of [K] workers interleave, the counter stays under its
    maximum plus [K]. *)
Lemma budget_holds {A} (pool : list (api A)) w st :
  Forall (tokened false) pool → I w → count w ≤ max - 1 + Z.of_nat (length pool) →
  rtc pool_step (pool, w) st → count st.2 ≤ max - 1 + Z.of_nat (length pool).
Proof.
  intros Hp HI Hc Hsteps.
  assert (budget_inv (length pool) (pool, w)) as Hinv.
  { split; [done|]. split; [done|]. exists (replicate (length pool) false). cbn. split.
    - apply Forall2_replicate_l; [|done]. done.
    - assert (held (replicate (length pool) false) = 0) as ->; [|lia]. unfold held.
      clear. induction (length pool); cbn; [done|]. by cbn in *. }
  assert (budget_inv (length pool) st) as (_ & _ & bs & _ & Hle).
  { revert Hinv. induction Hsteps as [|x y z Hxy _ IH]; [done|]. intros Hx. apply IH. by eapply budget_step. }
  assert (0 ≤ held bs) by (unfold held; lia). lia.
Qed.
End budget.
