(* ===== verification/Accounts.v ===== *)
(** * Accounts, administrators and logins

    [src/server/internal/api]: registration and login ([handlers_auth.go]), users
    ([handlers_users.go]), security groups and their members
    ([handlers_security_groups.go], [handlers_security_group_members.go]), the
    checks on text ([validate.go]), over the statements of [auth] ([ApiWorld]).
    Handlers are programs over those calls.  Password hashing, the parser of
    mail addresses and Unicode lower-casing are parameters; a signed token is the
    claims it carries. *)
From stdpp Require Import pretty.
From S2P Require Import Prelude GoTime GoStrings Settings Dbtx Effect ApiWorld Budget.

(** ** Claims and contexts *)

Record Claims := mk_claims { cl_UserID : uuid; cl_TenantID : uuid; cl_Email : bytes; cl_IsAdmin : bool }.

#[global] Instance Claims_eq_dec : EqDecision Claims.
Proof. solve_decision. Defined.

(** What a request's context carries: the tenant and the claims. *)
Record Ctx := mk_ctx { cx_tenant : option Tenant; cx_claims : option Claims }.

Definition no_ctx : Ctx := mk_ctx None None.

Definition ContextUserID (ctx : Ctx) : uuid := match cx_claims ctx with Some c => cl_UserID c | None => Nil end.
Definition isAdmin (ctx : Ctx) : bool := match cx_claims ctx with Some c => cl_IsAdmin c | None => false end.

(** A handler answers a status and a message, or what it was asked for; an error
    is the status 500. *)
Inductive reply (A : Type) :=
  | Answer (status : Z) (msg : bytes)
  | Success (a : A).
Arguments Answer {A} status msg.
Arguments Success {A} a.

Abbreviation handler A := (api (result api_err (reply A))).

Definition answer_ {A} (status : Z) (msg : bytes) : handler A := Ret (Ok (Answer status msg)).
Definition success {A} (a : A) : handler A := Ret (Ok (Success a)).

Definition msgAdminRequired : bytes := lit "admin access required".

Definition denyIfNotAdmin {A} (ctx : Ctx) (k : handler A) : handler A :=
  if isAdmin ctx then k else answer_ 403 msgAdminRequired.

(** [JWTConfig.GenerateToken]: the claims that are signed. *)
Definition GenerateToken (userID : uuid) (email : bytes) (isAdmin : bool) (tenantID : uuid) : Claims :=
  mk_claims userID (if bool_decide (tenantID = Nil) then DefaultTenantID else tenantID) email isAdmin.

(** ** Text *)

Definition maxDisplayNameLen : Z := 128.
Definition maxLabelLen : Z := 128.
Definition maxEmailLen : Z := 254.

Definition IsControl (r : Z) : bool := bool_decide (0 ≤ r < 32) || bool_decide (127 ≤ r < 160).

(** The reason a text is refused; the empty one accepts it. *)
Definition invalidText (field value : bytes) (maxLen : Z) : bytes :=
  if bool_decide (maxLen < RuneCount value)
  then field ++ lit " must be at most " ++ lit (pretty maxLen) ++ lit " characters"
  else if existsb IsControl (runes value) then field ++ lit " must not contain control characters"
  else [].

Definition sanitizeText (value : bytes) (maxLen : Z) : bytes :=
  let cleaned := string_of_runes (List.filter (λ r, negb (IsControl r)) (runes value)) in
  if bool_decide (RuneCount cleaned <= maxLen) then cleaned
  else string_of_runes (take (Z.to_nat maxLen) (runes cleaned)).

(** ** The repository of groups *)

Definition AddMember (ctx : option Tenant) (group user : uuid) : api (result api_err unit) :=
  and_ok (call_out (InsertMember ctx group user)) (λ _,
  if bool_decide (group = AdminGroupID) then call_out (SyncIsAdmin ctx user) else Ret (Ok tt)).

Definition RemoveMember (ctx : option Tenant) (group user : uuid) : api (result api_err unit) :=
  let remove :=
    and_ok (call_out (DeleteMember ctx group user)) (λ _,
    if bool_decide (group = AdminGroupID) then call_out (SyncIsAdmin ctx user) else Ret (Ok tt)) in
  if bool_decide (group = AdminGroupID)
  then and_ok (call_out (CountMembers ctx group)) (λ n, if bool_decide (n ≤ 1) then Ret (Err ErrLastAdmin) else remove)
  else remove.

Definition GroupsDelete (ctx : option Tenant) (id : uuid) : api (result api_err unit) :=
  and_ok (call_out (GroupsGet ctx id)) (λ g,
  if g_IsSystem g then Ret (Err ErrSystemGroup) else call_out (GroupsDeleteRow ctx id)).

(** ** Registration and login *)

Record RegisterBody := mk_register { rb_Email : bytes; rb_Password : bytes; rb_DisplayName : option bytes }.

Section accounts.
Context (ParseAddress : bytes → bool) (ToLower : bytes → bytes).
Context (HashPassword : bytes → result api_err bytes) (CheckPassword : bytes → bytes → bool).

Definition normalizeEmail (email : bytes) : bytes := ToLower (TrimSpace email).

(** The accepted display name, or the problem. *)
Definition validateRegistration (body : RegisterBody) : result bytes bytes :=
  let email := rb_Email body in
  if bool_decide (email = [] ∨ rb_Password body = []) then Err (lit "email and password are required")
  else if negb (ParseAddress email) then Err (lit "invalid email format")
  else if bool_decide (maxEmailLen < blen email) then Err (lit "invalid email format")
  else if bool_decide (blen (rb_Password body) < 8) then Err (lit "password must be at least 8 characters")
  else if bool_decide (72 < blen (rb_Password body)) then Err (lit "password must be at most 72 characters")
  else let displayName := default [] (rb_DisplayName body) in
       match invalidText (lit "display_name") displayName maxDisplayNameLen with
       | [] => Ok displayName
       | msg => Err msg
       end.

(** [id] is the fresh [uuid.New()].  The user and whether it is an administrator,
    or the reason for the refusal. *)
Definition createAccount (id : uuid) (body : RegisterBody) : api (result api_err (bytes + User * bool)) :=
  let ctx := WithDefaultTenant false in
  let email := rb_Email body in
  match validateRegistration body with
  | Err refused => Ret (Ok (inl refused))
  | Ok displayName =>
      match HashPassword (rb_Password body) with
      | Err e => Ret (Err e)
      | Ok hash =>
          existing ← call_out (UsersGetByEmail ctx email);
          match existing with
          | Ok _ => Ret (Ok (inl (lit "registration failed")))
          | Err ErrUserNotFound =>
              let user := mk_user id DefaultTenantID email hash displayName false zero_time zero_time in
              and_ok (call_out (UsersUpsert ctx user)) (λ _,
              users ← call_out (UsersList ctx);
              _ ← (match users with
                   | Ok [_] => AddMember ctx AdminGroupID id
                   | _ => Ret (Ok tt)
                   end);
              admin ← call_out (IsUserInGroup ctx id AdminGroupID);
              let isAdmin := match admin with Ok b => b | Err _ => false end in
              _ ← call_out (Audit id (lit "user.register") email);
              Ret (Ok (inr (user, isAdmin))))
          | Err e => Ret (Err e)
          end
      end
  end.

Definition Register (id : uuid) (body : RegisterBody) : handler Claims :=
  and_ok (createAccount id body) (λ r,
  match r with
  | inl refused => answer_ 400 refused
  | inr (user, isAdmin) => success (GenerateToken (u_ID user) (u_Email user) isAdmin (u_TenantID user))
  end).

Definition refuse_login : reply (User * bool) := Answer 401 (lit "invalid credentials").

(** The status and message of the refusal are those of the answer. *)
Definition checkCredentials (ctx : Ctx) (email password : bytes) : handler (User * bool) :=
  if bool_decide (email = [] ∨ password = []) then answer_ 400 (lit "email and password are required")
  else
    let key := normalizeEmail email in
    allowed ← call_out (LimiterAllowed key);
    if negb allowed then answer_ 429 (lit "too many failed login attempts; try again later")
    else
      found ← call_out (UsersGetByEmail (cx_tenant ctx) email);
      match found with
      | Err ErrUserNotFound => _ ← call_out (LimiterFailure key); Ret (Ok refuse_login)
      | Err e => Ret (Err e)
      | Ok user =>
          if negb (CheckPassword (u_PasswordHash user) password)
          then _ ← call_out (LimiterFailure key); Ret (Ok refuse_login)
          else
            _ ← call_out (LimiterReset key);
            let tenantCtx := Some (mk_tenant (u_TenantID user) (u_IsAdmin user)) in
            admin ← call_out (IsUserInGroup tenantCtx (u_ID user) AdminGroupID);
            let isAdmin := match admin with Ok b => b | Err _ => false end in
            _ ← call_out (Audit (u_ID user) (lit "user.login") (u_Email user));
            success (user, isAdmin)
      end.

Definition Login (ctx : Ctx) (email password : bytes) : handler Claims :=
  and_ok (checkCredentials ctx email password) (λ r,
  match r with
  | Answer status msg => answer_ status msg
  | Success (user, isAdmin) => success (GenerateToken (u_ID user) (u_Email user) isAdmin (u_TenantID user))
  end).
End accounts.

(** ** Users *)

Definition GetMe (ctx : Ctx) : handler User :=
  r ← call_out (UsersGet (cx_tenant ctx) (ContextUserID ctx));
  match r with
  | Ok u => success u
  | Err ErrUserNotFound => answer_ 404 (lit "user not found")
  | Err e => Ret (Err e)
  end.

Definition HandleListUsers (ctx : Ctx) : handler (list User) :=
  denyIfNotAdmin ctx (and_ok (call_out (UsersList (cx_tenant ctx))) success).

Definition DeleteUser (ctx : Ctx) (id : uuid) : handler unit :=
  denyIfNotAdmin ctx (
  and_ok (call_out (UsersDelete (cx_tenant ctx) id)) (λ _,
  _ ← call_out (Audit (ContextUserID ctx) (lit "user.delete") (uuid_String id));
  success tt)).

Record UpdateBody := mk_update { ub_IsAdmin : option bool; ub_DisplayName : option bytes }.

Definition set_display (u : User) (name : bytes) : User :=
  mk_user (u_ID u) (u_TenantID u) (u_Email u) (u_PasswordHash u) name (u_IsAdmin u) (u_CreatedAt u) (u_UpdatedAt u).
Definition set_admin (u : User) (b : bool) : User :=
  mk_user (u_ID u) (u_TenantID u) (u_Email u) (u_PasswordHash u) (u_DisplayName u) b (u_CreatedAt u) (u_UpdatedAt u).

(** The change of the administrators' group: the answer that ends the request, or
    on with it. *)
Definition sync_membership (ctx : Ctx) (id : uuid) (admin : bool) : api (result api_err (reply unit)) :=
  if admin then and_ok (AddMember (cx_tenant ctx) AdminGroupID id) (λ _, success tt)
  else
    r ← RemoveMember (cx_tenant ctx) AdminGroupID id;
    match r with
    | Err ErrLastAdmin => answer_ 403 (lit "cannot remove last administrator")
    | Ok _ | Err ErrMemberNotFound => success tt
    | Err e => Ret (Err e)
    end.

Definition UpdateUser (ctx : Ctx) (id : uuid) (body : UpdateBody) : handler User :=
  let isSelf := bool_decide (ContextUserID ctx = id) in
  if negb (isAdmin ctx) && (negb isSelf || bool_decide (is_Some (ub_IsAdmin body))) then answer_ 403 msgAdminRequired
  else
    found ← call_out (UsersGet (cx_tenant ctx) id);
    match found with
    | Err ErrUserNotFound => answer_ 404 (lit "user not found")
    | Err e => Ret (Err e)
    | Ok user =>
        and_ok (match ub_IsAdmin body with
                | Some b => sync_membership ctx (u_ID user) b
                | None => success tt
                end) (λ r,
        match r with
        | Answer status msg => answer_ status msg
        | Success _ =>
            let user := match ub_IsAdmin body with Some b => set_admin user b | None => user end in
            let user := match ub_DisplayName body with
                        | Some name => set_display user (sanitizeText name maxDisplayNameLen)
                        | None => user
                        end in
            and_ok (call_out (UsersUpsert (cx_tenant ctx) user)) (λ _,
            _ ← call_out (Audit (ContextUserID ctx) (lit "user.update") (u_Email user));
            success user)
        end)
    end.

(** ** Security groups *)

Definition CreateSecurityGroup (ctx : Ctx) (id : uuid) (name : bytes) (description : option bytes) : handler SecurityGroup :=
  denyIfNotAdmin ctx (
  if bool_decide (name = []) then answer_ 400 (lit "name is required")
  else
    let g := mk_group id (match cx_tenant ctx with Some t => TenantID t | None => Nil end) name (default [] description) false in
    and_ok (call_out (GroupsCreate (cx_tenant ctx) g)) (λ _,
    _ ← call_out (Audit (ContextUserID ctx) (lit "security_group.create") (uuid_String id));
    and_ok (call_out (GroupsGet (cx_tenant ctx) id)) success)).

Definition DeleteSecurityGroup (ctx : Ctx) (id : uuid) : handler unit :=
  denyIfNotAdmin ctx (
  r ← GroupsDelete (cx_tenant ctx) id;
  match r with
  | Err ErrSecurityGroupNotFound => answer_ 404 (lit "security group not found")
  | Err ErrSystemGroup => answer_ 403 (lit "cannot delete system group")
  | Err e => Ret (Err e)
  | Ok _ => _ ← call_out (Audit (ContextUserID ctx) (lit "security_group.delete") (uuid_String id)); success tt
  end).

Definition AddSecurityGroupMember (ctx : Ctx) (group user : uuid) : handler unit :=
  denyIfNotAdmin ctx (
  g ← call_out (GroupsGet (cx_tenant ctx) group);
  match g with
  | Err ErrSecurityGroupNotFound => answer_ 404 (lit "security group not found")
  | Err e => Ret (Err e)
  | Ok _ =>
      u ← call_out (UsersGet (cx_tenant ctx) user);
      match u with
      | Err ErrUserNotFound => answer_ 404 (lit "user not found")
      | Err e => Ret (Err e)
      | Ok _ =>
          and_ok (AddMember (cx_tenant ctx) group user) (λ _,
          _ ← call_out (Audit (ContextUserID ctx) (lit "security_group.add_member") (uuid_String group));
          success tt)
      end
  end).

Definition RemoveSecurityGroupMember (ctx : Ctx) (group user : uuid) : handler unit :=
  denyIfNotAdmin ctx (
  r ← RemoveMember (cx_tenant ctx) group user;
  match r with
  | Err ErrMemberNotFound => answer_ 404 (lit "member not found")
  | Err ErrLastAdmin => answer_ 409 (lit "cannot remove last administrator")
  | Err e => Ret (Err e)
  | Ok _ => _ ← call_out (Audit (ContextUserID ctx) (lit "security_group.remove_member") (uuid_String group)); success tt
  end).
