(* ===== verification/AccountClaims.v ===== *)
(** * What accounts promise

    A login that fails tells nothing about who has an
    account ([failed_logins_alike]); the administrator flag follows the group
    ([admin_flag_follows_group]); the guard on the last administrator holds for
    every request but the deletion of a user ([last_admin_kept],
    [deleting_drops_last_admin]), and not under concurrent requests; two first
    registrations at once leave nobody in charge. *)
From S2P Require Import Prelude GoTime GoStrings Settings Dbtx Effect ApiWorld Budget Accounts.

Section requests.
Context (ParseAddress : bytes → bool) (ToLower : bytes → bytes).
Context (HashPassword : bytes → result api_err bytes) (CheckPassword : bytes → bytes → bool).

Inductive account_request :=
  | ReqLogin (ctx : Ctx) (email password : bytes)
  | ReqRegister (id : uuid) (body : RegisterBody)
  | ReqUpdateUser (ctx : Ctx) (id : uuid) (body : UpdateBody)
  | ReqDeleteUser (ctx : Ctx) (id : uuid)
  | ReqCreateGroup (ctx : Ctx) (id : uuid) (name : bytes) (description : option bytes)
  | ReqDeleteGroup (ctx : Ctx) (id : uuid)
  | ReqAddMember (ctx : Ctx) (group user : uuid)
  | ReqRemoveMember (ctx : Ctx) (group user : uuid).

(** The status a request is answered with. *)
Definition status_of {A} (ok : Z) (p : handler A) : api Z :=
  r ← p; Ret (match r with Ok (Answer status _) => status | Ok (Success _) => ok | Err _ => 500 end).

Definition serve (r : account_request) : api Z :=
  match r with
  | ReqLogin ctx email password => status_of 200 (Login ToLower CheckPassword ctx email password)
  | ReqRegister id body => status_of 201 (Register ParseAddress HashPassword id body)
  | ReqUpdateUser ctx id body => status_of 200 (UpdateUser ctx id body)
  | ReqDeleteUser ctx id => status_of 204 (DeleteUser ctx id)
  | ReqCreateGroup ctx id name d => status_of 201 (CreateSecurityGroup ctx id name d)
  | ReqDeleteGroup ctx id => status_of 204 (DeleteSecurityGroup ctx id)
  | ReqAddMember ctx g u => status_of 204 (AddSecurityGroupMember ctx g u)
  | ReqRemoveMember ctx g u => status_of 204 (RemoveSecurityGroupMember ctx g u)
  end.

(** A worker serves one request after the other. *)
Fixpoint worker (l : list account_request) : api (list Z) :=
  match l with [] => Ret [] | r :: l => s ← serve r; rest ← worker l; Ret (s :: rest) end.

(** ** The login limiter *)

Section limiter.
Context (key : bytes).

Definition login_granted R (c : api_call R) : R → bool :=
  match c in api_call R return R → bool with
  | LimiterAllowed k => λ r, r && bool_decide (k = key)
  | _ => λ _, false
  end.
Definition login_uses R (c : api_call R) : bool :=
  match c with LimiterFailure k => bool_decide (k = key) | _ => false end.
Definition login_count (w : world) : Z := match w_limiter w !! key with Some e => failures e | None => 0 end.
Definition any_call R (_ : api_call R) : Prop := True.
Definition limiter_ok (w : world) : Prop := ∀ k e, w_limiter w !! k = Some e → 1 ≤ failures e.

(** Only the limiter's own calls touch it. *)
Lemma exec_limiter R (c : api_call R) w :
  match c with
  | LimiterAllowed _ | LimiterFailure _ | LimiterReset _ => True
  | _ => w_limiter (exec c w).2 = w_limiter w
  end.
Proof.
  destruct c; cbn; try done; unfold lift_state; try (destruct (TenantFromContext _) as [t|]; [|done]); cbn;
    unfold upsert_user, delete_user, create_group, delete_group, insert_member, delete_member, sync_is_admin,
      create_console, create_session, mark_outcome, delete_session, delete_relay_session, create_enroll,
      delete_enroll, increment_use; by repeat case_match.
Qed.

Lemma login_count_nonneg w : limiter_ok w → 0 ≤ login_count w.
Proof. intros Hw. unfold login_count. destruct (w_limiter w !! key) eqn:E; [specialize (Hw _ _ E)|]; lia. Qed.

Lemma allowed_spec k w :
  limiter_ok w → limiter_ok (limiter_allowed k w).2 ∧
  login_count (limiter_allowed k w).2 ≤ login_count w ∧
  ((limiter_allowed k w).1 = true → k = key → login_count (limiter_allowed k w).2 < loginMaxFailures).
Proof.
  intros Hw. pose proof (login_count_nonneg w Hw) as Hn. unfold limiter_allowed, login_count in *.
  destruct (w_limiter w !! k) as [e|] eqn:E; cbn.
  - case_bool_decide; cbn.
    + split_and!.
      * intros k' e'. cbn. rewrite lookup_delete_Some. intros [_ ?]. by eapply Hw.
      * destruct (decide (k = key)) as [->|Hne]; [rewrite lookup_delete_eq|rewrite lookup_delete_ne by done]; lia.
      * intros _ ->. rewrite lookup_delete_eq. unfold loginMaxFailures. lia.
    + split_and!; [done|lia|]. intros ?%bool_decide_eq_true ->. by rewrite E.
  - split_and!; [done|lia|]. intros _ ->. rewrite E. unfold loginMaxFailures. lia.
Qed.

Lemma failure_spec k w :
  limiter_ok w → limiter_ok (limiter_failure k w) ∧
  login_count (limiter_failure k w) ≤ login_count w + (if bool_decide (k = key) then 1 else 0).
Proof.
  intros Hw. pose proof (login_count_nonneg w Hw) as Hn. unfold limiter_failure, login_count in *. cbn. split.
  - intros k' e'. cbn. destruct (decide (k = k')) as [<-|Hne]; [|rewrite lookup_insert_ne by done; apply Hw].
    rewrite lookup_insert_eq. intros [= <-]. destruct (w_limiter w !! k) as [e|] eqn:E; cbn; [|lia].
    specialize (Hw _ _ E). case_bool_decide; cbn; lia.
  - case_bool_decide as Hk; [subst|by rewrite lookup_insert_ne by done; lia]. rewrite lookup_insert_eq.
    destruct (w_limiter w !! key) as [e|]; cbn; [|lia]. case_bool_decide; cbn; lia.
Qed.

Lemma login_count_call R (c : api_call R) w :
  any_call R c → limiter_ok w → limiter_ok (exec c w).2 ∧
  login_count (exec c w).2 ≤ login_count w + (if login_uses R c then 1 else 0) ∧
  (login_granted R c (exec c w).1 = true → login_count (exec c w).2 < loginMaxFailures).
Proof.
  intros _ Hw. pose proof (exec_limiter R c w) as Hx.
  destruct c; try (unfold limiter_ok, login_count in *; rewrite Hx; split_and!; [done|cbn; lia|done]);
    cbn [exec fst snd login_uses login_granted].
  - destruct (allowed_spec key0 w Hw) as (? & ? & Hg). split_and!; [done|lia|].
    intros [? ?%bool_decide_eq_true]%andb_true_iff. by apply Hg.
  - destruct (failure_spec key0 w Hw) as [? ?]. split_and!; done.
  - unfold limiter_reset, login_count. cbn. split_and!; [|destruct (decide (key0 = key)) as [->|Hne]|done].
    + intros k e. cbn. rewrite lookup_delete_Some. intros [_ ?]. by eapply Hw.
    + rewrite lookup_delete_eq. pose proof (login_count_nonneg w Hw) as Hn. unfold login_count in Hn. lia.
    + rewrite lookup_delete_ne by done. lia.
Qed.

Abbreviation tok := (tokened any_call login_granted login_uses).

Lemma tok_and_ok {A B} (p : api (result api_err A)) (k : A → api (result api_err B)) :
  tok false p → (∀ a, tok false (k a)) → tok false (and_ok p k).
Proof. intros Hp Hk. apply tokened_bind; [done|]. intros [a|e]; [apply Hk|done]. Qed.

Lemma tok_then {A B} (p : api A) (k : A → api B) : tok false p → (∀ a, tok false (k a)) → tok false (p ≫= k).
Proof. apply tokened_bind. Qed.

(** A call that is not the limiter's. *)
Lemma tok_call {R} (c : api_call R) :
  login_uses R c = false → tok false (call_out c).
Proof. intros Hc. cbn. rewrite Hc. done. Qed.
End limiter.

#[local] Ltac tok_tac :=
  repeat first
    [ done | apply tok_call; done | apply tok_and_ok; [|intros ?] | apply tok_then; [|intros ?]
    | progress cbn [denyIfNotAdmin answer_ success] | case_match ].

Lemma tok_checkCredentials key ctx email password :
  tokened any_call (login_granted key) (login_uses key) false (checkCredentials ToLower CheckPassword ctx email password).
Proof.
  unfold checkCredentials. case_bool_decide; [done|]. cbn. split; [done|]. split; [done|].
  intros [|]; cbn; [|done]. split; [done|]. split; [done|]. intros found.
  set (b := bool_decide (normalizeEmail ToLower email = key)).
  destruct found as [u|[]]; cbn; try done.
  - destruct (CheckPassword (u_PasswordHash u) password); cbn; unfold b; case_bool_decide;
      repeat first [done|split|intros ?].
  - unfold b. case_bool_decide; repeat first [done|split|intros ?].
Qed.

Lemma tok_serve key r : tokened any_call (login_granted key) (login_uses key) false (serve r).
Proof.
  destruct r; cbn [serve]; unfold status_of; apply tok_then; try done.
  - unfold Login. apply tok_and_ok; [apply tok_checkCredentials|]. intros [|[]]; done.
  - unfold Register, createAccount, AddMember. tok_tac.
  - unfold UpdateUser, sync_membership, AddMember, RemoveMember. tok_tac.
  - unfold DeleteUser. unfold denyIfNotAdmin. tok_tac.
  - unfold CreateSecurityGroup, denyIfNotAdmin. tok_tac.
  - unfold DeleteSecurityGroup, denyIfNotAdmin, GroupsDelete. tok_tac.
  - unfold AddSecurityGroupMember, denyIfNotAdmin, AddMember. tok_tac.
  - unfold RemoveSecurityGroupMember, denyIfNotAdmin, RemoveMember. tok_tac.
Qed.

(** Programs that count a failure only after the limiter let them through keep the
    count under the limit and their number. *)
Lemma login_budget {A} (pool : list (api A)) (w : world) key st :
  w_limiter w = ∅ → pool ≠ [] → Forall (tokened any_call (login_granted key) (login_uses key) false) pool →
  rtc pool_step (pool, w) st →
  login_count key st.2 ≤ loginMaxFailures - 1 + Z.of_nat (length pool).
Proof.
  intros Hw Hne Htok Hsteps.
  assert (0 < length pool)%nat as Hlen by (destruct pool; [done|cbn; lia]).
  eapply (budget_holds any_call (login_granted key) (login_uses key) limiter_ok); [..|exact Hsteps].
  - apply login_count_call.
  - intros R c r. by destruct c; cbn; intros; simplify_eq.
  - done.
  - intros w' Hw'. unfold limiter_cleanup, login_count. cbn. split.
    + intros k e. cbn. intros [? _]%map_lookup_filter_Some. by eapply Hw'.
    + destruct (filter _ _ !! key) as [e|] eqn:E.
      * apply map_lookup_filter_Some in E as [-> _]. lia.
      * pose proof (login_count_nonneg key w' Hw') as Hn. unfold login_count in Hn. done.
  - done.
  - intros k e. rewrite Hw. by rewrite lookup_empty.
  - unfold login_count. rewrite Hw, lookup_empty. unfold loginMaxFailures. lia.
Qed.

(** ** A failed login *)

(** The credentials are nobody's. *)
Definition no_match (ctx : Ctx) (email password : bytes) (w : world) : Prop :=
  match scoped (or_any_tenant (cx_tenant ctx)) (λ t, get_by_email t email w) with
  | Ok u => CheckPassword (u_PasswordHash u) password = false
  | Err e => e = ErrUserNotFound
  end.

Lemma limiter_allowed_rest key w :
  w_users (limiter_allowed key w).2 = w_users w ∧ w_now (limiter_allowed key w).2 = w_now w.
Proof. unfold limiter_allowed. by repeat case_match. Qed.

Lemma failed_login_run ctx email password w :
  no_match ctx email password w → email ≠ [] → password ≠ [] →
  let key := normalizeEmail ToLower email in
  run (checkCredentials ToLower CheckPassword ctx email password) w =
  let '(ok, w') := limiter_allowed key w in
  if ok then (Some (Ok refuse_login), limiter_failure key w')
  else (Some (Ok (Answer 429 (lit "too many failed login attempts; try again later"))), w').
Proof.
  intros Hm He Hp key. unfold checkCredentials. rewrite bool_decide_false by (by intros [?|?]).
  cbn [run call_out mbind prog_mbind prog_bind]. fold key. cbn [exec].
  destruct (limiter_allowed_rest key w) as [Hu _]. destruct (limiter_allowed key w) as [[|] w']; cbn in Hu |- *; [|done].
  assert (scoped (or_any_tenant (cx_tenant ctx)) (λ t, get_by_email t email w') =
          scoped (or_any_tenant (cx_tenant ctx)) (λ t, get_by_email t email w)) as ->.
  { unfold scoped, get_by_email. by rewrite Hu. }
  unfold no_match in Hm. destruct (scoped _ _) as [u|e]; [by rewrite Hm|by subst e].
Qed.

(** Two worlds that differ in who has an account, and agree on the failures
    counted so far, answer a login that matches nobody alike, and count it alike. *)
Theorem failed_logins_alike ctx email password w1 w2 :
  w_limiter w1 = w_limiter w2 → w_now w1 = w_now w2 →
  no_match ctx email password w1 → no_match ctx email password w2 →
  let r1 := run (checkCredentials ToLower CheckPassword ctx email password) w1 in
  let r2 := run (checkCredentials ToLower CheckPassword ctx email password) w2 in
  r1.1 = r2.1 ∧ w_limiter r1.2 = w_limiter r2.2.
Proof.
  intros Hl Hn H1 H2. cbn zeta. destruct (decide (email = [] ∨ password = [])) as [He|He].
  - unfold checkCredentials. by rewrite bool_decide_true.
  - assert (email ≠ [] ∧ password ≠ []) as [He1 He2] by (split; intros ->; apply He; by auto).
    rewrite (failed_login_run _ _ _ w1 H1 He1 He2), (failed_login_run _ _ _ w2 H2 He1 He2). set (key := normalizeEmail ToLower email).
    assert ((limiter_allowed key w1).1 = (limiter_allowed key w2).1 ∧
            w_limiter (limiter_allowed key w1).2 = w_limiter (limiter_allowed key w2).2) as [Ha Hl'].
    { unfold limiter_allowed. rewrite <- Hl, <- Hn. destruct (w_limiter w1 !! key); [case_bool_decide|]; cbn; by rewrite ?Hl. }
    destruct (limiter_allowed_rest key w1) as [_ Hn1], (limiter_allowed_rest key w2) as [_ Hn2].
    destruct (limiter_allowed key w1) as [ok w1'], (limiter_allowed key w2) as [ok' w2']. cbn in *. subst ok'.
    destruct ok; cbn; split; try done. by rewrite Hl', Hn1, Hn2, Hn.
Qed.
End requests.

(** ** The administrator flag and the administrators' group *)

Definition member_in (w : world) (id : uuid) (t : uuid) : Prop := w_members w !! (AdminGroupID, id) = Some t.

(** The flag of every user but [x] follows the group; memberships are of users of
    the tenant; the group is a system group. *)
Record accounts_ok_but (x : option uuid) (w : world) : Prop := mk_accounts_ok {
  ok_ids : ∀ id u, w_users w !! id = Some u → u_ID u = id;
  ok_flag : ∀ id u, x ≠ Some id → w_users w !! id = Some u → u_IsAdmin u = is_member (u_TenantID u) AdminGroupID id w;
  ok_members : ∀ g id t, w_members w !! (g, id) = Some t → ∃ u, w_users w !! id = Some u ∧ u_TenantID u = t;
  ok_system : ∀ g, w_groups w !! AdminGroupID = Some g → g_IsSystem g = true;
}.
Abbreviation accounts_ok := (accounts_ok_but None).

Definition has_admin (tenant : uuid) (w : world) : Prop := ∃ id, member_in w id tenant.

Lemma insert_member_ok t g x u w :
  accounts_ok w → w_users w !! x = Some u → u_TenantID u = TenantID t →
  let w' := (insert_member t g x w).2 in
  w_users w' = w_users w ∧ w_now w' = w_now w ∧
  accounts_ok_but (if bool_decide (g = AdminGroupID) then Some x else None) w' ∧
  (∀ T, has_admin T w → has_admin T w') ∧
  ((insert_member t g x w).1 = Ok tt → is_member (TenantID t) g x w' = true).
Proof.
  intros [Hids Hflag Hmem Hsys] Hx Ht. cbn zeta. unfold insert_member.
  destruct (w_members w !! (g, x)) as [t'|] eqn:Em; cbn.
  - destruct (Hmem _ _ _ Em) as (u' & Hu' & Ht'). rewrite Hx in Hu'. injection Hu' as <-. split_and!; try done.
    + split; try done. intros id v Hne. apply Hflag. done.
    + intros _. unfold is_member. apply bool_decide_eq_true. congruence.
  - destruct (bool_decide (is_Some (w_groups w !! g)) && bool_decide (is_Some (w_users w !! x))); cbn.
    2: { split_and!; try done. split; try done. intros id v _. by apply Hflag. }
    split_and!; try done.
    + split; cbn; try done.
      * intros id v Hne Hv. rewrite (Hflag id v) by done. unfold is_member. cbn. f_equal.
        rewrite lookup_insert_ne; [done|]. intros [= -> ->]. rewrite bool_decide_true in Hne; done.
      * intros g' id t''. rewrite lookup_insert_Some. intros [[[= -> ->] <-]|[_ ?]]; [|by eapply Hmem]. by eexists.
    + intros T [id Hid]. exists id. unfold member_in in *. cbn. rewrite lookup_insert_ne; [done|]. intros [= -> ->]. congruence.
    + intros _. unfold is_member. cbn. rewrite lookup_insert_eq. by apply bool_decide_eq_true.
Qed.

Lemma sync_ok t x u w :
  accounts_ok_but (Some x) w → w_users w !! x = Some u → u_TenantID u = TenantID t →
  let w' := sync_is_admin t x w in
  accounts_ok w' ∧ (∀ T, has_admin T w ↔ has_admin T w') ∧ w_members w' = w_members w ∧
  w_users w' !! x = Some (set_is_admin u (is_member (TenantID t) AdminGroupID x w) (w_now w)).
Proof.
  intros [Hids Hflag Hmem Hsys] Hx Ht. cbn zeta. unfold sync_is_admin. rewrite Hx, bool_decide_true by done.
  split_and!; [|done|done|cbn; by rewrite lookup_insert_eq]. split; cbn; try done.
  - intros id v. destruct (decide (x = id)) as [<-|Hne]; [|rewrite lookup_insert_ne by done; apply Hids].
    rewrite lookup_insert_eq. intros [= <-]. cbn. by apply Hids.
  - intros id v _. destruct (decide (x = id)) as [<-|Hne].
    + rewrite lookup_insert_eq. intros [= <-]. cbn. by rewrite Ht.
    + rewrite lookup_insert_ne by done. intros Hv. rewrite (Hflag id v); [done|congruence|done].
  - intros g id t'. intros (v & Hv & Hvt)%Hmem. destruct (decide (x = id)) as [<-|Hne].
    + rewrite lookup_insert_eq. eexists. split; [done|]. cbn. congruence.
    + rewrite lookup_insert_ne by done. eauto.
Qed.

Lemma delete_member_ok t g x w :
  accounts_ok w →
  let '(r, w') := delete_member t g x w in
  accounts_ok_but (if bool_decide (g = AdminGroupID) then Some x else None) w' ∧ w_users w' = w_users w ∧
  is_member (TenantID t) g x w' = false ∧
  match r with Ok _ => w' = set_members w (delete (g, x) (w_members w)) | Err e => e = ErrMemberNotFound ∧ w' = w end.
Proof.
  intros [Hids Hflag Hmem Hsys]. unfold delete_member.
  destruct (is_member (TenantID t) g x w) eqn:Em.
  - split_and!; try done.
    + split; cbn; try done.
      * intros id v Hne Hv. rewrite (Hflag id v) by done. unfold is_member. cbn. f_equal.
        rewrite lookup_delete_ne; [done|]. intros [= -> ->]. rewrite bool_decide_true in Hne; done.
      * intros g' id t'. rewrite lookup_delete_Some. intros [_ ?]. by eapply Hmem.
    + unfold is_member. cbn. rewrite lookup_delete_eq. by apply bool_decide_eq_false.
  - split_and!; try done. split; try done. intros id v _. by apply Hflag.
Qed.

(** A group of more than one keeps a member when one goes. *)
Lemma another_admin T x w :
  (1 < size (members_of T AdminGroupID w))%nat → has_admin T (set_members w (delete (AdminGroupID, x) (w_members w))).
Proof.
  intros Hs. destruct (map_choose (delete (AdminGroupID, x) (members_of T AdminGroupID w))) as ([g id] & t & Hm).
  - intros He. apply (f_equal size) in He. rewrite map_size_empty in He.
    destruct (members_of T AdminGroupID w !! (AdminGroupID, x)) eqn:E.
    + rewrite map_size_delete_Some in He by eauto. lia.
    + rewrite map_size_delete_None in He by done. lia.
  - apply lookup_delete_Some in Hm as [Hne [Hm [Hg Ht]]%map_lookup_filter_Some]. cbn in Hg, Ht. subst.
    exists id. unfold member_in. cbn. by rewrite lookup_delete_ne.
Qed.

Lemma upsert_ok t v w :
  accounts_ok w → (∀ row, w_users w !! u_ID v = Some row → u_TenantID row = TenantID t) →
  u_IsAdmin v = is_member (TenantID t) AdminGroupID (u_ID v) w →
  accounts_ok (upsert_user t v w).2 ∧ w_members (upsert_user t v w).2 = w_members w.
Proof.
  intros [Hids Hflag Hmem Hsys] Hrow Hv. unfold upsert_user. case_bool_decide; [done|].
  assert (∀ created, accounts_ok (set_users w (<[u_ID v := mk_user (u_ID v) (TenantID t) (u_Email v) (u_PasswordHash v)
            (u_DisplayName v) (u_IsAdmin v) created (w_now w)]> (w_users w)))) as Hput.
  { intros created. split; cbn; try done.
    - intros id u. destruct (decide (u_ID v = id)) as [<-|Hne]; [|rewrite lookup_insert_ne by done; apply Hids].
      rewrite lookup_insert_eq. by intros [= <-].
    - intros id u _. destruct (decide (u_ID v = id)) as [<-|Hne]; [|rewrite lookup_insert_ne by done; by apply Hflag].
      rewrite lookup_insert_eq. by intros [= <-].
    - intros g id t' (u & Hu & Ht)%Hmem. destruct (decide (u_ID v = id)) as [<-|Hne].
      + rewrite lookup_insert_eq. eexists. split; [done|]. cbn. rewrite <- Ht. symmetry. by apply Hrow.
      + rewrite lookup_insert_ne by done. eauto. }
  destruct (w_users w !! u_ID v) as [row|]; [destruct (visible t (u_TenantID row))|]; cbn; done.
Qed.

(** The membership request of a user of the tenant. *)
Lemma run_AddMember ctx t g x u w :
  TenantFromContext ctx = Some t → accounts_ok w → w_users w !! x = Some u → u_TenantID u = TenantID t →
  let '(r, w') := run (AddMember ctx g x) w in
  accounts_ok w' ∧ (∀ T, has_admin T w → has_admin T w') ∧
  (∃ u', w_users w' !! x = Some u' ∧ u_TenantID u' = TenantID t) ∧
  (r = Some (Ok tt) → is_member (TenantID t) g x w' = true) ∧ is_Some r.
Proof.
  intros Hctx Hok Hx Ht. unfold AddMember, and_ok. rewrite run_bind. cbn [run call_out exec].
  unfold lift_state. rewrite Hctx. pose proof (insert_member_ok t g x u w Hok Hx Ht) as (Hu & Hn & Hbut & Had & Hm).
  destruct (insert_member t g x w) as [[[]|e] w1] eqn:E; cbn [fst snd] in *.
  - case_bool_decide as Hg.
    + cbn [run call_out exec]. unfold lift_state. rewrite Hctx.
      assert (w_users w1 !! x = Some u) as Hx1 by by rewrite Hu.
      destruct (sync_ok t x u w1 Hbut Hx1 Ht) as (Hok' & Had' & Hmem' & Hx'). split_and!; [done| | | |done].
      * intros T HT. by apply Had', Had.
      * by eexists.
      * intros _. unfold is_member. rewrite Hmem'. by apply Hm.
    + cbn. split_and!; [done|done| |by intros _; apply Hm|done]. exists u. by rewrite Hu.
  - assert (w1 = w) as ->.
    { revert E. unfold insert_member. by repeat case_match; intros; simplify_eq. }
    cbn. split_and!; [|done|by exists u|done|done]. revert Hbut. intros [Hids Hflag Hmem Hsys].
    destruct Hok as [? Hf ? ?]. split; try done.
Qed.

Lemma run_RemoveMember ctx t g x u w :
  TenantFromContext ctx = Some t → accounts_ok w → w_users w !! x = Some u → u_TenantID u = TenantID t →
  let '(r, w') := run (RemoveMember ctx g x) w in
  accounts_ok w' ∧ (∀ T, has_admin T w → has_admin T w') ∧
  (∃ u', w_users w' !! x = Some u' ∧ u_TenantID u' = TenantID t) ∧
  (r = Some (Ok tt) ∨ r = Some (Err ErrMemberNotFound) → is_member (TenantID t) g x w' = false) ∧ is_Some r.
Proof.
  intros Hctx Hok Hx Ht. unfold RemoveMember.
  assert (has_mono : ∀ T, (g = AdminGroupID → (1 < size (members_of (TenantID t) AdminGroupID w))%nat) →
            has_admin T w → has_admin T (set_members w (delete (g, x) (w_members w)))).
  { intros T Hs [id Hid]. destruct (decide ((g, x) = (AdminGroupID, id))) as [[= -> ->]|Hne].
    - destruct (ok_members _ _ Hok _ _ _ Hid) as (u' & Hu' & <-). rewrite Hx in Hu'. injection Hu' as <-.
      rewrite Ht. by apply another_admin, Hs.
    - exists id. unfold member_in in *. cbn. by rewrite lookup_delete_ne. }
  assert (∀ w0 (remove := and_ok (call_out (DeleteMember ctx g x)) (λ _,
            if bool_decide (g = AdminGroupID) then call_out (SyncIsAdmin ctx x) else Ret (Ok tt))),
          w0 = w → (g = AdminGroupID → (1 < size (members_of (TenantID t) AdminGroupID w))%nat) →
          let '(r, w') := run remove w0 in
          accounts_ok w' ∧ (∀ T, has_admin T w → has_admin T w') ∧
          (∃ u', w_users w' !! x = Some u' ∧ u_TenantID u' = TenantID t) ∧
          (r = Some (Ok tt) ∨ r = Some (Err ErrMemberNotFound) → is_member (TenantID t) g x w' = false) ∧ is_Some r) as Hrem.
  { intros w0 remove -> Hs. unfold remove, and_ok. rewrite run_bind. cbn [run call_out exec]. unfold lift_state.
    rewrite Hctx. pose proof (delete_member_ok t g x w Hok) as Hd.
    destruct (delete_member t g x w) as [[[]|e] w1]; destruct Hd as (Hbut & Hu & Hm & Hr).
    - case_bool_decide as Hg.
      + cbn [run call_out exec]. unfold lift_state. rewrite Hctx. assert (w_users w1 !! x = Some u) as Hx1 by by rewrite Hu.
        destruct (sync_ok t x u w1 Hbut Hx1 Ht) as (Hok' & Had' & Hmem' & Hx'). split_and!; [done| | | |done].
        * intros T HT. apply Had'. subst w1. by apply has_mono.
        * by eexists.
        * intros _. unfold is_member. rewrite Hmem'. apply Hm.
      + cbn. split_and!; [done| |exists u; by rewrite Hu|done|done]. intros T HT. subst w1. by apply has_mono.
    - destruct Hr as [-> ->]. cbn. split_and!; [done|done|by exists u|done|done]. }
  case_bool_decide as Hg.
  - unfold and_ok at 1. rewrite run_bind. cbn [run call_out exec]. unfold scoped. rewrite Hctx. subst g.
    case_bool_decide as Hc.
    + cbn. split_and!; [done|done|by exists u| |done]. intros [|]; done.
    + apply Hrem; [done|]. intros _. lia.
  - apply Hrem; [done|]. done.
Qed.

(** ** One request at a time *)

(** Calls that touch neither users, groups nor memberships. *)
Lemma accounts_ok_frame x w w' :
  w_users w' = w_users w → w_groups w' = w_groups w → w_members w' = w_members w →
  accounts_ok_but x w → accounts_ok_but x w'.
Proof.
  intros Hu Hg Hm [Hids Hflag Hmem Hsys]. split.
  - by rewrite Hu.
  - intros id u. rewrite Hu. unfold is_member. rewrite Hm. apply Hflag.
  - intros g id t. rewrite Hu, Hm. apply Hmem.
  - by rewrite Hg.
Qed.

Definition keeps {A} (p : api A) (w : world) : Prop :=
  let '(_, w') := run p w in accounts_ok w' ∧ ∀ T, has_admin T w → has_admin T w'.

Lemma keeps_refl {A} (a : A) w : accounts_ok w → keeps (Ret a) w.
Proof. intros ?. by split. Qed.

Lemma delete_user_ok t id w : accounts_ok w → accounts_ok (delete_user t id w).2.
Proof.
  intros [Hids Hflag Hmem Hsys]. unfold delete_user. destruct (w_users w !! id) as [row|] eqn:E; [|done].
  do 2 (case_match; [done|]). split; cbn; try done.
  - intros id' u [_ Hu]%lookup_delete_Some. by apply Hids.
  - intros id' u _ [Hne Hu]%lookup_delete_Some. rewrite (Hflag id' u) by done. unfold is_member. cbn.
    apply bool_decide_ext. rewrite map_lookup_filter_Some. cbn. naive_solver.
  - intros g id' t' [Hm Hne]%map_lookup_filter_Some. cbn in Hne. destruct (Hmem _ _ _ Hm) as (u & Hu & ?). exists u.
    by rewrite lookup_delete_ne by done.
Qed.

Lemma delete_group_ok t id w :
  accounts_ok w → id ≠ AdminGroupID →
  accounts_ok (delete_group t id w).2 ∧ ∀ T, has_admin T w → has_admin T (delete_group t id w).2.
Proof.
  intros [Hids Hflag Hmem Hsys] Hne. unfold delete_group. destruct (group_in t id w); [|done]. cbn. split.
  - split; cbn; try done.
    + intros id' u _ Hu. rewrite (Hflag id' u) by done. unfold is_member. cbn.
      apply bool_decide_ext. rewrite map_lookup_filter_Some. cbn. naive_solver.
    + intros g id' t' [Hm _]%map_lookup_filter_Some. by eapply Hmem.
    + intros g [_ Hg]%lookup_delete_Some. by apply Hsys.
  - intros T [x Hx]. exists x. unfold member_in in *. cbn. apply map_lookup_filter_Some. by split.
Qed.

Section serving.
Context (ParseAddress : bytes → bool) (ToLower : bytes → bytes).
Context (HashPassword : bytes → result api_err bytes) (CheckPassword : bytes → bytes → bool).
#[local] Abbreviation serve := (serve ParseAddress ToLower HashPassword CheckPassword).

(** The ids a request takes from [uuid.New()] are nobody's yet. *)
Definition fresh_ids (r : account_request) (w : world) : Prop :=
  match r with
  | ReqRegister id _ => w_users w !! id = None
  | ReqCreateGroup _ id _ _ => id ≠ AdminGroupID
  | _ => True
  end.

Lemma keeps_status {A} ok (p : handler A) w : keeps p w → keeps (status_of ok p) w.
Proof.
  intros Hk. unfold keeps, status_of in *. rewrite run_bind. destruct (run p w) as [[r|] w']; [|done].
  exact Hk.
Qed.

(** A program that calls neither the users, the groups nor the memberships. *)
Fixpoint apart {A} (p : api A) : Prop :=
  match p with
  | Ret _ | Panic => True
  | Do c k =>
      match c with
      | UsersUpsert _ _ | UsersDelete _ _ | GroupsCreate _ _ | GroupsDeleteRow _ _ | InsertMember _ _ _ | DeleteMember _ _ _
      | SyncIsAdmin _ _ => False
      | _ => True
      end ∧ ∀ r, apart (k r)
  end.

Lemma exec_apart R (c : api_call R) w :
  match c with
  | UsersUpsert _ _ | UsersDelete _ _ | GroupsCreate _ _ | GroupsDeleteRow _ _ | InsertMember _ _ _ | DeleteMember _ _ _
  | SyncIsAdmin _ _ => True
  | _ => w_users (exec c w).2 = w_users w ∧ w_groups (exec c w).2 = w_groups w ∧ w_members (exec c w).2 = w_members w
  end.
Proof.
  destruct c; cbn; try done; unfold lift_state; try (destruct (TenantFromContext _) as [t|]; [|done]); cbn;
    unfold create_console, create_session, mark_outcome, delete_session, delete_relay_session, create_enroll,
      delete_enroll, increment_use, limiter_allowed; by repeat case_match.
Qed.

Lemma keeps_apart {A} (p : api A) w : apart p → accounts_ok w → keeps p w.
Proof.
  revert w. induction p as [a|R c k IH|]; intros w; cbn [apart].
  1, 3: intros _ Hok; by split.
  intros [Hc Hk] Hok. unfold keeps. cbn [run]. pose proof (exec_apart R c w) as Hx. specialize (IH (exec c w).1 (exec c w).2 (Hk _)).
  assert (w_users (exec c w).2 = w_users w ∧ w_groups (exec c w).2 = w_groups w ∧ w_members (exec c w).2 = w_members w) as (Hu & Hg & Hm).
  { by destruct c. }
  destruct (exec c w) as [r w']. cbn in *. unfold keeps in IH. destruct (run (k r) w') as [r' w''].
  destruct IH as [Hok' Had]; [by eapply accounts_ok_frame|]. split; [done|]. intros T HT. apply Had. unfold has_admin, member_in in *. by rewrite Hm.
Qed.

Lemma default_ctx b : TenantFromContext (WithDefaultTenant b) = Some (mk_tenant DefaultTenantID b).
Proof. by destruct b; vm_compute. Qed.

(** The table of the default tenant after a registration. *)
Lemma listed_alone id u w :
  w_users w !! id = None → u_TenantID u = DefaultTenantID →
  (∃ v, (map_to_list (users_of DefaultTenantID (set_users w (<[id := u]> (w_users w))))).*2 = [v]) ↔ users_of DefaultTenantID w = ∅.
Proof.
  intros Hid Hu. assert (size (users_of DefaultTenantID (set_users w (<[id := u]> (w_users w)))) = S (size (users_of DefaultTenantID w))) as Hs.
  { unfold users_of. cbn. rewrite map_filter_insert_True by done. apply map_size_insert_None, map_lookup_filter_None. by left. }
  rewrite <- map_size_empty_iff. rewrite <- length_map_to_list, <- (length_fmap snd) in Hs. split.
  - intros [v Hv]. rewrite Hv in Hs. cbn in Hs. lia.
  - intros H0. rewrite H0 in Hs. destruct ((map_to_list _).*2) as [|v [|]]; cbn in Hs; [lia|by exists v|lia].
Qed.

Lemma Exists_alone {A} (l : list A) : (∃ v, l = [v]) ∨ ¬ ∃ v, l = [v].
Proof. destruct l as [|v [|]]; [right; by intros [? ?]|left; by exists v|right; by intros [? ?]]. Qed.

Lemma createAccount_spec id body w :
  accounts_ok w → w_users w !! id = None →
  let '(r, w') := run (createAccount ParseAddress HashPassword id body) w in
  accounts_ok w' ∧ (∀ T, has_admin T w → has_admin T w') ∧
  ∀ u b, r = Some (Ok (inr (u, b))) →
    u_ID u = id ∧ b = is_member DefaultTenantID AdminGroupID id w' ∧
    (is_Some (w_groups w !! AdminGroupID) → b = bool_decide (users_of DefaultTenantID w = ∅)).
Proof.
  intros Hok Hid. unfold createAccount. destruct (validateRegistration _ _) as [name|]; [|by cbn; split_and!].
  destruct (HashPassword _) as [hash|]; [|by cbn; split_and!]. rewrite run_bind. cbn [run call_out exec].
  destruct (scoped _ _) as [|[]]; try by cbn; split_and!.
  set (user := mk_user id DefaultTenantID (rb_Email body) hash name false zero_time zero_time).
  unfold and_ok. rewrite run_bind. cbn [run call_out exec]. unfold lift_state. rewrite default_ctx.
  destruct (upsert_ok (mk_tenant DefaultTenantID false) user w Hok) as [Hok1 Hm1]; cbn [u_ID user] in *.
  { intros row Hrow. by rewrite Hid in Hrow. }
  { cbn. symmetry. apply bool_decide_eq_false. intros Hm. destruct (ok_members _ _ Hok _ _ _ Hm) as (u & Hu & _). by rewrite Hid in Hu. }
  destruct (upsert_user _ user w) as [[[]|e] w1] eqn:Eu; cbn [snd] in *.
  2: { cbn. split_and!; [done| |done]. intros T [x Hx]. exists x. unfold member_in in *. by rewrite Hm1. }
  assert (∃ row, u_TenantID row = DefaultTenantID ∧ w1 = set_users w (<[id := row]> (w_users w))) as (row & Hrow & Hw1).
  { revert Eu. unfold upsert_user. case_match; [done|]. cbn [u_ID user]. rewrite Hid. intros [= <-]. eexists. split; [|reflexivity]. done. }
  rewrite run_bind. cbn [run call_out exec]. unfold scoped. rewrite default_ctx. cbn [TenantID].
  assert (w_users w1 !! id = Some row) as Hid1 by (subst w1; apply lookup_insert_eq).
  assert (∀ T, has_admin T w → has_admin T w1) as Had1.
  { intros T [x Hx]. exists x. unfold member_in in *. by rewrite Hm1. }
  pose proof (listed_alone id row w Hid Hrow) as Halone. rewrite <- Hw1 in Halone.
  set (listed := (map_to_list (users_of DefaultTenantID w1)).*2) in *.
  set (promote := match listed with [_] => AddMember (WithDefaultTenant false) AdminGroupID id | _ => Ret (Ok tt) end : api (result api_err unit)).
  assert (∃ r2 w2, run promote w1 = (Some r2, w2) ∧ accounts_ok w2 ∧ (∀ T, has_admin T w1 → has_admin T w2) ∧
            (is_Some (w_groups w !! AdminGroupID) → is_member DefaultTenantID AdminGroupID id w2 = bool_decide (users_of DefaultTenantID w = ∅)))
    as (r2 & w2 & Hrun & Hok2 & Had2 & Hb2).
  { assert (is_member DefaultTenantID AdminGroupID id w1 = false) as Hnot.
    { apply bool_decide_eq_false. rewrite Hm1. intros Hm. destruct (ok_members _ _ Hok _ _ _ Hm) as (u & Hu & _). by rewrite Hid in Hu. }
    destruct (Exists_alone listed) as [Hex|Hno].
    - assert (promote = AddMember (WithDefaultTenant false) AdminGroupID id) as -> by (destruct Hex as [v Hv]; unfold promote; by rewrite Hv).
      pose proof (run_AddMember (WithDefaultTenant false) _ AdminGroupID id row w1 (default_ctx false) Hok1 Hid1 Hrow) as HA.
      destruct (run (AddMember (WithDefaultTenant false) AdminGroupID id) w1) as [r2 w2] eqn:ErA. destruct HA as (? & ? & _ & Hmem & [r2' ->]). exists r2', w2. split_and!; try done.
      intros [g Hg]. rewrite bool_decide_true by by apply Halone. apply Hmem.
      revert ErA. unfold AddMember, and_ok. rewrite run_bind. cbn [run call_out exec]. unfold lift_state. rewrite default_ctx.
      unfold insert_member. rewrite Hm1. destruct (w_members w !! (AdminGroupID, id)) eqn:Em.
      { destruct (ok_members _ _ Hok _ _ _ Em) as (v & Hv & _). by rewrite Hid in Hv. }
      assert (is_Some (w_groups w1 !! AdminGroupID)) as Hg1 by (subst w1; cbn; by eauto).
      rewrite (bool_decide_true _ Hg1), (bool_decide_true (is_Some (w_users w1 !! id))) by eauto. cbn [andb].
      rewrite (bool_decide_true (AdminGroupID = AdminGroupID)) by done.
      cbn [run call_out exec]. unfold lift_state. rewrite default_ctx. by intros [= <- _].
    - assert (promote = Ret (Ok tt)) as ->.
      { unfold promote. destruct listed as [|v [|]]; [done| |done]. destruct Hno. by exists v. }
      eexists _, w1. split; [done|]. split_and!; try done. intros _. rewrite Hnot. symmetry. apply bool_decide_eq_false. by rewrite <- Halone. }
  rewrite run_bind. match goal with |- context [run ?p w1] => change p with promote end. rewrite Hrun. cbn. rewrite ?default_ctx. cbn. split_and!.
  - by eapply accounts_ok_frame; [..|exact Hok2].
  - intros T HT. by apply Had2, Had1.
  - intros u b [= <- <-]. unfold scoped. rewrite ?default_ctx. by split_and!.
Qed.

Lemma get_user_Ok t id w row :
  get_user t id w = Ok row → w_users w !! id = Some row ∧ u_TenantID row = TenantID t.
Proof. unfold get_user. destruct (w_users w !! id); [|done]. case_bool_decide; [|done]. by intros [= ->]. Qed.

(** What [UpdateUser] does to the group, before it writes the row. *)
Lemma sync_membership_spec ctx t id row b w :
  TenantFromContext (cx_tenant ctx) = Some t → accounts_ok w → w_users w !! id = Some row → u_TenantID row = TenantID t →
  let '(r, w') := run (sync_membership ctx id b) w in
  accounts_ok w' ∧ (∀ T, has_admin T w → has_admin T w') ∧
  (∃ row', w_users w' !! id = Some row' ∧ u_TenantID row' = TenantID t) ∧
  (r = Some (Ok (Success tt)) → is_member (TenantID t) AdminGroupID id w' = b).
Proof.
  intros Hctx Hok Hid Ht. unfold sync_membership. destruct b.
  - unfold and_ok. rewrite run_bind. pose proof (run_AddMember _ t AdminGroupID id row w Hctx Hok Hid Ht) as H.
    destruct (run (AddMember (cx_tenant ctx) AdminGroupID id) w) as [r w'].
    destruct H as (? & ? & ? & Hm & [[[]|e] ->]); cbn; split_and!; try done. intros _. by apply Hm.
  - rewrite run_bind. pose proof (run_RemoveMember _ t AdminGroupID id row w Hctx Hok Hid Ht) as H.
    destruct (run (RemoveMember (cx_tenant ctx) AdminGroupID id) w) as [r w'].
    destruct H as (? & ? & ? & Hm & [[[]|[]] ->]); cbn; split_and!; try done; intros _; apply Hm; by eauto.
Qed.

Lemma keeps_UpdateUser ctx id body w : accounts_ok w → keeps (UpdateUser ctx id body) w.
Proof.
  intros Hok. unfold UpdateUser. case_match; [by apply keeps_refl|]. unfold keeps. rewrite run_bind. cbn [run call_out exec].
  unfold scoped. destruct (TenantFromContext (cx_tenant ctx)) as [t|] eqn:Et; [|done].
  destruct (get_user t id w) as [row|[]] eqn:Eg; try done. apply get_user_Ok in Eg as [Hid Ht].
  pose proof (ok_ids _ _ Hok _ _ Hid) as Hrid. unfold and_ok at 1. rewrite run_bind.
  set (b := match ub_IsAdmin body with Some b => b | None => u_IsAdmin row end).
  set (change := match ub_IsAdmin body with Some b => sync_membership ctx (u_ID row) b | None => success tt end).
  assert (let '(r, w') := run change w in
    accounts_ok w' ∧ (∀ T, has_admin T w → has_admin T w') ∧
    (∃ row', w_users w' !! id = Some row' ∧ u_TenantID row' = TenantID t) ∧
    (r = Some (Ok (Success tt)) → is_member (TenantID t) AdminGroupID id w' = b)) as Hchange.
  { unfold change, b. destruct (ub_IsAdmin body) as [b'|].
    - rewrite Hrid. by apply (sync_membership_spec _ _ _ row).
    - cbn. split_and!; [done|done|by exists row|]. intros _. symmetry. rewrite <- Ht. by apply (ok_flag _ _ Hok). }
  destruct (run change w) as [[[[status msg|[]]|e]|] w1]; destruct Hchange as (Hok1 & Had1 & (row' & Hid1 & Ht1) & Hb); try done.
  set (user := match ub_DisplayName body with
               | Some name => set_display _ (sanitizeText name maxDisplayNameLen)
               | None => _
               end).
  assert (u_ID user = id ∧ u_IsAdmin user = b) as [Hu Hua].
  { unfold user, b. destruct (ub_IsAdmin body), (ub_DisplayName body); done. }
  unfold and_ok. rewrite run_bind. cbn [run call_out exec]. unfold lift_state. rewrite Et.
  destruct (upsert_ok t user w1 Hok1) as [Hok2 Hm2].
  { rewrite Hu. intros r Hr. rewrite Hid1 in Hr. by injection Hr as <-. }
  { rewrite Hu, Hua. symmetry. by apply Hb. }
  assert (∀ T, has_admin T w → has_admin T (upsert_user t user w1).2) as Had2.
  { intros T HT. destruct (Had1 T HT) as [x Hx]. exists x. unfold member_in in *. by rewrite Hm2. }
  destruct (upsert_user t user w1) as [[[]|e] w2]; [|done]. cbn. split; [|done].
  by eapply accounts_ok_frame; [..|exact Hok2].
Qed.

Lemma keeps_deny {A} ctx (p : handler A) w : accounts_ok w → keeps p w → keeps (denyIfNotAdmin ctx p) w.
Proof. intros Hok Hp. unfold denyIfNotAdmin. destruct (isAdmin ctx); [done|]. by apply keeps_refl. Qed.

Lemma keeps_AddSecurityGroupMember ctx g u w : accounts_ok w → keeps (AddSecurityGroupMember ctx g u) w.
Proof.
  intros Hok. apply keeps_deny; [done|]. unfold keeps. rewrite run_bind. cbn [run call_out exec].
  unfold scoped. destruct (TenantFromContext (cx_tenant ctx)) as [t|] eqn:Et; [|done].
  destruct (group_in t g w) as [|[]]; try done. rewrite run_bind. cbn [run call_out exec]. unfold scoped. rewrite Et.
  destruct (get_user t u w) as [row|[]] eqn:Eg; try done. apply get_user_Ok in Eg as [Hid Ht].
  unfold and_ok. rewrite run_bind. pose proof (run_AddMember _ t g u row w Et Hok Hid Ht) as H.
  destruct (run (AddMember (cx_tenant ctx) g u) w) as [r w']. destruct H as (Hok' & Had & _ & _ & [[[]|e] ->]); [|done].
  cbn. split; [|done]. by eapply accounts_ok_frame; [..|exact Hok'].
Qed.

(** Removing somebody who is not a user of the tenant removes nobody. *)
Lemma run_RemoveMember_stranger ctx g x w :
  accounts_ok w → (∀ t, TenantFromContext (cx_tenant ctx) = Some t → ∀ row, w_users w !! x = Some row → u_TenantID row ≠ TenantID t) →
  ∃ r, run (RemoveMember (cx_tenant ctx) g x) w = (Some (Err r), w).
Proof.
  intros Hok Hx. unfold RemoveMember.
  assert (∀ k, ∃ e, run (and_ok (call_out (DeleteMember (cx_tenant ctx) g x)) k) w = (Some (Err e : result api_err unit), w)) as Hdel.
  { intros k. unfold and_ok. rewrite run_bind. cbn [run call_out exec]. unfold lift_state.
    destruct (TenantFromContext (cx_tenant ctx)) as [t|] eqn:Et; [|by eexists]. unfold delete_member.
    destruct (is_member (TenantID t) g x w) eqn:Em; [|by eexists]. exfalso. apply bool_decide_eq_true in Em.
    destruct (ok_members _ _ Hok _ _ _ Em) as (u & Hu & Htu). by eapply Hx. }
  case_bool_decide; [|apply Hdel]. unfold and_ok at 1. rewrite run_bind. cbn [run call_out exec].
  destruct (scoped _ _) as [n|e]; [|by eexists]. case_bool_decide; [by eexists|]. apply Hdel.
Qed.

Lemma keeps_RemoveSecurityGroupMember ctx g x w : accounts_ok w → keeps (RemoveSecurityGroupMember ctx g x) w.
Proof.
  intros Hok. apply keeps_deny; [done|]. unfold keeps. rewrite run_bind.
  destruct (TenantFromContext (cx_tenant ctx)) as [t|] eqn:Et.
  - destruct (get_user t x w) as [row|e] eqn:Eg.
    + apply get_user_Ok in Eg as [Hid Ht]. pose proof (run_RemoveMember _ t g x row w Et Hok Hid Ht) as H.
      destruct (run (RemoveMember (cx_tenant ctx) g x) w) as [r w'].
      destruct H as (Hok' & Had & _ & _ & [[[]|[]] ->]); try done. cbn. split; [|done].
      by eapply accounts_ok_frame; [..|exact Hok'].
    + destruct (run_RemoveMember_stranger ctx g x w Hok) as [r ->]; [|by destruct r].
      intros t' [= <-]%(eq_trans (eq_sym Et)) row Hrow Heq. unfold get_user in Eg. rewrite Hrow, bool_decide_true in Eg; done.
  - destruct (run_RemoveMember_stranger ctx g x w Hok) as [r ->]; [by rewrite Et|by destruct r].
Qed.

Lemma keeps_DeleteSecurityGroup ctx id w : accounts_ok w → keeps (DeleteSecurityGroup ctx id) w.
Proof.
  intros Hok. apply keeps_deny; [done|]. unfold keeps, GroupsDelete, and_ok. rewrite !run_bind. cbn [run call_out exec].
  unfold scoped. destruct (TenantFromContext (cx_tenant ctx)) as [t|] eqn:Et; [|done].
  destruct (group_in t id w) as [g|e] eqn:Eg; [|by destruct e]. destruct (g_IsSystem g) eqn:Es; [done|].
  cbn [run call_out exec]. unfold lift_state. rewrite Et.
  destruct (delete_group_ok t id w Hok) as [Hok' Had].
  { intros ->. unfold group_in in Eg. destruct (w_groups w !! AdminGroupID) as [g'|] eqn:E; [|done].
    case_bool_decide; [|done]. injection Eg as ->. by rewrite (ok_system _ _ Hok _ E) in Es. }
  destruct (delete_group t id w) as [[[]|[]] w']; try done. cbn. split; [|done].
  by eapply accounts_ok_frame; [..|exact Hok'].
Qed.

Lemma keeps_CreateSecurityGroup ctx id name d w :
  accounts_ok w → id ≠ AdminGroupID → keeps (CreateSecurityGroup ctx id name d) w.
Proof.
  intros Hok Hid. apply keeps_deny; [done|]. case_bool_decide; [by apply keeps_refl|]. unfold keeps, and_ok. rewrite run_bind.
  cbn [run call_out exec]. unfold lift_state. destruct (TenantFromContext (cx_tenant ctx)) as [t|] eqn:Et; [|done].
  set (g := mk_group _ _ _ _ _).
  assert (accounts_ok (create_group t g w).2 ∧ w_members (create_group t g w).2 = w_members w) as [Hok' Hm].
  { unfold create_group. case_match; [done|]. cbn. split; [|done]. destruct Hok as [? ? ? Hsys]. split; cbn; try done.
    intros g'. rewrite lookup_insert_ne by done. apply Hsys. }
  destruct (create_group t g w) as [[[]|e] w']; cbn in Hok', Hm |- *;
    [|split; [done|]; intros T [y Hy]; exists y; unfold member_in in *; by rewrite Hm].
  assert (accounts_ok (set_audit w' (w_audit w' ++ [mk_audit (ContextUserID ctx) (lit "security_group.create") (uuid_String id)]))) as Hok2.
  { by eapply accounts_ok_frame; [..|exact Hok']. }
  destruct (scoped _ _); cbn; (split; [done|]); intros T [y Hy]; exists y; unfold member_in in *; cbn; by rewrite Hm.
Qed.

Lemma apart_bind {A B} (p : api A) (k : A → api B) : apart p → (∀ a, apart (k a)) → apart (p ≫= k).
Proof.
  intros Hp Hk. induction p as [a|R c k' IH|]; cbn; [apply Hk| |done]. destruct Hp as [Hc Hr].
  split; [exact Hc|]. intros r. apply IH, Hr.
Qed.

Lemma apart_Login ctx email password : apart (Login ToLower CheckPassword ctx email password).
Proof.
  unfold Login, and_ok. apply apart_bind; [|by intros [[|[]]|]].
  unfold checkCredentials. case_bool_decide; [done|]. apply apart_bind; [done|]. intros [|]; [|done].
  apply apart_bind; [done|]. intros [u|[]]; cbn; try (repeat split; done).
  destruct (CheckPassword _ _); cbn; repeat split; intros; repeat split.
Qed.

Lemma serve_keeps r w :
  accounts_ok w → fresh_ids r w →
  accounts_ok (run (serve r) w).2 ∧
  ((∀ ctx id, r ≠ ReqDeleteUser ctx id) → ∀ T, has_admin T w → has_admin T (run (serve r) w).2).
Proof.
  intros Hok Hf.
  assert ((∀ ctx id, r ≠ ReqDeleteUser ctx id) → keeps (serve r) w) as Hkeeps.
  { intros Hnd. destruct r; cbn [AccountClaims.serve]; apply keeps_status.
    - apply keeps_apart; [apply apart_Login|done].
    - unfold keeps, Register, and_ok. rewrite run_bind. pose proof (createAccount_spec id body w Hok Hf) as H.
      destruct (run (createAccount _ _ _ _) w) as [[[[|[]]|]|] w']; destruct H as (? & ? & _); done.
    - by apply keeps_UpdateUser.
    - by destruct (Hnd ctx id).
    - by apply keeps_CreateSecurityGroup.
    - by apply keeps_DeleteSecurityGroup.
    - by apply keeps_AddSecurityGroupMember.
    - by apply keeps_RemoveSecurityGroupMember. }
  split.
  - destruct r; try (unfold keeps in Hkeeps; destruct (run (serve _) w); by apply Hkeeps).
    cbn [AccountClaims.serve]. unfold status_of. rewrite run_bind.
    unfold DeleteUser, denyIfNotAdmin. destruct (isAdmin ctx); [|done]. unfold and_ok. rewrite run_bind. cbn [run call_out exec].
    unfold lift_state. destruct (TenantFromContext (cx_tenant ctx)) as [t|]; [|done].
    pose proof (delete_user_ok t id w Hok) as Hok'. destruct (delete_user t id w) as [[[]|e] w']; [|done].
    cbn. by eapply accounts_ok_frame; [..|exact Hok'].
  - intros Hnd. specialize (Hkeeps Hnd). unfold keeps in Hkeeps. destruct (run (serve r) w). apply Hkeeps.
Qed.

(** A request served on its own keeps every user's administrator flag equal to the
    membership in the Administrators group, and every membership with a user of
    its tenant; this holds of logins, registrations, updates and deletions of
    users, and of every change to groups and their members. *)
Theorem admin_flag_follows_group r w :
  accounts_ok w → fresh_ids r w → accounts_ok (run (serve r) w).2.
Proof. intros Hok Hf. by apply serve_keeps. Qed.

(** *** The last administrator, with failures *)

(** What the calls before have shown, when nothing ran in between: the group has
    more than one member, or the group asked for is not a system group. *)
Inductive guard := NoGuard | Counted (ctx : option Tenant) | Ordinary (id : uuid).

Definition guard_after {R} (c : api_call R) : R → guard :=
  match c in api_call R return R → guard with
  | CountMembers ctx g => λ r,
      match r with
      | Ok n => if bool_decide (g = AdminGroupID ∧ 1 < n) then Counted ctx else NoGuard
      | Err _ => NoGuard
      end
  | GroupsGet _ id => λ r, match r with Ok g => if g_IsSystem g then NoGuard else Ordinary id | Err _ => NoGuard end
  | _ => λ _, NoGuard
  end.

(** A member leaves the administrators' group only right after a count above one, a
    group is deleted only right after it was read as an ordinary one, and no user
    is deleted. *)
Definition call_guarded {R} (b : guard) (c : api_call R) : Prop :=
  match c with
  | DeleteMember ctx g _ => g = AdminGroupID → b = Counted ctx
  | GroupsDeleteRow _ id => b = Ordinary id
  | GroupsCreate _ g => g_ID g ≠ AdminGroupID
  | UsersDelete _ _ => False
  | _ => True
  end.

Fixpoint guarded {A} (b : guard) (p : api A) : Prop :=
  match p with
  | Ret _ | Panic => True
  | Do c k => call_guarded b c ∧ ∀ r, guarded (guard_after c r) (k r)
  end.

Definition system_group (w : world) : Prop := ∀ g, w_groups w !! AdminGroupID = Some g → g_IsSystem g = true.

Definition guard_holds (b : guard) (w : world) : Prop :=
  match b with
  | NoGuard => True
  | Counted ctx => ∀ t, TenantFromContext ctx = Some t → (1 < size (members_of (TenantID t) AdminGroupID w))%nat
  | Ordinary id => id ≠ AdminGroupID
  end.

Lemma guarded_more {A} b (p : api A) : guarded NoGuard p → guarded b p.
Proof.
  destruct p as [|R c k|]; cbn; try done. intros [Hc Hk]. split; [|done]. destruct c; cbn in *; try done.
  intros Hg. by specialize (Hc Hg).
Qed.

Lemma guarded_bind {A B} b (p : api A) (k : A → api B) :
  guarded b p → (∀ a, guarded NoGuard (k a)) → guarded b (p ≫= k).
Proof.
  intros Hp Hk. revert b Hp. induction p as [a|R c k' IH|]; intros b; cbn.
  - intros _. apply guarded_more, Hk.
  - intros [Hc Hr]. split; [done|]. intros r. apply IH, Hr.
  - done.
Qed.

Lemma guarded_and_ok {A B} b (p : api (result api_err A)) (k : A → api (result api_err B)) :
  guarded b p → (∀ a, guarded NoGuard (k a)) → guarded b (and_ok p k).
Proof. intros Hp Hk. apply guarded_bind; [done|]. by intros [a|e]; [apply Hk|]. Qed.

Lemma guarded_call {R} b (c : api_call R) : call_guarded b c → guarded b (call_out c).
Proof. done. Qed.

Lemma guarded_RemoveMember ctx g x : guarded NoGuard (RemoveMember ctx g x).
Proof.
  unfold RemoveMember. case_bool_decide as Hg; cbn; [|by split; [|intros [[]|]]].
  split; [done|]. intros [n|e]; cbn; [|done]. rewrite (bool_decide_ext (g = AdminGroupID ∧ 1 < n) (¬ n ≤ 1))
    by (split; [intros [_ ?]; lia|intros ?; split; [done|lia]]).
  rewrite bool_decide_not. case_bool_decide; [done|]. cbn. split; [done|]. by intros [[]|].
Qed.

#[local] Ltac guarded_tac :=
  repeat first
    [ done | apply guarded_RemoveMember | apply guarded_call; done | apply guarded_and_ok; [|intros ?] | apply guarded_bind; [|intros ?]
    | progress cbn [denyIfNotAdmin answer_ success] | case_match ].

Lemma guarded_GroupsDelete ctx id : guarded NoGuard (GroupsDelete ctx id).
Proof. unfold GroupsDelete. cbn. split; [done|]. intros [g|e]; cbn; [|done]. by destruct (g_IsSystem g); cbn. Qed.

Lemma guarded_checkCredentials ctx email password :
  guarded NoGuard (checkCredentials ToLower CheckPassword ctx email password).
Proof. unfold checkCredentials. guarded_tac. Qed.

Definition keeps_users (r : account_request) : Prop :=
  match r with
  | ReqDeleteUser _ _ => False
  | ReqCreateGroup _ id _ _ => id ≠ AdminGroupID
  | _ => True
  end.

Lemma guarded_serve r : keeps_users r → guarded NoGuard (serve r).
Proof.
  destruct r; cbn [AccountClaims.serve keeps_users]; intros Hr; unfold status_of; apply guarded_bind; try done.
  - unfold Login. apply guarded_and_ok; [apply guarded_checkCredentials|]. by intros [|[]].
  - unfold Register, createAccount, AddMember. guarded_tac.
  - unfold UpdateUser, sync_membership, AddMember. guarded_tac.
  - unfold CreateSecurityGroup, denyIfNotAdmin. guarded_tac.
  - unfold DeleteSecurityGroup. unfold denyIfNotAdmin. case_match; [|done]. apply guarded_bind; [apply guarded_GroupsDelete|].
    intros [[]|[]]; done.
  - unfold AddSecurityGroupMember, denyIfNotAdmin, AddMember. guarded_tac.
  - unfold RemoveSecurityGroupMember. unfold denyIfNotAdmin. case_match; [|done]. apply guarded_bind; [apply guarded_RemoveMember|].
    intros [[]|[]]; done.
Qed.

Lemma exec_guarded R (c : api_call R) b w T :
  call_guarded b c → guard_holds b w → system_group w → has_admin T w →
  guard_holds (guard_after c (exec c w).1) (exec c w).2 ∧ system_group (exec c w).2 ∧ has_admin T (exec c w).2.
Proof.
  intros Hc Hb Hs Ha. pose proof (exec_apart R c w) as Hx.
  destruct c; try (by destruct Hc);
    try (destruct Hx as (_ & Eg & Em); split; [done|]; unfold system_group, has_admin, member_in in *; by rewrite Eg, Em).
  all: try (cbn [exec guard_after] in *; unfold lift_state; destruct (TenantFromContext _) as [t|] eqn:Et; [|done]).
  - unfold upsert_user. by repeat case_match.
  - cbn. split; [|done]. unfold scoped. destruct (TenantFromContext ctx) as [t|]; [|done]. unfold group_in.
    destruct (w_groups w !! id) as [g|] eqn:Eg; [|done]. case_bool_decide; [|done]. destruct (g_IsSystem g) eqn:Ei; [done|].
    cbn. intros ->. by rewrite (Hs g Eg) in Ei.
  - unfold create_group. case_match; [done|]. cbn in Hc |- *. split; [done|]. split; [|done].
    intros g'. cbn. rewrite lookup_insert_ne by done. apply Hs.
  - cbn in Hc. subst b. cbn in Hb. unfold delete_group. destruct (group_in t id w); [|done]. cbn. split; [done|]. split.
    + intros g. cbn. intros [_ Hg]%lookup_delete_Some. by apply Hs.
    + destruct Ha as [x Hx']. exists x. unfold member_in in *. cbn. apply map_lookup_filter_Some. by split.
  - unfold insert_member. destruct (w_members w !! (group, user)) eqn:Em; [done|]. case_match; [|done]. cbn. split; [done|]. split; [done|].
    destruct Ha as [x Hx']. exists x. unfold member_in in *. cbn. rewrite lookup_insert_ne; [done|]. intros [= -> ->]. congruence.
  - unfold delete_member. destruct (is_member (TenantID t) group user w) eqn:Em; [|done]. cbn. split; [done|]. split; [done|].
    apply bool_decide_eq_true in Em. destruct Ha as [x Hx'].
    destruct (decide ((group, user) = (AdminGroupID, x))) as [[= -> ->]|Hne].
    + unfold member_in in Hx'. rewrite Em in Hx'. injection Hx' as <-. cbn in Hc. rewrite (Hc eq_refl) in Hb. by apply another_admin, Hb.
    + exists x. unfold member_in in *. cbn. by rewrite lookup_delete_ne.
  - cbn. split; [|done]. unfold scoped. destruct (TenantFromContext ctx) as [t|] eqn:Et; [|done]. case_bool_decide as Hn; [|done].
    destruct Hn as [-> Hn]. cbn. intros t' Et'. rewrite Et in Et'. injection Et' as <-. lia.
  - unfold sync_is_admin. by repeat case_match.
Qed.

Lemma guarded_worker l : Forall keeps_users l → guarded NoGuard (worker ParseAddress ToLower HashPassword CheckPassword l).
Proof.
  induction 1 as [|r l Hr _ IH]; [done|]. cbn [worker]. apply guarded_bind; [by apply guarded_serve|]. intros s.
  by apply guarded_bind; [apply IH|].
Qed.

(** The one worker and what it has just seen. *)
Definition governed {A} (T : uuid) (st : list (api A) * world) : Prop :=
  system_group st.2 ∧ has_admin T st.2 ∧ ∃ p b, st.1 = [p] ∧ guarded b p ∧ guard_holds b st.2.

Lemma governed_step {A} T (st st' : list (api A) * world) : governed T st → pool_step st st' → governed T st'.
Proof.
  intros (Hs & Ha & p & b & Hp & Hg & Hb) Hstep.
  inversion Hstep as [pool i R c k w Hi|pool i R c k r w Hi Hf|pool now w Hn|pool w]; subst; cbn [fst snd] in *; subst pool.
  - apply list_lookup_singleton_Some in Hi as [-> ->]. destruct Hg as [Hc Hk].
    destruct (exec_guarded R c b w T Hc Hb Hs Ha) as (Hb' & Hs' & Ha'). split; [done|]. split; [done|].
    eexists _, _. split; [done|]. split; [apply Hk|exact Hb'].
  - apply list_lookup_singleton_Some in Hi as [-> ->]. destruct Hg as [Hc Hk]. split; [done|]. split; [done|].
    eexists _, _. split; [done|]. split; [apply Hk|]. by destruct c; cbn in Hf |- *; simplify_eq.
  - split; [done|]. split; [done|]. exists p, b. by destruct b.
  - split; [done|]. split; [done|]. exists p, b. by destruct b.
Qed.

(** C30: One account request at a time, whatever database calls fail on the way, the
    administrators' group being a system group and no new group given its id: a
    tenant that has an administrator keeps one, at every moment, as long as no
    request deletes a user; demoting, removing from the group and deleting groups
    never empty the administrators' group.  Requests that overlap can
    ([demotions_race]), and deleting a user can ([deleting_drops_last_admin]). *)
Theorem last_admin_kept l w st T :
  system_group w → Forall keeps_users l → has_admin T w →
  rtc pool_step ([worker ParseAddress ToLower HashPassword CheckPassword l], w) st → has_admin T st.2.
Proof.
  intros Hs Hl Ha Hsteps.
  assert (governed T ([worker ParseAddress ToLower HashPassword CheckPassword l], w)) as H0.
  { split; [done|]. split; [done|]. eexists _, NoGuard. split; [done|]. split; [by apply guarded_worker|done]. }
  assert (governed T st) as (_ & H & _); [|exact H].
  revert H0. induction Hsteps as [|x y z Hxy _ IH]; [done|]. intros Hx. by eapply IH, governed_step.
Qed.

(** A registration that succeeds makes an administrator exactly when the tenant
    had no user, and the account it answers with says so. *)
Theorem first_registration_governs id body w u b w' :
  accounts_ok w → w_users w !! id = None → is_Some (w_groups w !! AdminGroupID) →
  run (createAccount ParseAddress HashPassword id body) w = (Some (Ok (inr (u, b))), w') →
  b = bool_decide (users_of DefaultTenantID w = ∅) ∧ is_member DefaultTenantID AdminGroupID id w' = b.
Proof.
  intros Hok Hid Hg Hrun. pose proof (createAccount_spec id body w Hok Hid) as H. rewrite Hrun in H.
  destruct H as (_ & _ & Hspec). destruct (Hspec u b eq_refl) as (_ & -> & Hb). split; [by apply Hb|done].
Qed.
End serving.

(** ** Runs *)

Module Runs.
Definition uid (b : byte) : uuid := replicate 15 x00 ++ [b].
Definition account (b : byte) (email : string) (admin : bool) : User :=
  mk_user (uid b) DefaultTenantID (lit email) (lit "hash") [] admin 0 0.
Definition admins_group : SecurityGroup := mk_group AdminGroupID DefaultTenantID (lit "Administrators") [] true.

(** Users by their last byte, with the administrators among them. *)
Definition office (users : list User) : world :=
  mk_world 0 (list_to_map ((λ u, (u_ID u, u)) <$> users)) {[AdminGroupID := admins_group]}
    (list_to_map ((λ u, ((AdminGroupID, u_ID u), DefaultTenantID)) <$> List.filter u_IsAdmin users))
    ∅ ∅ ∅ ∅ ∅ ∅ [] [] [].

Definition as_user (b : byte) (admin : bool) : Ctx :=
  mk_ctx (Some (mk_tenant DefaultTenantID admin)) (Some (mk_claims (uid b) DefaultTenantID [] admin)).

Definition serve0 := serve (λ _, true) id (λ p, Ok p) (λ _ _, false).
Definition admins (w : world) : list uuid := (map_to_list (members_of DefaultTenantID AdminGroupID w)).*1.*2.

(** ErrLastAdmin is meant to keep a tenant from losing its last administrator;
    deleting the account does not look: the only administrator deletes itself, is
    answered 204, and nobody can administer the tenant. *)
Theorem deleting_drops_last_admin :
  let w := office [account x0a "root@x" true; account x0b "bob@x" false] in
  let '(status, w') := run (serve0 (ReqDeleteUser (as_user x0a true) (uid x0a))) w in
  admins w = [uid x0a] ∧ status = Some 204 ∧ admins w' = [].
Proof. by vm_compute. Qed.

(** Two administrators who demote each other at the same time both pass the count
    of the group before either leaves it. *)
Example demotions_race :
  let w := office [account x0a "root@x" true; account x0b "bob@x" true] in
  let demote by_ whom := serve0 (ReqUpdateUser (as_user by_ true) (uid whom) (mk_update (Some false) None)) in
  let '(pool, w') := run_schedule [0; 1; 0; 1; 0; 1; 0; 1; 0; 1; 0; 1]%nat [demote x0a x0b; demote x0b x0a] w in
  (length (admins w), answer pool 0, answer pool 1, admins w') = (2%nat, Some 200, Some 200, []).
Proof. by vm_compute. Qed.

(** The first user to register becomes the administrator; of two who register at
    the same time each finds the other's row and neither does, and no later
    registration finds the table with one user. *)
Example first_registrations_race :
  let register b email := serve0 (ReqRegister (uid b) (mk_register (lit email) (lit "password") None)) in
  let '(pool, w') := run_schedule [0; 1; 0; 1; 0; 1; 0; 1; 0; 1]%nat [register x0a "ann@x"; register x0b "bob@x"] (office []) in
  (answer pool 0, answer pool 1, admins w') = (Some 201, Some 201, []).
Proof. by vm_compute. Qed.

(** A user who saves a display name while an administrator demotes them writes the
    flag back that the demotion cleared. *)
Example stale_flag_written_back :
  let w := office [account x0a "root@x" true; account x0b "bob@x" true] in
  let rename := serve0 (ReqUpdateUser (as_user x0b false) (uid x0b) (mk_update None (Some (lit "Bob")))) in
  let demote := serve0 (ReqUpdateUser (as_user x0a true) (uid x0b) (mk_update (Some false) None)) in
  let '(pool, w') := run_schedule [0; 1; 1; 1; 1; 1; 1; 0; 0]%nat [rename; demote] w in
  (answer pool 0, answer pool 1, admins w', u_IsAdmin <$> w_users w' !! uid x0b) =
  (Some 200, Some 200, [uid x0a], Some true).
Proof. by vm_compute. Qed.

(** Twelve wrong guesses through two connections: the limiter lets eleven reach
    the password check where one connection would reach ten. *)
Definition guess : account_request := ReqLogin no_ctx (lit "root@x") (lit "wrong").
Example guesses_overlap :
  let w := office [account x0a "root@x" true] in
  let workers := [replicate 10 guess; [guess]] in
  let sched := replicate 27 0%nat ++ [0; 1; 0; 0; 1; 1]%nat in
  let '(pool, w') := run_schedule sched (worker (λ _, true) id (λ p, Ok p) (λ _ _, false) <$> workers) w in
  (login_count (normalizeEmail id (lit "root@x")) w', answer pool 1) = (11, Some [401]).
Proof. by vm_compute. Qed.

Lemma office_ok : accounts_ok (office [account x0a "root@x" true; account x0b "bob@x" false]).
Proof.
  set (w := office _).
  assert (map_Forall (λ id u, u_ID u = id ∧ u_IsAdmin u = is_member (u_TenantID u) AdminGroupID id w) (w_users w)) as Hu.
  { refine (bool_decide_eq_true_1 _ _). by vm_compute. }
  assert (map_Forall (λ k t, (u_TenantID <$> w_users w !! k.2) = Some t) (w_members w)) as Hm.
  { refine (bool_decide_eq_true_1 _ _). by vm_compute. }
  assert (w_groups w !! AdminGroupID = Some admins_group) as Hg by (by vm_compute).
  clearbody w. split.
  - intros id u H. by apply Hu.
  - intros id u _ H. by apply Hu.
  - intros g id t H. specialize (Hm _ _ H). cbn in Hm. destruct (w_users w !! id) as [u|]; [|done].
    injection Hm as <-. by exists u.
  - intros g. rewrite Hg. by intros [= <-].
Qed.

Lemma failed_logins_alike_witness :
  let r w := run (checkCredentials id (λ _ _, false) no_ctx (lit "root@x") (lit "wrong")) w in
  (r (office [])).1 = (r (office [account x0a "root@x" true])).1 ∧
  w_limiter (r (office [])).2 = w_limiter (r (office [account x0a "root@x" true])).2.
Proof.
  apply (failed_logins_alike id (λ _ _, false) no_ctx (lit "root@x") (lit "wrong") (office []) (office [account x0a "root@x" true]));
    by vm_compute.
Defined.

Lemma admin_flag_follows_group_witness :
  accounts_ok (run (serve0 (ReqAddMember (as_user x0a true) AdminGroupID (uid x0b)))
                 (office [account x0a "root@x" true; account x0b "bob@x" false])).2.
Proof. by apply (admin_flag_follows_group (λ _, true) id (λ p, Ok p) (λ _ _, false) _ _ office_ok). Defined.

Lemma last_admin_kept_witness :
  let w := office [account x0a "root@x" true; account x0b "bob@x" false] in
  let l := [ReqAddMember (as_user x0a true) AdminGroupID (uid x0b); ReqRemoveMember (as_user x0b true) AdminGroupID (uid x0a);
            ReqRemoveMember (as_user x0b true) AdminGroupID (uid x0b)] in
  let st := run_schedule (replicate 20 0%nat) [worker (λ _, true) id (λ p, Ok p) (λ _ _, false) l] w in
  answer st.1 0 = Some [204; 204; 409] ∧ has_admin DefaultTenantID st.2.
Proof.
  intros w l st. split; [by vm_compute|].
  apply (last_admin_kept (λ _, true) id (λ p, Ok p) (λ _ _, false) l w st DefaultTenantID).
  - intros g. assert (w_groups w !! AdminGroupID = Some admins_group) as -> by (by vm_compute). by intros [= <-].
  - repeat constructor.
  - exists (uid x0a). by vm_compute.
  - apply run_schedule_steps.
Defined.

Definition cat : RegisterBody := mk_register (lit "cat@x") (lit "password") None.
Definition small_office : world := office [account x0a "root@x" true; account x0b "bob@x" false].

Lemma first_registration_governs_witness :
  ∃ u w', run (createAccount (λ _, true) (λ p, Ok p) (uid x0c) cat) small_office = (Some (Ok (inr (u, false))), w') ∧
          is_member DefaultTenantID AdminGroupID (uid x0c) w' = false.
Proof.
  assert (match (run (createAccount (λ _, true) (λ p, Ok p) (uid x0c) cat) small_office).1 with
          | Some (Ok (inr _)) => true | _ => false end = true) as Hok by (by vm_compute).
  assert (w_users small_office !! uid x0c = None) as Hid by (by vm_compute).
  assert (w_groups small_office !! AdminGroupID = Some admins_group) as Hg by (by vm_compute).
  assert (bool_decide (users_of DefaultTenantID small_office = ∅) = false) as Hu by (by vm_compute).
  destruct (run (createAccount (λ _, true) (λ p, Ok p) (uid x0c) cat) small_office) as [[[[m|[u b]]|e]|] w'] eqn:E;
    try discriminate Hok.
  destruct (first_registration_governs (λ _, true) (λ p, Ok p) (uid x0c) cat small_office u b w'
              office_ok Hid (mk_is_Some _ _ Hg) E) as [Hb Hm].
  rewrite Hu in Hb. subst b. exists u, w'. split; [reflexivity|exact Hm].
Defined.
End Runs.
