(* ===== verification/Console.v ===== *)
(** * Console sign-ins

    [src/server/internal/api/session_cookie.go], [handlers_console_session.go], the
    authentication of [middleware.go] and [api.go], the rate-limit key of
    [ratelimit.go] and the sweep of [app/background.go]: the sealed cookie, the
    session behind it with its two limits and its forged-request value, the
    requests served under it.  The verification of a bearer token by the JWT
    library is a parameter: the claims it reads, or none. *)
From S2P Require Import Prelude GoTime GoStrings GoNet Sha256 Settings Dbtx Effect ProxyTrust ApiWorld Accounts.

Definition ConsoleIdleLimit : duration := 30 * minute.
Definition ConsoleTotalLimit : duration := 8 * hour.
Definition consoleTouchEvery : duration := minute.
Definition sessionIDBytes : Z := 32.
Definition consoleCookieName : bytes := lit "og_session".
(** As [Header.Get] writes it. *)
Definition csrfHeader : bytes := lit "X-Csrf-Token".

Record HttpRequest := mk_http {
  hr_Request : Request;
  hr_Method : bytes;
  hr_Host : bytes;
  hr_Cookies : list (bytes * bytes);
  hr_TLS : bool;
}.

Definition hr_Get (r : HttpRequest) (key : bytes) : bytes := header_Get (req_Header (hr_Request r)) key.

(** [r.Cookie(name)]: the first of that name. *)
Definition hr_Cookie (r : HttpRequest) (name : bytes) : option bytes :=
  snd <$> List.find (λ c, bool_decide (c.1 = name)) (hr_Cookies r).

(** ** The cookie *)

Definition cookieKey (secret : bytes) : bytes := hmac_sha256 secret (lit "og_session cookie").

Definition sealSessionID (secret id : bytes) : bytes :=
  EncodeToString id ++ x2e :: EncodeToString (hmac_sha256 (cookieKey secret) id).

Definition openSessionCookie (secret value : bytes) : option bytes :=
  '(idPart, macPart) ← Cut value x2e;
  id ← DecodeString idPart;
  if negb (bool_decide (blen id = sessionIDBytes)) then None
  else got ← DecodeString macPart;
       if bool_decide (got = hmac_sha256 (cookieKey secret) id) then Some id else None.

Record Cookie := mk_cookie { ck_Value : bytes; ck_MaxAge : Z; ck_Secure : bool }.

Definition reachedOverTLS (r : option HttpRequest) : bool :=
  match r with
  | None => true
  | Some r =>
      let proto := hr_Get r (lit "X-Forwarded-Proto") in
      if bool_decide (proto = []) then hr_TLS r else negb (bool_decide (proto = lit "http"))
  end.

(** ** A session *)

Record SessionBody := mk_body {
  b_User : User; b_TenantId : uuid; b_CsrfToken : bytes; b_IdleTimeoutSeconds : Z; b_ExpiresAt : time;
}.

Definition consoleSessionBody (user : User) (s : ConsoleSession) : SessionBody :=
  mk_body user (c_TenantID s) (c_CSRFToken s) (ConsoleIdleLimit `div` second) (c_StartedAt s + ConsoleTotalLimit).

(** [id] and [csrf] are the random tokens, [None] when the source of randomness
    fails. *)
Definition startConsoleSession (secret : bytes) (http : option HttpRequest) (id csrf : option bytes)
    (user : User) (isAdmin : bool) : api (result api_err (Cookie * SessionBody)) :=
  match id, csrf with
  | Some id, Some csrf =>
      now ← call_out Now;
      let session := mk_console (Sum256 id) (u_ID user) (u_TenantID user) (u_Email user) isAdmin
                       (EncodeToString csrf) now now in
      and_ok (call_out (ConsoleCreate session)) (λ _,
      Ret (Ok (mk_cookie (sealSessionID secret id) (ConsoleTotalLimit `div` second) (reachedOverTLS http),
               consoleSessionBody (set_admin user isAdmin) session)))
  | _, _ => Ret (Err ErrRand)
  end.

Inductive live_err := NoConsoleSession | LiveErr (e : api_err).

Definition liveConsoleSession (secret value : bytes) (idleCounts : bool) : api (result live_err ConsoleSession) :=
  match openSessionCookie secret value with
  | None => Ret (Err NoConsoleSession)
  | Some id =>
      got ← call_out (ConsoleGet (Sum256 id));
      match got with
      | Err ErrConsoleSessionNotFound => Ret (Err NoConsoleSession)
      | Err e => Ret (Err (LiveErr e))
      | Ok session =>
          now ← call_out Now;
          let idle := idleCounts && bool_decide (ConsoleIdleLimit ≤ time_sub now (c_LastSeenAt session)) in
          if idle || bool_decide (ConsoleTotalLimit ≤ time_sub now (c_StartedAt session))
          then _ ← call_out (ConsoleDelete (c_IDHash session)); Ret (Err NoConsoleSession)
          else Ret (Ok session)
      end
  end.

(** ** Authentication *)

Inductive auth_outcome :=
  (** The status, and whether the cookie is cleared. *)
  | Refused (status : Z) (msg : bytes) (cleared : bool)
  | Serve (ctx : Ctx) (session : option ConsoleSession).

Definition changesSomething (method : bytes) : bool :=
  negb (bool_decide (method = lit "GET") || bool_decide (method = lit "HEAD") || bool_decide (method = lit "OPTIONS")).

Definition claims_of (s : ConsoleSession) : Claims := mk_claims (c_UserID s) (c_TenantID s) (c_Email s) (c_IsAdmin s).

Definition console_ctx (s : ConsoleSession) : Ctx :=
  mk_ctx (Some (mk_tenant (c_TenantID s) (c_IsAdmin s))) (Some (claims_of s)).

Definition authenticateConsole (secret : bytes) (r : HttpRequest) : api auth_outcome :=
  match hr_Cookie r consoleCookieName with
  | None => Ret (Refused 401 (lit "missing authorization") false)
  | Some value =>
      live ← liveConsoleSession secret value true;
      match live with
      | Err _ => Ret (Refused 401 (lit "session expired") true)
      | Ok session =>
          if changesSomething (hr_Method r) && negb (bool_decide (hr_Get r csrfHeader = c_CSRFToken session))
          then Ret (Refused 403 (lit "missing or wrong X-CSRF-Token") false)
          else
            now ← call_out Now;
            _ ← (if bool_decide (consoleTouchEvery ≤ time_sub now (c_LastSeenAt session))
                 then call_out (ConsoleTouch (c_IDHash session) now) else Ret (Ok tt));
            Ret (Serve (console_ctx session) (Some session))
      end
  end.

Section bearer.
(** What the JWT library reads from a token it verifies. *)
Context (ParseWithClaims : bytes → option Claims).

Definition ValidateToken (token : bytes) : option Claims :=
  c ← ParseWithClaims token; if bool_decide (cl_TenantID c = Nil) then None else Some c.

(** [strings.EqualFold] with letters that fold only with their other case. *)
Definition ascii_lower (b : byte) : byte :=
  let v := Z_of_byte b in if bool_decide (65 ≤ v ≤ 90) then byte_of_Z (v + 32) else b.

Definition bearerToken (header : bytes) : bytes :=
  match Cut header x20 with
  | Some (scheme, token) => if bool_decide (ascii_lower <$> scheme = lit "bearer") then TrimSpace token else []
  | None => []
  end.

Definition Authorization : bytes := lit "Authorization".

Definition AuthMiddleware (r : HttpRequest) : auth_outcome :=
  let header := hr_Get r Authorization in
  if bool_decide (header = []) then Refused 401 (lit "missing authorization header") false
  else
    let token := bearerToken header in
    if bool_decide (token = []) then Refused 401 (lit "invalid authorization header") false
    else match ValidateToken token with
    | None => Refused 401 (lit "invalid token") false
    | Some c => Serve (mk_ctx (Some (mk_tenant (cl_TenantID c) (cl_IsAdmin c))) (Some c)) None
    end.

(** The schemes an operation declares decide. *)
Definition oapiAuthMiddleware (secret : bytes) (acceptsBearer acceptsCookie : bool) (r : HttpRequest) : api auth_outcome :=
  if negb acceptsBearer && negb acceptsCookie then Ret (Serve no_ctx None)
  else if acceptsBearer && negb (bool_decide (hr_Get r Authorization = [])) then Ret (AuthMiddleware r)
  else if acceptsCookie then authenticateConsole secret r
  else Ret (Refused 401 (lit "missing authorization") false).

(** ** The rate-limit key *)

Definition consoleSessionKeyFor (secret : bytes) (r : HttpRequest) : option bytes :=
  value ← hr_Cookie r consoleCookieName;
  id ← openSessionCookie secret value;
  Some (lit "session:" ++ EncodeToString (take 12 (Sum256 id))).

(** The key of [AccountRateLimiter]; [address] is the client's. *)
Definition account_key (secret address : bytes) (r : HttpRequest) : bytes :=
  match ValidateToken (bearerToken (hr_Get r Authorization)) with
  | Some c => lit "account:" ++ uuid_String (cl_UserID c)
  | None => match consoleSessionKeyFor secret r with
            | Some key => key
            | None => lit "address:" ++ address
            end
  end.
End bearer.

(** ** The endpoints *)

Section endpoints.
Context (secret : bytes) (http : option HttpRequest).
Context (ParseAddress : bytes → bool) (ToLower : bytes → bytes).
Context (HashPassword : bytes → result api_err bytes) (CheckPassword : bytes → bytes → bool).

Definition SignIn (id csrf : option bytes) (email password : bytes) : handler (Cookie * SessionBody) :=
  and_ok (checkCredentials ToLower CheckPassword no_ctx email password) (λ r,
  match r with
  | Answer status msg => answer_ status msg
  | Success (user, isAdmin) => and_ok (startConsoleSession secret http id csrf user isAdmin) success
  end).

Definition RegisterConsole (userID : uuid) (id csrf : option bytes) (body : RegisterBody) : handler (Cookie * SessionBody) :=
  and_ok (createAccount ParseAddress HashPassword userID body) (λ r,
  match r with
  | inl refused => answer_ 400 refused
  | inr (user, isAdmin) => and_ok (startConsoleSession secret http id csrf user isAdmin) success
  end).

Definition GetConsoleSession (ctx : Ctx) (session : option ConsoleSession) : handler SessionBody :=
  match session with
  | None => answer_ 401 (lit "no console session")
  | Some s =>
      and_ok (call_out (UsersGet (cx_tenant ctx) (c_UserID s))) (λ user,
      success (consoleSessionBody (set_admin user (c_IsAdmin s)) s))
  end.

Definition SignOut (session : option ConsoleSession) : handler Cookie :=
  match session with
  | None => answer_ 401 (lit "no console session")
  | Some s =>
      and_ok (call_out (ConsoleDelete (c_IDHash s))) (λ _,
      _ ← call_out (Audit (c_UserID s) (lit "user.logout") (c_Email s));
      success (mk_cookie [] (-1) (reachedOverTLS http)))
  end.
End endpoints.

(** One turn of the sweep loop. *)
Definition sweep_console : api (result api_err unit) :=
  at_ ← call_out Now; call_out (ConsoleExpire (at_ - ConsoleIdleLimit) (at_ - ConsoleTotalLimit)).

(** ** Live connections

    The loop of [registerAndWait] for a browser that came with a cookie: the ping
    renews the session, the recheck ends the connection when the session ended. *)
Definition renewLiveConsole (secret cookie : bytes) (renewedAt : time) : api time :=
  now ← call_out Now;
  if bool_decide (time_sub now renewedAt < consoleTouchEvery) then Ret renewedAt
  else match openSessionCookie secret cookie with
  | None => Ret renewedAt
  | Some id =>
      r ← call_out (ConsoleTouch (Sum256 id) now);
      Ret (match r with Ok _ => now | Err _ => renewedAt end)
  end.

Inductive live_event := SessionDone | Lifetime | Recheck | PingDone (answered : bool).

(** Why the loop returns: [None] is another turn, with the time of the last
    renewal. *)
Inductive live_end := LiveEnded | ConsoleEnded | PeerSilent.

Definition live_turn (secret : bytes) (console : option bytes) (e : live_event) (renewedAt : time) : api (live_end + time) :=
  match e with
  | SessionDone | Lifetime => Ret (inl LiveEnded)
  | Recheck =>
      match console with
      | None => Ret (inr renewedAt)
      | Some cookie =>
          r ← liveConsoleSession secret cookie false;
          Ret (match r with Err NoConsoleSession => inl ConsoleEnded | _ => inr renewedAt end)
      end
  | PingDone false => Ret (inl PeerSilent)
  | PingDone true =>
      match console with
      | None => Ret (inr renewedAt)
      | Some cookie => at_ ← renewLiveConsole secret cookie renewedAt; Ret (inr at_)
      end
  end.
