(* ===== verification/ConsoleClaims.v ===== *)
(** * What console sign-ins promise

    A cookie the server sealed opens to its id, and one that opens carries the
    server's seal ([cookie_sealed]); a request is served under a cookie exactly
    when the session is live and, for a change, the forged-request value is sent
    ([console_request_exact]); a session a request is served under was written
    within eight hours, was not signed out, and was used within thirty minutes,
    whatever ran beside ([console_session_bounded]); a user at work is not thrown
    out ([active_console_stays]); and the login limiter bounds the guesses at a
    password, at the API and at the console together ([login_failures_bounded]). *)
From S2P Require Import Prelude GoTime GoStrings GoNet Sha256 Settings Dbtx Effect ProxyTrust ApiWorld Budget Accounts AccountClaims Console.

#[global] Opaque hmac_sha256 Sum256.

(** ** The cookie *)

Lemma openSessionCookie_Some secret value id :
  openSessionCookie secret value = Some id ↔
  ∃ idPart macPart, value = idPart ++ x2e :: macPart ∧ (x2e ∉ idPart) ∧ DecodeString idPart = Some id ∧
    length id = 32%nat ∧ DecodeString macPart = Some (hmac_sha256 (cookieKey secret) id).
Proof.
  unfold openSessionCookie. split.
  - intros ([a b] & Hc & (id' & Hid & H)%bind_Some)%bind_Some. apply Cut_Some in Hc as [-> Hn].
    destruct (negb _) eqn:El; [done|]. apply negb_false_iff, bool_decide_eq_true in El.
    apply bind_Some in H as (got & Hgot & H). case_bool_decide as Hm; [|done]. injection H as ->. subst got.
    exists a, b. split_and!; try done. unfold blen, sessionIDBytes in El. lia.
  - intros (a & b & -> & Hn & Hid & Hl & Hm). rewrite (proj2 (Cut_Some _ _ a b)) by done. cbn.
    rewrite Hid. cbn. rewrite bool_decide_true by (unfold blen, sessionIDBytes; lia). cbn. rewrite Hm. cbn.
    by rewrite bool_decide_true.
Qed.

(** The cookie the server seals over a session id opens to that id; and a cookie
    that opens carries, beside the id, the HMAC of that id under the server's key. *)
Theorem cookie_sealed secret id value :
  (length id = 32%nat → openSessionCookie secret (sealSessionID secret id) = Some id) ∧
  (openSessionCookie secret value = Some id →
   ∃ idPart macPart, Cut value x2e = Some (idPart, macPart) ∧ DecodeString idPart = Some id ∧
                     DecodeString macPart = Some (hmac_sha256 (cookieKey secret) id)).
Proof.
  split.
  - intros Hl. apply openSessionCookie_Some. exists (EncodeToString id), (EncodeToString (hmac_sha256 (cookieKey secret) id)).
    split_and!; [done|apply EncodeToString_dotless|apply DecodeString_Encode|done|apply DecodeString_Encode].
  - intros (a & b & -> & Hn & Hid & _ & Hm)%openSessionCookie_Some. exists a, b. split_and!; try done.
    by apply Cut_Some.
Qed.

(** ** One request *)

Definition within (limit : duration) (now since : time) : bool := bool_decide (time_sub now since < limit).

Lemma within_lt limit now since : 0 < limit < i64_max → within limit now since = true ↔ now - since < limit.
Proof. intros Hl. unfold within. rewrite bool_decide_eq_true. unfold time_sub, i64_max in *. lia. Qed.

Lemma limit_passed a b : bool_decide (a ≤ b) = negb (bool_decide (b < a)).
Proof. repeat case_bool_decide; cbn; try done; lia. Qed.

(** The session a cookie names, when it is live. *)
Definition live_session (secret value : bytes) (idleCounts : bool) (w : world) : option ConsoleSession :=
  id ← openSessionCookie secret value;
  s ← w_console w !! Sum256 id;
  if (negb idleCounts || within ConsoleIdleLimit (w_now w) (c_LastSeenAt s)) &&
     within ConsoleTotalLimit (w_now w) (c_StartedAt s) then Some s else None.

(** Rows are kept under their hash. *)
Definition console_ok (w : world) : Prop := ∀ h s, w_console w !! h = Some s → c_IDHash s = h.

Lemma run_liveConsoleSession secret value idleCounts w :
  console_ok w →
  run (liveConsoleSession secret value idleCounts) w =
  match live_session secret value idleCounts w with
  | Some s => (Some (Ok s), w)
  | None => (Some (Err NoConsoleSession),
             match openSessionCookie secret value with
             | Some id => delete_console (Sum256 id) w
             | None => w
             end)
  end.
Proof.
  intros Hok. unfold liveConsoleSession, live_session. destruct (openSessionCookie secret value) as [id|]; [|done].
  cbn [mbind option_bind]. rewrite run_bind. cbn [run call_out exec]. unfold get_console.
  destruct (w_console w !! Sum256 id) as [s|] eqn:E; cbn.
  - rewrite (Hok _ _ E). unfold within. rewrite !limit_passed.
    destruct idleCounts, (bool_decide (time_sub (w_now w) (c_LastSeenAt s) < ConsoleIdleLimit)),
      (bool_decide (time_sub (w_now w) (c_StartedAt s) < ConsoleTotalLimit)); done.
  - unfold delete_console. rewrite delete_id by done. by destruct w.
Qed.

Definition touched (s : ConsoleSession) (w : world) : world :=
  if within consoleTouchEvery (w_now w) (c_LastSeenAt s) then w else touch_console (c_IDHash s) (w_now w) w.

Lemma console_request_run secret r w :
  console_ok w →
  run (authenticateConsole secret r) w =
  match hr_Cookie r consoleCookieName with
  | None => (Some (Refused 401 (lit "missing authorization") false), w)
  | Some value =>
      match live_session secret value true w with
      | None => (Some (Refused 401 (lit "session expired") true),
                 match openSessionCookie secret value with Some id => delete_console (Sum256 id) w | None => w end)
      | Some s =>
          if bool_decide (changesSomething (hr_Method r) = true → hr_Get r csrfHeader = c_CSRFToken s)
          then (Some (Serve (console_ctx s) (Some s)), touched s w)
          else (Some (Refused 403 (lit "missing or wrong X-CSRF-Token") false), w)
      end
  end.
Proof.
  intros Hok. unfold authenticateConsole. destruct (hr_Cookie r consoleCookieName) as [value|]; [|done].
  rewrite run_bind, run_liveConsoleSession by done. destruct (live_session secret value true w) as [s|]; [|done].
  set (csrf := hr_Get r csrfHeader). assert (bool_decide (changesSomething (hr_Method r) = true → csrf = c_CSRFToken s) =
    negb (changesSomething (hr_Method r) && negb (bool_decide (csrf = c_CSRFToken s)))) as ->.
  { destruct (changesSomething (hr_Method r)); cbn; repeat case_bool_decide; naive_solver. }
  destruct (changesSomething _ && _); [done|]. cbn [negb]. rewrite run_bind. cbn [run call_out exec]. rewrite run_bind.
  unfold touched, within. rewrite limit_passed.
  by destruct (bool_decide (time_sub (w_now w) (c_LastSeenAt s) < consoleTouchEvery)).
Qed.

(** C29: A request that comes with a session cookie is served exactly when the cookie
    names a live session and, if its method can change something, it repeats the
    session's forged-request value; it is then served under the user, tenant and
    rights of that session, whose idle clock is renewed, at most once a minute.
    Every other request is refused. *)
Theorem console_request_exact secret r w :
  console_ok w →
  run (authenticateConsole secret r) w =
  match hr_Cookie r consoleCookieName with
  | None => (Some (Refused 401 (lit "missing authorization") false), w)
  | Some value =>
      match live_session secret value true w with
      | None => (Some (Refused 401 (lit "session expired") true),
                 match openSessionCookie secret value with Some id => delete_console (Sum256 id) w | None => w end)
      | Some s =>
          if bool_decide (changesSomething (hr_Method r) = true → hr_Get r csrfHeader = c_CSRFToken s)
          then (Some (Serve (console_ctx s) (Some s)), touched s w)
          else (Some (Refused 403 (lit "missing or wrong X-CSRF-Token") false), w)
      end
  end.
Proof. apply console_request_run. Qed.

(** ** What happens to the table *)

Inductive console_stmt :=
  | CCreate (s : ConsoleSession)
  | CTouch (idHash : bytes) (at_ : time)
  | CDelete (idHash : bytes)
  | CExpire (idleBefore startedBefore : time)
  (** The user was deleted. *)
  | CUserGone (user : uuid).

Definition apply_stmt (m : gmap bytes ConsoleSession) (c : console_stmt) : gmap bytes ConsoleSession :=
  match c with
  | CCreate s => <[c_IDHash s := s]> m
  | CTouch h at_ => alter (λ s, with_last_seen s at_) h m
  | CDelete h => delete h m
  | CExpire ib sb => filter (λ kv, ¬ (c_LastSeenAt kv.2 < ib ∨ c_StartedAt kv.2 < sb)) m
  | CUserGone u => filter (λ kv, c_UserID kv.2 ≠ u) m
  end.

(** The statements a call runs on the table. *)
Definition stmts_of {R} (c : api_call R) (w : world) : list console_stmt :=
  match c with
  | ConsoleCreate s => if is_ok (create_console s w).1 then [CCreate s] else []
  | ConsoleTouch h at_ => [CTouch h at_]
  | ConsoleDelete h => [CDelete h]
  | ConsoleExpire ib sb => [CExpire ib sb]
  | UsersDelete ctx id => if is_ok (exec (UsersDelete ctx id) w).1 then [CUserGone id] else []
  | _ => []
  end.

Lemma exec_console R (c : api_call R) w :
  w_console (exec c w).2 = foldl apply_stmt (w_console w) (stmts_of c w).
Proof.
  destruct c; cbn; try done; unfold lift_state; try (destruct (TenantFromContext _) as [t|]; [|done]); cbn;
    unfold upsert_user, delete_user, create_group, delete_group, insert_member, delete_member, sync_is_admin,
      create_console, create_session, mark_outcome, delete_session, delete_relay_session, create_enroll,
      delete_enroll, increment_use, limiter_allowed; by repeat case_match.
Qed.

(** The steps of a pool, with the statements they run and when. *)
Inductive console_steps {A} : list (api A) * world → list (time * console_stmt) → list (api A) * world → Prop :=
  | cs_done st : console_steps st [] st
  | cs_call pool i R (c : api_call R) k w tr st :
      pool !! i = Some (Do c k) → console_steps (<[i := k (exec c w).1]> pool, (exec c w).2) tr st →
      console_steps (pool, w) ((pair (w_now w) <$> stmts_of c w) ++ tr) st
  | cs_fault pool i R (c : api_call R) k r w tr st :
      pool !! i = Some (Do c k) → fault c = Some r → console_steps (<[i := k r]> pool, w) tr st →
      console_steps (pool, w) tr st
  | cs_tick pool now w tr st :
      w_now w ≤ now → console_steps (pool, set_now w now) tr st → console_steps (pool, w) tr st
  | cs_cleanup pool w tr st : console_steps (pool, limiter_cleanup w) tr st → console_steps (pool, w) tr st.

Lemma console_steps_table {A} (st st' : list (api A) * world) tr :
  console_steps st tr st' → w_console st'.2 = foldl apply_stmt (w_console st.2) tr.*2.
Proof.
  induction 1 as [|pool i R c k w tr st Hi _ IH| | |]; try done. cbn [snd] in *.
  rewrite fmap_app, <- list_fmap_compose, foldl_app, IH, exec_console. f_equal. f_equal.
  symmetry. apply list_fmap_id.
Qed.

(** Every step of a pool is one of these. *)
Lemma console_steps_cover {A} (st st' : list (api A) * world) :
  rtc pool_step st st' → ∃ tr, console_steps st tr st'.
Proof.
  induction 1 as [st|st1 st2 st3 Hs _ [tr IH]]; [by exists []; constructor|].
  inversion Hs; subst; eexists; by econstructor.
Qed.

(** Where a row comes from. *)
Definition row_from (h : bytes) (s : ConsoleSession) (tr : list (time * console_stmt)) : Prop :=
  ∃ pre t0 s0 post, tr = pre ++ (t0, CCreate s0) :: post ∧ c_IDHash s0 = h ∧ s = with_last_seen s0 (c_LastSeenAt s) ∧
    (CDelete h ∉ post.*2) ∧ (CUserGone (c_UserID s0) ∉ post.*2) ∧
    (c_LastSeenAt s = c_LastSeenAt s0 ∨ ∃ t1, (t1, CTouch h (c_LastSeenAt s)) ∈ post).

Lemma row_from_snoc h s tr t c :
  row_from h s tr → c ≠ CDelete h → c ≠ CUserGone (c_UserID s) → row_from h s (tr ++ [(t, c)]).
Proof.
  intros (pre & t0 & s0 & post & -> & Hh & Hs & Hd & Hu & Ht) Hc Hg. exists pre, t0, s0, (post ++ [(t, c)]).
  rewrite <- app_assoc, app_comm_cons, fmap_app. cbn [fmap list_fmap snd]. split_and!; try done.
  - by rewrite not_elem_of_app, list_elem_of_singleton.
  - rewrite not_elem_of_app, list_elem_of_singleton. split; [done|]. intros <-. apply Hg. rewrite Hs. done.
  - destruct Ht as [Ht|[t1 Ht]]; [by left|right]. exists t1. rewrite elem_of_app. by left.
Qed.

Lemma rows_have_a_past tr h s : foldl apply_stmt ∅ tr.*2 !! h = Some s → row_from h s tr.
Proof.
  revert h s. induction tr as [|[t c] tr IH] using rev_ind; intros h s; [by cbn; rewrite lookup_empty|].
  rewrite fmap_app. cbn [fmap list_fmap snd]. rewrite foldl_snoc. set (m := foldl apply_stmt ∅ tr.*2) in *.
  destruct c as [s0|h' at_|h'|ib sb|u]; cbn [apply_stmt].
  - rewrite lookup_insert_Some. intros [[Hh <-]|[Hne Hm]].
    + exists tr, t, s0, []. split_and!; try done; [by destruct s0|set_solver..|by left].
    + by apply row_from_snoc; [apply IH| |].
  - rewrite lookup_alter_Some. intros [(<- & s0 & Hm & ->)|[Hne Hm]].
    + destruct (IH _ _ Hm) as (pre & t0 & s1 & post & -> & Hh & Hs & Hd & Hu & Ht).
      exists pre, t0, s1, (post ++ [(t, CTouch h' at_)]). rewrite <- app_assoc, app_comm_cons, fmap_app.
      cbn [fmap list_fmap snd with_last_seen c_LastSeenAt]. split_and!; try done.
      * by rewrite Hs.
      * rewrite not_elem_of_app, list_elem_of_singleton. by split.
      * rewrite not_elem_of_app, list_elem_of_singleton. by split.
      * right. exists t. rewrite elem_of_app, list_elem_of_singleton. by right.
    + by apply row_from_snoc; [apply IH| |].
  - rewrite lookup_delete_Some. intros [Hne Hm]. apply row_from_snoc; [by apply IH|congruence|done].
  - rewrite map_lookup_filter_Some. intros [Hm _]. by apply row_from_snoc; [apply IH| |].
  - rewrite map_lookup_filter_Some. cbn. intros [Hm Hne]. apply row_from_snoc; [by apply IH|done|congruence].
Qed.

(** ** The requests

    What comes in at the API and touches accounts or console sign-ins: the account
    requests, with a bearer token or under a cookie, signing in, registering and
    signing out at the console, the turns of a live connection, and the sweep. *)

Inductive member_request :=
  | MUpdateUser (id : uuid) (body : UpdateBody)
  | MDeleteUser (id : uuid)
  | MCreateGroup (id : uuid) (name : bytes) (description : option bytes)
  | MDeleteGroup (id : uuid)
  | MAddMember (group user : uuid)
  | MRemoveMember (group user : uuid).

Definition as_member (ctx : Ctx) (m : member_request) : account_request :=
  match m with
  | MUpdateUser id body => ReqUpdateUser ctx id body
  | MDeleteUser id => ReqDeleteUser ctx id
  | MCreateGroup id name d => ReqCreateGroup ctx id name d
  | MDeleteGroup id => ReqDeleteGroup ctx id
  | MAddMember g u => ReqAddMember ctx g u
  | MRemoveMember g u => ReqRemoveMember ctx g u
  end.

Inductive cookie_request := AskSession | AskSignOut | AskMember (m : member_request).

Inductive web_request :=
  | WebAccount (r : account_request)
  | WebSignIn (http : option HttpRequest) (id csrf : option bytes) (email password : bytes)
  | WebRegister (http : option HttpRequest) (user : uuid) (id csrf : option bytes) (body : RegisterBody)
  | WebCookie (http : HttpRequest) (ask : cookie_request)
  | WebLive (console : option bytes) (e : live_event) (renewedAt : time)
  | WebSweep.

Section web.
Context (secret : bytes) (ParseAddress : bytes → bool) (ToLower : bytes → bytes).
Context (HashPassword : bytes → result api_err bytes) (CheckPassword : bytes → bytes → bool).
#[local] Abbreviation serve := (serve ParseAddress ToLower HashPassword CheckPassword).

Definition cookie_serve (http : HttpRequest) (ask : cookie_request) (o : auth_outcome) : api Z :=
  match o with
  | Refused status _ _ => Ret status
  | Serve ctx session =>
      match ask with
      | AskSession => status_of 200 (GetConsoleSession ctx session)
      | AskSignOut => status_of 204 (SignOut (Some http) session)
      | AskMember m => serve (as_member ctx m)
      end
  end.

(** The status a request is answered with; a live connection and the sweep are not
    answered. *)
Definition web_serve (r : web_request) : api Z :=
  match r with
  | WebAccount r => serve r
  | WebSignIn http id csrf email password =>
      status_of 200 (SignIn secret http ToLower CheckPassword id csrf email password)
  | WebRegister http user id csrf body =>
      status_of 201 (RegisterConsole secret http ParseAddress HashPassword user id csrf body)
  | WebCookie http ask => o ← authenticateConsole secret http; cookie_serve http ask o
  | WebLive console e renewedAt => _ ← live_turn secret console e renewedAt; Ret 0
  | WebSweep => _ ← sweep_console; Ret 0
  end.

Fixpoint web_worker (l : list web_request) : api (list Z) :=
  match l with [] => Ret [] | r :: l => s ← web_serve r; rest ← web_worker l; Ret (s :: rest) end.

(** *** Every time a statement carries was read from the clock before *)

Definition stamped {R} (t : time) (c : api_call R) : Prop :=
  match c with
  | ConsoleCreate s => c_StartedAt s ≤ t ∧ c_LastSeenAt s ≤ t
  | ConsoleTouch _ at_ => at_ ≤ t
  | _ => True
  end.

Definition clock {R} (c : api_call R) : R → time → time :=
  match c in api_call R return R → time → time with Now => Z.max | _ => λ _ t, t end.

Fixpoint timely {A} (t : time) (p : api A) : Prop :=
  match p with
  | Ret _ | Panic => True
  | Do c k => stamped t c ∧ ∀ r, timely (clock c r t) (k r)
  end.

Lemma timely_later {A} t t' (p : api A) : t ≤ t' → timely t p → timely t' p.
Proof.
  revert t t'. induction p as [|R c k IH|]; intros t t' Ht; cbn; [done| |done]. intros [Hc Hk]. split.
  - destruct c; cbn in *; try done; lia.
  - intros r. eapply (IH r (clock c r t)); [|apply Hk]. destruct c; cbn; try lia.
Qed.

Lemma timely_bind {A B} t (p : api A) (k : A → api B) :
  timely t p → (∀ a t', t ≤ t' → timely t' (k a)) → timely t (p ≫= k).
Proof.
  intros Hp Hk. assert (∀ t1, t ≤ t1 → timely t1 p → timely t1 (p ≫= k)) as H; [|by apply H].
  clear Hp. induction p as [a|R c k' IH|]; intros t1 Ht; cbn; [by intros _; apply Hk| |done].
  intros [Hc Hr]. split; [done|]. intros r. apply IH, Hr. destruct c; cbn; lia.
Qed.

Lemma timely_and_ok {A B} t (p : api (result api_err A)) (k : A → api (result api_err B)) :
  timely t p → (∀ a t', t ≤ t' → timely t' (k a)) → timely t (and_ok p k).
Proof. intros Hp Hk. apply timely_bind; [done|]. by intros [a|e] t' Ht; [apply Hk|]. Qed.

Lemma timely_call {R} t (c : api_call R) : stamped t c → timely t (call_out c).
Proof. done. Qed.

#[local] Ltac timely_tac :=
  repeat first
    [ done | apply timely_call; done | apply timely_and_ok; [|intros ? ? ?] | apply timely_bind; [|intros ? ? ?]
    | progress cbn [answer_ success] | case_match ].

Lemma timely_checkCredentials t ctx email password : timely t (checkCredentials ToLower CheckPassword ctx email password).
Proof. unfold checkCredentials. timely_tac. Qed.

Lemma timely_serve t r : timely t (serve r).
Proof.
  destruct r; cbn [AccountClaims.serve]; unfold status_of; apply timely_bind; try done.
  - unfold Login. apply timely_and_ok; [apply timely_checkCredentials|]. by intros [|[]].
  - unfold Register, createAccount, AddMember. timely_tac.
  - unfold UpdateUser, sync_membership, AddMember, RemoveMember. timely_tac.
  - unfold DeleteUser, denyIfNotAdmin. timely_tac.
  - unfold CreateSecurityGroup, denyIfNotAdmin. timely_tac.
  - unfold DeleteSecurityGroup, denyIfNotAdmin, GroupsDelete. timely_tac.
  - unfold AddSecurityGroupMember, denyIfNotAdmin, AddMember. timely_tac.
  - unfold RemoveSecurityGroupMember, denyIfNotAdmin, RemoveMember. timely_tac.
Qed.

Lemma timely_startConsoleSession t http id csrf user admin :
  timely t (startConsoleSession secret http id csrf user admin).
Proof.
  unfold startConsoleSession. destruct id as [id|], csrf as [csrf|]; try done. cbn. split; [done|]. intros now.
  split; [cbn; lia|]. by intros [|].
Qed.

Lemma timely_liveConsoleSession t value idle : timely t (liveConsoleSession secret value idle).
Proof.
  unfold liveConsoleSession. destruct (openSessionCookie secret value); [|done]. cbn. split; [done|]. intros [s|[]]; try done.
  cbn. split; [done|]. intros now. destruct (_ || _); [|done]. cbn. by split.
Qed.

Lemma timely_authenticateConsole t http : timely t (authenticateConsole secret http).
Proof.
  unfold authenticateConsole. destruct (hr_Cookie http consoleCookieName); [|done].
  apply timely_bind; [apply timely_liveConsoleSession|]. intros [s|e] t' _; [|done]. destruct (_ && _); [done|]. cbn. split; [done|].
  intros now. apply timely_bind; [|done]. destruct (bool_decide _); [apply timely_call; cbn; lia|done].
Qed.

Lemma timely_web_serve t r : timely t (web_serve r).
Proof.
  destruct r as [r|http id csrf email password|http user id csrf body|http ask|console e renewedAt|]; cbn [web_serve].
  - apply timely_serve.
  - unfold status_of. apply timely_bind; [|done]. apply timely_and_ok; [apply timely_checkCredentials|].
    intros [|[user admin]] t' _; [done|]. by apply timely_and_ok; [apply timely_startConsoleSession|].
  - unfold status_of. apply timely_bind; [|done]. apply timely_and_ok; [unfold createAccount, AddMember; timely_tac|].
    intros [|[u admin]] t' _; [done|]. by apply timely_and_ok; [apply timely_startConsoleSession|].
  - apply timely_bind; [apply timely_authenticateConsole|]. intros [|ctx session] t' _; [done|]. cbn [cookie_serve].
    destruct ask; [| |apply timely_serve]; unfold status_of, GetConsoleSession, SignOut; timely_tac.
  - apply timely_bind; [|done]. destruct e as [| | |[]]; cbn [live_turn]; try done; destruct console as [cookie|]; try done.
    + apply timely_bind; [apply timely_liveConsoleSession|done].
    + apply timely_bind; [|done]. unfold renewLiveConsole. cbn. split; [done|]. intros now. case_bool_decide; [done|].
      destruct (openSessionCookie secret cookie); [|done]. cbn. split; [lia|done].
  - cbn. by repeat split.
Qed.

Lemma timely_web_worker t l : timely t (web_worker l).
Proof.
  revert t. induction l as [|r l IH]; intros t; [done|]. cbn [web_worker]. apply timely_bind; [apply timely_web_serve|].
  intros s t' _. by apply timely_bind; [apply IH|].
Qed.

Lemma exec_now R (c : api_call R) w : w_now (exec c w).2 = w_now w ∧ ∀ t, t ≤ w_now w → clock c (exec c w).1 t ≤ w_now w.
Proof.
  split; [|intros t Ht; destruct c; cbn; lia].
  destruct c; cbn; try done; unfold lift_state; try (destruct (TenantFromContext _) as [tn|]; [|done]); cbn;
    unfold upsert_user, delete_user, create_group, delete_group, insert_member, delete_member, sync_is_admin,
      create_console, create_session, mark_outcome, delete_session, delete_relay_session, create_enroll,
      delete_enroll, increment_use, limiter_allowed; by repeat case_match.
Qed.

Definition dated (x : time * console_stmt) : Prop :=
  match x.2 with
  | CCreate s => c_StartedAt s ≤ x.1 ∧ c_LastSeenAt s ≤ x.1
  | CTouch _ at_ => at_ ≤ x.1
  | _ => True
  end.

Lemma stmts_dated R (c : api_call R) w :
  stamped (w_now w) c → Forall (λ x, dated x ∧ x.1 = w_now w) (pair (w_now w) <$> stmts_of c w).
Proof. intros Hc. destruct c; cbn in *; repeat case_match; repeat constructor; cbn in *; tauto. Qed.

Lemma fault_clock R (c : api_call R) r t : fault c = Some r → clock c r t = t.
Proof. by destruct c. Qed.

Lemma console_steps_dated {A} (st st' : list (api A) * world) tr :
  console_steps st tr st' → Forall (timely (w_now st.2)) st.1 →
  w_now st.2 ≤ w_now st'.2 ∧ Forall (λ x, dated x ∧ x.1 ≤ w_now st'.2) tr.
Proof.
  induction 1 as [st|pool i R c k w tr st Hi _ IH|pool i R c k r w tr st Hi Hf _ IH|pool now w tr st Hn _ IH|pool w tr st _ IH];
    cbn [fst snd] in *; intros Hp.
  - split; [lia|constructor].
  - destruct (exec_now R c w) as [En Ec]. pose proof (Forall_lookup_1 _ _ _ _ Hp Hi) as [Hc Hk].
    destruct IH as [Hle Htr].
    { apply Forall_insert; [by rewrite En|]. rewrite En. eapply timely_later; [|apply Hk]. apply Ec. lia. }
    rewrite En in Hle. split; [done|]. apply Forall_app. split; [|done].
    eapply Forall_impl; [apply stmts_dated, Hc|]. intros x [Hx ->]. by split.
  - destruct IH as [Hle Htr]; [|done]. apply Forall_insert; [done|]. pose proof (Forall_lookup_1 _ _ _ _ Hp Hi) as [_ Hk].
    specialize (Hk r). by rewrite (fault_clock _ _ _ _ Hf) in Hk.
  - destruct IH as [Hle Htr]; [|cbn in Hle; split; [lia|done]]. eapply Forall_impl; [exact Hp|]. intros p. by apply timely_later.
  - by apply IH.
Qed.

Lemma console_ok_steps (workers : list (list web_request)) w0 tr st :
  w_console w0 = ∅ → console_steps (web_worker <$> workers, w0) tr st → console_ok st.2.
Proof.
  intros H0 Hsteps%console_steps_table h s. cbn in Hsteps. rewrite Hsteps, H0.
  intros (pre & t0 & s0 & post & _ & <- & -> & _)%rows_have_a_past. done.
Qed.

(** C16: In any interleaving of sign-ins, registrations, requests under a cookie,
    account requests, live connections, sweeps and database failures, from an empty
    table of sessions: a request that [authenticateConsole] then serves under a
    cookie comes with the cookie of a session that was written less than eight hours
    ago, for the same user, tenant and rights; nothing has signed it out or deleted
    its user since; and it was written, or renewed by a request or a live connection,
    less than thirty minutes ago. *)
Theorem console_session_bounded (workers : list (list web_request)) w0 tr st r ctx s w' :
  w_console w0 = ∅ → console_steps (web_worker <$> workers, w0) tr st →
  run (authenticateConsole secret r) st.2 = (Some (Serve ctx (Some s)), w') →
  ∃ value id pre t0 s0 post,
    hr_Cookie r consoleCookieName = Some value ∧ openSessionCookie secret value = Some id ∧
    tr = pre ++ (t0, CCreate s0) :: post ∧ c_IDHash s0 = Sum256 id ∧ ctx = console_ctx s0 ∧
    (CDelete (Sum256 id) ∉ post.*2) ∧ (CUserGone (c_UserID s0) ∉ post.*2) ∧
    0 ≤ w_now st.2 - t0 < 8 * hour ∧
    ∃ t1, (t1 = t0 ∨ ∃ at_, (t1, CTouch (Sum256 id) at_) ∈ post) ∧ 0 ≤ w_now st.2 - t1 < 30 * minute.
Proof.
  intros H0 Hsteps Hrun. pose proof (console_ok_steps _ _ _ _ H0 Hsteps) as Hok.
  destruct (console_steps_dated _ _ _ Hsteps) as [_ Hdated].
  { apply Forall_fmap, Forall_true. intros l. apply timely_web_worker. }
  apply console_steps_table in Hsteps. cbn in Hsteps. rewrite H0 in Hsteps.
  rewrite console_request_run in Hrun by done. destruct (hr_Cookie r consoleCookieName) as [value|]; [|done].
  destruct (live_session secret value true st.2) as [s1|] eqn:Hlive; [|done]. case_bool_decide; [|done].
  injection Hrun as <- <- _. unfold live_session in Hlive. apply bind_Some in Hlive as (id & Hid & (s' & Hs & Hl)%bind_Some).
  destruct (_ && _) eqn:E; [|done]. injection Hl as ->. apply andb_true_iff in E as [Hidle Htotal]. cbn in Hidle.
  rewrite Hsteps in Hs. destruct (rows_have_a_past _ _ _ Hs) as (pre & t0 & s0 & post & -> & Hh & Heq & Hd & Hu & Ht).
  apply Forall_app in Hdated as [_ [[[Hd1 Hd2] Hd3] Hpost]%Forall_cons]. cbn in Hd1, Hd2, Hd3.
  assert (0 < ConsoleTotalLimit < i64_max ∧ 0 < ConsoleIdleLimit < i64_max) as [Hb1 Hb2] by (by vm_compute).
  apply within_lt in Htotal; [|done]. apply within_lt in Hidle; [|done].
  rewrite Heq in Htotal. cbn in Htotal. unfold ConsoleTotalLimit, ConsoleIdleLimit in *.
  exists value, id, pre, t0, s0, post. split_and!; try done; [by rewrite Heq|lia|lia|].
  destruct Ht as [Ht|[t1 Ht]]; [exists t0; split; [by left|lia]|].
  destruct (proj1 (Forall_forall _ _) Hpost _ Ht) as [Hd4 Hd5]. cbn in Hd4, Hd5. exists t1. split; [|lia]. right. by eexists.
Qed.

(** *** Guesses at a password *)

(** A program that neither counts nor forgives a failed login. *)
Definition quiet_call {R} (c : api_call R) : Prop :=
  match c with LimiterFailure _ | LimiterReset _ => False | _ => True end.

Fixpoint quiet {A} (p : api A) : Prop :=
  match p with Ret _ | Panic => True | Do c k => quiet_call c ∧ ∀ r, quiet (k r) end.

Lemma quiet_bind {A B} (p : api A) (k : A → api B) : quiet p → (∀ a, quiet (k a)) → quiet (p ≫= k).
Proof.
  intros Hp Hk. induction p as [a|R c k' IH|]; cbn; [apply Hk| |done]. destruct Hp as [Hc Hr].
  split; [done|]. intros r. apply IH, Hr.
Qed.

Lemma quiet_and_ok {A B} (p : api (result api_err A)) (k : A → api (result api_err B)) :
  quiet p → (∀ a, quiet (k a)) → quiet (and_ok p k).
Proof. intros Hp Hk. apply quiet_bind; [done|]. by intros [a|e]; [apply Hk|]. Qed.

Lemma quiet_call_out {R} (c : api_call R) : quiet_call c → quiet (call_out c).
Proof. done. Qed.

#[local] Ltac quiet_tac :=
  repeat first
    [ done | apply quiet_call_out; done | apply quiet_and_ok; [|intros ?] | apply quiet_bind; [|intros ?]
    | progress cbn [answer_ success] | case_match ].

Lemma quiet_serve r : (∀ ctx email password, r ≠ ReqLogin ctx email password) → quiet (serve r).
Proof.
  intros Hr. destruct r; cbn [AccountClaims.serve]; [by destruct (Hr ctx email password)|..]; unfold status_of; apply quiet_bind; try done.
  - unfold Register, createAccount, AddMember. quiet_tac.
  - unfold UpdateUser, sync_membership, AddMember, RemoveMember. quiet_tac.
  - unfold DeleteUser, denyIfNotAdmin. quiet_tac.
  - unfold CreateSecurityGroup, denyIfNotAdmin. quiet_tac.
  - unfold DeleteSecurityGroup, denyIfNotAdmin, GroupsDelete. quiet_tac.
  - unfold AddSecurityGroupMember, denyIfNotAdmin, AddMember. quiet_tac.
  - unfold RemoveSecurityGroupMember, denyIfNotAdmin, RemoveMember. quiet_tac.
Qed.

Lemma quiet_startConsoleSession http id csrf user admin : quiet (startConsoleSession secret http id csrf user admin).
Proof. unfold startConsoleSession. quiet_tac. Qed.

Lemma quiet_liveConsoleSession value idle : quiet (liveConsoleSession secret value idle).
Proof. unfold liveConsoleSession. quiet_tac. Qed.

(** The email a request guesses a password for. *)
Definition guesses_at (r : web_request) : option (bytes * bytes) :=
  match r with
  | WebAccount (ReqLogin _ email password) | WebSignIn _ _ _ email password => Some (normalizeEmail ToLower email, password)
  | _ => None
  end.

Lemma quiet_web_serve r : guesses_at r = None → quiet (web_serve r).
Proof.
  destruct r as [r|http id csrf email password|http user id csrf body|http ask|console e renewedAt|]; cbn [web_serve]; intros Hr.
  - apply quiet_serve. intros ctx email password ->. done.
  - done.
  - unfold status_of. apply quiet_bind; [|done]. apply quiet_and_ok; [unfold createAccount, AddMember; quiet_tac|].
    intros [|[u admin]]; [done|]. by apply quiet_and_ok; [apply quiet_startConsoleSession|].
  - apply quiet_bind.
    + unfold authenticateConsole. destruct (hr_Cookie http consoleCookieName); [|done].
      apply quiet_bind; [apply quiet_liveConsoleSession|]. intros [s|e]; [|done]. quiet_tac.
    + intros [|ctx session]; [done|]. cbn [cookie_serve].
      destruct ask as [| |m]; [| |apply quiet_serve; by destruct m]; unfold status_of, GetConsoleSession, SignOut; quiet_tac.
  - apply quiet_bind; [|done]. destruct e as [| | |[]]; cbn [live_turn]; try done; destruct console as [cookie|]; try done.
    + apply quiet_bind; [apply quiet_liveConsoleSession|done].
    + apply quiet_bind; [|done]. unfold renewLiveConsole. quiet_tac.
  - unfold sweep_console. quiet_tac.
Qed.

Section guessing.
Context (key : bytes).
#[local] Abbreviation tok := (tokened any_call (login_granted key) (login_uses key)).

Lemma quiet_tokened {A} b (p : api A) : quiet p → tok b p.
Proof.
  revert b. induction p as [a|R c k IH|]; intros b; cbn; [done| |done]. intros [Hc Hk].
  assert (login_uses key R c = false) as -> by (by destruct c). split_and!; [done..|]. intros r. by apply IH.
Qed.

Lemma tok_web_serve r : tok false (web_serve r).
Proof.
  destruct (guesses_at r) as [[]|] eqn:E; [|by apply quiet_tokened, quiet_web_serve].
  destruct r as [r|http id csrf email password| | | |]; try done; cbn [web_serve]; [apply tok_serve|].
  unfold status_of. apply tok_then; [|done]. apply tok_and_ok; [apply tok_checkCredentials|].
  intros [|[u admin]]; [done|]. apply tok_and_ok; [|done]. apply quiet_tokened, quiet_startConsoleSession.
Qed.

(** The call forgives the email's failures. *)
Definition forgives {R} (c : api_call R) : bool :=
  match c with LimiterReset k => bool_decide (k = key) | _ => false end.

(** Whatever the program answers, [cnt] of it is at most [n] and the failures it
    counts for the email from here on; and it forgives none. *)
Fixpoint tallied {A} (cnt : A → Z) (n : Z) (p : api A) : Prop :=
  match p with
  | Ret a => cnt a ≤ n
  | Panic => True
  | @Do _ _ R c k => forgives c = false ∧ ∀ r, tallied cnt (n + Z.b2z (login_uses key R c)) (k r)
  end.

Lemma tallied_bind {A B} cntA cntB n (p : api A) (k : A → api B) :
  tallied cntA n p → (∀ a m, n ≤ m → cntA a ≤ m → tallied cntB m (k a)) → tallied cntB n (p ≫= k).
Proof.
  intros Hp Hk. assert (∀ m, n ≤ m → tallied cntA m p → tallied cntB m (p ≫= k)) as H; [|by apply H].
  clear Hp. induction p as [a|R c k' IH|]; intros m Hm; cbn; [by apply Hk| |done]. intros [Hc Hr].
  split; [done|]. intros r. apply IH, Hr. destruct (login_uses key R c); cbn; lia.
Qed.

Lemma tallied_shift {A} (cnt : A → Z) d n m (p : api A) :
  d + n ≤ m → tallied cnt n p → tallied (λ a, d + cnt a) m p.
Proof.
  revert n m. induction p as [a|R c k IH|]; intros n m Hm; cbn; [lia| |done]. intros [Hc Hk]. split; [done|].
  intros r. eapply IH, Hk. lia.
Qed.

Lemma quiet_tallied {A} (cnt : A → Z) n (p : api A) : (∀ a, cnt a ≤ n) → quiet p → tallied cnt n p.
Proof.
  intros Hn. induction p as [a|R c k IH|]; cbn; [done| |done]. intros [Hc Hk].
  assert (forgives c = false ∧ login_uses key R c = false) as [-> ->] by (by destruct c). split; [done|]. intros r.
  rewrite Z.add_0_r. by apply IH.
Qed.

(** A login of the email that is refused for its credentials. *)
Definition refusal (email : bytes) (r : result api_err (reply (User * bool))) : Z :=
  match r with Ok (Answer status _) => Z.b2z (bool_decide (email = key) && bool_decide (status = 401)) | _ => 0 end.

Lemma tallied_checkCredentials ctx email password :
  (normalizeEmail ToLower email = key → ∀ hash, CheckPassword hash password = false) →
  tallied (refusal (normalizeEmail ToLower email)) 0 (checkCredentials ToLower CheckPassword ctx email password).
Proof.
  intros Hw. unfold checkCredentials. case_bool_decide; [cbn; by rewrite andb_false_r|]. cbn. split; [done|].
  intros [|]; cbn; [|by rewrite andb_false_r]. split; [done|].
  assert (∀ n, 0 ≤ n → forgives (LimiterFailure (normalizeEmail ToLower email)) = false ∧
           ∀ _ : unit, tallied (refusal (normalizeEmail ToLower email))
                  (n + Z.b2z (bool_decide (normalizeEmail ToLower email = key))) (Ret (Ok refuse_login) : handler (User * bool))) as Hfail.
  { intros n Hn. split; [done|]. intros _. cbn [tallied refusal refuse_login]. rewrite (bool_decide_true (401 = 401)), andb_true_r by done. lia. }
  intros [u|[]]; try (cbn; lia); try (by apply Hfail).
  destruct (CheckPassword (u_PasswordHash u) password) eqn:Ec; cbn [negb]; [|by apply Hfail].
  assert (normalizeEmail ToLower email ≠ key) as Hne by (intros E; by rewrite (Hw E) in Ec).
  cbn. split; [by apply bool_decide_eq_false|]. intros _. split; [done|]. intros r. split; [done|]. intros _. cbn. lia.
Qed.

Definition refused_by (r : web_request) (status : Z) : Z :=
  match guesses_at r with
  | Some (email, _) => Z.b2z (bool_decide (email = key) && bool_decide (status = 401))
  | None => 0
  end.

(** Every password guessed for the email is wrong, whoever's it is tried against. *)
Definition wrong_guess (r : web_request) : Prop :=
  ∀ password, guesses_at r = Some (key, password) → ∀ hash, CheckPassword hash password = false.

Lemma tallied_web_serve r : wrong_guess r → tallied (refused_by r) 0 (web_serve r).
Proof.
  intros Hw. destruct (guesses_at r) as [[email' password']|] eqn:E.
  2: { apply quiet_tallied; [|by apply quiet_web_serve]. intros a. unfold refused_by. by rewrite E. }
  unfold wrong_guess in Hw. rewrite E in Hw. destruct r as [[ctx email password| | | | | | |]|http id csrf email password| | | |]; try done;
    injection E as <- <-; (assert (normalizeEmail ToLower email = key → ∀ hash, CheckPassword hash password = false) as Hw'
      by (intros <-; by apply Hw)); cbn [web_serve AccountClaims.serve]; unfold Login, SignIn, status_of, and_ok.
  - eapply (tallied_bind (λ r, match r with Ok (Answer status _) => Z.b2z (bool_decide (normalizeEmail ToLower email = key) && bool_decide (status = 401)) | _ => 0 end)).
    + eapply tallied_bind; [by apply tallied_checkCredentials|]. intros [[status msg|[u admin]]|e] m Hm Ha; cbn in Ha |- *; done.
    + intros [[status msg|c]|e] m Hm Ha; cbn in Ha |- *; rewrite ?andb_false_r; cbn; done.
  - eapply (tallied_bind (λ r, match r with Ok (Answer status _) => Z.b2z (bool_decide (normalizeEmail ToLower email = key) && bool_decide (status = 401)) | _ => 0 end)).
    + eapply tallied_bind; [by apply tallied_checkCredentials|]. intros [[status msg|[u admin]]|e] m Hm Ha; cbn in Ha |- *; try done.
      eapply (tallied_bind (λ _, 0)); [by apply quiet_tallied, quiet_startConsoleSession|]. by intros [|].
    + intros [[status msg|c]|e] m Hm Ha; cbn in Ha |- *; rewrite ?andb_false_r; cbn; done.
Qed.

Fixpoint refusals (l : list web_request) (answers : list Z) : Z :=
  match l, answers with r :: l, s :: answers => refused_by r s + refusals l answers | _, _ => 0 end.

Lemma tallied_web_worker l : Forall wrong_guess l → tallied (refusals l) 0 (web_worker l).
Proof.
  induction 1 as [|r l Hr _ IH]; [by cbn|]. cbn [web_worker].
  eapply tallied_bind; [by apply tallied_web_serve|]. intros s m Hm Hs.
  eapply tallied_bind; [eapply (tallied_shift _ (refused_by r s) 0); [|exact IH]; lia|].
  intros rest m' _ Hr'. exact Hr'.
Qed.

(** The logins of the email that the workers who are done saw refused. *)
Definition all_refusals (workers : list (list web_request)) (pool : list (api (list Z))) : Z :=
  sumZ (zip_with (λ l p, match p with Ret answers => refusals l answers | _ => 0 end) workers pool).

(** The failures of the email, if any, are counted since [start]. *)
Definition counted_since (start : time) (w : world) : Prop :=
  start ≤ w_now w ∧ ∀ e, w_limiter w !! key = Some e → start ≤ windowStart e.

Lemma in_window start now since : start ≤ since → now ≤ start + loginFailureWindow → ¬ loginFailureWindow < time_sub now since.
Proof. unfold time_sub, loginFailureWindow, i64_max, i64_min, minute, second. lia. Qed.

Lemma exec_counted R (c : api_call R) start w :
  counted_since start w → forgives c = false →
  counted_since start (exec c w).2 ∧
  (w_now w ≤ start + loginFailureWindow →
   login_count key (exec c w).2 = login_count key w + Z.b2z (login_uses key R c)).
Proof.
  intros [Hs He] Hf. destruct (exec_now R c w) as [En _]. pose proof (exec_limiter R c w) as Hx.
  destruct c; try (unfold counted_since, login_count; rewrite Hx, En; cbn; split; [done|lia]); cbn [exec fst snd forgives] in *.
  - unfold limiter_allowed, counted_since, login_count. destruct (w_limiter w !! key0) as [e|] eqn:E; [|by split; [|cbn; lia]].
    case_bool_decide as Hexp; cbn; [|by split; [|lia]]. split; [split; [done|]; by intros e' [_ ?]%lookup_delete_Some; apply He|].
    intros Hn. rewrite lookup_delete_ne; [lia|]. intros ->. by apply (in_window start) in Hexp; [|apply He|].
  - unfold limiter_failure, counted_since, login_count. cbn. split.
    + split; [done|]. intros e'. destruct (decide (key0 = key)) as [->|Hne]; [|by rewrite lookup_insert_ne by done; apply He].
      rewrite lookup_insert_eq. intros [= <-]. destruct (w_limiter w !! key) as [e|] eqn:E; [|done].
      case_bool_decide; [done|]. cbn. by apply He.
    + intros Hn. case_bool_decide as Hk; [subst key0|by rewrite lookup_insert_ne by done; cbn; lia]. rewrite lookup_insert_eq. cbn.
      destruct (w_limiter w !! key) as [e|] eqn:E; [|cbn; lia]. rewrite bool_decide_false; [cbn; lia|].
      eapply in_window; [by apply He|done].
  - apply bool_decide_eq_false in Hf. unfold limiter_reset, counted_since, login_count. cbn. rewrite lookup_delete_ne by done.
    split; [by split|]. lia.
Qed.

Definition tally_inv (start : time) (workers : list (list web_request)) (st : list (api (list Z)) * world) : Prop :=
  counted_since start st.2 ∧
  ∃ ws, ws.*1 = workers ∧ Forall2 (λ ln p, 0 ≤ ln.2 ∧ tallied (refusals ln.1) ln.2 p) ws st.1 ∧
    (w_now st.2 ≤ start + loginFailureWindow → sumZ ws.*2 ≤ login_count key st.2).

Lemma tally_replace (ws : list (list web_request * Z)) i l n n' : ws !! i = Some (l, n) →
  (<[i := (l, n')]> ws).*1 = ws.*1 ∧ sumZ (<[i := (l, n')]> ws).*2 = sumZ ws.*2 - n + n'.
Proof.
  intros Hi. rewrite !list_fmap_insert. split.
  - apply list_insert_id. by rewrite list_lookup_fmap, Hi.
  - apply sumZ_insert. by rewrite list_lookup_fmap, Hi.
Qed.

Lemma tally_step start workers st st' : tally_inv start workers st → pool_step st st' → tally_inv start workers st'.
Proof.
  intros (Hc & ws & Hws & Hp & Hn) Hstep.
  inversion Hstep as [pool i R c k w Hi|pool i R c k r w Hi Hf|pool now w Hnow|pool w]; subst; unfold tally_inv; cbn [fst snd] in *.
  - destruct (Forall2_lookup_r _ _ _ _ _ Hp Hi) as ([l n] & Hl & H0 & Hfg & Hk). cbn [fst snd] in *.
    destruct (exec_counted R c start w Hc Hfg) as [Hc' Hcount]. destruct (exec_now R c w) as [En _].
    destruct (tally_replace ws i l n (n + Z.b2z (login_uses key R c)) Hl) as [E1 E2]. split; [done|].
    exists (<[i := (l, n + Z.b2z (login_uses key R c))]> ws). split; [done|]. split.
    + apply Forall2_insert; [done|]. split; [destruct (login_uses key R c); cbn; lia|apply Hk].
    + rewrite En, E2. intros Hw. rewrite Hcount by done. specialize (Hn Hw). lia.
  - destruct (Forall2_lookup_r _ _ _ _ _ Hp Hi) as ([l n] & Hl & H0 & _ & Hk). cbn [fst snd] in *. split; [done|]. exists ws.
    split; [done|]. split; [|done]. rewrite <- (list_insert_id ws i (l, n) Hl). apply Forall2_insert; [done|]. split; [done|].
    specialize (Hk r). assert (login_uses key R c = false) as E by (by destruct c). rewrite E, Z.add_0_r in Hk. exact Hk.
  - split; [destruct Hc; split; [cbn; lia|done]|]. exists ws. split; [done|]. split; [done|]. cbn. intros Hw. apply Hn. lia.
  - destruct Hc as [Hs He]. split.
    + split; [done|]. intros e. cbn. intros [? _]%map_lookup_filter_Some. by apply He.
    + exists ws. split; [done|]. split; [done|]. cbn. intros Hw. specialize (Hn Hw). unfold login_count in *. cbn.
      destruct (w_limiter w !! key) as [e|] eqn:E.
      * rewrite (map_lookup_filter_Some_2 _ _ _ e E); [done|]. cbn. eapply in_window; [by apply He|done].
      * by rewrite (proj2 (map_lookup_filter_None _ _ _) (or_introl E)).
Qed.

Lemma refusals_tallied ws pool :
  Forall2 (λ ln p, 0 ≤ ln.2 ∧ tallied (refusals ln.1) ln.2 p) ws pool → all_refusals ws.*1 pool ≤ sumZ ws.*2.
Proof.
  unfold all_refusals, sumZ. induction 1 as [|[l n] p ws pool [H0 Ht] _ IH]; [done|]. cbn in *. destruct p; cbn in *; lia.
Qed.

Lemma tok_web_worker l : tokened any_call (login_granted key) (login_uses key) false (web_worker l).
Proof.
  induction l as [|r l IH]; [done|]. cbn [web_worker]. apply tok_then; [apply tok_web_serve|]. intros s.
  by apply tok_then; [apply IH|].
Qed.

(** C26: Whatever requests come in, at the API and at the console, from any number of
    addresses and in any order, and whatever the database fails, when at most [K] of
    them are served at a time, from a limiter that has counted nothing: at most [10 - 1 + K] failures stand counted against an
    email; and when every password tried for it is wrong, at most [10 - 1 + K] tries
    are refused for their credentials within the first fifteen minutes, the others
    being told to wait or left without an answer.  One request at a time, at most
    10. *)
Theorem login_failures_bounded (workers : list (list web_request)) (w : world) st :
  w_limiter w = ∅ → workers ≠ [] →
  rtc pool_step (web_worker <$> workers, w) st →
  login_count key st.2 ≤ loginMaxFailures - 1 + Z.of_nat (length workers) ∧
  (Forall (Forall wrong_guess) workers → w_now st.2 ≤ w_now w + loginFailureWindow →
   all_refusals workers st.1 ≤ loginMaxFailures - 1 + Z.of_nat (length workers)).
Proof.
  intros Hw Hne Hsteps.
  assert (login_count key st.2 ≤ loginMaxFailures - 1 + Z.of_nat (length workers)) as Hcount.
  { rewrite <- (length_fmap web_worker). eapply login_budget; [done|by destruct workers|..|exact Hsteps].
    apply Forall_fmap, Forall_true. intros l. apply tok_web_worker. }
  split; [done|]. intros Hwrong Hnow.
  assert (tally_inv (w_now w) workers (web_worker <$> workers, w)) as H0.
  { split; [split; [cbn; lia|]; cbn; rewrite Hw; intros e; by rewrite lookup_empty|].
    exists ((λ l, (l, 0)) <$> workers). rewrite <- !list_fmap_compose. split; [apply list_fmap_id|]. cbn. split.
    - apply Forall2_fmap_2. apply Forall_Forall2_diag. eapply Forall_impl; [exact Hwrong|]. intros l Hl. cbn.
      split; [done|]. by apply tallied_web_worker.
    - intros _. unfold login_count. rewrite Hw, lookup_empty. clear. unfold sumZ. induction workers as [|l ls IH]; [done|]. cbn in IH |- *. exact IH. }
  assert (tally_inv (w_now w) workers st) as (_ & ws & <- & Hp & Hn).
  { clear Hcount Hnow. revert H0. generalize (w_now w) as start. intros start H0. induction Hsteps as [|x y z Hxy _ IH]; [done|]. by eapply IH, tally_step. }
  specialize (Hn Hnow). pose proof (refusals_tallied _ _ Hp). lia.
Qed.
End guessing.
End web.

(** ** A user at work *)

Inductive visit := VRequest (t : time) (r : HttpRequest) | VSweep (t : time).

Definition served (o : option auth_outcome) : bool := match o with Some (Serve _ _) => true | _ => false end.

(** Whether each request is served, with sweeps in between. *)
Fixpoint run_visits (secret : bytes) (l : list visit) (w : world) : list bool :=
  match l with
  | [] => []
  | VRequest t r :: l =>
      let '(o, w) := run (authenticateConsole secret r) (set_now w t) in served o :: run_visits secret l w
  | VSweep t :: l => run_visits secret l (run sweep_console (set_now w t)).2
  end.

(** Requests with the cookie and the value, none later than twenty-nine minutes
    after the one before, all within eight hours of [start]; sweeps as they come. *)
Fixpoint at_work (cookie csrf : bytes) (start last : time) (l : list visit) : Prop :=
  match l with
  | [] => True
  | VRequest t r :: l =>
      last ≤ t < last + 29 * minute ∧ t < start + 8 * hour ∧
      hr_Cookie r consoleCookieName = Some cookie ∧ hr_Get r csrfHeader = csrf ∧ at_work cookie csrf start t l
  | VSweep t :: l => t < last + 29 * minute ∧ t < start + 8 * hour ∧ at_work cookie csrf start last l
  end.

(** The session is there, with an idle clock no more than a minute behind. *)
Definition holds_session (h csrf : bytes) (start last : time) (w : world) : Prop :=
  console_ok w ∧ ∃ s, w_console w !! h = Some s ∧ c_StartedAt s = start ∧ c_CSRFToken s = csrf ∧
    last - minute < c_LastSeenAt s ≤ last.

Lemma request_holds secret id cookie csrf start last t r w :
  openSessionCookie secret cookie = Some id → holds_session (Sum256 id) csrf start last w →
  last ≤ t < last + 29 * minute → t < start + 8 * hour →
  hr_Cookie r consoleCookieName = Some cookie → hr_Get r csrfHeader = csrf →
  let '(o, w') := run (authenticateConsole secret r) (set_now w t) in
  served o = true ∧ holds_session (Sum256 id) csrf start t w'.
Proof.
  intros Hid [Hok (s & Hs & Hst & Hc & Hl)] Ht Hend Hck Hcs.
  rewrite (console_request_run secret r (set_now w t) Hok), Hck.
  assert (0 < ConsoleTotalLimit < i64_max ∧ 0 < ConsoleIdleLimit < i64_max ∧ 0 < consoleTouchEvery < i64_max) as (Hb1 & Hb2 & Hb3) by (by vm_compute).
  assert (live_session secret cookie true (set_now w t) = Some s) as ->.
  { unfold live_session. rewrite Hid. cbn. rewrite Hs. cbn.
    rewrite (proj2 (within_lt _ t _ Hb2)), (proj2 (within_lt _ t _ Hb1)); [done|unfold ConsoleTotalLimit; lia|].
    unfold ConsoleIdleLimit. lia. }
  rewrite bool_decide_true by congruence. split; [done|]. unfold touched. cbn [w_now set_now].
  destruct (within consoleTouchEvery t (c_LastSeenAt s)) eqn:Ew.
  - apply within_lt in Ew; [|done]. unfold consoleTouchEvery in Ew. split; [done|]. exists s. split_and!; try done; lia.
  - rewrite (Hok _ _ Hs). split.
    + intros h s'. cbn. rewrite lookup_alter_Some. intros [(<- & s1 & H1 & ->)|[_ H1]]; [cbn; by apply Hok|by apply Hok].
    + exists (with_last_seen s t). cbn. rewrite lookup_alter_eq, Hs. split_and!; try done. unfold minute, second. lia.
Qed.

Lemma sweep_holds h csrf start last t w :
  holds_session h csrf start last w → t < last + 29 * minute → t < start + 8 * hour →
  holds_session h csrf start last (run sweep_console (set_now w t)).2.
Proof.
  intros [Hok (s & Hs & Hst & Hc & Hl)] Ht Hend. cbn. split.
  - intros h' s' [H1 _]%map_lookup_filter_Some. by apply Hok.
  - exists s. split_and!; try done; try lia. apply map_lookup_filter_Some. split; [done|]. cbn.
    unfold ConsoleIdleLimit, ConsoleTotalLimit. lia.
Qed.

(** A user who signs in and comes back at least every twenty-nine minutes is
    served at each request until the eight hours are over; no sweep in between
    ends the session. *)
Theorem active_console_stays secret id cookie csrf start l w :
  openSessionCookie secret cookie = Some id →
  holds_session (Sum256 id) csrf start start w → at_work cookie csrf start start l →
  Forall (λ b, b = true) (run_visits secret l w).
Proof.
  intros Hid. generalize start at 2 4 as last. intros last.
  revert last w. induction l as [|[t r|t] l IH]; intros last w Hw; cbn [run_visits at_work]; [by constructor| |].
  - intros (Ht & Hend & Hck & Hcs & Hl). pose proof (request_holds secret id cookie csrf start last t r w Hid Hw Ht Hend Hck Hcs) as H.
    destruct (run (authenticateConsole secret r) (set_now w t)) as [o w']. destruct H as [Ho Hw'].
    constructor; [done|]. by apply (IH t).
  - intros (Ht & Hend & Hl). apply (IH last); [|done]. by apply sweep_holds.
Qed.

(** ** Runs *)

Module Signed.
Import AccountClaims.Runs.

Definition secret : bytes := lit "signing secret".
Definition sid : bytes := replicate 32 x07.
Definition csrf : bytes := EncodeToString (replicate 32 x09).
Definition cookie : bytes := sealSessionID secret sid.
Definition root : User := account x0a "root@x" true.
Definition start_root : api (result api_err (Cookie * SessionBody)) :=
  startConsoleSession secret None (Some sid) (Some (replicate 32 x09)) root true.
Definition signed_in : world := (run_schedule [0; 0]%nat [start_root] (office [root])).2.
Definition post (token : bytes) : HttpRequest :=
  mk_http (mk_Request [] {[csrfHeader := [token]]}) (lit "POST") (lit "console.example") [(consoleCookieName, cookie)] true.

Lemma signed_ok : console_ok signed_in.
Proof.
  assert (map_Forall (λ h s, c_IDHash s = h) (w_console signed_in)) as H.
  { refine (bool_decide_eq_true_1 _ _). by vm_compute. }
  intros h s Hs. by apply H.
Qed.

(** A change is served with the forged-request value, and refused without it. *)
Lemma console_request_exact_witness :
  (run (authenticateConsole secret (post csrf)) signed_in).1 =
    Some (Serve (mk_ctx (Some (mk_tenant DefaultTenantID true))
                   (Some (mk_claims (uid x0a) DefaultTenantID (lit "root@x") true))) (w_console signed_in !! Sum256 sid)) ∧
  (run (authenticateConsole secret (post [])) signed_in).1 = Some (Refused 403 (lit "missing or wrong X-CSRF-Token") false).
Proof.
  split.
  - pose proof (console_request_exact secret (post csrf) signed_in signed_ok) as E. set (p := run _ _) in *. rewrite E. vm_compute. reflexivity.
  - pose proof (console_request_exact secret (post []) signed_in signed_ok) as E. set (p := run _ _) in *. rewrite E. vm_compute. reflexivity.
Defined.

(** The same, as a request; every password is right. *)
Definition sign_in_web : api (list Z) :=
  web_worker secret (λ _, true) id (λ p, Ok p) (λ _ _, true)
    [WebSignIn None (Some sid) (Some (replicate 32 x09)) (lit "root@x") (lit "password")].
Definition signed_web : world := (run_schedule (replicate 8 0%nat) [sign_in_web] (office [root])).2.

Lemma console_session_bounded_witness :
  ∃ tr pre t0 s0 post, tr = pre ++ (t0, CCreate s0) :: post ∧ c_IDHash s0 = Sum256 sid ∧ 0 ≤ w_now signed_web - t0 < 8 * hour.
Proof.
  destruct (console_steps_cover _ _ (run_schedule_steps (replicate 8 0%nat) [sign_in_web] (office [root]))) as [tr Htr].
  assert (match (run (authenticateConsole secret (post csrf)) signed_web).1 with Some (Serve _ (Some _)) => true | _ => false end = true) as Hl
    by (by vm_compute).
  destruct (run (authenticateConsole secret (post csrf)) signed_web) as [[[|ctx [s|]]|] w'] eqn:El; try discriminate Hl.
  destruct (console_session_bounded secret (λ _, true) id (λ p, Ok p) (λ _ _, true)
              [[WebSignIn None (Some sid) (Some (replicate 32 x09)) (lit "root@x") (lit "password")]]
              (office [root]) tr _ (post csrf) ctx s w' eq_refl Htr El)
    as (value & id & pre & t0 & s0 & post & Hc & Ho & H1 & H2 & _ & _ & _ & H3 & _).
  exists tr, pre, t0, s0, post. split; [exact H1|]. split; [|exact H3].
  assert (hr_Cookie (Signed.post csrf) consoleCookieName = Some cookie) as Hc' by (by vm_compute).
  assert (openSessionCookie secret cookie = Some sid) as Ho' by (by vm_compute).
  rewrite Hc' in Hc. injection Hc as <-. rewrite Ho' in Ho. injection Ho as <-. exact H2.
Defined.

(** Eleven guesses over two connections, one of them at the console. *)
Definition guess_web : web_request := WebAccount guess.
Definition guess_console : web_request := WebSignIn None None None (lit "root@x") (lit "wrong").
Definition guessers : list (list web_request) := [replicate 10 guess_web; [guess_console]].
Definition serve_web := web_worker secret (λ _, true) id (λ p, Ok p) (λ _ _, false).

Lemma login_failures_bounded_witness :
  let key := normalizeEmail id (lit "root@x") in
  let st := run_schedule (replicate 27 0%nat ++ [0; 1; 0; 0; 1; 1]%nat) (serve_web <$> guessers) (office [root]) in
  all_refusals id key guessers st.1 = 11 ∧ all_refusals id key guessers st.1 ≤ loginMaxFailures - 1 + 2.
Proof.
  intros key st. split; [by vm_compute|].
  apply (login_failures_bounded secret (λ _, true) id (λ p, Ok p) (λ _ _, false) key guessers (office [root]) st eq_refl
           (λ H, ltac:(discriminate H)) (run_schedule_steps _ _ _)).
  - repeat constructor.
  - by vm_compute.
Defined.

Lemma active_console_stays_witness :
  let visits := [VRequest (28 * minute) (post csrf); VSweep (50 * minute); VRequest (56 * minute) (post csrf)] in
  run_visits secret visits signed_in = [true; true] ∧ Forall (λ b, b = true) (run_visits secret visits signed_in).
Proof.
  intros visits. split; [by vm_compute|].
  assert (openSessionCookie secret cookie = Some sid) as Ho by (by vm_compute).
  assert (bool_decide ((λ s, (c_StartedAt s, c_CSRFToken s, c_LastSeenAt s)) <$> w_console signed_in !! Sum256 sid = Some (0, csrf, 0)) = true) as Hs by (by vm_compute).
  apply bool_decide_eq_true in Hs. destruct (w_console signed_in !! Sum256 sid) as [s|] eqn:E; [|discriminate Hs].
  injection Hs as H1 H2 H3.
  apply (active_console_stays secret sid cookie csrf 0 visits signed_in Ho).
  - split; [exact signed_ok|]. exists s. split; [exact E|]. split; [exact H1|]. split; [exact H2|]. rewrite H3. clear. unfold minute, second. lia.
  - assert (hr_Cookie (post csrf) consoleCookieName = Some cookie ∧ hr_Get (post csrf) csrfHeader = csrf) as [Hc1 Hc2].
    { split; vm_compute; reflexivity. }
    subst visits. generalize dependent (post csrf). intros r Hc1 Hc2. clear -Hc1 Hc2. cbn [at_work].
    unfold hour, minute, second. split_and!; auto; lia.
Defined.
End Signed.
