(* ===== verification/Sessions.v ===== *)
(** * Remote sessions and enrolment

    [src/server/internal/api]: opening, listing and ending the one session a host
    takes ([handlers_sessions.go], [usecase/session.go]), who may join its relay
    ([handlers_relay.go]) and the enrolment of machines by token
    ([handlers_enrollment.go]), as programs over the calls of [ApiWorld].  The
    random token of a session, whether the message to the agent arrives, and what
    issuing a certificate answers are inputs. *)
From S2P Require Import Prelude GoTime GoStrings Settings Dbtx Effect ProxyTrust ApiWorld Accounts Console.

(** ** Sessions *)

Definition reasonOpenedElsewhere : bytes := lit "Opened elsewhere".

Inductive create_reply :=
  | SessionCreated (token : bytes)
  (** The refusal that names the holder. *)
  | SessionHeld (holder : bytes) (startedAt : time).

Definition refuseHeldDevice (ctx : Ctx) (device : uuid) : handler create_reply :=
  held ← call_out (SessionsForDevice (cx_tenant ctx) device);
  match held with
  | Err ErrSessionNotFound => answer_ 409 (lit "the session on this host is ending; open it again")
  | Err e => Ret (Err e)
  | Ok s => success (SessionHeld (HolderName s) (CreatedAt s))
  end.

Definition CreateSession (ctx : Ctx) (device : uuid) (token : bytes) (arrives : bool) : handler create_reply :=
  found ← call_out (DevicesGet (cx_tenant ctx) device);
  match found with
  | Err ErrDeviceNotFound => answer_ 404 (lit "device not found")
  | Err e => Ret (Err e)
  | Ok _ =>
      agent ← call_out (GetAgent device);
      if negb agent then answer_ 409 (lit "agent not connected")
      else
        let userID := ContextUserID ctx in
        created ← call_out (SessionsCreate (cx_tenant ctx) token device userID);
        match created with
        | Err ErrDeviceHeld => refuseHeldDevice ctx device
        | Err e => Ret (Err e)
        | Ok replaced =>
            _ ← (if bool_decide (replaced = []) then Ret tt else call_out (RelayEnd replaced reasonOpenedElsewhere));
            sent ← call_out (SendSessionRequest device token arrives);
            match sent with
            | Err _ => _ ← call_out (SessionsDelete (cx_tenant ctx) token); answer_ 409 (lit "agent communication failed")
            | Ok _ =>
                _ ← call_out (Audit userID (lit "session.create") (uuid_String device));
                success (SessionCreated token)
            end
        end
  end.

Definition HandleListSessions (ctx : Ctx) (device : uuid) : handler (list Session) :=
  found ← call_out (DevicesGet (cx_tenant ctx) device);
  match found with
  | Err ErrDeviceNotFound => success []
  | Err e => Ret (Err e)
  | Ok _ =>
      held ← call_out (SessionsForDevice (cx_tenant ctx) device);
      match held with
      | Err ErrSessionNotFound => success []
      | Err e => Ret (Err e)
      | Ok s => success [s]
      end
  end.

(** [SessionService]: a token names the session, or a device whose one session it
    is. *)
Record DeleteSessionInput := mk_delete {
  in_Token : bytes; in_DeviceID : uuid; in_UserID : uuid; in_ActorName : bytes; in_IsAdmin : bool;
}.

Definition find (tenant : option Tenant) (i : DeleteSessionInput) : api (result api_err Session) :=
  if bool_decide (in_Token i = []) then call_out (SessionsForDevice tenant (in_DeviceID i))
  else call_out (SessionsGet tenant (in_Token i)).

(** [protocol.RedactToken]: the first eight characters. *)
Definition RedactToken (token : bytes) : bytes :=
  if bool_decide (blen token ≤ 8) then lit "***" else take 8 token ++ lit "...".

Definition Delete (tenant : option Tenant) (i : DeleteSessionInput) : api (result api_err unit) :=
  and_ok (find tenant i) (λ held,
  if negb (bool_decide (UserID held = in_UserID i)) && negb (in_IsAdmin i) then Ret (Err ErrForbidden)
  else
    and_ok (call_out (SessionsDelete tenant (Token held))) (λ _,
    _ ← call_out (RelayEnd (Token held) (lit "Ended by " ++ in_ActorName i));
    _ ← call_out (Audit (in_UserID i) (lit "session.delete") (RedactToken (Token held)));
    Ret (Ok tt))).

Definition displayName (ctx : Ctx) (userID : uuid) : api bytes :=
  r ← call_out (UsersGet (cx_tenant ctx) userID);
  Ret (match r with
       | Err _ => lit "another technician"
       | Ok u => if bool_decide (u_DisplayName u = []) then u_Email u else u_DisplayName u
       end).

(** [DeleteSession] by token, [EndDeviceSession] by device. *)
Definition end_session (ctx : Ctx) (token : bytes) (device : uuid) : handler unit :=
  let userID := ContextUserID ctx in
  name ← displayName ctx userID;
  r ← Delete (cx_tenant ctx) (mk_delete token device userID name (isAdmin ctx));
  match r with
  | Ok _ => success tt
  | Err ErrSessionNotFound => answer_ 404 (lit "session not found")
  | Err ErrForbidden => answer_ 403 (lit "only the session's holder or an administrator may end it")
  | Err e => Ret (Err e)
  end.

Definition DirectLinkOutcomes : list bytes := [lit "direct"; lit "no_route"; lit "unsupported"; lit "dropped"].

(** [slices.Index] *)
Fixpoint index_of (x : bytes) (l : list bytes) : option Z :=
  match l with
  | [] => None
  | y :: l => if bool_decide (x = y) then Some 0 else Z.succ <$> index_of x l
  end.

(** Whether the outcome is counted. *)
Definition ReportDirectLinkOutcome (ctx : Ctx) (token outcome : bytes) : handler bool :=
  match index_of outcome DirectLinkOutcomes with
  | None => answer_ 400 (lit "outcome must be direct, no_route, unsupported or dropped")
  | Some bit =>
      held ← call_out (SessionsGet (cx_tenant ctx) token);
      match held with
      | Err ErrSessionNotFound => answer_ 404 (lit "session not found")
      | Err e => Ret (Err e)
      | Ok s =>
          if negb (bool_decide (UserID s = ContextUserID ctx))
          then answer_ 403 (lit "only the session's holder reports how its direct link ended")
          else
            first ← call_out (SessionsMark (cx_tenant ctx) token bit);
            match first with
            | Err ErrSessionNotFound => answer_ 404 (lit "session not found")
            | Err e => Ret (Err e)
            | Ok b => success b
            end
      end
  end.

(** [Sweeper.Sweep]: the rows past the grace period whose token the relay does not
    hold; and what the application runs when the relay is done with a session. *)
Definition Sweep (grace : duration) (live : list bytes) : api (result api_err Z) :=
  now ← call_out Now; call_out (SessionsDeleteStale (now - grace) live).
Definition cleanupRelaySession (token : bytes) : api (result api_err unit) := call_out (SessionsDeleteRelay token).

(** ** The relay *)

Record browserAuth := mk_browserAuth { ba_ok : bool; ba_console : bytes }.
Definition no_auth : browserAuth := mk_browserAuth false [].

Inductive relay_side := SideBrowser | SideAgent.

(** [websocket] refusals close the connection after the upgrade. *)
Inductive relay_outcome :=
  | RelayRejected (reason : bytes)
  | RelayHttpError (status : Z)
  | RelayAccepted (side : relay_side) (console : bytes).

Section relay.
Context (ParseWithClaims : bytes → option Claims) (secret : bytes).
(** The host [url.Parse] reads, [None] when it fails, and [strings.EqualFold]. *)
Context (url_Host : bytes → option bytes) (EqualFold : bytes → bytes → bool).

Definition sameOrigin (r : HttpRequest) : bool :=
  let origin := hr_Get r (lit "Origin") in
  if bool_decide (origin = []) then true
  else match url_Host origin with
       | None => false
       | Some host => EqualFold host (hr_Host r)
       end.

Definition holds (c : Claims) (console sessionToken : bytes) : api browserAuth :=
  held ← call_out (SessionsGet (Some (mk_tenant (cl_TenantID c) (cl_IsAdmin c))) sessionToken);
  Ret (match held with
       | Ok s => if bool_decide (UserID s = cl_UserID c) then mk_browserAuth true console else no_auth
       | Err _ => no_auth
       end).

Definition authenticateBrowser (r : HttpRequest) (sessionToken : bytes) : api browserAuth :=
  let bearer := bearerToken (hr_Get r Authorization) in
  if negb (bool_decide (bearer = [])) then
    match ValidateToken ParseWithClaims bearer with
    | None => Ret no_auth
    | Some c => holds c [] sessionToken
    end
  else match hr_Cookie r consoleCookieName with
  | None => Ret no_auth
  | Some value =>
      live ← liveConsoleSession secret value true;
      match live with
      | Err _ => Ret no_auth
      | Ok s => holds (mk_claims (c_UserID s) (c_TenantID s) [] (c_IsAdmin s)) value sessionToken
      end
  end.

(** [side] is the query parameter. *)
Definition parseSide (r : HttpRequest) (side sessionToken : bytes) : api (relay_outcome) :=
  if bool_decide (side = lit "browser") then
    if negb (sameOrigin r) then Ret (RelayHttpError 403)
    else authed ← authenticateBrowser r sessionToken;
         if negb (ba_ok authed) then Ret (RelayRejected (lit "browser side requires authorization"))
         else Ret (RelayAccepted SideBrowser (ba_console authed))
  else if bool_decide (side = lit "agent") then Ret (RelayAccepted SideAgent [])
  else Ret (RelayRejected (lit "invalid side")).

(** The context of a relay request carries no tenant. *)
Definition validateRelayToken (ctx : option Tenant) (token : bytes) : api (result api_err Session) :=
  call_out (SessionsGet (or_any_tenant ctx) token).

Definition handleRelayWebSocket (r : HttpRequest) (side token : bytes) : api relay_outcome :=
  valid ← validateRelayToken None token;
  match valid with
  | Err ErrSessionNotFound => Ret (RelayRejected (lit "session not found"))
  | Err _ => Ret (RelayHttpError 500)
  | Ok _ => parseSide r side token
  end.
End relay.

(** ** Enrolment *)

(** [id] and [token] are random; the caller's choices have defaults. *)
Definition CreateEnrollmentToken (ctx : Ctx) (id : uuid) (token : option bytes) (label : option bytes)
    (maxUses expiresInHours : option Z) : handler EnrollmentToken :=
  denyIfNotAdmin ctx (
  match token with
  | None => Ret (Err ErrRand)
  | Some token =>
      now ← call_out Now;
      let et := mk_enroll id Nil token (match label with Some l => sanitizeText l maxLabelLen | None => [] end)
                  (ContextUserID ctx) (default 0 maxUses) 0 (now + i64 (default 24 expiresInHours * hour)) zero_time in
      and_ok (call_out (EnrollCreate (cx_tenant ctx) et)) (λ _,
      _ ← call_out (Audit (ContextUserID ctx) (lit "enrollment.create") (uuid_String id));
      success et)
  end).

Definition DeleteEnrollmentToken (ctx : Ctx) (id : uuid) : handler unit :=
  denyIfNotAdmin ctx (
  r ← call_out (EnrollDelete (cx_tenant ctx) id);
  match r with
  | Err ErrNotFound => answer_ 404 (lit "token not found")
  | Err e => Ret (Err e)
  | Ok _ => _ ← call_out (Audit (ContextUserID ctx) (lit "enrollment.delete") (uuid_String id)); success tt
  end).

(** The row, or the answer for the client. *)
Definition validateEnrollmentToken (ctx : Ctx) (token : bytes) : handler EnrollmentToken :=
  r ← call_out (EnrollGetByToken (cx_tenant ctx) token);
  match r with
  | Err ErrNotFound => answer_ 404 (lit "invalid enrollment token")
  | Err e => Ret (Err e)
  | Ok et =>
      now ← call_out Now;
      if bool_decide (e_ExpiresAt et < now) then answer_ 410 (lit "enrollment token expired")
      else if bool_decide (0 < e_MaxUses et) && bool_decide (e_MaxUses et ≤ e_UseCount et)
      then answer_ 410 (lit "enrollment token exhausted")
      else success et
  end.

(** [csr] is what the request in the body leads to, [None] the probe without one:
    the number chosen, or the error of issuing. *)
Definition Enroll (ctx : Ctx) (token : bytes) (csr : option (result api_err uuid)) : handler (option uuid) :=
  and_ok (validateEnrollmentToken ctx token) (λ v,
  match v with
  | Answer status msg => answer_ status msg
  | Success et =>
      match csr with
      | None => success None
      | Some chosen =>
          issued ← call_out (IssueDevice (e_ID et) chosen);
          match issued with
          | Err ErrInvalidRequest => answer_ 400 (lit "invalid enrollment request")
          | Err e => Ret (Err e)
          | Ok device =>
              and_ok (call_out (EnrollIncrement (cx_tenant ctx) (e_ID et))) (λ _, success (Some device))
          end
      end
  end).
