(* ===== verification/SessionClaims.v ===== *)
(** * What sessions and enrolment promise

    What opening a session answers and changes, on every branch
    ([create_session_exact]), over a table in which no two rows name one host
    whatever interleaves ([sessions_ok_steps]); only the holder or an administrator
    of the tenant ends it ([session_ended_by_right]) and only the holder's browser
    joins it ([browser_joins_own_session]); but the relay looks a token up in the
    default tenant only ([relay_refuses_other_tenants]).  Fewer certificates are
    issued under an enrolment token than its limit plus the requests in flight and
    the increments the database lost ([enrolments_bounded]), and more than its limit
    when two requests come at once ([single_use_token_enrols_two]). *)
From S2P Require Import Prelude GoTime GoStrings Settings Dbtx Effect ProxyTrust ApiWorld Budget Accounts AccountClaims Console ConsoleClaims Sessions.

(** ** One session per host *)

(** Rows are kept under their token, and no two name the same host. *)
Definition sessions_ok (w : world) : Prop :=
  (∀ tok r, w_sessions w !! tok = Some r → s_Token r = tok) ∧
  (∀ tok1 tok2 r1 r2, w_sessions w !! tok1 = Some r1 → w_sessions w !! tok2 = Some r2 →
     s_DeviceID r1 = s_DeviceID r2 → tok1 = tok2).

Lemma sessions_ok_sub w w' :
  (∀ tok r, w_sessions w' !! tok = Some r → w_sessions w !! tok = Some r) → sessions_ok w → sessions_ok w'.
Proof. intros Hsub [H1 H2]. split; naive_solver. Qed.

Lemma create_session_ok t token device user w : sessions_ok w → sessions_ok (create_session t token device user w).2.
Proof.
  intros Hok. unfold create_session. case_match; [done|]. destruct (_ || _) eqn:E; [done|]. cbn.
  apply orb_false_iff in E as [_ Hfree%bool_decide_eq_false].
  set (left := filter _ (w_sessions w)) in *.
  assert (∀ tok r, left !! tok = Some r → w_sessions w !! tok = Some r ∧ s_DeviceID r ≠ device) as Hleft.
  { intros tok r Hr. split; [by apply map_lookup_filter_Some in Hr as [? _]|]. intros Hd. apply Hfree. by exists tok, r. }
  destruct Hok as [H1 H2]. split; cbn.
  - intros tok r. rewrite lookup_insert_Some. intros [[-> <-]|[_ [Hr _]%Hleft]]; [done|by apply H1].
  - intros tok1 tok2 r1 r2. rewrite !lookup_insert_Some.
    intros [[<- <-]|[Hn1 [Hr1 Hd1]%Hleft]] [[<- <-]|[Hn2 [Hr2 Hd2]%Hleft]] Heq; cbn in *; try done.
    by eapply H2.
Qed.

Lemma exec_sessions_ok R (c : api_call R) w : sessions_ok w → sessions_ok (exec c w).2.
Proof.
  intros Hok. destruct c; cbn [exec snd]; unfold lift_state; try (destruct (TenantFromContext _) as [t|]; [|done]); cbn [snd]; try done;
    try (unfold upsert_user, delete_user, create_group, delete_group, insert_member, delete_member, sync_is_admin,
           create_console, create_enroll, delete_enroll, increment_use, limiter_allowed; by repeat case_match).
  - by apply create_session_ok.
  - unfold mark_outcome. destruct (w_sessions w !! token) as [r|] eqn:E; [|done]. do 2 (case_match; [try done|try done]). cbn.
    destruct Hok as [H1 H2]. split; cbn.
    + intros tok r'. rewrite lookup_insert_Some. intros [[<- <-]|[_ ?]]; [by apply H1 in E|by apply H1].
    + intros tok1 tok2 r1 r2. rewrite !lookup_insert_Some.
      intros [[<- <-]|[? ?]] [[<- <-]|[? ?]] Heq; try done; cbn in Heq; by eapply H2.
  - unfold delete_session. destruct (w_sessions w !! token); [|done]. case_match; [|done]. eapply sessions_ok_sub; [|done].
    cbn. by intros tok r [_ ?]%lookup_delete_Some.
  - unfold delete_relay_session. destruct (w_sessions w !! token); [|done]. eapply sessions_ok_sub; [|done].
    cbn. by intros tok r [_ ?]%lookup_delete_Some.
  - eapply sessions_ok_sub; [|done]. cbn. by intros tok r [? _]%map_lookup_filter_Some.
Qed.

(** However requests interleave and whatever fails, no two rows name one host: the
    unique index of the table, kept by every statement. *)
Lemma sessions_ok_steps {A} (st st' : list (api A) * world) : sessions_ok st.2 → rtc pool_step st st' → sessions_ok st'.2.
Proof.
  intros H0 Hsteps. revert H0. induction Hsteps as [|x y z Hxy _ IH]; [done|]. intros Hx. apply IH.
  inversion Hxy; subst; cbn in *; try done. by apply exec_sessions_ok.
Qed.

(** ** Opening and ending *)

(** The session open on a host. *)
Definition session_on (device : uuid) (w : world) (r : session_row) : Prop :=
  w_sessions w !! s_Token r = Some r ∧ s_DeviceID r = device.

Lemma session_on_unique device w r r' : sessions_ok w → session_on device w r → session_on device w r' → r = r'.
Proof.
  intros [_ H2] [Hr Hd] [Hr' Hd']. assert (s_Token r = s_Token r') as Heq by (eapply H2; eauto; congruence). congruence.
Qed.

Lemma create_held t token device user w r :
  session_on device w r → (s_UserID r ≠ user ∨ s_TenantID r ≠ TenantID t) →
  is_Some (w_devices w !! device) → is_Some (w_users w !! user) →
  create_session t token device user w = (Err ErrDeviceHeld, w).
Proof.
  intros [Hr Hd] Hne Hdev Huser. unfold create_session. rewrite (bool_decide_true _ Hdev), (bool_decide_true _ Huser). cbn [andb negb].
  rewrite (bool_decide_true (map_Exists _ _)), orb_true_r; [done|]. exists (s_Token r), r. split; [|done].
  apply map_lookup_filter_Some. split; [done|]. cbn. naive_solver.
Qed.

Lemma create_free t token device user w :
  (∀ tok r, w_sessions w !! tok = Some r → s_DeviceID r ≠ device) → w_sessions w !! token = None →
  is_Some (w_devices w !! device) → is_Some (w_users w !! user) →
  create_session t token device user w =
  (Ok [], set_sessions w (<[token := mk_session token (TenantID t) device user (w_now w) 0]> (w_sessions w))).
Proof.
  intros Hfree Htok Hdev Huser. unfold create_session. rewrite (bool_decide_true _ Hdev), (bool_decide_true _ Huser). cbn [andb negb].
  assert (filter (λ kv : bytes * session_row, ¬ (s_TenantID kv.2 = TenantID t ∧ s_DeviceID kv.2 = device ∧ s_UserID kv.2 = user)) (w_sessions w) = w_sessions w) as ->.
  { apply map_filter_id. intros tok r Hr. cbn. specialize (Hfree _ _ Hr). tauto. }
  assert (filter (λ kv : bytes * session_row, s_TenantID kv.2 = TenantID t ∧ s_DeviceID kv.2 = device ∧ s_UserID kv.2 = user) (w_sessions w) = ∅) as ->.
  { apply map_empty. intros tok. apply map_lookup_filter_None. right. intros r Hr. cbn. specialize (Hfree _ _ Hr). tauto. }
  rewrite Htok, (bool_decide_false (is_Some None)), (bool_decide_false (map_Exists _ _)); [done| |by intros [? ?]].
  intros (tok & r & Hr & Hd). by eapply Hfree.
Qed.

(** The caller's own session is replaced, and its token returned. *)
Lemma create_own t token device user w r :
  sessions_ok w → session_on device w r → s_UserID r = user → s_TenantID r = TenantID t →
  w_sessions w !! token = None → is_Some (w_devices w !! device) → is_Some (w_users w !! user) →
  create_session t token device user w =
  (Ok (s_Token r), set_sessions w (<[token := mk_session token (TenantID t) device user (w_now w) 0]> (delete (s_Token r) (w_sessions w)))).
Proof.
  intros Hok Hon Hu Ht Htok Hdev Huser. pose proof Hon as [Hr Hd]. unfold create_session.
  rewrite (bool_decide_true _ Hdev), (bool_decide_true _ Huser). cbn [andb negb].
  set (mine := λ r' : session_row, s_TenantID r' = TenantID t ∧ s_DeviceID r' = device ∧ s_UserID r' = user).
  assert (∀ tok r', w_sessions w !! tok = Some r' → mine r' ↔ tok = s_Token r) as Hmine.
  { intros tok r' Hr'. split.
    - intros (_ & Hd' & _). destruct Hok as [H1 H2]. by eapply H2; [exact Hr'|exact Hr|congruence].
    - intros ->. rewrite Hr in Hr'. injection Hr' as <-. by split_and!. }
  assert (filter (λ kv : bytes * session_row, ¬ mine kv.2) (w_sessions w) = delete (s_Token r) (w_sessions w)) as Hleft.
  { apply map_eq. intros tok. apply option_eq. intros r'. rewrite map_lookup_filter_Some, lookup_delete_Some. cbn.
    split; intros [Ha Hb]; split; try done; [|by rewrite (Hmine tok)]; intros <-. apply Hb. by eapply Hmine. }
  assert (filter (λ kv : bytes * session_row, mine kv.2) (w_sessions w) = {[s_Token r := r]}) as Hrepl.
  { apply map_eq. intros tok. apply option_eq. intros r'. rewrite map_lookup_filter_Some, lookup_singleton_Some. cbn. split.
    - intros [Hr' Hm]. apply (Hmine tok) in Hm as ->; [|done]. by rewrite Hr in Hr'; injection Hr' as ->.
    - intros [<- <-]. split; [done|]. by eapply Hmine. }
  unfold mine in Hleft, Hrepl. cbv beta in Hleft, Hrepl. rewrite Hleft, Hrepl, map_to_list_singleton. cbn [list_fmap fmap fst].
  assert (delete (s_Token r) (w_sessions w) !! token = None) as -> by (apply lookup_delete_None; by right).
  rewrite (bool_decide_false (is_Some None)), (bool_decide_false (map_Exists _ _)); [done| |by intros [? ?]].
  intros (tok & r' & [Hne Hr']%lookup_delete_Some & Hd'). apply Hne. destruct Hok as [_ H2]. symmetry. eapply H2; [done|done|congruence].
Qed.

Lemma session_for_device_Ok t device w r :
  sessions_ok w → w_sessions w !! s_Token r = Some r → s_TenantID r = TenantID t → s_DeviceID r = device →
  session_for_device t device w = Ok (read_session w r).
Proof.
  intros Hok Hr Ht Hd. unfold session_for_device.
  destruct (map_to_list _) as [|[tok r'] l] eqn:E; cbn.
  - exfalso. by apply map_to_list_empty_iff, map_filter_empty_not_lookup with (i := s_Token r) (x := r) in E.
  - assert ((tok, r') ∈ map_to_list (filter (λ kv : bytes * session_row, s_TenantID kv.2 = TenantID t ∧ s_DeviceID kv.2 = device) (w_sessions w))) as Hin
      by (rewrite E; by left).
    apply elem_of_map_to_list, map_lookup_filter_Some in Hin as [Hr' [_ Hd']]. cbn in Hd'.
    assert (r' = r) as ->; [|done]. apply (session_on_unique device w); [done| |by split]. split; [|done].
    destruct Hok as [H1 _]. by rewrite (H1 _ _ Hr').
Qed.

Section opening.
Context (ctx : Ctx) (t : Tenant) (device : uuid) (token : bytes) (w : world).
Hypothesis Htenant : TenantFromContext (cx_tenant ctx) = Some t.
Hypothesis Hsessions : sessions_ok w.
Hypothesis Hfresh : w_sessions w !! token = None.
Hypothesis Huser : is_Some (w_users w !! ContextUserID ctx).
(** A host's sessions are of its tenant, and tokens are not empty. *)
Hypothesis Hrows : ∀ r, session_on device w r → s_TenantID r = TenantID t ∧ s_Token r ≠ [].
#[local] Abbreviation user := (ContextUserID ctx).
#[local] Abbreviation row := (mk_session token (TenantID t) device user (w_now w) 0).

Lemma run_CreateSession arrives :
  w_devices w !! device = Some (TenantID t) → device ∈ w_agents w →
  run (CreateSession ctx device token arrives) w =
  let '(r, w1) := create_session t token device user w in
  match r with
  | Err ErrDeviceHeld => run (refuseHeldDevice ctx device) w1
  | Err e => (Some (Err e), w1)
  | Ok replaced =>
      let w2 := if bool_decide (replaced = []) then w1 else set_ended w1 (w_ended w1 ++ [(replaced, reasonOpenedElsewhere)]) in
      if arrives then (Some (Ok (Success (SessionCreated token))),
                       set_audit w2 (w_audit w2 ++ [mk_audit user (lit "session.create") (uuid_String device)]))
      else (Some (Ok (Answer 409 (lit "agent communication failed"))), (delete_session t token w2).2)
  end.
Proof using Htenant.
  intros Hdevice Hagent. unfold CreateSession. rewrite run_bind. cbn [run call_out exec]. unfold scoped. rewrite Htenant, bool_decide_true by done.
  rewrite run_bind. cbn [run call_out exec]. rewrite bool_decide_true by done. cbn [negb].
  rewrite run_bind. cbn [run call_out exec]. unfold lift_state at 1. rewrite Htenant.
  destruct (create_session t token device user w) as [[replaced|[]] w1]; try done.
  rewrite run_bind. case_bool_decide; cbn [run call_out exec]; rewrite run_bind; cbn [run call_out exec];
    (destruct arrives; [done|]); rewrite run_bind; cbn [run call_out exec]; unfold lift_state; rewrite Htenant;
    by destruct (delete_session _ _ _).
Qed.

Lemma run_refuseHeldDevice r : session_on device w r →
  run (refuseHeldDevice ctx device) w = (Some (Ok (Success (SessionHeld (holder_name (s_UserID r) w) (s_CreatedAt r)))), w).
Proof using Htenant Hsessions Hrows.
  intros Hon. destruct (Hrows r Hon) as [Ht _]. unfold refuseHeldDevice. rewrite run_bind.
  cbn [run call_out exec]. unfold scoped. rewrite Htenant. destruct Hon as [Hr Hd].
  by rewrite (session_for_device_Ok t device w r).
Qed.

(** The caller's own session on the host, if there is one; nobody else's is. *)
Definition own_session (own : option session_row) : Prop :=
  match own with
  | Some r => session_on device w r ∧ s_UserID r = user
  | None => ∀ r, ¬ session_on device w r
  end.
Definition without (own : option session_row) : gmap bytes session_row :=
  match own with Some r => delete (s_Token r) (w_sessions w) | None => w_sessions w end.
Definition closed (own : option session_row) : list (bytes * bytes) :=
  match own with Some r => [(s_Token r, reasonOpenedElsewhere)] | None => [] end.

Lemma create_owned own : own_session own → w_devices w !! device = Some (TenantID t) →
  create_session t token device user w =
  (Ok (match own with Some r => s_Token r | None => [] end), set_sessions w (<[token := row]> (without own))).
Proof using Hsessions Hfresh Huser Hrows.
  intros Hown Hdevice. destruct own as [r|]; cbn in Hown |- *.
  - destruct Hown as [Hon Hu]. destruct (Hrows r Hon) as [Ht _]. by apply (create_own t token device user w r); eauto.
  - apply create_free; [|done|eauto|done].
    intros tok r Hr Hd. apply (Hown r). split; [|done]. destruct Hsessions as [H1 _]. by rewrite (H1 _ _ Hr).
Qed.

(** C15: Opening a session, a request served alone and no database call failing, by a
    user that exists, under a token no session has, the table holding at most one
    session a host and a host's session being of its tenant.  A host that is not of the caller's
    tenant is answered 404 and a host that is not connected 409, and nothing changes.
    A host another technician holds is refused with the holder's name and since when,
    and nothing changes.  Otherwise the caller's earlier session on the host, if any,
    goes and its relay is ended as opened elsewhere; when the request reaches the
    agent, the host's one session is the new one, the caller's, and it is audited;
    when it does not, the answer is 409, no session is left on the host and nothing
    is audited.  No other row changes. *)
Theorem create_session_exact arrives :
  let p := run (CreateSession ctx device token arrives) w in
  (w_devices w !! device ≠ Some (TenantID t) → p = (Some (Ok (Answer 404 (lit "device not found"))), w)) ∧
  (w_devices w !! device = Some (TenantID t) → device ∉ w_agents w →
     p = (Some (Ok (Answer 409 (lit "agent not connected"))), w)) ∧
  (w_devices w !! device = Some (TenantID t) → device ∈ w_agents w →
     (∀ r, session_on device w r → s_UserID r ≠ user →
        p = (Some (Ok (Success (SessionHeld (holder_name (s_UserID r) w) (s_CreatedAt r)))), w)) ∧
     (∀ own, own_session own →
        ∃ w', p = (Some (Ok (if arrives then Success (SessionCreated token)
                             else Answer 409 (lit "agent communication failed"))), w') ∧
          w_sessions w' = (if arrives then <[token := row]> (without own) else without own) ∧
          w_ended w' = w_ended w ++ closed own ∧
          w_audit w' = w_audit w ++ (if arrives then [mk_audit user (lit "session.create") (uuid_String device)] else []))).
Proof using Htenant Hsessions Hfresh Huser Hrows.
  cbn zeta. split_and!.
  - intros Hdev. unfold CreateSession. rewrite run_bind. cbn [run call_out exec]. unfold scoped.
    by rewrite Htenant, bool_decide_false.
  - intros Hdev Hag. unfold CreateSession. rewrite run_bind. cbn [run call_out exec]. unfold scoped.
    rewrite Htenant, bool_decide_true by done. rewrite run_bind. cbn [run call_out exec]. by rewrite bool_decide_false.
  - intros Hdev Hag. rewrite run_CreateSession by done. split.
    + intros r Hon Hne. rewrite (create_held t token device user w r) by eauto. by apply run_refuseHeldDevice.
    + intros own Hown. rewrite (create_owned own) by done. cbn zeta beta iota.
      assert (without own !! token = None) as Hout.
      { unfold without. destruct own; [rewrite lookup_delete_None; by right|done]. }
      destruct own as [r|]; cbn [closed without] in *.
      * rewrite bool_decide_false by (by destruct Hown as [Hon _]; apply Hrows in Hon as [_ ?]).
        destruct arrives; eexists; (split; [done|]); cbn; [done|]. unfold delete_session. cbn.
        rewrite lookup_insert_eq, bool_decide_true by done. cbn. by rewrite delete_insert_id, app_nil_r.
      * rewrite bool_decide_true by done. destruct arrives; eexists; (split; [done|]); cbn; rewrite !app_nil_r; [done|].
        unfold delete_session. cbn. rewrite lookup_insert_eq, bool_decide_true by done. cbn. by rewrite delete_insert_id.
Qed.
End opening.

(** The session a request to end names: by its token, or by its host. *)
Definition named (t : Tenant) (token : bytes) (device : uuid) (w : world) (r : session_row) : Prop :=
  w_sessions w !! s_Token r = Some r ∧ s_TenantID r = TenantID t ∧
  if bool_decide (token = []) then s_DeviceID r = device else s_Token r = token.

Lemma session_for_device_Err t device w :
  (∀ r, w_sessions w !! s_Token r = Some r → s_TenantID r = TenantID t → s_DeviceID r ≠ device) → sessions_ok w →
  session_for_device t device w = Err ErrSessionNotFound.
Proof.
  intros Hno [H1 _]. unfold session_for_device.
  assert (filter (λ kv : bytes * session_row, s_TenantID kv.2 = TenantID t ∧ s_DeviceID kv.2 = device) (w_sessions w) = ∅) as ->.
  { apply map_empty. intros tok. apply map_lookup_filter_None. right. intros r Hr [Ht Hd]. cbn in *.
    apply (Hno r); [|done|done]. by rewrite (H1 _ _ Hr). }
  by rewrite map_to_list_empty.
Qed.

Lemma run_find ctx t token device user name admin w :
  TenantFromContext (cx_tenant ctx) = Some t → sessions_ok w →
  let i := mk_delete token device user name admin in
  (∀ r, named t token device w r → run (find (cx_tenant ctx) i) w = (Some (Ok (read_session w r)), w)) ∧
  ((∀ r, ¬ named t token device w r) → run (find (cx_tenant ctx) i) w = (Some (Err ErrSessionNotFound), w)).
Proof.
  intros Ht Hok. cbn zeta. unfold find, named. cbn [in_Token in_DeviceID]. case_bool_decide; cbn [run call_out exec];
    unfold scoped; rewrite Ht; split.
  - intros r (Hr & Htr & Hd). by rewrite (session_for_device_Ok t device w r).
  - intros Hno. rewrite session_for_device_Err; [done| |done]. intros r Hr Htr Hd. by apply (Hno r).
  - intros r (Hr & Htr & Hd). unfold get_session. rewrite <- Hd, Hr. by rewrite bool_decide_true.
  - intros Hno. unfold get_session. destruct (w_sessions w !! token) as [r|] eqn:E; [|done].
    rewrite bool_decide_false; [done|]. intros Htr. destruct Hok as [H1 _]. apply (Hno r). by rewrite (H1 _ _ E).
Qed.

(** A request to end a session, by token or by host: it finds only a session of the
    caller's tenant; its holder or an administrator ends it, which removes the row
    and closes the relay; anybody else is refused and nothing changes. *)
Theorem session_ended_by_right ctx t token device w :
  TenantFromContext (cx_tenant ctx) = Some t → sessions_ok w →
  (∀ r, named t token device w r → s_UserID r = ContextUserID ctx ∨ isAdmin ctx = true →
     ∃ w' reason, run (end_session ctx token device) w = (Some (Ok (Success tt)), w') ∧
       w_sessions w' = delete (s_Token r) (w_sessions w) ∧ w_ended w' = w_ended w ++ [(s_Token r, reason)]) ∧
  (∀ r, named t token device w r → s_UserID r ≠ ContextUserID ctx → isAdmin ctx = false →
     ∃ msg, run (end_session ctx token device) w = (Some (Ok (Answer 403 msg)), w)) ∧
  ((∀ r, ¬ named t token device w r) → ∃ msg, run (end_session ctx token device) w = (Some (Ok (Answer 404 msg)), w)).
Proof.
  intros Ht Hok. unfold end_session. rewrite run_bind. unfold displayName. rewrite run_bind. cbn [run call_out exec].
  set (name := match scoped _ _ with Ok _ => _ | Err _ => _ end).
  destruct (run_find ctx t token device (ContextUserID ctx) name (isAdmin ctx) w Ht Hok) as [Hfound Hnone].
  set (i := mk_delete token device (ContextUserID ctx) name (isAdmin ctx)) in *.
  split_and!.
  - intros r Hn Hright. rewrite run_bind. unfold Delete, and_ok at 1. rewrite run_bind, (Hfound r Hn).
    cbn [UserID read_session in_UserID in_IsAdmin i Token].
    assert (negb (bool_decide (s_UserID r = ContextUserID ctx)) && negb (isAdmin ctx) = false) as ->.
    { destruct Hright as [->| ->]; [by rewrite bool_decide_true|by rewrite andb_false_r]. }
    unfold and_ok. rewrite run_bind. cbn [run call_out exec]. unfold lift_state. rewrite Ht. unfold delete_session.
    destruct Hn as (Hr & Htr & _). rewrite Hr, bool_decide_true by done. cbn. by eexists _, _.
  - intros r Hn Hu Ha. rewrite run_bind. unfold Delete, and_ok at 1. rewrite run_bind, (Hfound r Hn).
    cbn [UserID read_session in_UserID in_IsAdmin i]. rewrite Ha, bool_decide_false by done. cbn. by eexists.
  - intros Hno. rewrite run_bind. unfold Delete, and_ok at 1. rewrite run_bind, (Hnone Hno). cbn. by eexists.
Qed.

(** ** Joining the relay *)

Section joining.
Context (ParseWithClaims : bytes → option Claims) (secret : bytes).
Context (url_Host : bytes → option bytes) (EqualFold : bytes → bytes → bool).

(** Who a browser's request proves itself to be. *)
Definition proves (r : HttpRequest) (w : world) (c : Claims) : Prop :=
  let bearer := bearerToken (hr_Get r Authorization) in
  if bool_decide (bearer = []) then
    ∃ value s, hr_Cookie r consoleCookieName = Some value ∧ live_session secret value true w = Some s ∧
      c = mk_claims (c_UserID s) (c_TenantID s) [] (c_IsAdmin s)
  else ParseWithClaims bearer = Some c ∧ cl_TenantID c ≠ Nil.

Lemma run_holds c console token w a w' :
  run (holds c console token) w = (Some a, w') → ba_ok a = true →
  w' = w ∧ ∃ row, w_sessions w !! token = Some row ∧ s_TenantID row = cl_TenantID c ∧ s_UserID row = cl_UserID c.
Proof.
  unfold holds. rewrite run_bind. cbn [run call_out exec]. unfold scoped.
  destruct (TenantFromContext _) as [t|] eqn:Et; [|by intros [= <- <-]].
  assert (TenantID t = cl_TenantID c) as Htc.
  { revert Et. unfold TenantFromContext. cbn. case_bool_decide; [done|]. by intros [= <-]. }
  unfold get_session. destruct (w_sessions w !! token) as [row|]; [|by intros [= <- <-]].
  case_bool_decide as Hrow; [|by intros [= <- <-]]. cbn. case_bool_decide as Hu; intros [= <- <-]; [|done].
  intros _. split; [done|]. exists row. split; [done|]. split; [congruence|done].
Qed.

(** A browser joins a relay only as the technician who holds the session: from the
    console's own origin, proven by a bearer token or a live console session, and
    named by the session's row in the same tenant. *)
Theorem browser_joins_own_session r token w console w' :
  console_ok w →
  run (handleRelayWebSocket ParseWithClaims secret url_Host EqualFold r (lit "browser") token) w = (Some (RelayAccepted SideBrowser console), w') →
  (hr_Get r (lit "Origin") = [] ∨ ∃ host, url_Host (hr_Get r (lit "Origin")) = Some host ∧ EqualFold host (hr_Host r) = true) ∧
  ∃ c row, proves r w c ∧ w_sessions w !! token = Some row ∧ s_UserID row = cl_UserID c ∧ s_TenantID row = cl_TenantID c.
Proof.
  intros Hok. unfold handleRelayWebSocket, validateRelayToken. rewrite run_bind. cbn [run call_out exec].
  destruct (scoped _ _) as [x|[]]; try done. unfold parseSide. rewrite bool_decide_true by done.
  destruct (sameOrigin _ _ r) eqn:Ho; [|done]. cbn [negb].
  intros Hj. split.
  { revert Ho. unfold sameOrigin. case_bool_decide; [by left|]. destruct (url_Host _) as [host|]; [|done].
    intros He. right. by exists host. }
  revert Hj. rewrite run_bind. unfold authenticateBrowser, proves.
  case_bool_decide as Hb; cbn [negb].
  - destruct (hr_Cookie r consoleCookieName) as [value|]; [|done]. rewrite run_bind, run_liveConsoleSession by done.
    destruct (live_session secret value true w) as [s|] eqn:El; [|done].
    destruct (run (holds _ _ _) w) as [[a|] w1] eqn:Eh; [|done]. destruct (ba_ok a) eqn:Ea; [|done].
    destruct (run_holds _ _ _ _ _ _ Eh Ea) as (_ & row & Hrow & Ht & Hu). intros _.
    exists (mk_claims (c_UserID s) (c_TenantID s) [] (c_IsAdmin s)), row. split_and!; try done. by exists value, s.
  - unfold ValidateToken. destruct (ParseWithClaims _) as [c|] eqn:Ec; [|done]. cbn [mbind option_bind]. case_bool_decide as Hn; [done|].
    destruct (run (holds _ _ _) w) as [[a|] w1] eqn:Eh; [|done]. destruct (ba_ok a) eqn:Ea; [|done].
    destruct (run_holds _ _ _ _ _ _ Eh Ea) as (_ & row & Hrow & Ht & Hu). intros _. by exists c, row.
Qed.
End joining.

(** C40: The relay's requests carry no tenant, and the lookup of the token falls back to
    the default tenant with an administrator's rights; the query asks for rows of
    that tenant all the same.  A session of any other tenant is therefore refused to
    its browser and to its agent, as if it did not exist. *)
Theorem relay_refuses_other_tenants ParseWithClaims secret url_Host EqualFold r side token w row :
  w_sessions w !! token = Some row → s_TenantID row ≠ DefaultTenantID →
  run (handleRelayWebSocket ParseWithClaims secret url_Host EqualFold r side token) w =
  (Some (RelayRejected (lit "session not found")), w).
Proof.
  intros Hrow Ht. unfold handleRelayWebSocket, validateRelayToken. rewrite run_bind. cbn [run call_out exec].
  change (or_any_tenant None) with (WithDefaultTenant true). unfold scoped. rewrite default_ctx. unfold get_session.
  rewrite Hrow, bool_decide_false by done. done.
Qed.

(** ** Enrolment *)

(** Enrolling is open to anybody: its requests carry no tenant. *)
Inductive enrol_request :=
  | ReqEnroll (token : bytes) (csr : option (result api_err uuid))
  | ReqNewToken (ctx : Ctx) (id : uuid) (token label : option bytes) (maxUses expiresInHours : option Z)
  | ReqDropToken (ctx : Ctx) (id : uuid).

Definition enrol_serve (r : enrol_request) : api Z :=
  match r with
  | ReqEnroll token csr => status_of 200 (Enroll no_ctx token csr)
  | ReqNewToken ctx id token label maxUses hours => status_of 201 (CreateEnrollmentToken ctx id token label maxUses hours)
  | ReqDropToken ctx id => status_of 204 (DeleteEnrollmentToken ctx id)
  end.

Fixpoint enrol_worker (l : list enrol_request) : api (list Z) :=
  match l with [] => Ret [] | r :: l => s ← enrol_serve r; rest ← enrol_worker l; Ret (s :: rest) end.

Section enrolments.
Context (id : uuid) (m : Z).

(** The certificates issued under the token. *)
Definition issued (w : world) : Z := Z.of_nat (length (List.filter (λ x, bool_decide (x.1 = id)) (w_issued w))).

Definition increments {R} (c : api_call R) : bool :=
  match c with EnrollIncrement _ i => bool_decide (i = id) | _ => false end.

(** The steps of a pool, with how many increments of the token's count the database
    failed. *)
Inductive enrol_run {A} (st0 : list (api A) * world) : nat → list (api A) * world → Prop :=
  | er_start : enrol_run st0 0 st0
  | er_call lost pool i R (c : api_call R) k w :
      enrol_run st0 lost (pool, w) → pool !! i = Some (Do c k) →
      enrol_run st0 lost (<[i := k (exec c w).1]> pool, (exec c w).2)
  | er_fault lost pool i R (c : api_call R) k r w :
      enrol_run st0 lost (pool, w) → pool !! i = Some (Do c k) → fault c = Some r →
      enrol_run st0 (lost + Nat.b2n (increments c)) (<[i := k r]> pool, w)
  | er_tick lost pool now w : enrol_run st0 lost (pool, w) → w_now w ≤ now → enrol_run st0 lost (pool, set_now w now)
  | er_cleanup lost pool w : enrol_run st0 lost (pool, w) → enrol_run st0 lost (pool, limiter_cleanup w).

(** Every run of a pool is one of these. *)
Lemma enrol_run_cover {A} (st0 st : list (api A) * world) : rtc pool_step st0 st → ∃ lost, enrol_run st0 lost st.
Proof.
  intros Hsteps. assert (∀ x, rtc pool_step x st → ∀ lost, enrol_run st0 lost x → ∃ lost', enrol_run st0 lost' st) as H.
  { clear Hsteps. intros x Hx. induction Hx as [x|x y z Hxy _ IH]; intros lost Hr; [by exists lost|].
    inversion Hxy; subst; eapply IH; by econstructor. }
  eapply (H st0 Hsteps 0%nat). constructor.
Qed.

(** Where a worker stands with the token: it has read it with a use left, or it has
    issued a certificate it has not counted yet. *)
Inductive standing := Idle | Granted | Issued.

#[local] Instance standing_eq_dec : EqDecision standing.
Proof. solve_decision. Defined.

Definition grants (r : result api_err EnrollmentToken) : bool :=
  match r with
  | Ok et => bool_decide (e_ID et = id) && (bool_decide (e_MaxUses et ≤ 0) || bool_decide (e_UseCount et < e_MaxUses et))
  | Err _ => false
  end.

Definition may_call {R} (s : standing) (c : api_call R) : Prop :=
  match c with
  | EnrollIncrement ctx i => if bool_decide (i = id) then s = Issued ∧ ctx = None else s ≠ Issued
  | EnrollCreate _ e => s ≠ Issued ∧ e_ID e ≠ id
  | IssueDevice tok _ => s ≠ Issued ∧ (tok = id → s = Granted)
  | _ => s ≠ Issued
  end.

Definition stands_after {R} (s : standing) (c : api_call R) : R → standing :=
  match c in api_call R return R → standing with
  | EnrollGetByToken _ _ => λ r, if grants r then Granted else Idle
  | IssueDevice tok _ => λ r, if bool_decide (tok = id) then (if is_ok r then Issued else Idle) else s
  | EnrollIncrement _ i => λ _, if bool_decide (i = id) then Idle else s
  | _ => λ _, s
  end.

Fixpoint stands {A} (s : standing) (p : api A) : Prop :=
  match p with
  | Ret _ | Panic => s ≠ Issued
  | Do c k => may_call s c ∧ ∀ r, stands (stands_after s c r) (k r)
  end.

Lemma stands_granted {A} (p : api A) : stands Idle p → stands Granted p.
Proof.
  induction p as [|R c k IH|]; cbn; [done| |done]. intros [Hc Hk]. split.
  - destruct c; cbn in *; try done; try naive_solver. case_bool_decide; naive_solver.
  - intros r. specialize (Hk r). destruct c; cbn in *; try (by apply IH); try done; case_bool_decide; try done; by apply IH.
Qed.

Lemma stands_bind {A B} s (p : api A) (k : A → api B) : stands s p → (∀ a, stands Idle (k a)) → stands s (p ≫= k).
Proof.
  intros Hp Hk. revert s Hp. induction p as [a|R c k' IH|]; intros s; cbn.
  - destruct s; [by intros _; apply Hk|by intros _; apply stands_granted, Hk|done].
  - intros [Hc Hr]. split; [done|]. intros r. apply IH, Hr.
  - done.
Qed.

Lemma stands_Enroll token csr : stands Idle (Enroll no_ctx token csr).
Proof.
  unfold Enroll, validateEnrollmentToken. cbn. split; [done|]. intros [et|[]]; cbn; try done.
  destruct (bool_decide (e_ID et = id)) eqn:Eid; cbn [andb].
  2: { apply bool_decide_eq_false in Eid. split; [done|]. intros now. cbn. destruct (bool_decide (_ < now)); [done|]. destruct (_ && _); [done|].
       destruct csr as [chosen|]; [|done]. cbn. rewrite !bool_decide_false by done. split; [done|]. intros [d|[]]; cbn; try done.
       rewrite !bool_decide_false by done. split; [done|]. by intros [[]|]. }
  apply bool_decide_eq_true in Eid.
  destruct (bool_decide (e_MaxUses et ≤ 0) || bool_decide (e_UseCount et < e_MaxUses et)) eqn:Eg.
  - split; [done|]. intros now. cbn. destruct (bool_decide (_ < now)); [done|]. destruct (_ && _); [done|].
    destruct csr as [chosen|]; [|done]. cbn. rewrite !bool_decide_true by done. split; [done|]. intros [d|[]]; cbn; try done.
    rewrite !bool_decide_true by done. split; [done|]. by intros [[]|].
  - split; [done|]. intros now. cbn. destruct (bool_decide (_ < now)); [done|].
    assert (bool_decide (0 < e_MaxUses et) && bool_decide (e_MaxUses et ≤ e_UseCount et) = true) as ->; [|done].
    revert Eg. repeat case_bool_decide; cbn; try done; lia.
Qed.

Definition other_token (r : enrol_request) : Prop := match r with ReqNewToken _ i _ _ _ _ => i ≠ id | _ => True end.

Lemma stands_serve r : other_token r → stands Idle (enrol_serve r).
Proof.
  intros Hr. destruct r as [token csr|ctx i token label mu h|ctx i]; cbn [enrol_serve]; unfold status_of; apply stands_bind; try done.
  - apply stands_Enroll.
  - unfold CreateEnrollmentToken, denyIfNotAdmin. destruct (isAdmin ctx); [|done]. destruct token; [|done]. cbn.
    split; [done|]. intros now. split; [done|]. intros [[]|]; cbn; [|done]. by split.
  - unfold DeleteEnrollmentToken, denyIfNotAdmin. destruct (isAdmin ctx); [|done]. cbn. split; [done|].
    intros [[]|[]]; cbn; try done; by split.
Qed.

Lemma stands_worker l : Forall other_token l → stands Idle (enrol_worker l).
Proof.
  induction 1 as [|r l Hr _ IH]; [done|]. cbn [enrol_worker]. apply stands_bind; [by apply stands_serve|]. intros s.
  by apply stands_bind; [apply IH|].
Qed.

(** How many stand where. *)
Definition num (s : standing) (l : list standing) : Z := Z.of_nat (length (List.filter (λ x, bool_decide (x = s)) l)).

Lemma num_insert s l i x y : l !! i = Some x →
  num s (<[i := y]> l) = num s l - Z.b2z (bool_decide (x = s)) + Z.b2z (bool_decide (y = s)).
Proof.
  unfold num. revert i. induction l as [|z l IH]; intros [|i]; [done|done| |].
  - intros [= ->]. change (<[0%nat := y]> (x :: l)) with (y :: l). cbn [List.filter].
    destruct (bool_decide (x = s)), (bool_decide (y = s)); cbn [length Z.b2z]; lia.
  - intros H. specialize (IH i H). change (<[S i := y]> (z :: l)) with (z :: <[i := y]> l). cbn [List.filter].
    destruct (bool_decide (z = s)); cbn [length]; lia.
Qed.

Lemma num_le l : num Granted l + num Issued l ≤ Z.of_nat (length l).
Proof.
  unfold num. induction l as [|x l IH]; [done|]. cbn [List.filter length].
  destruct x; repeat case_bool_decide; try done; cbn [length]; lia.
Qed.

(** The rows are kept under their ids, and the token's maximum is [m]. *)
Definition tokens_ok (w : world) : Prop :=
  ∀ i e, w_enroll w !! i = Some e → e_ID e = i ∧ (i = id → e_MaxUses e = m).

(** As long as the token has a use left, the certificates are counted but for those
    in flight and those whose increment was lost. *)
Definition enrol_inv {A} (K lost : nat) (st : list (api A) * world) : Prop :=
  tokens_ok st.2 ∧ ∃ ss, Forall2 stands ss st.1 ∧ length ss = K ∧
    (∀ e, w_enroll st.2 !! id = Some e → e_UseCount e < m → issued st.2 ≤ e_UseCount e + num Issued ss + Z.of_nat lost) ∧
    issued st.2 + num Granted ss ≤ m - 1 + Z.of_nat K + Z.of_nat lost.

Lemma exec_enroll R (c : api_call R) w :
  match c with
  | EnrollCreate _ _ | EnrollDelete _ _ | EnrollIncrement _ _ | IssueDevice _ _ => True
  | _ => w_enroll (exec c w).2 = w_enroll w ∧ w_issued (exec c w).2 = w_issued w
  end.
Proof.
  destruct c; cbn; try done; unfold lift_state; try (destruct (TenantFromContext _) as [t|]; [|done]); cbn;
    unfold upsert_user, delete_user, create_group, delete_group, insert_member, delete_member, sync_is_admin,
      create_console, create_session, mark_outcome, delete_session, delete_relay_session, limiter_allowed;
    by repeat case_match.
Qed.

Lemma get_by_token_row t token w e :
  get_by_token t token w = Ok e → ∃ i, w_enroll w !! i = Some e.
Proof.
  unfold get_by_token. destruct (map_to_list _) as [|[i e'] l] eqn:E; cbn; [done|]. intros [= ->]. exists i.
  assert ((i, e) ∈ map_to_list (filter (λ kv : uuid * EnrollmentToken, visible t (e_TenantID kv.2) = true ∧ e_Token kv.2 = token) (w_enroll w))) as Hin
    by (rewrite E; by left).
  by apply elem_of_map_to_list, map_lookup_filter_Some in Hin as [? _].
Qed.

(** The worker has just read the token with a use left. *)
Definition granted_now (w : world) : Prop := ∃ e, w_enroll w !! id = Some e ∧ e_UseCount e < m.

(** What a call does to the token, its certificates and its worker. *)
Definition call_counts (s s' : standing) (w w' : world) : Prop :=
  tokens_ok w' ∧
  (∀ e', w_enroll w' !! id = Some e' → e_UseCount e' < m → ∃ e, w_enroll w !! id = Some e ∧ e_UseCount e < m ∧
     issued w' - issued w ≤ e_UseCount e' - e_UseCount e + Z.b2z (bool_decide (s' = Issued)) - Z.b2z (bool_decide (s = Issued))) ∧
  (issued w' + Z.b2z (bool_decide (s' = Granted)) ≤ issued w + Z.b2z (bool_decide (s = Granted)) ∨
   s' = Granted ∧ s ≠ Issued ∧ issued w' = issued w ∧ w_enroll w' = w_enroll w ∧ granted_now w).

#[local] Ltac count_tac := repeat case_bool_decide; simplify_eq; try done; cbn [Z.b2z bump_use e_UseCount] in *; lia.

Lemma call_counts_same s s' w w' : tokens_ok w → w_enroll w' = w_enroll w → w_issued w' = w_issued w →
  s ≠ Issued → s' = s ∨ s' = Idle → call_counts s s' w w'.
Proof.
  intros Hw He Hi Hs Hs'. unfold call_counts, tokens_ok, issued. rewrite He, Hi. split; [done|]. split.
  - intros e' H H'. exists e'. split_and!; try done. destruct Hs' as [->| ->]; destruct s; count_tac.
  - left. destruct Hs' as [->| ->]; destruct s; count_tac.
Qed.

Lemma exec_counts R (c : api_call R) s w :
  0 < m < 2 ^ 31 → tokens_ok w → may_call s c → call_counts s (stands_after s c (exec c w).1) w (exec c w).2.
Proof.
  intros Hm Hw Hc. pose proof (exec_enroll R c w) as Hx.
  destruct c; try (destruct Hx; apply call_counts_same; [done..|by left]); cbn [exec fst snd stands_after may_call] in *.
  - unfold lift_state. destruct Hc as [Hs Hne]. destruct (TenantFromContext ctx); [|by apply call_counts_same; [..|left]].
    unfold create_enroll. case_match; [by apply call_counts_same; [..|left]|]. cbn. unfold call_counts. cbn.
    rewrite lookup_insert_ne by done. unfold issued. cbn. split; [|split; [|left; count_tac]].
    + intros i e'. cbn. rewrite lookup_insert_Some. intros [[<- <-]|[_ ?]]; [|by apply Hw]. by split.
    + intros e' He1 He2. exists e'. split_and!; try done. lia.
  - destruct (grants _) eqn:Eg; [|by apply call_counts_same; [..|right]].
    assert (granted_now w) as Hg.
    { unfold scoped in Eg. destruct (TenantFromContext _); [|done]. destruct (get_by_token _ token w) as [et|] eqn:E; [|done].
      apply get_by_token_row in E as [i Hi]. destruct (Hw _ _ Hi) as [Hid Hmax].
      cbn in Eg. apply andb_true_iff in Eg as [Heq%bool_decide_eq_true Hg]. assert (i = id) as -> by congruence.
      exists et. split; [done|]. rewrite (Hmax eq_refl) in Hg. apply orb_true_iff in Hg as [?%bool_decide_eq_true|?%bool_decide_eq_true]; lia. }
    split; [done|]. split; [|by right].
    intros e' He1 He2. exists e'. split_and!; try done. destruct s; count_tac.
  - unfold lift_state. destruct (TenantFromContext ctx); [|by apply call_counts_same; [..|left]]. unfold delete_enroll.
    destruct (w_enroll w !! id0) eqn:E; [|by apply call_counts_same; [..|left]]. case_match; [|by apply call_counts_same; [..|left]].
    cbn. unfold call_counts, issued. cbn. split; [|split; [|left; count_tac]].
    + intros i e'. cbn. intros [_ ?]%lookup_delete_Some. by apply Hw.
    + intros e' [Hne He1]%lookup_delete_Some He2. exists e'. split_and!; try done. lia.
  - destruct (decide (id0 = id)) as [->|Hne].
    + rewrite (bool_decide_true (id = id)) in Hc |- * by done. destruct Hc as [-> ->]. unfold lift_state.
      change (or_any_tenant None) with (WithDefaultTenant true). rewrite default_ctx. unfold increment_use.
      destruct (w_enroll w !! id) as [e|] eqn:E.
      2: { cbn [fst snd]. split; [done|]. split; [by rewrite E|left; count_tac]. }
      cbn [visible IsAdmin orb negb]. case_bool_decide as Ho; cbn [snd].
      { split; [done|]. split; [|left; count_tac]. rewrite E. intros e' [= <-] He2. lia. }
      unfold call_counts, issued. cbn. rewrite lookup_insert_eq. split; [|split; [|left; count_tac]].
      * intros i e'. cbn. rewrite lookup_insert_Some. intros [[<- <-]|[_ ?]]; [|by apply Hw]. cbn.
        destruct (Hw _ _ E) as [? Hw2]. by split.
      * intros e' [= <-] He2. cbn in He2. exists e. split_and!; try done; [cbn in He2; lia|count_tac].
    + rewrite (bool_decide_false (id0 = id)) in Hc |- * by done. unfold lift_state.
      destruct (TenantFromContext _); [|by apply call_counts_same; [..|left]]. unfold increment_use.
      destruct (w_enroll w !! id0) as [e|] eqn:E; [|by apply call_counts_same; [..|left]].
      case_match; [by apply call_counts_same; [..|left]|]. case_match; [by apply call_counts_same; [..|left]|].
      unfold call_counts, issued. cbn. rewrite lookup_insert_ne by done. split; [|split; [|left; count_tac]].
      * intros i e'. cbn. rewrite lookup_insert_Some. intros [[<- <-]|[_ ?]]; [|by apply Hw]. cbn.
        destruct (Hw _ _ E) as [? Hw2]. by split.
      * intros e' He1 He2. exists e'. split_and!; try done. lia.
  - destruct Hc as [Hs Hg]. destruct chosen as [device|e]; cbn [is_ok].
    2: { apply call_counts_same; try done. case_bool_decide; [by right|by left]. }
    unfold call_counts, issued. cbn. rewrite List.filter_app, length_app. cbn [List.filter fst]. split; [done|]. split.
    + intros e' He1 He2. exists e'. split_and!; try done. case_bool_decide as Ht; cbn [length].
      * rewrite (Hg Ht). count_tac.
      * lia.
    + left. case_bool_decide as Ht; cbn [length]; [rewrite (Hg Ht); count_tac|lia].
Qed.

Lemma enrol_call {A} K lost (pool : list (api A)) i R (c : api_call R) k w : 0 < m < 2 ^ 31 →
  enrol_inv K lost (pool, w) → pool !! i = Some (Do c k) →
  enrol_inv K lost (<[i := k (exec c w).1]> pool, (exec c w).2).
Proof.
  intros Hm (Hw & ss & Hss & HK & Hrow & Hle) Hi. cbn [fst snd] in *.
  destruct (Forall2_lookup_r _ _ _ _ _ Hss Hi) as (s & Hs & Hc & Hk).
  destruct (exec_counts R c s w Hm Hw Hc) as (Hw' & Hrow' & Hle'). set (s' := stands_after s c (exec c w).1) in *.
  split; [done|]. exists (<[i := s']> ss). split; [apply Forall2_insert; [done|apply Hk]|]. split; [by rewrite length_insert|].
  pose proof (num_le (<[i := s']> ss)) as Hnum. rewrite !length_insert in Hnum.
  rewrite !(num_insert _ _ _ _ _ Hs) in *. cbn [fst snd]. split.
  - intros e' H H'. destruct (Hrow' e' H H') as (e & He & Hlt & Hd). specialize (Hrow e He Hlt). lia.
  - destruct Hle' as [Hle'|(Hs' & Hne & Ei & Ee & (e & He & Hlt))]; [lia|]. specialize (Hrow e He Hlt).
    rewrite Hs' in *. rewrite (bool_decide_false (s = Issued)) in Hnum by done. count_tac.
Qed.

Lemma enrol_fault {A} K lost (pool : list (api A)) i R (c : api_call R) k r w :
  enrol_inv K lost (pool, w) → pool !! i = Some (Do c k) → fault c = Some r →
  enrol_inv K (lost + Nat.b2n (increments c)) (<[i := k r]> pool, w).
Proof.
  intros (Hw & ss & Hss & HK & Hrow & Hle) Hi Hf. cbn [fst snd] in *.
  destruct (Forall2_lookup_r _ _ _ _ _ Hss Hi) as (s & Hs & Hc & Hk). specialize (Hk r).
  split; [done|]. exists (<[i := stands_after s c r]> ss). split; [by apply Forall2_insert|]. split; [by rewrite length_insert|].
  rewrite !(num_insert _ _ _ _ _ Hs). cbn [fst snd].
  assert (Z.b2z (bool_decide (stands_after s c r = Granted)) ≤ Z.b2z (bool_decide (s = Granted)) ∧
          Z.b2z (bool_decide (s = Issued)) ≤ Z.b2z (bool_decide (stands_after s c r = Issued)) + Z.b2z (increments c)) as [H1 H2].
  { destruct c; cbn in Hf; simplify_eq; cbn [stands_after increments grants is_ok may_call] in *; try (cbn; lia);
      try (destruct (bool_decide (_ = id)); destruct s; count_tac). - destruct s; try done; repeat case_bool_decide; try done; cbn; lia.
    - destruct s; try (by destruct Hc); repeat case_bool_decide; try done; cbn; lia. }
  split; [intros e He Hlt; specialize (Hrow e He Hlt)|]; destruct (increments c); cbn in *; lia.
Qed.

Lemma enrol_run_inv {A} K (st0 st : list (api A) * world) lost : 0 < m < 2 ^ 31 →
  enrol_inv K 0 st0 → enrol_run st0 lost st → enrol_inv K lost st.
Proof.
  intros Hm H0. induction 1 as [|lost pool i R c k w _ IH Hi|lost pool i R c k r w _ IH Hi Hf|lost pool now w _ IH _|lost pool w _ IH]; try done.
  - by apply enrol_call.
  - by eapply enrol_fault.
Qed.
End enrolments.

(** C31: However the requests of [K] workers interleave, tokens being created under
    other ids and deleted among them, and whatever the database fails: a token that
    starts unused and allows [m] uses, [0 < m < 2^31],
    has certificates issued under it to at most [m - 1 + K] machines, and one more
    for each increment of its count that the database failed.  One request at a time
    and no increment lost, at most [m]. *)
Theorem enrolments_bounded (workers : list (list enrol_request)) w id et lost st :
  w_enroll w !! id = Some et → (∀ i e, w_enroll w !! i = Some e → e_ID e = i) → 0 < e_MaxUses et < 2 ^ 31 →
  e_UseCount et = 0 → issued id w = 0 → workers ≠ [] → Forall (Forall (other_token id)) workers →
  enrol_run id (enrol_worker <$> workers, w) lost st →
  issued id st.2 ≤ e_MaxUses et - 1 + Z.of_nat (length workers) + Z.of_nat lost.
Proof.
  intros Het Hids Hm H0 Hi Hne Hreq Hrun.
  assert (0 < length workers)%nat as Hlen by (destruct workers; [done|cbn; lia]).
  assert (∀ s, s ≠ Idle → num s (replicate (length workers) Idle) = 0) as Hnum.
  { intros s Hs. clear -Hs. unfold num. induction (length workers); [done|]. cbn. by rewrite bool_decide_false. }
  assert (enrol_inv id (e_MaxUses et) (length workers) 0 (enrol_worker <$> workers, w)) as Hinv.
  { split; [intros i e He; split; [by apply Hids|]; intros ->; cbn in He; congruence|].
    exists (replicate (length workers) Idle). cbn [fst snd]. rewrite length_replicate, !Hnum, Hi by done. split_and!; [|done| |lia].
    - apply Forall2_replicate_l; [apply length_fmap|]. apply Forall_fmap. eapply Forall_impl; [exact Hreq|]. intros l.
      by apply stands_worker.
    - intros e He _. assert (e = et) as -> by congruence. lia. }
  destruct (enrol_run_inv id _ _ _ _ _ Hm Hinv Hrun) as (_ & ss & _ & _ & _ & Hle). unfold num in Hle. lia.
Qed.

(** ** Runs *)

Module Hosts.
Import AccountClaims.Runs.

(** A tenant other than the default, its technicians and its connected host. *)
Definition tenantA : uuid := uid xaa.
Definition host : uuid := uid xd0.
Definition tech (b : byte) (email : string) (admin : bool) : User :=
  mk_user (uid b) tenantA (lit email) [] (lit email) admin 0 0.
Definition site (rows : list session_row) (enroll : gmap uuid EnrollmentToken) : world :=
  mk_world 0 {[uid x0a := tech x0a "ann" false; uid x0b := tech x0b "bob" false]} ∅ ∅ ∅
    (list_to_map ((λ r, (s_Token r, r)) <$> rows)) enroll {[host := tenantA]} ∅ {[host]} [] [] [].
Definition as_tech (b : byte) (admin : bool) : Ctx :=
  mk_ctx (Some (mk_tenant tenantA admin)) (Some (mk_claims (uid b) tenantA [] admin)).
Definition anns : session_row := mk_session (lit "tok-ann") tenantA host (uid x0a) 0 0.

Lemma site_ok rows enroll :
  bool_decide (NoDup (s_DeviceID <$> rows)) = true → bool_decide (NoDup (s_Token <$> rows)) = true → sessions_ok (site rows enroll).
Proof.
  intros Hd%bool_decide_eq_true Ht%bool_decide_eq_true.
  assert (∀ tok r, w_sessions (site rows enroll) !! tok = Some r → s_Token r = tok ∧ r ∈ rows) as Hin.
  { cbn. intros tok r Hr. apply elem_of_list_to_map in Hr.
    - apply list_elem_of_fmap in Hr as (r' & [= -> ->] & Hr). done.
    - by rewrite <- list_fmap_compose. }
  split; [intros tok r Hr; by apply Hin|]. intros tok1 tok2 r1 r2 [<- H1]%Hin [<- H2]%Hin Heq.
  apply list_elem_of_lookup in H1 as [i Hi]. apply list_elem_of_lookup in H2 as [j Hj].
  assert (i = j) as ->; [|by rewrite Hi in Hj; injection Hj as ->].
  eapply (NoDup_lookup (s_DeviceID <$> rows) i j (s_DeviceID r1)); [done|by rewrite list_lookup_fmap, Hi|].
  rewrite list_lookup_fmap, Hj. cbn. by rewrite Heq.
Qed.

(** Bob is told who holds the host; Ann opens it anew. *)
Lemma create_session_exact_witness :
  run (CreateSession (as_tech x0b false) host (lit "tok-new") true) (site [anns] ∅) =
    (Some (Ok (Success (SessionHeld (lit "ann") 0))), site [anns] ∅) ∧
  ∃ w', run (CreateSession (as_tech x0a false) host (lit "tok-new") false) (site [anns] ∅) =
      (Some (Ok (Answer 409 (lit "agent communication failed"))), w') ∧ w_ended w' = [(lit "tok-ann", reasonOpenedElsewhere)].
Proof.
  assert (w_sessions (site [anns] ∅) !! lit "tok-new" = None) as Hf by (by vm_compute).
  assert (w_devices (site [anns] ∅) !! host = Some tenantA) as Hd by (by vm_compute).
  assert (host ∈ w_agents (site [anns] ∅)) as Ha by (by apply (bool_decide_eq_true_1 _)).
  assert (∀ b, b = x0a ∨ b = x0b → is_Some (w_users (site [anns] ∅) !! uid b)) as Hu by (intros b [-> | ->]; by eexists; vm_compute).
  assert (session_on host (site [anns] ∅) anns) as Hon by (by split; vm_compute).
  assert (∀ r, session_on host (site [anns] ∅) r → s_TenantID r = tenantA ∧ s_Token r ≠ []) as Hr.
  { intros r Hon'. by rewrite (session_on_unique host (site [anns] ∅) r anns (site_ok [anns] ∅ eq_refl eq_refl) Hon' Hon). }
  split.
  - destruct (create_session_exact (as_tech x0b false) (mk_tenant tenantA false) host (lit "tok-new") (site [anns] ∅)
                ltac:(by vm_compute) (site_ok [anns] ∅ eq_refl eq_refl) Hf (Hu x0b (or_intror eq_refl)) Hr true) as (_ & _ & H).
    destruct (H Hd Ha) as [H' _]. exact (H' anns Hon ltac:(discriminate)).
  - destruct (create_session_exact (as_tech x0a false) (mk_tenant tenantA false) host (lit "tok-new") (site [anns] ∅)
                ltac:(by vm_compute) (site_ok [anns] ∅ eq_refl eq_refl) Hf (Hu x0a (or_introl eq_refl)) Hr false) as (_ & _ & H).
    destruct (H Hd Ha) as [_ H']. destruct (H' (Some anns)) as (w' & Hrun & _ & He & _); [by split|].
    exists w'. split; [exact Hrun|exact He].
Defined.

Lemma session_ended_by_right_witness :
  (∃ msg, run (end_session (as_tech x0b false) (lit "tok-ann") Nil) (site [anns] ∅) = (Some (Ok (Answer 403 msg)), site [anns] ∅)) ∧
  (∃ w' reason, run (end_session (as_tech x0b true) [] host) (site [anns] ∅) = (Some (Ok (Success tt)), w') ∧
     w_sessions w' = delete (lit "tok-ann") (w_sessions (site [anns] ∅)) ∧ w_ended w' = [] ++ [(lit "tok-ann", reason)]).
Proof.
  split.
  - destruct (session_ended_by_right (as_tech x0b false) (mk_tenant tenantA false) (lit "tok-ann") Nil (site [anns] ∅)
                ltac:(by vm_compute) (site_ok [anns] ∅ eq_refl eq_refl)) as (_ & Hno & _).
    apply (Hno anns); [|discriminate|reflexivity]. split; [by vm_compute|]. split; [reflexivity|by vm_compute].
  - destruct (session_ended_by_right (as_tech x0b true) (mk_tenant tenantA true) [] host (site [anns] ∅)
                ltac:(by vm_compute) (site_ok [anns] ∅ eq_refl eq_refl)) as (Hyes & _ & _).
    apply (Hyes anns); [|by right]. split; [by vm_compute|]. split; [reflexivity|by vm_compute].
Defined.

(** Ann's browser, with a bearer token, joins her session. *)
Definition ann_request : HttpRequest :=
  mk_http (mk_Request [] (<[lit "Origin" := [lit "console.example"]]> {[Authorization := [lit "Bearer ann"]]})) (lit "GET") (lit "console.example") [] true.
Definition ann_claims : Claims := mk_claims (uid x0a) DefaultTenantID [] false.
Definition ann_default : session_row := mk_session (lit "tok-ann") DefaultTenantID host (uid x0a) 0 0.

Lemma browser_joins_own_session_witness :
  ∃ c row, proves (λ _, Some ann_claims) [] ann_request (site [ann_default] ∅) c ∧
    w_sessions (site [ann_default] ∅) !! lit "tok-ann" = Some row ∧ s_UserID row = cl_UserID c ∧ s_TenantID row = cl_TenantID c.
Proof.
  assert (console_ok (site [ann_default] ∅)) as Hok by (intros h s; cbn; by rewrite lookup_empty).
  assert ((run (handleRelayWebSocket (λ _, Some ann_claims) [] Some (λ a b, bool_decide (a = b)) ann_request (lit "browser") (lit "tok-ann"))
             (site [ann_default] ∅)).1 = Some (RelayAccepted SideBrowser [])) as Hacc by (by vm_compute).
  destruct (run _ _) as [o w'] eqn:E. cbn in Hacc. rewrite Hacc in E.
  destruct (browser_joins_own_session (λ _, Some ann_claims) [] Some (λ a b, bool_decide (a = b)) ann_request (lit "tok-ann") _ [] w' Hok E) as [_ H].
  exact H.
Defined.

(** Ann opens a session in her tenant and is answered 201; the agent that comes to
    the relay with its token is turned away. *)
Lemma relay_refuses_other_tenants_witness :
  let w := (run (CreateSession (as_tech x0a false) host (lit "tok-1") true) (site [] ∅)).2 in
  (run (CreateSession (as_tech x0a false) host (lit "tok-1") true) (site [] ∅)).1 = Some (Ok (Success (SessionCreated (lit "tok-1")))) ∧
  run (handleRelayWebSocket (λ _, None) [] Some (λ a b, bool_decide (a = b)) ann_request (lit "agent") (lit "tok-1")) w =
    (Some (RelayRejected (lit "session not found")), w).
Proof.
  intros w. split; [by vm_compute|].
  apply (relay_refuses_other_tenants (λ _, None) [] Some (λ a b, bool_decide (a = b)) ann_request (lit "agent") (lit "tok-1") w
           (mk_session (lit "tok-1") tenantA host (uid x0a) 0 0)); [by vm_compute|discriminate].
Defined.

(** ** Two enrolments at once *)

Definition once : EnrollmentToken := mk_enroll (uid xe0) tenantA (lit "enrol") [] (uid x0a) 1 0 hour 0.
Definition enrol_as (device : byte) : list enrol_request := [ReqEnroll (lit "enrol") (Some (Ok (uid device)))].

(** A token for one machine enrols two when their requests overlap: both find it
    unused before either is counted. *)
Theorem single_use_token_enrols_two :
  let '(pool, w') := run_schedule [0; 1; 0; 1; 0; 1; 0; 1]%nat (enrol_worker <$> [enrol_as xd1; enrol_as xd2]) (site [] {[uid xe0 := once]}) in
  e_MaxUses once = 1 ∧ answer pool 0 = Some [200] ∧ answer pool 1 = Some [200] ∧ issued (uid xe0) w' = 2 ∧
  w_issued w' = [(uid xe0, uid xd1); (uid xe0, uid xd2)].
Proof. by vm_compute. Qed.

Lemma enrolments_bounded_witness :
  let st := run_schedule [0; 1; 0; 1; 0; 1; 0; 1]%nat (enrol_worker <$> [enrol_as xd1; enrol_as xd2]) (site [] {[uid xe0 := once]}) in
  ∃ lost, enrol_run (uid xe0) (enrol_worker <$> [enrol_as xd1; enrol_as xd2], site [] {[uid xe0 := once]}) lost st ∧
    issued (uid xe0) st.2 ≤ 1 - 1 + 2 + Z.of_nat lost.
Proof.
  intros st. destruct (enrol_run_cover (uid xe0) _ st (run_schedule_steps _ _ _)) as [lost Hrun]. exists lost. split; [exact Hrun|].
  refine (enrolments_bounded [enrol_as xd1; enrol_as xd2] (site [] {[uid xe0 := once]}) (uid xe0) once lost st
            _ _ _ eq_refl eq_refl _ _ Hrun).
  - by vm_compute.
  - intros i e. cbn. intros [<- <-]%lookup_singleton_Some. reflexivity.
  - by vm_compute.
  - discriminate.
  - repeat constructor.
Defined.
End Hosts.
