(* ===== verification/RuleDelivery.v ===== *)
(** * The rules a machine is given

    [src/server/internal/agentapi/alert_rules.go] and [alert_rules_catalogue.go]:
    the ruleset assembled for a machine from the shipped catalogue ([Rules]), its
    customer's bindings ([RuleResolve]) and rollouts ([Rollout]), the push of it
    over a connection, what the connection remembers of it, and the refresh after
    a change.  The stores a provider reads are functions that may fail ([None]);
    an optional source that is not wired is [None] itself. *)
From S2P Require Import Prelude GoTime Float Settings Control Rules RuleResolve Rollout Incident.

(** ** Rulesets *)

Record RuleSet := mk_ruleset {
  rs_Rules : list ThresholdRule;
  rs_DeviceHourlyCeiling : Z;
  rs_EventRules : option (gset bytes);   (* [None] is the nil map *)
}.

(** [AlertRuleProvider]: the ruleset for a place in the tenancy ladder, [None]
    an error. *)
Class AlertRuleProvider (P : Type) := RulesFor : P → Scope → option RuleSet.

Record StaticAlertRuleProvider := mk_static {
  sp_defaultRules : list ThresholdRule;
  sp_byTenant : gmap uuid (list ThresholdRule);
}.

Definition StaticAlertRuleProvider_RulesFor : AlertRuleProvider StaticAlertRuleProvider := λ p scope,
  match sp_byTenant p !! sc_TenantID scope with
  | Some rules => Some (mk_ruleset rules 0 None)
  | None => Some (mk_ruleset (sp_defaultRules p) 0 None)
  end.
#[global] Existing Instance StaticAlertRuleProvider_RulesFor.

(** [clampNonNegativeUint32] *)
Definition clampNonNegativeUint32 (v : Z) : Z :=
  if bool_decide (v ≤ 0) then 0
  else if bool_decide (u32_max < u64 v) then u32_max
  else u32 v.

(** ** The catalogue as a customer retuned it *)

Record CatalogueAlertRuleProvider := mk_provider {
  p_catalogue : Catalogue;
  p_ListBindings : uuid → option (list Binding);
  p_ListRollouts : uuid → option (gmap bytes Rollout);
  p_TagsFor : option (uuid → option (gmap bytes bytes));
  p_Counts : option (uuid → option Z);
  p_Limits : option (uuid → option Limits);
}.

Definition RolloutFor (stored : gmap bytes Rollout) (organizationID : uuid) (ruleID : bytes) : Rollout :=
  default (DefaultRollout organizationID ruleID) (stored !! ruleID).

Section delivery.
(** What [uint32(f)] leaves for a float outside its range. *)
Context (conv : float64 → Z).

Definition resolveAll (definitions : list Definition_) (machine : Device) (bindings : list Binding)
    (rollouts : gmap bytes Rollout) : list ThresholdRule :=
  omap (λ def,
    if WatchesEvents def then None
    else
      let rollout := RolloutFor rollouts (sc_OrganizationID (dv_Scope machine)) (df_ID def) in
      if Reaches rollout (sc_DeviceID (dv_Scope machine)) (dv_FleetSize machine)
      then Some (RuleResolve.Resolve conv def machine bindings) else None) definitions.

Definition wantedEventRules (definitions : list Definition_) (organizationID : uuid) (rollouts : gmap bytes Rollout) :
    gset bytes :=
  list_to_set (omap (λ def,
    if negb (WatchesEvents def) then None
    else if Delivers (RolloutFor rollouts organizationID (df_ID def)) then Some (df_ID def) else None) definitions).

Definition fleetSizeFor (p : CatalogueAlertRuleProvider) (organizationID : uuid) (rollouts : gmap bytes Rollout) : Z :=
  match p_Counts p with
  | None => 0
  | Some counts => if NeedsFleetSize rollouts then default 0 (counts organizationID) else 0
  end.

Definition tagsFor (p : CatalogueAlertRuleProvider) (deviceID : uuid) : gmap bytes bytes :=
  match p_TagsFor p with None => ∅ | Some tags => default ∅ (tags deviceID) end.

Definition ceilingFor (p : CatalogueAlertRuleProvider) (organizationID : uuid) : Z :=
  match p_Limits p with
  | None => 0
  | Some limits =>
      match limits organizationID with
      | None => 0
      | Some l => clampNonNegativeUint32 (Z.min (lm_DeviceHourly l) MaxDeviceHourlyCeiling)
      end
  end.

Definition CatalogueAlertRuleProvider_RulesFor : AlertRuleProvider CatalogueAlertRuleProvider := λ p scope,
  let definitions := All (p_catalogue p) in
  let organization := sc_OrganizationID scope in
  if bool_decide (organization = Nil) then
    Some (mk_ruleset (resolveAll definitions (mk_device scope ∅ 0) [] ∅) 0 (Some (wantedEventRules definitions Nil ∅)))
  else
    bindings ← p_ListBindings p organization;
    rollouts ← p_ListRollouts p organization;
    let machine := mk_device scope (tagsFor p (sc_DeviceID scope)) (fleetSizeFor p organization rollouts) in
    Some (mk_ruleset (resolveAll definitions machine bindings rollouts) (ceilingFor p organization)
            (Some (wantedEventRules definitions organization rollouts))).
End delivery.

(** ** A connection's share *)

Definition CapThresholdAlerts : bytes := lit "ThresholdAlerts".

(** The fields of [AgentConn] the rules and the alerts use; [ag_sent] is the
    rulesets written to its stream. *)
Record agent := mk_agent {
  ag_DeviceID : uuid;
  ag_SiteID : uuid;
  ag_TenantID : uuid;
  ag_Capabilities : list bytes;
  ag_organizationID : uuid;
  ag_wantedEventRules : option (gset bytes);
  ag_sent : list RuleSet;
}.

Inductive push_err := ErrAssemble | ErrCapabilityNotAdvertised | ErrNotSent.

Definition requireCapability (required : bytes) (a : agent) : bool :=
  existsb (λ c, bool_decide (c = required)) (ag_Capabilities a).

(** [sends]: the frame can be written, and the server holds the connection. *)
Definition SendPushAlertRules (ruleset : RuleSet) (sends : bool) (a : agent) : result push_err unit * agent :=
  if negb (requireCapability CapThresholdAlerts a) then (Err ErrCapabilityNotAdvertised, a)
  else if negb sends then (Err ErrNotSent, a)
  else (Ok tt, mk_agent (ag_DeviceID a) (ag_SiteID a) (ag_TenantID a) (ag_Capabilities a) (ag_organizationID a)
                 (ag_wantedEventRules a) (ag_sent a ++ [ruleset])).

Definition rememberRuleset (organizationID : uuid) (wanted : option (gset bytes)) (a : agent) : agent :=
  mk_agent (ag_DeviceID a) (ag_SiteID a) (ag_TenantID a) (ag_Capabilities a) organizationID wanted (ag_sent a).

(** [settings]: the reader of the tenancy ladder, if wired; [None] of a device is
    a failed read. *)
Definition settingsScope (settings : option (uuid → option Scope)) (a : agent) : Scope :=
  let known := mk_scope (ag_DeviceID a) (ag_SiteID a) Nil (ag_TenantID a) in
  match settings with
  | None => known
  | Some scopeFor => default known (scopeFor (ag_DeviceID a))
  end.

(** A nil catalogue is [None]. *)
Definition lookup_rule (cat : option Catalogue) (id : bytes) : option Definition_ := c ← cat; Lookup c id.

Definition watchesEvents (cat : option Catalogue) (id : bytes) : bool :=
  match lookup_rule cat id with Some def => WatchesEvents def | None => false end.

(** Whether an alert of the rule is still taken from the machine: asked of event
    rules only. *)
Definition customerWants (cat : option Catalogue) (a : agent) (id : bytes) : bool :=
  match ag_wantedEventRules a with
  | None => true
  | Some wanted => if watchesEvents cat id then bool_decide (id ∈ wanted) else true
  end.

Section push.
Context {P : Type} `{!AlertRuleProvider P}.

Definition pushAlertRules (alertRules : option P) (settings : option (uuid → option Scope)) (sends : bool) (a : agent) :
    result push_err unit * agent :=
  match alertRules with
  | None => (Ok tt, a)
  | Some p =>
      let scope := settingsScope settings a in
      match RulesFor p scope with
      | None => (Err ErrAssemble, a)
      | Some ruleset =>
          SendPushAlertRules ruleset sends (rememberRuleset (sc_OrganizationID scope) (rs_EventRules ruleset) a)
      end
  end.

(** [refreshRules] over the connected agents; [sends] says which streams take the
    frame. *)
Fixpoint refreshRules (alertRules : option P) (settings : option (uuid → option Scope)) (sends : agent → bool)
    (selects : agent → bool) (conns : list agent) : Z * list agent :=
  match conns with
  | [] => (0, [])
  | a :: conns =>
      let '(reached, a') :=
        if bool_decide (ag_organizationID a = Nil) || negb (selects a) then (0, a)
        else let '(r, a') := pushAlertRules alertRules settings (sends a) a in (if is_ok r then 1 else 0, a') in
      let '(n, conns') := refreshRules alertRules settings sends selects conns in
      (reached + n, a' :: conns')
  end.

Definition RefreshAlertRules alertRules settings sends (organizationID : uuid) :=
  refreshRules alertRules settings sends (λ a, bool_decide (ag_organizationID a = organizationID)).

Definition RefreshAlertRulesForTenant alertRules settings sends (tenantID : uuid) :=
  refreshRules alertRules settings sends (λ a, bool_decide (ag_TenantID a = tenantID)).
End push.

(** ** What is delivered *)

Lemma default_reaches organizationID ruleID deviceID fleetSize :
  fleet_ok fleetSize → Reaches (DefaultRollout organizationID ruleID) deviceID fleetSize = true.
Proof.
  intros H. unfold Reaches. cbn.
  by apply (InStage_monotone deviceID ruleID 100 100 fleetSize H (Z.le_refl 100)).
Qed.

Section delivered.
Context (conv : float64 → Z).
Implicit Types (p : CatalogueAlertRuleProvider) (scope : Scope).

#[local] Instance provider : AlertRuleProvider CatalogueAlertRuleProvider := CatalogueAlertRuleProvider_RulesFor conv.

Lemma resolveAll_elem defs machine bs ros r :
  r ∈ resolveAll conv defs machine bs ros ↔
  ∃ def, def ∈ defs ∧ WatchesEvents def = false ∧
    Reaches (RolloutFor ros (sc_OrganizationID (dv_Scope machine)) (df_ID def)) (sc_DeviceID (dv_Scope machine))
      (dv_FleetSize machine) = true ∧
    r = RuleResolve.Resolve conv def machine bs.
Proof.
  unfold resolveAll. rewrite list_elem_of_omap. split.
  - intros (def & Hd & E). destruct (WatchesEvents def) eqn:Ew; [done|].
    destruct (Reaches _ _ _) eqn:Er; [|done]. injection E as <-. by exists def.
  - intros (def & Hd & Ew & Er & ->). exists def. by rewrite Ew, Er.
Qed.

Lemma wantedEventRules_elem defs org ros id :
  id ∈ wantedEventRules defs org ros ↔
  ∃ def, def ∈ defs ∧ WatchesEvents def = true ∧ df_ID def = id ∧ Delivers (RolloutFor ros org id) = true.
Proof.
  unfold wantedEventRules. rewrite elem_of_list_to_set, list_elem_of_omap. split.
  - intros (def & Hd & E). destruct (WatchesEvents def) eqn:Ew; [|done]. cbn in E.
    destruct (Delivers _) eqn:Er; [|done]. injection E as <-. by exists def.
  - intros (def & Hd & Ew & <- & Er). exists def. by rewrite Ew, Er.
Qed.

(** The rules of one id among those delivered. *)
Definition given (rs : RuleSet) (id : bytes) : list ThresholdRule := filter (λ r, tr_ID r = id) (rs_Rules rs).

Lemma given_other defs machine bs ros id :
  id ∉ (df_ID <$> defs) → filter (λ r, tr_ID r = id) (resolveAll conv defs machine bs ros) = [].
Proof.
  intros Hid. apply elem_of_nil_inv. intros r [<- (def & Hd & _ & _ & ->)%resolveAll_elem]%list_elem_of_filter.
  apply Hid. exact (list_elem_of_fmap_2 df_ID _ _ Hd).
Qed.

Lemma given_one defs machine bs ros def :
  NoDup (df_ID <$> defs) → def ∈ defs → WatchesEvents def = false →
  filter (λ r, tr_ID r = df_ID def) (resolveAll conv defs machine bs ros) =
  if Reaches (RolloutFor ros (sc_OrganizationID (dv_Scope machine)) (df_ID def)) (sc_DeviceID (dv_Scope machine))
       (dv_FleetSize machine)
  then [RuleResolve.Resolve conv def machine bs] else [].
Proof.
  induction defs as [|d defs IH]; cbn [fmap list_fmap]; [by intros _ ?%not_elem_of_nil|].
  intros [Hd Hnd]%NoDup_cons Hin Hw. apply elem_of_cons in Hin as [->|Hin].
  - unfold resolveAll. cbn [omap list_omap]. rewrite Hw. destruct (Reaches _ _ _).
    + rewrite filter_cons_True by done. f_equal. by apply given_other.
    + by apply given_other.
  - rewrite <-(IH Hnd Hin Hw). clear IH. unfold resolveAll at 1. cbn [omap list_omap]. fold (resolveAll conv defs machine bs ros).
    destruct (WatchesEvents d); [done|]. destruct (Reaches _ _ _); [|done]. rewrite filter_cons_False; [done|].
    cbn. intros E. apply Hd. rewrite E. exact (list_elem_of_fmap_2 df_ID _ _ Hin).
Qed.

(** The rollouts of a customer, as [ListRollouts] keys them. *)
Definition keyed (ros : gmap bytes Rollout) : Prop := ∀ id r, ros !! id = Some r → ro_RuleID r = id.

Lemma RolloutFor_ruleID ros org id : keyed ros → ro_RuleID (RolloutFor ros org id) = id.
Proof. intros H. unfold RolloutFor. destruct (ros !! id) as [r|] eqn:E; [by apply H|done]. Qed.

(** C37: A customer's machine is given a reading rule exactly as the rule's rollout says:
    never while it is stopped, switched off or at no reach; always, once, at full
    reach; and in between when the machine falls in the stage's share.  The rule
    given is the shipped one as the customer's bindings resolve it, and a machine
    that has it keeps it while the reach grows. *)
Theorem delivery_follows_rollout p scope bs ros rs def :
  let org := sc_OrganizationID scope in
  let fleet := fleetSizeFor p org ros in
  org ≠ Nil → p_ListBindings p org = Some bs → p_ListRollouts p org = Some ros → keyed ros → fleet_ok fleet →
  NoDup (df_ID <$> All (p_catalogue p)) → def ∈ All (p_catalogue p) → WatchesEvents def = false →
  RulesFor p scope = Some rs →
  let ro := RolloutFor ros org (df_ID def) in
  let rule := RuleResolve.Resolve conv def (mk_device scope (tagsFor p (sc_DeviceID scope)) fleet) bs in
  (Delivers ro = false ∨ ro_RolloutPercent ro ≤ 0 → given rs (df_ID def) = []) ∧
  (Delivers ro = true → 100 ≤ ro_RolloutPercent ro → given rs (df_ID def) = [rule]) ∧
  (Delivers ro = true →
   given rs (df_ID def) =
     if bool_decide (membershipBucket (sc_DeviceID scope) (df_ID def) < membershipLimit (ro_RolloutPercent ro) fleet)
     then [rule] else []) ∧
  (∀ q, ro_RolloutPercent ro ≤ q → given rs (df_ID def) ≠ [] → InStage (sc_DeviceID scope) (df_ID def) q fleet = true).
Proof.
  intros org fleet Horg Hbs Hros Hkey Hfleet Hnd Hdef Hw Hrs ro rule.
  revert Hrs. unfold RulesFor, provider, CatalogueAlertRuleProvider_RulesFor. fold org. rewrite bool_decide_false by done.
  rewrite Hbs. cbn [mbind option_bind]. rewrite Hros. cbn [mbind option_bind]. intros [= <-].
  set (machine := mk_device scope (tagsFor p (sc_DeviceID scope)) (fleetSizeFor p org ros)) in *.
  assert (given (mk_ruleset (resolveAll conv (All (p_catalogue p)) machine bs ros) (ceilingFor p org)
                   (Some (wantedEventRules (All (p_catalogue p)) org ros))) (df_ID def) =
          if Delivers ro && InStage (sc_DeviceID scope) (df_ID def) (ro_RolloutPercent ro) fleet then [rule] else []) as Hg.
  { unfold given. cbn [rs_Rules]. rewrite given_one by done. cbn [machine dv_Scope dv_FleetSize]. fold org ro.
    unfold Reaches. unfold ro at 2. by rewrite RolloutFor_ruleID by done. }
  rewrite Hg. destruct (InStage_monotone (sc_DeviceID scope) (df_ID def) (ro_RolloutPercent ro) (ro_RolloutPercent ro)
    fleet Hfleet ltac:(lia)) as (_ & Hfull & Hoff).
  split_and!.
  - intros [->|H]; [done|]. by rewrite (Hoff H), andb_false_r.
  - intros -> H. by rewrite (Hfull H).
  - intros ->. cbn [andb]. by rewrite InStage_limit.
  - intros q Hq Hne. destruct (Delivers ro); [|done]. cbn [andb] in Hne.
    destruct (InStage _ _ (ro_RolloutPercent ro) _) eqn:E; [|done].
    exact (proj1 (InStage_monotone _ _ _ q fleet Hfleet Hq) E).
Qed.

(** When the machine's place in the ladder cannot be read, the push is assembled for
    a machine without a customer: every reading rule goes out as shipped, also one
    the customer stopped or retuned, every event rule is taken again, and the
    connection forgets its customer, so the next refresh passes it by. *)
Theorem failed_scope_pushes_shipped p scopeFor a r a' :
  scopeFor (ag_DeviceID a) = None → requireCapability CapThresholdAlerts a = true →
  NoDup (df_ID <$> All (p_catalogue p)) →
  pushAlertRules (Some p) (Some scopeFor) true a = (r, a') →
  r = Ok tt ∧ ag_organizationID a' = Nil ∧
  (∃ rs, ag_sent a' = ag_sent a ++ [rs] ∧
     ∀ def, def ∈ All (p_catalogue p) → WatchesEvents def = false →
       given rs (df_ID def) =
         [RuleResolve.Resolve conv def (mk_device (mk_scope (ag_DeviceID a) (ag_SiteID a) Nil (ag_TenantID a)) ∅ 0) []]) ∧
  (∃ wanted, ag_wantedEventRules a' = Some wanted ∧
     ∀ def, def ∈ All (p_catalogue p) → WatchesEvents def = true → df_ID def ∈ wanted) ∧
  ∀ p' sends org, RefreshAlertRules (P := CatalogueAlertRuleProvider) (Some p') (Some scopeFor) sends org [a'] = (0, [a']).
Proof.
  intros Hs Hc Hnd. unfold pushAlertRules. unfold settingsScope. rewrite Hs. cbn [default].
  unfold RulesFor at 1, provider at 1, CatalogueAlertRuleProvider_RulesFor at 1. cbn [sc_OrganizationID].
  rewrite bool_decide_true by done.
  unfold SendPushAlertRules, requireCapability, rememberRuleset. cbn [ag_Capabilities]. fold (requireCapability CapThresholdAlerts a).
  rewrite Hc. cbn [negb]. intros [= <- <-]. cbn. split_and!; [done|done| | |done].
  - eexists. split; [done|]. intros def Hd Hw. unfold given. cbn [rs_Rules]. rewrite given_one by done.
    cbn [dv_Scope sc_OrganizationID sc_DeviceID dv_FleetSize]. unfold RolloutFor. rewrite lookup_empty. cbn [default].
    by rewrite default_reaches by (unfold fleet_ok; lia).
  - eexists. split; [done|]. intros def Hd Hw. apply wantedEventRules_elem. exists def. split_and!; try done.
Qed.
End delivered.

(** ** Witnesses *)

Module Machine.
Definition customer : uuid := replicate 16 x02.
Definition device : uuid := replicate 16 x01.
Definition scope : Scope := mk_scope device Nil customer (replicate 16 x03).

(** The rule at one machine in a hundred, stopped or not. *)
Definition canary (kill : bool) : Rollout :=
  mk_rollout customer (df_ID sample_def) true [] 1 kill 0 1 10 hour hour 0 [].

Definition sources (kill : bool) : CatalogueAlertRuleProvider :=
  mk_provider (mk_catalogue {[df_ID sample_def := sample_def]} [df_ID sample_def]) (λ _, Some [site_wide])
    (λ _, Some {[df_ID sample_def := canary kill]}) None (Some (λ _, Some 3)) None.

Definition conn : agent := mk_agent device Nil (replicate 16 x03) [CapThresholdAlerts] customer (Some ∅) [].

(** A fleet of three is below the canary's floor of machines: all are in it. *)
Lemma delivery_follows_rollout_witness :
  ∃ rs, @RulesFor _ (provider (λ _, 0)) (sources false) scope = Some rs ∧
        map tr_Threshold (given rs (df_ID sample_def)) = [f_of_Z 70].
Proof.
  assert (is_Some (@RulesFor _ (provider (λ _, 0)) (sources false) scope)) as [rs E].
  { by eexists. }
  exists rs. split; [exact E|].
  destruct (delivery_follows_rollout (λ _, 0) (sources false) scope [site_wide] {[df_ID sample_def := canary false]} rs sample_def)
    as (_ & _ & H & _); try reflexivity.
  - discriminate.
  - intros id r [<- <-]%lookup_singleton_Some. reflexivity.
  - unfold fleet_ok. vm_compute. discriminate.
  - refine (bool_decide_eq_true_1 _ _). by vm_compute.
  - apply list_elem_of_here.
  - exact E.
  - rewrite (H eq_refl). by vm_compute.
Defined.

(** The customer stopped the rule; the ladder cannot be read, and it goes out. *)
Lemma failed_scope_pushes_shipped_witness :
  ∃ a' rs, ag_sent a' = [] ++ [rs] ∧ map tr_Threshold (given rs (df_ID sample_def)) = [f_of_Z 90] ∧
    ag_organizationID a' = Nil ∧
    option_map (λ rs', given rs' (df_ID sample_def)) (@RulesFor _ (provider (λ _, 0)) (sources true) scope) = Some [].
Proof.
  destruct (@pushAlertRules _ (provider (λ _, 0)) (Some (sources true)) (Some (λ _, None)) true conn) as [r a'] eqn:E.
  destruct (failed_scope_pushes_shipped (λ _, 0) (sources true) (λ _, None) conn r a' eq_refl eq_refl)
    as (_ & Ho & (rs & Hs & Hg) & _); [refine (bool_decide_eq_true_1 _ _); by vm_compute|exact E|].
  exists a', rs. split; [exact Hs|]. split; [|split; [exact Ho|by vm_compute]].
  rewrite (Hg sample_def); [by vm_compute|apply list_elem_of_here|reflexivity].
Defined.
End Machine.
