(* ===== verification/RuleAdmin.v ===== *)
(** * Administering rules

    [src/server/internal/rules/postgres_rollout.go] and [postgres_bindings.go],
    and the handlers of [api/handlers_rules_rollout.go] and
    [handlers_rules_tuning.go]: the rows of rollouts and bindings with the
    constraints of [db/migrations/013_rules.up.sql] and
    [016_rule_administration.up.sql], each statement a function on them; stopping
    and resuming a rule, pacing its rollout, tuning it, and the delivery of the
    change to the machines that are connected ([RuleDelivery]).  Handlers are
    programs whose statements interleave; the refresh of the connected machines is
    one step.  The order of the rows a query returns is not modelled: resolution
    does not depend on it. *)
From S2P Require Import Prelude GoTime GoStrings Float Settings Dbtx Control Rules RuleResolve Rollout Incident Effect ApiWorld Accounts RuleDelivery.

(** ** Rows *)

Record rollout_row := mk_rrow { rr_tenant : uuid; rr_rollout : Rollout }.
Record binding_row := mk_brow { br_tenant : uuid; br_binding : Binding }.

Record rule_world := mk_rworld {
  rw_now : time;
  rw_organizations : gmap bytes uuid;                 (* the tenant of each customer *)
  rw_rollouts : gmap (bytes * bytes) rollout_row;     (* by customer and rule *)
  rw_bindings : gmap uuid binding_row;                (* by id *)
  rw_agents : list agent;                             (* the connected machines *)
  rw_audit : list (uuid * bytes * bytes);
}.

Definition set_rollouts (w : rule_world) x :=
  mk_rworld (rw_now w) (rw_organizations w) x (rw_bindings w) (rw_agents w) (rw_audit w).
Definition set_bindings (w : rule_world) x :=
  mk_rworld (rw_now w) (rw_organizations w) (rw_rollouts w) x (rw_agents w) (rw_audit w).
Definition set_agents (w : rule_world) x :=
  mk_rworld (rw_now w) (rw_organizations w) (rw_rollouts w) (rw_bindings w) x (rw_audit w).
Definition add_audit (w : rule_world) x :=
  mk_rworld (rw_now w) (rw_organizations w) (rw_rollouts w) (rw_bindings w) (rw_agents w) (rw_audit w ++ [x]).

Inductive radmin_err :=
  | RTenantRequired
  | RInvalidRollout (e : rollout_err)
  | RInvalidBinding (e : binding_err)
  | RDbRefused          (* a constraint or a row policy *)
  | RDbFailed.          (* the database did not answer *)

(** The columns an insert that names neither leaves to their defaults. *)
Definition default_row (organization : uuid) (rule : bytes) (now : time) (updatedBy : bytes) : Rollout :=
  mk_rollout organization rule true [] 100 false now defaultCanaryPercent defaultStagedPercent defaultCanaryHold
    defaultStagedHold now updatedBy.

Definition with_kill (r : Rollout) (kill : bool) (now : time) (updatedBy : bytes) : Rollout :=
  mk_rollout (ro_OrganizationID r) (ro_RuleID r) (ro_Enabled r) (ro_CanaryGroup r) (ro_RolloutPercent r) kill
    (ro_StageEnteredAt r) (ro_CanaryPercent r) (ro_StagedPercent r) (ro_CanaryHold r) (ro_StagedHold r) now updatedBy.

Definition with_stage (r : Rollout) (percent : Z) (now : time) (updatedBy : bytes) : Rollout :=
  mk_rollout (ro_OrganizationID r) (ro_RuleID r) (ro_Enabled r) (ro_CanaryGroup r) percent (ro_Kill r)
    now (ro_CanaryPercent r) (ro_StagedPercent r) (ro_CanaryHold r) (ro_StagedHold r) now updatedBy.

(** A hold in whole seconds, as the column keeps it. *)
Definition whole_seconds (d : duration) : duration := Z.quot d second * second.

Section tables.
(** Postgres's [length] of a text, in characters. *)
Context (text_length : bytes → Z).

(** The CHECK constraints of a row of [rule_rollout]. *)
Definition rollout_row_ok (r : Rollout) : bool :=
  bool_decide (ro_RuleID r ≠ []) && bool_decide (text_length (ro_RuleID r) ≤ 64) &&
  bool_decide (text_length (ro_CanaryGroup r) ≤ 64) && bool_decide (0 ≤ ro_RolloutPercent r ≤ 100) &&
  percent_in_bounds (ro_CanaryPercent r) && percent_in_bounds (ro_StagedPercent r) &&
  hold_in_bounds (ro_CanaryHold r) && hold_in_bounds (ro_StagedHold r).

(** [INSERT INTO rule_rollout ... ON CONFLICT (organization_id, rule_id) DO
    UPDATE]: [fresh] is the row to insert and [update] what happens to one that is
    there. *)
Definition upsert_rollout_row (t : Tenant) (fresh : Rollout) (update : Rollout → Rollout) (w : rule_world) :
    result radmin_err unit * rule_world :=
  let key := (ro_OrganizationID fresh, ro_RuleID fresh) in
  match rw_rollouts w !! key with
  | Some row =>
      if negb (rollout_row_ok fresh) then (Err RDbRefused, w)
      else if negb (visible t (rr_tenant row)) then (Err RDbRefused, w)
      else if negb (rollout_row_ok (update (rr_rollout row))) then (Err RDbRefused, w)
      else (Ok tt, set_rollouts w (<[key := mk_rrow (rr_tenant row) (update (rr_rollout row))]> (rw_rollouts w)))
  | None =>
      if negb (rollout_row_ok fresh) then (Err RDbRefused, w)
      else if negb (bool_decide (rw_organizations w !! ro_OrganizationID fresh = Some (TenantID t))) then (Err RDbRefused, w)
      else (Ok tt, set_rollouts w (<[key := mk_rrow (TenantID t) fresh]> (rw_rollouts w)))
  end.

(** [upsertRolloutSQL]: an existing row keeps the time its stage was entered. *)
Definition upsertRolloutSQL (t : Tenant) (r : Rollout) (w : rule_world) : result radmin_err unit * rule_world :=
  let p := paced r in
  let row entered :=
    mk_rollout (ro_OrganizationID r) (ro_RuleID r) (ro_Enabled r) (ro_CanaryGroup r) (ro_RolloutPercent r) (ro_Kill r)
      entered (ro_CanaryPercent p) (ro_StagedPercent p) (whole_seconds (ro_CanaryHold p))
      (whole_seconds (ro_StagedHold p)) (rw_now w) (ro_UpdatedBy r) in
  upsert_rollout_row t (row (rw_now w)) (λ old, row (ro_StageEnteredAt old)) w.

Definition stopRuleSQL (t : Tenant) (organization : uuid) (rule : bytes) (kill : bool) (updatedBy : bytes)
    (w : rule_world) : result radmin_err unit * rule_world :=
  upsert_rollout_row t (with_kill (default_row organization rule (rw_now w) updatedBy) kill (rw_now w) updatedBy)
    (λ old, with_kill old kill (rw_now w) updatedBy) w.

(** [stopRuleTenantWideSQL]: one statement over the customers of the tenant, so it
    changes every row or none. *)
Definition stopRuleTenantWideSQL (t : Tenant) (rule : bytes) (kill : bool) (updatedBy : bytes) (w : rule_world) :
    result radmin_err unit * rule_world :=
  let own := (map_to_list (filter (λ kv, kv.2 = TenantID t) (rw_organizations w))).*1 in
  foldl (λ '(r, w') organization,
           match r with
           | Ok _ => let '(r', w'') := stopRuleSQL t organization rule kill updatedBy w' in
                     (r', match r' with Ok _ => w'' | Err _ => w end)
           | Err e => (Err e, w)
           end) (Ok tt, w) own.

Definition setRolloutStageSQL (t : Tenant) (organization : uuid) (rule : bytes) (percent : Z) (updatedBy : bytes)
    (w : rule_world) : result radmin_err unit * rule_world :=
  upsert_rollout_row t (with_stage (default_row organization rule (rw_now w) updatedBy) percent (rw_now w) updatedBy)
    (λ old, with_stage old percent (rw_now w) updatedBy) w.

(** [listRolloutsSQL], and the map [ListRollouts] makes of its rows. *)
Definition rollouts_of (t : Tenant) (organization : uuid) (w : rule_world) : gmap bytes Rollout :=
  map_fold (λ key row m,
    if bool_decide (rr_tenant row = TenantID t) && bool_decide (ro_OrganizationID (rr_rollout row) = organization)
    then <[ro_RuleID (rr_rollout row) := rr_rollout row]> m else m) ∅ (rw_rollouts w).

Definition bindings_of (t : Tenant) (organization : uuid) (w : rule_world) : list Binding :=
  omap (λ kv, let row := kv.2 in
    if bool_decide (br_tenant row = TenantID t) && bool_decide (bi_OrganizationID (br_binding row) = organization)
    then Some (br_binding row) else None) (map_to_list (rw_bindings w)).

Definition same_place (a b : Binding) : bool :=
  bool_decide (bi_OrganizationID a = bi_OrganizationID b) && bool_decide (bi_RuleID a = bi_RuleID b) &&
  bool_decide (bi_Level a = bi_Level b) && bool_decide (bi_LevelKey a = bi_LevelKey b).

(** The unique index on the precedence of targeted bindings. *)
Definition precedence_taken (b : Binding) (l : list binding_row) : bool :=
  negb (IsEmpty (bi_Selector b)) &&
  existsb (λ row, same_place (br_binding row) b && negb (IsEmpty (bi_Selector (br_binding row))) &&
                  bool_decide (bi_Precedence (br_binding row) = bi_Precedence b)) l.

Definition retuned (old b : Binding) : Binding :=
  mk_binding (bi_ID old) (bi_OrganizationID old) (bi_RuleID old) (bi_Level old) (bi_LevelKey old) (bi_Selector old)
    (bi_Precedence b) (bi_Params b) (bi_UpdatedBy b).

(** [upsertBindingSQL]: a binding of the same place and selector takes the new
    values under its own id. *)
Definition upsertBindingSQL (t : Tenant) (b : Binding) (w : rule_world) : result radmin_err unit * rule_world :=
  if negb (bool_decide (bi_RuleID b ≠ []) && bool_decide (text_length (bi_RuleID b) ≤ 64)) then (Err RDbRefused, w)
  else
    match List.find (λ kv, same_place (br_binding kv.2) b && bool_decide (bi_Selector (br_binding kv.2) = bi_Selector b))
            (map_to_list (rw_bindings w)) with
    | Some (id, row) =>
        if negb (visible t (br_tenant row)) then (Err RDbRefused, w)
        else if precedence_taken (retuned (br_binding row) b) (map_to_list (delete id (rw_bindings w))).*2 then (Err RDbRefused, w)
        else (Ok tt, set_bindings w (<[id := mk_brow (br_tenant row) (retuned (br_binding row) b)]> (rw_bindings w)))
    | None =>
        if bool_decide (is_Some (rw_bindings w !! bi_ID b)) then (Err RDbRefused, w)
        else if precedence_taken b (map_to_list (rw_bindings w)).*2 then (Err RDbRefused, w)
        else if negb (bool_decide (rw_organizations w !! bi_OrganizationID b = Some (TenantID t))) then (Err RDbRefused, w)
        else (Ok tt, set_bindings w (<[bi_ID b := mk_brow (TenantID t) b]> (rw_bindings w)))
    end.

Definition deleteBindingSQL (t : Tenant) (id : uuid) (w : rule_world) : rule_world :=
  set_bindings w (filter (λ kv, ¬ (kv.1 = id ∧ br_tenant kv.2 = TenantID t)) (rw_bindings w)).
End tables.

(** ** Calls *)

Inductive rule_call : Type → Type :=
  (** The tenant's own customer, which the code makes on first use. *)
  | EnsureDefault (ctx : option Tenant) : rule_call (result radmin_err uuid)
  | QListRollouts (ctx : option Tenant) (organization : uuid) : rule_call (result radmin_err (gmap bytes Rollout))
  | XUpsertRollout (ctx : option Tenant) (r : Rollout) : rule_call (result radmin_err unit)
  | XStopRule (ctx : option Tenant) (organization : uuid) (rule : bytes) (kill : bool) (by_ : bytes) :
      rule_call (result radmin_err unit)
  | XStopRuleTenantWide (ctx : option Tenant) (rule : bytes) (kill : bool) (by_ : bytes) : rule_call (result radmin_err unit)
  | XSetRolloutStage (ctx : option Tenant) (organization : uuid) (rule : bytes) (percent : Z) (by_ : bytes) :
      rule_call (result radmin_err unit)
  | XUpsertBinding (ctx : option Tenant) (b : Binding) : rule_call (result radmin_err unit)
  | XDeleteBinding (ctx : option Tenant) (id : uuid) : rule_call (result radmin_err unit)
  (** [RefreshAlertRules] and [RefreshAlertRulesForTenant]: the machines reached. *)
  | Refresh (ctx : option Tenant) (organization : uuid) : rule_call Z
  | RefreshTenant (ctx : option Tenant) (tenant : uuid) : rule_call Z
  | AuditRule (user : uuid) (action target : bytes) : rule_call unit.

Abbreviation radmin := (prog rule_call).

(** What a server is wired with: the pack, the reader of the tenancy ladder, the
    sources a provider reads beside the tables, and which streams take a frame. *)
Record wiring := mk_wiring {
  wi_catalogue : Catalogue;
  wi_scopeFor : uuid → option Scope;
  wi_tags : uuid → option (gmap bytes bytes);
  wi_counts : uuid → option Z;
  wi_limits : uuid → option Limits;
  wi_sends : agent → bool;
  wi_default : uuid → option uuid;   (* each tenant's own customer *)
}.

Section running.
Context (text_length : bytes → Z) (conv : float64 → Z) (srv : wiring).

(** The provider over the tables as they are. *)
Definition provider_of (ctx : option Tenant) (w : rule_world) : CatalogueAlertRuleProvider :=
  mk_provider (wi_catalogue srv)
    (λ org, (λ t, bindings_of t org w) <$> TenantFromContext ctx)
    (λ org, (λ t, rollouts_of t org w) <$> TenantFromContext ctx)
    (Some (wi_tags srv)) (Some (wi_counts srv)) (Some (wi_limits srv)).

#[local] Instance table_provider : AlertRuleProvider CatalogueAlertRuleProvider := provider conv.

Definition refreshed (ctx : option Tenant) (selects : agent → bool) (w : rule_world) : Z * rule_world :=
  let '(n, agents) := refreshRules (Some (provider_of ctx w)) (Some (wi_scopeFor srv)) (wi_sends srv) selects (rw_agents w) in
  (n, set_agents w agents).

Definition in_tenant {A} (ctx : option Tenant) (f : Tenant → rule_world → result radmin_err A * rule_world) (w : rule_world) :
    result radmin_err A * rule_world :=
  match TenantFromContext ctx with Some t => f t w | None => (Err RTenantRequired, w) end.

Definition rexec {R} (c : rule_call R) (w : rule_world) : R * rule_world :=
  match c in rule_call R return R * rule_world with
  | EnsureDefault ctx =>
      (match TenantFromContext ctx with
       | None => Err RTenantRequired
       | Some t => match wi_default srv (TenantID t) with Some id => Ok id | None => Err RDbFailed end
       end, w)
  | QListRollouts ctx org => in_tenant ctx (λ t w, (Ok (rollouts_of t org w), w)) w
  | XUpsertRollout ctx r => in_tenant ctx (λ t, upsertRolloutSQL text_length t r) w
  | XStopRule ctx org rule kill by_ => in_tenant ctx (λ t, stopRuleSQL text_length t org rule kill by_) w
  | XStopRuleTenantWide ctx rule kill by_ => in_tenant ctx (λ t, stopRuleTenantWideSQL text_length t rule kill by_) w
  | XSetRolloutStage ctx org rule percent by_ => in_tenant ctx (λ t, setRolloutStageSQL text_length t org rule percent by_) w
  | XUpsertBinding ctx b => in_tenant ctx (λ t, upsertBindingSQL text_length t b) w
  | XDeleteBinding ctx id => in_tenant ctx (λ t w, (Ok tt, deleteBindingSQL t id w)) w
  | Refresh ctx org => refreshed ctx (λ a, bool_decide (ag_organizationID a = org)) w
  | RefreshTenant ctx tenant => refreshed ctx (λ a, bool_decide (ag_TenantID a = tenant)) w
  | AuditRule user action target => (tt, add_audit w (user, action, target))
  end.

(** What a statement answers when the database fails it. *)
Definition rfault {R} (c : rule_call R) : option R :=
  match c in rule_call R return option R with
  | EnsureDefault _ => Some (Err RDbFailed)
  | QListRollouts _ _ => Some (Err RDbFailed)
  | XUpsertRollout _ _ | XStopRule _ _ _ _ _ | XStopRuleTenantWide _ _ _ _ | XSetRolloutStage _ _ _ _ _
  | XUpsertBinding _ _ | XDeleteBinding _ _ => Some (Err RDbFailed)
  | Refresh _ _ | RefreshTenant _ _ | AuditRule _ _ _ => None
  end.

(** One handler alone; [faults] says which of its calls the database fails. *)
Fixpoint rrun {A} (faults : list bool) (p : radmin A) (w : rule_world) : option A * rule_world :=
  match p with
  | Ret a => (Some a, w)
  | Do c k =>
      match (match faults with true :: _ => rfault c | _ => None end) with
      | Some r => rrun (tail faults) (k r) w
      | None => let '(r, w) := rexec c w in rrun (tail faults) (k r) w
      end
  | Panic => (None, w)
  end.

(** Handlers side by side: a statement of one at a time, any may fail, time
    passes, machines connect, disconnect and register. *)
Inductive radmin_step {A} : list (radmin A) * rule_world → list (radmin A) * rule_world → Prop :=
  | radmin_call pool i R (c : rule_call R) k w :
      pool !! i = Some (Do c k) → radmin_step (pool, w) (<[i := k (rexec c w).1]> pool, (rexec c w).2)
  | radmin_fault pool i R (c : rule_call R) k r w :
      pool !! i = Some (Do c k) → rfault c = Some r → radmin_step (pool, w) (<[i := k r]> pool, w)
  | radmin_time pool now w : rw_now w ≤ now →
      radmin_step (pool, w)
        (pool, mk_rworld now (rw_organizations w) (rw_rollouts w) (rw_bindings w) (rw_agents w) (rw_audit w))
  | radmin_machines pool agents w : radmin_step (pool, w) (pool, set_agents w agents).

Fixpoint rschedule {A} (sched : list nat) (pool : list (radmin A)) (w : rule_world) : list (radmin A) * rule_world :=
  match sched with
  | [] => (pool, w)
  | i :: sched =>
      match pool !! i with
      | Some (Do c k) => let '(r, w) := rexec c w in rschedule sched (<[i := k r]> pool) w
      | _ => rschedule sched pool w
      end
  end.
End running.

(** ** The store's operations *)

Definition UpsertRollout (ctx : option Tenant) (r : Rollout) : radmin (result radmin_err unit) :=
  match ValidateRollout r with
  | Err e => Ret (Err (RInvalidRollout e))
  | Ok _ => match TenantFromContext ctx with None => Ret (Err RTenantRequired) | Some _ => call_out (XUpsertRollout ctx r) end
  end.

Definition setKill (ctx : option Tenant) (org : uuid) (rule : bytes) (kill : bool) (by_ : bytes) :
    radmin (result radmin_err unit) :=
  if bool_decide (rule = []) then Ret (Err (RInvalidRollout RuleIdRequired))
  else match TenantFromContext ctx with None => Ret (Err RTenantRequired) | Some _ => call_out (XStopRule ctx org rule kill by_) end.

Definition setKillTenantWide (ctx : option Tenant) (rule : bytes) (kill : bool) (by_ : bytes) :
    radmin (result radmin_err unit) :=
  if bool_decide (rule = []) then Ret (Err (RInvalidRollout RuleIdRequired))
  else match TenantFromContext ctx with None => Ret (Err RTenantRequired) | Some _ => call_out (XStopRuleTenantWide ctx rule kill by_) end.

Definition SetRolloutStage (ctx : option Tenant) (org : uuid) (rule : bytes) (percent : Z) (by_ : bytes) :
    radmin (result radmin_err unit) :=
  match ValidateRollout (mk_rollout org rule false [] percent false GoTime.zero_time 0 0 0 0 GoTime.zero_time []) with
  | Err e => Ret (Err (RInvalidRollout e))
  | Ok _ => match TenantFromContext ctx with
            | None => Ret (Err RTenantRequired)
            | Some _ => call_out (XSetRolloutStage ctx org rule percent by_)
            end
  end.

Definition UpsertBinding (ctx : option Tenant) (lookup : bytes → option Definition_) (b : Binding) :
    radmin (result radmin_err unit) :=
  match ValidateBindingAgainst lookup b with
  | Err e => Ret (Err (RInvalidBinding e))
  | Ok _ => match TenantFromContext ctx with None => Ret (Err RTenantRequired) | Some _ => call_out (XUpsertBinding ctx b) end
  end.

(** ** The handlers *)

Definition msgRuleNotFound : bytes := lit "no such rule in the pack this server runs".

Abbreviation rhandler A := (radmin (result radmin_err (reply A))).

Definition ranswer {A} (status : Z) (msg : bytes) : rhandler A := Ret (Ok (Answer status msg)).
Definition rsuccess {A} (a : A) : rhandler A := Ret (Ok (Success a)).

Definition rand_ok {A B} (p : radmin (result radmin_err A)) (k : A → radmin (result radmin_err B)) :
    radmin (result radmin_err B) :=
  r ← p; match r with Ok a => k a | Err e => Ret (Err e) end.

Definition customerOrDefault (ctx : Ctx) (named : option uuid) : radmin (result radmin_err uuid) :=
  match named with
  | Some id => if bool_decide (id ≠ Nil) then Ret (Ok id) else call_out (EnsureDefault (cx_tenant ctx))
  | None => call_out (EnsureDefault (cx_tenant ctx))
  end.

(** [deliverRuleChange] *)
Definition deliverRuleChange (ctx : Ctx) (org : uuid) (tenantWide : bool) : radmin unit :=
  if tenantWide then
    match TenantFromContext (cx_tenant ctx) with
    | None => Ret tt
    | Some t => _ ← call_out (RefreshTenant (cx_tenant ctx) (TenantID t)); Ret tt
    end
  else _ ← call_out (Refresh (cx_tenant ctx) org); Ret tt.

Record RolloutBody := mk_rollout_body {
  rb_Enabled : bool; rb_CanaryPercent : Z; rb_StagedPercent : Z; rb_CanaryHoldSecs : Z; rb_StagedHoldSecs : Z;
}.

Definition rolloutsFor (ctx : Ctx) (org : uuid) : radmin (gmap bytes Rollout) :=
  r ← call_out (QListRollouts (cx_tenant ctx) org);
  Ret (match r with Ok m => m | Err _ => ∅ end).

Definition pacedRollout (ctx : Ctx) (org : uuid) (rule : bytes) (body : RolloutBody) : radmin Rollout :=
  stored ← rolloutsFor ctx org;
  let r := RolloutFor stored org rule in
  Ret (mk_rollout (ro_OrganizationID r) (ro_RuleID r) (rb_Enabled body) (ro_CanaryGroup r) (ro_RolloutPercent r) (ro_Kill r)
         (ro_StageEnteredAt r) (rb_CanaryPercent body) (rb_StagedPercent body) (rb_CanaryHoldSecs body * second)
         (rb_StagedHoldSecs body * second) (ro_UpdatedAt r) (uuid_String (ContextUserID ctx))).

Record RuleBindingInput := mk_binding_input {
  in_Id : option uuid; in_Level : bytes; in_LevelKey : uuid; in_Params : gmap bytes float64;
  in_Precedence : option Z; in_Selector : option Selector;
}.

(** [levelByName]: a name it does not hold reads as the zero level. *)
Definition levelByName (name : bytes) : Level :=
  default LevelDevice (List.find (λ l, bool_decide (Level_String l = name)) storableLevels).

(** [minted] is the [uuid.New] of the call. *)
Definition bindingFromAPI (rule : bytes) (org minted : uuid) (body : RuleBindingInput) : Binding :=
  mk_binding (default minted (in_Id body)) org rule (levelByName (in_Level body)) (in_LevelKey body)
    (default ∅ (in_Selector body)) (default 0 (in_Precedence body)) (in_Params body) [].

Definition with_updatedBy (b : Binding) (by_ : bytes) : Binding :=
  mk_binding (bi_ID b) (bi_OrganizationID b) (bi_RuleID b) (bi_Level b) (bi_LevelKey b) (bi_Selector b) (bi_Precedence b)
    (bi_Params b) by_.

Section handlers.
Context (catalogue : Catalogue).

Definition PutRuleRollout (ctx : Ctx) (rule : bytes) (named : option uuid) (body : RolloutBody) : rhandler Rollout :=
  if negb (isAdmin ctx) then ranswer 403 msgAdminRequired
  else match Lookup catalogue rule with
  | None => ranswer 404 msgRuleNotFound
  | Some _ =>
      rand_ok (customerOrDefault ctx named) (λ org,
      stored ← pacedRollout ctx org rule body;
      r ← UpsertRollout (cx_tenant ctx) stored;
      match r with
      | Err (RInvalidRollout _) => ranswer 400 (lit "invalid rollout")
      | Err e => Ret (Err e)
      | Ok _ =>
          _ ← deliverRuleChange ctx org false;
          _ ← call_out (AuditRule (ContextUserID ctx) (lit "rule.rollout.set") rule);
          rsuccess stored
      end)
  end.

Definition applyStop (ctx : Ctx) (rule : bytes) (tenantWide stopped : bool) (org : uuid) (actor : bytes) :
    radmin (result radmin_err unit) :=
  if tenantWide then setKillTenantWide (cx_tenant ctx) rule stopped actor
  else setKill (cx_tenant ctx) org rule stopped actor.

Definition stopAction (stopped : bool) : bytes := if stopped then lit "rule.stop" else lit "rule.resume".

Definition StopRule (ctx : Ctx) (rule : bytes) (named : option uuid) (tenantWide stopped : bool) : rhandler unit :=
  if negb (isAdmin ctx) then ranswer 403 msgAdminRequired
  else match Lookup catalogue rule with
  | None => ranswer 404 msgRuleNotFound
  | Some _ =>
      rand_ok (customerOrDefault ctx named) (λ org,
      rand_ok (applyStop ctx rule tenantWide stopped org (uuid_String (ContextUserID ctx))) (λ _,
      _ ← deliverRuleChange ctx org tenantWide;
      _ ← call_out (AuditRule (ContextUserID ctx) (stopAction stopped) rule);
      rsuccess tt))
  end.

Definition PutRuleBinding (ctx : Ctx) (rule : bytes) (named : option uuid) (minted : uuid) (body : RuleBindingInput) :
    rhandler Binding :=
  if negb (isAdmin ctx) then ranswer 403 msgAdminRequired
  else match Lookup catalogue rule with
  | None => ranswer 404 msgRuleNotFound
  | Some _ =>
      rand_ok (customerOrDefault ctx named) (λ org,
      let b := with_updatedBy (bindingFromAPI rule org minted body) (uuid_String (ContextUserID ctx)) in
      r ← UpsertBinding (cx_tenant ctx) (Lookup catalogue) b;
      match r with
      | Err (RInvalidBinding ErrRuleMismatch) => Ret (Err (RInvalidBinding ErrRuleMismatch))
      | Err (RInvalidBinding _) => ranswer 400 (lit "invalid binding")
      | Err e => Ret (Err e)
      | Ok _ =>
          _ ← deliverRuleChange ctx org false;
          _ ← call_out (AuditRule (ContextUserID ctx) (lit "rule.binding.set") rule);
          rsuccess b
      end)
  end.

Definition DeleteRuleBinding (ctx : Ctx) (rule : bytes) (id : uuid) : rhandler unit :=
  if negb (isAdmin ctx) then ranswer 403 msgAdminRequired
  else
    rand_ok (call_out (XDeleteBinding (cx_tenant ctx) id)) (λ _,
    _ ← call_out (AuditRule (ContextUserID ctx) (lit "rule.binding.delete") rule);
    rsuccess tt).
End handlers.
