(* ===== verification/RuleAdminClaims.v ===== *)
(** * What the administration of rules keeps

    Every row stored is one the gate and the resolution can work on, however the
    handlers interleave; a stop reaches the machines that are connected and changes
    nothing but the stop; and where the handlers fall short of that. *)
From S2P Require Import Prelude GoTime GoStrings Float Settings Dbtx Control Rules RuleResolve Rollout Incident Effect ApiWorld Accounts RuleDelivery RuleAdmin.

(** ** The rows *)

Section invariant.
Context (text_length : bytes → Z) (conv : float64 → Z) (srv : wiring).
Implicit Types (w : rule_world).

Record tables_ok w : Prop := {
  to_organizations : rw_organizations w !! Nil = None;
  (** A rollout is filed under its own customer and rule, with the customer's
      tenant, and passes the validation. *)
  to_rollouts : ∀ key row, rw_rollouts w !! key = Some row →
    key = (ro_OrganizationID (rr_rollout row), ro_RuleID (rr_rollout row)) ∧
    rw_organizations w !! key.1 = Some (rr_tenant row) ∧ ValidateRollout (rr_rollout row) = Ok tt;
  (** A binding is filed under its own id, with the customer's tenant, and passes
      the validation against the rule it names. *)
  to_bindings : ∀ id row, rw_bindings w !! id = Some row →
    id = bi_ID (br_binding row) ∧
    rw_organizations w !! bi_OrganizationID (br_binding row) = Some (br_tenant row) ∧
    ValidateBindingAgainst (Lookup (wi_catalogue srv)) (br_binding row) = Ok tt;
}.

Lemma validate_rollout r :
  ValidateRollout r = Ok tt ↔
  ro_RuleID r ≠ [] ∧ ro_OrganizationID r ≠ Nil ∧ 0 ≤ ro_RolloutPercent r ≤ 100 ∧ blen (ro_CanaryGroup r) ≤ 64 ∧
  validatePace r = Ok tt.
Proof.
  unfold ValidateRollout, maxCanaryGroupLen. change uuid_Nil with Nil.
  repeat (case_bool_decide; [split; [done|intros (? & ? & ? & ? & ?); (done || lia)]|]).
  split; [|by intros (_ & _ & _ & _ & ?)]. intros ?. split_and!; try done; lia.
Qed.

Lemma validatePace_stored r o rule en g pct kill at_ up by_ :
  validatePace r = Ok tt →
  validatePace (mk_rollout o rule en g pct kill at_ (ro_CanaryPercent (paced r)) (ro_StagedPercent (paced r))
    (whole_seconds (ro_CanaryHold (paced r))) (whole_seconds (ro_StagedHold (paced r))) up by_) = Ok tt.
Proof.
  unfold validatePace. set (p := paced r).
  assert (∀ h, hold_in_bounds h = true → hold_in_bounds (whole_seconds h) = true ∧ whole_seconds h ≠ 0) as Hh.
  { intros h. unfold hold_in_bounds, whole_seconds, minStageHold, maxStageHold, hour, minute.
    intros [H1%bool_decide_eq_true H2%bool_decide_eq_true]%andb_true_iff.
    assert (60 ≤ Z.quot h second ≤ 30 * 24 * 3600) as Hq.
    { unfold second in *. rewrite Z.quot_div_nonneg by lia. split; [apply Z.div_le_lower_bound|apply Z.div_le_upper_bound]; lia. }
    split; [|unfold second in *; lia]. apply andb_true_iff. rewrite !bool_decide_eq_true. unfold second in *. lia. }
  assert (∀ n, percent_in_bounds n = true → n ≠ 0) as Hp.
  { intros n. unfold percent_in_bounds, minStagePercent. intros [H%bool_decide_eq_true _]%andb_true_iff. lia. }
  destruct (percent_in_bounds (ro_CanaryPercent p)) eqn:E1; [|done]. cbn [negb].
  destruct (percent_in_bounds (ro_StagedPercent p)) eqn:E2; [|done]. cbn [negb].
  case_bool_decide as E3; [done|].
  destruct (hold_in_bounds (ro_CanaryHold p)) eqn:E4; [|done]. cbn [negb].
  destruct (hold_in_bounds (ro_StagedHold p)) eqn:E5; [|done]. intros _.
  unfold paced. cbn [ro_CanaryPercent ro_StagedPercent ro_CanaryHold ro_StagedHold].
  rewrite (bool_decide_false (ro_CanaryPercent p = 0)) by (by apply Hp).
  rewrite (bool_decide_false (ro_StagedPercent p = 0)) by (by apply Hp).
  destruct (Hh _ E4) as [E4' N4], (Hh _ E5) as [E5' N5].
  rewrite (bool_decide_false (whole_seconds (ro_CanaryHold p) = 0)) by done.
  rewrite (bool_decide_false (whole_seconds (ro_StagedHold p) = 0)) by done.
  rewrite E1, E2, E4', E5'. cbn [negb]. by rewrite bool_decide_false.
Qed.

Lemma validatePace_fields r r' :
  ro_CanaryPercent r' = ro_CanaryPercent r → ro_StagedPercent r' = ro_StagedPercent r →
  ro_CanaryHold r' = ro_CanaryHold r → ro_StagedHold r' = ro_StagedHold r → validatePace r' = validatePace r.
Proof. intros E1 E2 E3 E4. unfold validatePace, paced. cbn. by rewrite E1, E2, E3, E4. Qed.

(** The calls a handler may make: a statement is given only what was validated. *)
Definition rule_permitted R (c : rule_call R) : Prop :=
  match c with
  | XUpsertRollout _ r => ValidateRollout r = Ok tt
  | XStopRule _ _ rule _ _ | XStopRuleTenantWide _ rule _ _ => rule ≠ []
  | XSetRolloutStage _ _ rule percent _ => rule ≠ [] ∧ 0 ≤ percent ≤ 100
  | XUpsertBinding _ b => ValidateBindingAgainst (Lookup (wi_catalogue srv)) b = Ok tt
  | _ => True
  end.

Fixpoint only_permitted {A} (p : radmin A) : Prop :=
  match p with
  | Ret _ | Panic => True
  | @Do _ _ R c k => rule_permitted R c ∧ ∀ r, only_permitted (k r)
  end.

Lemma permitted_bind {A B} (p : radmin A) (k : A → radmin B) :
  only_permitted p → (∀ a, only_permitted (k a)) → only_permitted (p ≫= k).
Proof.
  intros Hp Hk. induction p as [a|R c k' IH|]; cbn in *; [apply Hk| |done].
  destruct Hp as [Hc Hr]. split; [done|]. intros r. by apply IH.
Qed.

Lemma permitted_rand_ok {A B} (p : radmin (result radmin_err A)) (k : A → radmin (result radmin_err B)) :
  only_permitted p → (∀ a, only_permitted (k a)) → only_permitted (rand_ok p k).
Proof. intros Hp Hk. apply permitted_bind; [done|]. intros [a|e]; [apply Hk|done]. Qed.

Lemma upsert_row_ok t fresh update w :
  tables_ok w → (ro_OrganizationID fresh ≠ Nil → ValidateRollout fresh = Ok tt) →
  (∀ r, ValidateRollout r = Ok tt → ro_OrganizationID r = ro_OrganizationID fresh → ro_RuleID r = ro_RuleID fresh →
     ValidateRollout (update r) = Ok tt ∧ ro_OrganizationID (update r) = ro_OrganizationID r ∧
     ro_RuleID (update r) = ro_RuleID r) →
  tables_ok (upsert_rollout_row text_length t fresh update w).2.
Proof.
  intros Hw Hf Hu. unfold upsert_rollout_row. set (key := (ro_OrganizationID fresh, ro_RuleID fresh)).
  destruct (rw_rollouts w !! key) as [row|] eqn:Ek.
  - destruct (rollout_row_ok _ fresh); [|done]. cbn [negb]. destruct (visible _ _); [|done]. cbn [negb].
    destruct (rollout_row_ok _ (update _)); [|done]. cbn [negb snd].
    destruct (to_rollouts w Hw key row Ek) as (Eo & Horg & Hv). injection Eo as Eo Er.
    destruct (Hu (rr_rollout row) Hv (eq_sym Eo) (eq_sym Er)) as (Hv' & Ho' & Hr').
    split; cbn; [apply Hw| |apply Hw]. intros k r'. rewrite lookup_insert_Some. intros [[<- <-]|[_ H]].
    + cbn. by rewrite Ho', Hr', <-Eo, <-Er.
    + by apply (to_rollouts w Hw).
  - destruct (rollout_row_ok _ fresh); [|done]. cbn [negb]. case_bool_decide as Ho; [|done]. cbn [negb snd].
    split; cbn; [apply Hw| |apply Hw]. intros k r'. rewrite lookup_insert_Some. intros [[<- <-]|[_ H]].
    + cbn. split_and!; [done|done|]. apply Hf. intros E.
      assert (Some (TenantID t) = None) as [=]. etrans; [symmetry; exact Ho|]. rewrite E. exact (to_organizations w Hw).
    + by apply (to_rollouts w Hw).
Qed.

Lemma with_kill_valid r kill now by_ : ValidateRollout r = Ok tt → ValidateRollout (with_kill r kill now by_) = Ok tt.
Proof. rewrite !validate_rollout. cbn. intros (? & ? & ? & ? & Hp). by rewrite (validatePace_fields r). Qed.

Lemma default_row_valid org rule now by_ : rule ≠ [] → org ≠ Nil → ValidateRollout (default_row org rule now by_) = Ok tt.
Proof. intros Hr Ho. rewrite validate_rollout. cbn. split_and!; try done; lia. Qed.

Lemma with_stage_valid r percent now by_ :
  0 ≤ percent ≤ 100 → ValidateRollout r = Ok tt → ValidateRollout (with_stage r percent now by_) = Ok tt.
Proof. intros ?. rewrite !validate_rollout. cbn. intros (? & ? & ? & ? & Hp). by rewrite (validatePace_fields r). Qed.

Lemma stop_sql_ok t org rule kill by_ w :
  rule ≠ [] → tables_ok w → tables_ok (stopRuleSQL text_length t org rule kill by_ w).2.
Proof.
  intros Hr Hw. apply upsert_row_ok; [done| |].
  - cbn. intros Ho. by apply with_kill_valid, default_row_valid.
  - intros r Hv _ _. split; [by apply with_kill_valid|done].
Qed.

Lemma upsert_sql_ok t r w :
  ValidateRollout r = Ok tt → tables_ok w → tables_ok (upsertRolloutSQL text_length t r w).2.
Proof.
  intros Hr Hw. apply validate_rollout in Hr as (Hr & Ho & Hpct & Hg & Hp).
  apply upsert_row_ok; [done| |].
  - intros _. rewrite validate_rollout. cbn -[paced]. split_and!; try done; try lia. by apply validatePace_stored.
  - intros old _ E1 E2. cbn -[paced] in *. split_and!; try done. rewrite validate_rollout. cbn -[paced].
    split_and!; try done; try lia. by apply validatePace_stored.
Qed.

Lemma stage_sql_ok t org rule percent by_ w :
  rule ≠ [] → 0 ≤ percent ≤ 100 → tables_ok w → tables_ok (setRolloutStageSQL text_length t org rule percent by_ w).2.
Proof.
  intros Hr Hpct Hw. apply upsert_row_ok; [done| |].
  - cbn. intros Ho. by apply with_stage_valid, default_row_valid.
  - intros r Hv _ _. split; [by apply with_stage_valid|done].
Qed.

Lemma stop_all_ok t rule kill by_ w :
  rule ≠ [] → tables_ok w → tables_ok (stopRuleTenantWideSQL text_length t rule kill by_ w).2.
Proof.
  intros Hr Hw. unfold stopRuleTenantWideSQL. match goal with |- context [foldl _ _ ?l] => generalize l end.
  intros own. assert (tables_ok (Ok tt : result radmin_err unit, w).2) as H by done. revert H.
  generalize (Ok tt : result radmin_err unit, w). induction own as [|org own IH]; intros [r w'] H; cbn; [done|].
  apply IH. destruct r as [[]|e]; [|done]. pose proof (stop_sql_ok t org rule kill by_ w' Hr H) as H'.
  destruct (stopRuleSQL _ t org rule kill by_ w') as [[[]|e] w'']; done.
Qed.

Lemma retuned_valid old b :
  bi_RuleID old = bi_RuleID b → bi_Level old = bi_Level b → bi_Selector old = bi_Selector b →
  ValidateBindingAgainst (Lookup (wi_catalogue srv)) b = Ok tt →
  ValidateBindingAgainst (Lookup (wi_catalogue srv)) (retuned old b) = Ok tt.
Proof.
  intros E1 E2 E3. unfold ValidateBindingAgainst, ValidateBinding. cbn. by rewrite E1, E2, E3.
Qed.

Lemma same_place_fields a b :
  same_place a b = true →
  bi_OrganizationID a = bi_OrganizationID b ∧ bi_RuleID a = bi_RuleID b ∧ bi_Level a = bi_Level b ∧ bi_LevelKey a = bi_LevelKey b.
Proof. unfold same_place. rewrite !andb_true_iff, !bool_decide_eq_true. tauto. Qed.

Lemma binding_sql_ok t b w :
  ValidateBindingAgainst (Lookup (wi_catalogue srv)) b = Ok tt → tables_ok w →
  tables_ok (upsertBindingSQL text_length t b w).2.
Proof.
  intros Hb Hw. unfold upsertBindingSQL. destruct (_ && _); [|done]. cbn [negb].
  destruct (List.find _ _) as [[id row]|] eqn:Ef.
  - apply List.find_some in Ef as [Hin%list_elem_of_In%elem_of_map_to_list Hs]. cbn in Hs.
    apply andb_true_iff in Hs as [(E1 & E2 & E3 & E4)%same_place_fields E5%bool_decide_eq_true].
    destruct (visible _ _); [|done]. cbn [negb]. destruct (precedence_taken _ _); [done|]. cbn [snd].
    destruct (to_bindings w Hw id row Hin) as (Eid & Ho & _).
    split; cbn; [apply Hw|apply Hw|]. intros i r'. rewrite lookup_insert_Some. intros [[<- <-]|[_ H]].
    + cbn. split_and!; [done|done|]. by apply retuned_valid.
    + by apply (to_bindings w Hw).
  - case_bool_decide; [done|]. destruct (precedence_taken _ _); [done|]. case_bool_decide as Ho; [|done]. cbn [negb snd].
    split; cbn; [apply Hw|apply Hw|]. intros i r'. rewrite lookup_insert_Some. intros [[<- <-]|[_ Hi]]; [done|].
    by apply (to_bindings w Hw).
Qed.

Lemma delete_sql_ok t id w : tables_ok w → tables_ok (deleteBindingSQL t id w).
Proof.
  intros Hw. split; cbn; [apply Hw|apply Hw|]. intros i r [H _]%map_lookup_filter_Some. by apply (to_bindings w Hw).
Qed.

Lemma frame_ok w w' :
  rw_organizations w' = rw_organizations w → rw_rollouts w' = rw_rollouts w → rw_bindings w' = rw_bindings w →
  tables_ok w → tables_ok w'.
Proof. intros E1 E2 E3 [H1 H2 H3]. by split; rewrite ?E1, ?E2, ?E3. Qed.

Lemma refreshed_frame ctx selects w :
  let w' := (refreshed conv srv ctx selects w).2 in
  rw_organizations w' = rw_organizations w ∧ rw_rollouts w' = rw_rollouts w ∧ rw_bindings w' = rw_bindings w.
Proof. unfold refreshed. by destruct (refreshRules _ _ _ _ _). Qed.

Lemma rexec_ok R (c : rule_call R) w :
  rule_permitted R c → tables_ok w → tables_ok (rexec text_length conv srv c w).2.
Proof.
  intros Hc Hw. destruct c; cbn -[refreshed]; unfold in_tenant; try (destruct (TenantFromContext _) as [t|]; [|done]); try done.
  - by apply upsert_sql_ok.
  - by apply stop_sql_ok.
  - by apply stop_all_ok.
  - destruct Hc. by apply stage_sql_ok.
  - by apply binding_sql_ok.
  - by apply delete_sql_ok.
  - destruct (refreshed_frame ctx (λ a, bool_decide (ag_organizationID a = organization)) w) as (? & ? & ?). by apply (frame_ok w).
  - destruct (refreshed_frame ctx (λ a, bool_decide (ag_TenantID a = tenant)) w) as (? & ? & ?). by apply (frame_ok w).
  - by apply (frame_ok w).
Qed.

Lemma pool_ok {A} (st st' : list (radmin A) * rule_world) :
  radmin_step text_length conv srv st st' →
  Forall only_permitted st.1 ∧ tables_ok st.2 → Forall only_permitted st'.1 ∧ tables_ok st'.2.
Proof.
  intros Hs [Hp Hw]. destruct Hs as [pool i R c k w E|pool i R c k r w E _|pool now w _|pool agents w]; cbn in *.
  - pose proof (Forall_lookup_1 _ _ _ _ Hp E) as [Hc Hk]. split; [by apply Forall_insert|]. by apply rexec_ok.
  - pose proof (Forall_lookup_1 _ _ _ _ Hp E) as [Hc Hk]. split; [by apply Forall_insert|done].
  - split; [done|]. by apply (frame_ok w).
  - split; [done|]. by apply (frame_ok w).
Qed.
End invariant.

(** ** The handlers *)

Inductive rule_request :=
  | RqRollout (ctx : Ctx) (rule : bytes) (named : option uuid) (body : RolloutBody)
  | RqStop (ctx : Ctx) (rule : bytes) (named : option uuid) (tenantWide stopped : bool)
  | RqBind (ctx : Ctx) (rule : bytes) (named : option uuid) (minted : uuid) (body : RuleBindingInput)
  | RqUnbind (ctx : Ctx) (rule : bytes) (id : uuid)
  | RqStage (ctx : option Tenant) (org : uuid) (rule : bytes) (percent : Z) (by_ : bytes).

Definition rstatus {A} (p : rhandler A) : radmin Z :=
  r ← p; Ret (match r with Ok (Answer status _) => status | Ok (Success _) => 200 | Err _ => 500 end).

Definition rule_serve (cat : Catalogue) (r : rule_request) : radmin Z :=
  match r with
  | RqRollout ctx rule named body => rstatus (PutRuleRollout cat ctx rule named body)
  | RqStop ctx rule named tenantWide stopped => rstatus (StopRule cat ctx rule named tenantWide stopped)
  | RqBind ctx rule named minted body => rstatus (PutRuleBinding cat ctx rule named minted body)
  | RqUnbind ctx rule id => rstatus (DeleteRuleBinding ctx rule id)
  | RqStage ctx org rule percent by_ =>
      r ← SetRolloutStage ctx org rule percent by_; Ret (match r with Ok _ => 200 | Err _ => 500 end)
  end.

Section handlers.
Context (text_length : bytes → Z) (conv : float64 → Z) (srv : wiring).
#[local] Abbreviation permitted := (only_permitted srv).

Lemma permitted_customer ctx named : permitted (customerOrDefault ctx named).
Proof. unfold customerOrDefault. destruct named; [case_bool_decide|]; done. Qed.

Lemma permitted_deliver ctx org wide : permitted (deliverRuleChange ctx org wide).
Proof. unfold deliverRuleChange. destruct wide; [destruct (TenantFromContext _)|]; done. Qed.

Lemma permitted_upsert ctx r : permitted (UpsertRollout ctx r).
Proof.
  unfold UpsertRollout. destruct (ValidateRollout r) as [[]|] eqn:E; [|done]. destruct (TenantFromContext ctx); [|done].
  by split.
Qed.

Lemma permitted_setKill ctx org rule kill by_ : permitted (setKill ctx org rule kill by_).
Proof. unfold setKill. case_bool_decide; [done|]. destruct (TenantFromContext ctx); [by split|done]. Qed.

Lemma permitted_setKillTenantWide ctx rule kill by_ : permitted (setKillTenantWide ctx rule kill by_).
Proof. unfold setKillTenantWide. case_bool_decide; [done|]. destruct (TenantFromContext ctx); [by split|done]. Qed.

Lemma permitted_serve r : permitted (rule_serve (wi_catalogue srv) r).
Proof.
  destruct r as [ctx rule named body|ctx rule named wide stopped|ctx rule named minted body|ctx rule id|ctx org rule pct by_];
    cbn [rule_serve]; (apply permitted_bind; [|done]).
  - unfold PutRuleRollout. destruct (isAdmin ctx); [|done]. cbn [negb]. destruct (Lookup _ _); [|done].
    apply permitted_rand_ok; [apply permitted_customer|]. intros org. apply permitted_bind; [by split|]. intros stored.
    by apply permitted_bind; [apply permitted_upsert|intros [[]|[]]].
  - unfold StopRule. destruct (isAdmin ctx); [|done]. cbn [negb]. destruct (Lookup _ _); [|done].
    apply permitted_rand_ok; [apply permitted_customer|]. intros org. apply permitted_rand_ok.
    + unfold applyStop. destruct wide; [apply permitted_setKillTenantWide|apply permitted_setKill].
    + intros []. apply permitted_bind; [apply permitted_deliver|done].
  - unfold PutRuleBinding. destruct (isAdmin ctx); [|done]. cbn [negb]. destruct (Lookup _ _); [|done].
    apply permitted_rand_ok; [apply permitted_customer|]. intros org. apply permitted_bind.
    + unfold UpsertBinding. destruct (ValidateBindingAgainst _ _) as [[]|] eqn:E; [|done].
      destruct (TenantFromContext _); [by split|done].
    + by intros [[]|[| |[]| |]].
  - unfold DeleteRuleBinding. destruct (isAdmin ctx); [|done]. by apply permitted_rand_ok.
  - unfold SetRolloutStage. destruct (ValidateRollout _) as [[]|] eqn:E; [|done].
    apply validate_rollout in E as (Hr & _ & Hp & _). destruct (TenantFromContext ctx); [by split|done].
Qed.

(** C38: The rule tables stay usable under any interleaving of administrators, the gate
    and failures: every rollout stored passes the validation, so its stages and
    holds are what the gate expects; every binding stored is valid for the rule it
    names; each is filed under its own key with its customer's tenant. *)
Theorem rule_tables_ok reqs w st :
  tables_ok srv w → rtc (radmin_step text_length conv srv) (rule_serve (wi_catalogue srv) <$> reqs, w) st →
  tables_ok srv st.2.
Proof.
  intros Hw Hs. enough (Forall permitted st.1 ∧ tables_ok srv st.2) by tauto.
  remember (rule_serve _ <$> reqs, w) as st0. assert (Forall permitted st0.1 ∧ tables_ok srv st0.2) as H0.
  { subst st0. split; [|done]. apply Forall_fmap, Forall_forall. intros r _. apply permitted_serve. }
  clear Heqst0. induction Hs as [|st1 st2 st3 Hstep _ IH]; [done|]. apply IH. by eapply pool_ok.
Qed.
End handlers.

Lemma rschedule_steps {A} text_length conv srv sched (pool : list (radmin A)) w :
  rtc (radmin_step text_length conv srv) (pool, w) (rschedule text_length conv srv sched pool w).
Proof.
  revert pool w. induction sched as [|i sched IH]; intros pool w; cbn; [done|].
  destruct (pool !! i) as [[a|R c k|]|] eqn:E; try apply IH.
  pose proof (radmin_call text_length conv srv pool i R c k w E) as Hs. destruct (rexec _ _ _ c w) as [r w']. cbn in Hs.
  eapply rtc_l; [exact Hs|apply IH].
Qed.

(** ** Stopping a rule *)

Section stop.
Context (text_length : bytes → Z) (conv : float64 → Z) (srv : wiring).
Implicit Types (w : rule_world).

Lemma none_some {A} (x : option A) a : x = None → x = Some a → False.
Proof. by intros ->. Qed.

Lemma rrun_bind {A B} (p : radmin A) (k : A → radmin B) w :
  rrun text_length conv srv [] (p ≫= k) w =
  match rrun text_length conv srv [] p w with
  | (Some a, w') => rrun text_length conv srv [] (k a) w'
  | (None, w') => (None, w')
  end.
Proof.
  revert w. induction p as [a|R c k' IH|]; intros w; cbn -[rexec]; [done| |done].
  destruct (rexec _ _ _ c w) as [r w']. apply IH.
Qed.

Lemma rollouts_of_lookup t (org : bytes) w id r :
  tables_ok srv w →
  rollouts_of t org w !! id = Some r ↔
  ∃ row, rw_rollouts w !! (org, id) = Some row ∧ rr_tenant row = TenantID t ∧ rr_rollout row = r.
Proof.
  intros Hw. unfold rollouts_of. pose proof (to_rollouts srv w Hw) as Hk. revert id r.
  apply (map_fold_weak_ind (λ acc m, (∀ key row, m !! key = Some row →
    key = (ro_OrganizationID (rr_rollout row), ro_RuleID (rr_rollout row))) →
    ∀ id r, acc !! id = Some r ↔ ∃ row, m !! (org, id) = Some row ∧ rr_tenant row = TenantID t ∧ rr_rollout row = r)).
  - intros _ id r. rewrite lookup_empty. split; [done|]. intros (row & H & _). by rewrite lookup_empty in H.
  - intros key row m acc Hkey IH Hm id r. assert (key = (ro_OrganizationID (rr_rollout row), ro_RuleID (rr_rollout row))) as Ek.
    { apply Hm. by rewrite lookup_insert_eq. }
    assert (∀ id r, acc !! id = Some r ↔ ∃ row, m !! (org, id) = Some row ∧ rr_tenant row = TenantID t ∧ rr_rollout row = r) as IH'.
    { apply IH. intros k r' H. apply Hm. rewrite lookup_insert_ne; [done|]. intros <-. exact (none_some _ _ Hkey H). }
    destruct (decide (key = (org, id))) as [Eq|Hne].
    + rewrite Eq in Ek, Hkey |- *. injection Ek as Eo Er. rewrite (bool_decide_true (ro_OrganizationID _ = org)) by done. rewrite andb_true_r.
      case_bool_decide as Ht.
      * rewrite <-Er. rewrite lookup_insert_eq. split; [intros [= <-]; exists row|intros (row' & H & _ & <-)].
        -- by rewrite Er, lookup_insert_eq.
        -- rewrite Er, lookup_insert_eq in H. by injection H as <-.
      * rewrite IH'. split; [intros (row' & H & _); exfalso; exact (none_some _ _ Hkey H)|].
        intros (row' & H & Ht' & _). rewrite lookup_insert_eq in H. injection H as <-. done.
    + transitivity (acc !! id = Some r).
      * case_match eqn:Eb; [|done]. apply andb_true_iff in Eb as [_ Eo%bool_decide_eq_true].
        rewrite lookup_insert_ne; [done|]. intros E. apply Hne. by rewrite Ek, Eo, E.
      * rewrite IH'. split; intros (row' & H & ?); exists row'; [by rewrite lookup_insert_ne|].
        by rewrite lookup_insert_ne in H.
  - intros key row H. apply (Hk key row H).
Qed.

Lemma rollouts_keyed t org w : tables_ok srv w → keyed (rollouts_of t org w).
Proof.
  intros Hw id r (row & H & _ & <-)%rollouts_of_lookup; [|done]. destruct (to_rollouts srv w Hw _ _ H) as [E _]. by injection E.
Qed.

Lemma refreshRules_lookup {P} `{!AlertRuleProvider P} (p : option P) settings sends selects conns i :
  (refreshRules p settings sends selects conns).2 !! i =
  (λ a, if bool_decide (ag_organizationID a = Nil) || negb (selects a) then a
        else (pushAlertRules p settings (sends a) a).2) <$> conns !! i.
Proof.
  revert i. induction conns as [|a conns IH]; intros i; cbn; [done|].
  destruct (refreshRules _ _ _ _ conns) as [n conns'] eqn:E. cbn in IH.
  destruct (bool_decide _ || _) eqn:Eb.
  - destruct i as [|i]; cbn; [by rewrite Eb|apply IH].
  - destruct (pushAlertRules p settings (sends a) a) as [r a'] eqn:Ea. destruct i as [|i]; cbn; [by rewrite Eb, Ea|apply IH].
Qed.

Lemma stop_row t (org : bytes) rule kill by_ w w' :
  tables_ok srv w → rw_organizations w !! org = Some (TenantID t) →
  stopRuleSQL text_length t org rule kill by_ w = (Ok tt, w') →
  ∃ r, w' = set_rollouts w (<[(org, rule) := mk_rrow (TenantID t) r]> (rw_rollouts w)) ∧ ro_Kill r = kill ∧
       ∀ old, rw_rollouts w !! (org, rule) = Some old → r = with_kill (rr_rollout old) kill (rw_now w) by_.
Proof.
  intros Hw Ho. unfold stopRuleSQL, upsert_rollout_row. set (fresh := with_kill (default_row _ _ _ _) _ _ _).
  change (ro_OrganizationID fresh) with org. change (ro_RuleID fresh) with rule.
  destruct (rw_rollouts w !! (org, rule)) as [row|] eqn:Ek; (destruct (rollout_row_ok text_length fresh); [|done]).
  - cbn [negb]. destruct (visible _ _); [|done]. cbn [negb]. destruct (rollout_row_ok _ _); [|done]. intros [= <-].
    destruct (to_rollouts srv w Hw _ _ Ek) as (_ & Ht & _). cbn in Ht.
    assert (rr_tenant row = TenantID t) as -> by (apply (inj Some); etrans; [symmetry; exact Ht|exact Ho]).
    eexists. split; [done|]. split; [done|]. by intros old [= <-].
  - cbn [negb]. case_bool_decide; [|done]. intros [= <-]. by exists fresh.
Qed.

(** What a push gives a machine whose customer stopped the rule. *)
Lemma push_stopped ctx t (org : bytes) rule r w a scope sends :
  tables_ok srv w → TenantFromContext ctx = Some t → org ≠ Nil → NoDup (df_ID <$> All (wi_catalogue srv)) →
  rw_rollouts w !! (org, rule) = Some (mk_rrow (TenantID t) r) → ro_Kill r = true →
  wi_scopeFor srv (ag_DeviceID a) = Some scope → sc_OrganizationID scope = org →
  ∃ rs wanted,
    (pushAlertRules (AlertRuleProvider0 := table_provider conv) (Some (provider_of srv ctx w)) (Some (wi_scopeFor srv)) sends a).2 =
      mk_agent (ag_DeviceID a) (ag_SiteID a) (ag_TenantID a) (ag_Capabilities a) org (Some wanted)
        (ag_sent a ++ if requireCapability CapThresholdAlerts a && sends then [rs] else []) ∧
    given rs rule = [] ∧ rule ∉ wanted.
Proof.
  intros Hw Ht Ho Hnd Hrow Hkill Hs Eo.
  assert (rollouts_of t org w !! rule = Some r) as Hr by (apply rollouts_of_lookup; eauto).
  assert (RolloutFor (rollouts_of t org w) org rule = r) as Hro by (unfold RolloutFor; by rewrite Hr).
  assert (Delivers r = false) as Hd by (unfold Delivers; by rewrite Hkill, andb_false_r).
  unfold pushAlertRules, settingsScope. rewrite Hs. cbn [from_option id].
  unfold RulesFor, table_provider, provider, CatalogueAlertRuleProvider_RulesFor. rewrite Eo, bool_decide_false by done.
  set (p := provider_of srv ctx w).
  assert (p_ListBindings p org = Some (bindings_of t org w)) as -> by (cbn; by rewrite Ht). cbn [mbind option_bind].
  assert (p_ListRollouts p org = Some (rollouts_of t org w)) as -> by (cbn; by rewrite Ht). cbn [mbind option_bind].
  unfold SendPushAlertRules, requireCapability, rememberRuleset. cbn [ag_Capabilities].
  fold (requireCapability CapThresholdAlerts a). cbn [rs_EventRules].
  eexists _, _. split; [by destruct (requireCapability _ a), sends; cbn; rewrite ?app_nil_r|]. split.
  - unfold given. cbn [rs_Rules]. apply elem_of_nil_inv.
    intros x [Ex (def & Hdef & Hwe & Hre & ->)%resolveAll_elem]%list_elem_of_filter.
    cbn in Ex. cbn [dv_Scope] in Hre. rewrite Eo, Ex, Hro in Hre. unfold Reaches in Hre. by rewrite Hd in Hre.
  - intros (def & _ & _ & _ & Hdel)%wantedEventRules_elem. by rewrite Hro, Hd in Hdel.
Qed.

(** C7: Stopping a rule for a customer, when it is answered with success, leaves the
    row stopped and otherwise as it was and changes no other row and no binding. Of
    the connected machines, those of other customers are left alone; one of this
    customer whose place in the tenancy is read has had its wanted event rules
    replaced, so that an alert of a stopped event rule is refused from now on, and
    has been sent a ruleset without the rule if it takes rules and its stream takes
    the frame, and nothing otherwise. Delivery is best effort: the answer does not
    depend on it, alerts of a stopped reading rule are not refused, and a machine
    whose place cannot be read is outside the claim. The request runs alone, on
    valid tables and with a catalogue whose identifiers are distinct, and the
    database answers it. *)
Theorem stop_takes_effect ctx t (org : bytes) rule w w' :
  tables_ok srv w → TenantFromContext (cx_tenant ctx) = Some t → rw_organizations w !! org = Some (TenantID t) →
  NoDup (df_ID <$> All (wi_catalogue srv)) →
  rrun text_length conv srv [] (StopRule (wi_catalogue srv) ctx rule (Some org) false true) w = (Some (Ok (Success tt)), w') →
  (∃ r, rw_rollouts w' = <[(org, rule) := mk_rrow (TenantID t) r]> (rw_rollouts w) ∧ ro_Kill r = true ∧
        ∀ old, rw_rollouts w !! (org, rule) = Some old →
          r = with_kill (rr_rollout old) true (rw_now w) (uuid_String (ContextUserID ctx))) ∧
  rw_bindings w' = rw_bindings w ∧
  ∀ i a, rw_agents w !! i = Some a → ∃ a', rw_agents w' !! i = Some a' ∧
    (ag_organizationID a ≠ org → a' = a) ∧
    ∀ scope, ag_organizationID a = org → wi_scopeFor srv (ag_DeviceID a) = Some scope → sc_OrganizationID scope = org →
      (watchesEvents (Some (wi_catalogue srv)) rule = true → customerWants (Some (wi_catalogue srv)) a' rule = false) ∧
      if requireCapability CapThresholdAlerts a && wi_sends srv a
      then ∃ rs, ag_sent a' = ag_sent a ++ [rs] ∧ given rs rule = []
      else ag_sent a' = ag_sent a.
Proof.
  intros Hw Ht Horg Hnd. assert (org ≠ Nil) as Hn.
  { intros ->. exact (none_some _ _ (to_organizations srv w Hw) Horg). }
  unfold StopRule. destruct (isAdmin ctx); [|done]. cbn [negb]. destruct (Lookup _ rule); [|done].
  unfold rand_ok at 1. rewrite rrun_bind. unfold customerOrDefault. rewrite bool_decide_true by done. cbn [rrun].
  unfold rand_ok at 1. rewrite rrun_bind. unfold applyStop, setKill. case_bool_decide as Hr; [done|]. rewrite Ht.
  cbn -[stopRuleSQL refreshed]. unfold in_tenant. rewrite Ht.
  destruct (stopRuleSQL _ _ _ _ _ _ _) as [[[]|e] w1] eqn:E1; [|done].
  pose proof (stop_sql_ok text_length srv t org rule true (uuid_String (ContextUserID ctx)) w Hr Hw) as Hw1. rewrite E1 in Hw1. cbn [snd] in Hw1.
  destruct (stop_row _ _ _ _ _ _ _ Hw Horg E1) as (r & E & Hkill & Hold).
  cbn -[refreshed]. unfold refreshed.
  match goal with |- context [@refreshRules ?P ?I ?p ?s ?f ?g ?l] => destruct (@refreshRules P I p s f g l) as [n agents] eqn:Eg end. cbn. intros [= <-]. cbn. rewrite E. cbn.
  split; [by exists r|]. split; [done|]. intros i a Ha.
  pose proof (refreshRules_lookup (AlertRuleProvider0 := table_provider conv) (Some (provider_of srv (cx_tenant ctx) w1)) (Some (wi_scopeFor srv)) (wi_sends srv)
                (λ a, bool_decide (ag_organizationID a = org)) (rw_agents w1) i) as Hl.
  rewrite Eg in Hl. cbn [snd] in Hl. assert (rw_agents w1 = rw_agents w) as Eag by (by rewrite E).
  rewrite Eag, Ha in Hl. cbn [fmap option_fmap option_map] in Hl. eexists. split; [exact Hl|]. split.
  { intros Ea. by rewrite (bool_decide_false (ag_organizationID a = org)), orb_true_r. }
  intros scope Ea Hs Eo. rewrite (bool_decide_false (ag_organizationID a = Nil)), (bool_decide_true (ag_organizationID a = org)) by congruence.
  assert (rw_rollouts w1 !! (org, rule) = Some (mk_rrow (TenantID t) r)) as Hrow by (rewrite E; cbn; by rewrite lookup_insert_eq).
  destruct (push_stopped (cx_tenant ctx) t org rule r w1 a scope (wi_sends srv a) Hw1 Ht Hn Hnd Hrow Hkill Hs Eo) as (rs & wanted & Ep & Hg & Hwant).
  cbn [orb negb]. rewrite Ep. unfold customerWants. cbn [ag_wantedEventRules ag_sent]. split.
  - intros ->. by apply bool_decide_eq_false.
  - destruct (_ && _); [by exists rs|apply app_nil_r].
Qed.
End stop.

(** A binding that is deleted is not delivered: the machines that are connected keep
    the tuned rule until they register again. *)
Lemma deleted_binding_not_delivered text_length conv srv ctx rule id w :
  rw_agents (rrun text_length conv srv [] (DeleteRuleBinding ctx rule id) w).2 = rw_agents w.
Proof.
  unfold DeleteRuleBinding. destruct (isAdmin ctx); [|done]. cbn. unfold in_tenant. by destruct (TenantFromContext _).
Qed.

(** ** Runs *)

Module Estate.
Definition uid_ (b : byte) : uuid := replicate 15 x00 ++ [b].
Definition reading : Definition_ := sample_def.
Definition pack : Catalogue := mk_catalogue {[df_ID reading := reading]} [df_ID reading].
Definition customer : uuid := uid_ xc1.
Definition foreign : uuid := uid_ xc2.
Definition machine : uuid := uid_ xd1.
Definition tenantB : uuid := uid_ xb0.

Definition server : wiring :=
  mk_wiring pack (λ d, Some (mk_scope d Nil customer DefaultTenantID)) (λ _, Some ∅) (λ _, Some 12) (λ _, None) (λ _, true)
    (λ _, Some customer).

Definition connected : agent :=
  mk_agent machine Nil DefaultTenantID [CapThresholdAlerts] customer (Some ∅) [].

Definition estate : rule_world :=
  mk_rworld 0 {[customer := DefaultTenantID; foreign := tenantB]} ∅ ∅ [connected] [].

Definition root_ctx : Ctx :=
  mk_ctx (Some (mk_tenant DefaultTenantID true)) (Some (mk_claims (uid_ x0a) DefaultTenantID (lit "root@x") true)).

Definition pace (enabled : bool) : RolloutBody := mk_rollout_body enabled 2 20 3600 3600.

Abbreviation go := (rrun blen (λ _, 0) server).
Definition stop_ctx : rhandler unit := StopRule pack root_ctx (df_ID reading) (Some customer) false true.
Definition repace : rhandler Rollout := PutRuleRollout pack root_ctx (df_ID reading) (Some customer) (pace true).
Definition row_of (w : rule_world) : option (bool * Z) :=
  (λ r, (ro_Kill (rr_rollout r), ro_RolloutPercent (rr_rollout r))) <$> rw_rollouts w !! (customer : bytes, df_ID reading).
Lemma estate_ok : tables_ok server estate.
Proof.
  split; [by vm_compute|intros key row H; by destruct (lookup_empty_Some (M := gmap (bytes * bytes)) key row)|intros id row H; by destruct (lookup_empty_Some (M := gmap uuid) id row)].
Qed.

Lemma pack_ids : NoDup (df_ID <$> All pack).
Proof. refine (bool_decide_eq_true_1 _ _). by vm_compute. Qed.

(** A new pace keeps the stop and the reach as they were read. *)
Example repaced :
  row_of (go [] repace (go [] stop_ctx estate).2).2 = Some (true, 100).
Proof. by vm_compute. Qed.

(** A new pace written while the rollouts cannot be read starts from the shipped
    default: it lifts the stop, answers with success, and sends the machine the rule
    that was stopped. *)
Theorem failed_read_lifts_stop :
  let w := (go [] stop_ctx estate).2 in
  let '(answer, w') := go [true] repace w in
  row_of w = Some (true, 100) ∧ row_of w' = Some (false, 100) ∧
  match answer with Some (Ok (Success _)) => True | _ => False end ∧
  (last (rw_agents w') ≫= (λ a, (λ rs, length (given rs (df_ID reading))) <$> last (ag_sent a))) = Some 1%nat.
Proof. vm_compute. split_and!; reflexivity. Qed.

(** A stop that comes between the read and the write of a new pace is lost. *)
Example stop_lost_to_pace :
  let '(pool, w) := rschedule blen (λ _, 0) server [0; 1; 1; 1; 0; 0; 0]%nat [rstatus repace; rstatus stop_ctx] estate in
  (pool !! 0%nat, pool !! 1%nat, row_of w) = (Some (Ret 200), Some (Ret 200), Some (false, 100)).
Proof. by vm_compute. Qed.

Definition foreign_row : rule_world :=
  mk_rworld 0 (rw_organizations estate)
    {[(foreign : bytes, df_ID reading) := mk_rrow tenantB (default_row foreign (df_ID reading) 0 [])]} ∅ [] [].

(** An administrator who names another tenant's customer changes its row when there is
    one, and is refused when there is none. *)
Example foreign_customer_stopped :
  let p := rstatus (StopRule pack root_ctx (df_ID reading) (Some foreign) false true) in
  let '(a, w) := go [] p foreign_row in
  (a, (λ r, ro_Kill (rr_rollout r)) <$> rw_rollouts w !! (foreign : bytes, df_ID reading),
   (go [] p estate).1) = (Some 200, Some true, Some 500).
Proof. by vm_compute. Qed.

Definition tuned (n : Z) : RuleBindingInput :=
  mk_binding_input None (lit "organization") customer {[lit "threshold" := f_of_Z n]} None None.
Definition bind_ (b : byte) (n : Z) : rhandler Binding :=
  PutRuleBinding pack root_ctx (df_ID reading) (Some customer) (uid_ b) (tuned n).

(** Tuning a place that is tuned already keeps the row's id and answers another:
    deleting what was answered deletes nothing, with success. *)
Example answered_id_not_stored :
  let w := (go [] (bind_ xb1 70) estate).2 in
  let '(a, w') := go [] (bind_ xb2 60) w in
  let '(b, w'') := go [] (rstatus (DeleteRuleBinding root_ctx (df_ID reading) (uid_ xb2))) w' in
  (match a with Some (Ok (Success b)) => Some (bi_ID b) | _ => None end, b, (map_to_list (rw_bindings w'')).*1) =
  (Some (uid_ xb2), Some 200, [uid_ xb1]).
Proof. by vm_compute. Qed.

Lemma rule_tables_ok_witness :
  let st := rschedule blen (λ _, 0) server [0; 1; 1; 1; 0; 0; 0]%nat
              (rule_serve pack <$> [RqRollout root_ctx (df_ID reading) (Some customer) (pace true);
                                    RqStop root_ctx (df_ID reading) (Some customer) false true]) estate in
  size (rw_rollouts st.2) = 1%nat ∧ tables_ok server st.2.
Proof.
  intros st. split; [by vm_compute|].
  exact (rule_tables_ok blen (λ _, 0) server _ estate st estate_ok (rschedule_steps _ _ _ _ _ _)).
Defined.

Lemma stop_takes_effect_witness :
  ∃ w' a' rs, (go [] stop_ctx estate) = (Some (Ok (Success tt)), w') ∧
    rw_agents w' !! 0%nat = Some a' ∧ ag_sent a' = [] ++ [rs] ∧ given rs (df_ID reading) = [].
Proof.
  assert ((go [] stop_ctx estate).1 = Some (Ok (Success tt))) as Ha by (by vm_compute).
  destruct (go [] stop_ctx estate) as [o w'] eqn:E. cbn in Ha. rewrite Ha in E. exists w'.
  destruct (stop_takes_effect blen (λ _, 0) server root_ctx (mk_tenant DefaultTenantID true) customer (df_ID reading) estate w'
              estate_ok eq_refl eq_refl pack_ids E) as (_ & _ & H).
  destruct (H 0%nat connected eq_refl) as (a' & H1 & _ & H2).
  destruct (H2 (mk_scope machine Nil customer DefaultTenantID) eq_refl eq_refl eq_refl) as (_ & rs & H3 & H4).
  exists a', rs. rewrite Ha. split; [reflexivity|]. split; [exact H1|]. split; [exact H3|exact H4].
Defined.
End Estate.
