(* ===== verification/Connections.v ===== *)
(** * Agent connections

    [src/server/internal/agentapi/server_connection.go] with the connection map,
    the count and the lookups of [server.go], [deregister.go],
    [conn_restricted.go], and the dispatch of [conn.go]: a machine's connection is
    registered under the device's status gate, served, and released under the
    same gate; a newer connection replaces an older one, which is probed and
    closed.

    Every goroutine is a program of the calls that touch what goroutines share,
    one call at a time in any interleaving.  The two sections [enter] and [leave]
    run under the gate's own mutex block on nothing and are one call each; the
    device's lock is a heap object with a mutex that is waited for.  A database
    write may fail, with or without having taken effect, and the machine decides
    what is read and when reading fails.  The messages whose handlers touch none
    of this state are one opaque call; what registration sends to the machine
    after its two writes is in [RuleDelivery] and [Renewal]. *)
From S2P Require Import Prelude GoTime Settings Dbtx Codec Ledger Effect Backfill Coverage.

(** ** The device's row, as far as connections see it *)

Definition StatusOnline : bytes := lit "online".
Definition StatusOffline : bytes := lit "offline".

Record status_row := mk_srow { sr_tenant : uuid; sr_status : bytes }.
Abbreviation status_rows := (gmap bytes status_row).

Definition has_row (t : uuid) (d : bytes) (rows : status_rows) : bool :=
  match rows !! d with Some r => bool_decide (sr_tenant r = t) | None => false end.

(** [SetStatus]: false when the caller's tenant has no such row, which is
    [ErrDeviceNotFound]. *)
Definition SetStatus (t : uuid) (d : bytes) (st : bytes) (rows : status_rows) : bool * status_rows :=
  if has_row t d rows then (true, <[d := mk_srow t st]> rows) else (false, rows).

(** [Upsert] of a registering machine: the row policy refuses a row of another
    tenant. *)
Definition upsert_status (t : uuid) (d : bytes) (rows : status_rows) : bool * status_rows :=
  match rows !! d with
  | Some r => if bool_decide (sr_tenant r = t) then (true, <[d := mk_srow t StatusOnline]> rows) else (false, rows)
  | None => (true, <[d := mk_srow t StatusOnline]> rows)
  end.

(** [ResetAllStatuses], in one tenant. *)
Definition ResetAllStatuses (t : uuid) (rows : status_rows) : status_rows :=
  (λ r, if bool_decide (sr_tenant r = t) && bool_decide (sr_status r = StatusOnline)
        then mk_srow t StatusOffline else r) <$> rows.

(** ** The status gate *)

Record deviceStatusLock := mk_dlock { dl_holder : option nat; dl_waiting : Z }.
Record deviceStatusGate := mk_dgate { dg_locks : gmap bytes nat; dg_heap : gmap nat deviceStatusLock }.

Definition no_gate : deviceStatusGate := mk_dgate ∅ ∅.

Definition set_lock (g : deviceStatusGate) (l : nat) (k : deviceStatusLock) : deviceStatusGate :=
  mk_dgate (dg_locks g) (<[l := k]> (dg_heap g)).

(** [enter] up to [g.mu.Unlock]: the lock of the device, counted in. *)
Definition gate_join (d : bytes) (g : deviceStatusGate) : nat * deviceStatusGate :=
  match dg_locks g !! d with
  | Some l =>
      (l, match dg_heap g !! l with
          | Some k => set_lock g l (mk_dlock (dl_holder k) (dl_waiting k + 1))
          | None => g
          end)
  | None =>
      let l := fresh (dom (dg_heap g)) in
      (l, mk_dgate (<[d := l]> (dg_locks g)) (<[l := mk_dlock None 1]> (dg_heap g)))
  end.

(** [lock.mu.Lock]: waits while the mutex is held. *)
Definition gate_lock (self l : nat) (g : deviceStatusGate) : option deviceStatusGate :=
  match dg_heap g !! l with
  | Some (mk_dlock None n) => Some (set_lock g l (mk_dlock (Some self) n))
  | _ => None
  end.

Definition gate_unlock (l : nat) (g : deviceStatusGate) : deviceStatusGate :=
  match dg_heap g !! l with
  | Some k => set_lock g l (mk_dlock None (dl_waiting k))
  | None => g
  end.

(** The rest of the function [enter] returns, under [g.mu]. *)
Definition gate_leave (d : bytes) (l : nat) (g : deviceStatusGate) : deviceStatusGate :=
  match dg_heap g !! l with
  | Some k =>
      let g := set_lock g l (mk_dlock (dl_holder k) (dl_waiting k - 1)) in
      if bool_decide (dl_waiting k - 1 = 0) then mk_dgate (delete d (dg_locks g)) (dg_heap g) else g
  | None => g
  end.

Definition inFlight (g : deviceStatusGate) : list bytes := elements (dom (dg_locks g)).

(** ** Connections *)

Definition CloseBye : Z := 0.
Definition CloseRestrictedSessionEnded : Z := 4.
Definition CloseCertificateRefused : Z := 5.
Definition CloseReplacedByNewerConnection : Z := 6.

Record AgentConn := mk_aconn {
  ac_DeviceID : bytes;
  ac_TenantID : uuid;
  ac_certFP : Fingerprint;
  ac_restricted : bool;
  ac_released : bool;
  ac_closed : option Z;      (* the code the QUIC connection was first closed with *)
  ac_pongs : bool;           (* a pong waits in the channel *)
}.

Definition mark_released (a : AgentConn) : AgentConn :=
  mk_aconn (ac_DeviceID a) (ac_TenantID a) (ac_certFP a) (ac_restricted a) true (ac_closed a) (ac_pongs a).
Definition close_with (code : Z) (a : AgentConn) : AgentConn :=
  mk_aconn (ac_DeviceID a) (ac_TenantID a) (ac_certFP a) (ac_restricted a) (ac_released a)
    (match ac_closed a with Some c => Some c | None => Some code end) (ac_pongs a).
Definition set_pongs (b : bool) (a : AgentConn) : AgentConn :=
  mk_aconn (ac_DeviceID a) (ac_TenantID a) (ac_certFP a) (ac_restricted a) (ac_released a) (ac_closed a) b.

(** What the read loop gets: a frame and, of a control frame, the type of the
    message when it decodes. *)
Inductive frame := mk_frame (ty : byte) (msg : option bytes).

Definition MsgAgentRegister : bytes := lit "AgentRegister".
Definition MsgAgentHeartbeat : bytes := lit "AgentHeartbeat".
Definition MsgAgentHealthSummary : bytes := lit "AgentHealthSummary".
Definition MsgAgentMetricWindow : bytes := lit "AgentMetricWindow".
Definition MsgDiscoveryReport : bytes := lit "DiscoveryReport".
Definition MsgHealthWindowResponse : bytes := lit "HealthWindowResponse".
Definition MsgRequestBackfillSlot : bytes := lit "RequestBackfillSlot".
Definition MsgMetricBackfillBatch : bytes := lit "MetricBackfillBatch".
Definition MsgAgentAlert : bytes := lit "AgentAlert".
Definition MsgCertificateSigningRequest : bytes := lit "CertificateSigningRequest".
Definition MsgCertificateInstalled : bytes := lit "CertificateInstalled".

Definition isWritePathMessage (t : bytes) : bool :=
  bool_decide (t ∈ [MsgAgentRegister; MsgAgentHeartbeat; MsgAgentHealthSummary; MsgAgentMetricWindow;
                    MsgDiscoveryReport; MsgHealthWindowResponse; MsgRequestBackfillSlot; MsgMetricBackfillBatch;
                    MsgAgentAlert]).

(** ** Calls on what goroutines share *)

Inductive ccall : Type → Type :=
  | GJoin (d : bytes) : ccall nat
  | GLock (l : nat) : ccall unit
  | GUnlock (l : nat) : ccall unit
  | GLeave (d : bytes) (l : nat) : ccall unit
  | Swap (d : bytes) (ac : nat) : ccall (option nat)
  | CompareAndDelete (d : bytes) (ac : nat) : ccall bool
  | CountAdd (n : Z) : ccall unit
  | GoRetire (older newer : nat) : ccall unit
  | Notify (d : bytes) (online : bool) : ccall unit
  | XUpsert (t : uuid) (d : bytes) : ccall bool
  | XSetStatus (t : uuid) (d st : bytes) : ccall bool
  | RecordSharedIdentity (t : uuid) (d : bytes) (older newer : nat) : ccall bool
  | ReadFrame (ac : nat) : ccall (option frame)
  | WriteFrame (ac : nat) (ty : byte) : ccall bool
  | PongPut (ac : nat) : ccall unit
  | PongWait (ac : nat) : ccall bool
  | Tombstoned (d : bytes) : ccall bool
  | Handle (ac : nat) (msg : bytes) : ccall bool
  | MarkReleased (ac : nat) : ccall unit
  | SchedulerRelease (d : bytes) : ccall unit
  | CoverageForget (d : bytes) : ccall unit
  | RestrictedStore (ac : nat) : ccall unit
  | RestrictedDelete (ac : nat) : ccall unit
  | Close (ac : nat) (code : Z) : ccall unit.

Abbreviation goroutine := (prog ccall).

(** ** The code *)

Definition enter (d : bytes) : goroutine nat :=
  l ← call_out (GJoin d);
  call_out (GLock l);;
  mret l.

Definition leave (d : bytes) (l : nat) : goroutine unit :=
  call_out (GUnlock l);;
  call_out (GLeave d l).

(** [answersPing]: true once the pong arrives, false on a failed write or when
    the wait runs out. *)
Definition answersPing (ac : nat) : goroutine bool :=
  sent ← call_out (WriteFrame ac FramePing);
  if (sent : bool) then call_out (PongWait ac) else mret false.

Definition retire (t : uuid) (d : bytes) (older newer : nat) : goroutine unit :=
  live ← answersPing older;
  call_out (Close older CloseReplacedByNewerConnection);;
  (if (live : bool) then call_out (RecordSharedIdentity t d older newer) else mret true);;
  mret ().

Definition registerConn (d : bytes) (ac : nat) : goroutine unit :=
  l ← enter d;
  older ← call_out (Swap d ac);
  (match older with None => call_out (CountAdd 1) | Some _ => mret () end);;
  leave d l;;
  (match older with Some o => call_out (GoRetire o ac) | None => mret () end);;
  call_out (Notify d true).

(** [register] and [handleHeartbeat]: false is an error, which ends the loop. *)
Definition register (t : uuid) (d : bytes) : goroutine bool :=
  ok ← call_out (XUpsert t d);
  if (ok : bool) then call_out (XSetStatus t d StatusOnline) else mret false.

Definition handleHeartbeat (t : uuid) (d : bytes) : goroutine bool := call_out (XSetStatus t d StatusOnline).

Definition rejectTombstonedWrite (d : bytes) (msg : bytes) : goroutine bool :=
  if isWritePathMessage msg then call_out (Tombstoned d) else mret false.

Definition dispatch (t : uuid) (d : bytes) (ac : nat) (msg : bytes) : goroutine bool :=
  rejected ← rejectTombstonedWrite d msg;
  if (rejected : bool) then mret true
  else if bool_decide (msg = MsgAgentRegister) then register t d
  else if bool_decide (msg = MsgAgentHeartbeat) then handleHeartbeat t d
  else call_out (Handle ac msg).

(** [dispatchRestricted]: the install notice ends the session. *)
Definition dispatchRestricted (ac : nat) (msg : bytes) : goroutine bool :=
  if bool_decide (msg = MsgAgentRegister) || bool_decide (msg = MsgCertificateSigningRequest)
  then call_out (Handle ac msg)
  else if bool_decide (msg = MsgCertificateInstalled) then
    ok ← call_out (Handle ac msg);
    if (ok : bool) then (call_out (Close ac CloseRestrictedSessionEnded);; mret true) else mret false
  else mret true.

(** [handleControl]: false is an error. *)
Definition handleControl (restricted : bool) (t : uuid) (d : bytes) (ac : nat) : goroutine bool :=
  f ← call_out (ReadFrame ac);
  match f with
  | None => mret false
  | Some (mk_frame ty msg) =>
      if bool_decide (ty = FramePing) then call_out (WriteFrame ac FramePong)
      else if bool_decide (ty = FramePong) then (call_out (PongPut ac);; mret true)
      else if negb (bool_decide (ty = FrameControl)) then mret false
      else match msg with
           | None => mret false
           | Some m => if restricted then dispatchRestricted ac m else dispatch t d ac m
           end
  end.

(** [n] bounds how many frames the machine sends before reading fails: any
    number. *)
Fixpoint runControlLoop (n : nat) (restricted : bool) (t : uuid) (d : bytes) (ac : nat) : goroutine unit :=
  match n with
  | O => mret ()
  | S n =>
      ok ← handleControl restricted t d ac;
      if (ok : bool) then runControlLoop n restricted t d ac else mret ()
  end.

(** [TenantID] is zero for a machine no tenant is known of. *)
Definition offlineTenant (t : uuid) : uuid := if bool_decide (t = Nil) then DefaultTenantID else t.

Definition releaseDeviceStatus (t : uuid) (d : bytes) (ac : nat) : goroutine unit :=
  l ← enter d;
  deleted ← call_out (CompareAndDelete d ac);
  (if (deleted : bool) then
     call_out (CountAdd (-1));;
     call_out (XSetStatus (offlineTenant t) d StatusOffline);;
     call_out (Notify d false)
   else mret ());;
  leave d l.

Definition unregisterConn (t : uuid) (d : bytes) (ac : nat) : goroutine unit :=
  call_out (MarkReleased ac);;
  call_out (SchedulerRelease d);;
  call_out (CoverageForget d);;
  releaseDeviceStatus t d ac;;
  call_out (Close ac CloseBye).

(** [accept] once the connection is admitted: served in full or only to renew. *)
Definition accepted (n : nat) (t : uuid) (d : bytes) (ac : nat) : goroutine unit :=
  registerConn d ac;;
  runControlLoop n false t d ac;;
  unregisterConn t d ac.

Definition serveRestricted (n : nat) (t : uuid) (d : bytes) (ac : nat) : goroutine unit :=
  call_out (RestrictedStore ac);;
  runControlLoop n true t d ac;;
  call_out (Close ac CloseRestrictedSessionEnded);;
  call_out (RestrictedDelete ac).

(** ** The server *)

Inductive happening :=
  | Notified (d : bytes) (online : bool)
  | Wrote (who : nat) (d st : bytes)
  | SharedIdentity (d : bytes) (older newer : nat)
  | RemovalOrdered (ac : nat).

Record AgentServer := mk_aserver {
  as_conns : gmap bytes nat;
  as_count : Z;
  as_statusGate : deviceStatusGate;
  as_restricted : gset nat;
  as_tombstones : gset bytes;
  as_scheduler : BackfillScheduler;
  as_coverage : RuleCoverageStore;
  as_objects : gmap nat AgentConn;
  as_goroutines : gmap nat (goroutine unit);
  as_rows : status_rows;
  as_log : list happening;
}.

Definition with_conns (s : AgentServer) x := mk_aserver x (as_count s) (as_statusGate s) (as_restricted s)
  (as_tombstones s) (as_scheduler s) (as_coverage s) (as_objects s) (as_goroutines s) (as_rows s) (as_log s).
Definition with_count (s : AgentServer) x := mk_aserver (as_conns s) x (as_statusGate s) (as_restricted s)
  (as_tombstones s) (as_scheduler s) (as_coverage s) (as_objects s) (as_goroutines s) (as_rows s) (as_log s).
Definition with_gate (s : AgentServer) x := mk_aserver (as_conns s) (as_count s) x (as_restricted s)
  (as_tombstones s) (as_scheduler s) (as_coverage s) (as_objects s) (as_goroutines s) (as_rows s) (as_log s).
Definition with_restricted (s : AgentServer) x := mk_aserver (as_conns s) (as_count s) (as_statusGate s) x
  (as_tombstones s) (as_scheduler s) (as_coverage s) (as_objects s) (as_goroutines s) (as_rows s) (as_log s).
Definition with_tombstones (s : AgentServer) x := mk_aserver (as_conns s) (as_count s) (as_statusGate s)
  (as_restricted s) x (as_scheduler s) (as_coverage s) (as_objects s) (as_goroutines s) (as_rows s) (as_log s).
Definition with_stores (s : AgentServer) x y := mk_aserver (as_conns s) (as_count s) (as_statusGate s)
  (as_restricted s) (as_tombstones s) x y (as_objects s) (as_goroutines s) (as_rows s) (as_log s).
Definition with_objects (s : AgentServer) x := mk_aserver (as_conns s) (as_count s) (as_statusGate s)
  (as_restricted s) (as_tombstones s) (as_scheduler s) (as_coverage s) x (as_goroutines s) (as_rows s) (as_log s).
Definition with_goroutines (s : AgentServer) x := mk_aserver (as_conns s) (as_count s) (as_statusGate s)
  (as_restricted s) (as_tombstones s) (as_scheduler s) (as_coverage s) (as_objects s) x (as_rows s) (as_log s).
Definition with_rows (s : AgentServer) x y := mk_aserver (as_conns s) (as_count s) (as_statusGate s)
  (as_restricted s) (as_tombstones s) (as_scheduler s) (as_coverage s) (as_objects s) (as_goroutines s) x y.

Definition NewAgentServer (rows : status_rows) (tombstones : gset bytes) : AgentServer :=
  mk_aserver ∅ 0 no_gate ∅ tombstones NewBackfillScheduler NewRuleCoverageStore ∅ ∅ rows [].

Definition ConnectedAgentCount (s : AgentServer) : Z := as_count s.
Definition GetAgent (s : AgentServer) (d : bytes) : option nat := as_conns s !! d.
Definition ListConnectedAgents (s : AgentServer) : list nat := (map_to_list (as_conns s)).*2.

(** [eachLiveConn]: the admitted connections, restricted ones included. *)
Definition eachLiveConn (s : AgentServer) : list nat := ListConnectedAgents s ++ elements (as_restricted s).

Definition on_conn (f : AgentConn → AgentConn) (ac : nat) (s : AgentServer) : AgentServer :=
  with_objects s (alter f ac (as_objects s)).

Definition close_if_doomed (prints : list Fingerprint) (s : AgentServer) (ac : nat) : AgentServer :=
  match as_objects s !! ac with
  | Some a => if bool_decide (ac_certFP a ∈ prints) then on_conn (close_with CloseCertificateRefused) ac s else s
  | None => s
  end.

Definition closeSuperseded (prints : list Fingerprint) (s : AgentServer) : AgentServer :=
  foldl (close_if_doomed prints) s (eachLiveConn s).

(** [DeregisterAgent]: the order goes to a connection that is not released, whose
    sending side is then closed; the machine may go on sending. *)
Definition DeregisterAgent (d : bytes) (s : AgentServer) : AgentServer :=
  let s := with_tombstones s ({[d]} ∪ as_tombstones s) in
  match GetAgent s d with
  | Some ac =>
      match as_objects s !! ac with
      | Some a => if ac_released a then s else with_rows s (as_rows s) (as_log s ++ [RemovalOrdered ac])
      | None => s
      end
  | None => s
  end.

Definition deregister_if (t : uuid) (s : AgentServer) (ac : nat) : AgentServer :=
  match as_objects s !! ac with
  | Some a => if bool_decide (ac_TenantID a = t) then DeregisterAgent (ac_DeviceID a) s else s
  | None => s
  end.

Definition DeregisterTenant (t : uuid) (s : AgentServer) : AgentServer :=
  foldl (deregister_if t) s (ListConnectedAgents s).

(** ** Running *)

(** What the machine and the database decide of a call: whether it fails, whether
    a failed write took effect all the same, what is read, whether the pong comes
    in time. *)
Record answer := mk_answer { an_ok : bool; an_landed : bool; an_frame : option frame; an_pong : bool }.

Definition wrote (self : nat) (d st : bytes) (x : bool * status_rows) (an : answer) (s : AgentServer) :
    bool * AgentServer :=
  let '(found, rows) := x in
  if an_ok an then (found, with_rows s rows (as_log s ++ (if found then [Wrote self d st] else [])))
  else (false, if an_landed an then with_rows s rows (as_log s) else s).

Definition cexec {R} (self : nat) (c : ccall R) (an : answer) (s : AgentServer) : option (R * AgentServer) :=
  match c in ccall R return option (R * AgentServer) with
  | GJoin d => let '(l, g) := gate_join d (as_statusGate s) in Some (l, with_gate s g)
  | GLock l => match gate_lock self l (as_statusGate s) with Some g => Some ((), with_gate s g) | None => None end
  | GUnlock l => Some ((), with_gate s (gate_unlock l (as_statusGate s)))
  | GLeave d l => Some ((), with_gate s (gate_leave d l (as_statusGate s)))
  | Swap d ac => Some (as_conns s !! d, with_conns s (<[d := ac]> (as_conns s)))
  | CompareAndDelete d ac =>
      if bool_decide (as_conns s !! d = Some ac)
      then Some (true, with_conns s (delete d (as_conns s))) else Some (false, s)
  | CountAdd n => Some ((), with_count s (i64 (as_count s + n)))
  | GoRetire older newer =>
      let t := match as_objects s !! newer with Some a => offlineTenant (ac_TenantID a) | None => Nil end in
      let d := match as_objects s !! older with Some a => ac_DeviceID a | None => [] end in
      Some ((), with_goroutines s
                  (<[fresh (dom (as_goroutines s)) := retire t d older newer]> (as_goroutines s)))
  | Notify d online => Some ((), with_rows s (as_rows s) (as_log s ++ [Notified d online]))
  | XUpsert t d => Some (wrote self d StatusOnline (upsert_status t d (as_rows s)) an s)
  | XSetStatus t d st => Some (wrote self d st (SetStatus t d st (as_rows s)) an s)
  | RecordSharedIdentity t d older newer =>
      Some (if an_ok an && has_row t d (as_rows s)
            then (true, with_rows s (as_rows s) (as_log s ++ [SharedIdentity d older newer])) else (false, s))
  | ReadFrame _ => Some (an_frame an, s)
  | WriteFrame _ _ => Some (an_ok an, s)
  | PongPut ac => Some ((), on_conn (set_pongs true) ac s)
  | PongWait ac =>
      match as_objects s !! ac with
      | Some a => if ac_pongs a && an_pong an then Some (true, on_conn (set_pongs false) ac s) else Some (false, s)
      | None => Some (false, s)
      end
  | Tombstoned d => Some (bool_decide (d ∈ as_tombstones s), s)
  | Handle _ _ => Some (an_ok an, s)
  | MarkReleased ac => Some ((), on_conn mark_released ac s)
  | SchedulerRelease d => Some ((), with_stores s (Release (as_scheduler s) d) (as_coverage s))
  | CoverageForget d => Some ((), with_stores s (as_scheduler s) (Forget (as_coverage s) d))
  | RestrictedStore ac => Some ((), with_restricted s ({[ac]} ∪ as_restricted s))
  | RestrictedDelete ac => Some ((), with_restricted s (as_restricted s ∖ {[ac]}))
  | Close ac code => Some ((), on_conn (close_with code) ac s)
  end.

Inductive conn_act :=
  | AAccept (n : nat) (t : uuid) (d : bytes) (fp : Fingerprint) (restricted : bool)
  | ARun (i : nat) (an : answer)
  | ADeadline (ac : nat)                       (* a restricted session's time is up *)
  | ASuperseded (prints : list Fingerprint)
  | ADeregister (d : bytes)
  | ADeregisterTenant (t : uuid)
  | ADeleteRow (d : bytes)                     (* a purge *)
  | AStores (sched : BackfillScheduler) (cov : RuleCoverageStore)   (* other handlers *)
  | ARestart (tombstones : gset bytes).        (* the process dies and another starts *)

(** [accept] of an admitted connection: the goroutine has the connection's id. *)
Definition accept_conn (n : nat) (t : uuid) (d : bytes) (fp : Fingerprint) (r : bool) (s : AgentServer) : AgentServer :=
  let ac := fresh (dom (as_goroutines s) ∪ dom (as_objects s)) in
  let s := with_objects s (<[ac := mk_aconn d t fp r false None false]> (as_objects s)) in
  with_goroutines s (<[ac := if r then serveRestricted n t d ac else accepted n t d ac]> (as_goroutines s)).

(** [None]: the goroutine cannot take a step. *)
Definition cstep (x : conn_act) (s : AgentServer) : option AgentServer :=
  match x with
  | AAccept n t d fp r => Some (accept_conn n t d fp r s)
  | ARun i an =>
      match @lookup nat (goroutine unit) _ _ i (as_goroutines s) with
      | Some (Do c k) =>
          match cexec i c an s with
          | Some (r, s') => Some (with_goroutines s' (<[i := k r]> (as_goroutines s')))
          | None => None
          end
      | _ => None
      end
  | ADeadline ac =>
      match as_objects s !! ac with
      | Some a => if ac_restricted a then Some (on_conn (close_with CloseRestrictedSessionEnded) ac s) else None
      | None => None
      end
  | ASuperseded prints => Some (closeSuperseded prints s)
  | ADeregister d => Some (DeregisterAgent d s)
  | ADeregisterTenant t => Some (DeregisterTenant t s)
  | ADeleteRow d => Some (with_rows s (delete d (as_rows s)) (as_log s))
  | AStores sched cov => Some (with_stores s sched cov)
  | ARestart tombstones => Some (NewAgentServer (ResetAllStatuses DefaultTenantID (as_rows s)) tombstones)
  end.

Fixpoint cruns (xs : list conn_act) (s : AgentServer) : option AgentServer :=
  match xs with
  | [] => Some s
  | x :: xs => match cstep x s with Some s' => cruns xs s' | None => None end
  end.
