(* ===== verification/ConnectionClaims.v ===== *)
(** * What the server keeps of its connections

    The claims of [Connections].  Each goroutine is followed by a ghost that says
    where it stands: in or out of its device's gate, in or out of the connection
    map, with or without a debt to the count.  [typed] is the discipline the ghost
    imposes on a program, proved once of the code; [inv] ties the ghosts to the
    server's state, proved per call. *)
From S2P Require Import Prelude GoTime Settings Dbtx Codec Ledger Effect Backfill Coverage Connections.

(** ** Ghosts *)

Inductive gate_pos := Outside | Queued (l : nat) | Inside (l : nat) | Leaving (l : nat).

(** Not in the map yet; put there with the count owed; put there, perhaps with an
    older connection to retire; taken out with the count owed; taken out, the map
    empty; done. *)
Inductive reg := RNew | RAdd | RIn (owes : option nat) | RSub | RClear | ROut.

Inductive ghost :=
  | GConn (d : bytes) (pos : gate_pos) (r : reg)
  | GRestr (d : bytes)
  | GRetire (older : nat) (done : bool).

#[global] Instance gate_pos_eq : EqDecision gate_pos. Proof. solve_decision. Defined.
#[global] Instance reg_eq : EqDecision reg. Proof. solve_decision. Defined.

Definition lock_of (pos : gate_pos) : option nat :=
  match pos with Outside => None | Queued l | Inside l | Leaving l => Some l end.

Definition guarded {R} (b : bool) (f : R → ghost) : option (R → ghost) := if b then Some f else None.

(** Where a goroutine stands after a call; [None] when it may not make it. *)
Definition gnext (self : nat) (g : ghost) {R} (c : ccall R) : option (R → ghost) :=
  match c in ccall R return option (R → ghost) with
  | GJoin d' =>
      match g with
      | GConn d Outside r => guarded (bool_decide (d' = d)) (λ l, GConn d (Queued l) r)
      | _ => None
      end
  | GLock l' =>
      match g with
      | GConn d (Queued l) r => guarded (bool_decide (l' = l)) (λ _, GConn d (Inside l) r)
      | _ => None
      end
  | GUnlock l' =>
      match g with
      | GConn d (Inside l) (RIn o) => guarded (bool_decide (l' = l)) (λ _, GConn d (Leaving l) (RIn o))
      | GConn d (Inside l) RClear => guarded (bool_decide (l' = l)) (λ _, GConn d (Leaving l) ROut)
      | GConn d (Inside l) ROut => guarded (bool_decide (l' = l)) (λ _, GConn d (Leaving l) ROut)
      | _ => None
      end
  | GLeave d' l' =>
      match g with
      | GConn d (Leaving l) r => guarded (bool_decide (d' = d) && bool_decide (l' = l)) (λ _, GConn d Outside r)
      | _ => None
      end
  | Swap d' ac =>
      match g with
      | GConn d (Inside l) RNew => guarded (bool_decide (d' = d) && bool_decide (ac = self))
          (λ older, GConn d (Inside l) (match older with None => RAdd | Some o => RIn (Some o) end))
      | _ => None
      end
  | CompareAndDelete d' ac =>
      match g with
      | GConn d (Inside l) (RIn None) => guarded (bool_decide (d' = d) && bool_decide (ac = self))
          (λ deleted : bool, GConn d (Inside l) (if deleted then RSub else ROut))
      | _ => None
      end
  | CountAdd n =>
      match g with
      | GConn d (Inside l) RAdd => guarded (bool_decide (n = 1)) (λ _, GConn d (Inside l) (RIn None))
      | GConn d (Inside l) RSub => guarded (bool_decide (n = -1)) (λ _, GConn d (Inside l) RClear)
      | _ => None
      end
  | GoRetire o newer =>
      match g with
      | GConn d pos (RIn (Some o')) => guarded (bool_decide (o = o') && bool_decide (newer = self))
          (λ _, GConn d pos (RIn None))
      | _ => None
      end
  | XUpsert t d' =>
      match g with
      | GConn d _ (RIn None) => guarded (bool_decide (d' = d)) (λ _, g)
      | _ => None
      end
  | XSetStatus t d' st =>
      match g with
      | GConn d _ (RIn None) => guarded (bool_decide (d' = d) && bool_decide (st = StatusOnline)) (λ _, g)
      | GConn d (Inside _) RClear => guarded (bool_decide (d' = d) && bool_decide (st = StatusOffline)) (λ _, g)
      | _ => None
      end
  | Close ac code =>
      Some (λ _, match g with
                 | GRetire o done => if bool_decide (ac = o) then GRetire o true else g
                 | _ => g
                 end)
  | ReadFrame _ =>
      match g with
      | GConn d Outside (RIn None) => Some (λ _, g)
      | GRestr d => Some (λ _, g)
      | _ => None
      end
  | Notify _ _ | RecordSharedIdentity _ _ _ _ | WriteFrame _ _ | PongPut _ | PongWait _ | Tombstoned _
  | Handle _ _ | MarkReleased _ | SchedulerRelease _ | CoverageForget _ | RestrictedStore _ | RestrictedDelete _ =>
      Some (λ _, g)
  end.

Definition finished (g : ghost) : Prop :=
  match g with
  | GConn _ Outside ROut | GRestr _ | GRetire _ true => True
  | _ => False
  end.

Fixpoint typed {A} (self : nat) (Q : ghost → A → Prop) (p : goroutine A) (g : ghost) : Prop :=
  match p with
  | Ret a => Q g a
  | Do c k => match gnext self g c with Some f => ∀ r, typed self Q (k r) (f r) | None => False end
  | Panic => False
  end.

Lemma typed_bind {A B} self (p : goroutine A) (k : A → goroutine B) Q g :
  typed self (λ g a, typed self Q (k a) g) p g → typed self Q (p ≫= k) g.
Proof.
  revert g. induction p as [a|R c k' IH|]; intros g; cbn; [done| |done].
  destruct (gnext self g c) as [f|]; [|done]. intros H r. by apply IH.
Qed.

Lemma typed_mono {A} self (p : goroutine A) (Q Q' : ghost → A → Prop) g :
  (∀ g a, Q g a → Q' g a) → typed self Q p g → typed self Q' p g.
Proof.
  intros HQ. revert g. induction p as [a|R c k IH|]; intros g; cbn; [by apply HQ| |done].
  destruct (gnext self g c) as [f|]; [|done]. intros H r. by apply IH.
Qed.

(** One call at a time, each test of its discipline evaluated. *)
Ltac typed_steps :=
  repeat (cbn; rewrite ?bool_decide_eq_true_2 by done; cbn;
          match goal with |- ∀ _, _ => intros ? | |- True => exact I | |- _ = _ => reflexivity | _ => idtac end).

(** ** The code keeps the discipline *)

Definition serving (d : bytes) : ghost := GConn d Outside (RIn None).

Lemma registerConn_typed d self :
  typed self (λ g _, g = serving d) (registerConn d self) (GConn d Outside RNew).
Proof. typed_steps. destruct r1; typed_steps. Qed.

(** A goroutine that handles messages stands where it stood. *)
Definition still (self : nat) (g : ghost) : Prop := ∀ code, gnext self g (Close self code) = Some (λ _, g).

Lemma dispatchRestricted_typed self m g :
  still self g → typed self (λ g' _, g' = g) (dispatchRestricted self m) g.
Proof.
  intros Hg. unfold dispatchRestricted. case_match; [by cbn|]. case_match; [|by cbn].
  cbn -[gnext]. intros []; [|by cbn]. cbn -[gnext]. by rewrite Hg.
Qed.

Lemma dispatch_typed t d self m : typed self (λ g' _, g' = serving d) (dispatch t d self m) (serving d).
Proof.
  unfold dispatch, rejectTombstonedWrite. apply typed_bind.
  assert (Hd : typed self (λ g' _, g' = serving d)
                 (if bool_decide (m = MsgAgentRegister) then register t d
                  else if bool_decide (m = MsgAgentHeartbeat) then handleHeartbeat t d
                  else call_out (Handle self m)) (serving d)).
  { repeat case_match; [|by typed_steps|by cbn]. cbn. rewrite bool_decide_eq_true_2 by done. cbn.
    intros []; typed_steps. }
  destruct (isWritePathMessage m); [|exact Hd]. cbn. intros []; [by cbn|exact Hd].
Qed.

Lemma handleControl_typed restricted t d self g :
  (if (restricted : bool) then g = GRestr d else g = serving d) →
  typed self (λ g' _, g' = g) (handleControl restricted t d self) g.
Proof.
  intros Hg. unfold handleControl. apply typed_bind.
  assert (Hs : still self g) by (by destruct restricted; subst g).
  assert (Hr : gnext self g (ReadFrame self) = Some (λ _, g)) by (by destruct restricted; subst g).
  cbn -[dispatch dispatchRestricted gnext]. rewrite Hr. intros [[ty m]|]; [|by cbn].
  case_bool_decide; [by cbn|]. case_bool_decide; [by cbn|]. case_bool_decide; [|by cbn].
  destruct m as [m|]; [|by cbn]. cbn [negb]. destruct restricted.
  - by apply dispatchRestricted_typed.
  - subst g. apply dispatch_typed.
Qed.

Lemma runControlLoop_typed n restricted t d self g :
  (if (restricted : bool) then g = GRestr d else g = serving d) →
  typed self (λ g' _, g' = g) (runControlLoop n restricted t d self) g.
Proof.
  intros Hg. induction n as [|n IH]; [done|]. cbn [runControlLoop]. apply typed_bind.
  eapply typed_mono, handleControl_typed; [|done]. by intros g' [] ->.
Qed.

Lemma accepted_typed n t d self : typed self (λ g _, finished g) (accepted n t d self) (GConn d Outside RNew).
Proof.
  unfold accepted. apply typed_bind. eapply typed_mono, registerConn_typed. intros g _ ->.
  apply typed_bind. eapply typed_mono, runControlLoop_typed; [|done]. intros g _ ->.
  typed_steps. destruct r4; typed_steps.
Qed.

Lemma serveRestricted_typed n t d self : typed self (λ g _, finished g) (serveRestricted n t d self) (GRestr d).
Proof.
  unfold serveRestricted. cbn. intros _. apply typed_bind.
  eapply typed_mono, runControlLoop_typed; [|done]. intros g _ ->. done.
Qed.

Lemma retire_typed t d older newer self : typed self (λ g _, finished g) (retire t d older newer) (GRetire older false).
Proof. typed_steps. destruct r; typed_steps. all: destruct r; typed_steps. Qed.

(** ** The gate *)

Abbreviation ghosts := (gmap nat ghost).

Definition in_gate (d : bytes) (g : ghost) : bool :=
  match g with
  | GConn d' pos _ => bool_decide (d' = d) && match pos with Outside => false | _ => true end
  | _ => false
  end.

(** The mutex of a device's lock is held by the goroutine inside. *)
Definition held (γ : ghosts) (d : bytes) (l : nat) (k : deviceStatusLock) : Prop :=
  ∀ i, dl_holder k = Some i ↔ ∃ r, γ !! i = Some (GConn d (Inside l) r).

Definition counted (γ : ghosts) (d : bytes) (l : nat) (k : deviceStatusLock) : Prop :=
  dl_waiting k = Z.of_nat (count_where (in_gate d) γ) ∧ 0 < dl_waiting k ∧ held γ d l k.

(** A device has a lock exactly while goroutines are in its gate. *)
Record gate_ok (γ : ghosts) (g : deviceStatusGate) : Prop := {
  go_lock i d pos r l : γ !! i = Some (GConn d pos r) → lock_of pos = Some l → dg_locks g !! d = Some l;
  go_count d l : dg_locks g !! d = Some l → ∃ k, dg_heap g !! l = Some k ∧ counted γ d l k;
  go_inj d d' l : dg_locks g !! d = Some l → dg_locks g !! d' = Some l → d = d';
}.

Section gate.
Implicit Types (γ : ghosts) (g : deviceStatusGate).

Lemma in_gate_other d d' pos r : d ≠ d' → in_gate d (GConn d' pos r) = false.
Proof. intros. cbn. by rewrite bool_decide_eq_false_2. Qed.

Lemma in_gate_same d pos r : in_gate d (GConn d pos r) = match pos with Outside => false | _ => true end.
Proof. cbn. by rewrite bool_decide_eq_true_2. Qed.

(** Nobody in a device's gate. *)
Lemma gate_free γ g d : gate_ok γ g → dg_locks g !! d = None → count_where (in_gate d) γ = 0%nat.
Proof.
  intros [Hl _ _] Hn. unfold count_where. apply map_size_empty_iff, map_empty. intros i.
  apply map_lookup_filter_None. destruct (γ !! i) as [gh|] eqn:Hi; [|by left]. right.
  intros ? [= <-]. cbn. destruct gh as [d' pos r| |]; [|done|done].
  destruct (decide (d = d')) as [<-|]; [|by rewrite in_gate_other].
  rewrite in_gate_same. destruct (lock_of pos) as [l|] eqn:E; [|by destruct pos].
  by rewrite (Hl _ _ _ _ _ Hi E) in Hn.
Qed.

(** A goroutine comes into the gate, or leaves it, or stays on its side. *)
Lemma in_gate_moves γ i d pos r pos' r' :
  γ !! i = Some (GConn d pos r) →
  Z.of_nat (count_where (in_gate d) (<[i := GConn d pos' r']> γ)) =
  Z.of_nat (count_where (in_gate d) γ) +
    (match pos' with Outside => 0 | _ => 1 end) - (match pos with Outside => 0 | _ => 1 end).
Proof.
  intros Hi. pose proof (count_where_insert (in_gate d) γ i (GConn d pos' r') _ Hi) as H.
  rewrite !in_gate_same in H. destruct pos, pos'; lia.
Qed.

(** A change that leaves [d]'s gate alone. *)
Lemma counted_frame γ i gh d l k :
  (∀ x, γ !! i = Some x → in_gate d x = false) → in_gate d gh = false →
  counted γ d l k → counted (<[i := gh]> γ) d l k.
Proof.
  intros Hx Hgh (Hw & Hp & Hh). split_and!; [|done|].
  - destruct (γ !! i) as [x|] eqn:Hi.
    + pose proof (count_where_insert (in_gate d) γ i gh x Hi) as H1. rewrite Hgh, (Hx x eq_refl) in H1. lia.
    + rewrite count_where_new, Hgh by done. done.
  - intros j. rewrite (Hh j). destruct (decide (j = i)) as [->|]; [|by rewrite lookup_insert_ne].
    rewrite lookup_insert_eq. split.
    + intros [r Hr]. apply Hx in Hr. by rewrite in_gate_same in Hr.
    + intros [r [= ->]]. by rewrite in_gate_same in Hgh.
Qed.

Lemma counted_other γ i d pos r pos' r' d' l k :
  γ !! i = Some (GConn d pos r) → d' ≠ d → counted γ d' l k → counted (<[i := GConn d pos' r']> γ) d' l k.
Proof.
  intros Hi Hd. apply counted_frame; [|by apply in_gate_other]. intros x Hx. simplify_eq. by apply in_gate_other.
Qed.

(** A goroutine of the device moves without going in or out of the mutex. *)
Lemma held_same γ i d pos r pos' r' l h n n' :
  γ !! i = Some (GConn d pos r) → (∀ l, pos = Inside l ↔ pos' = Inside l) →
  held γ d l (mk_dlock h n) → held (<[i := GConn d pos' r']> γ) d l (mk_dlock h n').
Proof.
  intros Hi Hp Hh j. specialize (Hh j). cbn in *. rewrite Hh.
  destruct (decide (j = i)) as [->|]; [|by rewrite lookup_insert_ne].
  rewrite lookup_insert_eq, Hi. split; intros [s [= ?]]; subst; eexists; repeat f_equal; by apply Hp.
Qed.

(** A goroutine that stays where it is in the gate. *)
Lemma gate_same γ g i d pos r r' :
  γ !! i = Some (GConn d pos r) → gate_ok γ g → gate_ok (<[i := GConn d pos r']> γ) g.
Proof.
  intros Hi [Hl Hc Hj]. split; [| |done].
  - intros j d' pos' s l [[<- [= <- <- <-]]|[? ?]]%lookup_insert_Some; eauto.
  - intros d' l Hd. destruct (Hc d' l Hd) as ([h n] & Hk & Hcd). exists (mk_dlock h n). split; [done|].
    destruct (decide (d' = d)) as [->|]; [|by eapply counted_other].
    destruct Hcd as (Hw & ? & Hh). split_and!; [|done|by eapply held_same].
    rewrite (in_gate_moves γ i d pos r) by done. lia.
Qed.

(** A goroutine outside every gate comes or changes. *)
Lemma gate_outside γ g i gh :
  (∀ d x, γ !! i = Some x → in_gate d x = false) → (∀ d, in_gate d gh = false) →
  gate_ok γ g → gate_ok (<[i := gh]> γ) g.
Proof.
  intros Hx Hgh [Hl Hc Hj]. split; [| |done].
  - intros j d pos r l [[<- ->]|[? ?]]%lookup_insert_Some E; [|eauto].
    specialize (Hgh d). rewrite in_gate_same in Hgh. by destruct pos.
  - intros d l Hd. destruct (Hc d l Hd) as (k & Hk & Hcd). exists k. split; [done|].
    apply counted_frame; auto.
Qed.

(** The lock a call works on, with the locks of the other devices set aside. *)
Lemma gate_move γ g i d pos r pos' r' l k k' :
  γ !! i = Some (GConn d pos r) → gate_ok γ g → dg_locks g !! d = Some l → dg_heap g !! l = Some k →
  lock_of pos' = Some l → counted (<[i := GConn d pos' r']> γ) d l k' →
  gate_ok (<[i := GConn d pos' r']> γ) (set_lock g l k').
Proof.
  intros Hi [Hl Hc Hj] Hd Hk Hp Hk'. split; [| |done]; cbn.
  - intros j d' p s l' [[<- [= <- <- <-]]|[? ?]]%lookup_insert_Some E; [|eauto]. by simplify_eq.
  - intros d' l' Hd'. destruct (decide (l' = l)) as [->|Hne].
    + assert (d' = d) as -> by eauto. rewrite lookup_insert_eq. eauto.
    + rewrite lookup_insert_ne by done. destruct (Hc d' l' Hd') as (k2 & ? & ?). exists k2. split; [done|].
      eapply counted_other; [done| |done]. congruence.
Qed.

Lemma join_ok γ g i d r l g' :
  γ !! i = Some (GConn d Outside r) → gate_ok γ g → gate_join d g = (l, g') →
  gate_ok (<[i := GConn d (Queued l) r]> γ) g'.
Proof.
  intros Hi Hok. pose proof Hok as [Hl Hc Hj]. unfold gate_join.
  destruct (dg_locks g !! d) as [l0|] eqn:Hd.
  - destruct (Hc d l0 Hd) as ([h n] & Hk & Hw & Hp & Hh). rewrite Hk. intros [= <- <-].
    eapply gate_move; [done|done|done|done|done|]. split_and!; cbn in *; [|lia|by eapply held_same].
    rewrite (in_gate_moves γ i d Outside r) by done. lia.
  - intros [= <- <-]. pose proof (is_fresh (dom (dg_heap g))) as Hf. apply not_elem_of_dom in Hf.
    set (l := fresh (dom (dg_heap g))) in *.
    assert (Hnew : ∀ d', dg_locks g !! d' ≠ Some l) by (intros d' E; destruct (Hc d' l E) as (? & ? & _); congruence).
    split; cbn.
    + intros j d' pos s l' [[<- [= <- <- <-]]|[? Hj']]%lookup_insert_Some E; cbn in *; simplify_eq.
      * by rewrite lookup_insert_eq.
      * rewrite lookup_insert_ne; [eauto|]. intros <-. by rewrite (Hl _ _ _ _ _ Hj' E) in Hd.
    + intros d' l' [[<- <-]|[? Hd']]%lookup_insert_Some.
      * rewrite lookup_insert_eq. eexists. split; [done|]. split_and!; cbn; [|done|].
        -- by rewrite (in_gate_moves γ i d Outside r), (gate_free γ g d).
        -- intros j. split; [done|]. intros [s [[<- ?]|[? Hj']]%lookup_insert_Some]; [done|].
           by edestruct Hnew; eapply Hl.
      * rewrite lookup_insert_ne by (intros <-; by edestruct Hnew).
        destruct (Hc d' l' Hd') as (k' & ? & ?). exists k'. split; [done|]. by eapply counted_other.
    + intros d1 d2 l' [[<- <-]|[? H1]]%lookup_insert_Some [[<- E]|[? H2]]%lookup_insert_Some; [done| | |eauto].
      * by edestruct Hnew.
      * subst l'. by edestruct Hnew.
Qed.

Lemma lock_ok γ g i d r l g' :
  γ !! i = Some (GConn d (Queued l) r) → gate_ok γ g → gate_lock i l g = Some g' →
  gate_ok (<[i := GConn d (Inside l) r]> γ) g'.
Proof.
  intros Hi Hok. pose proof (go_lock _ _ Hok _ _ _ _ l Hi eq_refl) as Hd.
  destruct (go_count _ _ Hok d l Hd) as ([h n] & Hk & Hw & Hp & Hh). unfold gate_lock. rewrite Hk.
  destruct h as [|]; [done|]. intros [= <-]. eapply gate_move; [done..|]. split_and!; cbn in *; [|done|].
  - rewrite (in_gate_moves γ i d (Queued l) r) by done. lia.
  - intros j. destruct (decide (j = i)) as [->|]; [rewrite lookup_insert_eq; naive_solver|].
    rewrite lookup_insert_ne by done. cbn. rewrite <- (Hh j). naive_solver.
Qed.

Lemma unlock_ok γ g i d r r' l :
  γ !! i = Some (GConn d (Inside l) r) → gate_ok γ g →
  gate_ok (<[i := GConn d (Leaving l) r']> γ) (gate_unlock l g).
Proof.
  intros Hi Hok. pose proof (go_lock _ _ Hok _ _ _ _ l Hi eq_refl) as Hd.
  destruct (go_count _ _ Hok d l Hd) as ([h n] & Hk & Hw & Hp & Hh). unfold gate_unlock. rewrite Hk.
  eapply gate_move; [done..|]. split_and!; cbn in *; [|done|].
  - rewrite (in_gate_moves γ i d (Inside l) r) by done. lia.
  - intros j. split; [done|]. intros [s [[<- ?]|[Hne Hj]]%lookup_insert_Some]; [done|].
    assert (h = Some j) as E1 by (apply Hh; eauto). assert (h = Some i) as E2 by (apply Hh; eauto). congruence.
Qed.

Lemma leave_ok γ g i d r l :
  γ !! i = Some (GConn d (Leaving l) r) → gate_ok γ g →
  gate_ok (<[i := GConn d Outside r]> γ) (gate_leave d l g).
Proof.
  intros Hi Hok. pose proof (go_lock _ _ Hok _ _ _ _ l Hi eq_refl) as Hd.
  destruct (go_count _ _ Hok d l Hd) as ([h n] & Hk & Hw & Hp & Hh). unfold gate_leave. rewrite Hk. cbn in *.
  pose proof Hok as [Hl Hc Hj].
  pose proof (in_gate_moves γ i d (Leaving l) r Outside r Hi) as Hm.
  assert (Hin : ∀ j d' pos s l', <[i := GConn d Outside r]> γ !! j = Some (GConn d' pos s) →
                  lock_of pos = Some l' → dg_locks g !! d' = Some l').
  { intros j d' pos s l' [[<- [= <- <- <-]]|[? ?]]%lookup_insert_Some E; [done|eauto]. }
  case_bool_decide as Hz; (split; cbn).
  - intros j d' pos s l' Hj' E. rewrite lookup_delete_ne; [eauto|]. intros <-.
    assert (count_where (in_gate d) (<[i := GConn d Outside r]> γ) = 0%nat) as H0 by lia.
    apply map_size_empty_iff in H0. apply (map_empty (M := gmap nat)) with (i := j) in H0 as H1.
    apply map_lookup_filter_None in H1 as [H1|H1]; [congruence|]. apply (H1 _ Hj'). cbn.
    rewrite bool_decide_eq_true_2 by done. by destruct pos.
  - intros d' l' [Hne Hd']%lookup_delete_Some. rewrite lookup_insert_ne by (intros <-; by destruct Hne; eauto).
    destruct (Hc d' l' Hd') as (k' & ? & ?). exists k'. split; [done|]. by eapply counted_other.
  - intros d1 d2 l' [_ ?]%lookup_delete_Some [_ ?]%lookup_delete_Some. eauto.
  - exact Hin.
  - intros d' l' Hd'. destruct (decide (l' = l)) as [->|Hne].
    + assert (d' = d) as -> by eauto. rewrite lookup_insert_eq. eexists. split; [done|].
      split_and!; cbn; [lia|lia|by eapply held_same].
    + rewrite lookup_insert_ne by done. destruct (Hc d' l' Hd') as (k' & ? & ?). exists k'. split; [done|].
      eapply counted_other; [done| |done]. congruence.
  - exact Hj.
Qed.

(** The mutex serves one goroutine of the device at a time. *)
Lemma inside_alone γ g i j d l l' r r' :
  gate_ok γ g → γ !! i = Some (GConn d (Inside l) r) → γ !! j = Some (GConn d (Inside l') r') → i = j.
Proof.
  intros [Hl Hc _] Hi Hj. pose proof (Hl _ _ _ _ l Hi eq_refl) as Hd.
  pose proof (Hl _ _ _ _ l' Hj eq_refl) as Hd'. simplify_eq.
  destruct (Hc d _ Hd) as ([h n] & _ & _ & _ & Hh).
  assert (h = Some i) by (apply Hh; eauto). assert (h = Some j) by (apply Hh; eauto). congruence.
Qed.
End gate.

(** ** The books: the map, the count, who is retired, what the rows say *)

Inductive view := VConn (d : bytes) (r : reg) | VRestr | VRetire (older : nat) (done : bool).

Definition view_of (g : ghost) : view :=
  match g with GConn d _ r => VConn d r | GRestr _ => VRestr | GRetire o b => VRetire o b end.

Abbreviation views := (gmap nat view).

Definition in_map (r : reg) : Prop := match r with RAdd | RIn _ => True | _ => False end.

(** Only the goroutine inside the gate may stand so. *)
Definition critical (r : reg) : bool := match r with RAdd | RSub | RClear => true | _ => false end.

Definition owes_one (v : view) : bool := match v with VConn _ RAdd => true | _ => false end.
Definition owes_minus (v : view) : bool := match v with VConn _ RSub => true | _ => false end.

Definition closed (objects : gmap nat AgentConn) (c : nat) : Prop :=
  ∃ a, objects !! c = Some a ∧ ac_closed a ≠ None.

Definition being_retired (ν : views) (objects : gmap nat AgentConn) (c : nat) : Prop :=
  closed objects c ∨ (∃ j d, ν !! j = Some (VConn d (RIn (Some c)))) ∨ ∃ j, ν !! j = Some (VRetire c false).

Record books (ν : views) (conns : gmap bytes nat) (count : Z) (objects : gmap nat AgentConn) (rows : status_rows)
    (log : list happening) : Prop := {
  bk_map d c : conns !! d = Some c → ∃ r, ν !! c = Some (VConn d r) ∧ in_map r;
  bk_add i d : ν !! i = Some (VConn d RAdd) → conns !! d = Some i;
  bk_clear i d r : ν !! i = Some (VConn d r) → r = RSub ∨ r = RClear → conns !! d = None;
  bk_count : count = i64 (Z.of_nat (size conns) - Z.of_nat (count_where owes_one ν) + Z.of_nat (count_where owes_minus ν));
  bk_obj i d r : ν !! i = Some (VConn d r) → ∃ a, objects !! i = Some a ∧ ac_DeviceID a = d;
  bk_retire i d o : ν !! i = Some (VConn d (RIn o)) → conns !! d ≠ Some i → being_retired ν objects i;
  bk_online d c row : conns !! d = Some c → Wrote c d StatusOnline ∈ log → rows !! d = Some row →
    sr_status row = StatusOnline;
  bk_new i d : ν !! i = Some (VConn d RNew) → ∀ d' st, Wrote i d' st ∉ log;
  bk_who i d st : Wrote i d st ∈ log → is_Some (ν !! i);
  bk_restr i : ν !! i = Some VRestr → ∃ a, objects !! i = Some a ∧ ac_restricted a = true;
}.

Lemma i64_add a b : i64 (i64 a + b) = i64 (a + b).
Proof.
  unfold i64. f_equal.
  replace ((a + 9223372036854775808) `mod` 18446744073709551616 - 9223372036854775808 + b + 9223372036854775808)
    with ((a + 9223372036854775808) `mod` 18446744073709551616 + b) by lia.
  rewrite Zplus_mod_idemp_l. f_equal. lia.
Qed.

Section books.
Implicit Types (ν : views) (conns : gmap bytes nat) (objects : gmap nat AgentConn) (rows : status_rows).

Lemma counts_set f ν i v x :
  ν !! i = Some v →
  Z.of_nat (count_where f (<[i := x]> ν)) =
  Z.of_nat (count_where f ν) + (if f x then 1 else 0) - (if (f : view → bool) v then 1 else 0).
Proof. intros Hi. pose proof (count_where_insert f ν i x v Hi). destruct (f x), (f v); lia. Qed.

(** Whoever an entry retires is retired still. *)
Lemma being_retired_set ν objects i v x c :
  ν !! i = Some v → (∀ d, v = VConn d (RIn (Some c)) → ∃ d', x = VConn d' (RIn (Some c))) →
  (v = VRetire c false → x = VRetire c false) →
  being_retired ν objects c → being_retired (<[i := x]> ν) objects c.
Proof.
  intros Hi Hc Hr [?|[(j & d & Hj)|(j & Hj)]]; [by left| |].
  - right; left. destruct (decide (j = i)) as [->|]; [|exists j, d; by rewrite lookup_insert_ne].
    simplify_eq. destruct (Hc d eq_refl) as [d' ->]. exists i, d'. by rewrite lookup_insert_eq.
  - right; right. exists j. destruct (decide (j = i)) as [->|]; [|by rewrite lookup_insert_ne].
    simplify_eq. rewrite (Hr eq_refl). by rewrite lookup_insert_eq.
Qed.

(** A goroutine changes its standing and the map stays. *)
Lemma books_stand ν conns count objects rows log i d r r' n :
  books ν conns count objects rows log → ν !! i = Some (VConn d r) →
  (conns !! d = Some i → in_map r') → critical r' = false ∨ r' = RClear ∧ conns !! d = None → r' ≠ RNew →
  (∀ o, r' = RIn o → conns !! d = Some i) → (∀ c, r = RIn (Some c) → r' = r) →
  n = (if owes_one (VConn d r) then 1 else 0) - (if owes_minus (VConn d r) then 1 else 0) →
  books (<[i := VConn d r']> ν) conns (i64 (count + n)) objects rows log.
Proof.
  intros Hb Hi Hm Hcr Hnew Hin Howe ->. pose proof Hb as [Hmap Hadd Hclear Hcount Hobj Hret Hon Hn Hw Hre]. split.
  - intros d' c Hc. destruct (Hmap d' c Hc) as (x & Hx & ?). destruct (decide (c = i)) as [->|].
    + simplify_eq. exists r'. rewrite lookup_insert_eq. auto.
    + exists x. by rewrite lookup_insert_ne.
  - intros j d' [[<- [= <- ->]]|[? ?]]%lookup_insert_Some; [|eauto]. by destruct Hcr as [|[? _]].
  - intros j d' x [[<- [= <- ->]]|[? ?]]%lookup_insert_Some Hx; [|eauto].
    destruct Hcr as [Hcr|[_ ?]]; [|done]. by destruct Hx as [-> | ->].
  - rewrite Hcount, i64_add. f_equal. rewrite !(counts_set _ ν i (VConn d r)) by done.
    assert (owes_one (VConn d r') = false ∧ owes_minus (VConn d r') = false) as [-> ->]
      by (destruct Hcr as [|[-> _]]; [by destruct r'|done]). destruct (owes_one _), (owes_minus _); lia.
  - intros j d' x [[<- [= <- <-]]|[? ?]]%lookup_insert_Some; eauto.
  - intros j d' o Hj Hne. destruct (decide (j = i)) as [->|Hji].
    + rewrite lookup_insert_eq in Hj. injection Hj as <- ->. by destruct Hne; eapply Hin.
    + rewrite lookup_insert_ne in Hj by done. eapply being_retired_set; [done| |done|eauto].
      intros d'' [= <- ->]. exists d. by rewrite (Howe j eq_refl).
  - done.
  - intros j d' [[<- [= <- ->]]|[? ?]]%lookup_insert_Some; [done|eauto].
  - intros j d' st (x & Hx)%Hw. destruct (decide (j = i)) as [->|]; [by rewrite lookup_insert_eq; eauto|].
    rewrite lookup_insert_ne by done. eauto.
  - intros j [[<- ?]|[? ?]]%lookup_insert_Some; [done|eauto].
Qed.

Lemma books_count_id ν conns count objects rows log : books ν conns count objects rows log → i64 (count + 0) = count.
Proof. intros Hb. rewrite (bk_count _ _ _ _ _ _ Hb), i64_add. f_equal. lia. Qed.

(** A newer connection takes the device's entry. *)
Lemma books_swap ν conns count objects rows log i d :
  books ν conns count objects rows log → ν !! i = Some (VConn d RNew) →
  (∀ j r, ν !! j = Some (VConn d r) → critical r = true → j = i) →
  books (<[i := VConn d (match conns !! d with None => RAdd | Some o => RIn (Some o) end)]> ν)
    (<[d := i]> conns) count objects rows log.
Proof.
  intros Hb Hi Halone. pose proof Hb as [Hmap Hadd Hclear Hcount Hobj Hret Hon Hn Hw Hre].
  set (r' := match conns !! d with None => RAdd | Some o => RIn (Some o) end).
  assert (Hr' : r' = RAdd ∧ conns !! d = None ∨ ∃ o, r' = RIn (Some o) ∧ conns !! d = Some o)
    by (unfold r'; destruct (conns !! d); eauto).
  clearbody r'. split.
  - intros d' c [[<- <-]|[Hne Hc]]%lookup_insert_Some.
    + exists r'. rewrite lookup_insert_eq. split; [done|]. by destruct Hr' as [[-> _]|(o & -> & _)].
    + destruct (Hmap d' c Hc) as (x & ? & ?). exists x. rewrite lookup_insert_ne; [done|]. intros <-. by simplify_eq.
  - intros j d' [[<- [= <- _]]|[Hne Hj]]%lookup_insert_Some; [by rewrite lookup_insert_eq|].
    rewrite lookup_insert_ne; [eauto|]. intros <-. by specialize (Halone j RAdd Hj eq_refl).
  - intros j d' x [[<- [= <- ->]]|[Hne Hj]]%lookup_insert_Some Hx.
    + by destruct Hr' as [[-> _]|(o & -> & _)]; destruct Hx.
    + rewrite lookup_insert_ne; [eauto|]. intros <-.
      destruct Hne. symmetry. eapply Halone; [done|]. by destruct Hx as [-> | ->].
  - rewrite Hcount. f_equal. rewrite !(counts_set _ ν i (VConn d RNew)) by done. cbn.
    destruct Hr' as [[-> Hd]|(o & -> & Hd)]; cbn.
    + rewrite map_size_insert_None by done. lia.
    + rewrite map_size_insert_Some by eauto. lia.
  - intros j d' x [[<- [= <- <-]]|[? ?]]%lookup_insert_Some; eauto.
  - intros j d' o Hj Hne. destruct (decide (j = i)) as [->|Hji].
    + rewrite lookup_insert_eq in Hj. injection Hj as <- _. by rewrite lookup_insert_eq in Hne.
    + rewrite lookup_insert_ne in Hj by done. destruct (decide (conns !! d' = Some j)) as [Hc|Hc].
      * destruct (decide (d' = d)) as [->|]; [|by rewrite lookup_insert_ne in Hne].
        destruct Hr' as [[_ ?]|(o' & -> & ?)]; [congruence|]. simplify_eq.
        right; left. exists i, d. by rewrite lookup_insert_eq.
      * by eapply being_retired_set; [done| | |eauto].
  - intros d' c row [[<- <-]|[Hne Hc]]%lookup_insert_Some Hlog; [|eauto]. by destruct (Hn _ _ Hi d StatusOnline).
  - intros j d' [[<- [= <- E]]|[? ?]]%lookup_insert_Some; [|eauto].
    exfalso. by destruct Hr' as [[-> _]|(o & -> & _)].
  - intros j d' st (x & Hx)%Hw. destruct (decide (j = i)) as [->|]; [by rewrite lookup_insert_eq; eauto|].
    rewrite lookup_insert_ne by done. eauto.
  - intros j [[<- ?]|[? ?]]%lookup_insert_Some; [done|eauto].
Qed.

(** The connection that still has the entry gives it up. *)
Lemma books_delete ν conns count objects rows log i d :
  books ν conns count objects rows log → ν !! i = Some (VConn d (RIn None)) → conns !! d = Some i →
  (∀ j r, ν !! j = Some (VConn d r) → critical r = true → j = i) →
  books (<[i := VConn d RSub]> ν) (delete d conns) count objects rows log.
Proof.
  intros Hb Hi Hd Halone. pose proof Hb as [Hmap Hadd Hclear Hcount Hobj Hret Hon Hn Hw Hre]. split.
  - intros d' c [Hne Hc]%lookup_delete_Some. destruct (Hmap d' c Hc) as (x & ? & ?). exists x.
    rewrite lookup_insert_ne; [done|]. intros <-. by simplify_eq.
  - intros j d' [[<- ?]|[Hne Hj]]%lookup_insert_Some; [done|].
    rewrite lookup_delete_ne; [eauto|]. intros <-. by specialize (Halone j RAdd Hj eq_refl).
  - intros j d' x [[<- [= <- ->]]|[? Hj]]%lookup_insert_Some Hx; [by rewrite lookup_delete_eq|].
    apply lookup_delete_None. eauto.
  - rewrite Hcount. f_equal. rewrite !(counts_set _ ν i (VConn d (RIn None))) by done. cbn.
    rewrite map_size_delete, Hd. assert (size conns ≠ 0%nat); [|lia].
    apply map_size_non_empty_iff. intros ->. by rewrite lookup_empty in Hd.
  - intros j d' x [[<- [= <- <-]]|[? ?]]%lookup_insert_Some; eauto.
  - intros j d' o [[<- ?]|[Hne Hj]]%lookup_insert_Some Hc; [done|].
    eapply being_retired_set; [done|done|done|]. eapply Hret; [done|]. intros E.
    destruct (decide (d' = d)) as [->|]; [congruence|]. by rewrite lookup_delete_ne in Hc.
  - intros d' c row [_ ?]%lookup_delete_Some. eauto.
  - intros j d' [[<- ?]|[? ?]]%lookup_insert_Some; [done|eauto].
  - intros j d' st (x & Hx)%Hw. destruct (decide (j = i)) as [->|]; [by rewrite lookup_insert_eq; eauto|].
    rewrite lookup_insert_ne by done. eauto.
  - intros j [[<- ?]|[? ?]]%lookup_insert_Some; [done|eauto].
Qed.

(** A goroutine starts. *)
Lemma books_start ν conns count objects rows log i v :
  books ν conns count objects rows log → ν !! i = None → (∀ d r, v = VConn d r → r = RNew) →
  (∀ d r, v = VConn d r → ∃ a, objects !! i = Some a ∧ ac_DeviceID a = d) →
  (v = VRestr → ∃ a, objects !! i = Some a ∧ ac_restricted a = true) →
  books (<[i := v]> ν) conns count objects rows log.
Proof.
  intros Hb Hi Hv Ho Hor. pose proof Hb as [Hmap Hadd Hclear Hcount Hobj Hret Hon Hn Hw Hre].
  assert (Hup : ∀ j x, ν !! j = Some x → <[i := v]> ν !! j = Some x)
    by (intros j x Hj; rewrite lookup_insert_ne; [done|]; intros <-; by rewrite Hi in Hj). split.
  - intros d c (x & ? & ?)%Hmap. eauto.
  - intros j d [[<- E]|[? ?]]%lookup_insert_Some; [by specialize (Hv _ _ E)|eauto].
  - intros j d x [[<- E]|[? ?]]%lookup_insert_Some Hx; [|eauto]. specialize (Hv _ _ E) as ->. by destruct Hx.
  - rewrite Hcount, !count_where_new by done.
    assert (owes_one v = false ∧ owes_minus v = false) as [-> ->]; [|done].
    destruct v as [d r| |]; [|done|done]. by rewrite (Hv d r eq_refl).
  - intros j d r [[<- E]|[? ?]]%lookup_insert_Some; eauto.
  - intros j d o [[<- E]|[Hne Hj]]%lookup_insert_Some Hc; [by specialize (Hv _ _ E)|].
    destruct (Hret j d o Hj Hc) as [?|[(k & d' & ?)|(k & ?)]]; [by left|right; left; eauto|right; right; eauto].
  - done.
  - intros j d [[<- E]|[? ?]]%lookup_insert_Some; [|eauto]. intros d' st (x & Hx)%Hw. by rewrite Hi in Hx.
  - intros j d st (x & Hx)%Hw. eauto.
  - intros j [[<- ?]|[? ?]]%lookup_insert_Some; eauto.
Qed.

(** Connections are closed, marked or given a pong, never reopened. *)
Definition objects_grow (objects objects' : gmap nat AgentConn) : Prop :=
  ∀ i a, objects !! i = Some a → ∃ a', objects' !! i = Some a' ∧ ac_DeviceID a' = ac_DeviceID a ∧
    ac_restricted a' = ac_restricted a ∧ (ac_closed a ≠ None → ac_closed a' ≠ None).

Lemma being_retired_grow ν objects objects' c :
  objects_grow objects objects' → being_retired ν objects c → being_retired ν objects' c.
Proof.
  intros Hg [(a & Ha & ?)|[?|?]]; [left|by right; left|by right; right].
  destruct (Hg c a Ha) as (a' & ? & _ & _ & ?). exists a'. auto.
Qed.

Lemma books_objects ν conns count objects objects' rows log :
  objects_grow objects objects' → books ν conns count objects rows log → books ν conns count objects' rows log.
Proof.
  intros Hg [Hmap Hadd Hclear Hcount Hobj Hret Hon Hn Hw Hre]. split; try done.
  - intros i d r Hi. destruct (Hobj i d r Hi) as (a & Ha & <-). destruct (Hg i a Ha) as (a' & ? & ? & _). eauto.
  - intros i d o Hi Hc. eapply being_retired_grow; eauto.
  - intros i Hi. destruct (Hre i Hi) as (a & Ha & <-). destruct (Hg i a Ha) as (a' & ? & _ & ? & _). eauto.
Qed.

(** The goroutine that retires an older connection is started. *)
Lemma books_hand ν conns count objects rows log i d o j :
  books ν conns count objects rows log → ν !! i = Some (VConn d (RIn (Some o))) → ν !! j = Some (VRetire o false) →
  books (<[i := VConn d (RIn None)]> ν) conns count objects rows log.
Proof.
  intros [Hmap Hadd Hclear Hcount Hobj Hret Hon Hn Hw Hre] Hi Hj.
  assert (Hk : ∀ c, being_retired ν objects c → being_retired (<[i := VConn d (RIn None)]> ν) objects c).
  { intros c Hc. destruct (decide (c = o)) as [->|].
    - right; right. exists j. rewrite lookup_insert_ne; [done|]. intros <-. by simplify_eq.
    - eapply being_retired_set; [done| |done|done]. intros ? [= _ ?]. congruence. }
  split.
  - intros d' c (x & Hx & ?)%Hmap. destruct (decide (c = i)) as [->|]; [|exists x; by rewrite lookup_insert_ne].
    simplify_eq. exists (RIn None). by rewrite lookup_insert_eq.
  - intros k d' [[<- ?]|[? ?]]%lookup_insert_Some; [done|eauto].
  - intros k d' x [[<- [= <- <-]]|[? ?]]%lookup_insert_Some Hx; [by destruct Hx|eauto].
  - rewrite Hcount. f_equal. rewrite !(counts_set _ ν i (VConn d (RIn (Some o)))) by done. cbn. lia.
  - intros k d' x [[<- [= <- <-]]|[? ?]]%lookup_insert_Some; eauto.
  - intros k d' x [[<- [= <- <-]]|[? ?]]%lookup_insert_Some ?; apply Hk; eauto.
  - done.
  - intros k d' [[<- ?]|[? ?]]%lookup_insert_Some; [done|eauto].
  - intros k d' st (x & Hx)%Hw. destruct (decide (k = i)) as [->|]; [by rewrite lookup_insert_eq; eauto|].
    rewrite lookup_insert_ne by done. eauto.
  - intros k [[<- ?]|[? ?]]%lookup_insert_Some; [done|eauto].
Qed.

(** It has closed that connection. *)
Lemma books_retired ν conns count objects rows log i o b :
  books ν conns count objects rows log → ν !! i = Some (VRetire o b) → (is_Some (objects !! o) → closed objects o) →
  books (<[i := VRetire o true]> ν) conns count objects rows log.
Proof.
  intros [Hmap Hadd Hclear Hcount Hobj Hret Hon Hn Hw Hre] Hi Ho.
  assert (Hup : ∀ j d r, <[i := VRetire o true]> ν !! j = Some (VConn d r) ↔ ν !! j = Some (VConn d r)).
  { intros j d r. destruct (decide (j = i)) as [->|]; [|by rewrite lookup_insert_ne].
    rewrite lookup_insert_eq, Hi. done. }
  split.
  - intros d c (x & ? & ?)%Hmap. exists x. by rewrite Hup.
  - intros j d ?%Hup. eauto.
  - intros j d r ?%Hup. eauto.
  - rewrite Hcount. f_equal. rewrite !(counts_set _ ν i (VRetire o b)) by done. cbn. lia.
  - intros j d r ?%Hup. eauto.
  - intros j d x Hj%Hup Hc. destruct (decide (j = o)) as [->|].
    + left. apply Ho. destruct (Hobj _ _ _ Hj) as (a & -> & _). eauto.
    + eapply being_retired_set; [done|done| |eauto]. intros [= ? ->]. congruence.
  - done.
  - intros j d ?%Hup. eauto.
  - intros j d st (x & Hx)%Hw. destruct (decide (j = i)) as [->|]; [by rewrite lookup_insert_eq; eauto|].
    rewrite lookup_insert_ne by done. eauto.
  - intros j [[<- ?]|[? ?]]%lookup_insert_Some; [done|eauto].
Qed.

(** Nothing is written about a device but that it is online, unless nobody has
    its entry. *)
Lemma books_rows ν conns count objects rows rows' log new :
  (∀ d c row, conns !! d = Some c → rows' !! d = Some row → rows !! d = Some row ∨ sr_status row = StatusOnline) →
  (∀ i d st, Wrote i d st ∈ new → (∀ row, rows' !! d = Some row → sr_status row = st) ∧
     ∃ d' r, ν !! i = Some (VConn d' r) ∧ r ≠ RNew) →
  books ν conns count objects rows log → books ν conns count objects rows' (log ++ new).
Proof.
  intros Hr Hnew [Hmap Hadd Hclear Hcount Hobj Hret Hon Hn Hw Hre]. split; try done.
  - intros d c row Hc [Hl|Hl]%elem_of_app Hrow.
    + destruct (Hr d c row Hc Hrow) as [?|?]; eauto.
    + by apply (Hnew _ _ _ Hl).
  - intros i d Hi d' st [Hl|Hl]%elem_of_app; [by eapply Hn|].
    destruct (Hnew _ _ _ Hl) as (_ & d'' & r & ? & ?). by simplify_eq.
  - intros i d st [Hl|Hl]%elem_of_app; [eauto|]. destruct (Hnew _ _ _ Hl) as (_ & d'' & r & ? & ?). eauto.
Qed.
End books.

(** ** The invariant, call by call *)

Definition critical_inside (γ : ghosts) : Prop :=
  ∀ i d pos r, γ !! i = Some (GConn d pos r) → critical r = true → ∃ l, pos = Inside l.

Record shared (γ : ghosts) (s : AgentServer) : Prop := {
  sh_gate : gate_ok γ (as_statusGate s);
  sh_crit : critical_inside γ;
  sh_books : books (view_of <$> γ) (as_conns s) (as_count s) (as_objects s) (as_rows s) (as_log s);
}.

Section calls.
Implicit Types (γ : ghosts) (s : AgentServer).

Lemma crit_set γ i gh :
  (∀ d pos r, gh = GConn d pos r → critical r = true → ∃ l, pos = Inside l) →
  critical_inside γ → critical_inside (<[i := gh]> γ).
Proof. intros Hg Hc j d pos r [[<- ->]|[? ?]]%lookup_insert_Some; eauto. Qed.

Lemma view_at γ i g : γ !! i = Some g → (view_of <$> γ) !! i = Some (view_of g).
Proof. intros H. by rewrite lookup_fmap, H. Qed.

Lemma view_back γ i d r : (view_of <$> γ) !! i = Some (VConn d r) → ∃ pos, γ !! i = Some (GConn d pos r).
Proof. rewrite lookup_fmap. destruct (γ !! i) as [[]|]; cbn; intros [= <- <-]; eauto. Qed.

(** A move in the gate is none in the books. *)
Lemma view_same γ i g g' :
  γ !! i = Some g → view_of g' = view_of g → view_of <$> <[i := g']> γ = view_of <$> γ.
Proof. intros Hi E. rewrite fmap_insert, E. apply insert_id. by apply view_at. Qed.

Lemma alone_inside γ s i d l r :
  shared γ s → γ !! i = Some (GConn d (Inside l) r) →
  ∀ j r', (view_of <$> γ) !! j = Some (VConn d r') → critical r' = true → j = i.
Proof.
  intros [Hg Hc _] Hi j r' [pos Hj]%view_back Hr. destruct (Hc _ _ _ _ Hj Hr) as [l' ->].
  by eapply inside_alone.
Qed.

Lemma shared_join γ s i d r l g :
  shared γ s → γ !! i = Some (GConn d Outside r) → gate_join d (as_statusGate s) = (l, g) →
  shared (<[i := GConn d (Queued l) r]> γ) (with_gate s g).
Proof.
  intros [Hg Hc Hb] Hi E. split; cbn.
  - by eapply join_ok.
  - apply crit_set; [|done]. intros ? ? ? [= <- <- <-] Hr. by destruct (Hc _ _ _ _ Hi Hr).
  - by rewrite (view_same γ i (GConn d Outside r)).
Qed.

Lemma shared_lock γ s i d r l g :
  shared γ s → γ !! i = Some (GConn d (Queued l) r) → gate_lock i l (as_statusGate s) = Some g →
  shared (<[i := GConn d (Inside l) r]> γ) (with_gate s g).
Proof.
  intros [Hg Hc Hb] Hi E. split; cbn.
  - by eapply lock_ok.
  - apply crit_set; [|done]. intros ? ? ? [= <- <- <-] _. eauto.
  - by rewrite (view_same γ i (GConn d (Queued l) r)).
Qed.

Lemma shared_unlock γ s i d r l :
  shared γ s → γ !! i = Some (GConn d (Inside l) r) → r = RClear ∨ critical r = false →
  shared (<[i := GConn d (Leaving l) (if bool_decide (r = RClear) then ROut else r)]> γ)
    (with_gate s (gate_unlock l (as_statusGate s))).
Proof.
  intros [Hg Hc Hb] Hi Hr. split; cbn.
  - by eapply unlock_ok.
  - apply crit_set; [|done]. intros ? ? ? [= <- <- <-]. case_bool_decide; [done|]. by destruct Hr as [| ->].
  - case_bool_decide as E; [|by rewrite (view_same γ i (GConn d (Inside l) r))]. subst r.
    rewrite fmap_insert, <- (books_count_id _ _ _ _ _ _ Hb).
    eapply books_stand; [done|by eapply view_at in Hi| |by left|done|done|done|done].
    rewrite (bk_clear _ _ _ _ _ _ Hb i d RClear); [done|by eapply view_at in Hi|by right].
Qed.

Lemma shared_leave γ s i d r l :
  shared γ s → γ !! i = Some (GConn d (Leaving l) r) →
  shared (<[i := GConn d Outside r]> γ) (with_gate s (gate_leave d l (as_statusGate s))).
Proof.
  intros [Hg Hc Hb] Hi. split; cbn.
  - by eapply leave_ok.
  - apply crit_set; [|done]. intros ? ? ? [= <- <- <-] Hr. by destruct (Hc _ _ _ _ Hi Hr).
  - by rewrite (view_same γ i (GConn d (Leaving l) r)).
Qed.

Lemma shared_swap γ s i d l :
  shared γ s → γ !! i = Some (GConn d (Inside l) RNew) →
  shared (<[i := GConn d (Inside l) (match as_conns s !! d with None => RAdd | Some o => RIn (Some o) end)]> γ)
    (with_conns s (<[d := i]> (as_conns s))).
Proof.
  intros Hs Hi. pose proof Hs as [Hg Hc Hb]. split; cbn.
  - by eapply gate_same.
  - apply crit_set; [|done]. intros ? ? ? [= <- <- <-] _. eauto.
  - rewrite fmap_insert. apply books_swap; [done|by eapply view_at in Hi|]. by eapply alone_inside.
Qed.

Lemma shared_delete γ s i d l :
  shared γ s → γ !! i = Some (GConn d (Inside l) (RIn None)) → as_conns s !! d = Some i →
  shared (<[i := GConn d (Inside l) RSub]> γ) (with_conns s (delete d (as_conns s))).
Proof.
  intros Hs Hi Hd. pose proof Hs as [Hg Hc Hb]. split; cbn.
  - by eapply gate_same.
  - apply crit_set; [|done]. intros ? ? ? [= <- <- <-] _. eauto.
  - rewrite fmap_insert. apply books_delete; [done|by eapply view_at in Hi|done|]. by eapply alone_inside.
Qed.

(** The goroutine inside pays what it owes the count, or finds the entry gone. *)
Lemma shared_stand γ s i d l r r' n :
  shared γ s → γ !! i = Some (GConn d (Inside l) r) →
  (as_conns s !! d = Some i → in_map r') → critical r' = false ∨ r' = RClear ∧ as_conns s !! d = None → r' ≠ RNew →
  (∀ o, r' = RIn o → as_conns s !! d = Some i) → (∀ c, r = RIn (Some c) → r' = r) →
  n = (if owes_one (VConn d r) then 1 else 0) - (if owes_minus (VConn d r) then 1 else 0) →
  shared (<[i := GConn d (Inside l) r']> γ) (with_count s (i64 (as_count s + n))).
Proof.
  intros [Hg Hc Hb] Hi ??????. split; cbn.
  - by eapply gate_same.
  - apply crit_set; [|done]. intros ? ? ? [= <- <- <-] _. eauto.
  - rewrite fmap_insert. eapply books_stand; eauto. by eapply view_at in Hi.
Qed.
Lemma on_conn_grow f c s :
  (∀ a, ac_DeviceID (f a) = ac_DeviceID a ∧ ac_restricted (f a) = ac_restricted a ∧
     (ac_closed a ≠ None → ac_closed (f a) ≠ None)) →
  objects_grow (as_objects s) (as_objects (on_conn f c s)).
Proof.
  intros Hf i a Hi. cbn. destruct (decide (i = c)) as [->|].
  - rewrite lookup_alter_eq, Hi. cbn. destruct (Hf a) as (? & ? & ?). eauto.
  - rewrite lookup_alter_ne by done. eauto.
Qed.

Lemma close_with_grows code a :
  ac_DeviceID (close_with code a) = ac_DeviceID a ∧ ac_restricted (close_with code a) = ac_restricted a ∧
  (ac_closed a ≠ None → ac_closed (close_with code a) ≠ None).
Proof. split_and!; [done|done|]. cbn. by destruct (ac_closed a). Qed.

Lemma shared_on_conn γ s f c :
  (∀ a, ac_DeviceID (f a) = ac_DeviceID a ∧ ac_restricted (f a) = ac_restricted a ∧
     (ac_closed a ≠ None → ac_closed (f a) ≠ None)) →
  shared γ s → shared γ (on_conn f c s).
Proof.
  intros Hf [Hg Hc Hb]. split; [done|done|]. eapply books_objects; [|exact Hb]. by apply (on_conn_grow f c s).
Qed.

Lemma shared_retired γ s i o b code :
  shared γ s → γ !! i = Some (GRetire o b) → shared (<[i := GRetire o true]> γ) (on_conn (close_with code) o s).
Proof.
  intros Hs Hi. pose proof (shared_on_conn γ s (close_with code) o (close_with_grows code) Hs) as [Hg Hc Hb].
  split; cbn in *.
  - apply gate_outside; [|done|done]. intros d x Hx. by simplify_eq.
  - by apply crit_set.
  - rewrite fmap_insert. eapply books_retired; [done|by eapply view_at in Hi|].
    intros [a Ha]. rewrite lookup_alter_eq in Ha. destruct (as_objects s !! o) as [a'|] eqn:E; [|done].
    exists (close_with code a'). rewrite lookup_alter_eq, E. split; [done|]. cbn. by destruct (ac_closed a').
Qed.

Lemma shared_start γ s i gh :
  shared γ s → γ !! i = None → (∀ d pos r, gh = GConn d pos r → pos = Outside ∧ r = RNew) →
  (∀ d pos r, gh = GConn d pos r → ∃ a, as_objects s !! i = Some a ∧ ac_DeviceID a = d) →
  (∀ d, gh = GRestr d → ∃ a, as_objects s !! i = Some a ∧ ac_restricted a = true) →
  shared (<[i := gh]> γ) s.
Proof.
  intros [Hg Hc Hb] Hi Hgh Ho Hor. split.
  - apply gate_outside; [by rewrite Hi| |done]. intros d. destruct gh as [d' pos r| |]; [|done|done]. cbn.
    destruct (Hgh d' pos r eq_refl) as [-> _]. by rewrite andb_false_r.
  - apply crit_set; [|done]. intros d pos r E. destruct (Hgh d pos r E) as [_ ->]. done.
  - rewrite fmap_insert. apply books_start; [done|by rewrite lookup_fmap, Hi|..].
    + destruct gh; cbn; intros ? ? [=]; subst. by eapply Hgh.
    + destruct gh; cbn; intros ? ? [=]; subst. by eapply Ho.
    + destruct gh; cbn; intros [=]. by eapply Hor.
Qed.

Lemma shared_hand γ s i d pos o j p :
  shared γ s → γ !! i = Some (GConn d pos (RIn (Some o))) → γ !! j = None →
  shared (<[i := GConn d pos (RIn None)]> (<[j := GRetire o false]> γ)) (with_goroutines s p).
Proof.
  intros Hs Hi Hj. destruct (shared_start γ s j (GRetire o false)) as [Hg Hc Hb]; [done..|].
  assert (Hi' : <[j := GRetire o false]> γ !! i = Some (GConn d pos (RIn (Some o))))
    by (rewrite lookup_insert_ne; [done|intros ->; by rewrite Hi in Hj]).
  split; cbn.
  - by eapply gate_same.
  - by apply crit_set; [intros ? ? ? [= <- <- <-]|].
  - rewrite fmap_insert. eapply books_hand; [done|by eapply view_at in Hi'|].
    by rewrite lookup_fmap, lookup_insert_eq.
Qed.

(** A write of a device's status by the connection's own goroutine. *)
Lemma shared_write γ s i d pos r st x rows an :
  shared γ s → γ !! i = Some (GConn d pos r) → r ≠ RNew →
  (st = StatusOnline ∨ as_conns s !! d = None) →
  (rows = as_rows s ∨ ∃ row, sr_status row = st ∧ rows = <[d := row]> (as_rows s)) →
  (x = true → ∃ row, sr_status row = st ∧ rows = <[d := row]> (as_rows s)) →
  shared γ (wrote i d st (x, rows) an s).2.
Proof.
  intros [Hg Hc Hb] Hi Hr Hst Hrows Hx. unfold wrote.
  assert (Hk : ∀ log, log = [] ∨ log = [Wrote i d st] ∧ x = true →
    shared γ (with_rows s rows (as_log s ++ log))).
  { intros log Hlog. split; [done|done|]. cbn. eapply books_rows; [..|exact Hb].
    - intros d' c row Hc' Hrow. destruct Hrows as [-> | (row' & <- & ->)]; [by left|].
      apply lookup_insert_Some in Hrow as [[<- <-]|[_ ?]]; [|by left]. destruct Hst as [->|]; [by right|congruence].
    - intros j d' st' Hin. destruct Hlog as [-> | [-> Ht]]; [by apply elem_of_nil in Hin|].
      apply list_elem_of_singleton in Hin as [= -> -> ->]. destruct (Hx Ht) as (row & <- & ->). split.
      + intros row'. rewrite lookup_insert_eq. by intros [= <-].
      + exists d, r. split; [|done]. by eapply view_at in Hi. }
  destruct (an_ok an); cbn.
  - apply Hk. destruct x; auto.
  - destruct (an_landed an); [|by split]. rewrite <- (app_nil_r (as_log s)). apply Hk. by left.
Qed.

Lemma shared_note γ s h :
  (∀ i d st, h ≠ Wrote i d st) → shared γ s → shared γ (with_rows s (as_rows s) (as_log s ++ [h])).
Proof.
  intros Hh [Hg Hc Hb]. split; [done|done|]. cbn. eapply books_rows; [..|exact Hb]; [auto|].
  intros i d st Hin%list_elem_of_singleton. by edestruct Hh.
Qed.
End calls.

(** ** Every run *)

Definition entry_ok (i : nat) (g : option ghost) (p : option (goroutine unit)) : Prop :=
  match g, p with
  | Some g, Some p => typed i (λ g _, finished g) p g
  | None, None => True
  | _, _ => False
  end.

Record inv (γ : ghosts) (s : AgentServer) : Prop := {
  iv_pool i : entry_ok i (γ !! i) (as_goroutines s !! i);
  iv_shared : shared γ s;
}.

Definition others_ok (i : nat) (γ' : ghosts) (s' : AgentServer) : Prop :=
  ∀ j, j ≠ i → entry_ok j (γ' !! j) (as_goroutines s' !! j).

Lemma guarded_Some {R} b (f f' : R → ghost) : guarded b f = Some f' → b = true ∧ f' = f.
Proof. unfold guarded. destruct b; [|done]. by intros [= <-]. Qed.

Ltac guards :=
  repeat match goal with
  | H : guarded _ _ = Some _ |- _ => apply guarded_Some in H as [? ->]
  | H : _ && _ = true |- _ => apply andb_true_iff in H as [? ?]
  | H : bool_decide _ = true |- _ => apply bool_decide_eq_true in H; match type of H with ?x = _ => subst x end
  | H : Some _ = Some _ |- _ => first [injection H as <- <-|injection H as <-]
  | H : None = Some _ |- _ => discriminate H
  end.

(** A step that moves only its own goroutine's ghost. *)
Lemma call_alone γ s s' i g :
  inv γ s → shared (<[i := g]> γ) s' → as_goroutines s' = as_goroutines s →
  ∃ γ', shared γ' s' ∧ γ' !! i = Some g ∧ others_ok i γ' s'.
Proof.
  intros [Hp _] Hs Hg. exists (<[i := g]> γ). split_and!; [done|by rewrite lookup_insert_eq|].
  intros j Hj. rewrite lookup_insert_ne, Hg by done. apply Hp.
Qed.

Lemma call_calm γ s s' i g :
  inv γ s → γ !! i = Some g → shared γ s' → as_goroutines s' = as_goroutines s →
  ∃ γ', shared γ' s' ∧ γ' !! i = Some g ∧ others_ok i γ' s'.
Proof. intros Hi Hg Hs. eapply call_alone; [done|]. by rewrite insert_id. Qed.

(** A change of what the books do not speak of. *)
Lemma shared_equiv γ s s' :
  as_conns s' = as_conns s → as_count s' = as_count s → as_statusGate s' = as_statusGate s →
  as_objects s' = as_objects s → as_rows s' = as_rows s → as_log s' = as_log s → shared γ s → shared γ s'.
Proof. intros E1 E2 E3 E4 E5 E6 [? ? ?]. split; [by rewrite E3|done|]. by rewrite E1, E2, E4, E5, E6. Qed.

Lemma wrote_goroutines i d st x an s : as_goroutines (wrote i d st x an s).2 = as_goroutines s.
Proof. unfold wrote. destruct x, (an_ok an); [done|]. by destruct (an_landed an). Qed.

Ltac status_row := eexists; split; [|reflexivity]; reflexivity.

Lemma upsert_rows t d rows :
  let x := upsert_status t d rows in
  (x.2 = rows ∨ ∃ row, sr_status row = StatusOnline ∧ x.2 = <[d := row]> rows) ∧
  (x.1 = true → ∃ row, sr_status row = StatusOnline ∧ x.2 = <[d := row]> rows).
Proof.
  unfold upsert_status. destruct (rows !! d) as [r|]; [case_bool_decide|]; cbn;
    (split; [first [by left|right; status_row]|intros ?; first [done|status_row]]).
Qed.

Lemma set_status_rows t d st rows :
  let x := SetStatus t d st rows in
  (x.2 = rows ∨ ∃ row, sr_status row = st ∧ x.2 = <[d := row]> rows) ∧
  (x.1 = true → ∃ row, sr_status row = st ∧ x.2 = <[d := row]> rows).
Proof.
  unfold SetStatus. destruct (has_row t d rows); cbn;
    (split; [first [by left|right; status_row]|intros ?; first [done|status_row]]).
Qed.

Lemma write_calm γ s i d pos r st x an :
  inv γ s → γ !! i = Some (GConn d pos r) → r ≠ RNew → (st = StatusOnline ∨ as_conns s !! d = None) →
  (x.2 = as_rows s ∨ ∃ row, sr_status row = st ∧ x.2 = <[d := row]> (as_rows s)) ∧
  (x.1 = true → ∃ row, sr_status row = st ∧ x.2 = <[d := row]> (as_rows s)) →
  ∃ γ', shared γ' (wrote i d st x an s).2 ∧ γ' !! i = Some (GConn d pos r) ∧ others_ok i γ' (wrote i d st x an s).2.
Proof.
  intros Hi Hg Hr Hst [H1 H2]. destruct x as [found rows]. eapply call_calm; [done|done| |apply wrote_goroutines].
  eapply shared_write; eauto. apply Hi.
Qed.

Section step.
Implicit Types (γ : ghosts) (s : AgentServer).

Lemma fresh_ghost γ s : inv γ s → γ !! fresh (dom (as_goroutines s)) = None.
Proof.
  intros [Hp _]. pose proof (is_fresh (dom (as_goroutines s))) as Hf. apply not_elem_of_dom in Hf.
  specialize (Hp (fresh (dom (as_goroutines s)))). rewrite Hf in Hp. unfold entry_ok in Hp.
  by destruct (γ !! fresh (dom (as_goroutines s))).
Qed.

Lemma set_status_allowed i g t d st f :
  gnext i g (XSetStatus t d st) = Some f →
  (∀ r, f r = g) ∧ ∃ pos r, g = GConn d pos r ∧ (r = RIn None ∧ st = StatusOnline ∨ r = RClear ∧ st = StatusOffline).
Proof. destruct g as [d0 [] [| |[]| | |]| |]; cbn; intros Hn; guards; naive_solver. Qed.

(** An older connection is handed to a goroutine of its own. *)
Lemma call_hand γ s i d pos o newer an r s' :
  inv γ s → γ !! i = Some (GConn d pos (RIn (Some o))) → cexec i (GoRetire o newer) an s = Some (r, s') →
  ∃ γ', shared γ' s' ∧ γ' !! i = Some (GConn d pos (RIn None)) ∧ others_ok i γ' s'.
Proof.
  intros Hi Hg He. pose proof (iv_shared _ _ Hi) as Hs. cbn in He. guards.
  eexists. split_and!; [eapply shared_hand; [done|done|by apply fresh_ghost]|by rewrite lookup_insert_eq|].
  intros j Hj. rewrite lookup_insert_ne by done. cbn.
  destruct (decide (j = fresh (dom (as_goroutines s)))) as [->|].
  - rewrite !lookup_insert_eq. apply retire_typed.
  - rewrite !lookup_insert_ne by done. apply Hi.
Qed.

(** The count is settled by the goroutine inside. *)
Lemma call_count γ s i g n f an r s' :
  inv γ s → γ !! i = Some g → gnext i g (CountAdd n) = Some f → cexec i (CountAdd n) an s = Some (r, s') →
  ∃ γ', shared γ' s' ∧ γ' !! i = Some (f r) ∧ others_ok i γ' s'.
Proof.
  intros Hi Hg Hn He. pose proof (iv_shared _ _ Hi) as Hs. pose proof (sh_books _ _ Hs) as Hb.
  cbn in Hn, He. destruct g as [d [] []| |]; guards; (eapply call_alone; [done| |done]).
  - eapply shared_stand; [done|done|done|by left|done| |done|done].
    intros o _. eapply bk_add; [done|]. by eapply view_at in Hg.
  - eapply view_at in Hg as Hv. pose proof (bk_clear _ _ _ _ _ _ Hb i d RSub Hv (or_introl eq_refl)) as Hd.
    eapply shared_stand; [done|done|by rewrite Hd|by right|done|done|done|done].
Qed.

(** The entry is given up, or found to be another's. *)
Lemma call_delete γ s i g d ac f an r s' :
  inv γ s → γ !! i = Some g → gnext i g (CompareAndDelete d ac) = Some f →
  cexec i (CompareAndDelete d ac) an s = Some (r, s') →
  ∃ γ', shared γ' s' ∧ γ' !! i = Some (f r) ∧ others_ok i γ' s'.
Proof.
  intros Hi Hg Hn He. pose proof (iv_shared _ _ Hi) as Hs. cbn in Hn, He.
  destruct g as [d0 [] [| |[]| | |]| |]; guards. case_bool_decide as Hd; guards.
  - eapply call_alone; [done|by eapply shared_delete|done].
  - eapply call_alone; [done| |done].
    eapply shared_equiv; [..|eapply (shared_stand γ s i d0 l (RIn None) ROut 0)]; try done; cbn; [|by left].
    symmetry. eapply books_count_id. apply Hs.
Qed.

Lemma call_status γ s i g t d st f an r s' :
  inv γ s → γ !! i = Some g → gnext i g (XSetStatus t d st) = Some f → cexec i (XSetStatus t d st) an s = Some (r, s') →
  ∃ γ', shared γ' s' ∧ γ' !! i = Some (f r) ∧ others_ok i γ' s'.
Proof.
  intros Hi Hg Hn He. destruct (set_status_allowed i g t d st f Hn) as (Hf & pos & r0 & -> & Hr). rewrite Hf.
  assert (Hw : r0 ≠ RNew ∧ (st = StatusOnline ∨ as_conns s !! d = None)).
  { destruct Hr as [[-> ->]|[-> ->]]; [by auto|]. split; [done|]. right.
    eapply bk_clear; [apply Hi|by eapply view_at in Hg|by right]. }
  pose proof (write_calm γ s i d pos r0 st _ an Hi Hg (proj1 Hw) (proj2 Hw) (set_status_rows t d st (as_rows s))) as Hwr.
  cbn in He. by destruct (wrote _ _ _ _ _ _) as [? ?] eqn:E; simplify_eq/=.
Qed.

(** Every call keeps the books, whatever it answers. *)
Lemma call_inv γ s i g {R} (c : ccall R) f an r s' :
  inv γ s → γ !! i = Some g → gnext i g c = Some f → cexec i c an s = Some (r, s') →
  ∃ γ', shared γ' s' ∧ γ' !! i = Some (f r) ∧ others_ok i γ' s'.
Proof.
  intros Hi Hg Hn He. pose proof (iv_shared _ _ Hi) as Hs.
  destruct c; try (by eapply call_delete); try (by eapply call_count); try (by eapply call_status); cbn in Hn, He;
    try (guards; eapply call_calm; [done|done|by apply (shared_equiv γ s)|done]).
  - destruct (gate_join _ _) as [l gt] eqn:E. destruct g as [? [] ?| |]; guards.
    eapply call_alone; [done|by eapply shared_join|done].
  - destruct (gate_lock _ _ _) as [gt|] eqn:E; [|done]. destruct g as [? [] ?| |]; guards.
    eapply call_alone; [done|by eapply shared_lock|done].
  - guards. destruct g as [d [] []| |]; guards;
      (eapply call_alone; [done|exact (shared_unlock γ s i d _ _ Hs Hg ltac:(first [by left|by right]))|done]).
  - guards. destruct g as [? [] ?| |]; guards. eapply call_alone; [done|by eapply shared_leave|done].
  - guards. destruct g as [d0 [] []| |]; guards. eapply call_alone; [done|by eapply shared_swap|done].
  - destruct g as [d0 pos [| |[o|]| | |]| |]; guards. by eapply (call_hand γ s i d0 pos o i an).
  - guards. eapply call_calm; [done|done|by apply shared_note|done].
  - destruct g as [d0 pos [| |[]| | |]| |]; guards.
    pose proof (write_calm γ s i d0 pos (RIn None) StatusOnline _ an Hi Hg ltac:(done) (or_introl eq_refl)
                  (upsert_rows t d0 (as_rows s))) as Hw.
    by destruct (wrote _ _ _ _ _ _) as [? ?] eqn:E; simplify_eq/=.
  - guards. destruct (an_ok an && _); guards; (eapply call_calm; [done|done| |done]); [by apply shared_note|done].
  - destruct g as [d0 [] [| |[]| | |]| |]; guards; (eapply call_calm; [done|done|by apply (shared_equiv γ s)|done]).
  - guards. eapply call_calm; [done|done|by apply shared_on_conn|done].
  - guards. destruct (as_objects s !! ac) as [a|] eqn:Ea; [destruct (ac_pongs a && _)|]; guards;
      (eapply call_calm; [done|done| |done]); [by apply shared_on_conn|done|done].
  - guards. eapply call_calm; [done|done|by apply shared_on_conn|done].
  - guards. pose proof (shared_on_conn γ s (close_with code) ac (close_with_grows code) Hs) as Hcl.
    destruct g as [d0 pos r| |o b]; [by eapply call_calm..|]. case_bool_decide; [subst o|by eapply call_calm].
    eapply call_alone; [done|by eapply shared_retired|done].
Qed.

Lemma run_inv γ s i an s' : inv γ s → cstep (ARun i an) s = Some s' → ∃ γ', inv γ' s'.
Proof.
  intros Hi. pose proof (iv_pool _ _ Hi i) as Ht. revert Ht. cbn [cstep].
  destruct (as_goroutines s !! i) as [[|R c k|]|] eqn:Ep; [done| |done|done].
  destruct (γ !! i) as [g|] eqn:Eg; [|done]. cbn -[gnext cexec].
  destruct (gnext i g c) as [f|] eqn:En; [|done]. intros Ht.
  destruct (cexec i c an s) as [[r s1]|] eqn:Ec; [|done]. intros [= <-].
  destruct (call_inv γ s i g c f an r s1 Hi Eg En Ec) as (γ' & Hs' & Hg' & Ho). exists γ'. split.
  - intros j. cbn. destruct (decide (j = i)) as [->|]; [|rewrite lookup_insert_ne by done; by apply Ho].
    rewrite lookup_insert_eq, Hg'. apply Ht.
  - by apply (shared_equiv γ' s1).
Qed.

(** Acts that move no goroutine. *)
Lemma quiet_inv γ s s' : inv γ s → shared γ s' → as_goroutines s' = as_goroutines s → inv γ s'.
Proof. intros [Hp _] Hs Hg. split; [|done]. intros i. rewrite Hg. apply Hp. Qed.

Lemma accept_inv γ s n t d fp r : inv γ s → ∃ γ', inv γ' (accept_conn n t d fp r s).
Proof.
  intros Hi. pose proof (is_fresh (dom (as_goroutines s) ∪ dom (as_objects s))) as Hf.
  unfold accept_conn. set (ac := fresh (dom (as_goroutines s) ∪ dom (as_objects s))) in *.
  apply not_elem_of_union in Hf as [Hf Hfo]. apply not_elem_of_dom in Hf. apply not_elem_of_dom in Hfo.
  assert (Hg : γ !! ac = None). { pose proof (iv_pool _ _ Hi ac) as Hp. rewrite Hf in Hp. unfold entry_ok in Hp. by destruct (γ !! ac). }
  exists (<[ac := if r then GRestr d else GConn d Outside RNew]> γ). split; cbn.
  - intros j. destruct (decide (j = ac)) as [->|]; [|rewrite !lookup_insert_ne by done; apply Hi].
    rewrite !lookup_insert_eq. cbn. destruct r; [apply serveRestricted_typed|apply accepted_typed].
  - match goal with |- shared _ (with_goroutines ?s1 _) => apply (shared_equiv _ s1); [done..|] end.
    apply shared_start; [|done|by destruct r; intros ? ? ? [= <- <- <-]|..].
    + destruct (iv_shared _ _ Hi) as [? ? Hb]. split; [done|done|]. eapply books_objects; [|exact Hb].
      intros j a Ha. cbn. exists a. rewrite lookup_insert_ne; [done|]. intros <-. by rewrite Hfo in Ha.
    + destruct r; intros ? ? ? [= <- <- <-]. cbn. rewrite lookup_insert_eq. eauto.
    + destruct r; intros ? [= <-]. cbn. rewrite lookup_insert_eq. eauto.
Qed.

(** What each step of a loop over connections keeps. *)
Lemma loop_goroutines (f : AgentServer → nat → AgentServer) l s :
  (∀ s c, as_goroutines (f s c) = as_goroutines s) → as_goroutines (foldl f s l) = as_goroutines s.
Proof. intros Hf. revert s. induction l as [|c l IH]; intros s; [done|]. cbn. by rewrite IH, Hf. Qed.

Lemma loop_shared γ (f : AgentServer → nat → AgentServer) l s :
  (∀ s c, shared γ s → shared γ (f s c)) → shared γ s → shared γ (foldl f s l).
Proof. intros Hf. revert s. induction l as [|c l IH]; intros s Hs; [done|]. cbn. by apply IH, Hf. Qed.

Lemma doomed_goroutines prints s c : as_goroutines (close_if_doomed prints s c) = as_goroutines s.
Proof. unfold close_if_doomed. destruct (as_objects s !! c); [by case_bool_decide|done]. Qed.

Lemma doomed_shared γ prints s c : shared γ s → shared γ (close_if_doomed prints s c).
Proof.
  intros Hs. unfold close_if_doomed. destruct (as_objects s !! c); [|done]. case_bool_decide; [|done].
  apply shared_on_conn; [apply close_with_grows|done].
Qed.

Lemma deregister_goroutines d s : as_goroutines (DeregisterAgent d s) = as_goroutines s.
Proof.
  unfold DeregisterAgent. destruct (GetAgent _ d) as [ac|]; [|done]. destruct (as_objects _ !! ac) as [a|]; [|done].
  by destruct (ac_released a).
Qed.

Lemma deregister_shared γ d s : shared γ s → shared γ (DeregisterAgent d s).
Proof.
  intros Hs. unfold DeregisterAgent. set (s1 := with_tombstones s _).
  assert (shared γ s1) by by apply (shared_equiv γ s). destruct (GetAgent s1 d) as [ac|]; [|done].
  destruct (as_objects s1 !! ac) as [a|]; [|done]. destruct (ac_released a); [done|]. by apply shared_note.
Qed.

Lemma deregister_if_goroutines t s c : as_goroutines (deregister_if t s c) = as_goroutines s.
Proof.
  unfold deregister_if. destruct (as_objects s !! c); [|done]. case_bool_decide; [apply deregister_goroutines|done].
Qed.

Lemma deregister_if_shared γ t s c : shared γ s → shared γ (deregister_if t s c).
Proof.
  intros Hs. unfold deregister_if. destruct (as_objects s !! c); [|done].
  case_bool_decide; [by apply deregister_shared|done].
Qed.

Lemma new_inv rows tombstones : inv ∅ (NewAgentServer rows tombstones).
Proof.
  split; [intros i; cbn; by rewrite !lookup_empty|]. split; [split; by intros|by intros ? ? ? ?|].
  rewrite fmap_empty. split; cbn; try (intros; by simplify_map_eq); try (intros; by apply elem_of_nil in H).
  all: try by intros ? ? ? ? ?%elem_of_nil. all: by intros ? ? ? ?%elem_of_nil.
Qed.

Lemma cstep_inv γ x s s' : inv γ s → cstep x s = Some s' → ∃ γ', inv γ' s'.
Proof.
  intros Hi. pose proof (iv_shared _ _ Hi) as Hs.
  destruct x; cbn -[accept_conn]; [| |destruct (as_objects s !! ac) as [a|]; [destruct (ac_restricted a)|]|..].
  all: try done. all: try (intros [= <-]).
  - by eapply accept_inv.
  - by apply (run_inv γ s i an s').
  - exists γ. eapply quiet_inv; [done| |done]. apply shared_on_conn; [apply close_with_grows|done].
  - exists γ. eapply quiet_inv; [done|apply loop_shared, Hs; apply doomed_shared|].
    apply loop_goroutines, doomed_goroutines.
  - exists γ. eapply quiet_inv; [done|by apply deregister_shared|apply deregister_goroutines].
  - exists γ. eapply quiet_inv; [done|apply loop_shared, Hs; apply deregister_if_shared|].
    apply loop_goroutines, deregister_if_goroutines.
  - exists γ. eapply quiet_inv; [done| |done]. destruct Hs as [? ? Hb]. split; [done|done|]. cbn.
    rewrite <- (app_nil_r (as_log s)). eapply books_rows; [..|exact Hb].
    + intros d' c row _ [_ ?]%lookup_delete_Some. by left.
    + by intros ? ? ? ?%elem_of_nil.
  - exists γ. eapply quiet_inv; [done|by apply (shared_equiv γ s)|done].
  - exists ∅. apply new_inv.
Qed.

Lemma cruns_inv xs γ s s' : inv γ s → cruns xs s = Some s' → ∃ γ', inv γ' s'.
Proof.
  revert γ s. induction xs as [|x xs IH]; intros γ s Hi; cbn; [intros [= <-]; eauto|].
  destruct (cstep x s) as [s1|] eqn:E; [|done]. destruct (cstep_inv γ x s s1 Hi E) as [γ1 H1]. by apply (IH γ1).
Qed.
End step.

(** ** A reconnect is never overwritten *)

(** C6: in every run, a device whose held connection has written it online stays online in its row: no release of an
    older connection, whatever its timing, and no failed write overwrites it. *)
Theorem reconnect_never_overwritten rows tombstones xs s d c row :
  cruns xs (NewAgentServer rows tombstones) = Some s →
  GetAgent s d = Some c → Wrote c d StatusOnline ∈ as_log s → as_rows s !! d = Some row →
  sr_status row = StatusOnline.
Proof.
  intros Hr Hc Hw Hrow. destruct (cruns_inv _ _ _ _ (new_inv rows tombstones) Hr) as [γ [_ [_ _ Hb]]].
  by eapply bk_online.
Qed.

(** ** At rest *)

Definition is_read {R} (c : ccall R) : bool := match c with ReadFrame _ => true | _ => false end.

(** A goroutine that is over or waits for its machine. *)
Definition resting (p : goroutine unit) : bool :=
  match p with Ret _ => true | Do c _ => is_read c | Panic => false end.

Definition reading (p : goroutine unit) : bool := match p with Do c _ => is_read c | _ => false end.

Definition at_rest (s : AgentServer) : Prop := ∀ i p, as_goroutines s !! i = Some p → resting p = true.

Definition rests (g : ghost) : Prop :=
  match g with GConn _ Outside (RIn None) | GConn _ Outside ROut | GRestr _ | GRetire _ true => True | _ => False end.

Lemma is_read_ghost {R} i g (c : ccall R) f :
  is_read c = true → gnext i g c = Some f → (∃ d, g = serving d) ∨ ∃ d, g = GRestr d.
Proof.
  destruct c; try done. intros _. cbn. destruct g as [d [] [| |[]| | |]|d|]; try done; intros _; [left|right]; eauto.
Qed.

(** What the ghost of a resting goroutine says of it. *)
Lemma rest_ghost γ s i g :
  inv γ s → at_rest s → γ !! i = Some g →
  rests g ∧ ∃ p, as_goroutines s !! i = Some p ∧ (∀ d, g = serving d → reading p = true).
Proof.
  intros [Hp _] Hr Hg. specialize (Hp i). rewrite Hg in Hp. unfold entry_ok in Hp.
  destruct (as_goroutines s !! i) as [p|] eqn:E; [|done]. specialize (Hr i p E).
  destruct p as [a|R c k|]; [..|done]; cbn -[gnext] in Hp, Hr.
  - split; [|exists (Ret a); split; [done|by intros d ->]].
    by destruct g as [? [] []| |? []].
  - destruct (gnext i g c) as [f|] eqn:En; [|done].
    split; [|exists (Do c k); split; [done|by intros]].
    by destruct (is_read_ghost i g c f Hr En) as [[d ->]|[d ->]].
Qed.

Lemma rest_nobody_inside γ s : inv γ s → at_rest s → ∀ i d pos r, γ !! i = Some (GConn d pos r) → pos = Outside.
Proof. intros Hi Hr i d pos r Hg. destruct (rest_ghost γ s i _ Hi Hr Hg) as [H _]. by destruct pos, r. Qed.

Lemma rest_counts γ s :
  inv γ s → at_rest s → ∀ f, f = owes_one ∨ f = owes_minus → count_where f (view_of <$> γ) = 0%nat.
Proof.
  intros Hi Hr f Hf. unfold count_where. apply map_size_empty_iff, map_empty. intros i.
  apply map_lookup_filter_None. destruct ((view_of <$> γ) !! i) as [v|] eqn:E; [|by left]. right.
  intros ? [= <-]. cbn. rewrite lookup_fmap in E. destruct (γ !! i) as [g|] eqn:Eg; [|done]. injection E as <-.
  destruct (rest_ghost γ s i g Hi Hr Eg) as [H _]. destruct Hf as [-> | ->]; by destruct g as [? [] []| |].
Qed.

Lemma rest_no_lock γ s : inv γ s → at_rest s → dg_locks (as_statusGate s) = ∅.
Proof.
  intros Hi Hrest. pose proof (sh_gate _ _ (iv_shared _ _ Hi)) as Hg. apply map_empty. intros d.
  destruct (dg_locks (as_statusGate s) !! d) as [l|] eqn:E; [|done]. exfalso.
  destruct (go_count _ _ Hg d l E) as (k & _ & Hw & Hpos & _).
  assert (count_where (in_gate d) γ = 0%nat); [|lia].
  unfold count_where. apply map_size_empty_iff, map_empty. intros i. apply map_lookup_filter_None.
  destruct (γ !! i) as [g|] eqn:Ei; [|by left]. right. intros ? [= <-]. cbn.
  destruct g as [d' pos r| |]; [|done|done]. cbn. rewrite (rest_nobody_inside γ s Hi Hrest i d' pos r Ei).
  by rewrite andb_false_r.
Qed.

(** A connection that is read without having its device's entry was closed. *)
Lemma rest_closed γ s c a p :
  inv γ s → at_rest s → as_objects s !! c = Some a → ac_restricted a = false →
  as_goroutines s !! c = Some p → reading p = true →
  as_conns s !! ac_DeviceID a = Some c ∨ ac_closed a ≠ None.
Proof.
  intros Hi Hrest Ha Hnr Hpp Hread. pose proof Hi as [Hp [_ _ Hb]]. specialize (Hp c).
  rewrite Hpp in Hp. unfold entry_ok in Hp.
  destruct (γ !! c) as [g|] eqn:Hgc; [|done]. destruct p as [|R cl k|]; [done| |done]. cbn -[gnext] in Hp, Hread.
  destruct (gnext c g cl) as [f|] eqn:En; [|done].
  destruct (is_read_ghost c g cl f Hread En) as [[d ->]|[d ->]]; eapply view_at in Hgc as Hv.
  - destruct (bk_obj _ _ _ _ _ _ Hb c d _ Hv) as (a' & Ha' & <-). simplify_eq.
    destruct (decide (as_conns s !! ac_DeviceID a = Some c)); [by left|right].
    destruct (bk_retire _ _ _ _ _ _ Hb c _ _ Hv) as [(a' & ? & ?)|[(j & d & Hj)|(j & Hj)]]; [done|by simplify_eq|..].
    + apply view_back in Hj as [pos Hj]. destruct (rest_ghost γ s j _ Hi Hrest Hj) as [H _]. by destruct pos.
    + rewrite lookup_fmap in Hj. destruct (γ !! j) as [g|] eqn:Ej; [|done]. destruct g; try done.
      injection Hj as -> ->. by destruct (rest_ghost γ s j _ Hi Hrest Ej) as [H _].
  - destruct (bk_restr _ _ _ _ _ _ Hb c Hv) as (a' & ? & ?). congruence.
Qed.

(** C35: once every goroutine has finished or waits for its machine, no status lock is left, the count is the number of
    devices connected, each entry of the map is a connection of that device that is being read, and a connection that
    is being read without the entry has been closed. *)
Theorem connections_at_rest rows tombstones xs s :
  cruns xs (NewAgentServer rows tombstones) = Some s → at_rest s →
  inFlight (as_statusGate s) = [] ∧
  ConnectedAgentCount s = i64 (Z.of_nat (size (as_conns s))) ∧
  (∀ d c, GetAgent s d = Some c → ∃ a p, as_objects s !! c = Some a ∧ ac_DeviceID a = d ∧
     as_goroutines s !! c = Some p ∧ reading p = true) ∧
  (∀ c a p, as_objects s !! c = Some a → ac_restricted a = false → as_goroutines s !! c = Some p → reading p = true →
     GetAgent s (ac_DeviceID a) = Some c ∨ ac_closed a ≠ None).
Proof.
  intros Hr Hrest. destruct (cruns_inv _ _ _ _ (new_inv rows tombstones) Hr) as [γ Hi].
  pose proof Hi as [Hp [Hg Hc Hb]]. split_and!.
  - unfold inFlight. by rewrite (rest_no_lock γ s Hi Hrest), dom_empty_L, elements_empty.
  - unfold ConnectedAgentCount. rewrite (bk_count _ _ _ _ _ _ Hb).
    rewrite !(rest_counts γ s Hi Hrest) by auto. f_equal. lia.
  - intros d c Hd. destruct (bk_map _ _ _ _ _ _ Hb d c Hd) as (r & Hv & Hin).
    destruct (bk_obj _ _ _ _ _ _ Hb c d r Hv) as (a & Ha & Hd'). apply view_back in Hv as [pos Hgc].
    destruct (rest_ghost γ s c _ Hi Hrest Hgc) as (Hrs & p & Hpp & Hread). exists a, p. split_and!; try done.
    apply (Hread d). by destruct pos, r as [| |[]| | |].
  - intros c a p Ha Hnr Hpp Hread. by eapply rest_closed.
Qed.

(** ** Nothing waits for ever *)

Definition cost {R} (c : ccall R) : nat := match c with GoRetire _ _ => 5 | _ => 1 end.

(** [p] makes at most [n] calls, those of the goroutines it starts included,
    before it rests; and so after each read. *)
Fixpoint bounded {A} (n : nat) (p : goroutine A) : Prop :=
  match p with
  | Ret _ => True
  | Do c k =>
      if is_read c then ∀ r, ∃ m, bounded m (k r)
      else ∃ m, (m + cost c ≤ n)%nat ∧ ∀ r, bounded m (k r)
  | Panic => False
  end.

Lemma bounded_mono {A} (p : goroutine A) n n' : (n ≤ n')%nat → bounded n p → bounded n' p.
Proof.
  destruct p as [a|R c k|]; cbn; [done| |done]. destruct (is_read c); [done|].
  intros Hn (m & ? & ?). exists m. split; [lia|done].
Qed.

Lemma bounded_bind {A B} (p : goroutine A) (k : A → goroutine B) n m :
  bounded n p → (∀ a, bounded m (k a)) → bounded (n + m) (p ≫= k).
Proof.
  intros Hp Hk. revert n Hp. induction p as [a|R c k' IH|]; intros n; cbn; [|destruct (is_read c)|done].
  - intros _. eapply bounded_mono; [|apply Hk]. lia.
  - intros H r. destruct (H r) as [m' ?]. exists (m' + m)%nat. by apply IH.
  - intros (m' & ? & H). exists (m' + m)%nat. split; [lia|]. intros r. by apply IH.
Qed.

(** One call after the other, each branch of an answer apart. *)
Ltac bounded_steps :=
  repeat (cbn;
          match goal with
          | |- True => exact I
          | |- ∃ m, (m + ?c ≤ ?n)%nat ∧ _ =>
              let v := eval cbv in (n - c)%nat in exists v; split; [cbn; lia|]; intros ?
          | |- bounded _ ?p => match p with context [match ?x with _ => _ end] => destruct x end
          end).

Lemma registerConn_bounded d ac : bounded 15 (registerConn d ac).
Proof. bounded_steps. Qed.

Lemma unregisterConn_bounded t d ac : bounded 15 (unregisterConn t d ac).
Proof. bounded_steps. Qed.

Lemma retire_bounded t d older newer : bounded 4 (retire t d older newer).
Proof. bounded_steps. Qed.

Lemma dispatch_bounded t d ac m : bounded 3 (dispatch t d ac m).
Proof. unfold dispatch, rejectTombstonedWrite. destruct (isWritePathMessage m); bounded_steps. Qed.

Lemma dispatchRestricted_bounded ac m : bounded 2 (dispatchRestricted ac m).
Proof. unfold dispatchRestricted. bounded_steps. Qed.

(** Between two reads a connection makes a few calls. *)
Lemma handleControl_bounded restricted t d ac : bounded 0 (handleControl restricted t d ac).
Proof.
  unfold handleControl. cbn -[dispatch dispatchRestricted]. intros [[ty msg]|]; [|by exists 0%nat].
  exists 3%nat. case_bool_decide; [bounded_steps|]. case_bool_decide; [bounded_steps|].
  case_bool_decide; [|done]. destruct msg as [m|]; [|done]. cbn -[dispatch dispatchRestricted].
  destruct restricted; [|apply dispatch_bounded]. eapply bounded_mono; [|apply dispatchRestricted_bounded]. lia.
Qed.

Lemma runControlLoop_bounded n restricted t d ac : bounded 0 (runControlLoop n restricted t d ac).
Proof.
  induction n as [|n IH]; [done|]. cbn [runControlLoop].
  apply (bounded_bind _ _ 0 0); [apply handleControl_bounded|]. by intros [].
Qed.

Lemma accepted_bounded n t d ac : bounded 30 (accepted n t d ac).
Proof.
  unfold accepted. apply (bounded_bind _ _ 15 15); [apply registerConn_bounded|]. intros _.
  apply (bounded_bind _ _ 0 15); [apply runControlLoop_bounded|]. intros _. apply unregisterConn_bounded.
Qed.

Lemma serveRestricted_bounded n t d ac : bounded 3 (serveRestricted n t d ac).
Proof.
  unfold serveRestricted. apply (bounded_bind _ _ 1 2); [bounded_steps|]. intros _.
  apply (bounded_bind _ _ 0 2); [apply runControlLoop_bounded|]. intros _. bounded_steps.
Qed.

Definition all_bounded (s : AgentServer) : Prop := map_Forall (λ _ p, ∃ n, bounded n p) (as_goroutines s).

(** The goroutines a call leaves besides its own. *)
Lemma cexec_goroutines i {R} (c : ccall R) an s r s' :
  cexec i c an s = Some (r, s') →
  as_goroutines s' = as_goroutines s ∧ cost c = 1%nat ∨
  ∃ t d o n, as_goroutines s' = <[fresh (dom (as_goroutines s)) := retire t d o n]> (as_goroutines s) ∧ cost c = 5%nat.
Proof.
  destruct c; cbn; intros He.
  all: try (repeat case_match; simplify_eq; by left).
  all: try (injection He as <- <-; right; by eauto 10).
  all: injection He as E; left; split; [|done]; apply (f_equal snd) in E; cbn [snd] in E; rewrite <- E;
    apply wrote_goroutines.
Qed.

Lemma cstep_bounded x s s' : all_bounded s → cstep x s = Some s' → all_bounded s'.
Proof.
  intros Hb. destruct x; cbn -[accept_conn]; try (intros [= <-]; exact Hb).
  - intros [= <-]. unfold accept_conn. apply map_Forall_insert_2; [|exact Hb]. destruct restricted.
    + eexists. apply serveRestricted_bounded.
    + eexists. apply accepted_bounded.
  - destruct (as_goroutines s !! i) as [[|R c k|]|] eqn:Ep; try done.
    destruct (cexec i c an s) as [[r s1]|] eqn:Ec; [|done]. intros [= <-]. unfold all_bounded. cbn.
    assert (Hk : ∃ n, bounded n (k r)).
    { destruct (Hb i _ Ep) as [n Hn]. cbn in Hn. destruct (is_read c); [done|]. destruct Hn as (m & _ & ?). eauto. }
    apply map_Forall_insert_2; [done|].
    destruct (cexec_goroutines _ _ _ _ _ _ Ec) as [[-> _]|(t & d & o & n & -> & _)]; [exact Hb|].
    apply map_Forall_insert_2; [|exact Hb]. eexists. apply retire_bounded.
  - destruct (as_objects s !! ac) as [a|]; [|done]. destruct (ac_restricted a); [|done]. by intros [= <-].
  - intros [= <-]. unfold all_bounded, closeSuperseded. by rewrite (loop_goroutines _ _ _ (doomed_goroutines prints)).
  - intros [= <-]. unfold all_bounded. by rewrite deregister_goroutines.
  - intros [= <-]. unfold all_bounded, DeregisterTenant.
    by rewrite (loop_goroutines _ _ _ (deregister_if_goroutines t)).
  - intros [= <-]. apply map_Forall_empty.
Qed.

Lemma cruns_bounded xs s s' : all_bounded s → cruns xs s = Some s' → all_bounded s'.
Proof.
  revert s. induction xs as [|x xs IH]; intros s Hb; cbn; [by intros [= <-]|].
  destruct (cstep x s) as [s1|] eqn:E; [|done]. apply IH. by eapply cstep_bounded.
Qed.

(** Budgets for the goroutines, and what they add up to. *)
Definition total (b : gmap nat nat) : nat := map_fold (λ _ n acc, (n + acc)%nat) 0%nat b.

Lemma total_new b i n : b !! i = None → total (<[i := n]> b) = (n + total b)%nat.
Proof. intros Hi. unfold total. rewrite map_fold_insert_L; [done| |done]. intros. lia. Qed.

Lemma total_set b i n m : b !! i = Some n → (total (<[i := m]> b) + n = m + total b)%nat.
Proof.
  intros Hi. rewrite <- (insert_delete_id b i n Hi) at 2. rewrite <- (insert_delete_eq b i m).
  rewrite !total_new by apply lookup_delete_eq. lia.
Qed.

Lemma total_add b i n : (total (<[i := n]> b) ≤ n + total b)%nat.
Proof. destruct (b !! i) as [m|] eqn:E; [pose proof (total_set b i m n E); lia|by rewrite total_new]. Qed.

Definition budget (b : gmap nat nat) (s : AgentServer) : Prop :=
  ∀ i p, as_goroutines s !! i = Some p → ∃ n, b !! i = Some n ∧ bounded n p.

Lemma budget_exists s : all_bounded s → ∃ b, budget b s.
Proof.
  unfold all_bounded, budget. generalize (as_goroutines s) as m. intros m.
  induction m as [|i p m Hi IH] using map_ind; [by exists ∅|].
  intros Hm. apply map_Forall_insert in Hm as [[n Hn] [b Hb]%IH]; [|done]. exists (<[i := n]> b).
  intros j q [[<- <-]|[? Hj]]%lookup_insert_Some; [exists n; by rewrite lookup_insert_eq|].
  rewrite lookup_insert_ne by done. eauto.
Qed.

(** *** Progress *)

(** Runs of goroutines that neither wait for their machine nor are over; [an] says
    what the database and the streams answer. *)
Fixpoint settle (an : answer) (ids : list nat) (s : AgentServer) : option AgentServer :=
  match ids with
  | [] => Some s
  | i :: ids =>
      match as_goroutines s !! i with
      | Some p =>
          if resting p then None
          else match cstep (ARun i an) s with Some s' => settle an ids s' | None => None end
      | None => None
      end
  end.

Lemma cstep_run s i an {R} (c : ccall R) k r s1 :
  as_goroutines s !! i = Some (Do c k) → cexec i c an s = Some (r, s1) →
  cstep (ARun i an) s = Some (with_goroutines s1 (<[i := k r]> (as_goroutines s1))).
Proof.
  intros Hi He. cbn [cstep]. by rewrite Hi, He.
Qed.

(** Only a held mutex stops a goroutine. *)
Lemma cexec_enabled i {R} (c : ccall R) an s :
  is_Some (cexec i c an s) ∨ ∃ l, (∀ g f, gnext i g c = Some f → ∃ d r, g = GConn d (Queued l) r) ∧
    gate_lock i l (as_statusGate s) = None.
Proof.
  destruct c; cbn; try (left; by eexists); try (left; repeat case_match; by eexists).
  destruct (gate_lock i l (as_statusGate s)) as [g|] eqn:E; [left; by eexists|right]. exists l. split; [|done].
  intros g f. destruct g as [d [] r| |]; try done. intros [Hl _]%guarded_Some. apply bool_decide_eq_true in Hl as ->. eauto.
Qed.

Lemma inside_enabled γ s i d l r an :
  inv γ s → γ !! i = Some (GConn d (Inside l) r) →
  ∃ R (c : ccall R) k, as_goroutines s !! i = Some (Do c k) ∧ is_read c = false ∧ is_Some (cexec i c an s).
Proof.
  intros [Hp _] Hi. specialize (Hp i). rewrite Hi in Hp. unfold entry_ok in Hp.
  destruct (as_goroutines s !! i) as [[|R c k|]|] eqn:E; try done. cbn -[gnext] in Hp.
  destruct (gnext i _ c) as [f|] eqn:En; [|done]. exists R, c, k. split_and!; [done|..].
  - destruct (is_read c) eqn:Er; [|done]. by destruct (is_read_ghost i _ c f Er En) as [[? ?]|[? ?]].
  - destruct (cexec_enabled i c an s) as [?|(l' & Hq & _)]; [done|]. by destruct (Hq _ f En) as (? & ? & ?).
Qed.

(** Where something is left to do, something can be done. *)
Lemma progress γ s i p an :
  inv γ s → as_goroutines s !! i = Some p → resting p = false →
  ∃ j R (c : ccall R) k, as_goroutines s !! j = Some (Do c k) ∧ is_read c = false ∧ is_Some (cexec j c an s).
Proof.
  intros Hinv Hi Hr. pose proof Hinv as [Hp [Hg _ _]]. specialize (Hp i). rewrite Hi in Hp. unfold entry_ok in Hp.
  destruct (γ !! i) as [g|] eqn:Eg; [|done]. destruct p as [|R c k|]; [done| |done]. cbn -[gnext] in Hp, Hr.
  destruct (gnext i g c) as [f|] eqn:En; [|done].
  destruct (cexec_enabled i c an s) as [?|(l & Hq & Hl)]; [by exists i, R, c, k|].
  destruct (Hq g f En) as (d & r & ->). pose proof (go_lock _ _ Hg _ _ _ _ l Eg eq_refl) as Hd.
  destruct (go_count _ _ Hg d l Hd) as ([h n] & Hk & _ & _ & Hh). unfold gate_lock in Hl. rewrite Hk in Hl.
  destruct h as [j|]; [|done]. destruct (proj1 (Hh j) eq_refl) as [r' Hj].
  destruct (inside_enabled γ s j d l r' an Hinv Hj) as (R' & c' & k' & ? & ? & ?). by exists j, R', c', k'.
Qed.

(** Each such call lowers what is left. *)
Lemma spent_step b s i {R} (c : ccall R) k an r s1 :
  budget b s → as_goroutines s !! i = Some (Do c k) → is_read c = false → cexec i c an s = Some (r, s1) →
  ∃ b', budget b' (with_goroutines s1 (<[i := k r]> (as_goroutines s1))) ∧ (total b' < total b)%nat.
Proof.
  intros Hb Hi Hr Hc. destruct (Hb i _ Hi) as (n & Hn & Hbn). cbn in Hbn. rewrite Hr in Hbn.
  destruct Hbn as (m & Hm & Hk). pose proof (total_set b i n m Hn) as Ht.
  destruct (cexec_goroutines _ _ _ _ _ _ Hc) as [[Hg Hcost]|(t & d & o & w & Hg & Hcost)]; rewrite Hcost in Hm.
  - exists (<[i := m]> b). split; [|lia]. intros j q. cbn. rewrite Hg.
    intros [[<- <-]|[? Hj]]%lookup_insert_Some; [exists m; by rewrite lookup_insert_eq|].
    rewrite lookup_insert_ne by done. by apply Hb.
  - pose proof (is_fresh (dom (as_goroutines s))) as Hf. apply not_elem_of_dom in Hf.
    set (j0 := fresh (dom (as_goroutines s))) in *. exists (<[j0 := 4%nat]> (<[i := m]> b)).
    pose proof (total_add (<[i := m]> b) j0 4). split; [|lia]. intros j q. cbn. rewrite Hg.
    assert (j0 ≠ i) by congruence.
    intros [[<- <-]|[? [[<- <-]|[? Hj]]%lookup_insert_Some]]%lookup_insert_Some.
    + exists m. by rewrite lookup_insert_ne, lookup_insert_eq.
    + exists 4%nat. rewrite lookup_insert_eq. split; [done|apply retire_bounded].
    + rewrite !lookup_insert_ne by done. by apply Hb.
Qed.

Lemma settles an γ b s : inv γ s → budget b s → ∃ ids s', settle an ids s = Some s' ∧ at_rest s'.
Proof.
  remember (total b) as n eqn:En. revert γ b s En. induction n as [n IH] using lt_wf_ind. intros γ b s -> Hi Hb.
  destruct (decide (map_Forall (λ _ p, resting p = true) (as_goroutines s))) as [Hr|Hr]; [by exists [], s|].
  apply map_not_Forall in Hr as (i & p & Hp & Hr); [|solve_decision]. apply not_true_is_false in Hr.
  destruct (progress γ s i p an Hi Hp Hr) as (j & R & c & k & Hj & Hc & [[r s1] He]).
  destruct (spent_step b s j c k an r s1 Hb Hj Hc He) as (b' & Hb' & Hlt).
  assert (Hs : cstep (ARun j an) s = Some (with_goroutines s1 (<[j := k r]> (as_goroutines s1))))
    by by eapply cstep_run.
  destruct (run_inv γ s j an _ Hi Hs) as [γ' Hi'].
  destruct (IH _ Hlt γ' b' _ eq_refl Hi' Hb') as (ids & s' & Hset & Hrest).
  exists (j :: ids), s'. split; [|done]. cbn [settle]. rewrite Hj. cbn [resting]. by rewrite Hc, Hs.
Qed.

(** C39: the status gates never deadlock: from every state a run can reach, whatever the database and the streams
    answer, the goroutines that have work left can all be run until each is over or waits for its machine, without
    any machine sending anything. *)
Theorem gates_settle rows tombstones xs s an :
  cruns xs (NewAgentServer rows tombstones) = Some s → ∃ ids s', settle an ids s = Some s' ∧ at_rest s'.
Proof.
  intros Hr. destruct (cruns_inv _ _ _ _ (new_inv rows tombstones) Hr) as [γ Hi].
  destruct (budget_exists s) as [b Hb]; [|by eapply settles].
  eapply cruns_bounded; [|exact Hr]. apply map_Forall_empty.
Qed.

(** ** Runs *)

Module Fleet.

Definition machine : bytes := replicate 16 x01.
Definition other_tenant : uuid := replicate 16 x09.
Definition told (f : frame) : answer := mk_answer true false (Some f) false.
Definition yes : answer := mk_answer true false None false.
Definition says (msg : bytes) : answer := told (mk_frame FrameControl (Some msg)).

Definition runs (i n : nat) : list conn_act := replicate n (ARun i yes).

(** A connection takes seven calls to be served, whether or not it replaces
    another. *)
Definition connects (t : uuid) (i : nat) : list conn_act := AAccept 5 t machine [] false :: runs i 7.
Definition registers (i : nat) : list conn_act := ARun i (says MsgAgentRegister) :: runs i 3.
Definition hangs_up (i : nat) (calls : nat) : list conn_act := ARun i yes :: runs i calls.

Definition start : AgentServer := NewAgentServer ∅ ∅.
Definition after (xs : list conn_act) : AgentServer := default start (cruns xs start).

Definition all_rest (s : AgentServer) : bool := forallb resting (map_to_list (as_goroutines s)).*2.
Definition status_in (s : AgentServer) : option bytes := sr_status <$> as_rows s !! machine.

(** A machine reconnects while its older connection is still read: the older one
    is retired, hangs up and releases, and the row stays online. *)
Definition reconnect : list conn_act :=
  connects DefaultTenantID 0 ++ registers 0 ++ connects DefaultTenantID 1 ++ registers 1 ++
  runs 2 3 ++ hangs_up 0 9.

Example reconnected :
  let s := after reconnect in
  (all_rest s, status_in s, GetAgent s machine, ConnectedAgentCount s, inFlight (as_statusGate s)) =
  (true, Some StatusOnline, Some 1%nat, 1, []).
Proof. vm_compute. reflexivity. Qed.

(** The older connection has read a heartbeat and passed its check; the machine
    reconnects and leaves; the heartbeat's write comes last. *)
Definition late_heartbeat : list conn_act :=
  connects DefaultTenantID 0 ++ registers 0 ++ [ARun 0 (says MsgAgentHeartbeat); ARun 0 yes] ++
  connects DefaultTenantID 1 ++ runs 2 3 ++ hangs_up 1 12 ++ [ARun 0 yes] ++ hangs_up 0 9.

(** A heartbeat of a replaced connection that is written after the newer connection was released leaves the device
    online with no connection: writes of "online" are outside the gate. *)
Theorem late_heartbeat_strands_online :
  let s := after late_heartbeat in
  cruns late_heartbeat start ≠ None ∧ all_rest s = true ∧ as_conns s = ∅ ∧ status_in s = Some StatusOnline.
Proof. vm_compute. split_and!; try reflexivity. discriminate. Qed.

(** A restart clears the online devices of the default tenant only: a device of another tenant that was online
    when the process died stays online, though nothing is connected. *)
Theorem restart_strands_other_tenants :
  let run t := connects t 0 ++ registers 0 ++ [ARestart ∅] in
  status_in (after (run DefaultTenantID)) = Some StatusOffline ∧
  cruns (run other_tenant) start ≠ None ∧
  as_conns (after (run other_tenant)) = ∅ ∧ status_in (after (run other_tenant)) = Some StatusOnline.
Proof. vm_compute. split_and!; try reflexivity. discriminate. Qed.

Lemma after_runs xs : cruns xs start ≠ None → cruns xs start = Some (after xs).
Proof. unfold after. by destruct (cruns xs start). Qed.

Lemma reconnect_runs : cruns reconnect start = Some (after reconnect).
Proof. apply after_runs. vm_compute. discriminate. Qed.

Lemma reconnect_never_overwritten_witness :
  sr_status (mk_srow DefaultTenantID StatusOnline) = StatusOnline.
Proof.
  apply (reconnect_never_overwritten ∅ ∅ reconnect (after reconnect) machine 1 _ reconnect_runs).
  - vm_compute. reflexivity.
  - apply list_elem_of_lookup_2 with (i := 4%nat). vm_compute. reflexivity.
  - vm_compute. reflexivity.
Defined.

Lemma all_rest_at_rest s : all_rest s = true → at_rest s.
Proof.
  intros H i p Hi. unfold all_rest in H. rewrite forallb_forall in H. apply H, list_elem_of_In.
  apply list_elem_of_fmap. exists (i, p). split; [done|]. by apply elem_of_map_to_list.
Qed.

Lemma connections_at_rest_witness :
  ConnectedAgentCount (after reconnect) = i64 (Z.of_nat (size (as_conns (after reconnect)))).
Proof.
  destruct (connections_at_rest ∅ ∅ reconnect (after reconnect) reconnect_runs) as (_ & H & _); [|exact H].
  apply all_rest_at_rest. vm_compute. reflexivity.
Defined.

(** Two connections of one machine in the gate: one inside, one queued. *)
Definition crowded : list conn_act :=
  [AAccept 5 DefaultTenantID machine [] false; AAccept 5 DefaultTenantID machine [] false;
   ARun 0 yes; ARun 1 yes; ARun 0 yes].

Lemma gates_settle_witness : ∃ ids s', settle yes ids (after crowded) = Some s' ∧ at_rest s'.
Proof.
  apply (gates_settle ∅ ∅ crowded). apply after_runs. vm_compute. discriminate.
Defined.
End Fleet.
