(* ===== verification/AlertIntake.v ===== *)
(** * Alerts from a connected machine

    [src/server/internal/agentapi/conn_alerts.go]: the checks an alert passes, the
    slot its write takes, the customer it is stored for, the room its rule groups
    it into, and the counters that account for it.  The read loop handles one
    message at a time; a write is a step of its own, among whatever else is done to
    the store.  The decompressor of the evidence and the parser of ids are
    parameters. *)
From S2P Require Import Prelude GoTime GoStrings Float Settings Dbtx Control Rules RuleResolve Rollout Incident AlertStore AlertStoreInv AlertCounts AlertClaims Coverage Telemetry RuleDelivery.

Definition alertEnvelopeHeadroomBytes : Z := 8 * 1024.
Definition maxAlertPayloadBytes : Z := MaxEvidenceBytes + alertEnvelopeHeadroomBytes.
Definition maxEvidenceInflatedBytes : Z := 1048576.
Definition maxBackfilledAlertBacklog : duration := 365 * 24 * hour.
Definition fallbackGroupWindow : duration := 15 * minute.
Definition EvidenceCodec : bytes := lit "deflate-1".

Inductive alert_drop :=
  | alertDropPayloadTooLarge | alertDropSeverityUnknown | alertDropIdentityIncomplete | alertDropRuleUnknown
  | alertDropRuleStopped | alertDropTimestampOutOfRange | alertDropEvidenceCodecUnknown
  | alertDropEvidenceUndecodable | alertDropOrganizationUnknown | alertDropOrganizationCeiling | alertDropDuplicate
  | alertTenantMissing | alertPersistFailed | alertPersistSlotsFull.

#[global] Instance alert_drop_eq : EqDecision alert_drop. Proof. solve_decision. Defined.

(** ** The checks *)

Definition AlertSeverityInfo : bytes := lit "Info".
Definition AlertSeverityWarning : bytes := lit "Warning".
Definition AlertSeverityCritical : bytes := lit "Critical".

Definition ValidAlertSeverity (s : bytes) : bool :=
  bool_decide (s ∈ [AlertSeverityInfo; AlertSeverityWarning; AlertSeverityCritical]).

(** The store's spelling of a wire severity: the wire's in lower case. *)
Definition storedSeverity (severity : option bytes) : option Severity :=
  match severity with
  | None => None
  | Some s =>
      if negb (ValidAlertSeverity s) then None
      else Some (if bool_decide (s = AlertSeverityInfo) then SeverityInfo
                 else if bool_decide (s = AlertSeverityWarning) then SeverityWarning else SeverityCritical)
  end.

Definition hasAlertIdentity (msg : ControlMessage) : bool :=
  bool_decide (cm_RuleID msg ≠ []) && bool_decide (cm_RuleVersion msg ≠ 0) &&
  bool_decide (0 < cm_WindowStartTS msg) && bool_decide (cm_WindowStartTS msg ≤ cm_WindowEndTS msg).

Definition isBackfilled (msg : ControlMessage) : bool := bool_decide (cm_Backfilled msg = Some true).

Definition alertTimestampsInRange (msg : ControlMessage) (now : time) : bool :=
  let backlog := if isBackfilled msg then maxBackfilledAlertBacklog else maxTelemetryBacklog in
  let floor := now - backlog in
  let ceiling := now + maxTelemetrySkew in
  forallb (λ ts, bool_decide (0 < ts) && bool_decide (floor ≤ unix_time ts) && bool_decide (unix_time ts ≤ ceiling))
    [cm_WindowStartTS msg; cm_WindowEndTS msg; cm_ObservedTS msg].

Definition shipsRule (cat : option Catalogue) (id : bytes) : bool :=
  match cat with None => true | Some c => bool_decide (is_Some (Lookup c id)) end.

Section intake.
(** The standard library's decompressor: what it makes of a blob, and whether the
    stream ends cleanly there. *)
Context (inflate : bytes → bytes * bool).
(** [uuid.Parse] *)
Context (uuid_Parse : bytes → option uuid).

(** The copy stops one byte past the bound, without looking further. *)
Definition checkEvidenceReadable (blob : bytes) : bool :=
  let '(out, clean) := inflate blob in
  if bool_decide (maxEvidenceInflatedBytes < blen out) then false else clean.

(** [minted]: what [uuid.New] would give. *)
Definition alertRowID (deviceChosen : bytes) (minted : uuid) : uuid := default minted (uuid_Parse deviceChosen).

Definition validatedAlert (cat : option Catalogue) (a : agent) (now : time) (minted : uuid) (msg : ControlMessage) :
    result alert_drop Alert :=
  match storedSeverity (cm_Severity msg) with
  | None => Err alertDropSeverityUnknown
  | Some severity =>
      if negb (hasAlertIdentity msg) then Err alertDropIdentityIncomplete
      else if negb (shipsRule cat (cm_RuleID msg)) then Err alertDropRuleUnknown
      else if negb (customerWants cat a (cm_RuleID msg)) then Err alertDropRuleStopped
      else if negb (alertTimestampsInRange msg now) then Err alertDropTimestampOutOfRange
      else if bool_decide (cm_Evidence msg ≠ []) && bool_decide (cm_EvidenceCodec msg ≠ EvidenceCodec)
      then Err alertDropEvidenceCodecUnknown
      else if bool_decide (cm_Evidence msg ≠ []) && negb (checkEvidenceReadable (cm_Evidence msg))
      then Err alertDropEvidenceUndecodable
      else Ok (mk_alert (alertRowID (cm_AlertID msg) minted) Nil (ag_DeviceID a) (cm_RuleID msg) (cm_RuleVersion msg)
                 severity (cm_Metric msg) (cm_Value msg) (unix_time (cm_WindowStartTS msg))
                 (unix_time (cm_WindowEndTS msg)) (unix_time (cm_ObservedTS msg)) (isBackfilled msg)
                 (Some (cm_Evidence msg)) (cm_EvidenceCodec msg))
  end.

(** ** Grouping *)

Fixpoint incidentScope_from (scope : RoomScope) (groupBy : list bytes) : RoomScope :=
  match groupBy with
  | [] => scope
  | key :: groupBy =>
      if bool_decide (key = lit "device") then ScopeDevice
      else if bool_decide (key = lit "site") then incidentScope_from ScopeSite groupBy
      else if bool_decide (key = lit "organization")
      then incidentScope_from (if bool_decide (scope ≠ ScopeSite) then ScopeOrganization else scope) groupBy
      else incidentScope_from scope groupBy
  end.

Definition incidentScope (groupBy : list bytes) : RoomScope := incidentScope_from ScopeDevice groupBy.

Definition groupingFor (cat : option Catalogue) (id : bytes) : Grouping :=
  match lookup_rule cat id with
  | None => mk_grouping ScopeDevice fallbackGroupWindow
  | Some def => mk_grouping (incidentScope (df_GroupBy def)) (i64 (df_GroupWindowSecs def * second))
  end.

(** ** The connection's accounts *)

Record intake := mk_intake {
  in_agent : agent;
  in_inflight : list Alert;         (* the alerts whose writes hold slots *)
  in_otherSlots : nat;              (* slots other writes of the connection hold *)
  in_ingested : Z;
  in_drops : list (alert_drop * bool);   (* each drop, and whether it had been counted as ingested *)
  in_created : list bytes;          (* ObserveAlertCreated, by rule *)
  in_suppressed : Z;                (* ObserveAlertSuppressed *)
}.

Definition new_intake (a : agent) : intake := mk_intake a [] 0 0 [] [] 0.

Definition drop_alert (reason : alert_drop) (ingested : bool) (x : intake) : intake :=
  mk_intake (in_agent x) (in_inflight x) (in_otherSlots x) (in_ingested x) (in_drops x ++ [(reason, ingested)])
    (in_created x) (in_suppressed x).

Definition ingest_alert (x : intake) : intake :=
  mk_intake (in_agent x) (in_inflight x) (in_otherSlots x) (in_ingested x + 1) (in_drops x) (in_created x) (in_suppressed x).

Definition set_inflight (l : list Alert) (x : intake) : intake :=
  mk_intake (in_agent x) l (in_otherSlots x) (in_ingested x) (in_drops x) (in_created x) (in_suppressed x).

(** [persistTelemetry] of one alert: a slot, or a drop. *)
Definition persist_alert (ctx : option Tenant) (alert : Alert) (x : intake) : intake :=
  match TenantFromContext ctx with
  | None => drop_alert alertTenantMissing true x
  | Some _ =>
      if (length (in_inflight x) + in_otherSlots x <? telemetryConcurrentWrites)%nat
      then set_inflight (in_inflight x ++ [alert]) x
      else drop_alert alertPersistSlotsFull true x
  end.

Definition handleAgentAlert (cat : option Catalogue) (ctx : option Tenant) (now : time) (minted : uuid)
    (msg : ControlMessage) (payloadLen : Z) (x : intake) : intake :=
  if bool_decide (maxAlertPayloadBytes < payloadLen) then drop_alert alertDropPayloadTooLarge false x
  else
    let x := ingest_alert x in
    match validatedAlert cat (in_agent x) now minted msg with
    | Err reason => drop_alert reason true x
    | Ok alert => persist_alert ctx alert x
    end.

Definition observeAlertOutcome (outcome : Outcome) (alert : Alert) (x : intake) : intake :=
  match outcome with
  | Stored =>
      mk_intake (in_agent x) (in_inflight x) (in_otherSlots x) (in_ingested x) (in_drops x)
        (in_created x ++ [a_RuleID alert]) (in_suppressed x)
  | Duplicate => drop_alert alertDropDuplicate true x
  | CeilingSuppressed =>
      let x := drop_alert alertDropOrganizationCeiling true x in
      mk_intake (in_agent x) (in_inflight x) (in_otherSlots x) (in_ingested x) (in_drops x) (in_created x)
        (in_suppressed x + 1)
  end.

Definition with_organization (org : uuid) (a : Alert) : Alert :=
  mk_alert (a_ID a) org (a_DeviceID a) (a_RuleID a) (a_RuleVersion a) (a_Severity a) (a_Metric a) (a_Value a)
    (a_WindowStart a) (a_WindowEnd a) (a_ObservedAt a) (a_Backfilled a) (a_Evidence a) (a_EvidenceCodec a).

Section store.
Context (text_length : bytes → Z) (gen : uuid → uuid).

(** [storeAlert] in its slot: the database may fail it ([db_fails]).  [None] is an
    error, which the slot counts as a lost message. *)
Definition storeAlert (wired : bool) (cat : option Catalogue) (settings : option (uuid → option Scope))
    (ctx : option Tenant) (new : uuid) (now : Z) (db_fails : bool) (alert : Alert) (x : intake) (d : db) :
    option intake * db :=
  if negb wired then (None, d)
  else
    let alert := with_organization (sc_OrganizationID (settingsScope settings (in_agent x))) alert in
    if bool_decide (a_OrganizationID alert = Nil) then (Some (drop_alert alertDropOrganizationUnknown true x), d)
    else if db_fails then (None, d)
    else
      match Record_ text_length gen ctx alert (groupingFor cat (a_RuleID alert)) new now d with
      | (Err _, d) => (None, d)
      | (Ok outcome, d) => (Some (observeAlertOutcome outcome alert x), d)
      end.

(** The slot of the [i]th write is given back. *)
Definition finish_alert wired cat settings ctx new now db_fails (i : nat) (x : intake) (d : db) : intake * db :=
  match in_inflight x !! i with
  | None => (x, d)
  | Some alert =>
      let x := set_inflight (delete i (in_inflight x)) x in
      match storeAlert wired cat settings ctx new now db_fails alert x d with
      | (Some x, d) => (x, d)
      | (None, d) => (drop_alert alertPersistFailed true x, d)
      end
  end.

(** ** Runs *)

Context (interval_of : Z → Z).

Inductive intake_act :=
  | IMessage (ctx : option Tenant) (now : time) (minted : uuid) (msg : ControlMessage) (payloadLen : Z)
  | IFinish (wired : bool) (settings : option (uuid → option Scope)) (ctx : option Tenant) (new : uuid) (now : Z)
      (db_fails : bool) (i : nat)
  | IRules (organization : uuid) (wanted : option (gset bytes))   (* a push, see RuleDelivery *)
  | ISlots (n : nat)                                              (* the connection's other writes *)
  | IStore (op : store_op).

Definition intake_step (cat : option Catalogue) (x : intake) (d : db) (act : intake_act) : intake * db :=
  match act with
  | IMessage ctx now minted msg len => (handleAgentAlert cat ctx now minted msg len x, d)
  | IFinish wired settings ctx new now db_fails i => finish_alert wired cat settings ctx new now db_fails i x d
  | IRules org wanted =>
      (mk_intake (rememberRuleset org wanted (in_agent x)) (in_inflight x) (in_otherSlots x) (in_ingested x) (in_drops x)
         (in_created x) (in_suppressed x), d)
  | ISlots n =>
      (if (length (in_inflight x) + n <=? telemetryConcurrentWrites)%nat
       then mk_intake (in_agent x) (in_inflight x) n (in_ingested x) (in_drops x) (in_created x) (in_suppressed x)
       else x, d)
  | IStore op => (x, run_op text_length gen interval_of op d)
  end.

Definition intake_run (cat : option Catalogue) (acts : list intake_act) (x : intake) (d : db) : intake * db :=
  foldl (λ xd act, intake_step cat xd.1 xd.2 act) (x, d) acts.
End store.
End intake.

(** ** Which room *)

(** The narrowest rung of the tenancy ladder among the keys; the device when they
    name none. *)
Definition named_scope (keys : list bytes) : RoomScope :=
  if bool_decide (lit "device" ∈ keys) then ScopeDevice
  else if bool_decide (lit "site" ∈ keys) then ScopeSite
  else if bool_decide (lit "organization" ∈ keys) then ScopeOrganization
  else ScopeDevice.

Lemma bool_decide_elem_cons (k x : bytes) keys :
  bool_decide (k ∈ x :: keys) = bool_decide (k = x) || bool_decide (k ∈ keys).
Proof.
  rewrite <- bool_decide_or. apply bool_decide_ext, elem_of_cons.
Qed.

Lemma incidentScope_from_spec scope keys :
  scope = ScopeDevice ∨ scope = ScopeSite ∨ scope = ScopeOrganization →
  incidentScope_from scope keys =
  if bool_decide (lit "device" ∈ keys) then ScopeDevice
  else if bool_decide (lit "site" ∈ keys) then ScopeSite
  else if bool_decide (lit "organization" ∈ keys) && bool_decide (scope ≠ ScopeSite) then ScopeOrganization
  else scope.
Proof.
  revert scope. induction keys as [|k keys IH]; intros scope Hs.
  { by rewrite !bool_decide_eq_false_2 by apply not_elem_of_nil. }
  cbn [incidentScope_from].
  rewrite !bool_decide_elem_cons.
  destruct (decide (k = lit "device")) as [->|H1].
  { by rewrite (bool_decide_eq_true_2 (lit "device" = lit "device")). }
  rewrite (bool_decide_eq_false_2 (k = _)), (bool_decide_eq_false_2 (lit "device" = k)) by congruence. cbn [orb].
  destruct (decide (k = lit "site")) as [->|H2].
  { rewrite (bool_decide_eq_true_2 (lit "site" = lit "site")) by done. cbn [orb]. rewrite IH by auto.
    rewrite (bool_decide_eq_false_2 (ScopeSite ≠ ScopeSite)), andb_false_r by auto. by repeat case_bool_decide. }
  rewrite (bool_decide_eq_false_2 (k = _)), (bool_decide_eq_false_2 (lit "site" = k)) by congruence. cbn [orb].
  destruct (decide (k = lit "organization")) as [->|H3].
  - rewrite (bool_decide_eq_true_2 (lit "organization" = lit "organization")) by done. cbn [orb andb].
    destruct Hs as [-> |[-> | ->]]; rewrite IH by (case_bool_decide; auto 10);
      repeat case_bool_decide; done || (exfalso; auto).
  - rewrite (bool_decide_eq_false_2 (k = _)), (bool_decide_eq_false_2 (lit "organization" = k)) by congruence.
    cbn [orb]. by apply IH.
Qed.

Lemma incidentScope_narrowest keys : incidentScope keys = named_scope keys.
Proof.
  unfold incidentScope, named_scope. rewrite incidentScope_from_spec by auto. by rewrite andb_true_r.
Qed.

(** ** Every alert is accounted for *)

Definition ingested_drops (x : intake) : nat := length (List.filter snd (in_drops x)).
Definition drops_of (reason : alert_drop) (x : intake) : nat :=
  length (List.filter (λ p, bool_decide (p.1 = reason)) (in_drops x)).

Record accounted (x : intake) : Prop := {
  ac_balance : in_ingested x = Z.of_nat (length (in_inflight x) + length (in_created x) + ingested_drops x);
  ac_slots : (length (in_inflight x) + in_otherSlots x ≤ telemetryConcurrentWrites)%nat;
  ac_ceiling : in_suppressed x = Z.of_nat (drops_of alertDropOrganizationCeiling x);
  ac_oversize p : p ∈ in_drops x → p.2 = negb (bool_decide (p.1 = alertDropPayloadTooLarge));
}.

Section accounts.
Context (inflate : bytes → bytes * bool) (uuid_Parse : bytes → option uuid).
Context (text_length : bytes → Z) (gen : uuid → uuid) (interval_of : Z → Z).

(** A drop of a message that had been ingested and was nowhere else. *)
Lemma ingested_drops_add reason b x :
  ingested_drops (drop_alert reason b x) = (ingested_drops x + if b then 1 else 0)%nat.
Proof. unfold ingested_drops. cbn. rewrite List.filter_app, length_app. by destruct b. Qed.

Lemma drops_of_add reason r b x :
  drops_of reason (drop_alert r b x) = (drops_of reason x + if bool_decide (r = reason) then 1 else 0)%nat.
Proof. unfold drops_of. cbn. rewrite List.filter_app, length_app. cbn. by case_bool_decide. Qed.

(** One message short: ingested, neither held, created nor dropped. *)
Record short (x : intake) : Prop := {
  sh_balance : in_ingested x = Z.of_nat (S (length (in_inflight x) + length (in_created x) + ingested_drops x));
  sh_slots : (length (in_inflight x) + in_otherSlots x ≤ telemetryConcurrentWrites)%nat;
  sh_ceiling : in_suppressed x = Z.of_nat (drops_of alertDropOrganizationCeiling x);
  sh_oversize p : p ∈ in_drops x → p.2 = negb (bool_decide (p.1 = alertDropPayloadTooLarge));
}.

Lemma short_drop reason x :
  reason ≠ alertDropPayloadTooLarge → reason ≠ alertDropOrganizationCeiling → short x → accounted (drop_alert reason true x).
Proof.
  intros H1 H2 [Hb Hs Hc Ho]. split; cbn [drop_alert in_ingested in_inflight in_otherSlots in_suppressed].
  - rewrite ingested_drops_add. cbn. lia.
  - done.
  - rewrite drops_of_add, bool_decide_eq_false_2 by done. lia.
  - intros p [?|E%list_elem_of_singleton]%elem_of_app; [by apply Ho|]. subst p. cbn. by rewrite bool_decide_eq_false_2.
Qed.

Lemma short_outcome o alert x : short x → accounted (observeAlertOutcome o alert x).
Proof.
  intros Hx. destruct o; cbn [observeAlertOutcome]; [|by apply short_drop|]; destruct Hx as [Hb Hs Hc Ho].
  - split; cbn; [|done|done|done]. rewrite length_app. unfold ingested_drops in *. cbn. lia.
  - set (y := drop_alert alertDropOrganizationCeiling true x).
    assert (ingested_drops y = S (ingested_drops x)) as E by (unfold y; rewrite ingested_drops_add; lia).
    assert (drops_of alertDropOrganizationCeiling y = S (drops_of alertDropOrganizationCeiling x)) as E'
      by (unfold y; rewrite drops_of_add, bool_decide_eq_true_2 by done; lia).
    unfold ingested_drops, drops_of in *. split; cbn in *; [lia|done|lia|].
    intros p [?|E0%list_elem_of_singleton]%elem_of_app; [by apply Ho|by subst p].
Qed.

Lemma oversize_accounted x : accounted x → accounted (drop_alert alertDropPayloadTooLarge false x).
Proof.
  intros [Hb Hs Hc Ho]. split; cbn [drop_alert in_ingested in_inflight in_otherSlots in_suppressed in_created].
  - rewrite ingested_drops_add. lia.
  - done.
  - rewrite drops_of_add, bool_decide_eq_false_2 by done. lia.
  - intros p [?|E0%list_elem_of_singleton]%elem_of_app; [by apply Ho|by subst p].
Qed.

Lemma persist_accounted ctx alert x : short x → accounted (persist_alert ctx alert x).
Proof.
  intros Hx. unfold persist_alert. destruct (TenantFromContext ctx); [|by apply short_drop].
  destruct (_ <? _)%nat eqn:E; [|by apply short_drop]. apply Nat.ltb_lt in E. destruct Hx as [Hb Hs Hc Ho].
  split; cbn; [|rewrite length_app; cbn; lia|done|done]. rewrite length_app. unfold ingested_drops in *. cbn. lia.
Qed.

Lemma validated_reason cat a now minted msg reason :
  validatedAlert inflate uuid_Parse cat a now minted msg = Err reason →
  reason ≠ alertDropPayloadTooLarge ∧ reason ≠ alertDropOrganizationCeiling.
Proof. unfold validatedAlert. repeat case_match; intros [= <-]; done. Qed.

Lemma message_accounted cat ctx now minted msg len x :
  accounted x → accounted (handleAgentAlert inflate uuid_Parse cat ctx now minted msg len x).
Proof.
  intros Hx. unfold handleAgentAlert. case_bool_decide; [by apply oversize_accounted|].
  assert (short (ingest_alert x)) as Hs.
  { destruct Hx as [Hb Hs Hc Ho]. split; cbn; [|done|done|done]. unfold ingested_drops in *. cbn. lia. }
  destruct (validatedAlert _ _ _ _ _ _ _) as [alert|reason] eqn:E; [by apply persist_accounted|].
  apply validated_reason in E as [? ?]. by apply short_drop.
Qed.

Lemma slot_short i x alert :
  in_inflight x !! i = Some alert → accounted x → short (set_inflight (delete i (in_inflight x)) x).
Proof.
  intros Hi [Hb Hs Hc Ho]. pose proof (length_delete (in_inflight x) i (mk_is_Some _ _ Hi)) as E.
  pose proof (lookup_lt_Some _ _ _ Hi). split; cbn; rewrite ?E; [|lia|done|done].
  unfold ingested_drops in *. cbn. lia.
Qed.

Lemma finish_accounted wired cat settings ctx new now db_fails i x d :
  accounted x → accounted (finish_alert text_length gen wired cat settings ctx new now db_fails i x d).1.
Proof.
  intros Hx. unfold finish_alert. destruct (in_inflight x !! i) as [alert|] eqn:Hi; [|done].
  pose proof (slot_short i x alert Hi Hx) as Hs. set (y := set_inflight _ _) in *. unfold storeAlert.
  destruct wired; cbn [negb]; [|by apply short_drop]. case_bool_decide; [by apply short_drop|].
  destruct db_fails; [by apply short_drop|]. destruct (Record_ _ _ _ _ _ _ _ _) as [[o|e] d']; cbn.
  - by apply short_outcome.
  - by apply short_drop.
Qed.

Lemma step_accounted cat x d act :
  accounted x → accounted (intake_step inflate uuid_Parse text_length gen interval_of cat x d act).1.
Proof.
  intros Hx. destruct act; cbn.
  - by apply message_accounted.
  - by apply finish_accounted.
  - by destruct Hx as [Hb Hs Hc Ho].
  - destruct (_ <=? _)%nat eqn:E; [|done]. apply Nat.leb_le in E. by destruct Hx as [Hb Hs Hc Ho].
  - done.
Qed.

(** What the counters say of the messages handled: those ingested, and those too
    large to be. *)
Definition handled (x : intake) : Z := in_ingested x + Z.of_nat (drops_of alertDropPayloadTooLarge x).

Definition messages (acts : list intake_act) : nat :=
  length (List.filter (λ act, match act with IMessage _ _ _ _ _ => true | _ => false end) acts).

Lemma handled_drop reason b x : reason ≠ alertDropPayloadTooLarge → handled (drop_alert reason b x) = handled x.
Proof. intros H. unfold handled. rewrite drops_of_add, bool_decide_eq_false_2 by done. cbn. lia. Qed.

Lemma message_handled cat ctx now minted msg len x :
  handled (handleAgentAlert inflate uuid_Parse cat ctx now minted msg len x) = handled x + 1.
Proof.
  unfold handleAgentAlert. case_bool_decide.
  { unfold handled. rewrite drops_of_add, bool_decide_eq_true_2 by done. cbn. lia. }
  assert (handled (ingest_alert x) = handled x + 1) as <- by (unfold handled, drops_of; cbn; lia).
  destruct (validatedAlert _ _ _ _ _ _ _) as [alert|reason] eqn:E; [|apply validated_reason in E as [? ?]; by apply handled_drop].
  unfold persist_alert. destruct (TenantFromContext ctx); [|by apply handled_drop]. by destruct (_ <? _)%nat; [|apply handled_drop].
Qed.

Lemma finish_handled wired cat settings ctx new now db_fails i x d :
  handled (finish_alert text_length gen wired cat settings ctx new now db_fails i x d).1 = handled x.
Proof.
  unfold finish_alert. destruct (in_inflight x !! i) as [alert|]; [|done].
  assert (handled (set_inflight (delete i (in_inflight x)) x) = handled x) as <- by done. unfold storeAlert.
  destruct wired; cbn [negb]; [|by apply handled_drop]. case_bool_decide; [by apply handled_drop|].
  destruct db_fails; [by apply handled_drop|]. destruct (Record_ _ _ _ _ _ _ _ _) as [[o|e] d']; cbn [fst]; [|by apply handled_drop].
  destruct o; cbn [observeAlertOutcome]; [done|by apply handled_drop|].
  by rewrite <- (handled_drop alertDropOrganizationCeiling true (set_inflight _ x)).
Qed.

Lemma step_handled cat x d act :
  handled (intake_step inflate uuid_Parse text_length gen interval_of cat x d act).1 = handled x + Z.of_nat (messages [act]).
Proof.
  destruct act; cbn [intake_step fst]; [by rewrite message_handled|rewrite finish_handled; cbn; lia| | |cbn; lia].
  - unfold handled, drops_of. cbn. lia.
  - destruct (_ <=? _)%nat; unfold handled, drops_of; cbn; lia.
Qed.

(** C36: Every alert message of a connection ends in exactly one place.  The messages
    handled are those ingested and those dropped as too large; each one ingested is in
    a slot being written, counted as created, or in one typed drop; the writes never
    take more than their slots, and every ceiling drop is a suppression. *)
Theorem alerts_accounted cat acts a d :
  let x := (intake_run inflate uuid_Parse text_length gen interval_of cat acts (new_intake a) d).1 in
  Z.of_nat (messages acts) = in_ingested x + Z.of_nat (drops_of alertDropPayloadTooLarge x) ∧
  in_ingested x = Z.of_nat (length (in_inflight x) + length (in_created x) + ingested_drops x) ∧
  (length (in_inflight x) + in_otherSlots x ≤ telemetryConcurrentWrites)%nat ∧
  in_suppressed x = Z.of_nat (drops_of alertDropOrganizationCeiling x) ∧
  ∀ p, p ∈ in_drops x → p.2 = negb (bool_decide (p.1 = alertDropPayloadTooLarge)).
Proof.
  assert (Hall : ∀ x d, accounted x →
    let x' := (intake_run inflate uuid_Parse text_length gen interval_of cat acts x d).1 in
    accounted x' ∧ handled x' = handled x + Z.of_nat (messages acts)).
  { unfold intake_run. induction acts as [|act acts IH]; intros x d0 Hx; [cbn; split; [done|lia]|]. cbn [foldl fst snd].
    pose proof (step_accounted cat x d0 act Hx) as H. pose proof (step_handled cat x d0 act) as Hh.
    destruct (intake_step _ _ _ _ _ _ _ _ _) as [x1 d1]. destruct (IH x1 d1 H) as [H1 H2]. split; [exact H1|].
    rewrite H2. cbn [fst] in Hh. rewrite Hh. unfold messages. cbn [List.filter]. destruct act; cbn; lia. }
  intros x. destruct (Hall (new_intake a) d) as [[? ? ? ?] Hh].
  - split; cbn; [done|lia|done|]. by intros p ?%elem_of_nil.
  - fold x in Hh |- *. by split_and!.
Qed.
End accounts.

(** ** From the message to the room *)

Section rooms.
Context (inflate : bytes → bytes * bool) (uuid_Parse : bytes → option uuid).
Context (text_length : bytes → Z) (gen : uuid → uuid).

(** What an alert that passes the checks says is what the machine sent. *)
Lemma validated_fields cat a now minted msg alert :
  validatedAlert inflate uuid_Parse cat a now minted msg = Ok alert →
  a_DeviceID alert = ag_DeviceID a ∧ a_RuleID alert = cm_RuleID msg ∧ a_RuleVersion alert = cm_RuleVersion msg ∧
  a_WindowStart alert = unix_time (cm_WindowStartTS msg) ∧ a_ObservedAt alert = unix_time (cm_ObservedTS msg) ∧
  storedSeverity (cm_Severity msg) = Some (a_Severity alert) ∧
  shipsRule cat (cm_RuleID msg) = true ∧ customerWants cat a (cm_RuleID msg) = true ∧
  alertTimestampsInRange msg now = true.
Proof.
  unfold validatedAlert. destruct (storedSeverity _) as [sev|]; [|done].
  repeat (match goal with |- context [negb ?b] => destruct b eqn:? end; cbn [negb]; [|done]).
  destruct (bool_decide _ && bool_decide _); [done|]. destruct (bool_decide _ && _); [done|].
  by intros [= <-].
Qed.

(** A stored alert, seen from the call that stored it. *)
Lemma storeAlert_stored wired cat settings ctx new now db_fails alert x d x' d' :
  storeAlert text_length gen wired cat settings ctx new now db_fails alert x d = (Some x', d') →
  in_created x' ≠ in_created x →
  let org := sc_OrganizationID (settingsScope settings (in_agent x)) in
  org ≠ Nil ∧
  Record_ text_length gen ctx (with_organization org alert) (groupingFor cat (a_RuleID alert)) new now d = (Ok Stored, d').
Proof.
  intros H Hc org. unfold storeAlert in H. fold org in H. destruct wired; [|done]. cbn [negb] in H.
  case_bool_decide as Ho; [by simplify_eq|]. destruct db_fails; [done|]. cbn in Ho. split; [done|].
  cbn [with_organization a_RuleID] in H. destruct (Record_ _ _ _ _ _ _ _ _) as [[[]|e] d1]; simplify_eq; done.
Qed.

(** C8: An alert above info that passes the checks and is counted as created is in the table, for the machine and the
    customer it belongs to, with what the machine sent; and it is in the open room of its rule on the narrowest rung
    the rule groups by, which counts exactly the alerts and machines filed in it, unless it predates that room by more
    than the rule's window, when it has no room and nothing but its row is added. *)
Theorem intake_reaches_room cat settings ctx t def msg now minted alert new dbnow db_fails wired x d x' d' key :
  let org := sc_OrganizationID (settingsScope settings (in_agent x)) in
  let stored := normalized (with_organization org alert) in
  db_ok d → TenantFromContext ctx = Some t → Lookup cat (cm_RuleID msg) = Some def →
  validatedAlert inflate uuid_Parse (Some cat) (in_agent x) now minted msg = Ok alert → a_Severity alert ≠ SeverityInfo →
  scopeKeyFor t stored (named_scope (df_GroupBy def)) d = Ok key →
  storeAlert text_length gen wired (Some cat) settings ctx new dbnow db_fails alert x d = (Some x', d') →
  in_created x' ≠ in_created x →
  org ≠ Nil ∧
  (∃ row, t_alerts d' !! a_ID alert = Some row ∧ ar_alert row = stored ∧
     a_DeviceID stored = ag_DeviceID (in_agent x) ∧ a_RuleID stored = cm_RuleID msg ∧
     a_WindowStart stored = truncate_us (unix_time (cm_WindowStartTS msg))) ∧
  ((∃ row id r, t_alerts d' !! a_ID alert = Some row ∧ ar_incident row = Some id ∧
      t_incidents d' !! id = Some r ∧ is_open (ir_room r) = true ∧ room_key (ir_room r) = key ∧
      room_counts (filed d' id) (ir_room r)) ∨
   (d' = set_alerts d (<[a_ID alert := mk_arow stored (TenantID t) (truncate_us dbnow) None]> (t_alerts d)) ∧
    ∃ id r, t_incidents d !! id = Some r ∧ is_open (ir_room r) = true ∧ room_key (ir_room r) = key ∧
      truncate_us (a_ObservedAt alert) + i64 (df_GroupWindowSecs def * second) < i_FirstSeen (ir_room r))).
Proof.
  intros org stored Hok Ht Hdef Hv Hsev Hkey Hs Hcr.
  destruct (validated_fields _ _ _ _ _ _ Hv) as (Hd & Hr & _ & Hw & _).
  destruct (storeAlert_stored _ _ _ _ _ _ _ _ _ _ _ _ Hs Hcr) as [Horg Hrec]. fold org in Horg, Hrec.
  rewrite Hr in Hrec. unfold groupingFor, lookup_rule in Hrec. cbn [mbind option_bind] in Hrec. rewrite Hdef in Hrec.
  rewrite incidentScope_narrowest in Hrec. split; [done|].
  destruct (record_outcomes _ _ _ _ _ _ _ _ _ _ Hok Hrec) as (_ & _ & row & Hrow & Ha & _).
  split; [exists row; split_and!; [done|done|done|done|cbn; by rewrite Hw]|].
  destruct (stored_alert_in_room text_length gen ctx t (with_organization org alert)
              (mk_grouping (named_scope (df_GroupBy def)) (i64 (df_GroupWindowSecs def * second))) new dbnow d d' key Hok Ht Hsev Hkey Hrec)
    as [(row' & id & r & ? & _ & ? & ? & ? & ? & ?)|(? & id & r & ? & ? & ? & ?)].
  - left. by exists row', id, r.
  - right. split; [done|]. by exists id, r.
Qed.

(** A replay stores nothing: while an alert of a machine's rule, version and window start is in the table, another
    of that identity is never counted as created and leaves the alerts as they are, whatever else it says. *)
Theorem replay_not_stored cat settings ctx alert new now db_fails wired x d x' d' id row :
  let org := sc_OrganizationID (settingsScope settings (in_agent x)) in
  db_ok d → t_alerts d !! id = Some row →
  same_identity (ar_alert row) (normalized (with_organization org alert)) = true →
  storeAlert text_length gen wired cat settings ctx new now db_fails alert x d = (Some x', d') →
  in_created x' = in_created x ∧ t_alerts d' = t_alerts d.
Proof.
  intros org Hok Hrow Hid. unfold storeAlert. fold org. destruct wired; [|done]. cbn [negb].
  case_bool_decide; [by intros [= <- <-]|]. destruct db_fails; [done|].
  destruct (Record_ _ _ _ _ _ _ _ _) as [[o|e] d1] eqn:E; [|done]. intros [= <- <-].
  pose proof (record_outcomes _ _ _ _ _ _ _ _ _ _ Hok E) as Ho. destruct o; cbn.
  - destruct Ho as [Hno _]. by rewrite (Hno id row Hrow) in Hid.
  - by destruct Ho as [-> _].
  - by destruct Ho as [-> _].
Qed.

End rooms.

(** ** A stopped rule *)

Section stopped.
Context (inflate : bytes → bytes * bool) (uuid_Parse : bytes → option uuid) (conv : float64 → Z).

#[local] Instance catalogue_provider : AlertRuleProvider CatalogueAlertRuleProvider :=
  CatalogueAlertRuleProvider_RulesFor conv.

(** Once a machine's rules are pushed after its customer stopped an event rule, every alert of that rule is
    refused as stopped, though the machine goes on matching it; and while the rollout delivers the rule none is. *)
Theorem stopped_event_rule_silenced p scopeFor scope ros bs def sends a r a' :
  let org := sc_OrganizationID scope in
  scopeFor (ag_DeviceID a) = Some scope → org ≠ Nil →
  p_ListBindings p org = Some bs → p_ListRollouts p org = Some ros →
  Lookup (p_catalogue p) (df_ID def) = Some def → def ∈ All (p_catalogue p) → WatchesEvents def = true →
  pushAlertRules (Some p) (Some scopeFor) sends a = (r, a') →
  ∀ now minted msg, cm_RuleID msg = df_ID def →
    is_Some (storedSeverity (cm_Severity msg)) → hasAlertIdentity msg = true →
    (validatedAlert inflate uuid_Parse (Some (p_catalogue p)) a' now minted msg = Err alertDropRuleStopped ↔
     Delivers (RolloutFor ros org (df_ID def)) = false).
Proof.
  intros org Hs Horg Hbs Hros Hl Hin Hw Hpush now minted msg Hid [sev Hsev] Hident.
  assert (Hwant : ag_wantedEventRules a' = Some (wantedEventRules (All (p_catalogue p)) org ros)).
  { revert Hpush. unfold pushAlertRules, settingsScope. rewrite Hs. cbn [from_option id default].
    unfold RulesFor, catalogue_provider, CatalogueAlertRuleProvider_RulesFor. fold org.
    rewrite bool_decide_eq_false_2 by done. rewrite Hbs. cbn [mbind option_bind]. rewrite Hros. cbn [mbind option_bind].
    unfold SendPushAlertRules, rememberRuleset.
    destruct (negb (requireCapability _ _)); [by intros [= _ <-]|]. destruct (negb sends); by intros [= _ <-]. }
  unfold validatedAlert. rewrite Hsev, Hident. cbn [negb]. rewrite Hid. unfold shipsRule. rewrite Hl.
  rewrite bool_decide_eq_true_2 by done. cbn [negb]. unfold customerWants. rewrite Hwant.
  unfold watchesEvents, lookup_rule. cbn [mbind option_bind]. rewrite Hl, Hw.
  assert (Hdel : df_ID def ∈ wantedEventRules (All (p_catalogue p)) org ros ↔
                 Delivers (RolloutFor ros org (df_ID def)) = true).
  { rewrite wantedEventRules_elem. split; [by intros (d0 & _ & _ & _ & ?)|]. intros ?. by exists def. }
  case_bool_decide as Hm; cbn [negb].
  - rewrite (proj1 Hdel Hm). split; [|done]. repeat case_match; done.
  - split; [intros _|done]. destruct (Delivers _) eqn:E; [|done]. by destruct Hm; apply Hdel.
Qed.
End stopped.

(** ** Runs *)

Module Intake.

(** An alert message with these fields and no others. *)
Definition alert_message (rule severity codec evidence : bytes) (start end_ observed : Z) : ControlMessage :=
  mk_control (lit "AgentAlert") [] [] [] [] 0 0 [] f_zero [] [] [] [] [] 0 0 [] [] [] [] 0 0 0 0 0 0 []
    [] 0 [] 0 0 0 [] None [] [] [] None [] [] [] [] [] None [] [] [] [] 0 0 0 [] None [] 0 0 [] []
    false 0 [] [] [] 0 0 0 0 [] [] None [] [] [] [] [] 0 0 [] [] [] 0 None [] [] [] [] [] [] None [] rule
    1 (Some severity) [] None start end_ observed None codec evidence [] [] [] 0 0.

Definition machine : agent := mk_agent (replicate 16 x01) Nil (replicate 16 x03) [] Nil None [].
Definition scope : Scope := mk_scope (replicate 16 x01) Nil (replicate 16 x02) (replicate 16 x03).
Definition pack : Catalogue := mk_catalogue {[df_ID sample_def := sample_def]} [df_ID sample_def].
Definition now : time := 1000100 * second.
Definition plain (b : bytes) : bytes * bool := (b, true).
Definition message : ControlMessage :=
  alert_message (df_ID sample_def) AlertSeverityWarning [] [] 1000000 1000060 1000060.
Definition checked : result alert_drop Alert :=
  validatedAlert plain (λ _, None) (Some pack) machine now (replicate 16 x20) message.
Definition alert : Alert := match checked with Ok a => a | Err _ => demo_alert end.
Definition filed_alert : option intake * db :=
  storeAlert blen (λ id, id) true (Some pack) (Some (λ _, Some scope)) (Some demo_tenant) (replicate 16 x30)
    now false alert (new_intake machine) demo_db.

Lemma intake_reaches_room_witness :
  ∃ x', filed_alert.1 = Some x' ∧ in_created x' = [df_ID sample_def] ∧
  ∃ row, t_alerts filed_alert.2 !! replicate 16 x20 = Some row ∧ a_RuleID (ar_alert row) = df_ID sample_def.
Proof.
  destruct filed_alert as [[x'|] d'] eqn:E; [|by vm_compute in E].
  exists x'. assert (Hc : in_created x' = [df_ID sample_def]).
  { apply (f_equal (λ y, in_created <$> y.1)) in E. vm_compute in E. by injection E. }
  split; [done|]. split; [exact Hc|].
  destruct (intake_reaches_room plain (λ _, None) blen (λ id, id) pack (Some (λ _, Some scope)) (Some demo_tenant)
    demo_tenant sample_def message now (replicate 16 x20) alert (replicate 16 x30) now false true (new_intake machine)
    demo_db x' d' (mk_key (replicate 16 x02) (df_ID sample_def) ScopeDevice (replicate 16 x01)))
    as (_ & (row & Hrow & Ha & _ & Hr & _) & _).
  - exact demo_db_ok.
  - reflexivity.
  - by vm_compute.
  - by vm_compute.
  - by vm_compute.
  - by vm_compute.
  - exact E.
  - rewrite Hc. discriminate.
  - exists row. split; [exact Hrow|]. rewrite Ha. exact Hr.
Defined.

(** The same alert again, with another id. *)
Definition again : option intake * db :=
  storeAlert blen (λ id, id) true (Some pack) (Some (λ _, Some scope)) (Some demo_tenant) (replicate 16 x31)
    now false alert (new_intake machine) filed_alert.2.

Lemma replay_not_stored_witness :
  ∃ x', again.1 = Some x' ∧ in_created x' = [] ∧ t_alerts again.2 = t_alerts filed_alert.2.
Proof.
  destruct again as [[x'|] d'] eqn:E; [|by vm_compute in E]. exists x'. split; [done|].
  destruct (t_alerts filed_alert.2 !! replicate 16 x20) as [row|] eqn:Erow; [|by vm_compute in Erow].
  apply (replay_not_stored blen (λ id, id) (Some pack) (Some (λ _, Some scope)) (Some demo_tenant) alert
           (replicate 16 x31) now false true (new_intake machine) filed_alert.2 x' d' (replicate 16 x20) row).
  - unfold filed_alert, storeAlert. cbn [negb]. rewrite bool_decide_eq_false_2 by by vm_compute.
    match goal with |- context [Record_ ?a ?b ?c ?d ?e ?f ?g ?h] =>
      pose proof (run_op_ok a b (λ w, w) (OpRecord c d e f g) h demo_db_ok) as Hok; cbn [run_op] in Hok;
      destruct (Record_ a b c d e f g h) as [[o|er] d1] end; exact Hok.
  - exact Erow.
  - vm_compute in Erow. injection Erow as <-. by vm_compute.
  - exact E.
Defined.

(** A rule that reads the machine's own words, in force and stopped. *)
Definition event_def : Definition_ :=
  mk_def (df_ID sample_def) (df_Version sample_def) KindEvent (df_Severity sample_def) (df_Summary sample_def)
    (df_Metric sample_def) (df_ComparatorName sample_def) (df_Threshold sample_def) (df_Clear sample_def)
    (df_SustainSecs sample_def) (df_PredicateName sample_def) (df_WindowSecs sample_def) (df_All sample_def)
    (df_GroupBy sample_def) (df_GroupWindowSecs sample_def) (df_Evidence sample_def) (df_CoverageRequires sample_def)
    (df_Tunable sample_def).
Definition event_pack : Catalogue := mk_catalogue {[df_ID event_def := event_def]} [df_ID event_def].
Definition event_rules (kill : bool) : CatalogueAlertRuleProvider :=
  mk_provider event_pack (λ _, Some []) (λ _, Some {[df_ID event_def := Machine.canary kill]}) None None None.

Lemma stopped_event_rule_silenced_witness :
  let pushed kill := (@pushAlertRules _ (catalogue_provider (λ _, 0)) (Some (event_rules kill)) (Some (λ _, Some scope))
                        true machine).2 in
  validatedAlert plain (λ _, None) (Some event_pack) (pushed true) now [] message = Err alertDropRuleStopped ∧
  validatedAlert plain (λ _, None) (Some event_pack) (pushed false) now [] message ≠ Err alertDropRuleStopped.
Proof.
  assert (H : ∀ kill,
    validatedAlert plain (λ _, None) (Some event_pack)
      (@pushAlertRules _ (catalogue_provider (λ _, 0)) (Some (event_rules kill)) (Some (λ _, Some scope)) true machine).2
      now [] message = Err alertDropRuleStopped ↔
    Delivers (RolloutFor {[df_ID event_def := Machine.canary kill]} (replicate 16 x02) (df_ID event_def)) = false).
  { intros kill. apply (stopped_event_rule_silenced plain (λ _, None) (λ _, 0) (event_rules kill) (λ _, Some scope) scope
      {[df_ID event_def := Machine.canary kill]} [] event_def true machine
      (@pushAlertRules _ (catalogue_provider (λ _, 0)) (Some (event_rules kill)) (Some (λ _, Some scope)) true machine).1).
    - reflexivity.
    - discriminate.
    - reflexivity.
    - reflexivity.
    - by vm_compute.
    - apply list_elem_of_here.
    - reflexivity.
    - apply surjective_pairing.
    - reflexivity.
    - by eexists.
    - by vm_compute. }
  split; [apply (H true); by vm_compute|intros E%(H false); by vm_compute in E].
Defined.

(** Evidence that passes the size and the codec checks but not the table's. *)
Definition heavy : ControlMessage :=
  alert_message (df_ID sample_def) AlertSeverityWarning EvidenceCodec (replicate (Z.to_nat 65537) x41) 1000000 1000060 1000060.

(** The table takes less evidence than the payload check lets through: such an alert passes every check and is lost
    in its write, as a failure of the store. *)
Example heavy_evidence_lost :
  let x := handleAgentAlert plain (λ _, None) (Some pack) (Some demo_tenant) now (replicate 16 x20) heavy 70000
             (new_intake machine) in
  let y := (finish_alert blen (λ id, id) true (Some pack) (Some (λ _, Some scope)) (Some demo_tenant) (replicate 16 x30)
              now false 0 x demo_db).1 in
  (length (in_inflight x), in_drops x) = (1%nat, []) ∧ in_drops y = [(alertPersistFailed, true)].
Proof. vm_compute. split; reflexivity. Qed.
End Intake.
