(* ===== verification/Authority.v ===== *)
(** * The master keys

    [src/server/internal/authority] and [cmd/opengate-authority]: the tool that
    creates the master key, stages the next one, lays out the role files of each
    phase of a change and moves the key out of the secret it shared, as programs
    over the calls to the Kubernetes API, which fail or interleave; the staging of
    the role files; and [cert/trust_files.go], [trust.go], [cert_ca.go] and
    [cross.go]: the server reading its trust set from those files.

    X.509, PEM, key generation and signing are parameters.  Of a certificate only
    the fields of [Certificate] are kept; those every authority shares (the key
    usage, the path length) belong to [CreateCertificate]. *)
From S2P Require Import Prelude GoTime Sorting Ledger Admission Effect.

(** ** Files *)

Definition IssuerCertFile : bytes := lit "ca.crt".
Definition IssuerKeyFile : bytes := lit "ca.key".
Definition AcceptedFile : bytes := lit "ca-accepted.crt".
Definition RenewOnlyFile : bytes := lit "ca-renew-only.crt".
Definition VouchedOnlyFile : bytes := lit "ca-vouched-only.crt".
Definition ChainFile : bytes := lit "ca-chain.crt".
Definition MPSIssuerCertFile : bytes := lit "mps-ca.crt".
Definition MPSIssuerKeyFile : bytes := lit "mps-ca.key".
Definition keyFileForbiddenBit : Z := 63.      (* 0o077 *)
Definition NextCertFile : bytes := lit "next-ca.crt".
Definition NextKeyFile : bytes := lit "next-ca.key".
Definition NextCrossFile : bytes := lit "next-cross.crt".
Definition PreviousCertFile : bytes := lit "previous-ca.crt".
Definition PreviousKeyFile : bytes := lit "previous-ca.key".

(** A secret's files by name; a missing name reads as no bytes. *)
Abbreviation Files := (gmap bytes bytes).

Definition file_of (f : Files) (name : bytes) : bytes := default [] (f !! name).

Definition empty_file (f : Files) (name : bytes) : bool := bool_decide (file_of f name = []).

(** [Names]: the files with content, in order. *)
Definition Names (f : Files) : list bytes :=
  sort_Strings ((map_to_list (filter (λ kv, kv.2 ≠ []) f)).*1).

Inductive Phase := PhaseSteady | PhaseChangeover | PhaseRetire | PhaseEmergency | PhaseSettle | PhaseOther.
Inductive MPSChoice := MPSOld | MPSNew.
Record LayoutOptions := mk_options { lo_MPS : MPSChoice; lo_KeepChain : bool; lo_DropOld : bool }.

#[global] Instance Phase_eq_dec : EqDecision Phase.
Proof. solve_decision. Defined.
#[global] Instance MPSChoice_eq_dec : EqDecision MPSChoice.
Proof. solve_decision. Defined.

Inductive auth_err :=
  | ErrKeyExists | ErrKitExists | ErrNoKit | ErrNotInChangeover | ErrNoIssuer | UnknownPhase
  | GenerateFailed | SerialFailed | CreateFailed | MarshalFailed
  | InvalidPEM | CertUnparsed | KeyUnparsed | KeyCannotSign
  | MissingIssuer | FileUnread (name : bytes) | FileUnwritten (name : bytes) | NotOneCert (name : bytes) (n : nat)
  | KeyReadable (name : bytes) | KeyMismatch (name : bytes) | NoCertIn (name : bytes)
  | BadTrust (e : trust_err)
  | ApiFailed | ApiConflict | ApiAbsent | AbsentAfterWrite | Differs (name : bytes)
  | NoLegacyDir | KeysDiffer | BadMPSFlag.

#[global] Instance trust_err_eq_dec : EqDecision trust_err.
Proof. solve_decision. Defined.
#[global] Instance auth_err_eq_dec : EqDecision auth_err.
Proof. solve_decision. Defined.

(** A directory: each file with its permission bits and its bytes. *)
Record dir_file := mk_dfile { df_mode : Z; df_data : bytes }.
Abbreviation dir := (gmap bytes dir_file).

Definition fileExists (d : dir) (name : bytes) : bool := bool_decide (is_Some (d !! name)).

(** [os.WriteFile] by the files' owner: a file that exists keeps its mode, and must
    be writable. *)
Definition owner_writable (f : dir_file) : bool := Z.testbit (df_mode f) 7.
Definition write_file (name data : bytes) (mode : Z) (d : dir) : option dir :=
  match d !! name with
  | Some f => if owner_writable f then Some (<[name := mk_dfile (df_mode f) data]> d) else None
  | None => Some (<[name := mk_dfile mode data]> d)
  end.

Record pem_block := mk_pem { pb_Type : bytes; pb_Bytes : bytes }.

Record CATemplate := mk_ca_template {
  ct_SerialNumber : bytes;
  ct_CommonName : bytes;
  ct_RawSubject : bytes;       (* empty: made from the common name *)
  ct_NotBefore : time;
  ct_NotAfter : time;
}.

Definition authorityValidity : duration := 10 * 365 * 24 * hour.

(** ** Secrets and the calls on them *)

Record secret := mk_secret { st_resourceVersion : Z; st_data : Files }.
Abbreviation cluster := (gmap bytes secret).

Inductive kcall : Type → Type :=
  | KGet (name : bytes) : kcall (result auth_err (option (Z * Files)))
  | KPut (name : bytes) (version : Z) (files : Files) : kcall (result auth_err unit)
  | KPost (name : bytes) (files : Files) : kcall (result auth_err unit)
  | KPatch (name : bytes) (keys : list bytes) : kcall (result auth_err unit).

Abbreviation job := (prog kcall).

Section authority.
Context {Signer : Type}.
Context (Public : Signer → bytes).
(** [x509.CreateCertificate] for a public key, signed by the key of [parent], or of
    the template itself. *)
Context (CreateCertificate : CATemplate → option Certificate → bytes → Signer → option bytes).
Context (MarshalECPrivateKey : Signer → option bytes).
Context (ParseECPrivateKey : bytes → option Signer).
(** [None]: an error; [Some None]: a key that cannot sign. *)
Context (ParsePKCS8PrivateKey : bytes → option (option Signer)).
Context (pem_Encode : pem_block → bytes) (pem_Decode : bytes → option (pem_block * bytes)).
Context (ParseCertificate : bytes → option Certificate).
Context (sha384 : bytes → bytes) (CheckSignatureFrom : Certificate → Certificate → bool).

(** ** [cert_ca.go] and [cross.go] *)

(** What the random source gives one creation: a key and two serials. *)
Record draw := mk_draw { dr_key : option Signer; dr_serial : option bytes; dr_cross : option bytes }.

Definition authorityTemplate (serial : option bytes) (commonName : bytes) (now : time) : result auth_err CATemplate :=
  match serial with
  | None => Err SerialFailed
  | Some s => Ok (mk_ca_template s commonName [] (now - clockSkewMargin) (now + authorityValidity))
  end.

Definition NewAuthority (dr : draw) (commonName : bytes) (now : time) : result auth_err (bytes * bytes) :=
  match dr_key dr with
  | None => Err GenerateFailed
  | Some key =>
      template ← authorityTemplate (dr_serial dr) commonName now;
      match CreateCertificate template None (Public key) key with
      | None => Err CreateFailed
      | Some certDER =>
          match MarshalECPrivateKey key with
          | None => Err MarshalFailed
          | Some keyDER =>
              Ok (pem_Encode (mk_pem (lit "CERTIFICATE") certDER), pem_Encode (mk_pem (lit "EC PRIVATE KEY") keyDER))
          end
      end
  end.

Definition CrossSign (serial : option bytes) (next current : Certificate) (currentKey : Signer) : result auth_err bytes :=
  match serial with
  | None => Err SerialFailed
  | Some s =>
      let template := mk_ca_template s (crt_CommonName next) (crt_RawSubject next) (crt_NotBefore next) (crt_NotAfter next) in
      match CreateCertificate template (Some current) (crt_RawSubjectPublicKeyInfo next) currentKey with
      | None => Err CreateFailed
      | Some der => Ok (pem_Encode (mk_pem (lit "CERTIFICATE") der))
      end
  end.

Definition ParseCertificatePEM (data : bytes) : result auth_err Certificate :=
  match pem_Decode data with
  | None => Err InvalidPEM
  | Some (block, _) => match ParseCertificate (pb_Bytes block) with None => Err CertUnparsed | Some c => Ok c end
  end.

Definition ParseKeyPEM (data : bytes) : result auth_err Signer :=
  match pem_Decode data with
  | None => Err InvalidPEM
  | Some (block, _) =>
      match ParseECPrivateKey (pb_Bytes block) with
      | Some key => Ok key
      | None =>
          match ParsePKCS8PrivateKey (pb_Bytes block) with
          | None => Err KeyUnparsed
          | Some None => Err KeyCannotSign
          | Some (Some key) => Ok key
          end
      end
  end.

(** ** [trust_files.go] *)

(** The loop of [loadCerts]; every block takes bytes, so [n] above the length is
    enough. *)
Fixpoint pem_certs (n : nat) (data : bytes) : result auth_err (list Certificate) :=
  match n with
  | O => Ok []
  | S n =>
      match pem_Decode data with
      | None => Ok []
      | Some (block, rest) =>
          match ParseCertificate (pb_Bytes block) with
          | None => Err CertUnparsed
          | Some c => certs ← pem_certs n rest; Ok (c :: certs)
          end
      end
  end.

Definition loadCerts (d : dir) (name : bytes) : result auth_err (list Certificate) :=
  match d !! name with
  | None => Err (FileUnread name)
  | Some f =>
      certs ← pem_certs (S (length (df_data f))) (df_data f);
      match certs with [] => Err (NoCertIn name) | _ => Ok certs end
  end.

Definition loadOptionalCerts (d : dir) (name : bytes) : result auth_err (list Certificate) :=
  if fileExists d name then loadCerts d name else Ok [].

Definition loadKey (d : dir) (name : bytes) : result auth_err Signer :=
  match d !! name with
  | None => Err (FileUnread name)
  | Some f => ParseKeyPEM (df_data f)
  end.

Definition publicKeysEqual (c : Certificate) (key : Signer) : bool :=
  bool_decide (crt_RawSubjectPublicKeyInfo c = Public key).

Definition loadKeyPair (d : dir) (certName keyName : bytes) : result auth_err (Certificate * Signer) :=
  certs ← loadCerts d certName;
  match certs with
  | [c] =>
      match d !! keyName with
      | None => Err (FileUnread keyName)
      | Some f =>
          if negb (bool_decide (Z.land (df_mode f) keyFileForbiddenBit = 0)) then Err (KeyReadable keyName)
          else
            key ← loadKey d keyName;
            if negb (publicKeysEqual c key) then Err (KeyMismatch keyName) else Ok (c, key)
      end
  | _ => Err (NotOneCert certName (length certs))
  end.

(** ** [trust.go] *)

Record Loaded := mk_loaded {
  ld_set : TrustSet;
  ld_issuerKey : Signer;
  ld_chain : list Certificate;
  ld_mpsIssuer : Certificate;
  ld_mpsIssuerKey : Signer;
}.

(** [writes] says which files can be written. *)
Definition generateAuthorityFiles (dr : draw) (commonName : bytes) (now : time) (writes : bytes → bool) (d : dir) :
    result auth_err unit * dir :=
  match NewAuthority dr commonName now with
  | Err e => (Err e, d)
  | Ok (certPEM, keyPEM) =>
      match (if writes IssuerCertFile then write_file IssuerCertFile certPEM 384 d else None) with
      | None => (Err (FileUnwritten IssuerCertFile), d)
      | Some d =>
          match (if writes IssuerKeyFile then write_file IssuerKeyFile keyPEM 384 d else None) with
          | None => (Err (FileUnwritten IssuerKeyFile), d)
          | Some d => (Ok tt, d)
          end
      end
  end.

Definition readTrustSet (d : dir) : result auth_err Loaded :=
  issuer ← loadKeyPair d IssuerCertFile IssuerKeyFile;
  mps ← (if fileExists d MPSIssuerCertFile then loadKeyPair d MPSIssuerCertFile MPSIssuerKeyFile else Ok issuer);
  accepted ← loadOptionalCerts d AcceptedFile;
  renewOnly ← loadOptionalCerts d RenewOnlyFile;
  vouchedOnly ← loadOptionalCerts d VouchedOnlyFile;
  chain ← loadOptionalCerts d ChainFile;
  let set := mk_trust issuer.1 accepted renewOnly vouchedOnly in
  match validate_trust sha384 CheckSignatureFrom set chain with
  | Err e => Err (BadTrust e)
  | Ok _ => Ok (mk_loaded set issuer.2 chain mps.1 mps.2)
  end.

Definition LoadTrustSet (mustExist : bool) (dr : draw) (now : time) (writes : bytes → bool) (d : dir) :
    result auth_err Loaded * dir :=
  if negb (fileExists d IssuerCertFile && fileExists d IssuerKeyFile) then
    if mustExist then (Err MissingIssuer, d)
    else match generateAuthorityFiles dr (lit "OpenGate CA") now writes d with
         | (Err e, d) => (Err e, d)
         | (Ok _, d) => (readTrustSet d, d)
         end
  else (readTrustSet d, d).

(** [bundlePEM]: the issuer and the accepted keys, what a machine is told to
    trust. *)
Definition bundlePEM (m : Manager) : bytes :=
  concat ((λ a, if bool_decide (au_Role a = RoleIssuer) || bool_decide (au_Role a = RoleAccepted)
                then pem_Encode (mk_pem (lit "CERTIFICATE") (crt_Raw (au_Cert a))) else []) <$> m_authorities m).

(** [NewManager] on a directory of role files. *)
Definition start (mustExist : bool) (dr : draw) (now : time) (writes : bytes → bool) (compromisedSince : time)
    (grace : duration) (d : dir) : result auth_err (Loaded * Manager) :=
  match (LoadTrustSet mustExist dr now writes d).1 with
  | Err e => Err e
  | Ok ld =>
      match NewManager sha384 CheckSignatureFrom (ld_set ld) (ld_chain ld) compromisedSince grace with
      | Err e => Err (BadTrust e)
      | Ok m => Ok (ld, m)
      end
  end.

(** ** [layout.go] *)

Definition issuerName : bytes := lit "OpenGate CA".
Definition nextName : bytes := lit "OpenGate CA (next)".

Definition Init (dr : draw) (now : time) (current : Files) : result auth_err Files :=
  if negb (empty_file current IssuerKeyFile) then Err ErrKeyExists
  else
    '(certPEM, keyPEM) ← NewAuthority dr issuerName now;
    Ok (<[IssuerCertFile := certPEM]> {[IssuerKeyFile := keyPEM]}).

Definition NewKit (dr : draw) (now : time) (current : Files) : result auth_err Files :=
  if empty_file current IssuerKeyFile then Err ErrNoIssuer
  else if negb (empty_file current NextKeyFile) then Err ErrKitExists
  else
    issuer ← ParseCertificatePEM (file_of current IssuerCertFile);
    issuerKey ← ParseKeyPEM (file_of current IssuerKeyFile);
    '(nextPEM, nextKeyPEM) ← NewAuthority dr nextName now;
    next ← ParseCertificatePEM nextPEM;
    cross ← CrossSign (dr_cross dr) next issuer issuerKey;
    Ok (<[NextCrossFile := cross]> (<[NextKeyFile := nextKeyPEM]> (<[NextCertFile := nextPEM]> current))).

(** The last three files are A's while its key still signs for Intel AMT. *)
Definition keep_mps (cert key : bytes) (out : Files) : Files :=
  <[PreviousKeyFile := key]> (<[MPSIssuerKeyFile := key]> (<[MPSIssuerCertFile := cert]> out)).

Definition fromKit (current : Files) (phase : Phase) (opts : LayoutOptions) : result auth_err Files :=
  if empty_file current NextKeyFile then Err ErrNoKit
  else
    let old := file_of current IssuerCertFile in
    let oldKey := file_of current IssuerKeyFile in
    let out : Files := <[IssuerCertFile := file_of current NextCertFile]>
                (<[IssuerKeyFile := file_of current NextKeyFile]>
                 (<[ChainFile := file_of current NextCrossFile]> {[PreviousCertFile := old]})) in
    let out := <[(if bool_decide (phase = PhaseChangeover) then AcceptedFile else VouchedOnlyFile) := old]> out in
    Ok (if bool_decide (lo_MPS opts = MPSNew) then out else keep_mps old oldKey out).

Definition afterChangeover (current : Files) (phase : Phase) (opts : LayoutOptions) : result auth_err Files :=
  if empty_file current PreviousCertFile then Err ErrNotInChangeover
  else
    let old := file_of current PreviousCertFile in
    let out : Files := <[IssuerCertFile := file_of current IssuerCertFile]>
                {[IssuerKeyFile := file_of current IssuerKeyFile]} in
    let retire := bool_decide (phase = PhaseRetire) in
    let keepOld := retire || negb (lo_DropOld opts) in
    let out := if keepOld then <[PreviousCertFile := old]> (<[RenewOnlyFile := old]> out) else out in
    let out := if retire || (lo_KeepChain opts && keepOld) then <[ChainFile := file_of current ChainFile]> out else out in
    let oldKey := file_of current PreviousKeyFile in
    Ok (if retire && negb (bool_decide (lo_MPS opts = MPSNew)) && negb (bool_decide (oldKey = []))
        then keep_mps old oldKey out else out).

Definition Layout (current : Files) (phase : Phase) (opts : LayoutOptions) : result auth_err Files :=
  if empty_file current IssuerKeyFile then Err ErrNoIssuer
  else match phase with
       | PhaseSteady =>
           Ok (<[IssuerCertFile := file_of current IssuerCertFile]> {[IssuerKeyFile := file_of current IssuerKeyFile]})
       | PhaseChangeover | PhaseEmergency => fromKit current phase opts
       | PhaseRetire | PhaseSettle => afterChangeover current phase opts
       | PhaseOther => Err UnknownPhase
       end.

(** ** [inspect.go] *)

Definition roleOrder : list (bytes * bytes) :=
  [(IssuerCertFile, lit "issuer"); (AcceptedFile, lit "accepted"); (RenewOnlyFile, lit "renew-only");
   (VouchedOnlyFile, lit "vouched-only"); (ChainFile, lit "chain"); (MPSIssuerCertFile, lit "mps");
   (NextCertFile, lit "next (staged)"); (NextCrossFile, lit "next cross (staged)"); (PreviousCertFile, lit "previous")].

(** What a printed line shows: the role, the name, the fingerprint, the expiry. *)
Record line := mk_line { ln_role : bytes; ln_name : bytes; ln_print : bytes; ln_expires : time }.

Fixpoint inspect_file (n : nat) (role data : bytes) : result auth_err (list line) :=
  match n with
  | O => Ok []
  | S n =>
      match pem_Decode data with
      | None => Ok []
      | Some (block, rest) =>
          c ← ParseCertificatePEM (pem_Encode block);
          lines ← inspect_file n role rest;
          Ok (mk_line role (crt_CommonName c) (take 6 (sha384 (crt_Raw c))) (crt_NotAfter c) :: lines)
      end
  end.

Fixpoint inspect_roles (roles : list (bytes * bytes)) (files : Files) : result auth_err (list line) :=
  match roles with
  | [] => Ok []
  | (name, role) :: roles =>
      lines ← inspect_file (length (file_of files name)) role (file_of files name);
      more ← inspect_roles roles files;
      Ok (lines ++ more)
  end.

Definition Inspect (files : Files) : result auth_err (list line) := inspect_roles roleOrder files.

(** ** [stage.go] *)

Definition Adopt (current legacy : Files) : result auth_err (Files * bool) :=
  if negb (empty_file current IssuerKeyFile) then Ok (current, false)
  else if empty_file legacy IssuerKeyFile || empty_file legacy IssuerCertFile then Err ErrNoIssuer
  else Ok (<[IssuerKeyFile := file_of legacy IssuerKeyFile]>
             (<[IssuerCertFile := file_of legacy IssuerCertFile]> current), true).

(** An entry of the mounted volume; [None] cannot be read. *)
Record vol_entry := mk_entry { ve_name : bytes; ve_isDir : bool; ve_data : option bytes }.

(** What the folder's file system does with one name: how much of a write it takes
    before failing ([None]: all of it), and whether the rename succeeds. *)
Record fs_answer := mk_fs { fs_cut : option nat; fs_renames : bool }.

Definition tmp (name : bytes) : bytes := name ++ lit ".tmp".
Definition hidden (name : bytes) : bool := bool_decide (take 2 name = lit "..").

Definition stage_entry (fs : bytes → fs_answer) (e : vol_entry) (d : dir) : result auth_err unit * dir :=
  if hidden (ve_name e) || ve_isDir e then (Ok tt, d)
  else match ve_data e with
  | None => (Err (FileUnread (ve_name e)), d)
  | Some data =>
      let a := fs (ve_name e) in
      let data' := match fs_cut a with Some n => take n data | None => data end in
      match write_file (tmp (ve_name e)) data' 256 d with
      | None => (Err (FileUnwritten (ve_name e)), d)
      | Some d' =>
          if bool_decide (is_Some (fs_cut a)) || negb (fs_renames a) then (Err (FileUnwritten (ve_name e)), d')
          else match d' !! tmp (ve_name e) with
               | Some f => (Ok tt, <[ve_name e := f]> (delete (tmp (ve_name e)) d'))
               | None => (Err (FileUnwritten (ve_name e)), d')
               end
      end
  end.

Fixpoint Stage (fs : bytes → fs_answer) (from : list vol_entry) (to : dir) : result auth_err unit * dir :=
  match from with
  | [] => (Ok tt, to)
  | e :: from =>
      match stage_entry fs e to with
      | (Ok _, to) => Stage fs from to
      | (Err err, to) => (Err err, to)
      end
  end.

(** ** [secrets.go] *)

(** The API server: an update must name the version it replaces, a creation a name
    that is free. *)
Definition kexec {R} (c : kcall R) (w : cluster) : R * cluster :=
  match c in kcall R return R * cluster with
  | KGet name => (Ok ((λ s, (st_resourceVersion s, st_data s)) <$> w !! name), w)
  | KPut name version files =>
      match w !! name with
      | None => (Err ApiAbsent, w)
      | Some s => if bool_decide (st_resourceVersion s = version)
                  then (Ok tt, <[name := mk_secret (version + 1) files]> w) else (Err ApiConflict, w)
      end
  | KPost name files =>
      match w !! name with
      | Some _ => (Err ApiConflict, w)
      | None => (Ok tt, <[name := mk_secret 1 files]> w)
      end
  | KPatch name keys =>
      match w !! name with
      | None => (Err ApiAbsent, w)
      | Some s => (Ok tt, <[name := mk_secret (st_resourceVersion s + 1) (foldr delete (st_data s) keys)]> w)
      end
  end.

Definition kfault {R} (c : kcall R) : R :=
  match c in kcall R return R with
  | KGet _ => Err ApiFailed
  | KPut _ _ _ | KPost _ _ | KPatch _ _ => Err ApiFailed
  end.

Definition and_then {A B} (p : job (result auth_err A)) (k : A → job (result auth_err B)) : job (result auth_err B) :=
  r ← p; match r with Ok a => k a | Err e => Ret (Err e) end.

(** [Read]: no files when the secret does not exist. *)
Definition Read (name : bytes) : job (result auth_err (option Files)) :=
  and_then (call_out (KGet name)) (λ s, Ret (Ok (snd <$> s))).

Definition readBack (name : bytes) (want : Files) : job (result auth_err unit) :=
  and_then (Read name) (λ got,
    match got with
    | None => Ret (Err AbsentAfterWrite)
    | Some got =>
        match List.find (λ file, negb (bool_decide (file_of want file = file_of got file))) (Names want ++ Names got) with
        | Some file => Ret (Err (Differs file))
        | None => Ret (Ok tt)
        end
    end).

Definition Write (name : bytes) (files : Files) : job (result auth_err unit) :=
  and_then (call_out (KGet name)) (λ existing,
  and_then (call_out (match existing with Some (version, _) => KPut name version files | None => KPost name files end))
    (λ _, readBack name files)).

Definition RemoveKeys (name : bytes) (keys : list bytes) : job (result auth_err unit) := call_out (KPatch name keys).

(** ** [cmd/opengate-authority] *)

Definition defaultSecret : bytes := lit "opengate-authority".
Definition sharedSecret : bytes := lit "opengate-secrets".

Definition print (files : Files) : job (result auth_err (list line)) := Ret (Inspect files).

Definition change (name : bytes) (step : Files → result auth_err Files) : job (result auth_err (list line)) :=
  and_then (Read name) (λ current,
  match step (default ∅ current) with
  | Err e => Ret (Err e)
  | Ok next => and_then (Write name next) (λ _, print next)
  end).

(** [mps] is the flag's text. *)
Definition layout (name : bytes) (phase : Phase) (mps : bytes) (opts : LayoutOptions) : job (result auth_err (list line)) :=
  match (if bool_decide (mps = []) then Some MPSOld else if bool_decide (mps = lit "new") then Some MPSNew else None) with
  | None => Ret (Err BadMPSFlag)
  | Some choice =>
      change name (λ current, Layout current phase (mk_options choice (lo_KeepChain opts) (lo_DropOld opts)))
  end.

Definition inspect (name : bytes) : job (result auth_err (list line)) :=
  and_then (Read name) (λ files, match files with None => Ret (Err ApiAbsent) | Some files => print files end).

(** [readLegacy]: the volume's items are optional. *)
Definition readLegacy (d : dir) : Files :=
  foldr (λ name (files : Files), match d !! name with Some f => <[name := df_data f]> files | None => files end) ∅
    [IssuerCertFile; IssuerKeyFile].

Definition adopt (name : bytes) (legacyDir : option dir) (legacySecret : bytes) : job (result auth_err (list line)) :=
  match legacyDir with
  | None => Ret (Err NoLegacyDir)
  | Some d =>
      let legacy := readLegacy d in
      and_then (Read name) (λ current,
      match Adopt (default ∅ current) legacy with
      | Err e => Ret (Err e)
      | Ok (files, adopted) =>
          and_then (if adopted then Write name files else Ret (Ok tt)) (λ _,
          if empty_file legacy IssuerKeyFile then print files
          else if negb (bool_decide (file_of legacy IssuerKeyFile = file_of files IssuerKeyFile)) then Ret (Err KeysDiffer)
          else and_then (RemoveKeys legacySecret [IssuerCertFile; IssuerKeyFile]) (λ _, print files))
      end)
  end.

Inductive command :=
  | CInit (dr : draw) (now : time)
  | CAdopt (legacyDir : option dir) (legacySecret : bytes)
  | CNewKit (dr : draw) (now : time)
  | CLayout (phase : Phase) (mps : bytes) (opts : LayoutOptions)
  | CInspect.

Definition onSecret (name : bytes) (c : command) : job (result auth_err (list line)) :=
  match c with
  | CInit dr now => change name (Init dr now)
  | CAdopt legacyDir legacySecret => adopt name legacyDir legacySecret
  | CNewKit dr now => change name (NewKit dr now)
  | CLayout phase mps opts => layout name phase mps opts
  | CInspect => inspect name
  end.

(** ** Jobs running side by side *)

(** A request is answered, fails unsent, or is carried out and its answer lost. *)
Inductive delivery := Answered | Unsent | AnswerLost.

Definition ksend {R} (v : delivery) (c : kcall R) (w : cluster) : R * cluster :=
  match v with
  | Answered => kexec c w
  | Unsent => (kfault c, w)
  | AnswerLost => (kfault c, (kexec c w).2)
  end.

Fixpoint kruns {A} (sched : list (nat * delivery)) (pool : list (job A)) (w : cluster) : list (job A) * cluster :=
  match sched with
  | [] => (pool, w)
  | (i, v) :: sched =>
      match @lookup nat (job A) _ _ i pool with
      | Some (Do c k) => let '(r, w) := ksend v c w in kruns sched (<[i := k r]> pool) w
      | _ => kruns sched pool w
      end
  end.
End authority.
