(* ===== verification/AuthorityClaims.v ===== *)
(** * What the master keys' tool keeps

    The role files of every phase load into the trust the phases promise, whatever
    commands came before; a machine's certificate stands with the server as its
    master key's phase says; moving the key out of the shared secret never loses
    it; staging leaves whole files.  Where the tool does otherwise an example shows
    the run. *)
From S2P Require Import Prelude GoTime Settings Sorting Ledger Admission Effect Authority.

Section rotation.
Context {Signer : Type}.
Context (Public : Signer → bytes).
Context (CreateCertificate : CATemplate → option Certificate → bytes → Signer → option bytes).
Context (MarshalECPrivateKey : Signer → option bytes) (ParseECPrivateKey : bytes → option Signer).
Context (ParsePKCS8PrivateKey : bytes → option (option Signer)).
Context (pem_Encode : pem_block → bytes) (pem_Decode : bytes → option (pem_block * bytes)).
Context (ParseCertificate : bytes → option Certificate).
Context (sha384 : bytes → bytes) (CheckSignatureFrom : Certificate → Certificate → bool).

(** What the code relies on: a block that is encoded is read back and every block
    takes bytes; a key that is marshalled is read back; a created certificate
    parses to the names and the key it was created for and is signed by its
    parent; a parsed certificate has a subject. *)
Context (pem_round_trip : ∀ b, pem_Decode (pem_Encode b) = Some (b, [])).
Context (pem_takes : ∀ d b rest, pem_Decode d = Some (b, rest) → (length rest < length d)%nat).
Context (key_round_trip : ∀ k der, MarshalECPrivateKey k = Some der → ParseECPrivateKey der = Some k).
Context (create_parses : ∀ t p pub k der, CreateCertificate t p pub k = Some der →
  ∃ c, ParseCertificate der = Some c ∧ crt_RawSubjectPublicKeyInfo c = pub ∧
       (ct_RawSubject t ≠ [] → crt_RawSubject c = ct_RawSubject t)).
Context (create_signs : ∀ t p pub k der c, CreateCertificate t (Some p) pub k = Some der →
  ParseCertificate der = Some c → crt_RawSubjectPublicKeyInfo p = Public k → CheckSignatureFrom c p = true).
Context (subject_named : ∀ der c, ParseCertificate der = Some c → crt_RawSubject c ≠ []).

Local Abbreviation draw := (@draw Signer).
Local Abbreviation ParseCertificatePEM := (ParseCertificatePEM pem_Decode ParseCertificate).
Local Abbreviation ParseKeyPEM := (ParseKeyPEM ParseECPrivateKey ParsePKCS8PrivateKey pem_Decode).
Local Abbreviation NewAuthority := (NewAuthority Public CreateCertificate MarshalECPrivateKey pem_Encode).
Local Abbreviation CrossSign := (CrossSign CreateCertificate pem_Encode).
Local Abbreviation NewKit :=
  (NewKit Public CreateCertificate MarshalECPrivateKey ParseECPrivateKey ParsePKCS8PrivateKey pem_Encode pem_Decode ParseCertificate).
Local Abbreviation Init := (Init Public CreateCertificate MarshalECPrivateKey pem_Encode).
Local Abbreviation loadCerts := (loadCerts pem_Decode ParseCertificate).
Local Abbreviation loadOptionalCerts := (loadOptionalCerts pem_Decode ParseCertificate).
Local Abbreviation loadKeyPair :=
  (loadKeyPair Public ParseECPrivateKey ParsePKCS8PrivateKey pem_Decode ParseCertificate).
Local Abbreviation readTrustSet :=
  (readTrustSet Public ParseECPrivateKey ParsePKCS8PrivateKey pem_Decode ParseCertificate sha384 CheckSignatureFrom).
Local Abbreviation start :=
  (start Public CreateCertificate MarshalECPrivateKey ParseECPrivateKey ParsePKCS8PrivateKey pem_Encode pem_Decode
     ParseCertificate sha384 CheckSignatureFrom).
Local Abbreviation authority := (authority sha384).

(** ** The keys behind the files *)

Record master := mk_master { ms_pem : bytes; ms_cert : Certificate; ms_keyPEM : bytes; ms_key : Signer }.

(** The key a changeover left behind: its role, the issuer cross-signed by it, and
    its own key while it signs for Intel AMT. *)
Record left_key := mk_left {
  lf_pem : bytes; lf_cert : Certificate; lf_role : Role;
  lf_chain : option (bytes * Certificate); lf_key : option (bytes * Signer);
}.

Record ring := mk_ring {
  rg_issuer : master;
  rg_next : option (master * (bytes * Certificate));
  rg_left : option left_key;
}.

Definition role_file (r : Role) : bytes :=
  match r with
  | RoleIssuer => IssuerCertFile | RoleAccepted => AcceptedFile
  | RoleRenewOnly => RenewOnlyFile | RoleVouchedOnly => VouchedOnlyFile
  end.

Definition files_of (r : ring) : Files :=
  let f : Files := <[IssuerCertFile := ms_pem (rg_issuer r)]> {[IssuerKeyFile := ms_keyPEM (rg_issuer r)]} in
  let f := match rg_next r with
           | None => f
           | Some (n, x) => <[NextCrossFile := x.1]> (<[NextKeyFile := ms_keyPEM n]> (<[NextCertFile := ms_pem n]> f))
           end in
  match rg_left r with
  | None => f
  | Some l =>
      let f := <[PreviousCertFile := lf_pem l]> (<[role_file (lf_role l) := lf_pem l]> f) in
      let f := match lf_chain l with Some x => <[ChainFile := x.1]> f | None => f end in
      match lf_key l with Some k => keep_mps (lf_pem l) k.1 f | None => f end
  end.

(** One certificate in a file, and one key. *)
Definition holds_cert (data : bytes) (c : Certificate) : Prop :=
  ∃ b rest, pem_Decode data = Some (b, rest) ∧ pem_Decode rest = None ∧ ParseCertificate (pb_Bytes b) = Some c.

Definition holds_key (data : bytes) (k : Signer) (c : Certificate) : Prop :=
  ParseKeyPEM data = Ok k ∧ crt_RawSubjectPublicKeyInfo c = Public k.

Definition cross_signed (x c by_ : Certificate) : Prop :=
  crt_RawSubject x = crt_RawSubject c ∧ crt_RawSubjectPublicKeyInfo x = crt_RawSubjectPublicKeyInfo c ∧
  CheckSignatureFrom x by_ = true.

Definition distinct (a b : Certificate) : Prop := sha384 (crt_Raw a) ≠ sha384 (crt_Raw b).

Definition master_ok (m : master) : Prop := holds_cert (ms_pem m) (ms_cert m) ∧ holds_key (ms_keyPEM m) (ms_key m) (ms_cert m).

Definition ring_ok (r : ring) : Prop :=
  let c := ms_cert (rg_issuer r) in
  master_ok (rg_issuer r) ∧
  (∀ n x, rg_next r = Some (n, x) →
     master_ok n ∧ holds_cert x.1 x.2 ∧ cross_signed x.2 (ms_cert n) c ∧ distinct c (ms_cert n)) ∧
  (∀ l, rg_left r = Some l →
     holds_cert (lf_pem l) (lf_cert l) ∧ lf_role l ≠ RoleIssuer ∧ distinct c (lf_cert l) ∧
     (∀ x, lf_chain l = Some x → holds_cert x.1 x.2 ∧ cross_signed x.2 c (lf_cert l)) ∧
     (∀ k, lf_key l = Some k → holds_key k.1 k.2 (lf_cert l))).

Lemma pem_nothing : pem_Decode [] = None.
Proof. destruct (pem_Decode []) as [[b r]|] eqn:E; [|done]. apply pem_takes in E. cbn in E. lia. Qed.

Lemma encoded_cert ty der c : ParseCertificate der = Some c → holds_cert (pem_Encode (mk_pem ty der)) c.
Proof. intros H. eexists _, []. split; [apply pem_round_trip|]. split; [apply pem_nothing|done]. Qed.

Lemma holds_cert_parses d c : holds_cert d c → ParseCertificatePEM d = Ok c.
Proof. intros (b & r & H & _ & Hc). unfold Authority.ParseCertificatePEM. by rewrite H, Hc. Qed.

Lemma holds_cert_some d c : holds_cert d c → d ≠ [].
Proof. intros (b & r & H & _) ->. by rewrite pem_nothing in H. Qed.

Lemma holds_key_some d k c : holds_key d k c → d ≠ [].
Proof. intros [H _] ->. unfold Authority.ParseKeyPEM in H. by rewrite pem_nothing in H. Qed.

Lemma minted dr name now cert key : NewAuthority dr name now = Ok (cert, key) →
  ∃ m, master_ok m ∧ ms_pem m = cert ∧ ms_keyPEM m = key.
Proof.
  unfold Authority.NewAuthority, authorityTemplate.
  destruct (dr_key dr) as [k|]; [|done]. destruct (dr_serial dr) as [s|]; [|done]. cbn.
  destruct (CreateCertificate _ _ _ _) as [der|] eqn:Hc; [|done].
  destruct (MarshalECPrivateKey k) as [kder|] eqn:Hk; [|done]. intros [= <- <-].
  destruct (create_parses _ _ _ _ _ Hc) as (c & Hp & Hpub & _).
  eexists (mk_master _ c _ k). split; [|done]. split; [by apply encoded_cert|].
  split; [|done]. unfold Authority.ParseKeyPEM. cbn. rewrite pem_round_trip. cbn. by rewrite (key_round_trip _ _ Hk).
Qed.

(** ** What the tool does to the keys *)

Definition ring_layout (phase : Phase) (opts : LayoutOptions) (r : ring) : result auth_err ring :=
  match phase with
  | PhaseSteady => Ok (mk_ring (rg_issuer r) None None)
  | PhaseChangeover | PhaseEmergency =>
      match rg_next r with
      | None => Err ErrNoKit
      | Some (n, x) =>
          let a := rg_issuer r in
          Ok (mk_ring n None (Some (mk_left (ms_pem a) (ms_cert a)
                (if bool_decide (phase = PhaseChangeover) then RoleAccepted else RoleVouchedOnly) (Some x)
                (if bool_decide (lo_MPS opts = MPSNew) then None else Some (ms_keyPEM a, ms_key a)))))
      end
  | PhaseRetire =>
      match rg_left r with
      | None => Err ErrNotInChangeover
      | Some l =>
          Ok (mk_ring (rg_issuer r) None (Some (mk_left (lf_pem l) (lf_cert l) RoleRenewOnly (lf_chain l)
                (if bool_decide (lo_MPS opts = MPSNew) then None else lf_key l))))
      end
  | PhaseSettle =>
      match rg_left r with
      | None => Err ErrNotInChangeover
      | Some l =>
          Ok (mk_ring (rg_issuer r) None
                (if lo_DropOld opts then None
                 else Some (mk_left (lf_pem l) (lf_cert l) RoleRenewOnly (if lo_KeepChain opts then lf_chain l else None) None)))
      end
  | PhaseOther => Err UnknownPhase
  end.

(** The chain the phase carries over is there to carry. *)
Definition chain_there (phase : Phase) (opts : LayoutOptions) (f : Files) : Prop :=
  phase = PhaseRetire ∨ (phase = PhaseSettle ∧ lo_KeepChain opts = true ∧ lo_DropOld opts = false) →
  file_of f ChainFile ≠ [].

Definition filled (r : ring) : Prop :=
  ms_pem (rg_issuer r) ≠ [] ∧ ms_keyPEM (rg_issuer r) ≠ [] ∧
  (∀ n x, rg_next r = Some (n, x) → ms_keyPEM n ≠ []) ∧
  (∀ l, rg_left r = Some l → lf_pem l ≠ [] ∧ lf_role l ≠ RoleIssuer ∧
     (∀ k, lf_key l = Some k → k.1 ≠ []) ∧ (∀ x, lf_chain l = Some x → x.1 ≠ [])).

Lemma ring_ok_filled r : ring_ok r → filled r.
Proof.
  intros ([Hc Hk] & Hn & Hl). split; [by eapply holds_cert_some|]. split; [by eapply holds_key_some|]. split.
  - intros n x E. destruct (Hn n x E) as [[_ H] _]. by eapply holds_key_some.
  - intros l E. destruct (Hl l E) as (H1 & H2 & _ & H3 & H4). split; [by eapply holds_cert_some|]. split; [done|]. split.
    + intros k Ek. eapply holds_key_some, (H4 k Ek).
    + intros x Ex. eapply holds_cert_some, (H3 x Ex).
Qed.

(** Where every name is known, files agree by computation. *)
Ltac by_names := vm_compute; reflexivity.
Ltac decided :=
  repeat match goal with
  | |- context [bool_decide ?P] =>
      let b := eval vm_compute in (bool_decide P) in
      match b with true => idtac | false => idtac end; change (bool_decide P) with b
  end.
Ltac same_map :=
  apply map_eq; intros name; unfold files_of, keep_mps, role_file;
  cbn [rg_issuer rg_next rg_left lf_key lf_chain lf_pem lf_role fst];
  rewrite ?lookup_insert, ?lookup_singleton, ?lookup_empty;
  repeat (case_decide; [subst; by_names|]); done.
Ltac same_files := decided; cbn [result_fmap negb andb orb]; apply f_equal; same_map.

Lemma read_issuer r : (lf_role <$> rg_left r) ≠ Some RoleIssuer →
  files_of r !! IssuerCertFile = Some (ms_pem (rg_issuer r)) ∧ files_of r !! IssuerKeyFile = Some (ms_keyPEM (rg_issuer r)).
Proof.
  intros H. destruct r as [i [[n x]|] [[lp lc lr [ch|] [k|]]|]]; try (destruct lr; [by destruct H| | |]); split; by_names.
Qed.

Lemma read_next r :
  files_of r !! NextCertFile = ms_pem ∘ fst <$> rg_next r ∧ files_of r !! NextKeyFile = ms_keyPEM ∘ fst <$> rg_next r ∧
  files_of r !! NextCrossFile = fst ∘ snd <$> rg_next r.
Proof.
  destruct r as [i [[n x]|] [[lp lc lr [ch|] [k|]]|]]; try destruct lr; (split; [|split]); by_names.
Qed.

Lemma read_left r :
  files_of r !! PreviousCertFile = lf_pem <$> rg_left r ∧
  files_of r !! ChainFile = (l ← rg_left r; fst <$> lf_chain l) ∧
  files_of r !! PreviousKeyFile = (l ← rg_left r; fst <$> lf_key l) ∧
  files_of r !! MPSIssuerCertFile = (l ← rg_left r; (λ _, lf_pem l) <$> lf_key l) ∧
  files_of r !! MPSIssuerKeyFile = (l ← rg_left r; fst <$> lf_key l).
Proof.
  destruct r as [i [[n x]|] [[lp lc lr [ch|] [k|]]|]]; try destruct lr; repeat split; by_names.
Qed.

Lemma read_role r ro : ro ≠ RoleIssuer →
  files_of r !! role_file ro = (l ← rg_left r; if bool_decide (lf_role l = ro) then Some (lf_pem l) else None).
Proof.
  intros H. destruct r as [i [[n x]|] [[lp lc lr [ch|] [k|]]|]]; try destruct lr; destruct ro; try done; by_names.
Qed.

Lemma layout_refines phase opts r : filled r → chain_there phase opts (files_of r) →
  Layout (files_of r) phase opts = files_of <$> ring_layout phase opts r.
Proof.
  intros (H1 & H2 & H3 & H4) Hch.
  assert ((lf_role <$> rg_left r) ≠ Some RoleIssuer) as Hr.
  { destruct (rg_left r) as [l|]; [|done]. intros [= E]. by destruct (H4 l eq_refl) as (_ & ? & _). }
  destruct (read_issuer r Hr) as [R1 R2]. destruct (read_next r) as (R3 & R4 & R5).
  destruct (read_left r) as (R6 & R7 & R8 & R9 & R10).
  unfold Layout, fromKit, afterChangeover, empty_file. unfold chain_there in Hch. unfold file_of in *.
  rewrite ?R1, ?R2, ?R3, ?R4, ?R5, ?R6, ?R7, ?R8 in *. clear R1 R2 R3 R4 R5 R6 R7 R8 R9 R10 Hr.
  cbn [from_option id]. rewrite (bool_decide_false (ms_keyPEM _ = [])) by done.
  destruct r as [i nx lf]; cbn [rg_issuer rg_next rg_left] in *.
  destruct phase; cbn [ring_layout rg_issuer rg_next rg_left]; [done| | | | |done].
  1,3: destruct nx as [[n x]|]; cbn [fmap option_fmap option_map from_option id compose fst snd]; [|done];
    rewrite (bool_decide_false (ms_keyPEM n = [])) by (by eapply H3); destruct (lo_MPS opts); same_files.
  all: destruct lf as [[lp lc lr lch lk]|]; cbn [fmap option_fmap option_map from_option id lf_pem mbind option_bind lf_chain lf_key] in *; [|done];
    destruct (H4 _ eq_refl) as (H5 & H6 & H7 & H8); cbn in H5, H7, H8; rewrite (bool_decide_false (lp = [])) by done.
  - destruct lch as [ch|]; [|by destruct Hch; [left|]].
    destruct (lo_MPS opts), lk as [k|]; cbn [fmap option_fmap option_map from_option id].
    1,3: rewrite (bool_decide_false (k.1 = [])) by (by apply H7).
    all: same_files.
  - destruct lch as [ch|], (lo_KeepChain opts) eqn:E1, (lo_DropOld opts) eqn:E2; cbn [fmap option_fmap option_map from_option id].
    6: by destruct Hch; [right|].
    all: same_files.
Qed.

Lemma ring_layout_ok phase opts r r' : ring_ok r → ring_layout phase opts r = Ok r' → ring_ok r'.
Proof.
  intros (Hi & Hn & Hl) H.
  assert (∀ i, master_ok i → ring_ok (mk_ring i None None)) as Halone by (intros i ?; split; [done|]; by split).
  destruct phase; cbn in H; [injection H as <-; by apply Halone| | | | |done].
  1,3: destruct (rg_next r) as [[n x]|]; [|done]; injection H as <-; destruct (Hn _ _ eq_refl) as (Hm & Hx & Hc & Hd);
    (split; [done|]); (split; [done|]); intros l [= <-]; cbn; destruct Hi as [Hi Hk];
    split_and!; [done|done|by apply not_eq_sym|by intros ? [= <-]|intros k Ek; destruct (lo_MPS opts); [by injection Ek as <-|done]].
  all: destruct (rg_left r) as [l|]; [|done]; injection H as <-; destruct (Hl _ eq_refl) as (H1 & H2 & H3 & H4 & H5).
  - split; [done|]. split; [done|]. intros l' [= <-]. cbn. split_and!; try done.
    intros k Ek. destruct (lo_MPS opts); [|done]. by apply H5.
  - destruct (lo_DropOld opts); [by apply Halone|]. split; [done|]. split; [done|]. intros l' [= <-]. cbn.
    split_and!; try done. intros x Ex. destruct (lo_KeepChain opts); [|done]. by apply H4.
Qed.

Lemma ring_ok_role r : ring_ok r → (lf_role <$> rg_left r) ≠ Some RoleIssuer.
Proof. intros (_ & _ & H). destruct (rg_left r) as [l|]; [|done]. intros [= E]. by destruct (H l eq_refl) as (_ & ? & _). Qed.

Lemma kit_refines dr now r f : ring_ok r → NewKit dr now (files_of r) = Ok f →
  (∀ c, ParseCertificatePEM (file_of f NextCertFile) = Ok c → distinct (ms_cert (rg_issuer r)) c) →
  ∃ n x, let r' := mk_ring (rg_issuer r) (Some (n, x)) (rg_left r) in f = files_of r' ∧ ring_ok r'.
Proof.
  intros Hok HK Hfresh. pose proof Hok as ([Hc [Hk Hpub]] & Hn & Hl). pose proof (ring_ok_filled r Hok) as (_ & Hkey & Hnk & _).
  destruct (read_issuer r (ring_ok_role r Hok)) as [R1 R2]. destruct (read_next r) as (_ & R4 & _).
  unfold Authority.NewKit, empty_file, file_of in HK. rewrite R1, R2, R4 in HK. cbn [from_option id] in HK.
  rewrite (bool_decide_false (ms_keyPEM _ = [])) in HK by done.
  destruct (rg_next r) as [[n0 x0]|] eqn:En.
  { cbn [fmap option_fmap option_map compose fst from_option id] in HK.
    rewrite (bool_decide_false (ms_keyPEM n0 = [])) in HK by (by eapply Hnk). done. }
  cbn [fmap option_fmap option_map from_option id negb] in HK. change (bool_decide ([] = [])) with true in HK. cbn [negb] in HK.
  rewrite (holds_cert_parses _ _ Hc), Hk in HK. cbn [mbind result_bind] in HK.
  destruct (NewAuthority dr nextName now) as [[cp kp]|] eqn:Ha; [|done]. cbn [mbind result_bind] in HK.
  destruct (minted _ _ _ _ _ Ha) as (n & Hm & <- & <-). pose proof Hm as [Hnc _].
  rewrite (holds_cert_parses _ _ Hnc) in HK. cbn [mbind result_bind] in HK.
  destruct (CrossSign _ _ _ _) as [x|] eqn:Hx; [|done]. cbn [mbind result_bind] in HK.
  unfold Authority.CrossSign in Hx. destruct (dr_cross dr) as [s|]; [|done].
  destruct (CreateCertificate _ _ _ _) as [der|] eqn:Hcr; [|done]. injection Hx as <-.
  destruct (create_parses _ _ _ _ _ Hcr) as (xc & Hxp & Hxpub & Hxs). cbn in Hxs.
  injection HK as <-. exists n, (pem_Encode (mk_pem (lit "CERTIFICATE") der), xc). cbn zeta. split.
  - destruct r as [i nx lf]. cbn in En. subst nx.
    destruct lf as [[lp lc lr [ch|] [k|]]|]; try destruct lr; same_map.
  - split; [done|]. split; [|done]. intros n' x' [= <- <-]. cbn [fst snd rg_issuer rg_next].
    assert (crt_RawSubject (ms_cert n) ≠ []) by (destruct Hnc as (b & ? & _ & _ & Hb); by eapply subject_named).
    split_and!; [done|by apply encoded_cert| |].
    + split; [by apply Hxs|]. split; [done|]. by eapply create_signs.
    + apply Hfresh. unfold file_of. rewrite lookup_insert_ne by done. rewrite lookup_insert_ne by done.
      rewrite lookup_insert_eq. cbn. by apply holds_cert_parses.
Qed.

(** ** What the server makes of the files *)

(** The files as they are staged for the server. *)
Definition staged (f : Files) : dir := mk_dfile 256 <$> f.

Lemma staged_Some f n d : f !! n = Some d → staged f !! n = Some (mk_dfile 256 d).
Proof. intros H. unfold staged. by rewrite lookup_fmap, H. Qed.

Lemma staged_None f n : f !! n = None → staged f !! n = None.
Proof. intros H. unfold staged. by rewrite lookup_fmap, H. Qed.

Lemma load_one f n d c : f !! n = Some d → holds_cert d c → loadCerts (staged f) n = Ok [c].
Proof.
  intros Hf Hc. unfold Authority.loadCerts. rewrite (staged_Some _ _ _ Hf). cbn [df_data].
  pose proof (holds_cert_some _ _ Hc). destruct Hc as (b & rest & H1 & H2 & H3).
  destruct d as [|x d]; [done|]. cbn [length pem_certs]. rewrite H1, H3, H2. done.
Qed.

Lemma load_optional f n o : (∀ p c, o = Some (p, c) → holds_cert p c) → f !! n = (fst <$> (o : option (bytes * Certificate))) →
  loadOptionalCerts (staged f) n = Ok (match o with Some (_, c) => [c] | None => [] end).
Proof.
  intros Hc Hf. unfold Authority.loadOptionalCerts, fileExists. destruct o as [[p c]|].
  - cbn in Hf. rewrite (staged_Some _ _ _ Hf). change (bool_decide (is_Some (Some _))) with true. cbn iota.
    eapply load_one; [done|]. by apply Hc.
  - cbn in Hf. rewrite (staged_None _ _ Hf). by rewrite bool_decide_false by (by intros [? ?]).
Qed.

Lemma load_pair f cn kn p kp c k : f !! cn = Some p → f !! kn = Some kp → holds_cert p c → holds_key kp k c →
  loadKeyPair (staged f) cn kn = Ok (c, k).
Proof.
  intros Hp Hkp Hc [Hk Hpub]. unfold Authority.loadKeyPair. rewrite (load_one _ _ _ _ Hp Hc). cbn [mbind result_bind].
  unfold loadKey. rewrite (staged_Some _ _ _ Hkp). cbn [df_mode df_data].
  change (bool_decide (Z.land 256 keyFileForbiddenBit = 0)) with true. cbn [negb].
  rewrite Hk. cbn [mbind result_bind]. unfold publicKeysEqual. by rewrite bool_decide_true.
Qed.

Definition with_role (r : ring) (ro : Role) : list Certificate :=
  match rg_left r with Some l => if bool_decide (lf_role l = ro) then [lf_cert l] else [] | None => [] end.

Definition trust_of (r : ring) : TrustSet :=
  mk_trust (ms_cert (rg_issuer r)) (with_role r RoleAccepted) (with_role r RoleRenewOnly) (with_role r RoleVouchedOnly).

Definition trusted (r : ring) : list (Certificate * Role) :=
  (ms_cert (rg_issuer r), RoleIssuer) :: match rg_left r with Some l => [(lf_cert l, lf_role l)] | None => [] end.

Definition mps_of (r : ring) : Certificate * Signer :=
  match rg_left r with
  | Some (mk_left _ c _ _ (Some k)) => (c, k.2)
  | _ => (ms_cert (rg_issuer r), ms_key (rg_issuer r))
  end.

Definition chain_of (r : ring) : list Certificate :=
  match rg_left r with Some (mk_left _ _ _ (Some x) _) => [x.2] | _ => [] end.

Definition loaded_of (r : ring) : Loaded :=
  mk_loaded (trust_of r) (ms_key (rg_issuer r)) (chain_of r) (mps_of r).1 (mps_of r).2.

(** All but the chain. *)
Definition keys_ok (r : ring) : Prop :=
  master_ok (rg_issuer r) ∧
  (∀ l, rg_left r = Some l → holds_cert (lf_pem l) (lf_cert l) ∧ lf_role l ≠ RoleIssuer ∧
     (∀ k, lf_key l = Some k → holds_key k.1 k.2 (lf_cert l))).

Lemma ring_ok_keys r : ring_ok r → keys_ok r.
Proof. intros (H & _ & Hl). split; [done|]. intros l E. by destruct (Hl l E) as (? & ? & _ & _ & ?). Qed.

Lemma keys_ok_role r : keys_ok r → (lf_role <$> rg_left r) ≠ Some RoleIssuer.
Proof. intros [_ H]. destruct (rg_left r) as [l|]; [|done]. intros [= E]. by destruct (H l eq_refl) as (_ & ? & _). Qed.

Lemma load_role r ro : keys_ok r → ro ≠ RoleIssuer → loadOptionalCerts (staged (files_of r)) (role_file ro) = Ok (with_role r ro).
Proof.
  intros [_ Hl] Hro. unfold with_role.
  rewrite (load_optional (files_of r) (role_file ro)
    (l ← rg_left r; if bool_decide (lf_role l = ro) then Some (lf_pem l, lf_cert l) else None)).
  - f_equal. destruct (rg_left r) as [l|]; [|done]. cbn. by case_bool_decide.
  - intros p c H. destruct (rg_left r) as [l|]; [|done]. cbn in H. case_bool_decide; [|done].
    injection H as <- <-. by destruct (Hl l eq_refl).
  - rewrite (read_role r ro Hro). destruct (rg_left r) as [l|]; [|done]. cbn. by case_bool_decide.
Qed.

Lemma authorities_of r : (lf_role <$> rg_left r) ≠ Some RoleIssuer →
  authorities sha384 (trust_of r) = (λ cr, authority cr.1 cr.2) <$> trusted r.
Proof.
  intros H. destruct r as [i nx [[lp lc [] lch lk]|]]; [by destruct H| | | |]; done.
Qed.

Lemma trust_valid r : ring_ok r → validate_trust sha384 CheckSignatureFrom (trust_of r) (chain_of r) = Ok tt.
Proof.
  intros Hok. pose proof (authorities_of r (ring_ok_role r Hok)) as Ha. destruct Hok as (_ & _ & Hl).
  unfold validate_trust. rewrite Ha. unfold trusted, chain_of.
  destruct (rg_left r) as [l|] eqn:El; [|by cbn [fmap list_fmap two_roles]; rewrite bool_decide_false by set_solver].
  destruct (Hl l eq_refl) as (_ & Hro & Hd & Hx & _). cbn [fmap list_fmap two_roles fst snd Admission.authority au_Hash].
  rewrite bool_decide_false by set_solver. rewrite bool_decide_false by (rewrite elem_of_union, elem_of_singleton; intros [E|E]; [by apply Hd|by apply not_elem_of_empty in E]).
  destruct l as [lp lc lr [x|] lk]; [|done]. cbn [lf_cert lf_role lf_chain] in *.
  destruct (Hx x eq_refl) as (_ & Hs & Hp & Hsig). cbn [validate_chain].
  rewrite (bool_decide_true (crt_RawSubject _ = _)), (bool_decide_true (crt_RawSubjectPublicKeyInfo _ = _)) by done. cbn [andb negb].
  unfold signedByTrusted. rewrite Ha. unfold trusted. rewrite El. cbn [fmap list_fmap existsb fst snd Admission.authority au_Role au_Cert].
  rewrite (bool_decide_false (lr = _)) by done. cbn [negb andb lf_cert]. rewrite Hsig. by rewrite orb_true_r.
Qed.

Definition read_chain (r : ring) : result auth_err (list Certificate) := loadOptionalCerts (staged (files_of r)) ChainFile.

Lemma ring_reads r : keys_ok r →
  readTrustSet (staged (files_of r)) =
    chain ← read_chain r;
    match validate_trust sha384 CheckSignatureFrom (trust_of r) chain with
    | Err e => Err (BadTrust e)
    | Ok _ => Ok (mk_loaded (trust_of r) (ms_key (rg_issuer r)) chain (mps_of r).1 (mps_of r).2)
    end.
Proof.
  intros Hok. pose proof Hok as ([Hc Hk] & Hl). destruct (read_issuer r (keys_ok_role r Hok)) as [R1 R2].
  destruct (read_left r) as (_ & _ & _ & R9 & R10).
  unfold Authority.readTrustSet. rewrite (load_pair _ _ _ _ _ _ _ R1 R2 Hc Hk). cbn [mbind result_bind].
  assert ((if fileExists (staged (files_of r)) MPSIssuerCertFile
           then loadKeyPair (staged (files_of r)) MPSIssuerCertFile MPSIssuerKeyFile
           else Ok (ms_cert (rg_issuer r), ms_key (rg_issuer r))) = Ok (mps_of r)) as ->.
  { unfold fileExists, mps_of. destruct (rg_left r) as [[lp lc lr lch [k|]]|];
      cbn [mbind option_bind fmap option_fmap option_map lf_key lf_pem] in R9, R10.
    - rewrite (staged_Some _ _ _ R9). change (bool_decide (is_Some (Some _))) with true. cbn iota.
      destruct (Hl _ eq_refl) as (H1 & _ & H5). by rewrite (load_pair _ _ _ _ _ _ _ R9 R10 H1 (H5 k eq_refl)).
    - rewrite (staged_None _ _ R9). by rewrite bool_decide_false by (by intros [? ?]).
    - rewrite (staged_None _ _ R9). by rewrite bool_decide_false by (by intros [? ?]). }
  cbn [mbind result_bind].
  rewrite (load_role r RoleAccepted Hok ltac:(done) : loadOptionalCerts _ AcceptedFile = _). cbn [mbind result_bind].
  rewrite (load_role r RoleRenewOnly Hok ltac:(done) : loadOptionalCerts _ RenewOnlyFile = _). cbn [mbind result_bind].
  rewrite (load_role r RoleVouchedOnly Hok ltac:(done) : loadOptionalCerts _ VouchedOnlyFile = _). done.
Qed.

Lemma ring_chain r : ring_ok r → read_chain r = Ok (chain_of r).
Proof.
  intros (_ & _ & Hl). destruct (read_left r) as (_ & R7 & _).
  unfold read_chain, chain_of. rewrite (load_optional _ ChainFile (l ← rg_left r; lf_chain l)).
  - by destruct (rg_left r) as [[lp lc lr [[x xc]|] lk]|].
  - intros p c H. destruct (rg_left r) as [l|]; [|done]. destruct (Hl l eq_refl) as (_ & _ & _ & H4 & _).
    by destruct (H4 _ H).
  - rewrite R7. by destruct (rg_left r) as [l|].
Qed.

Lemma ring_loads r : ring_ok r → readTrustSet (staged (files_of r)) = Ok (loaded_of r).
Proof.
  intros Hok. rewrite (ring_reads r (ring_ok_keys r Hok)), (ring_chain r Hok). cbn [mbind result_bind].
  by rewrite (trust_valid r Hok).
Qed.

(** ** Runs of the tool *)

(** A new cluster's key, or one moved out of the shared secret. *)
Inductive founded (f : Files) : Prop :=
  | founded_init dr now : Init dr now ∅ = Ok f → founded f
  | founded_adopt legacy c k : Adopt ∅ legacy = Ok (f, true) →
      holds_cert (file_of legacy IssuerCertFile) c → holds_key (file_of legacy IssuerKeyFile) k c → founded f.

(** A kit is new: its certificate is not the issuer's. *)
Definition fresh_kit (f f' : Files) : Prop :=
  ∀ a b, ParseCertificatePEM (file_of f IssuerCertFile) = Ok a → ParseCertificatePEM (file_of f' NextCertFile) = Ok b →
    distinct a b.

Inductive tool_step (f f' : Files) : Prop :=
  | tool_kit dr now : NewKit dr now f = Ok f' → fresh_kit f f' → tool_step f f'
  | tool_layout phase opts : Layout f phase opts = Ok f' → chain_there phase opts f → tool_step f f'.

Lemma founded_ring f : founded f → ∃ r, f = files_of r ∧ ring_ok r.
Proof.
  assert (∀ m, master_ok m → ring_ok (mk_ring m None None)) as Halone by (intros m ?; split; [done|]; by split).
  intros [dr now H|legacy c k H Hc Hk].
  - unfold Authority.Init in H. change (empty_file ∅ IssuerKeyFile) with true in H. cbn [negb] in H.
    destruct (NewAuthority dr issuerName now) as [[cp kp]|] eqn:E; [|done]. injection H as <-.
    destruct (minted _ _ _ _ _ E) as (m & Hm & <- & <-). exists (mk_ring m None None). split; [done|by apply Halone].
  - unfold Adopt in H. change (empty_file ∅ IssuerKeyFile) with true in H. cbn [negb] in H.
    destruct (_ || _); [done|]. injection H as <-.
    exists (mk_ring (mk_master (file_of legacy IssuerCertFile) c (file_of legacy IssuerKeyFile) k) None None).
    split; [same_map|]. by apply Halone.
Qed.

Lemma step_ring f f' : (∃ r, f = files_of r ∧ ring_ok r) → tool_step f f' → ∃ r, f' = files_of r ∧ ring_ok r.
Proof.
  intros (r & -> & Hok) [dr now H Hf|phase opts H Hch].
  - destruct (kit_refines _ _ _ _ Hok H) as (n & x & -> & Hok'); [|by eexists].
    intros c Hc. apply Hf; [|done]. unfold file_of. destruct (read_issuer r (ring_ok_role r Hok)) as [R1 _].
    rewrite R1. apply holds_cert_parses. by destruct Hok as [[? _] _].
  - rewrite (layout_refines _ _ _ (ring_ok_filled r Hok) Hch) in H.
    destruct (ring_layout phase opts r) as [r'|] eqn:E; [|done]. injection H as <-.
    exists r'. split; [done|]. by eapply ring_layout_ok.
Qed.

Lemma run_ring f0 f : founded f0 → rtc tool_step f0 f → ∃ r, f = files_of r ∧ ring_ok r.
Proof.
  intros H0 Hrun. apply founded_ring in H0. induction Hrun as [f|f f' f'' Hs _ IH]; [done|].
  apply IH. by eapply step_ring.
Qed.

(** The phases as they are documented: which key of the layout before is trusted,
    and for what. *)
Definition table (phase : Phase) (opts : LayoutOptions) : list (bytes * Role) :=
  match phase with
  | PhaseSteady => [(IssuerCertFile, RoleIssuer)]
  | PhaseChangeover => [(NextCertFile, RoleIssuer); (IssuerCertFile, RoleAccepted)]
  | PhaseEmergency => [(NextCertFile, RoleIssuer); (IssuerCertFile, RoleVouchedOnly)]
  | PhaseRetire => [(IssuerCertFile, RoleIssuer); (PreviousCertFile, RoleRenewOnly)]
  | PhaseSettle =>
      (IssuerCertFile, RoleIssuer) :: if lo_DropOld opts then [] else [(PreviousCertFile, RoleRenewOnly)]
  | PhaseOther => []
  end.

(** The key Intel AMT's certificate is signed with. *)
Definition mps_table (phase : Phase) (opts : LayoutOptions) (f : Files) : bytes :=
  match phase with
  | PhaseChangeover | PhaseEmergency => if bool_decide (lo_MPS opts = MPSNew) then NextCertFile else IssuerCertFile
  | PhaseRetire =>
      if bool_decide (lo_MPS opts = MPSNew) || empty_file f PreviousKeyFile then IssuerCertFile else PreviousCertFile
  | _ => IssuerCertFile
  end.

Definition in_file (f : Files) (name : bytes) (c : Certificate) : Prop := ParseCertificatePEM (file_of f name) = Ok c.

Lemma layout_table phase opts r r' : ring_ok r → ring_layout phase opts r = Ok r' →
  Forall2 (λ fr cr, in_file (files_of r) fr.1 cr.1 ∧ cr.2 = fr.2) (table phase opts) (trusted r') ∧
  in_file (files_of r) (mps_table phase opts (files_of r)) (mps_of r').1.
Proof.
  intros Hok H. pose proof (ring_ok_filled r Hok) as (_ & _ & _ & Hfl).
  destruct (read_issuer r (ring_ok_role r Hok)) as [R1 _]. destruct (read_next r) as (R3 & _ & _).
  destruct (read_left r) as (R6 & _ & R8 & _). destruct Hok as ([Hc _] & Hn & Hl).
  assert (in_file (files_of r) IssuerCertFile (ms_cert (rg_issuer r))) as Fi.
  { unfold in_file, file_of. rewrite R1. by apply holds_cert_parses. }
  assert (∀ n x, rg_next r = Some (n, x) → in_file (files_of r) NextCertFile (ms_cert n)) as Fn.
  { intros n x E. unfold in_file, file_of. rewrite R3, E. apply holds_cert_parses. by destruct (Hn n x E) as [[? _] _]. }
  assert (∀ l, rg_left r = Some l → in_file (files_of r) PreviousCertFile (lf_cert l)) as Fl.
  { intros l E. unfold in_file, file_of. rewrite R6, E. apply holds_cert_parses. by destruct (Hl l E). }
  destruct phase; cbn [ring_layout table mps_table] in *; [by injection H as <-; repeat constructor| | | | |done].
  1,3: destruct (rg_next r) as [[n x]|]; [|done]; injection H as <-; specialize (Fn _ _ eq_refl);
    (split; [by repeat constructor|]); destruct (lo_MPS opts); done.
  all: destruct (rg_left r) as [l|]; [|done]; injection H as <-; specialize (Fl _ eq_refl).
  - split; [by repeat constructor|]. unfold empty_file, file_of. rewrite R8. cbn [mbind option_bind].
    destruct (lo_MPS opts); [|done]. destruct (Hfl l eq_refl) as (_ & _ & Hk & _). unfold mps_of. cbn [rg_left].
    change (bool_decide (MPSOld = MPSNew)) with false. cbn [orb]. destruct (lf_key l) as [k|]; [|done].
    cbn [fmap option_fmap option_map from_option id]. by rewrite bool_decide_false by (by apply Hk).
  - destruct (lo_DropOld opts); by repeat constructor.
Qed.

(** A key that leaked is only loaded with the date of the leak. *)
Definition undated (r : ring) (since : time) : Prop :=
  (lf_role <$> rg_left r) = Some RoleVouchedOnly ∧ since = zero_time.

Lemma vouched_of r : ts_vouchedOnly (trust_of r) = [] ↔ (lf_role <$> rg_left r) ≠ Some RoleVouchedOnly.
Proof. destruct r as [i nx [[lp lc [] lch lk]|]]; done. Qed.

Lemma ring_start r dr now writes since grace : ring_ok r →
  start true dr now writes since grace (staged (files_of r)) =
    if bool_decide (undated r since) then Err (BadTrust NoCompromiseDate)
    else Ok (loaded_of r, mk_manager (ms_cert (rg_issuer r)) ((λ cr, authority cr.1 cr.2) <$> trusted r) since grace).
Proof.
  intros Hok. destruct (read_issuer r (ring_ok_role r Hok)) as [R1 R2].
  unfold Authority.start, LoadTrustSet, fileExists. rewrite (staged_Some _ _ _ R1), (staged_Some _ _ _ R2).
  change (bool_decide (is_Some (Some _))) with true. cbn [negb andb fst]. rewrite (ring_loads r Hok).
  unfold NewManager. cbn [ld_set ld_chain loaded_of]. rewrite (trust_valid r Hok). cbn [mbind result_bind].
  rewrite (authorities_of r (ring_ok_role r Hok)). unfold undated. pose proof (vouched_of r) as Hv.
  rewrite bool_decide_and. rewrite <-bool_decide_not.
  rewrite (bool_decide_ext (ts_vouchedOnly (trust_of r) ≠ []) ((lf_role <$> rg_left r) = Some RoleVouchedOnly)).
  - by destruct (bool_decide _ && _).
  - rewrite Hv. split; [apply dec_stable|tauto].
Qed.

(** Only the emergency phase leaves a leaked key. *)
Lemma table_undated phase opts f r since :
  Forall2 (λ fr cr, in_file f fr.1 cr.1 ∧ cr.2 = fr.2) (table phase opts) (trusted r) →
  undated r since ↔ phase = PhaseEmergency ∧ since = zero_time.
Proof.
  unfold undated, trusted. intros Ht. destruct phase; cbn [table] in Ht; try (destruct (lo_DropOld opts));
    inversion Ht as [|? ? ? ? _ Ht']; subst; destruct (rg_left r) as [l|]; inversion Ht' as [|? ? ? ? [_ E] _]; subst;
    cbn in *; rewrite ?E; intuition congruence.
Qed.

Lemma layout_starts f0 f f' phase opts dr now writes since grace : founded f0 → rtc tool_step f0 f →
  Layout f phase opts = Ok f' → chain_there phase opts f →
  ∃ r, ring_ok r ∧ start true dr now writes since grace (staged f') =
      (if bool_decide (phase = PhaseEmergency ∧ since = zero_time) then Err (BadTrust NoCompromiseDate)
       else Ok (loaded_of r, mk_manager (ms_cert (rg_issuer r)) ((λ cr, authority cr.1 cr.2) <$> trusted r) since grace)) ∧
    Forall2 (λ fr cr, in_file f fr.1 cr.1 ∧ cr.2 = fr.2) (table phase opts) (trusted r) ∧
    in_file f (mps_table phase opts f) (mps_of r).1.
Proof.
  intros H0 Hrun HL Hch. destruct (run_ring _ _ H0 Hrun) as (r & -> & Hok).
  rewrite (layout_refines _ _ _ (ring_ok_filled r Hok) Hch) in HL.
  destruct (ring_layout phase opts r) as [r'|] eqn:E; [|done]. injection HL as <-.
  pose proof (ring_layout_ok _ _ _ _ Hok E) as Hok'. exists r'. split; [done|].
  destruct (layout_table _ _ _ _ Hok E) as [Ht Hm]. split; [|done]. rewrite ring_start by done.
  by rewrite (bool_decide_ext _ _ (table_undated _ _ _ _ since Ht)).
Qed.


(** How a role stands while neither the machine's certificate nor the key has
    expired. *)
Definition standing_of (ro : Role) : Standing :=
  match ro with
  | RoleIssuer | RoleAccepted => StandingFull
  | RoleRenewOnly => StandingRenewOnly
  | RoleVouchedOnly => StandingNeedsVoucher
  end.

Lemma trusted_find r c ro : ring_ok r → (c, ro) ∈ trusted r →
  List.find (λ a, bool_decide (crt_Raw (au_Cert a) = crt_Raw c)) ((λ cr, authority cr.1 cr.2) <$> trusted r) =
    Some (authority c ro).
Proof.
  intros (_ & _ & Hl). unfold trusted. destruct (rg_left r) as [l|].
  - destruct (Hl l eq_refl) as (_ & _ & Hd & _). intros [[= -> ->]|[[= -> ->]|[]%elem_of_nil]%elem_of_cons]%elem_of_cons.
    + cbn. by rewrite bool_decide_true.
    + cbn. rewrite bool_decide_false; [by rewrite bool_decide_true|]. intros E. apply Hd. by rewrite E.
  - intros [= -> ->]%list_elem_of_singleton. cbn. by rewrite bool_decide_true.
Qed.

Section standing.
Context (uuid_Parse : bytes → option uuid).
Context (Verify : Certificate → list Certificate → time → option (list Certificate)).

(** A leaf that [a] signed and no other key did. *)
Definition issued_by (leaf a : Certificate) : Prop :=
  ∀ roots, Verify leaf roots (verification_time leaf) = if bool_decide (a ∈ roots) then Some [leaf; a] else None.

Lemma classify_trusted r since grace leaf rest a id ro now : ring_ok r → issued_by leaf a →
  uuid_Parse (crt_CommonName leaf) = Some id → (a, ro) ∈ trusted r →
  crt_NotBefore leaf ≤ now ≤ crt_NotAfter leaf → now ≤ crt_NotAfter a →
  Classify uuid_Parse Verify
    (mk_manager (ms_cert (rg_issuer r)) ((λ cr, authority cr.1 cr.2) <$> trusted r) since grace) now (leaf :: rest) =
  Ok (mk_class id leaf (authority a ro) (standing_of ro) false).
Proof.
  intros Hok Hv Hid Hin [Hn1 Hn2] Hn3. unfold Classify. rewrite Hid. rewrite (bool_decide_false (now < _)) by lia.
  unfold verifyAtIssuance. rewrite Hv. rewrite bool_decide_true.
  2:{ unfold pool. cbn [m_authorities]. apply list_elem_of_fmap. exists (authority a ro). split; [done|].
    apply list_elem_of_fmap. by exists (a, ro). }
  cbn [last length]. rewrite (bool_decide_false (_ < 2)%nat) by (cbn; lia). cbn [m_authorities].
  rewrite (trusted_find r a ro Hok Hin). cbn [mbind result_bind].
  assert (now ≤ expiry_of leaf (authority a ro)) by (unfold expiry_of; cbn; case_bool_decide; lia).
  rewrite (bool_decide_false (expiry_of _ _ < now)) by lia. cbn [andb orb Admission.authority au_Role].
  do 2 f_equal. by destruct ro.
Qed.

Lemma classify_untrusted r since grace leaf rest a id now : issued_by leaf a →
  uuid_Parse (crt_CommonName leaf) = Some id → (∀ ro, (a, ro) ∉ trusted r) →
  Classify uuid_Parse Verify
    (mk_manager (ms_cert (rg_issuer r)) ((λ cr, authority cr.1 cr.2) <$> trusted r) since grace) now (leaf :: rest) =
  Err ErrUnacceptable.
Proof.
  intros Hv Hid Hout. unfold Classify. rewrite Hid. case_bool_decide; [done|].
  unfold verifyAtIssuance. rewrite Hv. rewrite bool_decide_false; [done|].
  unfold pool. cbn [m_authorities]. rewrite list_elem_of_fmap. intros (au & -> & Hin).
  apply list_elem_of_fmap in Hin as ([c ro] & -> & Hin). by apply (Hout ro).
Qed.

(** A machine whose certificate a master key signed, neither expired, stands with a
    server started on a layout as the key's role in the phase says: in full under the
    issuer or an accepted key, only to renew under a retired one, only with a voucher
    under a leaked one; under a key the phase does not name it is refused. *)
Theorem standing_follows_phase f0 f f' phase opts dr now writes since grace ld m leaf rest a id :
  founded f0 → rtc tool_step f0 f → Layout f phase opts = Ok f' → chain_there phase opts f →
  start true dr now writes since grace (staged f') = Ok (ld, m) →
  issued_by leaf a → uuid_Parse (crt_CommonName leaf) = Some id →
  crt_NotBefore leaf ≤ now ≤ crt_NotAfter leaf → now ≤ crt_NotAfter a →
  (∀ file ro, (file, ro) ∈ table phase opts → in_file f file a →
     ∃ class, Classify uuid_Parse Verify m now (leaf :: rest) = Ok class ∧ cl_DeviceID class = id ∧
              cl_Standing class = standing_of ro) ∧
  ((∀ file ro, (file, ro) ∈ table phase opts → ¬ in_file f file a) →
     Classify uuid_Parse Verify m now (leaf :: rest) = Err ErrUnacceptable).
Proof.
  intros H0 Hrun HL Hch Hst Hv Hid Hn1 Hn2.
  destruct (layout_starts _ _ _ _ _ dr now writes since grace H0 Hrun HL Hch) as (r & Hok & Hst' & Ht & _).
  rewrite Hst in Hst'. destruct (bool_decide _); [done|].
  apply (f_equal (λ x, match x with Ok y => y.2 | Err _ => m end)) in Hst'. cbn [snd] in Hst'. rewrite Hst'. split.
  - intros file ro Hin Hf. apply list_elem_of_lookup_1 in Hin as [i Hi].
    destruct (Forall2_lookup_l _ _ _ _ _ Ht Hi) as ([c ro'] & Hj & Hc & E). cbn in Hc, E. subst ro'.
    unfold in_file in Hc, Hf. rewrite Hf in Hc. injection Hc as <-.
    eexists. split; [by apply (classify_trusted r since grace leaf rest a id ro now Hok Hv Hid (list_elem_of_lookup_2 _ _ _ Hj))|]. done.
  - intros Hout. apply (classify_untrusted _ _ _ _ _ a id); [done..|]. intros ro Hin.
    apply list_elem_of_lookup_1 in Hin as [i Hi]. destruct (Forall2_lookup_r _ _ _ _ _ Ht Hi) as ([file ro'] & Hj & Hc & _).
    eapply Hout; [by eapply list_elem_of_lookup_2|done].
Qed.
End standing.

(** ** A chain that is not there *)

Lemma retire_unchained opts r l c : filled r → rg_left r = Some l → lf_chain l = None →
  Layout (files_of r) PhaseRetire opts =
    Ok (files_of (mk_ring (rg_issuer r) None (Some (mk_left (lf_pem l) (lf_cert l) RoleRenewOnly (Some ([], c))
          (if bool_decide (lo_MPS opts = MPSNew) then None else lf_key l))))).
Proof.
  intros (H1 & H2 & H3 & H4) El Hch.
  assert ((lf_role <$> rg_left r) ≠ Some RoleIssuer) as Hr.
  { rewrite El. intros [= E]. by destruct (H4 l El) as (_ & ? & _). }
  destruct (read_issuer r Hr) as [R1 R2]. destruct (read_left r) as (R6 & R7 & R8 & _).
  destruct (H4 l El) as (H5 & _ & H7 & _). rewrite El in R6, R7, R8. cbn [mbind option_bind] in R7, R8. rewrite Hch in R7.
  unfold Layout, afterChangeover, empty_file, file_of. rewrite R1, R2, R6, R7, R8.
  cbn [from_option id fmap option_fmap option_map]. rewrite (bool_decide_false (ms_keyPEM _ = [])), (bool_decide_false (lf_pem l = [])) by done.
  destruct (lo_MPS opts), (lf_key l) as [k|]; cbn [fmap option_fmap option_map from_option id].
  1,3: rewrite (bool_decide_false (k.1 = [])) by (by apply H7).
  all: same_files.
Qed.

(** Settling without keeping the chain and then laying out the retired phase again,
    which the tool accepts, writes an empty chain file, on which the server refuses to
    start. *)
Theorem retire_after_settle_unloadable f0 f f1 opts opts' dr now writes since grace :
  founded f0 → rtc tool_step f0 f → lo_KeepChain opts = false → lo_DropOld opts = false →
  Layout f PhaseSettle opts = Ok f1 →
  ∃ f2, Layout f1 PhaseRetire opts' = Ok f2 ∧
    start true dr now writes since grace (staged f2) = Err (NoCertIn ChainFile).
Proof.
  intros H0 Hrun Hk Hd HL. destruct (run_ring _ _ H0 Hrun) as (r & -> & Hok).
  assert (chain_there PhaseSettle opts (files_of r)) as Hch.
  { intros [?|(_ & ? & _)]; [done|congruence]. }
  rewrite (layout_refines _ _ _ (ring_ok_filled r Hok) Hch) in HL.
  destruct (ring_layout PhaseSettle opts r) as [r1|] eqn:E; [|done]. injection HL as <-.
  pose proof (ring_layout_ok _ _ _ _ Hok E) as Hok1. cbn in E. rewrite Hk, Hd in E.
  destruct (rg_left r) as [l|]; [|done]. injection E as <-.
  eexists. split; [exact (retire_unchained opts' _ _ (lf_cert l) (ring_ok_filled _ Hok1) eq_refl eq_refl)|].
  set (r2 := mk_ring _ _ _). assert (keys_ok r2) as Hk2.
  { destruct (ring_ok_keys _ Hok1) as [Hi Hl]. split; [done|]. intros l2 [= <-]. cbn.
    destruct (Hl _ eq_refl) as (? & ? & ?). split; [done|]. split; [done|]. intros k. by case_bool_decide. }
  destruct (read_issuer r2 (keys_ok_role r2 Hk2)) as [R1 R2]. destruct (read_left r2) as (_ & R7 & _).
  unfold Authority.start, LoadTrustSet, fileExists. rewrite (staged_Some _ _ _ R1), (staged_Some _ _ _ R2).
  change (bool_decide (is_Some (Some _))) with true. cbn [negb andb fst]. rewrite (ring_reads r2 Hk2).
  unfold read_chain, Authority.loadOptionalCerts, fileExists, Authority.loadCerts.
  rewrite (staged_Some _ _ [] R7). change (bool_decide (is_Some (Some _))) with true. cbn [df_data length pem_certs].
  by rewrite pem_nothing.
Qed.
End rotation.

(** ** Moving the key out of the shared secret *)

Section moving.
Context {Signer : Type}.
Context (pem_Encode : pem_block → bytes) (pem_Decode : bytes → option (pem_block * bytes)).
Context (ParseCertificate : bytes → option Certificate) (sha384 : bytes → bytes).
(** The secret of the tool, the one the key is moved out of, and the key. *)
Context (own shared K : bytes) (own_shared : own ≠ shared).

Local Abbreviation adopt := (adopt pem_Encode pem_Decode ParseCertificate sha384).
Local Abbreviation inspect := (inspect pem_Encode pem_Decode ParseCertificate sha384).

Definition key_in (w : cluster) (name : bytes) : bytes := default [] ((λ s, file_of (st_data s) IssuerKeyFile) <$> w !! name).

Definition has_K (f : Files) : bool := bool_decide (file_of f IssuerKeyFile = K).

(** What a job learns of its own secret from a call. *)
Definition learns {R} (c : kcall R) (r : R) : bool :=
  match c in kcall R return R → bool with
  | KGet name => λ r, match r with Ok (Some (_, f)) => bool_decide (name = own) && has_K f | _ => false end
  | KPut _ _ _ | KPost _ _ => is_ok
  | KPatch _ _ => λ _, false
  end r.

(** What it may ask for: to write the key into its own secret, and to remove it from
    the other once it knows the key is in its own. *)
Definition may {R} (c : kcall R) (known : bool) : Prop :=
  match c with
  | KGet _ => True
  | KPut name _ f | KPost name f => name = own ∧ has_K f = true
  | KPatch name _ => known = true ∧ name = shared
  end.

Fixpoint careful {A} (p : job A) (known : bool) : Prop :=
  match p with
  | Ret _ => True
  | Do c k => may c known ∧ ∀ r, careful (k r) (known || learns c r)
  | Panic => True
  end.

Lemma careful_bind {A B} (p : job A) (k : A → job B) b :
  careful p b → (∀ a b', careful (k a) b') → careful (p ≫= k) b.
Proof.
  intros Hp Hk. revert b Hp. induction p as [a|R c k' IH|]; intros b Hp; [apply Hk| |done].
  destruct Hp as [Hm Hr]. split; [done|]. intros r. by apply IH.
Qed.

(** Reading teaches, writing teaches; the rest of the job goes on with what it
    knows. *)
Lemma careful_read {A} (k : option Files → job (result auth_err A)) b :
  (∀ f, careful (k (Some f)) (b || has_K f)) → careful (k None) b →
  careful (and_then (Read own) k) b.
Proof.
  intros H1 H2. split; [done|]. intros [[[v f]|]|e]; cbn; rewrite ?orb_false_r; [|done|done].
  by rewrite bool_decide_true.
Qed.

Lemma careful_known {A} (p : job A) b : careful p b → careful p true.
Proof.
  revert b. induction p as [a|R c k IH|]; intros b Hp; [done| |done]. destruct Hp as [Hm Hr]. split.
  - destruct c; cbn in *; [done|done|done|]. by destruct Hm.
  - intros r. cbn. eapply IH, Hr.
Qed.

Lemma careful_write {A} f (k : unit → job (result auth_err A)) b :
  has_K f = true → careful (k tt) true → careful (and_then (Write own f) k) b.
Proof.
  intros Hf Hk. split; [done|]. intros [[[v f']|]|e]; cbn; [| |done].
  all: split; [done|]; intros [[]|e]; cbn; [|done]; rewrite orb_true_r.
  all: split; [done|]; intros [[[v' g]|]|e]; cbn; [|done|done].
  all: by destruct (List.find _ _).
Qed.

Lemma legacy_key d : file_of (readLegacy d) IssuerKeyFile ∈ [K; []] → empty_file (readLegacy d) IssuerKeyFile = false →
  file_of (readLegacy d) IssuerKeyFile = K.
Proof. unfold empty_file. intros H E. apply bool_decide_eq_false in E. apply elem_of_cons in H as [H|H%list_elem_of_singleton]; done. Qed.

Lemma moved_careful d f : file_of (readLegacy d) IssuerKeyFile ∈ [K; []] → empty_file f IssuerKeyFile = true →
  careful
    (match Adopt f (readLegacy d) with
     | Err e => Ret (Err e)
     | Ok (files, adopted) =>
         and_then (if adopted then Write own files else Ret (Ok tt)) (λ _,
         if empty_file (readLegacy d) IssuerKeyFile then print pem_Encode pem_Decode ParseCertificate sha384 files
         else if negb (bool_decide (file_of (readLegacy d) IssuerKeyFile = file_of files IssuerKeyFile)) then Ret (Err KeysDiffer)
         else and_then (RemoveKeys shared [IssuerCertFile; IssuerKeyFile])
                (λ _, print pem_Encode pem_Decode ParseCertificate sha384 files))
     end) false.
Proof.
  intros HK Ef. unfold Adopt. rewrite Ef. cbn [negb].
  destruct (_ || _) eqn:Ee; [done|]. apply orb_false_iff in Ee as [Ee _]. pose proof (legacy_key d HK Ee) as Hk.
  assert (∀ m : Files, file_of (<[IssuerKeyFile := K]> m) IssuerKeyFile = K) as Hins.
  { intros m. unfold file_of. by rewrite lookup_insert_eq. }
  rewrite Hk. apply careful_write; [unfold has_K; by rewrite Hins, bool_decide_true|].
  rewrite Ee, Hins, bool_decide_true by done. cbn [negb]. split; [done|]. by intros [[]|].
Qed.

Lemma adopt_careful d : (∀ d', d = Some d' → file_of (readLegacy d') IssuerKeyFile ∈ [K; []]) →
  careful (adopt own d shared) false.
Proof.
  intros HK. unfold Authority.adopt. destruct d as [d|]; [|done]. specialize (HK d eq_refl).
  apply careful_read; [intros f|by apply moved_careful]. cbn [from_option id orb].
  destruct (empty_file f IssuerKeyFile) eqn:Ef.
  - destruct (has_K f); [eapply careful_known|]; by apply moved_careful.
  - unfold Adopt. rewrite Ef. cbn [negb]. destruct (empty_file (readLegacy d) IssuerKeyFile) eqn:Ee; [done|].
    rewrite (legacy_key d HK Ee). case_bool_decide as E; [|done]. split; [|by intros [[]|]]. split; [|done].
    unfold has_K. by rewrite bool_decide_true.
Qed.

Lemma inspect_careful : careful (inspect own) false.
Proof. apply careful_read; [intros f|]; done. Qed.

(** The key is in one of the two secrets, and a job that knows it to be in its own is
    right. *)
Definition key_kept (w : cluster) : Prop := key_in w shared = K ∨ key_in w own = K.

Definition jobs_ok {A} (pool : list (job A)) (w : cluster) : Prop :=
  ∀ i p, pool !! i = Some p → ∃ known, careful p known ∧ (known = true → key_in w own = K).

Lemma key_in_insert w n s m : key_in (<[n := s]> w) m = if decide (n = m) then file_of (st_data s) IssuerKeyFile else key_in w m.
Proof. unfold key_in. rewrite lookup_insert. by case_decide. Qed.

Lemma kexec_own {R} (c : kcall R) w known : may c known → key_in w own = K → key_in (kexec c w).2 own = K.
Proof.
  destruct c as [n|n v f|n f|n ks]; cbn; [done| | |].
  - intros [-> Hf] Hw. destruct (w !! own); [|done]. case_bool_decide; [|done]. cbn. rewrite key_in_insert, decide_True by done.
    by apply bool_decide_eq_true in Hf.
  - intros [-> Hf] Hw. destruct (w !! own) eqn:E; [done|]. cbn. rewrite key_in_insert, decide_True by done.
    by apply bool_decide_eq_true in Hf.
  - intros [_ ->] Hw. destruct (w !! shared); [|done]. cbn. by rewrite key_in_insert, decide_False by done.
Qed.

Lemma kexec_learns {R} (c : kcall R) w known : may c known → learns c (kexec c w).1 = true → key_in (kexec c w).2 own = K.
Proof.
  destruct c as [n|n v f|n f|n ks]; cbn; [| | |done].
  - intros _ H. unfold key_in. destruct (w !! n) as [s|] eqn:E; [|done]. cbn in H.
    apply andb_true_iff in H as [->%bool_decide_eq_true H%bool_decide_eq_true]. by rewrite E.
  - intros [-> Hf]. destruct (w !! own); [|done]. case_bool_decide; [|done]. intros _. cbn. rewrite key_in_insert, decide_True by done.
    by apply bool_decide_eq_true in Hf.
  - intros [-> Hf]. destruct (w !! own); [done|]. intros _. cbn. rewrite key_in_insert, decide_True by done.
    by apply bool_decide_eq_true in Hf.
Qed.

Lemma kexec_kept {R} (c : kcall R) w known : may c known → (known = true → key_in w own = K) →
  key_kept w → key_kept (kexec c w).2.
Proof.
  intros Hm Hkn [Hs|Ho]; [|right; by eapply kexec_own]. destruct c as [n|n v f|n f|n ks]; cbn in *.
  - by left.
  - destruct Hm as [-> _]. destruct (w !! own); [|by left]. case_bool_decide; [|by left]. left. cbn.
    by rewrite key_in_insert, decide_False.
  - destruct Hm as [-> _]. destruct (w !! own); [by left|]. left. cbn. by rewrite key_in_insert, decide_False.
  - destruct Hm as [-> ->]. right. specialize (Hkn eq_refl). destruct (w !! shared); [|done]. cbn.
    by rewrite key_in_insert, decide_False by done.
Qed.

Lemma ksend_world {R} v (c : kcall R) w : (ksend v c w).2 = w ∨ (ksend v c w).2 = (kexec c w).2.
Proof. destruct v; cbn; [by right|by left|by right]. Qed.

Lemma ksend_learns {R} v (c : kcall R) w known : may c known → learns c (ksend v c w).1 = true →
  key_in (ksend v c w).2 own = K.
Proof. destruct v; cbn; [apply kexec_learns| |]; intros Hm; by destruct c. Qed.

Lemma kruns_kept {A} sched (pool : list (job A)) w : jobs_ok pool w → key_kept w →
  key_kept (kruns sched pool w).2.
Proof.
  revert pool w. induction sched as [|[i v] sched IH]; intros pool w Hj Hw; [done|]. cbn.
  destruct (pool !! i) as [[a|R c k|]|] eqn:Ei; [by apply IH| |by apply IH|by apply IH].
  destruct (Hj i _ Ei) as (known & [Hm Hr] & Hkn).
  pose proof (ksend_world v c w) as Hws. pose proof (ksend_learns v c w known Hm) as Hl.
  destruct (ksend v c w) as [r w'] eqn:Es. cbn in Hws, Hl.
  assert (key_in w own = K → key_in w' own = K) as Hown.
  { intros H. destruct Hws as [->| ->]; [done|]. by eapply kexec_own. }
  apply IH.
  - intros j p. rewrite list_lookup_insert. case_decide as E.
    + intros [= <-]. exists (known || learns c r). split; [done|]. intros [H|H]%orb_true_iff; [by apply Hown, Hkn|by apply Hl].
    + intros Hp. destruct (Hj j p Hp) as (b & Hc & Hb). exists b. split; [done|]. intros ?. by apply Hown, Hb.
  - destruct Hws as [->| ->]; [done|]. by eapply kexec_kept.
Qed.

(** C10: However many jobs move the master key out of the shared secret or inspect it,
    however their requests interleave, fail or lose their answers, and wherever they
    are cut off, the key is in one of the two secrets at every moment. *)
Theorem adopt_never_loses_key sched (pool : list (job (result auth_err (list line)))) w :
  (∀ i p, pool !! i = Some p → p = inspect own ∨
     ∃ d, p = adopt own d shared ∧ ∀ d', d = Some d' → file_of (readLegacy d') IssuerKeyFile ∈ [K; []]) →
  key_in w shared = K →
  let w' := (kruns sched pool w).2 in key_in w' shared = K ∨ key_in w' own = K.
Proof.
  intros Hp Hw. apply kruns_kept; [|by left]. intros i p Hi. exists false. split; [|done].
  destruct (Hp i p Hi) as [->|(d & -> & Hd)]; [apply inspect_careful|by apply adopt_careful].
Qed.
End moving.

(** ** Staging *)

Lemma tmp_longer n : tmp n ≠ n.
Proof. intros E. apply (f_equal length) in E. unfold tmp in E. rewrite length_app in E. cbn in E. lia. Qed.

Lemma tmp_inj n m : tmp n = tmp m → n = m.
Proof. apply app_inv_tail. Qed.

(** An entry of the volume that is copied. *)
Definition copied (e : vol_entry) (n data : bytes) : Prop :=
  ve_name e = n ∧ ve_data e = Some data ∧ ve_isDir e = false ∧ hidden n = false.

Lemma stage_entry_spec fs e to r d : to !! tmp (ve_name e) = None → stage_entry fs e to = (r, d) →
  match r with
  | Ok _ => (d = to ∧ ∀ n data, ¬ copied e n data) ∨
            ∃ data, copied e (ve_name e) data ∧ d = <[ve_name e := mk_dfile 256 data]> to
  | Err _ => ∀ n, n ≠ tmp (ve_name e) → d !! n = to !! n
  end.
Proof.
  intros Ht. unfold stage_entry. destruct (hidden _ || ve_isDir e) eqn:Eh.
  { intros [= <- <-]. left. split; [done|]. intros n data (<- & _ & H1 & H2). by rewrite H1, H2 in Eh. }
  apply orb_false_iff in Eh as [Eh Ed]. destruct (ve_data e) as [data|] eqn:Ev; [|by intros [= <- <-]].
  unfold write_file. rewrite Ht. destruct (bool_decide _ || negb _) eqn:Ef.
  { intros [= <- <-] n Hn. by rewrite lookup_insert_ne. }
  apply orb_false_iff in Ef as [Ec _]. apply bool_decide_eq_false in Ec. rewrite lookup_insert_eq.
  destruct (fs_cut _); [by destruct Ec|]. intros [= <- <-]. right. exists data. split; [done|].
  by rewrite delete_insert_id.
Qed.

(** Staging, wherever it stops, leaves in the server's folder only whole files:
    each is as it was or the mounted one, readable by its owner alone; and when it
    succeeds every mounted file is there. *)
Theorem stage_exact fs from to r d :
  NoDup (ve_name <$> from) → (∀ e e', e ∈ from → e' ∈ from → ve_name e ≠ tmp (ve_name e')) →
  (∀ e, e ∈ from → to !! tmp (ve_name e) = None) → Stage fs from to = (r, d) →
  (∀ n, (∀ e, e ∈ from → n ≠ tmp (ve_name e)) →
     d !! n = to !! n ∨ ∃ e data, e ∈ from ∧ copied e n data ∧ d !! n = Some (mk_dfile 256 data)) ∧
  (r = Ok tt → ∀ e n data, e ∈ from → copied e n data → d !! n = Some (mk_dfile 256 data)).
Proof.
  revert to. induction from as [|e from IH]; intros to Hnd Hcl Ht; cbn.
  { intros [= <- <-]. split; [by left|]. by intros _ e n data ?%elem_of_nil. }
  destruct (stage_entry fs e to) as [r1 to1] eqn:Es. pose proof (stage_entry_spec _ _ _ _ _ (Ht e (list_elem_of_here _ _)) Es) as Hs.
  cbn in Hnd. apply NoDup_cons in Hnd as [Hne Hnd].
  destruct r1 as [u|err].
  2:{ intros [= <- <-]. split; [|done]. intros n Hn. left. apply Hs, Hn, list_elem_of_here. }
  assert (∀ e', e' ∈ from → e' ∈ e :: from) as Hin by (intros; by apply list_elem_of_further).
  assert (∀ n, n ≠ ve_name e → to1 !! n = to !! n) as Hoth.
  { intros n Hn. destruct Hs as [[-> _]|(data & _ & ->)]; [done|]. by rewrite lookup_insert_ne. }
  assert (∀ e', e' ∈ from → to1 !! tmp (ve_name e') = None) as Ht1.
  { intros e' He'. rewrite Hoth; [by apply Ht, Hin|]. intros E. apply (Hcl e e'); [apply list_elem_of_here|by apply Hin|done]. }
  intros Hst. destruct (IH to1 Hnd (λ e e' H H', Hcl _ _ (Hin _ H) (Hin _ H')) Ht1 Hst) as [H1 H2].
  assert (∀ e' n data, e' ∈ from → copied e' n data → n ≠ ve_name e) as Hdiff.
  { intros e' n data He' (<- & _) E. apply Hne. rewrite <- E. by apply list_elem_of_fmap_2. }
  assert (∀ e', e' ∈ e :: from → ve_name e ≠ tmp (ve_name e')) as Hnt by (intros; apply Hcl; [apply list_elem_of_here|done]).
  split.
  - intros n Hn. destruct (H1 n (λ e' H, Hn e' (Hin _ H))) as [E|(e' & data & He' & Hc & E)]; [|right; by exists e', data; auto].
    destruct (decide (n = ve_name e)) as [->|Hn']; [|left; by rewrite E, Hoth].
    destruct Hs as [[-> _]|(data & Hc & Ed)]; [by left|]. right. exists e, data. split; [apply list_elem_of_here|]. split; [done|].
    by rewrite E, Ed, lookup_insert_eq.
  - intros Hr e' n data [->|He']%elem_of_cons Hc; [|by eapply H2]. pose proof Hc as (<- & _).
    destruct (H1 (ve_name e) (λ e' H, Hnt e' (Hin _ H))) as [E|(e2 & data2 & He2 & Hc2 & _)]; [|by eapply Hdiff in Hc2].
    destruct Hs as [[_ H]|(data' & Hc' & Ed)]; [by destruct (H _ _ Hc)|].
    rewrite E, Ed, lookup_insert_eq. destruct Hc as (_ & Hd & _), Hc' as (_ & Hd' & _). congruence.
Qed.

(** ** A vault to run it in *)

Module Vault.

(** Self-delimiting text in place of PEM and DER; a key is its own text. *)
Definition enc (l : bytes) : bytes := concat ((λ b, [x01; b]) <$> l) ++ [x00].
Fixpoint dec (l : bytes) : option (bytes * bytes) :=
  match l with
  | x00 :: r => Some ([], r)
  | x01 :: b :: r => match dec r with Some (t, r') => Some (b :: t, r') | None => None end
  | _ => None
  end.

Lemma dec_enc l r : dec (enc l ++ r) = Some (l, r).
Proof. induction l as [|b l IH]; [done|]. unfold enc in *. cbn. by rewrite IH. Qed.

Lemma dec_takes l t r : dec l = Some (t, r) → (length r < length l)%nat.
Proof.
  revert t r. assert (∀ n l, (length l ≤ n)%nat → ∀ t r, dec l = Some (t, r) → (length r < length l)%nat) as H; [|by eapply (H (length l))].
  induction n as [|n IH]; intros [|b l'] Hl t r; cbn in *; try lia; try done.
  intros E. destruct b; try done; [injection E as <- <-; lia|]. destruct l' as [|b' l']; [done|].
  destruct (dec l') as [[t' r']|] eqn:E'; [|done]. injection E as <- <-. cbn in Hl.
  assert (length r' < length l')%nat by (eapply IH; [lia|done]). cbn. lia.
Qed.

Definition pem_Encode (b : pem_block) : bytes := enc (pb_Type b) ++ enc (pb_Bytes b).
Definition pem_Decode (d : bytes) : option (pem_block * bytes) :=
  match dec d with
  | Some (ty, r) => match dec r with Some (b, rest) => Some (mk_pem ty b, rest) | None => None end
  | None => None
  end.

Lemma pem_round_trip b : pem_Decode (pem_Encode b) = Some (b, []).
Proof.
  unfold pem_Decode, pem_Encode. rewrite dec_enc. rewrite <- (app_nil_r (enc (pb_Bytes b))), dec_enc. by destruct b.
Qed.

Lemma pem_takes d b rest : pem_Decode d = Some (b, rest) → (length rest < length d)%nat.
Proof.
  unfold pem_Decode. destruct (dec d) as [[ty r]|] eqn:E1; [|done]. destruct (dec r) as [[x y]|] eqn:E2; [|done].
  intros [= <- <-]. apply dec_takes in E1, E2. lia.
Qed.

Definition Public (k : bytes) : bytes := lit "pub:" ++ k.
Definition subject (t : CATemplate) : bytes :=
  match ct_RawSubject t with [] => lit "CN=" ++ ct_CommonName t | s => s end.
Definition CreateCertificate (t : CATemplate) (p : option Certificate) (pub k : bytes) : option bytes :=
  Some (enc (subject t) ++ enc pub ++ enc (Public k)).
Definition ParseCertificate (der : bytes) : option Certificate :=
  match dec der with
  | Some (b :: s, r) =>
      match dec r with
      | Some (pub, r') => match dec r' with
                          | Some (sig, []) => Some (mk_cert der (b :: s) (b :: s) sig 0 (1000 * hour) pub)
                          | _ => None
                          end
      | None => None
      end
  | _ => None
  end.
Definition CheckSignatureFrom (c p : Certificate) : bool := bool_decide (crt_SerialNumber c = crt_RawSubjectPublicKeyInfo p).
Definition hash (b : bytes) : bytes := b.

Lemma created t p pub k der : CreateCertificate t p pub k = Some der →
  ParseCertificate der = Some (mk_cert der (subject t) (subject t) (Public k) 0 (1000 * hour) pub).
Proof.
  intros [= <-]. unfold ParseCertificate. rewrite dec_enc.
  assert (∃ b s, subject t = b :: s) as (b & s & Hs) by (unfold subject; destruct (ct_RawSubject t); eauto).
  rewrite Hs. rewrite dec_enc. rewrite <- (app_nil_r (enc (Public k))), dec_enc. by rewrite app_nil_r.
Qed.

Lemma create_parses t p pub k der : CreateCertificate t p pub k = Some der →
  ∃ c, ParseCertificate der = Some c ∧ crt_RawSubjectPublicKeyInfo c = pub ∧
       (ct_RawSubject t ≠ [] → crt_RawSubject c = ct_RawSubject t).
Proof.
  intros H. rewrite (created _ _ _ _ _ H). eexists. split; [done|]. split; [done|]. cbn. unfold subject.
  by destruct (ct_RawSubject t).
Qed.

Lemma create_signs t p pub k der c : CreateCertificate t (Some p) pub k = Some der → ParseCertificate der = Some c →
  crt_RawSubjectPublicKeyInfo p = Public k → CheckSignatureFrom c p = true.
Proof. intros H. rewrite (created _ _ _ _ _ H). intros [= <-] E. unfold CheckSignatureFrom. cbn. by rewrite bool_decide_true. Qed.

Lemma subject_named der c : ParseCertificate der = Some c → crt_RawSubject c ≠ [].
Proof.
  unfold ParseCertificate. destruct (dec der) as [[[|b s] r]|]; [done| |done]. destruct (dec r) as [[pub r']|]; [|done].
  destruct (dec r') as [[sig [|]]|]; [|done|done]. by intros [= <-].
Qed.

Definition Layout := Authority.Layout.
Definition NewKit :=
  Authority.NewKit Public CreateCertificate Some Some (λ _, None) pem_Encode pem_Decode ParseCertificate.
Definition Init := Authority.Init Public CreateCertificate Some pem_Encode.
Definition start := Authority.start Public CreateCertificate Some Some (λ _, None) pem_Encode pem_Decode ParseCertificate hash CheckSignatureFrom.
Definition run := onSecret Public CreateCertificate Some Some (λ _, None) pem_Encode pem_Decode ParseCertificate hash.

Definition key (name : String.string) : @draw bytes :=
  mk_draw (Some (String.list_byte_of_string name)) (Some (lit "serial")) (Some (lit "cross")).
Definition plain : LayoutOptions := mk_options MPSOld false false.

Definition get (r : result auth_err Files) : Files := match r with Ok f => f | Err _ => ∅ end.

Lemma get_ok r : is_ok r = true → r = Ok (get r).
Proof. by destruct r. Qed.

Definition first : Files := get (Init (key "A") 0 ∅).
Definition kitted : Files := get (NewKit (key "B") 0 first).
Definition changed : Files := get (Layout kitted PhaseChangeover plain).
Definition settled : Files := get (Layout changed PhaseSettle plain).
Definition retired : Files := get (Layout changed PhaseRetire plain).

Lemma first_founded : founded (Signer := bytes) Public CreateCertificate Some Some (λ _, None) pem_Encode pem_Decode ParseCertificate first.
Proof. eapply (founded_init _ _ _ _ _ _ _ _ _ (key "A") 0), get_ok. by vm_compute. Qed.

Lemma first_changed :
  rtc (tool_step (Signer := bytes) Public CreateCertificate Some Some (λ _, None) pem_Encode pem_Decode ParseCertificate hash) first changed.
Proof.
  eapply rtc_l; [|eapply rtc_once].
  - eapply (tool_kit _ _ _ _ _ _ _ _ _ _ _ (key "B") 0); [apply get_ok; by vm_compute|].
    intros a b Ha Hb. vm_compute in Ha, Hb. injection Ha as <-. injection Hb as <-. by vm_compute.
  - eapply (tool_layout _ _ _ _ _ _ _ _ _ _ _ PhaseChangeover plain); [apply get_ok; by vm_compute|].
    by intros [?|[? _]].
Qed.

Local Abbreviation laws thm :=
  (thm bytes Public CreateCertificate Some Some (λ _, None) pem_Encode pem_Decode ParseCertificate hash CheckSignatureFrom
     pem_round_trip pem_takes (λ k der (H : Some k = Some der), eq_sym H) create_parses create_signs subject_named).
Local Abbreviation holds := (in_file pem_Decode ParseCertificate).


Definition certA : Certificate :=
  match ParseCertificatePEM pem_Decode ParseCertificate (file_of changed PreviousCertFile) with
  | Ok c => c | Err _ => mk_cert [] [] [] [] 0 0 [] end.
Definition leaf : Certificate := mk_cert (lit "leaf") (lit "m") (lit "machine") [] 0 (500 * hour) (lit "pub:machine").
Definition Verify (l : Certificate) (roots : list Certificate) (_ : time) : option (list Certificate) :=
  if bool_decide (certA ∈ roots) then Some [l; certA] else None.

Lemma standing_follows_phase_witness :
  match start true (key "C") 10 (λ _, true) 1 hour (staged retired) with
  | Ok (ld, m) => ∃ class, Classify Some Verify m 10 [leaf] = Ok class ∧ cl_DeviceID class = lit "machine" ∧
                           cl_Standing class = StandingRenewOnly
  | Err _ => False
  end.
Proof.
  destruct (start true (key "C") 10 (λ _, true) 1 hour (staged retired)) as [[ld m]|e] eqn:E; [|by vm_compute in E].
  refine (proj1 (laws (@standing_follows_phase) Some Verify first changed retired PhaseRetire plain (key "C") 10 (λ _, true) 1 hour
    ld m leaf [] certA (lit "machine") first_founded first_changed _ _ E _ _ _ _) PreviousCertFile RoleRenewOnly _ _).
  - apply get_ok. by vm_compute.
  - intros _. by vm_compute.
  - by intros roots.
  - done.
  - split; by apply Z.leb_le.
  - by apply Z.leb_le; vm_compute.
  - apply list_elem_of_further, list_elem_of_here.
  - by vm_compute.
Defined.

Lemma retire_after_settle_unloadable_witness :
  ∃ f2, Layout settled PhaseRetire plain = Ok f2 ∧
    start true (key "C") 10 (λ _, true) 1 hour (staged f2) = Err (NoCertIn ChainFile).
Proof.
  apply (laws (@retire_after_settle_unloadable) first changed settled plain plain (key "C") 10 (λ _, true) 1 hour).
  - exact first_founded.
  - exact first_changed.
  - done.
  - done.
  - apply get_ok. by vm_compute.
Defined.

(** *** The key moved, and lost *)

Definition mounted : dir := mk_dfile 288 <$> first.
Definition before : cluster := {[sharedSecret := mk_secret 7 (<[lit "JWT_SECRET" := lit "j"]> first)]}.
Definition keyA : bytes := file_of first IssuerKeyFile.

Definition moves : list (job (result auth_err (list line))) :=
  [run defaultSecret (CAdopt (Some mounted) sharedSecret); run defaultSecret (CAdopt (Some mounted) sharedSecret);
   run defaultSecret CInspect].

(** Where the two secrets keep the key, and how each job ended. *)
Definition outcome (x : list (job (result auth_err (list line))) * cluster) : list (option bool) * (bytes * bytes) :=
  ((λ p, match p with Ret r => Some (is_ok r) | _ => None end) <$> x.1, (key_in x.2 sharedSecret, key_in x.2 defaultSecret)).

(** One job moves the key: read, look again, create, read back, remove. *)
Example key_moved :
  outcome (kruns ((λ _, (0%nat, Answered)) <$> seq 0 5) moves before) = ([Some true; None; None], ([], keyA)).
Proof. by vm_compute. Qed.

Lemma adopt_never_loses_key_witness :
  let w' := (kruns [(0, Answered); (1, Answered); (0, Answered); (1, Answered); (0, AnswerLost); (1, Unsent); (2, Answered)]%nat
               moves before).2 in
  key_in w' sharedSecret = keyA ∨ key_in w' defaultSecret = keyA.
Proof.
  apply (adopt_never_loses_key pem_Encode pem_Decode ParseCertificate hash defaultSecret sharedSecret keyA).
  - by vm_compute.
  - intros [|[|[|i]]] p [= <-]; [right|right|by left]; exists (Some mounted); (split; [reflexivity|]); intros d [= <-].
    all: assert (file_of (readLegacy mounted) IssuerKeyFile = keyA) as -> by (by vm_compute); apply list_elem_of_here.
  - by vm_compute.
Defined.

(** The version an update names is read by the update, not by what it was decided on: a
    new cluster's key, decided on before the move, replaces the moved key, which the
    move then removes from where it was.  Both jobs succeed and the key is gone. *)
Example init_loses_moved_key :
  outcome (kruns ((λ i, (i, Answered)) <$> [1; 0; 0; 0; 0; 1; 1; 1; 0]%nat)
             [run defaultSecret (CAdopt (Some mounted) sharedSecret); run defaultSecret (CInit (key "Z") 0)] before) =
    ([Some true; Some true], ([], file_of (get (Init (key "Z") 0 ∅)) IssuerKeyFile)).
Proof. by vm_compute. Qed.

(** Two jobs that each create the first key: the second replaces the first's. *)
Example second_init_replaces_first :
  outcome (kruns ((λ i, (i, Answered)) <$> [0; 1; 0; 0; 0; 1; 1; 1]%nat)
             [run defaultSecret (CInit (key "A") 0); run defaultSecret (CInit (key "Z") 0)] ∅) =
    ([Some true; Some true], ([], file_of (get (Init (key "Z") 0 ∅)) IssuerKeyFile)).
Proof. by vm_compute. Qed.

(** *** Staging again *)

Definition volume (f : Files) : list vol_entry := (λ kv, mk_entry kv.1 false (Some kv.2)) <$> map_to_list f.
Definition works (_ : bytes) : fs_answer := mk_fs None true.

Definition listing : list vol_entry :=
  [mk_entry IssuerCertFile false (Some (file_of first IssuerCertFile)); mk_entry (lit "..data") true None;
   mk_entry IssuerKeyFile false (Some keyA)].

Lemma stage_exact_witness : (Stage works listing ∅).2 !! IssuerKeyFile = Some (mk_dfile 256 keyA).
Proof.
  apply (proj2 (stage_exact works listing ∅ (Ok tt) (Stage works listing ∅).2 ltac:(by apply (bool_decide_unpack _); vm_compute)
    ltac:(intros e e' He He';
      repeat (apply elem_of_cons in He as [->|He]); [..|by apply elem_of_nil in He];
      (repeat (apply elem_of_cons in He' as [->|He']); [..|by apply elem_of_nil in He']; by vm_compute))
    (λ e _, lookup_empty _)
    ltac:(apply injective_projections; [by vm_compute|done]))
    eq_refl (mk_entry IssuerKeyFile false (Some keyA))).
  - apply list_elem_of_further, list_elem_of_further, list_elem_of_here.
  - by vm_compute.
Defined.

(** A staging cut off before its rename leaves a copy nobody may write: every later one
    fails on it. *)
Example cut_off_stage_stuck :
  let cut := Stage (λ _, mk_fs None false) (volume first) ∅ in
  (is_ok cut.1, is_ok (Stage works (volume first) cut.2).1) = (false, false).
Proof. by vm_compute. Qed.

(** Staging removes nothing: over the files of the phase before, the key that was
    accepted then is read in two roles. *)
Example restaged_two_roles :
  let d := (Stage works (volume retired) (Stage works (volume changed) ∅).2).2 in
  match start true (key "C") 10 (λ _, true) 1 hour d with Err (BadTrust (TwoRoles _)) => true | _ => false end = true.
Proof. by vm_compute. Qed.
End Vault.
