(* ===== verification/GoText.v ===== *)
(** * Go's [strings]: searching and replacing

    [HasPrefix], [HasSuffix], [TrimPrefix], [Contains] and [ReplaceAll] of one byte,
    with the lemmas on trimming that texts without white space at their ends need. *)
From S2P Require Import Prelude GoStrings.

Definition HasPrefix (s prefix : bytes) : bool := bool_decide (take (length prefix) s = prefix).
Definition HasSuffix (s suffix : bytes) : bool :=
  bool_decide (length suffix ≤ length s)%nat && bool_decide (drop (length s - length suffix) s = suffix).
Definition TrimPrefix (s prefix : bytes) : bytes := if HasPrefix s prefix then drop (length prefix) s else s.

Fixpoint Contains (s sub : bytes) : bool :=
  HasPrefix s sub || match s with [] => false | _ :: s => Contains s sub end.

(** [strings.ReplaceAll(s, old, new)] for an old of one byte. *)
Definition ReplaceAll (s : bytes) (old : byte) (new : bytes) : bytes :=
  s ≫= λ b, if bool_decide (b = old) then new else [b].

Lemma HasPrefix_app a b : HasPrefix (a ++ b) a = true.
Proof. apply bool_decide_true. by rewrite take_app_length. Qed.

Lemma Contains_app a sub b : Contains (a ++ sub ++ b) sub = true.
Proof.
  induction a as [|x a IH]; cbn [app Contains].
  - destruct (sub ++ b) eqn:E; [by destruct sub|]. rewrite <- E. cbn [Contains]. rewrite E. cbn [Contains].
    rewrite <- E. by rewrite HasPrefix_app.
  - rewrite IH. apply orb_true_r.
Qed.

Lemma Contains_byte s b : Contains s [b] = bool_decide (b ∈ s).
Proof.
  induction s as [|x s IH]; [done|]. cbn [Contains]. rewrite IH. unfold HasPrefix. cbn [length take firstn].
  repeat case_bool_decide; try done; cbn; set_solver.
Qed.

(** Text that starts and ends in visible ASCII keeps its ends. *)
Definition visible (b : byte) : Prop := 33 ≤ Z_of_byte b < 127.

Lemma white_ends sep : sep ∈ white_space →
  (∃ b r, sep = b :: r ∧ ¬ visible b) ∧ (∃ b r, reverse sep = b :: r ∧ ¬ visible b).
Proof.
  unfold white_space. intros Hin. repeat (apply elem_of_cons in Hin as [->|Hin];
    [split; eexists _, _; (split; [reflexivity|unfold visible; vm_compute; intuition discriminate])|]).
  by apply not_elem_of_nil in Hin.
Qed.

Lemma trim_left_visible n seps s : (∀ sep, sep ∈ seps → ∃ b r, sep = b :: r ∧ ¬ visible b) →
  (∀ b, head s = Some b → visible b) → trim_left n seps s = s.
Proof.
  intros Hs Hv. destruct n as [|n]; [done|]. cbn [trim_left]. destruct (List.find _ seps) as [sep|] eqn:E; [|done].
  apply find_some in E as [Hin Hb]. apply bool_decide_eq_true in Hb. destruct (Hs sep) as (b & r & -> & Hn).
  { by apply list_elem_of_In. }
  destruct s as [|x s]; [done|]. cbn in Hb. injection Hb as -> _. by destruct Hn; apply Hv.
Qed.

Lemma TrimSpace_visible s : (∀ b, head s = Some b → visible b) → (∀ b, last s = Some b → visible b) → TrimSpace s = s.
Proof.
  intros Hh Hl. unfold TrimSpace. rewrite (trim_left_visible _ white_space s); [|by intros sep [? _]%white_ends|done].
  rewrite trim_left_visible; [by rewrite reverse_involutive| |].
  - intros sep (sep' & -> & Hin)%list_elem_of_fmap. by apply white_ends in Hin as [_ ?].
  - intros b Hb. apply Hl. by rewrite <- head_reverse.
Qed.
