(* ===== verification/Seconds.v ===== *)
(** * Go's [Duration.Seconds] and conversions of float64 to integers

    A duration in seconds is a float64 sum of its whole seconds and of its
    nanoseconds over a billion, each operation rounded.  Whole seconds convert
    exactly, and no duration converts beyond 2^36 seconds. *)
From S2P Require Import Prelude GoTime Float.

(** [int64(f)] (and [int(f)]): the integer part where it fits, and what the machine
    leaves, [other], where it does not. *)
Definition f_to_i64 (other : float64 → Z) (a : float64) : Z :=
  match f_trunc a with
  | Some v => if bool_decide (- 2 ^ 63 ≤ v < 2 ^ 63) then v else i64 (other a)
  | None => i64 (other a)
  end.

(** [d.Seconds()] *)
Definition Seconds (d : duration) : float64 :=
  f_add (f_of_Z (Z.quot d second)) (f_div (f_of_Z (Z.rem d second)) (f_of_Z second)).

(** [int64(d.Seconds())] *)
Definition int_seconds (other : float64 → Z) (d : duration) : Z := f_to_i64 other (Seconds d).

(** ** Magnitudes

    [m * 2^e] below [2^B], for a mantissa that may be rounded. *)

Definition below (B m e : Z) : Prop := e ≤ B ∧ 0 ≤ m < 2 ^ (B - e).

Definition f_below (B : Z) (x : float64) : Prop :=
  match x with
  | S754_zero false => True
  | S754_finite false m e => below B (Zpos m) e
  | _ => False
  end.

Lemma f_trunc_below B x : 0 ≤ B → f_below B x → ∃ v, f_trunc x = Some v ∧ 0 ≤ v < 2 ^ B.
Proof.
  intros HB. destruct x as [[]|[]| |[] m e]; try done; cbn.
  - intros _. exists 0. split; [done|]. split; [done|]. by apply Z.pow_pos_nonneg.
  - intros [He Hm]. eexists. split; [done|]. destruct (Z.le_gt_cases 0 e) as [H|H].
    + rewrite Z.shiftl_mul_pow2 by done. replace B with (B - e + e) by lia. rewrite Z.pow_add_r by lia.
      split; [lia|]. apply Z.mul_lt_mono_pos_r; [|lia]. apply Z.pow_pos_nonneg; lia.
    + rewrite Z.shiftl_div_pow2 by lia. split; [apply Z.div_pos; [lia|apply Z.pow_pos_nonneg; lia]|].
      apply Z.div_lt_upper_bound; [apply Z.pow_pos_nonneg; lia|]. rewrite <- Z.pow_add_r by lia.
      replace (- e + B) with (B - e) by lia. lia.
Qed.

Lemma digits_bounds p : 2 ^ (Zpos (digits2_pos p) - 1) ≤ Zpos p < 2 ^ Zpos (digits2_pos p).
Proof.
  induction p as [p IH|p IH|]; cbn [digits2_pos]; [| |done];
    rewrite Pos2Z.inj_succ, <- Z.add_1_r, Z.pow_add_r by lia; replace (Zpos (digits2_pos p) + 1 - 1) with (Zpos (digits2_pos p) - 1 + 1) by lia;
    rewrite Z.pow_add_r by lia; lia.
Qed.

Lemma digits_below p k : 0 ≤ k → Zpos p < 2 ^ k → Zpos (digits2_pos p) ≤ k.
Proof.
  intros Hk Hp. destruct (digits_bounds p) as [Hl _]. destruct (Z.le_gt_cases (Zpos (digits2_pos p)) k) as [H|H]; [done|].
  assert (2 ^ k ≤ 2 ^ (Zpos (digits2_pos p) - 1)) by (apply Z.pow_le_mono_r; lia). lia.
Qed.

(** ** Shifting right *)

Lemma iter_pos_shr p (r : shr_record) : 0 ≤ shr_m r → shr_m (iter_pos shr_1 p r) = shr_m r / 2 ^ Zpos p.
Proof.
  assert (∀ r, 0 ≤ shr_m r → shr_m (shr_1 r) = shr_m r / 2 ∧ 0 ≤ shr_m (shr_1 r)) as H1.
  { intros [m b s] Hm. cbn in *. destruct m as [|[q|q|]|q]; cbn; try lia; split; try lia; try done.
    - by rewrite (Pos2Z.inj_xI q), Z.add_comm, Z.mul_comm, Z.div_add.
    - by rewrite (Pos2Z.inj_xO q), Z.mul_comm, Z.div_mul. }
  assert (∀ p r, 0 ≤ shr_m r → shr_m (iter_pos shr_1 p r) = shr_m r / 2 ^ Zpos p ∧ 0 ≤ shr_m (iter_pos shr_1 p r)) as H.
  { clear p r. induction p as [p IH|p IH|]; intros r Hr; cbn [iter_pos].
    - destruct (H1 r Hr) as [E1 P1]. destruct (IH _ P1) as [E2 P2]. destruct (IH _ P2) as [E3 P3]. split; [|done].
      rewrite E3, E2, E1, !Z.div_div by (done || (apply Z.pow_pos_nonneg; lia) || lia). f_equal.
      rewrite (Pos2Z.inj_xI p), Z.pow_add_r, Z.pow_twice_r by lia. lia.
    - destruct (IH _ Hr) as [E2 P2]. destruct (IH _ P2) as [E3 P3]. split; [|done].
      rewrite E3, E2, Z.div_div by ((apply Z.pow_pos_nonneg; lia) || (apply Z.pow_nonzero; lia) || lia).
      f_equal. rewrite (Pos2Z.inj_xO p), Z.pow_twice_r. lia.
    - change (2 ^ 1) with 2. by apply H1. }
  intros Hr. by apply H.
Qed.

Lemma shr_record_m m l : shr_m (shr_record_of_loc m l) = m.
Proof. by destruct l as [|[]]. Qed.

Lemma shr_fexp_below B m e l : -1074 ≤ B → below B m e →
  below B (shr_m (shr_fexp fprec femax m e l).1) (shr_fexp fprec femax m e l).2.
Proof.
  intros HB [He Hm]. unfold shr_fexp, shr.
  assert (fexp fprec femax (Zdigits2 m + e) ≤ B) as Hf.
  { unfold fexp. change (emin fprec femax) with (-1074). apply Z.max_lub; [|done]. unfold fprec.
    destruct m as [|p|p]; cbn [Zdigits2]; [lia| |lia]. pose proof (digits_below p (B - e) ltac:(lia) ltac:(lia)). lia. }
  destruct (fexp fprec femax (Zdigits2 m + e) - e) as [|k|k] eqn:E; cbn [fst snd]; rewrite ?shr_record_m; [done| |done].
  rewrite iter_pos_shr, shr_record_m by (rewrite shr_record_m; lia). split; [lia|]. split.
  - apply Z.div_pos; [lia|]. apply Z.pow_pos_nonneg; lia.
  - apply Z.div_lt_upper_bound; [apply Z.pow_pos_nonneg; lia|]. rewrite <- Z.pow_add_r by lia.
    replace (Zpos k + (B - (e + Zpos k))) with (B - e) by lia. lia.
Qed.

Lemma round_below B m e l : below B m e → below (B + 1) (round_nearest_even m l) e.
Proof.
  intros [He Hm]. assert (0 < 2 ^ (B - e)) by (apply Z.pow_pos_nonneg; lia).
  assert (round_nearest_even m l = m ∨ round_nearest_even m l = m + 1) as Hr.
  { destruct l as [|[]]; cbn; try (by left); try (by right). destruct (Z.even m); [by left|by right]. }
  split; [lia|]. replace (B + 1 - e) with (B - e + 1) by lia. rewrite Z.pow_add_r by lia. lia.
Qed.

Lemma round_aux_below B m e l : -1074 ≤ B → B + 1 ≤ 971 → below B m e → f_below (B + 1) (binary_round_aux fprec femax false m e l).
Proof.
  intros HB HB' Hm. unfold binary_round_aux. pose proof (shr_fexp_below B m e l HB Hm) as H1.
  destruct (shr_fexp fprec femax m e l) as [r1 e1]. cbn [fst snd] in H1.
  apply (round_below _ _ _ (loc_of_shr_record r1)) in H1. pose proof (shr_fexp_below (B + 1) _ _ loc_Exact ltac:(lia) H1) as H2.
  destruct (shr_fexp fprec femax _ e1 loc_Exact) as [r2 e2]. cbn [fst snd] in H2.
  destruct (shr_m r2) as [|p|p]; [done| |destruct H2; lia]. change (femax - fprec) with 971.
  rewrite (proj2 (Z.leb_le e2 971)) by (destruct H2; lia). done.
Qed.

Lemma shl_value mx d : Zpos (Pos.iter xO mx d) = Zpos mx * 2 ^ Zpos d.
Proof.
  induction d as [|d IH] using Pos.peano_ind; [by rewrite Z.mul_comm|].
  rewrite Pos.iter_succ, Pos2Z.inj_xO, IH, Pos2Z.inj_succ, Z.pow_succ_r by lia. lia.
Qed.

Lemma shl_align_below B mx ex ex' : below B (Zpos mx) ex → below B (Zpos (shl_align mx ex ex').1) (shl_align mx ex ex').2.
Proof.
  intros [He Hm]. unfold shl_align. destruct (ex' - ex) as [|d|d] eqn:E; [done|done|]. cbn [fst snd].
  rewrite shl_value. split; [lia|]. split; [lia|]. replace (B - ex') with (B - ex + Zpos d) by lia.
  rewrite Z.pow_add_r by lia. apply Z.mul_lt_mono_pos_r; [apply Z.pow_pos_nonneg; lia|lia].
Qed.

Lemma normalize_below B m e : -1074 ≤ B → B + 1 ≤ 971 → below B m e → f_below (B + 1) (binary_normalize fprec femax m e false).
Proof.
  intros HB HB' Hm. destruct m as [|p|p]; [done| |destruct Hm; lia]. cbn [binary_normalize]. unfold binary_round.
  pose proof (shl_align_below B p e (fexp fprec femax (Zpos (digits2_pos p) + e)) Hm) as H.
  destruct (shl_align _ _ _) as [mz ez]. by apply round_aux_below.
Qed.

(** ** Integers convert exactly below 2^53 *)

Lemma f_of_Z_exact p : Zpos p < 2 ^ 53 →
  ∃ m e, f_of_Z (Zpos p) = S754_finite false m e ∧ -53 ≤ e ≤ 0 ∧ Zpos m = Zpos p * 2 ^ (- e).
Proof.
  intros Hp. pose proof (digits_below p 53 ltac:(lia) Hp) as Hd. pose proof (digits_bounds p) as Hb.
  set (d := Zpos (digits2_pos p)) in *. assert (0 < d) by (unfold d; lia).
  unfold f_of_Z. cbn [binary_normalize]. unfold binary_round. fold d.
  assert (fexp fprec femax (d + 0) = d - 53) as ->.
  { unfold fexp. change (emin fprec femax) with (-1074). unfold fprec. lia. }
  assert (∃ mz, shl_align p 0 (d - 53) = (mz, d - 53) ∧ Zpos mz = Zpos p * 2 ^ (53 - d)) as (mz & -> & Hmz).
  { unfold shl_align. replace (d - 53 - 0) with (d - 53) by lia. destruct (d - 53) as [|k|k] eqn:E; [| lia|].
    - exists p. replace (53 - d) with 0 by lia. by rewrite Z.mul_1_r.
    - exists (Pos.iter xO p k). split; [done|]. rewrite shl_value. f_equal. f_equal. lia. }
  assert (Zdigits2 (Zpos mz) = 53) as Hmd.
  { cbn [Zdigits2]. pose proof (digits_bounds mz) as [Hl Hu].
    assert (Zpos mz < 2 ^ 53) as H1.
    { rewrite Hmz. replace 53 with (d + (53 - d)) at 2 by lia. rewrite Z.pow_add_r by lia.
      apply Z.mul_lt_mono_pos_r; [apply Z.pow_pos_nonneg; lia|lia]. }
    assert (2 ^ 52 ≤ Zpos mz) as H2.
    { rewrite Hmz. replace 52 with (d - 1 + (53 - d)) by lia. rewrite Z.pow_add_r by lia.
      apply Z.mul_le_mono_nonneg_r; [apply Z.pow_nonneg; lia|lia]. }
    pose proof (digits_below mz 53 ltac:(lia) H1). assert (¬ Zpos (digits2_pos mz) ≤ 52); [|lia]. intros Hle.
    assert (2 ^ Zpos (digits2_pos mz) ≤ 2 ^ 52) by (apply Z.pow_le_mono_r; lia). lia. }
  assert (shr_fexp fprec femax (Zpos mz) (d - 53) loc_Exact = (Build_shr_record (Zpos mz) false false, d - 53)) as Hs.
  { unfold shr_fexp. rewrite Hmd. unfold fexp. change (emin fprec femax) with (-1074). unfold fprec.
    replace (Z.max (53 + (d - 53) - 53) (-1074) - (d - 53)) with 0 by lia. done. }
  exists mz, (d - 53). unfold binary_round_aux. rewrite Hs. cbn [shr_m loc_of_shr_record round_nearest_even]. rewrite Hs. cbn [shr_m].
  change (femax - fprec) with 971. rewrite (proj2 (Z.leb_le (d - 53) 971)) by lia.
  split; [done|]. split; [lia|]. by replace (- (d - 53)) with (53 - d) by lia.
Qed.

Lemma f_of_Z_below B n : 0 ≤ B ≤ 53 → 0 ≤ n < 2 ^ B → f_below B (f_of_Z n).
Proof.
  intros HB Hn. destruct n as [|p|p]; [done| |lia].
  destruct (f_of_Z_exact p) as (m & e & -> & He & Hm).
  { eapply Z.lt_le_trans; [apply Hn|]. apply Z.pow_le_mono_r; lia. }
  split; [lia|]. rewrite Hm. split; [lia|]. replace (B - e) with (B + - e) by lia. rewrite Z.pow_add_r by lia.
  apply Z.mul_lt_mono_pos_r; [apply Z.pow_pos_nonneg; lia|lia].
Qed.

Lemma f_trunc_of_Z n : 0 ≤ n < 2 ^ 53 → f_trunc (f_of_Z n) = Some n.
Proof.
  intros Hn. destruct n as [|p|p]; [done| |lia]. destruct (f_of_Z_exact p) as (m & e & -> & He & Hm); [lia|]. cbn [f_trunc].
  rewrite Z.shiftl_div_pow2 by lia. rewrite Hm, Z.div_mul; [done|]. apply Z.pow_nonzero; lia.
Qed.

Lemma f_add_zero n : 0 ≤ n < 2 ^ 53 → f_add (f_of_Z n) (S754_zero false) = f_of_Z n.
Proof. intros Hn. destruct n as [|p|p]; [done| |lia]. by destruct (f_of_Z_exact p) as (m & e & -> & _); [lia|]. Qed.

Lemma f_to_i64_small other x v : f_trunc x = Some v → - 2 ^ 63 ≤ v < 2 ^ 63 → f_to_i64 other x = v.
Proof. intros E Hv. unfold f_to_i64. rewrite E. by rewrite bool_decide_true. Qed.

(** Whole seconds convert exactly. *)
Lemma int_seconds_whole other n : 0 ≤ n < 2 ^ 53 → int_seconds other (n * second) = n.
Proof.
  intros Hn. unfold int_seconds, Seconds. rewrite Z.quot_mul, Z.rem_mul by done.
  change (f_div (f_of_Z 0) (f_of_Z second)) with (S754_zero false). rewrite f_add_zero by done.
  apply f_to_i64_small; [by apply f_trunc_of_Z|]. assert (2 ^ 53 < 2 ^ 63) by (by apply Z.pow_lt_mono_r). lia.
Qed.

(** ** Every duration converts below 2^36 *)

Lemma f_div_second_below x : f_below 30 x → f_below 2 (f_div x (f_of_Z second)).
Proof.
  assert (f_of_Z second = S754_finite false 8388608000000000 (-23)) as -> by (by vm_compute).
  destruct x as [[]|[]| |[] m e]; try done. intros [He Hm]. unfold f_div, SFdiv, SFdiv_core_binary. cbn [xorb].
  change (Zdigits2 8388608000000000) with 53. set (d := Zdigits2 (Zpos m)).
  assert (d + e ≤ 30) as Hd. { pose proof (digits_below m (30 - e) ltac:(lia) ltac:(lia)). unfold d. cbn. lia. }
  set (e' := Z.min (fexp fprec femax (d + e - (53 + -23))) (e - -23)).
  assert (e' ≤ e + 23 ∧ e' ≤ 0) as [He1 He2].
  { split; [unfold e'; lia|]. unfold e', fexp. change (emin fprec femax) with (-1074). unfold fprec. lia. }
  set (m' := match e - -23 - e' with Zpos _ => _ | Z0 => _ | Zneg _ => _ end).
  assert (m' = Zpos m * 2 ^ (e + 23 - e')) as Hm'.
  { unfold m'. replace (e - -23 - e') with (e + 23 - e') by lia. destruct (e + 23 - e') as [|k|k] eqn:E; [by rewrite Z.mul_1_r| |lia].
    by rewrite Z.shiftl_mul_pow2. }
  pose proof (Z_div_mod m' 8388608000000000 eq_refl) as Hdm. destruct (Z.div_eucl m' 8388608000000000) as [q r].
  apply (round_aux_below 1); [lia|lia|]. split; [lia|].
  assert (0 ≤ m' < 2 ^ (53 - e')) as Hb.
  { rewrite Hm'. split; [apply Z.mul_nonneg_nonneg; [lia|apply Z.pow_nonneg; lia]|].
    replace (53 - e') with (30 - e + (e + 23 - e')) by lia. rewrite Z.pow_add_r by lia.
    apply Z.mul_lt_mono_pos_r; [apply Z.pow_pos_nonneg; lia|lia]. }
  replace (53 - e') with (52 + (1 - e')) in Hb by lia. rewrite Z.pow_add_r in Hb by lia.
  change (2 ^ 52) with 4503599627370496 in Hb. assert (0 < 2 ^ (1 - e')) by (apply Z.pow_pos_nonneg; lia). nia.
Qed.

Lemma f_add_below x y : f_below 34 x → f_below 2 y → f_below 36 (f_add x y).
Proof.
  assert (∀ a b z, a ≤ b → f_below a z → f_below b z) as Hmono.
  { intros a b z Hab. destruct z as [[]|[]| |[] m e]; try done. intros [He Hm]. split; [lia|]. split; [lia|].
    eapply Z.lt_le_trans; [apply Hm|]. apply Z.pow_le_mono_r; lia. }
  intros Hx Hy. destruct x as [[]|[]| |[] m1 e1]; try done; destruct y as [[]|[]| |[] m2 e2]; try done.
  { by apply (Hmono 2). }
  { by apply (Hmono 34). }
  apply (Hmono 2 34) in Hy; [|lia]. unfold f_add, SFadd. cbn [cond_Zopp]. apply (normalize_below 35); [lia|lia|].
  assert (∀ m e ez, ez ≤ e → below 34 (Zpos m) e → 0 ≤ Zpos (shl_align m e ez).1 < 2 ^ (34 - ez)) as Hs.
  { intros m e ez Hez Hm. pose proof (shl_align_below 34 m e ez Hm) as [H1 H2]. split; [lia|].
    replace (shl_align m e ez).2 with ez in H2 by (unfold shl_align; destruct (ez - e) eqn:E; cbn; lia). lia. }
  pose proof (Hs m1 e1 (Z.min e1 e2) ltac:(lia) Hx). pose proof (Hs m2 e2 (Z.min e1 e2) ltac:(lia) Hy).
  destruct Hx as [He1 _]. split; [lia|]. split; [lia|].
  replace (35 - Z.min e1 e2) with (34 - Z.min e1 e2 + 1) by lia. rewrite Z.pow_add_r by lia. lia.
Qed.

Lemma int_seconds_bound other d : 0 ≤ d ≤ i64_max → 0 ≤ int_seconds other d < 2 ^ 36.
Proof.
  intros Hd. unfold i64_max in Hd. assert (f_below 36 (Seconds d)) as Hb.
  { unfold Seconds, second. apply f_add_below.
    - apply f_of_Z_below; [lia|]. rewrite Z.quot_div_nonneg by lia. split; [apply Z.div_pos; lia|].
      apply Z.div_lt_upper_bound; lia.
    - apply f_div_second_below, f_of_Z_below; [lia|]. rewrite Z.rem_mod_nonneg by lia.
      pose proof (Z.mod_pos_bound d 1000000000 ltac:(lia)). lia. }
  apply f_trunc_below in Hb as (v & E & Hv); [|lia]. unfold int_seconds. rewrite (f_to_i64_small _ _ v E); lia.
Qed.
