(* ===== verification/Updates.v ===== *)
(** * Agent updates

    [src/server/internal/updater] ([signing.go], [manifest.go], [github.go], the
    device updates of [postgres.go]) with the handlers of
    [api/handlers_updates.go], [osutil] and the sending and acknowledging side of
    [agentapi/conn.go] and [conn_guard.go]: manifests are signed and kept one per
    platform in files, published by an administrator or taken from a release feed,
    pushed to the connected machines they fit, and acknowledged.

    Handlers are programs over the file system, the database, the feed and the
    machines' streams; their calls interleave and fail.  Writing a file is one call,
    which on failure leaves a part of it.  Ed25519 and JSON are parameters, as are
    the lower-casing of text and its splitting at spaces. *)
From stdpp Require Import pretty.
From S2P Require Import Prelude GoTime GoStrings Settings Dbtx Codec Effect ApiWorld Accounts GoText.

(** ** Paths ([path/filepath] on Unix) *)

Definition slash : byte := x2f.
Definition dot : bytes := lit ".".
Definition dotdot : bytes := lit "..".

(** One component onto the components kept so far, the last first. *)
Definition clean_step (rooted : bool) (out : list bytes) (c : bytes) : list bytes :=
  if bool_decide (c = []) || bool_decide (c = dot) then out
  else if bool_decide (c = dotdot) then
    match out with
    | o :: out' => if bool_decide (o = dotdot) then c :: out else out'
    | [] => if rooted then [] else [c]
    end
  else c :: out.

Definition clean_comps (rooted : bool) (l : list bytes) : list bytes := rev (foldl (clean_step rooted) [] l).

Fixpoint join (l : list bytes) : bytes :=
  match l with [] => [] | [c] => c | c :: l => c ++ slash :: join l end.

Definition is_rooted (p : bytes) : bool := match p with b :: _ => bool_decide (b = slash) | [] => false end.

Definition render (rooted : bool) (l : list bytes) : bytes :=
  if rooted then slash :: join l else match l with [] => dot | _ => join l end.

Definition Clean (p : bytes) : bytes := render (is_rooted p) (clean_comps (is_rooted p) (Split p slash)).

Definition Join (a b : bytes) : bytes :=
  match filter (λ x, x ≠ []) [a; b] with [] => [] | l => Clean (join l) end.

(** [encoding/hex] *)
Definition unhex (b : byte) : option Z :=
  let n := Z_of_byte b in
  if bool_decide (48 ≤ n ≤ 57) then Some (n - 48)
  else if bool_decide (97 ≤ n ≤ 102) then Some (n - 87)
  else if bool_decide (65 ≤ n ≤ 70) then Some (n - 55)
  else None.

Fixpoint hex_DecodeString (s : bytes) : option bytes :=
  match s with
  | [] => Some []
  | [_] => None
  | a :: b :: s =>
      match unhex a, unhex b, hex_DecodeString s with
      | Some x, Some y, Some r => Some (byte_of_Z (x * 16 + y) :: r)
      | _, _, _ => None
      end
  end.

(** ** Data *)

Record Manifest := mk_manifest {
  mf_Version : bytes; mf_OS : bytes; mf_Arch : bytes; mf_URL : bytes; mf_SHA256 : bytes; mf_Signature : bytes;
  mf_CreatedAt : time;
}.

Inductive Status := StatusPending | StatusSuccess | StatusFailed.

Record DeviceUpdate := mk_du { du_DeviceID : uuid; du_Version : bytes; du_Status : Status; du_Error : bytes }.

Record update_row := mk_urow { ur_tenant : uuid; ur_update : DeviceUpdate; ur_acked : bool }.

(** What is known of a connected machine, and what an update message carries. *)
Record AgentMeta := mk_meta { am_DeviceID : uuid; am_OS : bytes; am_Arch : bytes; am_AgentVersion : bytes }.
Record AgentUpdate := mk_aupdate { ao_Version : bytes; ao_URL : bytes; ao_SHA256 : bytes; ao_Signature : bytes }.

Record ghAsset := mk_asset { as_Name : bytes; as_BrowserDownloadURL : bytes }.
Record ghRelease := mk_release { gr_TagName : bytes; gr_Assets : list ghAsset }.

Inductive upd_err :=
  | BadKeyFile | EmptyKeys | BadPrivateKey | BadPublicKey | KeyGenFailed | SignFailed | MkdirFailed | BadPath | WriteFailed | ReadFailed | ParseFailed | ErrTenantRequired | DbFailed
  | UpdateNotFound | RepoRequired | FetchFailed | EmptySha | BadShaLength | BadShaHex | SendFailed
  | ErrIncompleteControlMessage (what : bytes).

#[global] Instance upd_err_eq_dec : EqDecision upd_err.
Proof. solve_decision. Defined.

(** ** Calls *)

Inductive ucall : Type → Type :=
  | FMkdir (dir : bytes) : ucall bool
  | FWrite (path data : bytes) : ucall bool
  | FRead (path : bytes) : ucall (result upd_err (option bytes))
  | FList (dir : bytes) : ucall (result upd_err (list (bytes * bytes)))
  | UNow : ucall time
  | Connected : ucall (list AgentMeta)
  | StreamWrite (device : uuid) (msg : AgentUpdate) : ucall bool
  | XCreate (ctx : option Tenant) (du : DeviceUpdate) : ucall (result upd_err unit)
  | XSetStatus (ctx : option Tenant) (device : uuid) (version : bytes) (status : Status) (err : bytes) : ucall (result upd_err unit)
  | XListByVersion (ctx : option Tenant) (version : bytes) : ucall (result upd_err (list update_row))
  | GenerateKey : ucall (option (bytes * bytes))
  | GetRelease (repo : bytes) : ucall (option ghRelease)
  | GetBody (url : bytes) : ucall (option bytes)
  | AuditUpdate (user : uuid) (action target detail : bytes) : ucall unit.

Abbreviation updating := (prog ucall).

Definition uand {A B} (p : updating (result upd_err A)) (k : A → updating (result upd_err B)) : updating (result upd_err B) :=
  r ← p; match r with Ok a => k a | Err e => Ret (Err e) end.

Section updates.
(** A private key signs bytes; its public key verifies them. *)
Context (Sign : bytes → bytes → bytes) (Verify : bytes → bytes → bytes → bool).
Context (Marshal : Manifest → bytes) (Unmarshal : bytes → option Manifest).
(** The file of the keys: its two fields, in hexadecimal. *)
Context (MarshalKeys : bytes * bytes → bytes) (UnmarshalKeys : bytes → option (bytes * bytes)).
Context (ToLower : bytes → bytes) (Fields : bytes → list bytes).

(** ** [signing.go] *)

Record SigningKeys := mk_keys { sk_Private : bytes; sk_Public : bytes }.

Definition keys_path (dataDir : bytes) : bytes := Clean (Join dataDir (lit "update-signing.json")).

Definition parse_keys (data : bytes) : result upd_err SigningKeys :=
  match UnmarshalKeys data with
  | None => Err BadKeyFile
  | Some (privateKey, publicKey) =>
      if bool_decide (privateKey = []) || bool_decide (publicKey = []) then Err EmptyKeys
      else match hex_DecodeString privateKey with
           | None => Err BadPrivateKey
           | Some priv =>
               match hex_DecodeString publicKey with
               | None => Err BadPublicKey
               | Some pub => Ok (mk_keys priv pub)
               end
           end
  end.

Definition LoadOrGenerateSigningKeys (dataDir : bytes) : updating (result upd_err SigningKeys) :=
  let path := keys_path dataDir in
  uand (call_out (FRead path)) (λ data,
  match data with
  | Some data => Ret (parse_keys data)
  | None =>
      k ← call_out GenerateKey;
      match k with
      | None => Ret (Err KeyGenFailed)
      | Some (pub, priv) =>
          ok ← call_out (FWrite path (MarshalKeys (hex_encode priv, hex_encode pub)));
          Ret (if (ok : bool) then Ok (mk_keys priv pub) else Err WriteFailed)
      end
  end).

Definition PublicKeyHex (k : SigningKeys) : bytes := hex_encode (sk_Public k).

Definition SignHash (k : SigningKeys) (sha256Hex : bytes) : option bytes :=
  match hex_DecodeString sha256Hex with
  | Some h => Some (hex_encode (Sign (sk_Private k) h))
  | None => None
  end.

Definition VerifyHash (k : SigningKeys) (sha256Hex signatureHex : bytes) : option bool :=
  match hex_DecodeString sha256Hex, hex_DecodeString signatureHex with
  | Some h, Some s => Some (Verify (sk_Public k) h s)
  | _, _ => None
  end.

(** ** [manifest.go] *)

Definition manifest_dir (dataDir : bytes) : bytes := Join dataDir (lit "manifests").
Definition manifestFilename (os arch : bytes) : bytes := os ++ lit "-" ++ arch ++ lit ".json".

Definition safePath (dir os arch : bytes) : option bytes :=
  let cleanPath := Join dir (Clean (manifestFilename os arch)) in
  if HasPrefix cleanPath (Clean dir ++ [slash]) then Some cleanPath else None.

Definition Put (dir : bytes) (m : Manifest) : updating (result upd_err unit) :=
  ok ← call_out (FMkdir dir);
  if negb ok then Ret (Err MkdirFailed)
  else match safePath dir (mf_OS m) (mf_Arch m) with
       | None => Ret (Err BadPath)
       | Some path =>
           ok ← call_out (FWrite path (Marshal m));
           Ret (if (ok : bool) then Ok tt else Err WriteFailed)
       end.

Definition Get (dir os arch : bytes) : updating (result upd_err (option Manifest)) :=
  match safePath dir os arch with
  | None => Ret (Err BadPath)
  | Some path =>
      uand (call_out (FRead path)) (λ data,
      match data with
      | None => Ret (Ok None)
      | Some data => Ret (match Unmarshal data with Some m => Ok (Some m) | None => Err ParseFailed end)
      end)
  end.

Fixpoint parse_entries (l : list (bytes * bytes)) : result upd_err (list Manifest) :=
  match l with
  | [] => Ok []
  | (name, data) :: l =>
      if negb (HasSuffix name (lit ".json")) then parse_entries l
      else match Unmarshal data with
           | None => Err ParseFailed
           | Some m => rest ← parse_entries l; Ok (m :: rest)
           end
  end.

Definition ManifestList (dir : bytes) : updating (result upd_err (list Manifest)) :=
  uand (call_out (FList dir)) (λ entries, Ret (parse_entries entries)).

(** ** [osutil] *)

Definition NormalizeOS (agentOS : bytes) : bytes :=
  let lower := ToLower agentOS in
  if bool_decide (lower = lit "linux") || bool_decide (lower = lit "windows") then lower
  else if existsb (Contains lower)
            (lit <$> ["linux"; "ubuntu"; "debian"; "fedora"; "centos"; "rhel"; "arch"; "alpine"]%string) then lit "linux"
  else if Contains lower (lit "windows") then lit "windows"
  else lower.

Definition NormalizeArch (agentArch : bytes) : bytes :=
  if bool_decide (agentArch = lit "x86_64") then lit "amd64"
  else if bool_decide (agentArch = lit "aarch64") then lit "arm64"
  else agentArch.

(** ** Sending ([conn.go], [conn_guard.go]) *)

(** The first load-bearing field that is empty refuses the message. *)
Definition requireNonEmptyFields (msgType : bytes) (fields : list (bytes * bytes)) : option bytes :=
  (λ f, lit "incomplete control message: " ++ msgType ++ lit "." ++ f.1 ++ lit " is empty") <$>
  List.find (λ f, bool_decide (f.2 = [])) fields.

Definition SendAgentUpdate (device : uuid) (version url sha256 signature : bytes) : updating (result upd_err unit) :=
  match requireNonEmptyFields (lit "AgentUpdate") [(lit "version", version); (lit "url", url); (lit "signature", signature)] with
  | Some what => Ret (Err (ErrIncompleteControlMessage what))
  | None =>
      ok ← call_out (StreamWrite device (mk_aupdate version url sha256 signature));
      Ret (if (ok : bool) then Ok tt else Err SendFailed)
  end.

(** ** [handlers_updates.go] *)

Abbreviation uhandler A := (updating (result upd_err (reply A))).

Definition uanswer {A} (status : Z) (msg : bytes) : uhandler A := Ret (Ok (Answer status msg)).
Definition msgUpdateNotConfigured : bytes := lit "update system not configured".

(** The signing keys and the folder of manifests, when updates are configured. *)
Record updater_config := mk_uconfig { uc_signing : SigningKeys; uc_dir : bytes }.

Definition ListUpdateManifests (cfg : option updater_config) : uhandler (list Manifest) :=
  match cfg with
  | None => Ret (Ok (Success []))
  | Some cfg => uand (ManifestList (uc_dir cfg)) (λ list, Ret (Ok (Success list)))
  end.

Record PublishBody := mk_publish { pb_Version : bytes; pb_Os : bytes; pb_Arch : bytes; pb_Url : bytes; pb_Sha256 : bytes }.

Definition PublishUpdate (cfg : option updater_config) (ctx : Ctx) (body : PublishBody) : uhandler Manifest :=
  if negb (isAdmin ctx) then uanswer 403 msgAdminRequired
  else match cfg with
  | None => uanswer 403 msgUpdateNotConfigured
  | Some cfg =>
      match SignHash (uc_signing cfg) (pb_Sha256 body) with
      | None => Ret (Err SignFailed)
      | Some sig =>
          now ← call_out UNow;
          let m := mk_manifest (pb_Version body) (pb_Os body) (pb_Arch body) (pb_Url body) (pb_Sha256 body) sig now in
          uand (Put (uc_dir cfg) m) (λ _,
          _ ← call_out (AuditUpdate (ContextUserID ctx) (lit "update.publish") (mf_OS m ++ lit "/" ++ mf_Arch m)
                          (lit "version=" ++ mf_Version m));
          Ret (Ok (Success m)))
      end
  end.

Record PushBody := mk_push { pu_Version : bytes; pu_Os : bytes; pu_Arch : bytes; pu_DeviceIds : option (list uuid) }.

Definition eligible (os arch version : bytes) (targetSet : option (gset bytes)) (meta : AgentMeta) : bool :=
  negb (bool_decide (NormalizeOS (am_OS meta) ≠ os) || bool_decide (NormalizeArch (am_Arch meta) ≠ arch)) &&
  negb (bool_decide (am_AgentVersion meta = version)) &&
  match targetSet with Some s => bool_decide (uuid_String (am_DeviceID meta) ∈ s) | None => true end.

Definition eligibleAgents (os arch version : bytes) (targetSet : option (gset bytes)) : updating (list AgentMeta) :=
  agents ← call_out Connected;
  Ret (List.filter (eligible os arch version targetSet) agents).

(** How many were reached, and whether the manifest can be delivered at all. *)
Fixpoint pushManifestToAgents (ctx : Ctx) (m : Manifest) (agents : list AgentMeta) (pushed : Z) : updating (result upd_err Z) :=
  match agents with
  | [] => Ret (Ok pushed)
  | agent :: agents =>
      r ← SendAgentUpdate (am_DeviceID agent) (mf_Version m) (mf_URL m) (mf_SHA256 m) (mf_Signature m);
      match r with
      | Err (ErrIncompleteControlMessage what) => Ret (Err (ErrIncompleteControlMessage what))
      | Err _ => pushManifestToAgents ctx m agents pushed
      | Ok _ =>
          _ ← call_out (XCreate (cx_tenant ctx) (mk_du (am_DeviceID agent) (mf_Version m) StatusPending []));
          pushManifestToAgents ctx m agents (pushed + 1)
      end
  end.

Definition PushUpdate (cfg : option updater_config) (ctx : Ctx) (body : PushBody) : uhandler Z :=
  if negb (isAdmin ctx) then uanswer 403 msgAdminRequired
  else match cfg with
  | None => uanswer 403 msgUpdateNotConfigured
  | Some cfg =>
      uand (Get (uc_dir cfg) (pu_Os body) (pu_Arch body)) (λ m,
      match m with
      | None => uanswer 404 (lit "no manifest for " ++ pu_Os body ++ lit "/" ++ pu_Arch body)
      | Some m =>
          if bool_decide (mf_Version m ≠ pu_Version body)
          then uanswer 404 (lit "manifest version " ++ mf_Version m ++ lit " does not match requested " ++ pu_Version body)
          else
            let targetSet := (λ ids, list_to_set (uuid_String <$> ids)) <$> pu_DeviceIds body in
            agents ← eligibleAgents (pu_Os body) (pu_Arch body) (mf_Version m) targetSet;
            pushed ← pushManifestToAgents ctx m agents 0;
            match pushed with
            | Err (ErrIncompleteControlMessage what) => uanswer 400 what
            | Err e => Ret (Err e)
            | Ok n =>
                _ ← call_out (AuditUpdate (ContextUserID ctx) (lit "update.push") (pu_Os body ++ lit "/" ++ pu_Arch body)
                                (lit "version=" ++ mf_Version m ++ lit " pushed=" ++ lit (pretty n)));
                Ret (Ok (Success n))
            end
      end)
  end.

Definition GetUpdateStatus (ctx : Ctx) (version : bytes) : uhandler (list update_row) :=
  if negb (isAdmin ctx) then uanswer 403 msgAdminRequired
  else uand (call_out (XListByVersion (cx_tenant ctx) version)) (λ rows, Ret (Ok (Success rows))).

Definition GetUpdateSigningKey (cfg : option updater_config) (ctx : Ctx) : uhandler bytes :=
  if negb (isAdmin ctx) then uanswer 403 msgAdminRequired
  else match cfg with
       | None => uanswer 403 msgUpdateNotConfigured
       | Some cfg => Ret (Ok (Success (PublicKeyHex (uc_signing cfg))))
       end.

(** [handleUpdateAck]: the machine's tenant is its connection's. *)
Definition handleUpdateAck (ctx : option Tenant) (device : uuid) (version : bytes) (success : option bool) (ackError : bytes) :
    updating (result upd_err unit) :=
  let status := match success with Some true => StatusSuccess | _ => StatusFailed end in
  _ ← call_out (XSetStatus ctx device version status ackError);
  Ret (Ok tt).

(** ** [github.go] *)

Definition fetchSHA256 (url : bytes) : updating (result upd_err bytes) :=
  body ← call_out (GetBody url);
  match body with
  | None => Ret (Err FetchFailed)
  | Some body =>
      match Fields (TrimSpace (take 1024 body)) with
      | [] => Ret (Err EmptySha)
      | hexStr :: _ =>
          Ret (if negb (bool_decide (length hexStr = 64%nat)) then Err BadShaLength
               else match hex_DecodeString hexStr with None => Err BadShaHex | Some _ => Ok hexStr end)
      end
  end.

(** The asset of a name: the last one listed. *)
Definition asset (release : ghRelease) (name : bytes) : option ghAsset :=
  List.find (λ a, bool_decide (as_Name a = name)) (rev (gr_Assets release)).

Fixpoint sync_platforms (cfg : updater_config) (release : ghRelease) (platforms : list (bytes * bytes)) :
    updating (result upd_err (list Manifest)) :=
  match platforms with
  | [] => Ret (Ok [])
  | (os, arch) :: platforms =>
      let binaryName := lit "mesh-agent-" ++ os ++ lit "-" ++ arch in
      match asset release binaryName, asset release (binaryName ++ lit ".sha256") with
      | Some binary, Some sha =>
          uand (fetchSHA256 (as_BrowserDownloadURL sha)) (λ sha256Hex,
          match SignHash (uc_signing cfg) sha256Hex with
          | None => Ret (Err SignFailed)
          | Some sig =>
              now ← call_out UNow;
              let m := mk_manifest (TrimPrefix (gr_TagName release) (lit "v")) os arch (as_BrowserDownloadURL binary)
                         sha256Hex sig now in
              uand (Put (uc_dir cfg) m) (λ _,
              uand (sync_platforms cfg release platforms) (λ synced, Ret (Ok (m :: synced))))
          end)
      | _, _ => sync_platforms cfg release platforms
      end
  end.

Definition SyncFromGitHub (cfg : updater_config) (repo : bytes) : updating (result upd_err (list Manifest)) :=
  if bool_decide (repo = []) then Ret (Err RepoRequired)
  else
    release ← call_out (GetRelease repo);
    match release with
    | None => Ret (Err FetchFailed)
    | Some release => sync_platforms cfg release [(lit "linux", lit "amd64"); (lit "linux", lit "arm64")]
    end.

(** ** Requests *)

Inductive update_request :=
  | RPublish (ctx : Ctx) (body : PublishBody)
  | RPush (ctx : Ctx) (body : PushBody)
  | RAck (ctx : option Tenant) (device : uuid) (version : bytes) (success : option bool) (ackError : bytes)
  | RSync (repo : bytes)
  | RList
  | RStatus (ctx : Ctx) (version : bytes)
  | RSigningKey (ctx : Ctx).

(** What each is served by, its answer aside. *)
Definition serve_update (cfg : updater_config) (q : update_request) : updating unit :=
  match q with
  | RPublish ctx body => _ ← PublishUpdate (Some cfg) ctx body; Ret tt
  | RPush ctx body => _ ← PushUpdate (Some cfg) ctx body; Ret tt
  | RAck ctx device version success ackError => _ ← handleUpdateAck ctx device version success ackError; Ret tt
  | RSync repo => _ ← SyncFromGitHub cfg repo; Ret tt
  | RList => _ ← ListUpdateManifests (Some cfg); Ret tt
  | RStatus ctx version => _ ← GetUpdateStatus ctx version; Ret tt
  | RSigningKey ctx => _ ← GetUpdateSigningKey (Some cfg) ctx; Ret tt
  end.
End updates.

(** ** Running *)

Record update_world := mk_uworld {
  uw_files : gmap bytes bytes;
  uw_agents : list AgentMeta;
  uw_updates : list update_row;
  uw_sent : list (uuid * AgentUpdate);
  uw_audit : list (uuid * bytes * bytes * bytes);
}.

(** What the surroundings decide of a call. *)
Record uanswers := mk_uanswers {
  un_ok : bool;                       (* the call succeeds *)
  un_cut : nat;                       (* how much of a failed write that began is kept *)
  un_landed : bool;                   (* a failed write, send or statement took effect all the same *)
  un_now : time;
  un_key : option (bytes * bytes);
  un_release : option ghRelease;
  un_body : option bytes;
}.

Definition set_files (w : update_world) x := mk_uworld x (uw_agents w) (uw_updates w) (uw_sent w) (uw_audit w).
Definition set_updates (w : update_world) x := mk_uworld (uw_files w) (uw_agents w) x (uw_sent w) (uw_audit w).
Definition set_sent (w : update_world) x := mk_uworld (uw_files w) (uw_agents w) (uw_updates w) x (uw_audit w).
Definition add_update_audit (w : update_world) x :=
  mk_uworld (uw_files w) (uw_agents w) (uw_updates w) (uw_sent w) (uw_audit w ++ [x]).

(** [Create]: the row is the caller's tenant's. *)
Definition create_update (t : Tenant) (du : DeviceUpdate) (w : update_world) : update_world :=
  set_updates w (uw_updates w ++ [mk_urow (TenantID t) du false]).

(** [SetStatus]: every row of the caller's tenant for the device and the version; it
    is an error when there is none. *)
Definition set_update_status (t : Tenant) (device : uuid) (version : bytes) (status : Status) (err : bytes) (w : update_world) :
    bool * update_world :=
  let hit r := bool_decide (ur_tenant r = TenantID t) && bool_decide (du_DeviceID (ur_update r) = device) &&
               bool_decide (du_Version (ur_update r) = version) in
  (existsb hit (uw_updates w),
   set_updates w ((λ r, if hit r then mk_urow (ur_tenant r) (mk_du device version status err) true else r) <$> uw_updates w)).

(** [ListByVersion]: the caller's tenant's rows, the newest first. *)
Definition updates_of_version (t : Tenant) (version : bytes) (w : update_world) : list update_row :=
  rev (List.filter (λ r, bool_decide (ur_tenant r = TenantID t) && bool_decide (du_Version (ur_update r) = version)) (uw_updates w)).

(** The files of a folder, by name. *)
Definition files_in (dir : bytes) (w : update_world) : list (bytes * bytes) :=
  omap (λ kv, let name := drop (S (length dir)) kv.1 in
              if HasPrefix kv.1 (dir ++ [slash]) && negb (bool_decide (slash ∈ name)) then Some (name, kv.2) else None)
    (map_to_list (uw_files w)).

Definition uexec {R} (c : ucall R) (an : uanswers) (w : update_world) : R * update_world :=
  match c in ucall R return R * update_world with
  | FMkdir _ => (un_ok an, w)
  | FWrite path data =>
      if un_ok an then (true, set_files w (<[path := data]> (uw_files w)))
      else (false, if un_landed an then set_files w (<[path := take (un_cut an) data]> (uw_files w)) else w)
  | FRead path => (if un_ok an then Ok (uw_files w !! path) else Err ReadFailed, w)
  | FList dir => (if un_ok an then Ok (files_in dir w) else Err ReadFailed, w)
  | UNow => (un_now an, w)
  | Connected => (uw_agents w, w)
  | StreamWrite device msg =>
      if un_ok an then (true, set_sent w (uw_sent w ++ [(device, msg)]))
      else (false, if un_landed an then set_sent w (uw_sent w ++ [(device, msg)]) else w)
  | XCreate ctx du =>
      match TenantFromContext ctx with
      | None => (Err ErrTenantRequired, w)
      | Some t => if un_ok an then (Ok tt, create_update t du w)
                  else (Err DbFailed, if un_landed an then create_update t du w else w)
      end
  | XSetStatus ctx device version status err =>
      match TenantFromContext ctx with
      | None => (Err ErrTenantRequired, w)
      | Some t =>
          let '(found, w') := set_update_status t device version status err w in
          if un_ok an then (if found then Ok tt else Err UpdateNotFound, w')
          else (Err DbFailed, if un_landed an then w' else w)
      end
  | XListByVersion ctx version =>
      (match TenantFromContext ctx with
       | None => Err ErrTenantRequired
       | Some t => if un_ok an then Ok (updates_of_version t version w) else Err DbFailed
       end, w)
  | GenerateKey => (un_key an, w)
  | GetRelease _ => (un_release an, w)
  | GetBody _ => (un_body an, w)
  | AuditUpdate user action target detail => (tt, add_update_audit w (user, action, target, detail))
  end.

(** A schedule runs handlers one call at a time, machines coming and going between. *)
Inductive uact := URun (i : nat) (an : uanswers) | UAgents (agents : list AgentMeta).

Fixpoint uruns {A} (acts : list uact) (pool : list (updating A)) (w : update_world) : list (updating A) * update_world :=
  match acts with
  | [] => (pool, w)
  | UAgents agents :: acts => uruns acts pool (mk_uworld (uw_files w) agents (uw_updates w) (uw_sent w) (uw_audit w))
  | URun i an :: acts =>
      match @lookup nat (updating A) _ _ i pool with
      | Some (Do c k) => let '(r, w) := uexec c an w in uruns acts (<[i := k r]> pool) w
      | _ => uruns acts pool w
      end
  end.
