(* ===== verification/UpdateClaims.v ===== *)
(** * What updates promise

    A machine is sent only updates signed with the server's key, however publishing,
    the release feed and pushes interleave and fail; a manifest's path never leaves
    the folder of manifests; a manifest put is the one got.  Examples show an
    acknowledgement that comes too early, an update recorded for another tenant, and
    two platforms that share a file. *)
From S2P Require Import Prelude GoTime GoStrings Settings Dbtx Codec Effect ApiWorld Accounts GoText Updates.

(** ** Hexadecimal *)

Lemma unhex_digit n : 0 ≤ n < 16 → unhex (hex_digit n) = Some n.
Proof.
  intros H. assert (n = 0 ∨ n = 1 ∨ n = 2 ∨ n = 3 ∨ n = 4 ∨ n = 5 ∨ n = 6 ∨ n = 7 ∨ n = 8 ∨ n = 9 ∨ n = 10 ∨ n = 11 ∨
    n = 12 ∨ n = 13 ∨ n = 14 ∨ n = 15) as Hn by lia.
  by repeat (destruct Hn as [->|Hn]; [reflexivity|]); subst.
Qed.

Lemma hex_decode_encode b : hex_DecodeString (hex_encode b) = Some b.
Proof.
  induction b as [|x b IH]; [done|]. unfold hex_encode in *. cbn [mbind list_bind app hex_DecodeString].
  pose proof (Z_of_byte_range x). rewrite !unhex_digit by (split; [apply Z.div_pos || apply Z.mod_pos_bound|]; try lia;
    apply Z.div_lt_upper_bound || apply Z.mod_pos_bound; lia).
  rewrite IH. do 2 f_equal. rewrite Z.mul_comm, <- Z.div_mod by lia. apply byte_of_Z_of_byte.
Qed.

Definition ascii (s : bytes) : Prop := Forall (λ b, Z_of_byte b < 128) s.

Lemma unhex_ascii b x : unhex b = Some x → Z_of_byte b < 128.
Proof. unfold unhex. repeat case_bool_decide; try lia. done. Qed.

Lemma hex_ascii s h : hex_DecodeString s = Some h → ascii s.
Proof.
  revert h. assert (∀ n s, (length s ≤ n)%nat → ∀ h, hex_DecodeString s = Some h → ascii s) as H; [|intros h; by apply (H (length s))].
  induction n as [|n IH]; intros [|a [|b s']] Hl h Hs; try (by constructor); cbn in Hl; try lia; try done.
  cbn in Hs. destruct (unhex a) eqn:Ea; [|done]. destruct (unhex b) eqn:Eb; [|done].
  destruct (hex_DecodeString s') eqn:Es; [|done]. constructor; [by eapply unhex_ascii|]. constructor; [by eapply unhex_ascii|].
  eapply IH; [|done]. lia.
Qed.

(** ** Paths *)

Lemma Split_slash a b : Split (a ++ slash :: b) slash = Split a slash ++ Split b slash.
Proof.
  induction a as [|x a IH]; cbn [app Split].
  - by rewrite bool_decide_true.
  - rewrite IH. case_bool_decide; [done|]. by destruct (Split a slash) eqn:E; [destruct (Split_nonnil a slash)|].
Qed.

Lemma Split_pieces s : Forall (λ c, slash ∉ c) (Split s slash).
Proof.
  induction s as [|x s IH]; cbn [Split]; [repeat constructor; apply not_elem_of_nil|].
  case_bool_decide; [constructor; [apply not_elem_of_nil|done]|].
  destruct (Split s slash) as [|piece rest]; inv IH; (constructor; [|done]); rewrite elem_of_cons; intros [|]; try done.
  by eapply not_elem_of_nil.
Qed.

Lemma join_Split s : join (Split s slash) = s.
Proof.
  induction s as [|x s IH]; [done|]. cbn [Split]. case_bool_decide as Hx.
  - subst. destruct (Split s slash) eqn:E; [destruct (Split_nonnil s slash)|]; try done. by rewrite <- IH.
  - destruct (Split s slash) as [|piece [|p2 rest]] eqn:E; [destruct (Split_nonnil s slash)| |]; try done; by rewrite <- IH.
Qed.

Lemma Split_plain c : slash ∉ c → Split c slash = [c].
Proof.
  induction c as [|x c IH]; [done|]. rewrite not_elem_of_cons. intros [Hx Hc]. cbn [Split]. by rewrite bool_decide_false, IH.
Qed.

Lemma Split_join l : l ≠ [] → Forall (λ c, slash ∉ c) l → Split (join l) slash = l.
Proof.
  induction l as [|c [|c2 l] IH]; [done| |]; intros _ Hl; inv Hl; [by apply Split_plain|].
  change (join (c :: c2 :: l)) with (c ++ slash :: join (c2 :: l)). rewrite Split_slash, IH by done. by rewrite Split_plain.
Qed.

Definition plain (c : bytes) : Prop := c ≠ [] ∧ c ≠ dot ∧ slash ∉ c.

(** What cleaning leaves, the last component first: a step up only after steps up,
    and none under the root. *)
Fixpoint cleaned (rooted : bool) (out : list bytes) : Prop :=
  match out with
  | [] => True
  | c :: out => plain c ∧ (c = dotdot → rooted = false ∧ Forall (eq dotdot) out) ∧ cleaned rooted out
  end.

Lemma clean_step_cleaned r out c : slash ∉ c → cleaned r out → cleaned r (clean_step r out c).
Proof.
  intros Hc Ho. unfold clean_step. case_bool_decide; [done|]. case_bool_decide; [done|]. cbn [orb].
  case_bool_decide as Hd; [|by repeat split; try done]. destruct out as [|o out]; [by destruct r; repeat split|].
  destruct Ho as (Hp & Hq & Ho). case_bool_decide as Hod; [|done]. subst.
  destruct (Hq eq_refl) as [-> Hall]. repeat split; try done. by constructor.
Qed.

Lemma foldl_cleaned r l out : Forall (λ c, slash ∉ c) l → cleaned r out → cleaned r (foldl (clean_step r) out l).
Proof. revert out. induction l as [|c l IH]; intros out Hl Ho; [done|]. inv Hl. by apply IH, clean_step_cleaned. Qed.

(** Cleaning leaves what is clean alone. *)
Lemma clean_again r l : cleaned r (rev l) → foldl (clean_step r) [] l = rev l.
Proof.
  induction l as [|c l IH] using rev_ind; [done|]. rewrite rev_app_distr, foldl_app. cbn [rev app foldl cleaned].
  intros ((H1 & H2 & _) & Hq & Ho). rewrite IH by done. unfold clean_step. rewrite !bool_decide_false by done. cbn [orb].
  case_bool_decide as Hd; [|done]. destruct (Hq Hd) as [-> Hall]. destruct (rev l) as [|o out]; [done|].
  inv Hall. by rewrite bool_decide_true.
Qed.

Lemma cleaned_plain r out : cleaned r out → Forall plain out.
Proof. induction out as [|c out IH]; [done|]. intros (? & _ & ?). constructor; [done|]. by apply IH. Qed.

Lemma cleaned_slash r l : cleaned r (rev l) → Forall (λ c, slash ∉ c) l.
Proof.
  intros H%cleaned_plain. rewrite <- (rev_involutive l). apply Forall_rev. eapply Forall_impl; [exact H|]. by intros c (_ & _ & ?).
Qed.

(** Below a named folder there is no step up. *)
Lemma cleaned_below r a m b : cleaned r (a ++ m :: b) → m ≠ dotdot → Forall (λ c, plain c ∧ c ≠ dotdot) a.
Proof.
  induction a as [|c a IH]; [done|]. intros (Hp & Hq & Hc) Hm. constructor; [|by apply IH]. split; [done|].
  intros E. destruct (Hq E) as [_ Hall]. apply Forall_app in Hall as [_ Hall]. by inv Hall.
Qed.

Definition before (rooted : bool) : list bytes := if rooted then [[]] else [].

Lemma Split_render r l : l ≠ [] → cleaned r (rev l) → Split (render r l) slash = before r ++ l.
Proof.
  intros Hl Hc%cleaned_slash. unfold render. destruct r; [|destruct l; [done|by apply Split_join]].
  change (slash :: join l) with ([] ++ slash :: join l). rewrite Split_slash, Split_join; done.
Qed.

Lemma is_rooted_render r l : l ≠ [] → cleaned r (rev l) → is_rooted (render r l) = r.
Proof.
  intros Hl Hc%cleaned_plain. assert (Forall plain l) as Hp by (rewrite <- (rev_involutive l); by apply Forall_rev).
  destruct r; [done|]. destruct l as [|[|x c] l]; [done|by inv Hp; destruct H1|]. inv Hp. destruct H1 as (_ & _ & Hs).
  apply not_elem_of_cons in Hs as [Hs _]. destruct l; cbn; by rewrite bool_decide_false.
Qed.

Lemma before_skip r out : foldl (clean_step r) out (before r) = out.
Proof. by destruct r. Qed.

Lemma Clean_render r l : l ≠ [] → cleaned r (rev l) → Clean (render r l) = render r l.
Proof.
  intros Hl Hc. unfold Clean. rewrite is_rooted_render, Split_render by done. f_equal. unfold clean_comps.
  rewrite foldl_app, before_skip, clean_again, rev_involutive; done.
Qed.

(** Cleaning any path gives a clean one, and a path with something named in it is
    not empty. *)
Lemma Clean_shape p : ∃ r l, Clean p = render r l ∧ cleaned r (rev l).
Proof.
  exists (is_rooted p), (clean_comps (is_rooted p) (Split p slash)). split; [done|].
  unfold clean_comps. rewrite rev_involutive. by apply foldl_cleaned; [apply Split_pieces|].
Qed.

Lemma manifest_dir_shape dataDir : ∃ r l, manifest_dir dataDir = render r (l ++ [lit "manifests"]) ∧
  cleaned r (rev (l ++ [lit "manifests"])).
Proof.
  assert (∃ p L, manifest_dir dataDir = Clean p ∧ Split p slash = L ++ [lit "manifests"]) as (p & L & -> & HL).
  { destruct dataDir as [|x d]; [by exists (lit "manifests"), []|].
    exists ((x :: d) ++ slash :: lit "manifests"), (Split (x :: d) slash). split; [done|]. by rewrite Split_slash. }
  pose proof (Split_pieces p) as Hs. rewrite HL in Hs. apply Forall_app in Hs as [Hs _].
  pose proof (foldl_cleaned (is_rooted p) L [] Hs I) as Hc.
  exists (is_rooted p), (rev (foldl (clean_step (is_rooted p)) [] L)). unfold Clean, clean_comps. rewrite HL, foldl_app.
  split; [done|]. rewrite rev_app_distr, rev_involutive. split; [|split; [done|done]].
  repeat split; [done|done|]. by apply (bool_decide_unpack _); vm_compute.
Qed.

(** Whatever platform a manifest names, the file it is read from or written to is
    below the folder of manifests: its path is the folder's and then names that are
    not empty and step nowhere else. *)
Theorem manifest_path_confined dataDir os arch p : safePath (manifest_dir dataDir) os arch = Some p →
  ∃ names, p = manifest_dir dataDir ++ slash :: join names ∧ names ≠ [] ∧ Forall (λ c, plain c ∧ c ≠ dotdot) names.
Proof.
  destruct (manifest_dir_shape dataDir) as (r & l & -> & Hc). assert (l ++ [lit "manifests"] ≠ []) as Hl by (by destruct l).
  unfold safePath, HasPrefix. rewrite Clean_render by done. case_bool_decide as Hp; [|done]. intros [= <-].
  set (dir := render r _) in *. set (q := Join _ _) in *.
  assert (q = dir ++ slash :: drop (S (length dir)) q) as Hq.
  { rewrite <- (take_drop (length (dir ++ [slash])) q) at 1. rewrite Hp, length_app, Nat.add_comm, <- app_assoc. done. }
  set (rest := drop _ q) in *. assert (Split q slash = (before r ++ l ++ [lit "manifests"]) ++ Split rest slash) as Hs.
  { rewrite Hq, Split_slash. unfold dir. by rewrite Split_render. }
  assert (∃ r' R, q = render r' R ∧ cleaned r' (rev R)) as (r' & R & Eq & HR).
  { unfold q, Join in *. destruct (filter _ _); [by destruct dir|apply Clean_shape]. }
  assert (R ≠ []) as HR0.
  { intros ->. assert (lit "manifests" ∈ Split q slash) as Hin by (rewrite Hs; set_solver).
    rewrite Eq in Hin. by destruct r'; apply (bool_decide_pack _) in Hin; vm_compute in Hin. }
  assert (r' = r) as ->.
  { rewrite <- (is_rooted_render r' R HR0 HR), <- Eq, Hq. rewrite <- (is_rooted_render r _ Hl Hc). fold dir.
    destruct dir as [|x d] eqn:Ed; [|done]. exfalso. by apply (f_equal (λ s, Split s slash)) in Ed; unfold dir in Ed;
    rewrite Split_render in Ed by done; destruct r, l as [|? []]. }
  rewrite Eq, Split_render, <- app_assoc in Hs by done. apply app_inv_head in Hs. rewrite Hs in HR.
  rewrite rev_app_distr, rev_app_distr in HR. cbn [rev app] in HR.
  exists (Split rest slash). split; [by rewrite join_Split|]. split; [apply Split_nonnil|].
  apply cleaned_below in HR; [|done]. rewrite <- (rev_involutive (Split rest slash)). by apply Forall_rev.
Qed.

(** ** The signing keys *)

Section keys.
Context (MarshalKeys : bytes * bytes → bytes) (UnmarshalKeys : bytes → option (bytes * bytes)).
Context (keys_round_trip : ∀ kf, UnmarshalKeys (MarshalKeys kf) = Some kf).

Definition key_bytes (k : SigningKeys) : bytes := MarshalKeys (hex_encode (sk_Private k), hex_encode (sk_Public k)).

Lemma hex_encode_nonnil b : b ≠ [] → hex_encode b ≠ [].
Proof. by destruct b. Qed.

Lemma parse_keys_written k : sk_Private k ≠ [] → sk_Public k ≠ [] → parse_keys UnmarshalKeys (key_bytes k) = Ok k.
Proof.
  intros H1%hex_encode_nonnil H2%hex_encode_nonnil. unfold parse_keys, key_bytes. rewrite keys_round_trip.
  rewrite !bool_decide_false by done. cbn [orb]. rewrite !hex_decode_encode. by destruct k.
Qed.

(** The keys a start ends with, read or made, are the ones the next start reads:
    a server restarted signs as before, or does not start. *)
Theorem signing_keys_kept dataDir w w' k a1 a2 a3 b1 b2 b3 :
  (∀ pub priv, un_key a2 = Some (pub, priv) → pub ≠ [] ∧ priv ≠ []) →
  uruns (URun 0 <$> [a1; a2; a3]) [LoadOrGenerateSigningKeys MarshalKeys UnmarshalKeys dataDir] w = ([Ret (Ok k)], w') →
  (uruns (URun 0 <$> [b1; b2; b3]) [LoadOrGenerateSigningKeys MarshalKeys UnmarshalKeys dataDir] w').1 =
  [Ret (if un_ok b1 then Ok k else Err ReadFailed)].
Proof.
  intros Hkey. cbn. destruct (un_ok a1); cbn; [|done]. destruct (uw_files w !! keys_path dataDir) as [data|] eqn:Ef; cbn.
  - intros [= Ep <-]. rewrite Ef. by destruct (un_ok b1); cbn; rewrite ?Ep.
  - destruct (un_key a2) as [[pub priv]|]; cbn; [|done]. destruct (Hkey pub priv eq_refl) as [Hpub Hpriv].
    destruct (un_ok a3); cbn; [|done]. intros [= <- <-]. cbn. rewrite lookup_insert_eq.
    destruct (un_ok b1); cbn; [|done]. by apply (f_equal (λ r, [Ret r])), (parse_keys_written (mk_keys priv pub)).
Qed.
End keys.

(** ** Signed updates *)

Section signed.
Context (Sign : bytes → bytes → bytes) (Verify : bytes → bytes → bytes → bool).
Context (Marshal : Manifest → bytes) (Unmarshal : bytes → option Manifest).
Context (ToLower : bytes → bytes) (Fields : bytes → list bytes).
Context (cfg : updater_config).
(** The keys are a pair; JSON reads back what it wrote, invalid text replaced, and
    refuses a part of it. *)
Context (signs : ∀ h, Verify (sk_Public (uc_signing cfg)) h (Sign (sk_Private (uc_signing cfg)) h) = true).
Context (coerce : bytes → bytes) (coerce_ascii : ∀ s, ascii s → coerce s = s).
Definition coerced (m : Manifest) : Manifest :=
  mk_manifest (coerce (mf_Version m)) (coerce (mf_OS m)) (coerce (mf_Arch m)) (coerce (mf_URL m)) (coerce (mf_SHA256 m))
    (coerce (mf_Signature m)) (mf_CreatedAt m).
Context (json_round_trip : ∀ m, Unmarshal (Marshal m) = Some (coerced m)).
Context (json_part : ∀ m n, (n < length (Marshal m))%nat → Unmarshal (take n (Marshal m)) = None).

Local Abbreviation VerifyHash := (VerifyHash Verify (uc_signing cfg)).
Local Abbreviation SignHash := (SignHash Sign (uc_signing cfg)).
Local Abbreviation Put := (Put Marshal).
Local Abbreviation Get := (Get Unmarshal).
Local Abbreviation serve := (serve_update Sign Marshal Unmarshal ToLower Fields cfg).

Definition signed (m : Manifest) : Prop := VerifyHash (mf_SHA256 m) (mf_Signature m) = Some true.

(** Whatever is read from a file's bytes is signed. *)
Definition good (data : bytes) : Prop := ∀ m, Unmarshal data = Some m → signed m.

Definition signed_update (u : AgentUpdate) : Prop :=
  VerifyHash (ao_SHA256 u) (ao_Signature u) = Some true ∧ ao_Version u ≠ [] ∧ ao_URL u ≠ [] ∧ ao_Signature u ≠ [].

Definition updates_ok (w : update_world) : Prop :=
  map_Forall (λ _ data, good data) (uw_files w) ∧ Forall (λ du, signed_update du.2) (uw_sent w).

Definition umay {R} (c : ucall R) : Prop :=
  match c with
  | FWrite _ data => ∀ n, good (take n data)
  | StreamWrite _ u => signed_update u
  | _ => True
  end.

Definition ugiven {R} (c : ucall R) (r : R) : Prop :=
  match c in ucall R return R → Prop with
  | FRead _ => λ r, ∀ data, r = Ok (Some data) → good data
  | _ => λ _, True
  end r.

Fixpoint lawful {A} (p : updating A) : Prop :=
  match p with
  | Ret _ => True
  | Do c k => umay c ∧ ∀ r, ugiven c r → lawful (k r)
  | Panic => True
  end.

Lemma lawful_bind {A B} (p : updating A) (k : A → updating B) : lawful p → (∀ a, lawful (k a)) → lawful (p ≫= k).
Proof.
  intros Hp Hk. induction p as [a|R c k' IH|]; [apply Hk| |done]. destruct Hp as [Hm Hr]. split; [done|].
  intros r Hg. by apply IH, Hr.
Qed.

Lemma lawful_uand {A B} (p : updating (result upd_err A)) (k : A → updating (result upd_err B)) :
  lawful p → (∀ a, lawful (k a)) → lawful (uand p k).
Proof. intros Hp Hk. apply lawful_bind; [done|]. intros [a|e]; [apply Hk|done]. Qed.

Lemma lawful_call {R A} (c : ucall R) (k : R → updating A) : umay c → (∀ r, lawful (k r)) → lawful (r ← call_out c; k r).
Proof. intros Hm Hk. split; [done|]. intros r _. apply Hk. Qed.

Lemma sign_signed v os arch url sha sig now : SignHash sha = Some sig → signed (coerced (mk_manifest v os arch url sha sig now)).
Proof.
  unfold Updates.SignHash. destruct (hex_DecodeString sha) as [h|] eqn:Eh; [|done]. intros [= <-].
  unfold signed, Updates.VerifyHash, coerced. cbn [mf_SHA256 mf_Signature].
  rewrite (coerce_ascii sha) by (by eapply hex_ascii).
  rewrite coerce_ascii by (eapply hex_ascii, hex_decode_encode).
  by rewrite Eh, hex_decode_encode, signs.
Qed.

Lemma written_good m : signed (coerced m) → ∀ n, good (take n (Marshal m)).
Proof.
  intros Hs n m'. destruct (decide (n < length (Marshal m))%nat) as [H|H]; [by rewrite json_part|].
  rewrite take_ge by lia. rewrite json_round_trip. by intros [= <-].
Qed.

Lemma lawful_Put m : signed (coerced m) → lawful (Put (uc_dir cfg) m).
Proof.
  intros Hs. apply lawful_call; [done|]. intros []; [|done]. cbn [negb].
  destruct (safePath _ _ _); [|done]. apply lawful_call; [intros n; by apply written_good|]. by intros [].
Qed.

Lemma lawful_publish ctx body : lawful (PublishUpdate Sign Marshal (Some cfg) ctx body).
Proof.
  unfold PublishUpdate. destruct (negb _); [done|]. destruct (SignHash _) as [sig|] eqn:Es; [|done].
  apply lawful_call; [done|]. intros now. apply lawful_uand; [by apply lawful_Put, sign_signed|].
  intros _. by apply lawful_call.
Qed.

Lemma lawful_send m agents ctx n : signed m → lawful (pushManifestToAgents ctx m agents n).
Proof.
  intros Hm. revert n. induction agents as [|a agents IH]; intros n; [done|]. cbn [pushManifestToAgents].
  apply lawful_bind.
  - unfold SendAgentUpdate. destruct (requireNonEmptyFields _ _) eqn:Er; [done|].
    apply lawful_call; [|by intros []]. unfold requireNonEmptyFields in Er. cbn [List.find snd] in Er.
    repeat case_bool_decide; done.
  - intros [u|e]; [|by destruct e]. apply lawful_call; [done|]. intros _. apply IH.
Qed.

Lemma lawful_Get {B} os arch (k : option Manifest → updating (result upd_err B)) :
  (∀ m, signed m → lawful (k (Some m))) → lawful (k None) → lawful (uand (Get (uc_dir cfg) os arch) k).
Proof.
  intros H1 H2. unfold Updates.Get. destruct (safePath _ _ _); [|done].
  split; [done|]. intros [[data|]|e] Hg; [|done|done]. specialize (Hg data eq_refl).
  cbn. destruct (Unmarshal data) as [m|] eqn:Eu; [|done]. by apply H1, Hg.
Qed.

Lemma lawful_push ctx body : lawful (PushUpdate Unmarshal ToLower (Some cfg) ctx body).
Proof.
  unfold PushUpdate. destruct (negb _); [done|]. apply lawful_Get; [|done]. intros m Hm. case_bool_decide; [done|].
  apply lawful_bind; [by apply lawful_call|]. intros agents. apply lawful_bind; [by apply lawful_send|].
  intros [k|e]; [|by destruct e]. by apply lawful_call.
Qed.

Lemma lawful_sync repo : lawful (SyncFromGitHub Sign Marshal Fields cfg repo).
Proof.
  unfold SyncFromGitHub. case_bool_decide; [done|]. apply lawful_call; [done|]. intros [release|]; [|done].
  generalize [(lit "linux", lit "amd64"); (lit "linux", lit "arm64")]. intros l.
  induction l as [|[os arch] l IH]; [done|]. cbn [sync_platforms].
  destruct (asset _ _) as [b|]; [|done]. destruct (asset _ (_ ++ lit ".sha256")) as [s|]; [|done].
  apply lawful_uand.
  - apply lawful_call; [done|]. intros [body|]; [|done]. by destruct (Fields _).
  - intros sha. destruct (SignHash sha) as [sig|] eqn:Es; [|done]. apply lawful_call; [done|]. intros now.
    apply lawful_uand; [by apply lawful_Put, sign_signed|]. intros _. by apply lawful_uand.
Qed.

Lemma lawful_serve q : lawful (serve q).
Proof.
  destruct q; (apply lawful_bind; [|by intros]).
  - apply lawful_publish.
  - apply lawful_push.
  - unfold handleUpdateAck. by apply lawful_call.
  - apply lawful_sync.
  - do 2 (apply lawful_uand; [|done]). by split.
  - unfold GetUpdateStatus. destruct (negb _); [done|]. apply lawful_uand; [|done]. by split.
  - unfold GetUpdateSigningKey. by destruct (negb _).
Qed.

Lemma uexec_ok {R} (c : ucall R) an w : umay c → updates_ok w → updates_ok (uexec c an w).2 ∧ ugiven c (uexec c an w).1.
Proof.
  intros Hm [Hf Hs]. assert (updates_ok w) as Hw by done.
  destruct c; cbn in *; try done.
  - split; [|by destruct (un_ok an)]. destruct (un_ok an); [|destruct (un_landed an); [|done]]; (split; [|done]);
      apply map_Forall_insert_2; try done.
    specialize (Hm (length data)). by rewrite firstn_all in Hm.
  - split; [done|]. intros data. destruct (un_ok an); [|done]. intros [= E]. by apply (Hf path).
  - assert (updates_ok (set_sent w (uw_sent w ++ [(device, msg)]))) as Hw'.
    { split; [done|]. cbn. apply Forall_app. split; [done|]. by constructor. }
    split; [|done]. by destruct (un_ok an), (un_landed an).
  - destruct (TenantFromContext ctx); [|done]. by destruct (un_ok an), (un_landed an).
  - destruct (TenantFromContext ctx); [|done]. by destruct (un_ok an), (un_landed an).
Qed.

Lemma uruns_ok {A} acts (pool : list (updating A)) w : (∀ i p, pool !! i = Some p → lawful p) → updates_ok w →
  updates_ok (uruns acts pool w).2.
Proof.
  revert pool w. induction acts as [|[i an|agents] acts IH]; intros pool w Hp Hw; [done| |by apply IH].
  cbn. destruct (pool !! i) as [[a|R c k|]|] eqn:Ei; [by apply IH| |by apply IH|by apply IH].
  destruct (Hp i _ Ei) as [Hm Hr]. pose proof (uexec_ok c an w Hm Hw) as [Hw' Hg].
  destruct (uexec c an w) as [r w']. apply IH; [|done]. intros j p. rewrite list_lookup_insert. case_decide; [|by apply Hp].
  intros [= <-]. by apply Hr.
Qed.

(** C11: However publishing, the release feed, pushes and acknowledgements interleave,
    fail or leave files half written, every update a machine is sent has its version,
    its address and a signature of its hash that the server's public key verifies. *)
Theorem updates_signed acts (requests : list update_request) w :
  updates_ok w → Forall (λ du, signed_update du.2) (uw_sent (uruns acts (serve <$> requests) w).2).
Proof.
  intros Hw. apply uruns_ok; [|done]. intros i p. rewrite list_lookup_fmap. destruct (requests !! i) as [q|]; [|done].
  intros [= <-]. apply lawful_serve.
Qed.
End signed.

(** ** A shop of updates *)

Module Shop.

(** Self-delimiting text in place of JSON. *)
Definition enc (l : bytes) : bytes := concat ((λ b, [x01; b]) <$> l) ++ [x00].
Fixpoint dec (l : bytes) : option (bytes * bytes) :=
  match l with
  | x00 :: r => Some ([], r)
  | x01 :: b :: r => match dec r with Some (t, r') => Some (b :: t, r') | None => None end
  | _ => None
  end.

Lemma dec_take l r n : dec (take n (enc l ++ r)) =
  if decide (n < length (enc l))%nat then None else Some (l, take (n - length (enc l)) r).
Proof.
  revert n. induction l as [|b l IH]; intros n.
  - destruct n; [done|]. rewrite decide_False by (cbn; lia). cbn. by rewrite Nat.sub_0_r.
  - destruct n as [|[|n]]; [done|done|]. change (enc (b :: l)) with (x01 :: b :: enc l). cbn [app take dec length]. rewrite IH.
    by repeat case_decide; try lia.
Qed.

Fixpoint pos_bytes (p : positive) : bytes :=
  match p with xH => [] | xO p => x00 :: pos_bytes p | xI p => x01 :: pos_bytes p end.
Fixpoint bytes_pos (l : bytes) : positive :=
  match l with [] => xH | x00 :: l => xO (bytes_pos l) | _ :: l => xI (bytes_pos l) end.
Lemma bytes_pos_bytes p : bytes_pos (pos_bytes p) = p.
Proof. induction p as [p IH|p IH|]; cbn; by rewrite ?IH. Qed.

Definition fields (m : Manifest) : list bytes :=
  [mf_Version m; mf_OS m; mf_Arch m; mf_URL m; mf_SHA256 m; mf_Signature m; pos_bytes (encode (mf_CreatedAt m))].
Definition of_fields (l : list bytes) : option Manifest :=
  match l with
  | [v; os; arch; url; sha; sig; t] => mk_manifest v os arch url sha sig <$> decode (bytes_pos t)
  | _ => None
  end.

Fixpoint dec_all (n : nat) (l : bytes) : option (list bytes) :=
  match n with
  | O => if bool_decide (l = []) then Some [] else None
  | S n => match dec l with Some (f, r) => (f ::.) <$> dec_all n r | None => None end
  end.

Definition Marshal (m : Manifest) : bytes := concat (enc <$> fields m).
Definition Unmarshal (data : bytes) : option Manifest := dec_all 7 data ≫= of_fields.

Lemma dec_all_take l n : (n ≤ length (concat (enc <$> l)))%nat →
  dec_all (length l) (take n (concat (enc <$> l))) = if decide (n < length (concat (enc <$> l)))%nat then None else Some l.
Proof.
  revert n. induction l as [|f l IH]; intros n Hn; cbn in Hn |- *.
  - by destruct n; [|lia].
  - rewrite length_app in Hn. rewrite dec_take, length_app. case_decide; [by rewrite decide_True by lia|].
    rewrite IH by lia. repeat case_decide; try done; lia.
Qed.

Lemma of_fields_fields m : of_fields (fields m) = Some m.
Proof. destruct m. unfold of_fields, fields. by rewrite bytes_pos_bytes, decode_encode. Qed.

Lemma json_round_trip m : Unmarshal (Marshal m) = Some (coerced id m).
Proof.
  unfold Unmarshal, Marshal. pose proof (dec_all_take (fields m) _ (Nat.le_refl _)) as H.
  rewrite firstn_all, decide_False in H by lia. change 7%nat with (length (fields m)). rewrite H.
  change (Some (fields m) ≫= of_fields) with (of_fields (fields m)). rewrite of_fields_fields. by destruct m.
Qed.

Lemma json_part m n : (n < length (Marshal m))%nat → Unmarshal (take n (Marshal m)) = None.
Proof.
  intros Hn. unfold Unmarshal, Marshal in *. change 7%nat with (length (fields m)). rewrite dec_all_take by lia.
  by rewrite decide_True by lia.
Qed.

(** A signature is the key and what it signs. *)
Definition Sign (priv msg : bytes) : bytes := priv ++ msg.
Definition Verify (pub msg sig : bytes) : bool := bool_decide (sig = pub ++ msg).
Definition MarshalKeys (kf : bytes * bytes) : bytes := enc kf.1 ++ enc kf.2.
Definition UnmarshalKeys (data : bytes) : option (bytes * bytes) :=
  match dec_all 2 data with Some [a; b] => Some (a, b) | _ => None end.
Definition Fields (s : bytes) : list bytes := Split s x20.

Definition cfg : updater_config := mk_uconfig (mk_keys [x07] [x07]) (manifest_dir (lit "/var/lib/opengate")).
Abbreviation serve := (serve_update Sign Marshal Unmarshal id Fields cfg).

Definition tenant1 : Tenant := mk_tenant (replicate 15 x00 ++ [x11]) false.
Definition tenant2 : Tenant := mk_tenant (replicate 15 x00 ++ [x12]) false.
Definition admin : Ctx := mk_ctx (Some tenant1) (Some (mk_claims (replicate 15 x00 ++ [x21]) (TenantID tenant1) [] true)).
Definition box : AgentMeta := mk_meta (replicate 15 x00 ++ [x31]) (lit "ubuntu") (lit "x86_64") (lit "1.0").

Definition fine : uanswers := mk_uanswers true 0 false 0 (Some ([x09], [x09])) None None.
Definition torn : uanswers := mk_uanswers false 3 true 0 None None None.
Definition world0 : update_world := mk_uworld ∅ [box] [] [] [].

Definition publish : update_request :=
  RPublish admin (mk_publish (lit "2.0") (lit "linux") (lit "amd64") (lit "https://example.org/a") (lit "00ff")).
Definition push : update_request := RPush admin (mk_push (lit "2.0") (lit "linux") (lit "amd64") None).
Definition ack (t : Tenant) : update_request := RAck (Some t) (am_DeviceID box) (lit "2.0") (Some true) [].

Definition steps (l : list nat) : list uact := (λ i, URun i fine) <$> l.
Abbreviation after := (λ acts qs, (uruns acts (serve <$> qs) world0).2).

Lemma world0_ok : updates_ok Verify Unmarshal cfg world0.
Proof. by split. Qed.

Lemma keys_pair h : Verify (sk_Public (uc_signing cfg)) h (Sign (sk_Private (uc_signing cfg)) h) = true.
Proof. apply bool_decide_true. done. Qed.

(** Published and pushed, with a torn publication before it: one machine is sent the
    update, signed. *)
Lemma updates_signed_witness :
  let w := after ([URun 2 fine; URun 2 fine; URun 2 torn] ++ steps [0; 0; 0; 0; 1; 1; 1; 1; 1]%nat) [publish; push; publish] in
  fst <$> uw_sent w = [am_DeviceID box] ∧ Forall (λ du, signed_update Verify cfg du.2) (uw_sent w).
Proof.
  split; [by vm_compute|].
  apply (updates_signed Sign Verify Marshal Unmarshal id Fields cfg keys_pair id (λ _ _, eq_refl) json_round_trip json_part).
  apply world0_ok.
Defined.

Lemma manifest_path_confined_witness :
  safePath (manifest_dir (lit "/var/lib/opengate")) (lit "a/../../x") (lit "amd64") = None ∧
  ∃ names, lit "/var/lib/opengate/manifests/linux-amd64.json" = manifest_dir (lit "/var/lib/opengate") ++ slash :: join names ∧
    names ≠ [] ∧ Forall (λ c, plain c ∧ c ≠ dotdot) names.
Proof.
  split; [by vm_compute|]. apply (manifest_path_confined (lit "/var/lib/opengate") (lit "linux") (lit "amd64")). by vm_compute.
Defined.

Lemma keys_round_trip kf : UnmarshalKeys (MarshalKeys kf) = Some kf.
Proof.
  destruct kf as [a b]. unfold UnmarshalKeys, MarshalKeys. cbn [fst snd].
  pose proof (dec_all_take [a; b] _ (Nat.le_refl _)) as H. rewrite firstn_all, decide_False in H by lia.
  cbn [fmap list_fmap concat length] in H. rewrite app_nil_r in H. by rewrite H.
Qed.

Definition load := LoadOrGenerateSigningKeys MarshalKeys UnmarshalKeys (lit "/var/lib/opengate").

Lemma signing_keys_kept_witness :
  (uruns (URun 0 <$> [fine; fine; fine]) [load] (uruns (URun 0 <$> [fine; fine; fine]) [load] world0).2).1 =
  [Ret (Ok (mk_keys [x09] [x09]))].
Proof.
  apply (signing_keys_kept MarshalKeys UnmarshalKeys keys_round_trip (lit "/var/lib/opengate") world0 _ (mk_keys [x09] [x09])
           fine fine fine fine fine fine); [by intros pub priv [= <- <-]|]. by vm_compute.
Defined.

(** Keys written in part at the first start stop every later start. *)
Example torn_keys_refuse :
  (uruns (URun 0 <$> [fine; fine; fine]) [load] (uruns (URun 0 <$> [fine; fine; torn]) [load] world0).2).1 =
  [Ret (Err BadKeyFile)].
Proof. by vm_compute. Qed.

Definition statuses (w : update_world) : list (uuid * Status * bool) :=
  (λ r, (ur_tenant r, du_Status (ur_update r), ur_acked r)) <$> uw_updates w.

(** A machine that acknowledges before the push is recorded stays pending. *)
Example early_ack_lost : statuses (after (steps [0; 0; 0; 0; 1; 1; 1; 2; 1; 1]%nat) [publish; push; ack tenant1]) =
  [(TenantID tenant1, StatusPending, false)].
Proof. by vm_compute. Qed.

Example later_ack_recorded : statuses (after (steps [0; 0; 0; 0; 1; 1; 1; 1; 1; 2]%nat) [publish; push; ack tenant1]) =
  [(TenantID tenant1, StatusSuccess, true)].
Proof. by vm_compute. Qed.

(** A push reaches every tenant's machines and is recorded as the pusher's own, so
    the acknowledgement of another tenant's machine never finds it. *)
Example foreign_ack_lost : statuses (after (steps [0; 0; 0; 0; 1; 1; 1; 1; 1; 2]%nat) [publish; push; ack tenant2]) =
  [(TenantID tenant1, StatusPending, false)].
Proof. by vm_compute. Qed.

(** Two platforms, one file. *)
Example platforms_share_file :
  safePath (uc_dir cfg) (lit "linux-musl") (lit "amd64") = safePath (uc_dir cfg) (lit "linux") (lit "musl-amd64").
Proof. by vm_compute. Qed.
End Shop.
