(* ===== verification/Series.v ===== *)
(** * The time-series client

    [src/server/internal/telemetry] ([types.go], [vm.go], [vm_query.go],
    [vm_delete.go], [vm_http.go]): samples written as exposition text under labels
    the server owns, selectors that the client scopes to a tenant, the queries made
    of them, the reading of answers, and the deletion and enumeration of series.

    Requests are calls that fail: a request is its path, its parameters (whose
    escaping in a URL is [net/url]'s) and its body, and the answer to a read is its
    decoded JSON.  Printing and parsing of floats and the parsing of uuids are
    parameters. *)
From stdpp Require Import pretty.
From S2P Require Import Prelude GoTime GoStrings Float Settings Sorting Codec Effect Telemetry GoText Seconds.

(** ** Names, labels and their text *)

Definition between (lo hi b : byte) : bool := bool_decide (Z_of_byte lo ≤ Z_of_byte b ≤ Z_of_byte hi).
Definition is_letter (b : byte) : bool := between x61 x7a b || between x41 x5a b.
Definition is_digit (b : byte) : bool := between x30 x39 b.
Definition underscore : byte := x5f.
Definition colon : byte := x3a.

Definition label_start (b : byte) : bool := is_letter b || bool_decide (b = underscore).
Definition label_byte (b : byte) : bool := label_start b || is_digit b.
Definition metric_start (b : byte) : bool := label_start b || bool_decide (b = colon).
Definition metric_byte (b : byte) : bool := metric_start b || is_digit b.

(** [metricNameRE] and [labelNameRE] *)
Definition metricNameRE (s : bytes) : bool := match s with b :: s => metric_start b && forallb metric_byte s | [] => false end.
Definition labelNameRE (s : bytes) : bool := match s with b :: s => label_start b && forallb label_byte s | [] => false end.

Definition quote : byte := x22.
Definition backslash : byte := x5c.
Definition newline : byte := x0a.
Definition open_brace : byte := x7b.
Definition close_brace : byte := x7d.

Definition escapeLabelValue (v : bytes) : bytes :=
  let v := ReplaceAll v backslash [backslash; backslash] in
  let v := ReplaceAll v newline [backslash; x6e] in
  ReplaceAll v quote [backslash; quote].

(** [%q] of a uuid's text, which has nothing to escape. *)
Definition quoted (s : bytes) : bytes := quote :: s ++ [quote].

Definition tenantLabel : bytes := lit "tenant_id".
Definition deviceLabel : bytes := lit "device_id".
Definition environmentLabel : bytes := lit "namespace".
Definition matchParam : bytes := lit "match[]".

(** The loop that writes names with their quoted values, commas between. *)
Fixpoint label_list (l : list (bytes * bytes)) : bytes :=
  match l with
  | [] => []
  | [(k, v)] => k ++ x3d :: quoted (escapeLabelValue v)
  | (k, v) :: l => k ++ x3d :: quoted (escapeLabelValue v) ++ x2c :: label_list l
  end.

(** The pairs of a map, its keys sorted. *)
Definition sorted_labels (m : gmap bytes bytes) : list (bytes * bytes) :=
  (λ k, (k, default [] (m !! k))) <$> sort_Strings (map_to_list m).*1.

Inductive vm_err :=
  | InvalidMetricName | InvalidLabelName | InvalidValue | ErrTenantMatcherNotAllowed | ErrReservedLabel | TenantRequired
  | SelectorRequired | UnsupportedSelector | UnsupportedAggregation | StepNotPositive | RequestFailed | DecodeFailed
  | StatusNotSuccess | BadTimestamp | BadValueType | BadValue.

#[global] Instance vm_err_eq_dec : EqDecision vm_err.
Proof. solve_decision. Defined.

(** ** Selectors *)

Definition buildSelector (metric : bytes) (matchers : gmap bytes bytes) : result vm_err bytes :=
  if negb (metricNameRE metric) then Err InvalidMetricName
  else if bool_decide (is_Some (matchers !! tenantLabel)) then Err ErrTenantMatcherNotAllowed
  else if bool_decide (size matchers = 0%nat) then Ok metric
  else if negb (forallb labelNameRE (map_to_list matchers).*1) then Err InvalidLabelName
  else Ok (metric ++ open_brace :: label_list (sorted_labels matchers) ++ [close_brace]).

Definition ScopeSelector (selector : bytes) (tenantID : uuid) : result vm_err bytes :=
  if bool_decide (tenantID = Nil) then Err TenantRequired
  else
    let selector := TrimSpace selector in
    if bool_decide (selector = []) then Err SelectorRequired
    else if Contains selector tenantLabel then Err ErrTenantMatcherNotAllowed
    else match IndexByte selector open_brace with
         | None => Ok (selector ++ open_brace :: tenantLabel ++ x3d :: quoted (uuid_String tenantID) ++ [close_brace])
         | Some open =>
             if negb (HasSuffix selector [close_brace]) || bool_decide (open = length selector - 1)%nat
             then Err UnsupportedSelector
             else
               let inner := take (length selector - 1 - S open) (skipn (S open) selector) in
               if bool_decide (TrimSpace inner = [])
               then Ok (take open selector ++ open_brace :: tenantLabel ++ x3d :: quoted (uuid_String tenantID) ++ [close_brace])
               else Ok (take open selector ++ open_brace :: tenantLabel ++ x3d :: quoted (uuid_String tenantID) ++ x2c ::
                        inner ++ [close_brace])
         end.

Definition scopedSelector (tenantID : uuid) (metric : bytes) (matchers : gmap bytes bytes) : result vm_err bytes :=
  selector ← buildSelector metric matchers; ScopeSelector selector tenantID.

Definition subjectSelector (tenantID : uuid) (deviceID : option uuid) : result vm_err bytes :=
  if bool_decide (tenantID = Nil) then Err TenantRequired
  else match deviceID with
       | None => Ok (open_brace :: tenantLabel ++ x3d :: quoted (uuid_String tenantID) ++ [close_brace])
       | Some d => Ok (open_brace :: tenantLabel ++ x3d :: quoted (uuid_String tenantID) ++ x2c ::
                       deviceLabel ++ x3d :: quoted (uuid_String d) ++ [close_brace])
       end.

(** ** Requests *)

(** What JSON may hold where any value may be. *)
Inductive jany := JNumber (f : float64) | JString (s : bytes) | JOther.

Record matrix_result := mk_mres { mr_Metric : gmap bytes bytes; mr_Values : list (jany * jany); mr_Value : jany * jany }.
Record vmMatrixResponse := mk_matrix { vm_Status : bytes; vm_Result : list matrix_result }.
Record ExportedSeries := mk_exported { ex_Metric : gmap bytes bytes; ex_Values : list float64; ex_Timestamps : list Z }.

Abbreviation params := (list (bytes * bytes)).

(** A read's answer is [None] when the request fails or its status is not 200, and
    holds [None] when its body does not decode. *)
Inductive vcall : Type → Type :=
  | GetMatrix (path : bytes) (q : params) : vcall (option (option vmMatrixResponse))
  | GetExport (path : bytes) (q : params) : vcall (option (option (list ExportedSeries)))
  | GetSeries (path : bytes) (q : params) : vcall (option (option (list (gmap bytes bytes))))
  | PostText (path : bytes) (q : params) (body : bytes) : vcall bool
  | PostForm (path : bytes) (q : params) : vcall bool
  | VNow : vcall time.

Abbreviation series A := (prog vcall (result vm_err A)).

Definition vand {A B} (p : series A) (k : A → series B) : series B :=
  r ← p; match r with Ok a => k a | Err e => Ret (Err e) end.

Definition read_answer {A} (r : option (option A)) : result vm_err A :=
  match r with None => Err RequestFailed | Some None => Err DecodeFailed | Some (Some a) => Ok a end.

(** [int64] and [int] in base ten. *)
Definition decimal (z : Z) : bytes := lit (pretty z).

Section client.
(** [strconv.FormatFloat] by its format, [strconv.ParseFloat], [uuid.Parse], and what
    the machine leaves in an integer of a float that does not fit. *)
Context (FormatFloat : byte → float64 → bytes) (ParseFloat : bytes → option float64) (uuid_Parse : bytes → option uuid).
Context (other : float64 → Z).

Record VMClient := mk_client { vc_deleteAuthKey : bytes; vc_namespace : bytes }.

(** ** Writing *)

Definition is_inf (f : float64) : bool := match f with S754_infinity _ => true | _ => false end.
Definition reserved (k : bytes) : bool :=
  bool_decide (k = tenantLabel) || bool_decide (k = deviceLabel) || bool_decide (k = environmentLabel).

(** [t.UTC().UnixMilli()] *)
Definition unix_milli (t : time) : Z := t `div` 1000000.

(** The server's two labels over the sample's. *)
Definition owned_labels (tenantID deviceID : uuid) (labels : gmap bytes bytes) : gmap bytes bytes :=
  labels ∪ {[tenantLabel := uuid_String tenantID; deviceLabel := uuid_String deviceID]}.

(** The order in which a map is ranged over decides which of two refused labels is
    named, which the error here leaves out. *)
Definition writePrometheusSample (tenantID deviceID : uuid) (sample : Sample) : series bytes :=
  if negb (metricNameRE (sm_Name sample)) then Ret (Err InvalidMetricName)
  else if is_nan (sm_Value sample) || is_inf (sm_Value sample) then Ret (Err InvalidValue)
  else
    ts ← (if bool_decide (sm_TS sample = zero_time) then call_out VNow else Ret (sm_TS sample));
    let keys := (map_to_list (sm_Labels sample)).*1 in
    if existsb reserved keys then Ret (Err ErrReservedLabel)
    else if negb (forallb labelNameRE keys) then Ret (Err InvalidLabelName)
    else Ret (Ok (sm_Name sample ++ open_brace :: label_list (sorted_labels (owned_labels tenantID deviceID (sm_Labels sample))) ++
                  close_brace :: x20 :: FormatFloat x67 (sm_Value sample) ++ x20 :: decimal (unix_milli ts) ++ [newline])).

Fixpoint write_samples (tenantID deviceID : uuid) (samples : list Sample) (body : bytes) : series bytes :=
  match samples with
  | [] => Ret (Ok body)
  | sample :: samples =>
      vand (writePrometheusSample tenantID deviceID sample) (λ line, write_samples tenantID deviceID samples (body ++ line))
  end.

Definition WriteSamples (v : VMClient) (tenantID deviceID : uuid) (samples : list Sample) : series unit :=
  match samples with
  | [] => Ret (Ok tt)
  | _ =>
      vand (write_samples tenantID deviceID samples []) (λ body,
      let q := if bool_decide (vc_namespace v = []) then []
               else [(lit "extra_label", environmentLabel ++ x3d :: vc_namespace v)] in
      ok ← call_out (PostText (lit "/api/v1/import/prometheus") q body);
      Ret (if (ok : bool) then Ok tt else Err RequestFailed))
  end.

(** ** Reading *)

Record RangeQuery := mk_range {
  rq_Metric : bytes; rq_Matchers : gmap bytes bytes; rq_Agg : bytes; rq_Start : time; rq_End : time; rq_Step : duration;
}.
Record RangeSeries := mk_rseries { rs_Labels : gmap bytes bytes; rs_Timestamps : list Z; rs_Values : list float64 }.
Record InstantValue := mk_instant { iv_Labels : gmap bytes bytes; iv_TS : Z; iv_Value : float64 }.

Definition RangeAvg : bytes := lit "avg".
Definition RangeMin : bytes := lit "min".
Definition RangeMax : bytes := lit "max".

Definition overTimeFunc (a : bytes) : option bytes :=
  if bool_decide (a = RangeAvg) then Some (lit "avg_over_time")
  else if bool_decide (a = RangeMin) then Some (lit "min_over_time")
  else if bool_decide (a = RangeMax) then Some (lit "max_over_time")
  else None.

Definition parseVMSample (pair : jany * jany) : result vm_err (Z * float64) :=
  match pair with
  | (JNumber tsFloat, JString valStr) =>
      match ParseFloat valStr with Some val => Ok (f_to_i64 other tsFloat, val) | None => Err BadValue end
  | (JNumber _, _) => Err BadValueType
  | _ => Err BadTimestamp
  end.

Fixpoint parse_samples (l : list (jany * jany)) : result vm_err (list (Z * float64)) :=
  match l with
  | [] => Ok []
  | smp :: l => p ← parseVMSample smp; rest ← parse_samples l; Ok (p :: rest)
  end.

Fixpoint matrixToRangeSeries (l : list matrix_result) : result vm_err (list RangeSeries) :=
  match l with
  | [] => Ok []
  | r :: l =>
      ps ← parse_samples (mr_Values r);
      rest ← matrixToRangeSeries l;
      Ok (mk_rseries (mr_Metric r) ps.*1 ps.*2 :: rest)
  end.

Fixpoint vectorToInstant (l : list matrix_result) : result vm_err (list InstantValue) :=
  match l with
  | [] => Ok []
  | r :: l =>
      p ← parseVMSample (mr_Value r);
      rest ← vectorToInstant l;
      Ok (mk_instant (mr_Metric r) p.1 p.2 :: rest)
  end.

Definition getMatrix (path : bytes) (q : params) : series (list matrix_result) :=
  r ← call_out (GetMatrix path q);
  Ret (out ← read_answer r;
       if bool_decide (vm_Status out = lit "success") then Ok (vm_Result out) else Err StatusNotSuccess).

Definition withoutEnvironment (expr : bytes) : bytes :=
  lit "max without (" ++ environmentLabel ++ lit ") (" ++ expr ++ lit ")".

(** [selector[<n>s]] *)
Definition windowed (selector : bytes) (secs : Z) : bytes := selector ++ lit "[" ++ decimal secs ++ lit "s]".

Definition instantQuery (expr : bytes) (at_ : time) : series (list InstantValue) :=
  vand (getMatrix (lit "/api/v1/query") [(lit "query", expr); (lit "time", decimal (unix at_))]) (λ resp,
  Ret (vectorToInstant resp)).

Definition range_expr (agg fn scoped : bytes) (stepSecs : Z) : bytes :=
  agg ++ lit " without (" ++ environmentLabel ++ lit ") (" ++ fn ++ lit "(" ++ windowed scoped stepSecs ++ lit "))".

Definition QueryRange (tenantID : uuid) (rq : RangeQuery) : series (list RangeSeries) :=
  match overTimeFunc (rq_Agg rq) with
  | None => Ret (Err UnsupportedAggregation)
  | Some fn =>
      if bool_decide (rq_Step rq ≤ 0) then Ret (Err StepNotPositive)
      else match scopedSelector tenantID (rq_Metric rq) (rq_Matchers rq) with
           | Err e => Ret (Err e)
           | Ok scoped =>
               let stepSecs := Z.max (int_seconds other (rq_Step rq)) 1 in
               vand (getMatrix (lit "/api/v1/query_range")
                       [(lit "query", range_expr (rq_Agg rq) fn scoped stepSecs);
                        (lit "start", decimal (unix (rq_Start rq))); (lit "end", decimal (unix (rq_End rq)));
                        (lit "step", decimal stepSecs ++ lit "s")]) (λ resp,
               Ret (matrixToRangeSeries resp))
           end
  end.

Definition scopedInstant (tenantID : uuid) (metric : bytes) (matchers : gmap bytes bytes) (at_ : time) (wrap : bytes → bytes) :
    series (list InstantValue) :=
  match scopedSelector tenantID metric matchers with
  | Err e => Ret (Err e)
  | Ok scoped => instantQuery (withoutEnvironment (wrap scoped)) at_
  end.

Definition QueryInstant (tenantID : uuid) (metric : bytes) (matchers : gmap bytes bytes) (at_ : time) : series (list InstantValue) :=
  scopedInstant tenantID metric matchers at_ (λ selector, selector).

Definition last_over (selector : bytes) (lookback : duration) : bytes :=
  lit "last_over_time(" ++ windowed selector (int_seconds other lookback) ++ lit ")".

Definition QueryInstantLookback (tenantID : uuid) (metric : bytes) (matchers : gmap bytes bytes) (at_ : time) (lookback : duration) :
    series (list InstantValue) :=
  scopedInstant tenantID metric matchers at_ (λ selector, last_over selector lookback).

Definition Export (tenantID : uuid) (selector : bytes) (start stop : time) : series (list ExportedSeries) :=
  match ScopeSelector selector tenantID with
  | Err e => Ret (Err e)
  | Ok scoped =>
      r ← call_out (GetExport (lit "/api/v1/export") [(matchParam, scoped); (lit "start", decimal (unix start)); (lit "end", decimal (unix stop))]);
      Ret (read_answer r)
  end.

(** ** Bands *)

Record BandCounts := mk_bands { bn_Anomalous : Z; bn_Watch : Z; bn_Healthy : Z }.

Definition MetricNodeAnomalyRate : bytes := lit "opengate_edge_node_anomaly_rate".
Definition bandLabel : bytes := lit "band".
Definition formatThreshold (v : float64) : bytes := FormatFloat x66 v.

(** The names of the bands with the samples each counts. *)
Definition bands (watch anomalous : float64) : list (bytes * bytes) :=
  [(lit "anomalous", lit ">= " ++ formatThreshold anomalous);
   (lit "watch", lit ">= " ++ formatThreshold watch ++ lit " < " ++ formatThreshold anomalous);
   (lit "healthy", lit "< " ++ formatThreshold watch)].

Definition band_part (window : bytes) (band : bytes * bytes) : bytes :=
  lit "label_replace(count(" ++ window ++ lit " " ++ band.2 ++ lit "), " ++ quoted bandLabel ++ lit ", " ++ quoted band.1 ++
  lit ", " ++ [quote; quote] ++ lit ", " ++ [quote; quote] ++ lit ")".

Fixpoint join_or (l : list bytes) : bytes :=
  match l with [] => [] | [p] => p | p :: l => p ++ lit " or " ++ join_or l end.

Definition read_band (counts : BandCounts) (val : InstantValue) : BandCounts :=
  let name := default [] (iv_Labels val !! bandLabel) in
  let n := f_to_i64 other (iv_Value val) in
  if bool_decide (name = lit "anomalous") then mk_bands n (bn_Watch counts) (bn_Healthy counts)
  else if bool_decide (name = lit "watch") then mk_bands (bn_Anomalous counts) n (bn_Healthy counts)
  else if bool_decide (name = lit "healthy") then mk_bands (bn_Anomalous counts) (bn_Watch counts) n
  else counts.

Definition CountAnomalyBands (tenantID : uuid) (watch anomalous : float64) (at_ : time) (lookback : duration) : series BandCounts :=
  match ScopeSelector MetricNodeAnomalyRate tenantID with
  | Err e => Ret (Err e)
  | Ok scoped =>
      let window := withoutEnvironment (last_over scoped lookback) in
      vand (instantQuery (join_or (band_part window <$> bands watch anomalous)) at_) (λ vals,
      Ret (Ok (foldl read_band (mk_bands 0 0 0) vals)))
  end.

(** ** Deleting *)

Definition DeleteSeries (v : VMClient) (tenantID : uuid) (deviceID : option uuid) : series unit :=
  match subjectSelector tenantID deviceID with
  | Err e => Ret (Err e)
  | Ok selector =>
      ok ← call_out (PostForm (lit "/api/v1/admin/tsdb/delete_series")
             ((matchParam, selector) :: if bool_decide (vc_deleteAuthKey v = []) then [] else [(lit "authKey", vc_deleteAuthKey v)]));
      Ret (if (ok : bool) then Ok tt else Err RequestFailed)
  end.

Definition CountSeries (tenantID : uuid) (deviceID : option uuid) : series Z :=
  match subjectSelector tenantID deviceID with
  | Err e => Ret (Err e)
  | Ok selector =>
      r ← call_out (GetSeries (lit "/api/v1/series") [(matchParam, selector)]);
      Ret (data ← read_answer r; Ok (Z.of_nat (length data)))
  end.

Fixpoint subjects (seen : gset (bytes * bytes)) (data : list (gmap bytes bytes)) : list (uuid * uuid) :=
  match data with
  | [] => []
  | labels :: data =>
      match uuid_Parse (default [] (labels !! tenantLabel)), uuid_Parse (default [] (labels !! deviceLabel)) with
      | Some tenant, Some device =>
          if bool_decide ((tenant, device) ∈ seen) then subjects seen data
          else (tenant, device) :: subjects ({[(tenant, device)]} ∪ seen) data
      | _, _ => subjects seen data
      end
  end.

Definition ListSubjects : series (list (uuid * uuid)) :=
  r ← call_out (GetSeries (lit "/api/v1/series") [(matchParam, open_brace :: deviceLabel ++ lit "=~" ++ quoted (lit ".+") ++ [close_brace])]);
  Ret (data ← read_answer r; Ok (subjects ∅ data)).
End client.
