(* ===== verification/SeriesClaims.v ===== *)
(** * What the time-series client promises

    The text of a selector reads, by the grammar of selectors, as the metric and the
    matchers it was made of with the tenant's first; the text of samples reads back
    as the samples under the server's labels; so no read and no deletion for one
    tenant reaches a series written for another. *)
From stdpp Require Import pretty.
From S2P Require Import Prelude GoTime GoStrings Float Settings Sorting Codec Effect RuleResolve Telemetry GoText Seconds Series.

(** ** The grammar of labels

    Names with quoted values, in braces; in a value a backslash stands before a
    backslash, a quote, and the letter n for the end of a line. *)

Fixpoint read_value (s : bytes) : option (bytes * bytes) :=
  match s with
  | [] => None
  | b :: s =>
      if bool_decide (b = quote) then Some ([], s)
      else if bool_decide (b = newline) then None
      else if bool_decide (b = backslash) then
        match s with
        | [] => None
        | c :: s =>
            let add x := match read_value s with Some (v, rest) => Some (x :: v, rest) | None => None end in
            if bool_decide (c = backslash) then add backslash
            else if bool_decide (c = quote) then add quote
            else if bool_decide (c = x6e) then add newline
            else None
        end
      else match read_value s with Some (v, rest) => Some (b :: v, rest) | None => None end
  end.

Fixpoint span (p : byte → bool) (s : bytes) : bytes * bytes :=
  match s with
  | [] => ([], [])
  | b :: s => if p b then let '(w, rest) := span p s in (b :: w, rest) else ([], b :: s)
  end.

(** The pairs up to the closing brace, and what follows it; [n] bounds the pairs. *)
Fixpoint read_labels (n : nat) (s : bytes) : option (list (bytes * bytes) * bytes) :=
  match n with
  | O => None
  | S n =>
      match span label_byte s with
      | (k, x3d :: x22 :: s) =>
          match read_value s with
          | Some (v, x7d :: rest) => Some ([(k, v)], rest)
          | Some (v, x2c :: rest) => match read_labels n rest with Some (l, rest) => Some ((k, v) :: l, rest) | None => None end
          | _ => None
          end
      | _ => None
      end
  end.

(** A selector: the metric it names, if any, and its matchers. *)
Definition parse_selector (s : bytes) : option (bytes * list (bytes * bytes)) :=
  match span metric_byte s with
  | (name, []) => Some (name, [])
  | (name, x7b :: s) => match read_labels (length s) s with Some (l, []) => Some (name, l) | _ => None end
  | _ => None
  end.

(** A line of exposition text. *)
Record line := mk_line { ln_name : bytes; ln_labels : list (bytes * bytes); ln_value : bytes; ln_time : bytes }.

Definition not_byte (c : byte) : byte → bool := λ b, negb (bool_decide (b = c)).

Definition parse_line (s : bytes) : option (line * bytes) :=
  match span metric_byte s with
  | (name, x7b :: s) =>
      match read_labels (length s) s with
      | Some (l, x20 :: s) =>
          match span (not_byte x20) s with
          | (value, x20 :: s) =>
              match span (not_byte newline) s with
              | (ts, x0a :: rest) => Some (mk_line name l value ts, rest)
              | _ => None
              end
          | _ => None
          end
      | _ => None
      end
  | _ => None
  end.

Fixpoint parse_lines (n : nat) (s : bytes) : option (list line) :=
  match s, n with
  | [], _ => Some []
  | _, O => None
  | _, S n => match parse_line s with Some (l, rest) => (l ::.) <$> parse_lines n rest | None => None end
  end.

(** ** Reading what was written *)

Lemma span_app p w c rest : forallb p w = true → p c = false → span p (w ++ c :: rest) = (w, c :: rest).
Proof.
  intros Hw Hc. induction w as [|b w IH]; cbn in *; [by rewrite Hc|]. apply andb_prop in Hw as [-> Hw]. by rewrite IH.
Qed.

Lemma span_all p w : forallb p w = true → span p w = (w, []).
Proof. induction w as [|b w IH]; cbn; [done|]. intros [-> Hw]%andb_prop. by rewrite IH. Qed.

Definition escape_byte (b : byte) : bytes :=
  if bool_decide (b = backslash) then [backslash; backslash]
  else if bool_decide (b = newline) then [backslash; x6e]
  else if bool_decide (b = quote) then [backslash; quote]
  else [b].

Lemma escape_bytes v : escapeLabelValue v = v ≫= escape_byte.
Proof.
  unfold escapeLabelValue, ReplaceAll. induction v as [|b v IH]; [done|]. cbn [mbind list_bind].
  rewrite !bind_app, IH. f_equal. unfold escape_byte.
  case_bool_decide; [done|]. cbn [mbind list_bind app]. case_bool_decide; [done|]. cbn [mbind list_bind app].
  by case_bool_decide.
Qed.

Lemma read_value_escape v rest : read_value (escapeLabelValue v ++ quote :: rest) = Some (v, rest).
Proof.
  rewrite escape_bytes. induction v as [|b v IH]; [done|]. cbn [mbind list_bind] in *. rewrite <- app_assoc.
  unfold escape_byte at 1. case_bool_decide as H1; [subst; cbn [app read_value]; by rewrite IH|].
  case_bool_decide as H2; [subst; cbn [app read_value]; by rewrite IH|].
  case_bool_decide as H3; [subst; cbn [app read_value]; by rewrite IH|].
  cbn [app read_value]. by rewrite !bool_decide_false, IH by done.
Qed.

Lemma label_name_bytes k : labelNameRE k = true → forallb label_byte k = true.
Proof.
  destruct k as [|b k]; [done|]. cbn. intros [Hb ->]%andb_prop. unfold label_byte. by rewrite Hb.
Qed.

Lemma metric_name_bytes k : metricNameRE k = true → forallb metric_byte k = true.
Proof.
  destruct k as [|b k]; [done|]. cbn. intros [Hb ->]%andb_prop. unfold metric_byte. by rewrite Hb.
Qed.

Lemma label_list_cons k v l : l ≠ [] →
  label_list ((k, v) :: l) = k ++ x3d :: quoted (escapeLabelValue v) ++ x2c :: label_list l.
Proof. by destruct l. Qed.

Lemma quoted_app s rest : quoted s ++ rest = quote :: s ++ quote :: rest.
Proof. unfold quoted. cbn. by rewrite <- app_assoc. Qed.

Lemma read_labels_ok l rest n : l ≠ [] → (length l ≤ n)%nat → Forall (λ kv, labelNameRE kv.1 = true) l →
  read_labels n (label_list l ++ close_brace :: rest) = Some (l, rest).
Proof.
  revert n. induction l as [|[k v] l IH]; [done|]. intros n _ Hn Hl. inv Hl. destruct n as [|n]; [cbn in Hn; lia|].
  cbn [read_labels]. destruct (decide (l = [])) as [->|Hne].
  - cbn [label_list]. rewrite <- app_assoc. cbn [app]. rewrite span_app by (by apply label_name_bytes || done).
    rewrite quoted_app. cbn [app]. change quote with x22. rewrite read_value_escape. done.
  - rewrite label_list_cons by done. rewrite <- !app_assoc. cbn [app].
    rewrite span_app by (by apply label_name_bytes || done). rewrite <- app_assoc, quoted_app. change quote with x22.
    rewrite read_value_escape. cbn [app]. rewrite IH; [done|done|cbn in Hn; lia|done].
Qed.

Lemma label_list_length l : (length l ≤ length (label_list l))%nat.
Proof.
  induction l as [|[k v] l IH]; [done|]. destruct (decide (l = [])) as [->|Hne].
  - cbn [label_list]. rewrite length_app. cbn. lia.
  - rewrite label_list_cons by done. rewrite length_app. cbn [length]. rewrite length_app. cbn [length]. lia.
Qed.

Lemma braces_read l rest : l ≠ [] → Forall (λ kv, labelNameRE kv.1 = true) l →
  let s := label_list l ++ close_brace :: rest in read_labels (length s) s = Some (l, rest).
Proof.
  intros Hne Hl s. apply read_labels_ok; [done| |done]. unfold s. rewrite length_app. pose proof (label_list_length l). lia.
Qed.

(** The text of a uuid: digits, letters to f, dashes. *)
Definition uuid_byte (b : byte) : bool := is_digit b || between x61 x66 b || bool_decide (b = x2d).

Lemma hex_digit_byte n : 0 ≤ n < 16 → uuid_byte (hex_digit n) = true.
Proof.
  intros H. assert (n = 0 ∨ n = 1 ∨ n = 2 ∨ n = 3 ∨ n = 4 ∨ n = 5 ∨ n = 6 ∨ n = 7 ∨ n = 8 ∨ n = 9 ∨ n = 10 ∨ n = 11 ∨
    n = 12 ∨ n = 13 ∨ n = 14 ∨ n = 15) as Hn by lia.
  by repeat (destruct Hn as [->|Hn]; [reflexivity|]); subst.
Qed.

Lemma hex_encode_bytes b : Forall (λ b, uuid_byte b = true) (hex_encode b).
Proof.
  induction b as [|x b IH]; [constructor|]. unfold hex_encode in *. cbn [mbind list_bind app]. pose proof (Z_of_byte_range x).
  constructor; [|constructor; [|done]]; apply hex_digit_byte.
  - split; [apply Z.div_pos; lia|apply Z.div_lt_upper_bound; lia].
  - apply Z.mod_pos_bound. lia.
Qed.

Lemma uuid_String_bytes id : Forall (λ b, uuid_byte b = true) (uuid_String id).
Proof.
  pose proof (hex_encode_bytes id) as H. unfold uuid_String. repeat (apply Forall_app; split); try (by repeat constructor);
    repeat (apply Forall_take || apply Forall_drop); done.
Qed.

Lemma escape_plain v : Forall (λ b, uuid_byte b = true) v → escapeLabelValue v = v.
Proof.
  rewrite escape_bytes. induction 1 as [|b v Hb Hv IH]; [done|]. cbn [mbind list_bind]. rewrite IH.
  unfold escape_byte. by rewrite !bool_decide_false by (by intros ->).
Qed.

Lemma escape_uuid id : escapeLabelValue (uuid_String id) = uuid_String id.
Proof. apply escape_plain, uuid_String_bytes. Qed.

(** ** Names are visible text without braces *)

Lemma between_range lo hi b : between lo hi b = true ↔ Z_of_byte lo ≤ Z_of_byte b ≤ Z_of_byte hi.
Proof. apply bool_decide_eq_true. Qed.

Lemma metric_byte_visible b : metric_byte b = true → visible b ∧ b ≠ open_brace.
Proof.
  unfold metric_byte, metric_start, label_start, is_letter, is_digit. rewrite !orb_true_iff, !between_range, !bool_decide_eq_true.
  unfold visible. change (Z_of_byte x61) with 97. change (Z_of_byte x7a) with 122. change (Z_of_byte x41) with 65.
  change (Z_of_byte x5a) with 90. change (Z_of_byte x30) with 48. change (Z_of_byte x39) with 57. intros H. split.
  - destruct H as [[[[H|H]| ->]| ->]|H]; [lia|lia|by vm_compute|by vm_compute|lia].
  - intros ->. change (Z_of_byte open_brace) with 123 in H. destruct H as [[[[H|H]|H]|H]|H]; (lia || done).
Qed.

Lemma label_byte_metric b : label_byte b = true → metric_byte b = true.
Proof. unfold label_byte, metric_byte, metric_start. intros [->| ->]%orb_true_iff; [done|]. apply orb_true_r. Qed.

Lemma metric_text_visible w : forallb metric_byte w = true → ∀ b, b ∈ w → visible b ∧ b ≠ open_brace.
Proof.
  intros Hw b Hb. apply metric_byte_visible. rewrite forallb_forall in Hw. apply Hw. by apply list_elem_of_In.
Qed.

Lemma IndexByte_app w c r : c ∉ w → IndexByte (w ++ c :: r) c = Some (length w).
Proof.
  induction w as [|b w IH]; cbn [app IndexByte length]; [by rewrite bool_decide_true|].
  rewrite not_elem_of_cons. intros [Hb Hw]. by rewrite bool_decide_false, IH by done.
Qed.

Lemma IndexByte_none w c : c ∉ w → IndexByte w c = None.
Proof.
  induction w as [|b w IH]; cbn [IndexByte]; [done|]. rewrite not_elem_of_cons. intros [Hb Hw].
  by rewrite bool_decide_false, IH by done.
Qed.

Definition names_ok (l : list (bytes * bytes)) : Prop := Forall (λ kv, labelNameRE kv.1 = true) l.

(** The text the client makes of a metric and matchers. *)
Definition selector_text (metric : bytes) (l : list (bytes * bytes)) : bytes :=
  metric ++ open_brace :: label_list l ++ [close_brace].

Lemma selector_text_read metric l : metricNameRE metric = true ∨ metric = [] → l ≠ [] → names_ok l →
  parse_selector (selector_text metric l) = Some (metric, l).
Proof.
  intros Hm Hne Hl. unfold parse_selector, selector_text. rewrite span_app; [|by destruct Hm as [?%metric_name_bytes| ->]|done].
  change open_brace with x7b. cbv beta iota. by rewrite braces_read.
Qed.

Lemma label_list_ends l : l ≠ [] → names_ok l →
  (∀ b, head (label_list l) = Some b → visible b) ∧ last (label_list l) = Some quote.
Proof.
  intros Hne Hl. split.
  - destruct l as [|[k v] l]; [done|]. inv Hl. cbn in *. destruct k as [|c k]; [done|]. cbn in *.
    apply andb_prop in H1 as [Hc _]. intros b. destruct l; cbn; intros [= <-]; apply metric_byte_visible, label_byte_metric;
      unfold label_byte; by rewrite Hc.
  - induction l as [|[k v] l IH]; [done|]. inv Hl. destruct (decide (l = [])) as [->|Hl].
    + cbn [label_list]. change (x3d :: quoted (escapeLabelValue v)) with ([x3d; quote] ++ escapeLabelValue v ++ [quote]).
      by rewrite !app_assoc, last_snoc.
    + rewrite label_list_cons by done. rewrite last_app. cbn [last].
      change (x3d :: quoted (escapeLabelValue v) ++ x2c :: label_list l) with ((x3d :: quoted (escapeLabelValue v)) ++ [x2c] ++ label_list l).
      rewrite last_app, last_app. by rewrite IH.
Qed.

Lemma braced_scoped t metric l : metricNameRE metric = true → l ≠ [] → names_ok l → t ≠ Nil →
  ScopeSelector (selector_text metric l) t =
  if Contains (selector_text metric l) tenantLabel then Err ErrTenantMatcherNotAllowed
  else Ok (selector_text metric ((tenantLabel, uuid_String t) :: l)).
Proof.
  intros Hm Hne Hl Ht. pose proof (metric_text_visible _ (metric_name_bytes _ Hm)) as Hv.
  destruct (label_list_ends l Hne Hl) as [Hh Hq].
  assert (TrimSpace (selector_text metric l) = selector_text metric l) as Htrim.
  { apply TrimSpace_visible.
    - destruct metric as [|b m]; [done|]. cbn. intros ? [= <-]. apply Hv. by left.
    - unfold selector_text. rewrite app_comm_cons, app_assoc, last_snoc. intros ? [= <-]. by vm_compute. }
  assert (TrimSpace (label_list l) = label_list l) as Hin.
  { apply TrimSpace_visible; [done|]. rewrite Hq. intros ? [= <-]. by vm_compute. }
  unfold ScopeSelector. rewrite bool_decide_false by done. rewrite Htrim, bool_decide_false by (by destruct metric).
  destruct (Contains _ _); [done|]. unfold selector_text at 1. rewrite IndexByte_app by (intros []%Hv; done).
  set (len := length (selector_text metric l)). assert (len = length metric + S (length (label_list l) + 1))%nat as Hlen.
  { unfold len, selector_text. rewrite length_app. cbn [length]. rewrite length_app. done. }
  unfold HasSuffix. fold len. rewrite bool_decide_true by (cbn; lia). rewrite (bool_decide_true (skipn _ _ = _)).
  2:{ unfold selector_text. rewrite app_comm_cons, app_assoc. replace (len - length [close_brace])%nat with
        (length (metric ++ open_brace :: label_list l)) by (rewrite length_app; cbn [length]; lia). by rewrite drop_app_length. }
  cbn [negb orb andb]. rewrite bool_decide_false by lia.
  assert (take (len - 1 - S (length metric)) (skipn (S (length metric)) (selector_text metric l)) = label_list l) as ->.
  { unfold selector_text. replace (skipn _ _) with (label_list l ++ [close_brace]).
    - replace (len - 1 - S (length metric))%nat with (length (label_list l)) by lia. by rewrite take_app_length.
    - change (open_brace :: label_list l ++ [close_brace]) with ([open_brace] ++ label_list l ++ [close_brace]).
      rewrite app_assoc. replace (S (length metric)) with (length (metric ++ [open_brace])) by (rewrite length_app; cbn; lia).
      by rewrite drop_app_length. }
  rewrite Hin, bool_decide_false by (by intros E; rewrite E in Hq).
  assert (take (length metric) (selector_text metric l) = metric) as -> by apply take_app_length.
  unfold selector_text. rewrite label_list_cons, escape_uuid, <- app_assoc by done. cbn [app]. by rewrite <- app_assoc.
Qed.

Lemma bare_scoped t metric : metricNameRE metric = true → t ≠ Nil →
  ScopeSelector metric t =
  if Contains metric tenantLabel then Err ErrTenantMatcherNotAllowed
  else Ok (selector_text metric [(tenantLabel, uuid_String t)]).
Proof.
  intros Hm Ht. pose proof (metric_text_visible _ (metric_name_bytes _ Hm)) as Hv.
  assert (TrimSpace metric = metric) as Htrim.
  { apply TrimSpace_visible; intros b Hb; apply Hv.
    - by apply head_Some_elem_of.
    - by apply last_Some_elem_of. }
  unfold ScopeSelector. rewrite bool_decide_false by done. rewrite Htrim, bool_decide_false by (by destruct metric).
  destruct (Contains _ _); [done|]. rewrite IndexByte_none by (intros []%Hv; done).
  unfold selector_text. cbn [label_list]. by rewrite escape_uuid, <- app_assoc.
Qed.

(** ** Sorted labels *)

Lemma sorted_labels_elem m k v : (k, v) ∈ sorted_labels m ↔ m !! k = Some v.
Proof.
  unfold sorted_labels. rewrite list_elem_of_fmap. setoid_rewrite (stable_sort_elem string_lt). split.
  - intros (k' & [= -> ->] & ([k2 v2] & -> & Hin)%list_elem_of_fmap). apply elem_of_map_to_list in Hin. cbn. by rewrite Hin.
  - intros Hm. exists k. rewrite Hm. split; [done|]. apply list_elem_of_fmap. exists (k, v). by rewrite elem_of_map_to_list.
Qed.

Lemma sorted_labels_names m : forallb labelNameRE (map_to_list m).*1 = true ↔ names_ok (sorted_labels m).
Proof.
  unfold names_ok. rewrite forallb_forall, Forall_forall. split.
  - intros H [k v] Hin%sorted_labels_elem. apply H, list_elem_of_In, list_elem_of_fmap. exists (k, v). by rewrite elem_of_map_to_list.
  - intros H k Hin%list_elem_of_In. apply list_elem_of_fmap in Hin as ([k' v] & -> & Hin). apply elem_of_map_to_list in Hin.
    by apply (H (k', v)), sorted_labels_elem.
Qed.

Lemma sorted_labels_nonnil m : m ≠ ∅ → sorted_labels m ≠ [].
Proof.
  intros Hm E. apply Hm, map_eq. intros k. rewrite lookup_empty. destruct (m !! k) as [v|] eqn:Ek; [|done].
  apply sorted_labels_elem in Ek. rewrite E in Ek. by apply not_elem_of_nil in Ek.
Qed.

Lemma tenant_named id : names_ok [(tenantLabel, id)].
Proof. by repeat constructor. Qed.

(** What a scoped selector is made of. *)
Lemma scoped_selector_text t metric m s : scopedSelector t metric m = Ok s →
  t ≠ Nil ∧ metricNameRE metric = true ∧ m !! tenantLabel = None ∧ names_ok (sorted_labels m) ∧
  s = selector_text metric ((tenantLabel, uuid_String t) :: sorted_labels m).
Proof.
  unfold scopedSelector, buildSelector. destruct (metricNameRE metric) eqn:Hm; [|done]. cbn [negb].
  case_bool_decide as Ht; [done|]. apply eq_None_not_Some in Ht. assert (t = Nil → ∀ x, ScopeSelector x t ≠ Ok s) as Hnil.
  { intros -> x. unfold ScopeSelector. by rewrite bool_decide_true. }
  destruct (decide (t = Nil)) as [E|Htn].
  { case_bool_decide; [|destruct (forallb _ _)]; cbn [negb mbind result_bind]; try done; intros Hx; by destruct (Hnil E _ Hx). }
  case_bool_decide as Hs.
  - apply map_size_empty_iff in Hs as ->. cbn [mbind result_bind]. rewrite bare_scoped by done. destruct (Contains _ _); [done|].
    intros [= <-]. repeat split; try done. by constructor.
  - destruct (forallb _ _) eqn:Hf; [|done]. cbn [negb mbind result_bind]. apply sorted_labels_names in Hf. fold (selector_text metric (sorted_labels m)).
    assert (sorted_labels m ≠ []) by (apply sorted_labels_nonnil; intros ->; by rewrite map_size_empty in Hs).
    rewrite braced_scoped by done. destruct (Contains _ _); [done|]. by intros [= <-].
Qed.

(** A selector the client has scoped reads as the metric and the matchers it was
    asked for, the tenant's matcher before them, whatever the values of the matchers
    hold: none of them can end its quotes or name a tenant of its own. *)
Theorem scoped_selector_exact t metric m s : scopedSelector t metric m = Ok s →
  parse_selector s = Some (metric, (tenantLabel, uuid_String t) :: sorted_labels m) ∧
  (∀ k v, (k, v) ∈ sorted_labels m ↔ m !! k = Some v) ∧ m !! tenantLabel = None ∧ t ≠ Nil.
Proof.
  intros (Ht & Hm & Hn & Hl & ->)%scoped_selector_text. split; [|split; [apply sorted_labels_elem|done]].
  apply selector_text_read; [by left|done|]. by constructor.
Qed.

(** ** Samples written *)

(** Every call a program may make meets [P], and every value it may end with meets
    [Q], whatever it is answered. *)
Fixpoint asks {F A} (P : ∀ R, F R → Prop) (Q : A → Prop) (p : prog F A) : Prop :=
  match p with
  | Ret a => Q a
  | Do c k => P _ c ∧ ∀ r, asks P Q (k r)
  | Panic => False
  end.

Lemma asks_bind {F A B} (P : ∀ R, F R → Prop) (Q : A → Prop) (Q' : B → Prop) (p : prog F A) (k : A → prog F B) :
  asks P Q p → (∀ a, Q a → asks P Q' (k a)) → asks P Q' (p ≫= k).
Proof.
  intros Hp Hk. induction p as [a|R c k' IH|]; [by apply Hk| |done]. destruct Hp as [Hc Hr]. split; [done|].
  intros r. apply IH, Hr.
Qed.

Lemma asks_vand {A B} P (Q : A → Prop) (Q' : result vm_err B → Prop) (p : series A) (k : A → series B) :
  asks P (λ r, ∀ a, r = Ok a → Q a) p → (∀ e, Q' (Err e)) → (∀ a, Q a → asks P Q' (k a)) → asks P Q' (vand p k).
Proof. intros Hp He Hk. eapply asks_bind; [exact Hp|]. intros [a|e] Ha; [by apply Hk, Ha|apply He]. Qed.

Lemma asks_mono {F A} (P : ∀ R, F R → Prop) (Q Q' : A → Prop) (p : prog F A) : (∀ a, Q a → Q' a) → asks P Q p → asks P Q' p.
Proof. intros HQ. induction p as [a|R c k IH|]; [apply HQ| |done]. intros [Hc Hk]. split; [done|]. intros r. by apply IH. Qed.

Lemma asks_call {F R A} (P : ∀ R, F R → Prop) (Q : A → Prop) (c : F R) (k : R → prog F A) :
  P _ c → (∀ r, asks P Q (k r)) → asks P Q (r ← call_out c; k r).
Proof. by split. Qed.

Lemma pretty_N_go_clean x s : newline ∉ lit s → newline ∉ lit (pretty_N_go x s).
Proof.
  revert s. induction (N.lt_wf_0 x) as [x _ IH]; intros s Hs. destruct (decide (0 < x)%N) as [Hx|Hx].
  - rewrite pretty_N_go_step by done. apply IH; [by apply N.div_lt|]. cbn [String.list_byte_of_string].
    apply not_elem_of_cons. split; [|done]. unfold pretty_N_char. by repeat case_match.
  - replace x with 0%N by lia. by rewrite pretty_N_go_0.
Qed.

Lemma pretty_N_clean (x : N) : newline ∉ lit (pretty x).
Proof.
  unfold pretty, pretty_N. case_decide; [by apply (bool_decide_unpack _); vm_compute|]. apply pretty_N_go_clean.
  apply not_elem_of_nil.
Qed.

Lemma decimal_clean z : newline ∉ decimal z.
Proof.
  unfold decimal. destruct z as [|p|p]; [by apply (bool_decide_unpack _); vm_compute|apply (pretty_N_clean (Npos p))|].
  change (lit (pretty (Z.neg p))) with (x2d :: lit (pretty (Npos p))). apply not_elem_of_cons. split; [done|apply pretty_N_clean].
Qed.

Definition line_text (ln : line) : bytes :=
  ln_name ln ++ open_brace :: label_list (ln_labels ln) ++ close_brace :: x20 :: ln_value ln ++ x20 :: ln_time ln ++ [newline].

Lemma not_byte_all c w : c ∉ w → forallb (not_byte c) w = true.
Proof.
  intros Hc. apply forallb_forall. intros b Hb%list_elem_of_In. unfold not_byte. rewrite bool_decide_false; [done|]. by intros ->.
Qed.

Lemma not_byte_self c : not_byte c c = false.
Proof. unfold not_byte. by rewrite bool_decide_true. Qed.

Lemma line_text_read ln rest : metricNameRE (ln_name ln) = true → ln_labels ln ≠ [] → names_ok (ln_labels ln) →
  x20 ∉ ln_value ln → newline ∉ ln_time ln → parse_line (line_text ln ++ rest) = Some (ln, rest).
Proof.
  intros Hm Hne Hl Hv Ht. unfold parse_line, line_text. rewrite <- app_assoc. cbn [app].
  rewrite span_app by (by apply metric_name_bytes || done). change open_brace with x7b. cbv beta iota.
  rewrite <- app_assoc. cbn [app]. rewrite braces_read by done. rewrite <- app_assoc. cbn [app].
  rewrite span_app by (by apply not_byte_all || apply not_byte_self). cbv beta iota. rewrite <- app_assoc. cbn [app].
  rewrite span_app by (by apply not_byte_all || apply not_byte_self). change newline with x0a. cbv beta iota. by destruct ln.
Qed.

Definition well_formed (ln : line) : Prop :=
  metricNameRE (ln_name ln) = true ∧ ln_labels ln ≠ [] ∧ names_ok (ln_labels ln) ∧ (x20 ∉ ln_value ln) ∧ (newline ∉ ln_time ln).

Lemma parse_lines_read lines n : Forall well_formed lines → (length lines ≤ n)%nat →
  parse_lines n (concat (line_text <$> lines)) = Some lines.
Proof.
  revert n. induction lines as [|ln lines IH]; intros n Hw Hn; [by destruct n|]. inv Hw. destruct n as [|n]; [cbn in Hn; lia|].
  cbn [fmap list_fmap concat parse_lines]. destruct H1 as (H1 & H3 & H4 & H5 & H6).
  assert (line_text ln ++ concat (line_text <$> lines) ≠ []) as Hne.
  { unfold line_text. intros E. apply app_nil in E as [E _]. by apply app_nil in E as [_ ?]. }
  destruct (line_text ln ++ _) eqn:E; [done|]. rewrite <- E. rewrite line_text_read by done. cbn [fmap option_fmap option_map].
  rewrite IH; [done|done|cbn in Hn; lia].
Qed.

Section written.
Context (FormatFloat : byte → float64 → bytes) (ParseFloat : bytes → option float64) (uuid_Parse : bytes → option uuid).
Context (other : float64 → Z).
(** A printed float has no space in it. *)
Context (format_clean : ∀ f, x20 ∉ FormatFloat x67 f).
Context (v : VMClient) (t d : uuid).

Local Abbreviation WriteSamples := (WriteSamples FormatFloat v t d).

(** A line that says what a sample does, under the server's labels. *)
Definition line_of (sample : Sample) (ln : line) : Prop :=
  well_formed ln ∧ ln_name ln = sm_Name sample ∧ ln_labels ln = sorted_labels (owned_labels t d (sm_Labels sample)) ∧
  ln_value ln = FormatFloat x67 (sm_Value sample) ∧
  (∃ ts, ln_time ln = decimal (unix_milli ts) ∧ (sm_TS sample ≠ GoTime.zero_time → ts = sm_TS sample)) ∧
  (∀ k, is_Some (sm_Labels sample !! k) → reserved k = false ∧ labelNameRE k = true).

Definition now_only (P : params → bytes → Prop) : ∀ R, vcall R → Prop := λ _ c,
  match c with PostText _ q body => P q body | VNow => True | _ => False end.

Lemma owned_lookup labels k : (∀ k, is_Some (labels !! k) → reserved k = false) →
  owned_labels t d labels !! k =
  if decide (k = tenantLabel) then Some (uuid_String t) else if decide (k = deviceLabel) then Some (uuid_String d) else labels !! k.
Proof.
  intros Hr. unfold owned_labels. assert (∀ k, reserved k = true → labels !! k = None) as Hn.
  { intros k' Hk. apply eq_None_not_Some. intros Hs%Hr. congruence. }
  repeat case_decide; subst.
  - by rewrite lookup_union_r by (by apply Hn); rewrite lookup_insert_eq.
  - rewrite lookup_union_r by (by apply Hn). by rewrite lookup_insert_ne, lookup_singleton_eq.
  - rewrite lookup_union, lookup_insert_ne, lookup_singleton_ne by done. by destruct (labels !! k).
Qed.

Lemma keys_all (p : bytes → bool) (m : gmap bytes bytes) : forallb p (map_to_list m).*1 = true ↔ ∀ k, is_Some (m !! k) → p k = true.
Proof.
  rewrite forallb_forall. split.
  - intros H k [x Hx]. apply H, list_elem_of_In, list_elem_of_fmap. exists (k, x). by rewrite elem_of_map_to_list.
  - intros H k Hin%list_elem_of_In. apply list_elem_of_fmap in Hin as ([k' x] & -> & Hin). apply elem_of_map_to_list in Hin.
    apply H. by exists x.
Qed.

Lemma existsb_negb {A} (p : A → bool) l : existsb p l = false → forallb (λ a, negb (p a)) l = true.
Proof. induction l as [|a l IH]; [done|]. cbn. by intros [-> ?%IH]%orb_false_iff. Qed.

Lemma owned_names labels : (∀ k, is_Some (labels !! k) → reserved k = false ∧ labelNameRE k = true) →
  names_ok (sorted_labels (owned_labels t d labels)).
Proof.
  intros H. apply sorted_labels_names, keys_all. intros k. rewrite owned_lookup by (intros k' Hk; by apply H).
  repeat case_decide; subst; [done|done|]. apply H.
Qed.

Lemma owned_nonnil labels : sorted_labels (owned_labels t d labels) ≠ [].
Proof.
  apply sorted_labels_nonnil. intros E. apply (f_equal (lookup tenantLabel)) in E. revert E. unfold owned_labels.
  rewrite lookup_union, lookup_insert_eq, lookup_empty. by destruct (labels !! tenantLabel).
Qed.

Lemma sample_line P sample : asks (now_only P) (λ r, ∀ txt, r = Ok txt → ∃ ln, txt = line_text ln ∧ line_of sample ln)
  (writePrometheusSample FormatFloat t d sample).
Proof.
  unfold writePrometheusSample. destruct (metricNameRE _) eqn:Hm; [|done]. cbn [negb]. destruct (_ || _); [done|].
  apply (asks_bind _ (λ ts, sm_TS sample ≠ GoTime.zero_time → ts = sm_TS sample)).
  { case_bool_decide; [|done]. split; [done|]. intros r Hn.
    by destruct Hn. }
  intros ts Hts. destruct (existsb _ _) eqn:Hr; [done|]. destruct (forallb _ _) eqn:Hl; [|done]. intros txt [= <-].
  apply existsb_negb in Hr. rewrite keys_all in Hr. rewrite keys_all in Hl.
  assert (∀ k, is_Some (sm_Labels sample !! k) → reserved k = false ∧ labelNameRE k = true) as Hk.
  { intros k Hs. split; [apply negb_true_iff; by apply Hr|by apply Hl]. }
  exists (mk_line (sm_Name sample) (sorted_labels (owned_labels t d (sm_Labels sample))) (FormatFloat x67 (sm_Value sample))
            (decimal (unix_milli ts))).
  split; [done|]. split; [|split; [done|split; [done|split; [done|split; [by exists ts|done]]]]].
  split; [done|]. split; [apply owned_nonnil|]. split; [by apply owned_names|]. split; [apply format_clean|apply decimal_clean].
Qed.

Lemma samples_lines P samples pre : asks (now_only P)
  (λ r, ∀ body, r = Ok body → ∃ lines, body = pre ++ concat (line_text <$> lines) ∧ Forall2 line_of samples lines)
  (write_samples FormatFloat t d samples pre).
Proof.
  revert pre. induction samples as [|sample samples IH]; intros pre; cbn [write_samples].
  - intros body [= <-]. exists []. cbn. by rewrite app_nil_r.
  - eapply asks_vand; [apply sample_line|done|]. intros txt (ln & -> & Hln). cbn beta.
    eapply asks_mono; [|apply IH]. intros r H body Hb. destruct (H body Hb) as (lines & -> & Hf).
    exists (ln :: lines). split; [cbn; by rewrite <- app_assoc|by constructor].
Qed.

Lemma lines_read samples lines : Forall2 line_of samples lines →
  let body := concat (line_text <$> lines) in parse_lines (length body) body = Some lines.
Proof.
  intros Hf. apply parse_lines_read.
  - induction Hf as [|? ? ? ? H]; [done|]. constructor; [apply H|done].
  - clear. induction lines as [|ln lines IH]; [done|]. cbn. rewrite length_app. unfold line_text at 1.
    rewrite length_app. cbn. lia.
Qed.

(** The text a write posts reads back, by the grammar of exposition text, as one
    line for each sample: its name, its value, its instant, and its labels with the
    tenant and the device that the server owns. *)
Theorem samples_read_back samples : asks
  (now_only (λ _ body, ∃ lines, parse_lines (length body) body = Some lines ∧ Forall2 line_of samples lines))
  (λ _, True) (WriteSamples samples).
Proof.
  unfold Series.WriteSamples. destruct samples as [|s samples]; [done|]. eapply asks_vand; [apply samples_lines|done|].
  intros body (lines & -> & Hf). apply asks_call; [|done]. exists lines. split; [by eapply lines_read|done].
Qed.
End written.

(** ** Tenants apart *)

(** Whether a selector takes a series: the metric it names, and every matcher equal to
    the series' label, which is empty where it has none. *)
Definition selects_series (s : bytes) (ln : line) : Prop :=
  match parse_selector s with
  | Some (metric, matchers) =>
      (metric = [] ∨ metric = ln_name ln) ∧
      Forall (λ kv, default [] ((list_to_map (ln_labels ln) : gmap bytes bytes) !! kv.1) = kv.2) matchers
  | None => False
  end.

(** A line as it is stored: the label an import adds goes before the line's own. *)
Definition stored (v : VMClient) (ln : line) : line :=
  mk_line (ln_name ln) ((if bool_decide (vc_namespace v = []) then [] else [(environmentLabel, vc_namespace v)]) ++ ln_labels ln)
    (ln_value ln) (ln_time ln).

Lemma sorted_labels_map m : list_to_map (sorted_labels m) = m.
Proof.
  apply map_eq. intros k. apply option_eq. intros x. rewrite <- elem_of_list_to_map; [apply sorted_labels_elem|].
  unfold sorted_labels. rewrite <- list_fmap_compose. cbn. rewrite list_fmap_id.
  unfold sort_Strings. rewrite (stable_sort_Permutation string_lt). apply NoDup_fst_map_to_list.
Qed.

Lemma subject_selector_text t dev s : subjectSelector t dev = Ok s →
  parse_selector s = Some ([], (tenantLabel, uuid_String t) :: match dev with Some d => [(deviceLabel, uuid_String d)] | None => [] end).
Proof.
  unfold subjectSelector. case_bool_decide; [done|].
  assert (∀ l, l ≠ [] → names_ok l → parse_selector (selector_text [] l) = Some ([], l)) as Hp.
  { intros l ? ?. by apply selector_text_read; [right| |]. }
  destruct dev as [d|]; intros [= <-].
  - rewrite <- (Hp [(tenantLabel, uuid_String t); (deviceLabel, uuid_String d)]); [|done|by repeat constructor]. f_equal.
    unfold selector_text. cbn [label_list]. rewrite !escape_uuid, app_nil_l. unfold quoted.
    by repeat (rewrite <- app_assoc || rewrite <- app_comm_cons).
  - rewrite <- (Hp [(tenantLabel, uuid_String t)]); [|done|apply tenant_named]. f_equal.
    unfold selector_text. cbn [label_list]. rewrite !escape_uuid, app_nil_l. unfold quoted.
    by repeat (rewrite <- app_assoc || rewrite <- app_comm_cons).
Qed.

Section apart.
Context (FormatFloat : byte → float64 → bytes) (format_clean : ∀ f, x20 ∉ FormatFloat x67 f).
Context (v : VMClient) (t d : uuid) (Ht : length t = 16%nat) (Hd : length d = 16%nat).

Lemma stored_owner sample ln : line_of FormatFloat t d sample ln →
  (list_to_map (ln_labels (stored v ln)) : gmap bytes bytes) !! tenantLabel = Some (uuid_String t) ∧
  (list_to_map (ln_labels (stored v ln)) : gmap bytes bytes) !! deviceLabel = Some (uuid_String d).
Proof.
  intros (_ & _ & Hl & _ & _ & Hk). unfold stored. cbn [ln_labels]. rewrite list_to_map_app, Hl, sorted_labels_map.
  assert (∀ k : bytes, k ≠ environmentLabel →
    (list_to_map (if bool_decide (vc_namespace v = []) then [] else [(environmentLabel, vc_namespace v)]) : gmap bytes bytes) !! k = None) as Hn.
  { intros k Hne. case_bool_decide; [apply lookup_empty|]. cbn. by rewrite lookup_insert_ne. }
  rewrite !lookup_union_r by (by apply Hn). rewrite !owned_lookup by (intros k Hs; by apply Hk). done.
Qed.

(** What each selector takes of a line written for [t] and [d]. *)
Definition kept_apart (ln : line) : Prop :=
  (∀ t' metric m s, length t' = 16%nat → t' ≠ t → scopedSelector t' metric m = Ok s → ¬ selects_series s (stored v ln)) ∧
  (∀ t' d' s, length t' = 16%nat → subjectSelector t' (Some d') = Ok s → length d' = 16%nat →
     (selects_series s (stored v ln) ↔ t' = t ∧ d' = d)) ∧
  (∀ t' s, length t' = 16%nat → subjectSelector t' None = Ok s → (selects_series s (stored v ln) ↔ t' = t)).

Lemma line_kept_apart sample ln : line_of FormatFloat t d sample ln → kept_apart ln.
Proof.
  intros H. destruct (stored_owner sample ln H) as [Ho1 Ho2]. split; [|split].
  - intros t' metric m s Hl Hne (Hn & Hm & _ & Hk & ->)%scoped_selector_text. unfold selects_series.
    rewrite selector_text_read by (by left || done || by constructor). intros [_ Hf]. inv Hf. cbn in *.
    rewrite Ho1 in *. cbn in *. by apply Hne, uuid_String_inj.
  - intros t' d' s Hl Hs Hl'. unfold selects_series. rewrite (subject_selector_text _ _ _ Hs). split.
    + intros [_ Hf]. inv Hf. inv H3. cbn in *. rewrite Ho1, Ho2 in *. cbn in *. split; by apply uuid_String_inj.
    + intros [-> ->]. split; [by left|]. apply Forall_cons. split; [cbn [fst snd]; by rewrite Ho1|]. apply Forall_cons. split; [cbn [fst snd]; by rewrite Ho2|done].
  - intros t' s Hl Hs. unfold selects_series. rewrite (subject_selector_text _ _ _ Hs). split.
    + intros [_ Hf]. inv Hf. cbn in *. rewrite Ho1 in *. by apply uuid_String_inj.
    + intros ->. split; [by left|]. apply Forall_cons. split; [cbn [fst snd]; by rewrite Ho1|done].
Qed.

(** Whatever is written for a tenant's machine stays that tenant's: no selector
    scoped to another tenant takes a line of it, a deletion for a machine takes
    exactly that machine's lines, and one for a tenant exactly that tenant's. *)
Theorem series_isolated samples : asks
  (now_only (λ _ body, ∃ lines, parse_lines (length body) body = Some lines ∧ length lines = length samples ∧ Forall kept_apart lines))
  (λ _, True) (WriteSamples FormatFloat v t d samples).
Proof.
  unfold WriteSamples. destruct samples as [|s samples]; [done|]. eapply asks_vand; [by apply samples_lines|done|].
  intros body (lines & -> & Hf). apply asks_call; [|done]. exists lines. split; [by eapply lines_read|].
  split; [symmetry; by eapply Forall2_length|]. clear -Hf Ht Hd. induction Hf; constructor; [by eapply line_kept_apart|done].
Qed.
End apart.

(** ** What is asked of the store *)

(** The expressions the client asks, and their text. *)
Inductive expr :=
  | Selector (s : bytes)
  | Over (fn s : bytes) (secs : Z)
  | Without (agg : bytes) (e : expr)
  | Band (e : expr) (band : bytes * bytes)
  | Or (e1 e2 : expr).

Fixpoint text (e : expr) : bytes :=
  match e with
  | Selector s => s
  | Over fn s secs => fn ++ lit "(" ++ windowed s secs ++ lit ")"
  | Without agg e => agg ++ lit " without (" ++ environmentLabel ++ lit ") (" ++ text e ++ lit ")"
  | Band e band => band_part (text e) band
  | Or e1 e2 => text e1 ++ lit " or " ++ text e2
  end.

Fixpoint selectors (e : expr) : list bytes :=
  match e with
  | Selector s | Over _ s _ => [s]
  | Without _ e | Band e _ => selectors e
  | Or e1 e2 => selectors e1 ++ selectors e2
  end.

Definition of_tenant (t : uuid) (s : bytes) : Prop :=
  ∃ metric l, parse_selector s = Some (metric, (tenantLabel, uuid_String t) :: l).

Definition scoped_call (t : uuid) : ∀ R, vcall R → Prop := λ _ c,
  match c with
  | GetMatrix _ q => ∃ e, (lit "query", text e) ∈ q ∧ Forall (of_tenant t) (selectors e) ∧ selectors e ≠ []
  | GetSeries _ q | PostForm _ q => ∃ s, (matchParam, s) ∈ q ∧ of_tenant t s
  | _ => False
  end.

Lemma scoped_of_tenant t metric m s : scopedSelector t metric m = Ok s → of_tenant t s.
Proof.
  intros (_ & Hm & _ & Hl & ->)%scoped_selector_text. eexists _, _. apply selector_text_read; [by left|done|]. by constructor.
Qed.

Lemma subject_of_tenant t dev s : subjectSelector t dev = Ok s → of_tenant t s.
Proof. intros H%subject_selector_text. by eexists _, _. Qed.

Section asked.
Context (FormatFloat : byte → float64 → bytes) (ParseFloat : bytes → option float64) (other : float64 → Z) (t : uuid).

Lemma instant_scoped e at_ : Forall (of_tenant t) (selectors e) → selectors e ≠ [] →
  asks (scoped_call t) (λ _, True) (instantQuery ParseFloat other (text e) at_).
Proof.
  intros He Hne. apply asks_vand with (Q := λ _, True); [|done|done]. apply asks_call; [|done].
  exists e. split; [by left|done].
Qed.

Lemma selector_instant metric m at_ wrap (e : bytes → expr) :
  (∀ s, text (e s) = withoutEnvironment (wrap s)) → (∀ s, selectors (e s) = [s]) →
  asks (scoped_call t) (λ _, True) (scopedInstant ParseFloat other t metric m at_ wrap).
Proof.
  intros Ht Hs. unfold scopedInstant. destruct (scopedSelector _ _ _) as [s|] eqn:E; [|done]. rewrite <- Ht.
  apply instant_scoped; rewrite Hs; [|done]. constructor; [by eapply scoped_of_tenant|constructor].
Qed.

Lemma range_scoped rq : asks (scoped_call t) (λ _, True) (QueryRange ParseFloat other t rq).
Proof.
  unfold QueryRange. destruct (overTimeFunc _) as [fn|]; [|done]. case_bool_decide; [done|].
  destruct (scopedSelector _ _ _) as [s|] eqn:E; [|done]. apply asks_vand with (Q := λ _, True); [|done|done].
  apply asks_call; [|done]. exists (Without (rq_Agg rq) (Over fn s (Z.max (int_seconds other (rq_Step rq)) 1))).
  split; [|split; [constructor; [by eapply scoped_of_tenant|constructor]|done]]. cbn [text]. unfold range_expr.
  rewrite <- !app_assoc. by left.
Qed.

Lemma lookback_scoped metric m at_ lookback :
  asks (scoped_call t) (λ _, True) (QueryInstantLookback ParseFloat other t metric m at_ lookback).
Proof.
  by apply (selector_instant _ _ _ _ (λ s, Without (lit "max") (Over (lit "last_over_time") s (int_seconds other lookback)))).
Qed.

Lemma bands_scoped watch anomalous at_ lookback :
  asks (scoped_call t) (λ _, True) (CountAnomalyBands FormatFloat ParseFloat other t watch anomalous at_ lookback).
Proof.
  unfold CountAnomalyBands. destruct (ScopeSelector _ _) as [s|] eqn:E; [|done].
  assert (of_tenant t s) as Hs.
  { apply (scoped_of_tenant t MetricNodeAnomalyRate ∅). exact E. }
  apply asks_vand with (Q := λ _, True); [|done|done].
  set (e := Without (lit "max") (Over (lit "last_over_time") s (int_seconds other lookback))).
  set (b := bands FormatFloat watch anomalous). change (join_or _) with (text (Or (Band e (lit "anomalous", (b !!! 0%nat).2))
    (Or (Band e (lit "watch", (b !!! 1%nat).2)) (Band e (lit "healthy", (b !!! 2%nat).2))))).
  eapply asks_mono; [|apply instant_scoped]; [done| |done]. by repeat constructor.
Qed.

(** Every query of a range, of an instant and of the bands of health, every count
    and every deletion that the client makes for a tenant asks only through selectors
    that carry the tenant's matcher. *)
Theorem reads_scoped v rq metric m at_ lookback watch anomalous dev :
  asks (scoped_call t) (λ _, True) (QueryRange ParseFloat other t rq) ∧
  asks (scoped_call t) (λ _, True) (QueryInstant ParseFloat other t metric m at_) ∧
  asks (scoped_call t) (λ _, True) (QueryInstantLookback ParseFloat other t metric m at_ lookback) ∧
  asks (scoped_call t) (λ _, True) (CountAnomalyBands FormatFloat ParseFloat other t watch anomalous at_ lookback) ∧
  asks (scoped_call t) (λ _, True) (CountSeries t dev) ∧
  asks (scoped_call t) (λ _, True) (DeleteSeries v t dev).
Proof.
  split; [apply range_scoped|]. split; [by apply (selector_instant _ _ _ _ (λ s, Without (lit "max") (Selector s)))|].
  split; [apply lookback_scoped|]. split; [apply bands_scoped|]. split.
  - unfold CountSeries. destruct (subjectSelector _ _) as [s|] eqn:E; [|done]. apply asks_call; [|done].
    exists s. split; [by left|by eapply subject_of_tenant].
  - unfold DeleteSeries. destruct (subjectSelector _ _) as [s|] eqn:E; [|done]. apply asks_call; [|by intros []].
    exists s. split; [by left|by eapply subject_of_tenant].
Qed.
End asked.

(** ** A store of series *)

Module Store.

Definition FormatFloat (fmt : byte) (f : float64) : bytes := lit "1".
Lemma format_clean f : x20 ∉ FormatFloat x67 f.
Proof. by apply (bool_decide_unpack _); vm_compute. Qed.

Definition tenant1 : uuid := replicate 15 x00 ++ [x11].
Definition tenant2 : uuid := replicate 15 x00 ++ [x12].
Definition box : uuid := replicate 15 x00 ++ [x31].
Definition client : VMClient := mk_client [] (lit "staging").

(** A value that would end its quotes and name another tenant. *)
Definition hostile : bytes := lit "x" ++ [quote; close_brace; newline] ++ lit "y{a=" ++ [quote; backslash].
Definition cpu : Sample := mk_sample (lit "cpu") f_one 5000000 {[lit "dim" := hostile]}.

Definition posted (p : series unit) : option bytes := match p with Do (PostText _ _ body) _ => Some body | _ => None end.

Lemma scoped_selector_exact_witness :
  ∃ s, scopedSelector tenant1 (lit "cpu") {[lit "dim" := hostile]} = Ok s ∧
    parse_selector s = Some (lit "cpu", (tenantLabel, uuid_String tenant1) :: sorted_labels {[lit "dim" := hostile]}).
Proof.
  eexists. split; [by vm_compute|]. apply (scoped_selector_exact tenant1 (lit "cpu") {[lit "dim" := hostile]}). by vm_compute.
Defined.

Lemma samples_read_back_witness :
  is_Some (posted (WriteSamples FormatFloat client tenant1 box [cpu])) ∧
  asks (now_only (λ _ body, ∃ lines, parse_lines (length body) body = Some lines ∧ Forall2 (line_of FormatFloat tenant1 box) [cpu] lines))
    (λ _, True) (WriteSamples FormatFloat client tenant1 box [cpu]).
Proof. split; [by vm_compute; eexists|]. apply (samples_read_back FormatFloat format_clean client tenant1 box [cpu]). Defined.

Lemma series_isolated_witness :
  is_Some (posted (WriteSamples FormatFloat client tenant1 box [cpu])) ∧
  asks (now_only (λ _ body, ∃ lines, parse_lines (length body) body = Some lines ∧ length lines = 1%nat ∧
                            Forall (kept_apart client tenant1 box) lines))
    (λ _, True) (WriteSamples FormatFloat client tenant1 box [cpu]).
Proof. split; [by vm_compute; eexists|]. by apply (series_isolated FormatFloat format_clean client tenant1 box eq_refl eq_refl [cpu]). Defined.

(** The line written, and who may take it. *)
Example hostile_line : posted (WriteSamples FormatFloat client tenant1 box [cpu]) ≫= (λ body, length <$> parse_lines (length body) body) = Some 1%nat.
Proof. by vm_compute. Qed.

(** A selector of the caller's own making is scoped at its first brace only: what it
    joins with [or] is left as it was, and reads every tenant's series.  The
    selectors the server builds itself are safe by [scoped_selector_exact]. *)
Example joined_selector_unscoped :
  let q b := [quote] ++ lit b ++ [quote] in
  ScopeSelector (lit "cpu{a=" ++ q "b"%string ++ lit "} or cpu{c=" ++ q "d"%string ++ lit "}") tenant1 =
  Ok (lit "cpu{tenant_id=" ++ quoted (uuid_String tenant1) ++ lit ",a=" ++ q "b"%string ++ lit "} or cpu{c=" ++ q "d"%string ++ lit "}").
Proof. by vm_compute. Qed.

(** A matcher whose value mentions the tenant's label is refused like one on it. *)
Example mentioned_tenant_refused :
  scopedSelector tenant1 (lit "cpu") {[lit "dim" := lit "tenant_id"]} = Err ErrTenantMatcherNotAllowed.
Proof. by vm_compute. Qed.
End Store.
