(* ===== verification/Charts.v ===== *)
(** * Charts and health of machines

    [src/server/internal/api]: the grid of a chart ([metrics_grid.go]), the series
    laid onto it ([metrics_assemble.go]), and the handlers that read a machine's
    series, the badges of a list of machines and the bands of a fleet
    ([handlers_device_metrics.go], [handlers_device_summary.go]).

    The handlers read through the interface [MetricsReader] ([api.go]), which the
    client of [Series] implements; the device store and the clock are calls.  Series
    of equal names, which a machine's one series per dimension does not give, would
    come in any order; here they keep theirs. *)
From S2P Require Import Prelude GoTime GoStrings Float Settings Dbtx Sorting Effect Seconds Telemetry Series.

Definition metricAvgName : bytes := lit "opengate_edge_metric_avg".
Definition metricDimLabel : bytes := lit "dim".
Definition minRangeStepSecs : Z := 60.
Definition defaultMaxPoints : Z := 1000.
Definition minMaxPointsBound : Z := 10.
Definition maxMaxPointsBound : Z := 2000.
Definition anomalyBadgeLookback : duration := 10 * minute.

(** ** [metrics_grid.go] *)

Record metricGrid := mk_grid { mg_ts : list Z; mg_step : Z }.

Definition clampMaxPoints (mp : option Z) : Z :=
  let v := default defaultMaxPoints mp in
  if bool_decide (v < minMaxPointsBound) then minMaxPointsBound
  else if bool_decide (v > maxMaxPointsBound) then maxMaxPointsBound
  else v.

Section grid.
(** What the machine leaves in an integer of a float that does not fit. *)
Context (other : float64 → Z).

Definition chooseStep (from to : time) (maxPoints : Z) : duration :=
  let windowSecs := int_seconds other (time_sub to from) in
  if bool_decide (windowSecs ≤ 0) then minRangeStepSecs * second
  else
    let step := Z.quot (i64 (i64 (windowSecs + maxPoints) - 1)) maxPoints in
    let step := if bool_decide (step < minRangeStepSecs) then minRangeStepSecs else step in
    i64 (step * second).

Definition buildMetricGrid (from to : time) (step : duration) : metricGrid :=
  let stepSecs := int_seconds other step in
  let stepSecs := if bool_decide (stepSecs < 1) then 1 else stepSecs in
  let buckets := Z.quot (int_seconds other (time_sub to from)) stepSecs in
  let buckets := if bool_decide (buckets < 1) then 1 else buckets in
  let r := Z.rem (unix from) stepSecs in
  let r := if bool_decide (r < 0) then r + stepSecs else r in
  let first := i64 (unix from - r) in
  mk_grid ((λ i, i64 (first + Z.of_nat i * stepSecs)) <$> seq 0 (Z.to_nat buckets)) stepSecs.

(** The grid always has a bucket. *)
Definition grid_first (g : metricGrid) : Z := default 0 (head (mg_ts g)).
Definition queryStart (g : metricGrid) : time := grid_first g * second.
Definition queryEnd (g : metricGrid) : time := default 0 (last (mg_ts g)) * second.

Definition slot (g : metricGrid) (ts : Z) : option nat :=
  let offset := i64 (ts - grid_first g) in
  if bool_decide (offset < 0) || negb (bool_decide (Z.rem offset (mg_step g) = 0)) then None
  else
    let i := Z.quot offset (mg_step g) in
    if bool_decide (Z.of_nat (length (mg_ts g)) ≤ i) then None else Some (Z.to_nat i).
End grid.

(** ** [metrics_assemble.go] *)

Record offGridPoints := mk_off { og_count : Z; og_dim : bytes; og_ts : Z }.

Definition record_off (dim : bytes) (ts : Z) (o : offGridPoints) : offGridPoints :=
  if bool_decide (og_count o = 0) then mk_off 1 dim ts else mk_off (og_count o + 1) (og_dim o) (og_ts o).

Definition align_point (g : metricGrid) (dim : bytes) (st : list (option float64) * offGridPoints) (p : Z * float64) :
    list (option float64) * offGridPoints :=
  match slot g p.1 with
  | None => (st.1, record_off dim p.1 st.2)
  | Some pos => if is_nan p.2 || is_inf p.2 then st else (<[pos := Some p.2]> st.1, st.2)
  end.

Definition alignValues (s : RangeSeries) (dim : bytes) (g : metricGrid) (off : offGridPoints) :
    list (option float64) * offGridPoints :=
  foldl (align_point g dim) (replicate (length (mg_ts g)) None, off) (zip (rs_Timestamps s) (rs_Values s)).

(** The label that names a series' dimension. *)
Definition dim_of (s : RangeSeries) : bytes := default [] (rs_Labels s !! metricDimLabel).

Definition indexByDim (series : list RangeSeries) : gmap bytes RangeSeries :=
  foldl (λ m s, if bool_decide (dim_of s = []) then m else <[dim_of s := s]> m) ∅ series.

Definition dimFilter (dims : option (list bytes)) : option (gset bytes) :=
  match dims with
  | None => None
  | Some l =>
      let want : gset bytes := list_to_set (List.filter (λ d, negb (bool_decide (d = []))) l) in
      if bool_decide (want = ∅) then None else Some want
  end.

Inductive MinMaxSource := SourceNone | SourceAvgOf60s.

Record MetricSeries := mk_mseries {
  ms_Name : bytes; ms_Avg : list (option float64); ms_Min : option (list (option float64)); ms_Max : option (list (option float64));
  ms_MinMaxSource : MinMaxSource;
}.

Record MetricRangeResponse := mk_mresp { mp_T : list Z; mp_Series : list MetricSeries; mp_Downsampled : bool; mp_BucketS : Z }.

Definition attachBand (ms : MetricSeries) (dim : bytes) (g : metricGrid) (off : offGridPoints)
    (minByDim maxByDim : gmap bytes RangeSeries) : MetricSeries * offGridPoints :=
  match minByDim !! dim, maxByDim !! dim with
  | Some mn, Some mx =>
      let '(minVals, off) := alignValues mn dim g off in
      let '(maxVals, off) := alignValues mx dim g off in
      (mk_mseries (ms_Name ms) (ms_Avg ms) (Some minVals) (Some maxVals) SourceAvgOf60s, off)
  | _, _ => (ms, off)
  end.

Fixpoint assemble_series (avg : list RangeSeries) (minByDim maxByDim : gmap bytes RangeSeries) (want : option (gset bytes))
    (wantBand : bool) (g : metricGrid) (off : offGridPoints) : list MetricSeries * offGridPoints :=
  match avg with
  | [] => ([], off)
  | a :: avg =>
      let dim := dim_of a in
      if bool_decide (dim = []) || match want with Some w => negb (bool_decide (dim ∈ w)) | None => false end
      then assemble_series avg minByDim maxByDim want wantBand g off
      else
        let '(vals, off) := alignValues a dim g off in
        let ms := mk_mseries dim vals None None SourceNone in
        let '(ms, off) := if wantBand then attachBand ms dim g off minByDim maxByDim else (ms, off) in
        let '(rest, off) := assemble_series avg minByDim maxByDim want wantBand g off in
        (ms :: rest, off)
  end.

Definition assembleMetricRange (avg mins maxs : list RangeSeries) (want : option (gset bytes)) (wantBand : bool) (g : metricGrid) :
    MetricRangeResponse * offGridPoints :=
  let '(l, off) := assemble_series avg (indexByDim mins) (indexByDim maxs) want wantBand g (mk_off 0 [] 0) in
  (mk_mresp (mg_ts g) (stable_sort (λ a b, string_lt (ms_Name a) (ms_Name b)) l)
     (bool_decide (mg_step g > minRangeStepSecs)) (mg_step g), off).

Definition bandFromParam (b : option bytes) : bool :=
  match b with None => true | Some b => bool_decide (b = lit "avg_of_60s") end.

(** ** The reader *)

Class MetricsReader (F : Type → Type) := {
  read_range : uuid → RangeQuery → prog F (result vm_err (list RangeSeries));
  read_lookback : uuid → bytes → gmap bytes bytes → time → duration → prog F (result vm_err (list InstantValue));
  read_bands : uuid → float64 → float64 → time → duration → prog F (result vm_err BandCounts);
}.

#[global] Instance vm_reader (FormatFloat : byte → float64 → bytes) (ParseFloat : bytes → option float64) (other : float64 → Z) :
    MetricsReader vcall := {|
  read_range := QueryRange ParseFloat other;
  read_lookback := QueryInstantLookback ParseFloat other;
  read_bands := CountAnomalyBands FormatFloat ParseFloat other;
|}.

(** ** The handlers *)

Inductive dev_result := DevFound | DevNotFound | DevFailed.

(** The devices of a tenant: all, online, under maintenance. *)
Record Counts := mk_counts { ct_Total : Z; ct_Online : Z; ct_Maintenance : Z }.

Section handlers.
Context {F : Type → Type}.

Inductive acall : Type → Type :=
  | Read (R : Type) (c : F R) : acall R
  | DeviceGet (ctx : option Tenant) (id : uuid) : acall dev_result
  | DeviceCounts (ctx : option Tenant) (organization : uuid) : acall (option Counts)
  | Misaligned (device : uuid) (off : offGridPoints) : acall unit
  | ANow : acall time.

Fixpoint reading {A} (p : prog F A) : prog acall A :=
  match p with
  | Ret a => Ret a
  | Do c k => Do (Read _ c) (λ r, reading (k r))
  | Panic => Panic
  end.

(** Answers by status; an error no status stands for is 500. *)
Inductive chart_reply (A : Type) := Chart (a : A) | Status_ (code : Z).
Arguments Chart {A} a.
Arguments Status_ {A} code.

Context (reader : option (MetricsReader F)) (other : float64 → Z).

Record metricRangeQuery := mk_mrq { mq_from : time; mq_to : time; mq_step : duration; mq_dims : option (list bytes); mq_wantBand : bool }.

Definition reportGridMisalignment (device : uuid) (off : offGridPoints) : prog acall unit :=
  if bool_decide (og_count off = 0) then Ret tt else call_out (Misaligned device off).

(** The end of [buildMetricRange]: the series laid out, misplaced samples reported. *)
Definition finish_range (deviceID : uuid) (q : metricRangeQuery) (grid : metricGrid) (avg mins maxs : list RangeSeries) :
    prog acall (result vm_err MetricRangeResponse) :=
  let '(resp, off) := assembleMetricRange avg mins maxs (dimFilter (mq_dims q)) (mq_wantBand q) grid in
  _ ← reportGridMisalignment deviceID off;
  Ret (Ok resp).

Definition buildMetricRange (rd : MetricsReader F) (tenantID deviceID : uuid) (q : metricRangeQuery) :
    prog acall (result vm_err MetricRangeResponse) :=
  let grid := buildMetricGrid other (mq_from q) (mq_to q) (mq_step q) in
  let read agg := reading (read_range tenantID (mk_range metricAvgName {[deviceLabel := uuid_String deviceID]} agg
                             (queryStart grid) (queryEnd grid) (mq_step q))) in
  avg ← read RangeAvg;
  match avg with
  | Err e => Ret (Err e)
  | Ok avg =>
      if mq_wantBand q then
        mins ← read RangeMin;
        match mins with
        | Err e => Ret (Err e)
        | Ok mins =>
            maxs ← read RangeMax;
            match maxs with
            | Err e => Ret (Err e)
            | Ok maxs => finish_range deviceID q grid avg mins maxs
            end
        end
      else finish_range deviceID q grid avg [] []
  end.

Record MetricsParams := mk_params { pm_From : time; pm_To : time; pm_MaxPoints : option Z; pm_Dims : option (list bytes); pm_Band : option bytes }.

Definition GetDeviceMetrics (ctx : option Tenant) (id : uuid) (p : MetricsParams) : prog acall (chart_reply MetricRangeResponse) :=
  match reader with
  | None => Ret (Status_ 503)
  | Some rd =>
      found ← call_out (DeviceGet ctx id);
      match found with
      | DevNotFound => Ret (Status_ 404)
      | DevFailed => Ret (Status_ 500)
      | DevFound =>
          match TenantFromContext ctx with
          | None => Ret (Status_ 403)
          | Some tenant =>
              if negb (bool_decide (pm_To p > pm_From p)) then Ret (Status_ 400)
              else
                let step := chooseStep other (pm_From p) (pm_To p) (clampMaxPoints (pm_MaxPoints p)) in
                resp ← buildMetricRange rd (TenantID tenant) id
                         (mk_mrq (pm_From p) (pm_To p) step (pm_Dims p) (bandFromParam (pm_Band p)));
                match resp with
                | Err _ => Ret (Status_ 503)
                | Ok resp => Ret (Chart resp)
                end
          end
      end
  end.

(** A device of a list, with its badge. *)
Record badge := mk_badge { bg_Id : uuid; bg_AnomalyRate : option float64 }.

(** The rate as the answer carries it, a float32. *)
Context (to_float32 : float64 → float64).

Definition rates_by_device (vals : list InstantValue) : gmap bytes float64 :=
  foldl (λ m v, let id := default [] (iv_Labels v !! deviceLabel) in if bool_decide (id = []) then m else <[id := iv_Value v]> m) ∅ vals.

Definition enrichAnomalyRates (ctx : option Tenant) (devices : list badge) : prog acall (list badge) :=
  match reader, devices, TenantFromContext ctx with
  | Some rd, _ :: _, Some tenant =>
      now ← call_out ANow;
      vals ← reading (read_lookback (TenantID tenant) MetricNodeAnomalyRate ∅ now anomalyBadgeLookback);
      match vals with
      | Err _ => Ret devices
      | Ok vals =>
          let byDevice := rates_by_device vals in
          Ret ((λ d, match byDevice !! uuid_String (bg_Id d) with
                     | Some rate => mk_badge (bg_Id d) (Some (to_float32 rate))
                     | None => d
                     end) <$> devices)
      end
  | _, _, _ => Ret devices
  end.

Record FleetHealthCounts := mk_fleet { fh_Anomalous : Z; fh_Watch : Z; fh_Healthy : Z; fh_Unknown : Z }.
Record DeviceSummary := mk_summary { dm_Total : Z; dm_Online : Z; dm_Offline : Z; dm_Maintenance : Z; dm_Health : FleetHealthCounts }.

(** 0.1 and 0.3 as float64. *)
Definition watchThreshold : float64 := f_div f_one (f_of_Z 10).
Definition anomalousThreshold : float64 := f_div (f_of_Z 3) (f_of_Z 10).

Definition countHealthBands (ctx : option Tenant) (total : Z) : prog acall FleetHealthCounts :=
  let unknown := mk_fleet 0 0 0 total in
  match reader, TenantFromContext ctx with
  | Some rd, Some tenant =>
      now ← call_out ANow;
      bands ← reading (read_bands (TenantID tenant) watchThreshold anomalousThreshold now anomalyBadgeLookback);
      Ret (match bands with
           | Err _ => unknown
           | Ok b => mk_fleet (bn_Anomalous b) (bn_Watch b) (bn_Healthy b)
                       (Z.max (i64 (i64 (i64 (total - bn_Anomalous b) - bn_Watch b) - bn_Healthy b)) 0)
           end)
  | _, _ => Ret unknown
  end.

Definition GetDeviceSummary (ctx : option Tenant) (organization : option uuid) : prog acall (chart_reply DeviceSummary) :=
  counts ← call_out (DeviceCounts ctx (default Nil organization));
  match counts with
  | None => Ret (Status_ 500)
  | Some c =>
      health ← countHealthBands ctx (ct_Total c);
      Ret (Chart (mk_summary (ct_Total c) (ct_Online c) (ct_Total c - ct_Online c) (ct_Maintenance c) health))
  end.
End handlers.
Arguments acall F : clear implicits.
Arguments Chart {A} a.
Arguments Status_ {A} code.
