(* ===== verification/ChartClaims.v ===== *)
(** * What charts promise

    A chart has at most as many points as were asked for, on a lattice of its step
    that starts no later than the window; each value is the last sample of its bucket
    and every sample off the grid is counted; the answer's columns are as long as its
    time axis.  Handlers read only their caller's tenant's series, through any reader
    that keeps its tenants apart, as the client of [Series] does. *)
From S2P Require Import Prelude GoTime GoStrings Float Settings Dbtx Sorting Effect Seconds Telemetry Series SeriesClaims Charts.

(** ** The step *)

Lemma clampMaxPoints_range mp : 10 ≤ clampMaxPoints mp ≤ 2000.
Proof.
  unfold clampMaxPoints, minMaxPointsBound, maxMaxPointsBound. repeat case_bool_decide; lia.
Qed.

Lemma time_sub_pos from to : from < to → 0 ≤ time_sub to from ≤ i64_max.
Proof. unfold time_sub, i64_max. lia. Qed.

(** The least number of seconds, and no fewer than a minute, of which as many as the
    points cover the window. *)
Lemma chooseStep_spec other from to mp : from < to → 10 ≤ mp ≤ 2000 →
  let W := int_seconds other (time_sub to from) in
  ∃ k, chooseStep other from to mp = k * second ∧ 60 ≤ k < 2 ^ 33 ∧ W ≤ k * mp ∧ (∀ k', 60 ≤ k' → W ≤ k' * mp → k ≤ k').
Proof.
  intros Hft Hmp W. pose proof (int_seconds_bound other _ (time_sub_pos _ _ Hft)) as HW. fold W in HW.
  unfold chooseStep. fold W. clearbody W. change (2 ^ 36) with 68719476736 in HW. change (2 ^ 33) with 8589934592.
  unfold minRangeStepSecs, second. case_bool_decide as H0; [exists 60; split; [done|split; [lia|split; [lia|by intros]]]|].
  rewrite (i64_id (W + mp)) by (unfold is_i64; lia). rewrite (i64_id (W + mp - 1)) by (unfold is_i64; lia).
  rewrite Z.quot_div_nonneg by lia. set (c := (W + mp - 1) / mp).
  pose proof (Z.div_mod (W + mp - 1) mp ltac:(lia)) as Hdm. pose proof (Z.mod_pos_bound (W + mp - 1) mp ltac:(lia)) as Hr. fold c in Hdm.
  assert (10 * c ≤ W + mp - 1) by nia. assert (W ≤ c * mp) by nia.
  case_bool_decide as Hc; rewrite i64_id by (unfold is_i64; lia).
  - exists 60. split; [done|]. split; [lia|]. split; [nia|by intros].
  - exists c. split; [done|]. split; [lia|]. split; [done|]. intros k' _ Hk'. assert (¬ k' < c); [|lia]. intros Hlt. nia.
Qed.

(** ** The grid *)

(** [n] points [k] apart from [first]. *)
Definition lattice (g : metricGrid) (first k : Z) (n : nat) : Prop :=
  mg_ts g = (λ i, first + Z.of_nat i * k) <$> seq 0 n ∧ mg_step g = k ∧ 0 < k < 2 ^ 33 ∧ (1 ≤ n ≤ 2000)%nat ∧
  Z.abs first ≤ 2 ^ 61 + 2 ^ 33.

Lemma grid_lattice other from to k mp : from < to → Z.abs (unix from) ≤ 2 ^ 61 → 0 < k < 2 ^ 33 →
  let W := int_seconds other (time_sub to from) in W ≤ k * mp → 1 ≤ mp ≤ 2000 →
  lattice (buildMetricGrid other from to (k * second)) (unix from / k * k) k (Z.to_nat (Z.max 1 (W / k))) ∧ Z.max 1 (W / k) ≤ mp.
Proof.
  intros Hft Hu Hk W HW Hmp. pose proof (int_seconds_bound other _ (time_sub_pos _ _ Hft)) as HWb. fold W in HWb.
  assert (W / k ≤ mp) as Hn by (apply Z.div_le_upper_bound; lia). split; [|lia].
  unfold lattice, buildMetricGrid. rewrite int_seconds_whole by (assert (2 ^ 33 < 2 ^ 53) by (by apply Z.pow_lt_mono_r); lia).
  rewrite (bool_decide_false (k < 1)) by lia. fold W. rewrite Z.quot_div_nonneg by lia. cbn [mg_ts mg_step].
  replace (if bool_decide (W / k < 1) then 1 else W / k) with (Z.max 1 (W / k)) by (case_bool_decide; lia).
  set (u := unix from) in *.
  assert ((if bool_decide (Z.rem u k < 0) then Z.rem u k + k else Z.rem u k) = u `mod` k) as ->.
  { case_bool_decide as Hr.
    - apply (Z.mod_unique_pos _ _ (Z.quot u k - 1)).
      + pose proof (Z.rem_bound_abs u k ltac:(lia)). lia.
      + pose proof (Z.quot_rem' u k). lia.
    - apply (Z.mod_unique_pos _ _ (Z.quot u k)).
      + pose proof (Z.rem_bound_abs u k ltac:(lia)). lia.
      + pose proof (Z.quot_rem' u k). lia. }
  pose proof (Z.div_mod u k ltac:(lia)) as Hdm. pose proof (Z.mod_pos_bound u k ltac:(lia)) as Hr.
  change (2 ^ 61) with 2305843009213693952 in *. change (2 ^ 33) with 8589934592 in *.
  replace (u - u `mod` k) with (u / k * k) by lia. rewrite (i64_id (u / k * k)) by (unfold is_i64; lia).
  split; [|split; [done|split; [done|split; [lia|lia]]]].
  apply list_fmap_ext. intros i j Hj. apply lookup_seq in Hj as [-> Hi]. rewrite i64_id; [done|].
  unfold is_i64. assert (Z.of_nat (0 + i) * k ≤ 2000 * 8589934592) by nia. assert (0 ≤ Z.of_nat (0 + i) * k) by nia. lia.
Qed.

Lemma lattice_first g first k n : lattice g first k n → grid_first g = first ∧ length (mg_ts g) = n.
Proof.
  intros (Ht & _ & _ & Hn & _). unfold grid_first. rewrite Ht, length_fmap, length_seq. destruct n as [|n]; [lia|].
  split; [cbn; lia|done].
Qed.

(** A timestamp has a slot exactly when it is a point of the lattice. *)
Lemma lattice_slot g first k n ts i : lattice g first k n → Z.abs ts ≤ 2 ^ 61 →
  slot g ts = Some i ↔ (i < n)%nat ∧ ts = first + Z.of_nat i * k.
Proof.
  intros Hg Hts. destruct (lattice_first _ _ _ _ Hg) as [Hf Hl]. destruct Hg as (_ & Hs & Hk & Hn & Ha).
  unfold slot. rewrite Hf, Hs, Hl. change (2 ^ 61) with 2305843009213693952 in *. change (2 ^ 33) with 8589934592 in *.
  rewrite i64_id by (unfold is_i64; lia). case_bool_decide as H0; cbn [orb].
  { split; [done|]. intros [Hi ->]. nia. }
  rewrite Z.rem_mod_nonneg, Z.quot_div_nonneg by lia. pose proof (Z.div_mod (ts - first) k ltac:(lia)) as Hdm.
  pose proof (Z.mod_pos_bound (ts - first) k ltac:(lia)) as Hr. assert (0 ≤ (ts - first) / k) by (apply Z.div_pos; lia).
  case_bool_decide as Hm; cbn [negb].
  - case_bool_decide as Hi; (split; [|intros [Hi' ->]]).
    + done.
    + replace (first + Z.of_nat i * k - first) with (Z.of_nat i * k) in Hi by lia. rewrite Z.div_mul in Hi by lia. lia.
    + intros [= <-]. split; [lia|]. rewrite Z2Nat.id by lia. lia.
    + replace (first + Z.of_nat i * k - first) with (Z.of_nat i * k) by lia. rewrite Z.div_mul by lia. by rewrite Nat2Z.id.
  - split; [done|]. intros [Hi ->]. destruct Hm. replace (first + Z.of_nat i * k - first) with (Z.of_nat i * k) by lia. apply Z.mod_mul. lia.
Qed.

(** The chart of any window has between one point and the number asked for, which
    is held within 10 and 2000, on a lattice of a whole number of seconds, the least
    of a minute or more with which the points cover the window; it starts on a
    multiple of its step at or before the window, and a timestamp has a place on it
    exactly when it is one of its points. *)
Theorem chart_bounded other from to maxPoints : from < to → Z.abs (unix from) ≤ 2 ^ 61 →
  let mp := clampMaxPoints maxPoints in
  let step := chooseStep other from to mp in
  let g := buildMetricGrid other from to step in
  let W := int_seconds other (time_sub to from) in
  10 ≤ mp ≤ 2000 ∧ ∃ k n, step = k * second ∧ 60 ≤ k ∧ W ≤ k * mp ∧ (∀ k', 60 ≤ k' → W ≤ k' * mp → k ≤ k') ∧
    (1 ≤ n)%nat ∧ Z.of_nat n ≤ mp ∧ Z.of_nat n = Z.max 1 (W / k) ∧
    mg_ts g = (λ i, unix from / k * k + Z.of_nat i * k) <$> seq 0 n ∧ mg_step g = k ∧
    (∀ ts i, Z.abs ts ≤ 2 ^ 61 → slot g ts = Some i ↔ (i < n)%nat ∧ ts = unix from / k * k + Z.of_nat i * k).
Proof.
  intros Hft Hu mp step g W. pose proof (clampMaxPoints_range maxPoints) as Hmp. fold mp in Hmp. split; [done|].
  destruct (chooseStep_spec other from to mp Hft Hmp) as (k & Hs & Hk & HW & Hleast).
  destruct (grid_lattice other from to k mp Hft Hu ltac:(lia) HW ltac:(lia)) as [Hg Hn]. fold step in Hs. rewrite <- Hs in Hg. fold g in Hg.
  exists k, (Z.to_nat (Z.max 1 (W / k))). fold W in Hn. pose proof Hg as (Ht & Hst & _ & Hn' & _).
  split; [done|]. split; [lia|]. split; [done|]. split; [done|]. split; [lia|]. split; [lia|]. split; [lia|]. split; [done|]. split; [done|].
  intros ts i Hts. by apply lattice_slot.
Qed.

(** ** Values on the grid *)

Definition finite (v : float64) : bool := negb (is_nan v || is_inf v).

(** The last finite sample of a bucket, and how many samples have none. *)
Definition bucket_value (g : metricGrid) (pts : list (Z * float64)) (i : nat) : option float64 :=
  last (omap (λ p, if bool_decide (slot g p.1 = Some i) && finite p.2 then Some p.2 else None) pts).
Definition off_grid (g : metricGrid) (pts : list (Z * float64)) : Z :=
  Z.of_nat (length (filter (λ p, slot g p.1 = None) pts)).

Lemma align_fold g dim pts acc :
  let out := foldl (align_point g dim) acc pts in
  length out.1 = length acc.1 ∧ og_count out.2 = og_count acc.2 + off_grid g pts ∧
  ∀ i, (i < length acc.1)%nat → out.1 !! i = match bucket_value g pts i with Some v => Some (Some v) | None => acc.1 !! i end.
Proof.
  revert acc. induction pts as [|p pts IH]; intros acc; cbn [foldl].
  { split; [done|]. split; [unfold off_grid; cbn; lia|done]. }
  destruct (IH (align_point g dim acc p)) as (Hl & Hc & Hv). clear IH. set (out := foldl _ _ _) in *.
  assert (length (align_point g dim acc p).1 = length acc.1) as Hla.
  { unfold align_point. destruct (slot g p.1); [|done]. destruct (_ || _); [done|]. apply length_insert. }
  split; [congruence|]. split.
  - rewrite Hc. unfold off_grid, align_point. destruct (slot g p.1) as [pos|] eqn:Es.
    + rewrite filter_cons_False by (by rewrite Es). by destruct (_ || _).
    + rewrite filter_cons_True by done. cbn [snd length]. unfold record_off. case_bool_decide; cbn [og_count]; lia.
  - intros i Hi. rewrite Hv by congruence. unfold bucket_value. cbn [omap list_omap]. set (rest := omap _ pts).
    assert ((align_point g dim acc p).1 !! i =
      if bool_decide (slot g p.1 = Some i) && finite p.2 then Some (Some p.2) else acc.1 !! i) as ->.
    { unfold align_point, finite. destruct (slot g p.1) as [pos|]; [|by rewrite bool_decide_false by done].
      destruct (is_nan p.2 || is_inf p.2); cbn [negb fst]; [by rewrite andb_false_r|]. rewrite andb_true_r.
      case_bool_decide as E; [injection E as ->; by rewrite list_lookup_insert_eq|]. rewrite list_lookup_insert_ne; [done|congruence]. }
    destruct (_ && _); [|done]. destruct rest as [|v rest]; [done|]. change (last (p.2 :: v :: rest)) with (last (v :: rest)).
    destruct (last (v :: rest)) eqn:El; [done|by apply last_None in El].
Qed.

(** A series is laid onto a grid exactly: each bucket holds the last finite sample
    that falls on it, an empty bucket none, and the samples that fall on no bucket are
    counted, none of them placed. *)
Theorem align_exact s dim g off :
  let pts := zip (rs_Timestamps s) (rs_Values s) in
  let out := alignValues s dim g off in
  length out.1 = length (mg_ts g) ∧ (∀ i, (i < length (mg_ts g))%nat → out.1 !! i = Some (bucket_value g pts i)) ∧
  og_count out.2 = og_count off + off_grid g pts.
Proof.
  intros pts out. destruct (align_fold g dim pts (replicate (length (mg_ts g)) None, off)) as (Hl & Hc & Hv).
  unfold out, alignValues. cbn [fst snd] in *. rewrite length_replicate in *. split; [done|]. split; [|done].
  intros i Hi. rewrite Hv by done. destruct (bucket_value _ _ _); [done|]. by rewrite lookup_replicate_2.
Qed.

(** ** The answer's columns *)

Definition column_ok (g : metricGrid) (ms : MetricSeries) : Prop :=
  length (ms_Avg ms) = length (mg_ts g) ∧ ms_Name ms ≠ [] ∧
  match ms_Min ms, ms_Max ms with
  | Some mn, Some mx => length mn = length (mg_ts g) ∧ length mx = length (mg_ts g) ∧ ms_MinMaxSource ms = SourceAvgOf60s
  | None, None => ms_MinMaxSource ms = SourceNone
  | _, _ => False
  end.

Lemma align_length s dim g off : length (alignValues s dim g off).1 = length (mg_ts g).
Proof.
  destruct (align_fold g dim (zip (rs_Timestamps s) (rs_Values s)) (replicate (length (mg_ts g)) None, off)) as (Hl & _).
  unfold alignValues. rewrite Hl. apply length_replicate.
Qed.

Lemma assemble_columns avg mins maxs want wantBand g off :
  Forall (λ ms, column_ok g ms ∧ match want with Some w => ms_Name ms ∈ w | None => True end)
    (assemble_series avg mins maxs want wantBand g off).1.
Proof.
  revert off. induction avg as [|a avg IH]; intros off; cbn [assemble_series]; [constructor|].
  case_bool_decide as Hd; [apply IH|]. cbn [orb].
  assert (match want with Some w => negb (bool_decide (dim_of a ∈ w)) | None => false end = false →
    match want with Some w => dim_of a ∈ w | None => True end) as Hw.
  { destruct want; [|done]. by case_bool_decide. }
  destruct (match want with Some w => _ | None => _ end); [apply IH|]. specialize (Hw eq_refl).
  pose proof (align_length a (dim_of a) g off) as Hl. destruct (alignValues a (dim_of a) g off) as [vals off1].
  set (ms := mk_mseries _ _ _ _ _). assert (∀ r, r = (if wantBand then attachBand ms (dim_of a) g off1 mins maxs else (ms, off1)) →
    column_ok g r.1 ∧ ms_Name r.1 = dim_of a) as Hms.
  { intros r ->. destruct wantBand; [|done]. unfold attachBand.
    destruct (mins !! dim_of a) as [mn|]; [|done]. destruct (maxs !! dim_of a) as [mx|]; [|done].
    pose proof (align_length mn (dim_of a) g off1) as H1. destruct (alignValues mn _ g off1) as [v1 o1].
    pose proof (align_length mx (dim_of a) g o1) as H2. destruct (alignValues mx _ g o1) as [v2 o2]. done. }
  destruct (Hms _ eq_refl) as [Hc Hn]. clear Hms. destruct (if wantBand then _ else _) as [ms' off2]. specialize (IH off2).
  destruct (assemble_series avg mins maxs want wantBand g off2) as [rest off3]. constructor; [|done].
  cbn [fst] in *. rewrite Hn. done.
Qed.

Definition response_ok (g : metricGrid) (want : option (gset bytes)) (resp : MetricRangeResponse) : Prop :=
  mp_T resp = mg_ts g ∧ mp_BucketS resp = mg_step g ∧
  Forall (λ ms, column_ok g ms ∧ match want with Some w => ms_Name ms ∈ w | None => True end) (mp_Series resp).

Lemma assembled_ok avg mins maxs want wantBand g : response_ok g want (assembleMetricRange avg mins maxs want wantBand g).1.
Proof.
  unfold assembleMetricRange. pose proof (assemble_columns avg (indexByDim mins) (indexByDim maxs) want wantBand g (mk_off 0 [] 0)) as H.
  destruct (assemble_series _ _ _ _ _ _ _) as [l off]. split; [done|]. split; [done|]. cbn [mp_Series fst] in *.
  by rewrite stable_sort_Permutation.
Qed.

(** ** Whose series are read *)

(** A reader whose calls for a tenant stay within that tenant. *)
Class ScopedReader (F : Type → Type) (rd : MetricsReader F) := {
  within : uuid → ∀ R, F R → Prop;
  range_within t rq : asks (within t) (λ _, True) (read_range t rq);
  lookback_within t metric m at_ lookback : asks (within t) (λ _, True) (read_lookback t metric m at_ lookback);
  bands_within t watch anomalous at_ lookback : asks (within t) (λ _, True) (read_bands t watch anomalous at_ lookback);
}.

(** The client of the time-series store is one. *)
#[global] Instance vm_scoped (FormatFloat : byte → float64 → bytes) (ParseFloat : bytes → option float64) (other : float64 → Z) :
    ScopedReader vcall (vm_reader FormatFloat ParseFloat other) :=
  Build_ScopedReader vcall (vm_reader FormatFloat ParseFloat other) scoped_call (range_scoped ParseFloat other)
    (lookback_scoped ParseFloat other) (bands_scoped FormatFloat ParseFloat other).

Section handlers.
Context {F : Type → Type} (rd : MetricsReader F) (Hrd : ScopedReader F rd) (other : float64 → Z) (ctx : option Tenant).

(** What a handler may call: reads within its caller's tenant, devices as its caller. *)
Definition own_call : ∀ R, acall F R → Prop := λ _ c,
  match c with
  | Read _ c => ∃ tenant, TenantFromContext ctx = Some tenant ∧ within (TenantID tenant) _ c
  | DeviceGet ctx' _ | DeviceCounts ctx' _ => ctx' = ctx
  | _ => True
  end.

Lemma reading_own {A} tenant (p : prog F A) : TenantFromContext ctx = Some tenant →
  asks (within (TenantID tenant)) (λ _, True) p → asks own_call (λ _, True) (reading p).
Proof.
  intros Ht. induction p as [a|R c k IH|]; [done| |done]. intros [Hc Hk]. split; [by exists tenant|]. intros r. by apply IH.
Qed.

Lemma build_own tenant id q : TenantFromContext ctx = Some tenant →
  asks own_call (λ r, ∀ resp, r = Ok resp →
    response_ok (buildMetricGrid other (mq_from q) (mq_to q) (mq_step q)) (dimFilter (mq_dims q)) resp)
    (buildMetricRange other rd (TenantID tenant) id q).
Proof.
  intros Ht. unfold buildMetricRange. set (g := buildMetricGrid _ _ _ _).
  assert (∀ agg, asks own_call (λ _, True) (reading (read_range (TenantID tenant) (mk_range metricAvgName
    {[deviceLabel := uuid_String id]} agg (queryStart g) (queryEnd g) (mq_step q))))) as Hr.
  { intros agg. eapply reading_own; [done|]. apply range_within. }
  assert (∀ avg mins maxs, asks own_call (λ r, ∀ resp, r = Ok resp →
    response_ok g (dimFilter (mq_dims q)) resp) (finish_range id q g avg mins maxs)) as Hf.
  { intros avg mins maxs. unfold finish_range. pose proof (assembled_ok avg mins maxs (dimFilter (mq_dims q)) (mq_wantBand q) g) as Ha.
    destruct (assembleMetricRange _ _ _ _ _ _) as [resp off]. unfold reportGridMisalignment.
    case_bool_decide; [by intros r [= <-]|]. apply asks_call; [done|]. intros _ r [= <-]. done. }
  eapply asks_bind; [apply Hr|]. intros [avg|] _; [|done]. destruct (mq_wantBand q); [|apply Hf].
  eapply asks_bind; [apply Hr|]. intros [mins|] _; [|done]. eapply asks_bind; [apply Hr|]. intros [maxs|] _; [apply Hf|done].
Qed.

(** The chart handler reads only series of its caller's tenant, through any
    reader that keeps tenants apart, and every chart it answers has its time axis on
    the grid of the request, columns exactly as long, only the dimensions asked for,
    and both edges of a band or neither. *)
Theorem device_chart_exact id p :
  asks own_call (λ r, ∀ resp, r = Chart resp →
    pm_From p < pm_To p ∧ is_Some (TenantFromContext ctx) ∧
    response_ok (buildMetricGrid other (pm_From p) (pm_To p)
      (chooseStep other (pm_From p) (pm_To p) (clampMaxPoints (pm_MaxPoints p)))) (dimFilter (pm_Dims p)) resp)
    (GetDeviceMetrics (Some rd) other ctx id p).
Proof.
  unfold GetDeviceMetrics. apply asks_call; [done|]. intros []; [|done|done].
  destruct (TenantFromContext ctx) as [tenant|] eqn:Et; [|done]. case_bool_decide as Hft; [|done]. cbn [negb].
  eapply asks_bind; [by apply build_own|]. intros [resp|] Hresp; [|done]. intros r [= <-]. split; [lia|]. split; [by eexists|].
  by apply Hresp.
Qed.
End handlers.

(** ** A day's chart *)

Module Day.

Definition other : float64 → Z := λ _, 0.
Definition from : time := 1000 * second.
Definition to : time := from + 24 * hour.

Lemma chart_bounded_witness :
  chooseStep other from to (clampMaxPoints None) = 87 * second ∧
  length (mg_ts (buildMetricGrid other from to (87 * second))) = 993%nat ∧
  ∃ k n, chooseStep other from to (clampMaxPoints None) = k * second ∧ 60 ≤ k ∧ Z.of_nat n ≤ clampMaxPoints None.
Proof.
  split; [by vm_compute|]. split; [by vm_compute|].
  destruct (chart_bounded other from to None) as (_ & k & n & H1 & H2 & _ & _ & _ & H3 & _); [by vm_compute|by vm_compute|].
  exists k, n. by split.
Defined.

Definition tenant1 : Tenant := mk_tenant (replicate 15 x00 ++ [x11]) false.
Definition box : uuid := replicate 15 x00 ++ [x31].
Definition ask : MetricsParams := mk_params from to None None None.
Definition client := vm_reader (λ _ _, lit "1") (λ _, Some f_one) other.

(** The first call of the handler is the device's check; found, it reads a range. *)
Lemma device_chart_exact_witness :
  asks (own_call client (vm_scoped (λ _ _, lit "1") (λ _, Some f_one) other) (Some tenant1)) (λ r, ∀ resp, r = Chart resp →
    pm_From ask < pm_To ask ∧ is_Some (TenantFromContext (Some tenant1)) ∧
    response_ok (buildMetricGrid other (pm_From ask) (pm_To ask)
      (chooseStep other (pm_From ask) (pm_To ask) (clampMaxPoints (pm_MaxPoints ask)))) (dimFilter (pm_Dims ask)) resp)
    (GetDeviceMetrics (Some client) other (Some tenant1) box ask).
Proof. apply (device_chart_exact client (vm_scoped _ _ _) other (Some tenant1) box ask). Defined.

(** A reader that answers at once: seven machines of the tenant are anomalous. *)
Definition seven : MetricsReader vcall := {|
  read_range := λ _ _, Ret (Ok []);
  read_lookback := λ _ _ _ _ _, Ret (Ok []);
  read_bands := λ _ _ _ _ _, Ret (Ok (mk_bands 7 0 0));
|}.

(** A run, the devices counted as given and the clock at zero. *)
Fixpoint answered {A} (counts : Counts) (p : prog (acall vcall) A) {struct p} : option A :=
  match p with
  | Ret a => Some a
  | @Do _ _ R c k =>
      match c in acall _ R return ((R → option A) → option A) with
      | DeviceGet _ _ => λ go, go DevFound
      | DeviceCounts _ _ => λ go, go (Some counts)
      | Misaligned _ _ => λ go, go tt
      | ANow => λ go, go 0
      | Read _ _ => λ _, None
      end (λ r, answered counts (k r))
  | Panic => None
  end.

(** A customer of one machine is shown the bands of the whole tenant: the bands do
    not follow the customer the rollup is narrowed to. *)
Example customer_shown_tenant_bands (organization : uuid) :
  answered (mk_counts 1 1 0) (GetDeviceSummary (Some seven) (Some tenant1) (Some organization)) =
  Some (Chart (mk_summary 1 1 0 0 (mk_fleet 7 0 0 0))).
Proof. by vm_compute. Qed.

(** Two samples of one bucket, the later one kept; one off the grid, counted. *)
Example aligned : let g := buildMetricGrid other from (from + 300 * second) (60 * second) in
  alignValues (mk_rseries ∅ [960; 1020; 1020; 1021; 9999] [f_one; f_zero; f_one; f_one; f_one]) (lit "cpu") g (mk_off 0 [] 0) =
  ([Some f_one; Some f_one; None; None; None], mk_off 2 (lit "cpu") 1021).
Proof. by vm_compute. Qed.

(** A window longer than its whole buckets ends before its end: 119 seconds are one
    bucket of a minute, and the last 59 are left out. *)
Example short_tail : mg_ts (buildMetricGrid other 0 (119 * second) (60 * second)) = [0].
Proof. by vm_compute. Qed.

(** Rounding of a float64: a window of 200 days less a nanosecond counts as 200 days. *)
Example rounded_up : int_seconds other (200 * 24 * hour - 1) = 200 * 86400.
Proof. by vm_compute. Qed.
End Day.
